(* ===== verification/_CoqProject ===== *)
-Q . S2P
Prelude.v
Text.v
Index.v
Stream.v
Wire.v
Envelope.v
Frame.v
Routes.v
Xmldef.v
Json.v
Codec.v
Pipeline.v
Build.v
Session.v
Listener.v
Manifest.v
Schema.v
Topo.v
PluginHost.v
Lifecycle.v
Config.v
Numbers.v
RuntimeConfig.v
Cluster.v
Matchmaking.v
LuaPack.v
LuaJson.v
ScriptCache.v
ServiceState.v
Services.v
ServiceDemo.v
ServiceSteps.v
Registry.v
CallSessions.v
ServiceExit.v
ServiceDefects.v
Gateway.v
Bootstrap.v
Server.v
Console.v
MiniJson.v
Auth.v
Doubles.v
Leaderboard.v
Health.v
Metrics.v
DbMapper.v
SqlPool.v
MysqlPool.v
PgsqlPool.v
SqlPlugin.v
Sqlite.v
Mysql.v
Pgsql.v
RedisDriver.v
CacheRedis.v
QueueRedis.v
MongoJson.v
Mongodb.v
HttpClient.v
HttpServer.v
LuaApi.v
ByteBuffer.v
Encryption.v
CodecPlugins.v
Logger.v
ConsoleServer.v
Core.v
Heap.v
MatchPlugin.v
ConsoleClient.v
PluginHttp.v
LeaderboardPlugin.v
PluginLibrary.v
Results.v
LuaScripts.v
RedisPlugins.v
