(* ===== verification/Prelude.v ===== *)
(** * Shield: a verification of the game server's core

    Shield is a C++ game server.  Bytes arrive on a TCP session, an envelope
    cuts them into packets, a route table says what to do with each packet, a
    body codec turns bodies into messages, and services written in Lua handle
    them; plugins loaded from shared libraries provide databases, caches and
    further codecs.  This library models the path of a message from the socket to
    the service that handles it, the life of services and plugins, the
    configuration they start from, and how the program starts and ends with all
    of them, and proves what makes them correct.

    ** Parts of the program and the files that model them

    Transport (src/src/transport, src/include/shield/transport):
    - [Wire]: read_uint, write_uint, fits_width, body_length_from_field of
      protocol.cpp, integers of 1 to 8 bytes in both byte orders;
    - [Stream]: the class of incremental decoders, with the lemmas about feeding
      a stream in pieces that every envelope uses;
    - [Envelope]: the four envelopes of protocol.cpp, a Module each
      ([LenPrefixEnvelope], [IdLenEnvelope], [TypeLenEnvelope],
      [DelimiterEnvelope]), with the buffer, the error text and the limits, and
      the factory create_envelope;
    - [Frame]: the older framing of frame.cpp, header, Frame::serialize/parse and
      the FrameDecoder with its cached header;
    - [Text]: trim_copy, parse_u32, parse_u16, parse_bool, parse_action, and
      std::stoull and std::to_string as they use them;
    - [Index]: an index from names to numbered entries, what the route table and
      the codec registry share;
    - [Routes]: RouteEntry and RouteTable; [Xmldef]: the XML catalog loader;
    - [Json]: the values of nlohmann::json and its conversions;
    - [Codec]: the body codecs (raw, pass-through, JSON, plugin) and the
      BodyCodecRegistry; [Pipeline]: ProtocolPipeline, receiving, dispatching,
      decoding and sending; [Build]: build_protocol_pipeline_from_json;
    - [CodecPlugins]: protocol.msgpack and protocol.protobuf (src/plugins), the
      codecs that the plugin codec of [Codec] calls;
    - [Encryption]: encryption.cpp, and the JSON and MessagePack codecs of
      codec.cpp.

    Network (src/src/net, src/include/shield/net):
    - [Session]: TcpSession as a transition system; a label is one access to
      shared state by a caller's thread or by a handler of the strand, or the
      completion of a read, a write or the idle timer;
    - [Listener]: TcpListener likewise: the accept loop between its critical
      sections, the session and address tables, kick and stop;
    - [HttpClient]: http_client.cpp, requests with their options, retries and
      downloads; [HttpServer]: http_server.cpp, routes, answers, start and stop.

    Plugins (src/src/plugin, src/include/shield/plugin):
    - [Manifest]: manifest.cpp, the YAML conversion and the manifest parser;
    - [Schema]: schema_validator.cpp, validation, defaults and secret paths;
    - [Topo]: Kahn's algorithm as plan_and_resolve runs it;
    - [PluginHost]: plugin_host.cpp, every stage from scan to shutdown, Lua
      registration and the queries, with a trace of the calls into plugins;
    - [Lifecycle]: the properties of the host; [PluginLibrary]: the owners of
      handles of plugin_library.cpp.

    Configuration (src/src/config/config.cpp, src/src/plugin/plugin_config.cpp):
    - [Config]: merging of YAML documents, the store of dotted paths with its
      readers and writers, and the plugin configuration read back from it;
      [Numbers]: std::stoll and std::stod, and Config::get_double;
    - [RuntimeConfig]: validate_runtime_config with all its sections,
      runtime_actors and runtime_net_threads, and parse_endpoint of
      src/src/bootstrap/bootstrap.cpp.

    Services (src/src/lua, src/include/shield/lua):
    - [ServiceState]: the members of LuaServiceManager::Impl (lua_service.cpp)
      and every operation on them that runs no Lua code: registry and names,
      forked tasks, timers, sessions of calls, sending, error counts, the clock;
    - [Services]: the operations that run Lua code (spawn, exit, dispatch, calls,
      timeouts, timers, forked tasks, shutdown), the functions of the shield
      table (lua_api.cpp), the entry points of lua_runtime.cpp, the interpreter
      of scripts, and [reachable], the states under a program that does anything;
    - [ServiceDemo]: two small services for evaluating the model;
      [ServiceSteps]: what no operation ever undoes, by induction on scripts;
    - [Registry], [CallSessions], [ServiceExit]: the properties of names, of
      calls and of the end of services; [ServiceDefects]: runs that go wrong;
    - [LuaPack]: LuaPackEncoder and LuaPackDecoder of lua_runtime.cpp;
    - [LuaJson]: lua_to_json of lua_runtime.cpp and json_to_lua and its relatives
      of lua_api.cpp; [ScriptCache]: the cache of Lua sources of lua_runtime.cpp;
      [LuaScripts]: the VMs of lua_runtime.cpp, their API, scripts and globals;
    - [Gateway]: LuaGatewayBridge (lua_gateway_bridge.cpp), the bindings of
      sessions (net/session.hpp) and the registry of session handles
      (lua_api.cpp), joined with a session's pipeline and the service manager;
    - [LuaApi]: the bindings of lua_api.cpp that are not in [Services]:
      configuration, log messages, session handles, the cluster.

    Program (src/src/bootstrap, src/src/shield.cpp):
    - [Bootstrap]: the starters of starter.cpp, and initialize, its clean-up and
      shutdown of bootstrap.cpp, a stage per part of initialize;
    - [Server]: the command line and run of shield.cpp, what may happen while the
      server runs, and the properties of its start and end.

    Console (src/src/console, src/src/net):
    - [Console]: the session's lines, the dispatcher, and every command of
      root_commands.cpp and lua_commands.cpp on the services, plugins,
      configuration and cluster of a running program;
    - [ConsoleServer]: what console_session.cpp writes, and the accept loop and
      sessions of console_server.cpp, as transition systems;
    - [ConsoleClient]: the client of src/tools/shield-console, joined with
      [Console].

    Plugins of the repository (src/plugins):
    - [MiniJson]: the search for members in JSON texts that several plugins use;
      [Doubles]: integers that a double holds exactly;
    - [Auth]: auth_jwt, base64, tokens, blacklist; [Leaderboard]:
      leaderboard.redis, packing of scores and the proxy for scripts;
      [LeaderboardPlugin]: its memory; [Health]: health_http;
      [Metrics]: metric_prometheus; [PluginHttp]: the listener of both, as a
      transition system; [Matchmaking]: the queue of matchmaking_elo;
      [MatchPlugin]: its configuration and the memory of its results; [Heap]:
      blocks of malloc and free, for the results of C tables;
    - [DbMapper]: _shared/shield_db_mapper.hpp, the Lua code for statements with
      named parameters and for entities;
    - [SqlPool]: accounts of a pool, shared by [MysqlPool] and [PgsqlPool], the
      connection pools as transition systems of the threads that use them;
    - [SqlPlugin]: scripts that use a database and what the SQL plugins share;
      [Sqlite], [Mysql], [Pgsql]: their statements, transactions, tables for
      other plugins, configuration and namespaces;
    - [RedisDriver], [CacheRedis], [QueueRedis]: redis.driver, cache.redis and
      queue.redis, with both ways of the cache to Redis and the consumers of a
      stream; [RedisPlugins]: the instances of the plugins over Redis, which the
      host, the registry and scripts share;
    - [MongoJson], [Mongodb]: mongodb, the conversions between Lua values and
      documents, and the proxies, transactions and table.

    Others:
    - [Cluster]: ClusterManager of src/src/cluster/cluster_manager.cpp;
    - [Logger]: src/src/log/logger.cpp, levels, sinks and rotation;
    - [Core]: identifiers (src/src/shield_base/id.cpp), and the handles, the
      registry and the CAF adapter of src/src/core;
    - [ByteBuffer]: src/include/shield/base/byte_buffer.hpp; [Results]:
      error.hpp, result.hpp and time.hpp beside it.

    The components are joined as in the code: [Pipeline] calls [Envelope],
    [Routes] and [Codec]; [Session] feeds a pipeline or a frame decoder;
    [PluginHost] calls [Manifest], [Schema] and [Topo]; [Gateway] feeds a
    pipeline and sends to the manager of [Services]; [RuntimeConfig] and
    [Cluster] read the store and the tree of [Config]; [Bootstrap] runs all of
    them.

    ** How the code is modelled

    A [w]-bit unsigned integer is a [Z] and every conversion that may wrap is
    followed by [cast w]; [std::size_t] has 64 bits.  Bytes are [byte], strings
    [string].  Code that can throw returns an [outcome], with [Undef] for
    undefined behaviour; code that fails through an error text returns it.
    Objects that are mutated are records passed along.  Maps are [gmap]s, or
    association lists in key order where the code iterates over them.  Code
    outside of the repository is a member of a class, an argument of the
    definitions that use it: [JsonLib] (parsing and printing of nlohmann::json),
    [YamlLib] (yaml-cpp), [FileSystem], and [Plugins], the functions of shared
    libraries, whose answers may depend on every call made before; and
    [LuaWorld], what the Lua runtime is asked for, and [LuaInterpreter], the
    compiler and interpreter below it; [SolKeys], how sol2 reads float
    keys; [Starters] and [Machine], the program and the machine around the
    server; [Curl] (libcurl), [Gcm] with [GcmLaws] (the ciphers of OpenSSL),
    [Disk], which files can be opened, [LuaOs]; and the libraries of plugins:
    [Hmac], [Redis] and [RedisPP], [Sqlite3], [MysqlX], [Libpq], [Streams],
    [Bson] and [MongoCxx], [MsgPack] with [MsgObjects], [Protobuf], with the conversions of sol2
    they rely on ([DocKeys], [SolGet]); and [ConsoleJson], the layout of
    printed JSON for the console's client.  Lua code is an arbitrary
    tree of calls to the shield table; the functions that may run it take the
    interpreter as an argument ([run]).  CAF delivers sent messages in any order
    and timer messages at any time.  JSON and Lua values are taken as the same
    values between services.  Counters of the service manager are unbounded,
    modules do not call the manager while they are loaded, and shutdown is not
    interleaved with the inside of a spawn.

    ** What is proved

    - Envelopes and frames: encoding a list of packets and receiving the bytes
      in pieces cut anywhere gives the same packets; the cutting never matters;
      no byte is lost, duplicated or reordered; frames over the limit are
      rejected at their header; the width check of the sender is exact.
    - Routes and catalogs: the table's two lookups agree in every reachable
      table; printing a catalog and loading it gives the same routes; loading
      keeps the table consistent on every path.
    - Codecs and pipeline: messages survive a pair of equally configured
      pipelines, on the same routes; dispatch never acts outside of the table;
      what the builder accepts satisfies the assumptions of these theorems, and
      no exception leaves it.
    - Sessions: in every interleaving the accepted sends stay within the limit,
      frames reach the wire in the order they were queued, and the owner learns
      of a disconnection once.
    - Listener: both connection limits hold in every reachable state and the
      counts per address are exact.
    - Plugins: manifests round-trip; the validator decides conformance and
      defaults never overwrite; the start order is topological and a cycle is
      reported only if there is one; a successful startup has every required
      instance started after what it depends on; shutdown stops dependents
      first, each instance once; a failed startup leaves nothing started; only
      libraries inside their package are opened.
    - Configuration: later documents win leaf by leaf; the store holds exactly
      the leaves of the merged document; the plugin section is never recovered
      from the store's JSON form, a defect of the code; and the actor
      declarations of a configuration that passes the validation can be used.
    - Services: in every reachable state, whatever scripts do and however events
      are ordered, the index of names is exact and implements a plain map of
      names, and no caller is answered twice; a call that times out is resumed;
      an exit leaves nothing of the service; shutdown ends every service, newest
      first; LuaPack values round-trip, and with enough stack decoding ends
      inside of every buffer whose lengths do not wrap; portable
      values survive the way through JSON; what spawning makes of a script depends on
      the files, the configuration and the plugins, not on the script cache.
    - Gateway: a service receives from a client only what the route table opens
      to clients without a player.
    - Program: a start that succeeds has what the configuration asks for, and
      every run that ends without an exception has released everything.
    - Cluster: the failure detector is accurate and complete.  Matchmaking:
      matches have the right size and spread, players are in one match, and
      nobody who could be matched with the next players stays behind.
    - Console: whatever is typed, the program it looks at stays as it is, and
      answers are written whole and in order; its client gets one answer to each
      line and stays in step with the server.
    - Encryption: decryption accepts exactly what encryption makes.  HTTP: a
      request ends, after no more attempts than were asked for; requests are
      answered by the handler of their path.  Session handles: a send is posted
      once or refused with its reason.
    - Log: rotation keeps the lines in order in files of bounded size.  Core: the
      texts of identifiers round-trip and callbacks run as often as their timers
      say.  Buffers: what is written is read, and never outside.
    - Tokens: what an instance issues it accepts, and what it accepts is signed,
      in time and not revoked.  Leaderboards are the abstract boards; health and
      metrics report what was recorded, one request at a time, and their
      shutdown ends unless a client is awaited.  Results of plugins and board
      names are freed exactly once, and so are the handles of libraries.
    - Databases: values never become SQL text; the pools keep their limit, never
      share a connection and forget no waiting thread; every connection comes
      back once and a transaction commits only when its callback succeeded.
    - Redis: both ways of the cache agree; a queue delivers what is published in
      order, each message at most once, and all of it when no answer is lost and
      no callback throws; scripts are given living instances only, and the handles
      of the driver come back.  MongoDB: values come back from their JSON with
      doubles for integers, and every client comes back.
    - Codec plugins: a message goes through both of them unchanged.

    The end of [ServiceDefects], [LuaPack], [LuaJson], [ScriptCache],
    [RuntimeConfig], [Cluster], [Gateway] and [Server], and of the files of the
    console and the plugins, evaluates the model on inputs that the code
    mishandles.

    Theorems with hypotheses have a witness at a concrete input.

    ** Fuel and bounds

    Every loop of the model is total.  Envelope and frame loops run with one
    unit of fuel per buffered byte and one more, and the lemmas of [Stream] show
    that more makes no difference, since every round consumes a byte.  The
    scanner of [Xmldef] has one unit per character.  [Topo.drain_queue] has one
    round per instance, enough since each enters the queue once
    ([drain_queue_spec]).  [to_string_u64] has 20 digits, those of [2^64 - 1].
    [Services.run] has a depth, the nesting of manager operations that scripts
    start from one another, like Lua's own limit on C calls; the theorems hold
    for every depth, and [ServiceExit.shutdown_ends_services] for different ones
    at once.  [LuaPack.decode_value] has a stack of so many nested calls, and a
    full stack is undefined behaviour; one call per five bytes is enough by
    [LuaPack.decode_terminates], and less can be too little
    ([LuaPack.deep_nesting_overflows]).  Its loops have one round per byte and one
    more; its encoder recurses on the nesting limit.
    [LuaJson.to_json_value] has one unit per table on the longest path into the
    value, enough by [LuaJson.lua_json_roundtrip], and so has
    [MongoJson.to_document] ([MongoJson.to_document_enough]); a Lua table that
    contains itself, on which the code does not end, is no value of the model.
    [Matchmaking.groups] has one round per player.  [Sqlite.rows_left] is what a
    statement can still give; that it ends is a law of the class.  All other
    recursions are structural.

    ** What is not modelled

    Sockets, timers and threads are labels of the transition systems, not code.
    Paths are POSIX paths, and the branches for Windows are left out.  Components
    do not log in the model.  Connecting, line editing and terminals of the
    console's client, the message texts of the operating system, and the bodies
    of libraries (Lua, sol2, databases, OpenSSL, libcurl) are outside of it.
    [malloc] and [new] are assumed to succeed.  Headers that only declare
    interfaces of plugins are modelled where a plugin implements them. *)

From stdpp Require Export base list strings gmap numbers decidable.
From coqutil Require Export Byte Word.LittleEndianList.
From Stdlib Require Export Lia Btauto.

#[global] Open Scope Z_scope.

(** ** Machine integers

    A [w]-bit unsigned C++ integer is a [Z]; every conversion and every
    arithmetic operation that can leave the range is followed by the wrap-around
    of its width.  [std::size_t] is 64 bits wide. *)

Definition cast (w z : Z) : Z := z `mod` 2 ^ w.

Declare Scope cpp_scope.
Delimit Scope cpp_scope with cpp.
Notation "'u8' z" := (cast 8 z) (at level 10, z at level 9) : cpp_scope.
Notation "'u16' z" := (cast 16 z) (at level 10, z at level 9) : cpp_scope.
Notation "'u32' z" := (cast 32 z) (at level 10, z at level 9) : cpp_scope.
Notation "'u64' z" := (cast 64 z) (at level 10, z at level 9) : cpp_scope.
#[global] Open Scope cpp_scope.

(** [std::numeric_limits<std::size_t>::max()] and the 32- and 16-bit maxima. *)
Definition size_max : Z := 2 ^ 64 - 1.
Definition u32_max : Z := 2 ^ 32 - 1.
Definition u16_max : Z := 2 ^ 16 - 1.

(** [std::vector::size()]. *)
Definition vsize {A} (l : list A) : Z := Z.of_nat (length l).

(** [std::string] and byte vectors hold the same octets. *)
Definition bytes_of (s : string) : list byte := String.list_byte_of_string s.
Definition string_of (l : list byte) : string := String.string_of_list_byte l.

(** ** Exceptions

    C++ code that can throw returns an [outcome].  [JsonExn] stands for
    [nlohmann::json::exception], a subclass of [std::exception]; [StdExn] for
    every other [std::exception].  Both carry the text of [what()].  [Undef]
    is undefined behaviour (a conversion out of range, a dereferenced null
    pointer): nothing after it is specified. *)

Inductive exn :=
| StdExn (what : string)
| JsonExn (what : string).

Definition exn_what (e : exn) : string :=
  match e with StdExn w => w | JsonExn w => w end.

Inductive outcome (A : Type) :=
| Ret (a : A)
| Throw (e : exn)
| Undef.
Arguments Ret {A} a.
Arguments Throw {A} e.
Arguments Undef {A}.

Definition obind {A B} (m : outcome A) (k : A -> outcome B) : outcome B :=
  match m with Ret a => k a | Throw e => Throw e | Undef => Undef end.

Definition of_sum {A} (m : exn + A) : outcome A :=
  match m with inl e => Throw e | inr a => Ret a end.

Notation "'let!' x := m 'in' k" := (obind m (fun x => k))
  (at level 10, x name, m at level 100, k at level 200) : cpp_scope.

Lemma obind_ret_inv {A B} (m : outcome A) (k : A -> outcome B) b :
  obind m k = Ret b -> exists a, m = Ret a /\ k a = Ret b.
Proof. destruct m; cbn; [eauto | discriminate | discriminate]. Qed.

(** ** Error texts

    Code that fails with a message through an out-parameter returns the message
    on the left; code that throws and has no undefined case returns the
    exception there. *)

Definition ebind {E A B} (m : E + A) (k : A -> E + B) : E + B :=
  match m with inl e => inl e | inr a => k a end.

Notation "'let?' x := m 'in' k" := (ebind m (fun x => k))
  (at level 10, x name, m at level 100, k at level 200) : cpp_scope.

(** [if (!parsed) { *error = e; return ...; }] *)
Definition require {A} (o : option A) (e : string) : string + A :=
  match o with Some a => inr a | None => inl e end.

Lemma ebind_inr {E A B} (m : E + A) (k : A -> E + B) b :
  ebind m k = inr b <-> exists a, m = inr a /\ k a = inr b.
Proof. destruct m; cbn; naive_solver. Qed.

(** ** Automation *)

Create HintDb shield.
Create Rewrite HintDb shield.

(** Split every boolean comparison of a hypothesis or the goal into the
    proposition it decides, and finish by arithmetic. *)
Ltac bools :=
  repeat match goal with
  | H : (_ && _)%bool = true |- _ => apply andb_true_iff in H as [? ?]
  | H : (_ || _)%bool = false |- _ => apply orb_false_iff in H as [? ?]
  | H : negb _ = true |- _ => apply negb_true_iff in H
  | H : negb _ = false |- _ => apply negb_false_iff in H
  | H : (_ <? _) = true |- _ => apply Z.ltb_lt in H
  | H : (_ <? _) = false |- _ => apply Z.ltb_ge in H
  | H : (_ <=? _) = true |- _ => apply Z.leb_le in H
  | H : (_ <=? _) = false |- _ => apply Z.leb_gt in H
  | H : (_ =? _) = true |- _ => apply Z.eqb_eq in H
  | H : (_ =? _) = false |- _ => apply Z.eqb_neq in H
  end.

(** Case analysis on the conditional or match that blocks the goal or [H]. *)
Ltac case_head :=
  match goal with
  | |- context [if ?b then _ else _] =>
      lazymatch b with context [if _ then _ else _] => fail
      | _ => let E := fresh "E" in destruct b eqn:E end
  | |- context [match ?x with _ => _ end] =>
      lazymatch x with context [match _ with _ => _ end] => fail
      | _ => let E := fresh "E" in destruct x eqn:E end
  end.

Ltac case_in H :=
  match type of H with
  | context [if ?b then _ else _] =>
      lazymatch b with context [if _ then _ else _] => fail
      | _ => let E := fresh "E" in destruct b eqn:E end
  | context [match ?x with _ => _ end] =>
      lazymatch x with context [match _ with _ => _ end] => fail
      | _ => let E := fresh "E" in destruct x eqn:E end
  end.

(** Evaluate lookups in maps built by insertions at literal keys. *)
Ltac lookups :=
  repeat match goal with
  | |- context [<[?k := ?v]> ?m !! ?j] =>
      first [ rewrite (lookup_insert_eq m k v)
            | rewrite (lookup_insert_ne m k j v) by discriminate ]
  | |- context [?m !! ?j] =>
      lazymatch m with ∅ => rewrite (lookup_empty j) end
  end.

(** ** Shared lemmas *)

Lemma cast_small w z : 0 <= z < 2 ^ w -> cast w z = z.
Proof. apply Z.mod_small. Qed.

Lemma cast_range w z : 0 <= w -> 0 <= cast w z < 2 ^ w.
Proof. intros. apply Z.mod_pos_bound. lia. Qed.

Lemma vsize_nonneg {A} (l : list A) : 0 <= vsize l.
Proof. unfold vsize. lia. Qed.

Lemma vsize_app {A} (l k : list A) : vsize (l ++ k) = vsize l + vsize k.
Proof. unfold vsize. rewrite length_app. lia. Qed.

Lemma vsize_nil {A} : vsize (@nil A) = 0.
Proof. reflexivity. Qed.

Lemma vsize_cons {A} (x : A) l : vsize (x :: l) = 1 + vsize l.
Proof. unfold vsize. cbn [length]. lia. Qed.

Lemma vsize_zero_nil {A} (l : list A) : vsize l <= 0 -> l = [].
Proof. destruct l; [done|]. rewrite vsize_cons. pose proof (vsize_nonneg l). lia. Qed.

Lemma take_app_prefix {A} n (l k : list A) : Z.of_nat n <= vsize l -> take n (l ++ k) = take n l.
Proof. intros. rewrite take_app_le; [done|]. unfold vsize in *. lia. Qed.

Lemma drop_app_prefix {A} n (l k : list A) :
  Z.of_nat n <= vsize l -> drop n (l ++ k) = drop n l ++ k.
Proof. intros. rewrite drop_app_le; [done|]. unfold vsize in *. lia. Qed.

Lemma string_of_bytes_of s : string_of (bytes_of s) = s.
Proof. apply String.string_of_list_byte_of_string. Qed.

Lemma bytes_of_string_of l : bytes_of (string_of l) = l.
Proof. apply String.list_byte_of_string_of_list_byte. Qed.

Lemma string_empty_dec (s : string) : {s = ""} + {s <> ""}.
Proof. destruct s; [left|right]; done. Qed.

#[export] Hint Resolve vsize_nonneg cast_range : shield.
#[export] Hint Rewrite @vsize_app @vsize_nil @vsize_cons : shield.

(** [s.size()] *)
Definition slen (s : string) : Z := Z.of_nat (String.length s).

(** [s.empty()] *)
Definition str_empty (s : string) : bool := match s with EmptyString => true | _ => false end.

Lemma str_empty_true s : str_empty s = true <-> s = "".
Proof. destruct s; cbn; split; congruence. Qed.

Lemma str_empty_false s : str_empty s = false <-> s <> "".
Proof. destruct s; cbn; split; congruence. Qed.

#[export] Hint Rewrite str_empty_true str_empty_false : shield.

Lemma Z_log2_lt_pow2_nonneg a n : 0 <= a -> 0 < n -> a < 2 ^ n -> Z.log2 a < n.
Proof.
  intros Ha Hn Hlt. destruct (Z.eq_dec a 0) as [->|]; [cbn; lia|].
  apply Z.log2_lt_pow2; lia.
Qed.

(** A multiple of a power of two has no bit in common with a smaller number. *)
Lemma land_shifted w q d : 0 < w -> 0 <= d < 2 ^ w -> Z.land (q * 2 ^ w) d = 0.
Proof.
  intros Hw Hd. rewrite <-Z.shiftl_mul_pow2 by lia. apply Z.bits_inj'. intros n Hn.
  rewrite Z.land_spec, Z.bits_0, Z.shiftl_spec by done.
  destruct (Z.ltb_spec n w); [by rewrite Z.testbit_neg_r by lia|].
  rewrite (Z.bits_above_log2 d); [apply andb_false_r|lia|].
  pose proof (Z_log2_lt_pow2_nonneg d w). lia.
Qed.

Lemma lor_shifted w q d : 0 < w -> 0 <= d < 2 ^ w -> Z.lor (q * 2 ^ w) d = q * 2 ^ w + d.
Proof. intros Hw Hd. pose proof (Z.add_lor_land (q * 2 ^ w) d). rewrite land_shifted in * by done. lia. Qed.
