(* ===== verification/Text.v ===== *)
(** * Text: the string helpers of src/transport/protocol.cpp

    [trim_copy], the numeric, boolean and action parsers built on it, and the
    parts of the C++ library they call: [std::stoull] with base 0 and
    [std::to_string].  The lemmas show that a printed number, padded with any
    blanks, is read back. *)

From Stdlib Require Export Strings.Ascii.
From S2P Require Import Prelude.

(** ** Character classes *)

(** Membership in the set [" \t\r\n"] of [find_first_not_of]. *)
Definition is_ws (c : Ascii.ascii) : bool :=
  Ascii.eqb c " "%char || Ascii.eqb c "009"%char || Ascii.eqb c "013"%char || Ascii.eqb c "010"%char.

(** [std::isspace] in the C locale. *)
Definition isspace (c : Ascii.ascii) : bool :=
  let n := Ascii.N_of_ascii c in ((9 <=? n)%N && (n <=? 13)%N) || (n =? 32)%N.

Definition between (lo hi : Ascii.ascii) (c : Ascii.ascii) : bool :=
  let n := Ascii.N_of_ascii in (n lo <=? n c)%N && (n c <=? n hi)%N.

(** [std::isalnum] in the C locale. *)
Definition isalnum (c : Ascii.ascii) : bool :=
  between "0"%char "9"%char c || between "A"%char "Z"%char c || between "a"%char "z"%char c.

Definition str_in (s : string) (l : list string) : bool := existsb (String.eqb s) l.

(** ** Scanning *)

(** Advance over the longest prefix whose characters satisfy [p]. *)
Fixpoint skip (p : Ascii.ascii -> bool) (s : string) : string :=
  match s with
  | String c s' => if p c then skip p s' else s
  | "" => ""
  end.

Fixpoint span (p : Ascii.ascii -> bool) (s : string) : string * string :=
  match s with
  | String c s' => if p c then let '(a, b) := span p s' in (String c a, b) else ("", s)
  | "" => ("", "")
  end.

(** [s.find(c)]: the text before the first [c] and the text after it. *)
Fixpoint split_at (c : Ascii.ascii) (s : string) : option (string * string) :=
  match s with
  | String d s' =>
      if Ascii.eqb d c then Some ("", s')
      else match split_at c s' with Some (a, b) => Some (String d a, b) | None => None end
  | "" => None
  end.

Fixpoint rtrim (s : string) : string :=
  match s with
  | String c s' =>
      let r := rtrim s' in
      if is_ws c && str_empty r then "" else String c r
  | "" => ""
  end.

Definition trim_copy (value : string) : string := rtrim (skip is_ws value).

(** ** Numbers *)

Definition digit_val (base : Z) (c : Ascii.ascii) : option Z :=
  let n := Z.of_N (Ascii.N_of_ascii c) in
  let v :=
    if between "0"%char "9"%char c then n - 48
    else if between "A"%char "Z"%char c then n - 55
    else if between "a"%char "z"%char c then n - 87 else base in
  if v <? base then Some v else None.

(** The digits at the front of [s]: their value and their number. *)
Fixpoint scan_digits (base : Z) (s : string) (acc n : Z) : Z * Z :=
  match s with
  | String c s' =>
      match digit_val base c with
      | Some v => scan_digits base s' (acc * base + v) (n + 1)
      | None => (acc, n)
      end
  | "" => (acc, n)
  end.

(** The base that [strtoull] with base 0 reads off the prefix, the text of the
    digits and the length of the prefix. *)
Definition strtoull_prefix (s : string) : Z * string * Z :=
  match s with
  | String "0"%char (String x (String d s')) =>
      if (Ascii.eqb x "x"%char || Ascii.eqb x "X"%char) && bool_decide (is_Some (digit_val 16 d))
      then (16, String d s', 2) else (8, s, 0)
  | String "0"%char _ => (8, s, 0)
  | _ => (10, s, 0)
  end.

(** [std::stoull(s, &parsed, 0)]: the value and [parsed].  A number too large
    for 64 bits and a text without digits throw; a minus sign negates modulo
    [2^64]. *)
Definition stoull (s : string) : outcome (Z * Z) :=
  let s1 := skip isspace s in
  let '(neg, s2, signs) :=
    match s1 with
    | String "-"%char r => (true, r, 1)
    | String "+"%char r => (false, r, 1)
    | _ => (false, s1, 0)
    end in
  let '(base, s3, plen) := strtoull_prefix s2 in
  let '(v, digits) := scan_digits base s3 0 0 in
  if digits =? 0 then Throw (StdExn "stoull")
  else if size_max <? v then Throw (StdExn "stoull")
  else
    Ret (if neg then u64 (- v) else v,
         (slen s - slen s1) + signs + plen + digits).

(** [catch (...)] makes every exception [nullopt]. *)
Definition parse_u32 (value : string) : option Z :=
  let text := trim_copy value in
  match stoull text with
  | Ret (number, parsed) =>
      if negb (parsed =? slen text) || (u32_max <? number) then None
      else Some (u32 number)
  | _ => None
  end.

Definition parse_u16 (value : string) : option Z :=
  match parse_u32 value with
  | Some parsed => if u16_max <? parsed then None else Some (u16 parsed)
  | None => None
  end.

Definition parse_bool (value : string) : option bool :=
  let text := trim_copy value in
  if str_in text ["true"; "1"; "yes"] then Some true
  else if str_in text ["false"; "0"; "no"] then Some false
  else None.

(** [RouteAction] of protocol.hpp *)
Inductive RouteAction := DecodeLocal | ForwardRaw | Drop.

#[export] Instance RouteAction_eq_dec : EqDecision RouteAction.
Proof. solve_decision. Defined.

Definition parse_action (value : string) : option RouteAction :=
  let text := trim_copy value in
  if str_in text ["decode"; "decode_local"] then Some DecodeLocal
  else if str_in text ["forward"; "forward_raw"] then Some ForwardRaw
  else if String.eqb text "drop" then Some Drop
  else None.

(** [std::to_string] of an unsigned 64-bit value: at most 20 digits. *)
Fixpoint dec_digits (fuel : nat) (z : Z) (acc : string) : string :=
  match fuel with
  | O => acc
  | S fuel' =>
      let acc' := String (Ascii.ascii_of_N (Z.to_N (48 + z `mod` 10))) acc in
      if z / 10 =? 0 then acc' else dec_digits fuel' (z / 10) acc'
  end.

Definition to_string_u64 (z : Z) : string := dec_digits 20 z "".

(** [std::to_string] of a signed 64-bit value. *)
Definition to_string_i64 (z : Z) : string :=
  if z <? 0 then "-" +:+ to_string_u64 (- z) else to_string_u64 z.

(** ** Lemmas *)

Fixpoint str_all (p : Ascii.ascii -> bool) (s : string) : bool :=
  match s with String c s' => p c && str_all p s' | "" => true end.

Lemma slen_nonneg s : 0 <= slen s.
Proof. unfold slen. lia. Qed.

Lemma slen_nil : slen "" = 0.
Proof. reflexivity. Qed.

Lemma slen_cons c s : slen (String c s) = 1 + slen s.
Proof. unfold slen. cbn [String.length]. lia. Qed.

Lemma str_app_cons c s t : String c s +:+ t = String c (s +:+ t).
Proof. reflexivity. Qed.

Lemma str_app_nil t : "" +:+ t = t.
Proof. reflexivity. Qed.

#[export] Hint Rewrite str_app_cons str_app_nil : shield.

Lemma slen_app s t : slen (s +:+ t) = slen s + slen t.
Proof. induction s as [|c s IH]; [done|]. rewrite str_app_cons, !slen_cons, IH. lia. Qed.

Lemma app_empty_r s : s +:+ "" = s.
Proof. induction s; [done|]. rewrite str_app_cons. congruence. Qed.

Lemma app_assoc_str a b c : a +:+ (b +:+ c) = (a +:+ b) +:+ c.
Proof. induction a; [done|]. rewrite !str_app_cons. congruence. Qed.

Lemma str_all_app p s t : str_all p (s +:+ t) = str_all p s && str_all p t.
Proof. induction s; rewrite ?str_app_cons; cbn; [done|]. by rewrite IHs, andb_assoc. Qed.

#[export] Hint Rewrite slen_cons slen_app app_empty_r str_all_app : shield.

Lemma skip_all p s t : str_all p s = true -> skip p (s +:+ t) = skip p t.
Proof. induction s; rewrite ?str_app_cons; cbn; [done|]. intros H. bools. rewrite H. auto. Qed.

(** The first character of [s], when there is one, does not satisfy [p]. *)
Definition stops (p : Ascii.ascii -> bool) (s : string) : bool :=
  match s with String c _ => negb (p c) | "" => true end.

Lemma skip_stops p s : stops p s = true -> skip p s = s.
Proof. destruct s; cbn; [done|]. intros H. bools. by rewrite H. Qed.

Lemma skip_length p s : slen (skip p s) <= slen s.
Proof.
  induction s as [|c s IH]; cbn [skip]; [lia|].
  destruct (p c); rewrite ?slen_cons; lia.
Qed.

Lemma span_all p s t : str_all p s = true -> stops p t = true -> span p (s +:+ t) = (s, t).
Proof.
  induction s as [|c s IH]; intros H Ht; rewrite ?str_app_cons, ?str_app_nil; cbn in *.
  - destruct t; cbn in *; [done|]. bools. by rewrite Ht.
  - bools. by rewrite H, IH.
Qed.

Lemma span_length p s a b : span p s = (a, b) -> slen s = slen a + slen b.
Proof.
  revert a b. induction s as [|c s IH]; intros a b H; cbn in H; [by simplify_eq|].
  destruct (p c), (span p s); simplify_eq; rewrite ?slen_cons; [rewrite (IH _ _ eq_refl)|];
    rewrite ?slen_nil; lia.
Qed.

Lemma split_at_length c s a b : split_at c s = Some (a, b) -> slen s = slen a + 1 + slen b.
Proof.
  revert a b. induction s as [|d s IH]; intros a b H; cbn in H; [done|].
  destruct (Ascii.eqb d c); [simplify_eq; rewrite slen_cons, slen_nil; lia|].
  destruct (split_at c s) as [[a' b']|]; simplify_eq. rewrite !slen_cons, (IH _ _ eq_refl). lia.
Qed.

Lemma split_at_app c s t :
  str_all (fun d => negb (Ascii.eqb d c)) s = true -> split_at c (s +:+ String c t) = Some (s, t).
Proof.
  induction s as [|d s IH]; rewrite ?str_app_cons, ?str_app_nil; cbn; intros H.
  - by rewrite Ascii.eqb_refl.
  - bools. by rewrite H, IH.
Qed.

Lemma rtrim_all s : str_all is_ws s = true -> rtrim s = "".
Proof. induction s; cbn; [done|]. intros H. bools. by rewrite H, IHs. Qed.

Lemma rtrim_app_ws s t : str_all is_ws t = true -> rtrim (s +:+ t) = rtrim s.
Proof.
  intros H. induction s; rewrite ?str_app_cons, ?str_app_nil; cbn; [by apply rtrim_all|].
  by rewrite IHs.
Qed.

Lemma rtrim_solid s : str_all (fun c => negb (is_ws c)) s = true -> rtrim s = s.
Proof. induction s; cbn; [done|]. intros H. bools. by rewrite H, IHs. Qed.

(** Blanks around a text that has none of its own disappear. *)
Lemma trim_padded w1 s w2 :
  str_all is_ws w1 = true -> str_all is_ws w2 = true ->
  str_all (fun c => negb (is_ws c)) s = true -> s <> "" ->
  trim_copy (w1 +:+ s +:+ w2) = s.
Proof.
  intros H1 H2 Hs Hn. unfold trim_copy. rewrite skip_all by done.
  rewrite skip_stops by (destruct s; [done|]; apply andb_true_iff in Hs; tauto).
  rewrite rtrim_app_ws by done. by apply rtrim_solid.
Qed.

Definition digit (d : Z) : Ascii.ascii := Ascii.ascii_of_N (Z.to_N (48 + d)).

Lemma digit_spec d : 0 <= d < 10 ->
  digit_val 10 (digit d) = Some d /\ is_ws (digit d) = false /\ isspace (digit d) = false /\
  isalnum (digit d) = true /\
  digit d <> "-"%char /\ digit d <> "+"%char /\ (d <> 0 -> digit d <> "0"%char).
Proof.
  intros H.
  assert (d = 0 \/ d = 1 \/ d = 2 \/ d = 3 \/ d = 4 \/ d = 5 \/ d = 6 \/ d = 7 \/ d = 8 \/ d = 9)
    as Hd by lia.
  repeat (destruct Hd as [->|Hd]; [repeat split; vm_compute; congruence|]).
  subst d. repeat split; vm_compute; congruence.
Qed.

Lemma dec_digits_scan fuel z acc :
  0 <= z < 10 ^ Z.of_nat fuel -> (0 < fuel)%nat ->
  exists k, 1 <= k /\ slen (dec_digits fuel z acc) = slen acc + k /\
    scan_digits 10 (dec_digits fuel z acc) 0 0 = scan_digits 10 acc z k.
Proof.
  revert z acc. induction fuel as [|fuel IH]; intros z acc Hz Hf; [lia|].
  cbn [dec_digits]. fold (digit (z `mod` 10)).
  pose proof (Z.mod_pos_bound z 10 ltac:(lia)) as Hm.
  destruct (digit_spec _ Hm) as (Hd & _).
  pose proof (Z.div_mod z 10 ltac:(lia)) as Hdm.
  destruct (z / 10 =? 0) eqn:E; bools.
  - exists 1. rewrite slen_cons. cbn [scan_digits]. rewrite Hd. repeat split; [lia|lia|].
    f_equal; lia.
  - destruct (IH (z / 10) (String (digit (z `mod` 10)) acc)) as (k & Hk & Hl & Hs).
    + rewrite Nat2Z.inj_succ, Z.pow_succ_r in Hz by lia. lia.
    + destruct fuel; [cbn in Hz; lia|lia].
    + exists (k + 1). rewrite Hl, Hs, slen_cons. cbn [scan_digits]. rewrite Hd.
      repeat split; [lia|lia|]. f_equal; lia.
Qed.

Lemma dec_digits_solid (p : Ascii.ascii -> bool) fuel z acc :
  (forall d, 0 <= d < 10 -> p (digit d) = true) ->
  0 <= z -> str_all p acc = true -> str_all p (dec_digits fuel z acc) = true.
Proof.
  intros Hp. revert z acc. induction fuel as [|fuel IH]; intros z acc Hz Ha; [done|].
  cbn [dec_digits]. fold (digit (z `mod` 10)).
  pose proof (Z.mod_pos_bound z 10 ltac:(lia)) as Hm.
  assert (str_all p (String (digit (z `mod` 10)) acc) = true) by (cbn; by rewrite Hp, Ha).
  destruct (_ =? 0); [done|]. apply IH; [|done]. apply Z.div_pos; lia.
Qed.

Lemma dec_digits_head fuel z acc :
  0 <= z < 10 ^ Z.of_nat fuel -> (0 < fuel)%nat ->
  exists d r, dec_digits fuel z acc = String (digit d) r /\ 0 <= d < 10 /\ (z <> 0 -> d <> 0) /\
    (z = 0 -> r = acc).
Proof.
  revert z acc. induction fuel as [|fuel IH]; intros z acc Hz Hf; [lia|].
  cbn [dec_digits]. fold (digit (z `mod` 10)).
  pose proof (Z.mod_pos_bound z 10 ltac:(lia)). pose proof (Z.div_mod z 10 ltac:(lia)).
  destruct (z / 10 =? 0) eqn:E; bools.
  - exists (z `mod` 10), acc. repeat split; [lia|lia|lia].
  - destruct (IH (z / 10) (String (digit (z `mod` 10)) acc)) as (d & r & -> & ? & Hnz & _).
    + rewrite Nat2Z.inj_succ, Z.pow_succ_r in Hz by lia. lia.
    + destruct fuel; [cbn in Hz; lia|lia].
    + exists d, r. repeat split; [lia|lia|lia|intros ->; done].
Qed.

Lemma stoull_printed n : 0 <= n <= size_max ->
  stoull (to_string_u64 n) = Ret (n, slen (to_string_u64 n)).
Proof.
  intros Hn. unfold to_string_u64.
  assert (0 <= n < 10 ^ Z.of_nat 20) as Hr by (unfold size_max in Hn; lia).
  destruct (dec_digits_head 20 n "" Hr ltac:(lia)) as (d & r & Hs & Hd & Hnz & Hz).
  destruct (dec_digits_scan 20 n "" Hr ltac:(lia)) as (k & Hk & Hl & Hsc).
  rewrite Hs in *. cbn [scan_digits slen] in Hl, Hsc.
  destruct (digit_spec d Hd) as (Hdv & _ & Hsp & _ & Hm & Hp & H0).
  unfold stoull. cbn [skip]. rewrite Hsp.
  destruct (decide (n = 0)) as [->|Hn0].
  { rewrite (Hz eq_refl) in *. cbn in Hsc. rewrite Hdv in Hsc.
    assert (d = 0) as -> by (injection Hsc; lia). done. }
  assert (strtoull_prefix (String (digit d) r) = (10, String (digit d) r, 0)) as Hpre.
  { specialize (H0 (Hnz Hn0)). revert H0. generalize (digit d) as c. intros c Hc.
    destruct c as [[] [] [] [] [] [] [] []]; try reflexivity. by destruct Hc. }
  assert (match String (digit d) r with
          | String "-" r' => (true, r', 1) | String "+" r' => (false, r', 1)
          | _ => (false, String (digit d) r, 0) end = (false, String (digit d) r, 0)) as ->.
  { revert Hm Hp. generalize (digit d) as c. intros c Hm Hp.
    destruct c as [[] [] [] [] [] [] [] []]; try reflexivity; [by destruct Hp|by destruct Hm]. }
  rewrite Hpre. cbn [scan_digits] in *. rewrite Hsc, (proj2 (Z.eqb_neq k 0)) by lia.
  rewrite (proj2 (Z.ltb_ge _ _)) by lia. do 2 f_equal. rewrite Hl.
  rewrite slen_nil. lia.
Qed.

Lemma parse_u32_printed w1 n w2 :
  0 <= n <= u32_max -> str_all is_ws w1 = true -> str_all is_ws w2 = true ->
  parse_u32 (w1 +:+ to_string_u64 n +:+ w2) = Some n.
Proof.
  intros Hn H1 H2. unfold parse_u32. unfold u32_max in *. rewrite trim_padded; [|done|done| |].
  - rewrite stoull_printed by (unfold size_max; lia). rewrite Z.eqb_refl. cbn [negb orb].
    rewrite (proj2 (Z.ltb_ge _ _)) by lia. f_equal. apply cast_small. lia.
  - apply dec_digits_solid; [|lia|done]. intros d Hd. by destruct (digit_spec d Hd) as (_ & -> & _).
  - destruct (dec_digits_head 20 n "") as (d & r & H & _); [lia|lia|].
    unfold to_string_u64. by rewrite H.
Qed.

Lemma parse_u32_range s n : parse_u32 s = Some n -> 0 <= n <= u32_max.
Proof.
  unfold parse_u32. intros H. repeat case_in H; simplify_eq.
  pose proof (cast_range 32 z ltac:(lia)). unfold u32_max. lia.
Qed.

Lemma parse_u16_range s n : parse_u16 s = Some n -> 0 <= n <= u16_max.
Proof.
  unfold parse_u16. intros H. repeat case_in H; simplify_eq.
  pose proof (cast_range 16 z ltac:(lia)). unfold u16_max. lia.
Qed.

Lemma parse_u16_printed w1 n w2 :
  0 <= n <= u16_max -> str_all is_ws w1 = true -> str_all is_ws w2 = true ->
  parse_u16 (w1 +:+ to_string_u64 n +:+ w2) = Some n.
Proof.
  intros Hn H1 H2. unfold parse_u16, u16_max in *.
  rewrite parse_u32_printed by (unfold u32_max; (lia || done)).
  rewrite (proj2 (Z.ltb_ge _ _)) by lia. f_equal. apply cast_small. lia.
Qed.

Lemma parse_u32_to_string n : 0 <= n <= u32_max -> parse_u32 (to_string_u64 n) = Some n.
Proof.
  intros Hn. rewrite <- (app_empty_r (to_string_u64 n)), <- (str_app_nil (_ +:+ "")).
  by apply parse_u32_printed.
Qed.

Lemma parse_u16_to_string n : 0 <= n <= u16_max -> parse_u16 (to_string_u64 n) = Some n.
Proof.
  intros Hn. rewrite <- (app_empty_r (to_string_u64 n)), <- (str_app_nil (_ +:+ "")).
  by apply parse_u16_printed.
Qed.
