(* ===== verification/Index.v ===== *)
(** * Index: a map with an index by name

    [RouteTable] and [BodyCodecRegistry] (src/transport/protocol.cpp) keep the
    same pair of maps: the entries by number, and the numbers by the entries'
    non-empty names.  This file states when the two agree and how the
    primitive updates of the two classes keep them so; both classes' theorems
    are proved against it. *)

From S2P Require Import Prelude.

(** What an entry must offer to be indexed: its name. *)
Class Named (V : Type) := name_of : V -> string.

Section Index.
Context {V : Type} `{Named V}.

Implicit Types (m : gmap Z V) (names : gmap string Z) (v : V).

(** Every indexed name leads to an entry that bears it. *)
Definition index_sound m names : Prop :=
  forall n k, names !! n = Some k -> n <> "" /\ exists v, m !! k = Some v /\ name_of v = n.

(** Every named entry is found under its name. *)
Definition index_complete m names : Prop :=
  forall k v, m !! k = Some v -> name_of v <> "" -> names !! name_of v = Some k.

(** Record the name of the entry put at [k]. *)
Definition index_put (k : Z) v names : gmap string Z :=
  if str_empty (name_of v) then names else <[name_of v := k]> names.

(** Forget the name of the entry that leaves [k], when the name is [k]'s. *)
Definition index_drop (k : Z) (old : option V) names : gmap string Z :=
  match old with
  | Some v => if bool_decide (names !! name_of v = Some k) then delete (name_of v) names else names
  | None => names
  end.

Lemma index_empty : index_sound ∅ ∅ /\ index_complete ∅ ∅.
Proof. split; intros k v Hk; by rewrite lookup_empty in Hk. Qed.

Lemma index_put_lookup k v names n :
  index_put k v names !! n =
    if str_empty (name_of v) then names !! n
    else if decide (name_of v = n) then Some k else names !! n.
Proof.
  unfold index_put. destruct (str_empty _); [done|].
  destruct (decide _) as [<-|]; by simplify_map_eq.
Qed.

Lemma index_drop_lookup k m names n k' :
  index_drop k (m !! k) names !! n = Some k' ->
  names !! n = Some k' /\ (index_sound m names -> k' <> k).
Proof.
  unfold index_drop. intros E. destruct (m !! k) as [v|] eqn:Ek.
  - case_bool_decide as Hd.
    + apply lookup_delete_Some in E as [Hne Hn]. split; [done|].
      intros Hs ->. apply Hs in Hn as (_ & w & Hw & Hn). simplify_eq.
    + split; [done|]. intros Hs ->. destruct (Hs _ _ E) as (_ & w & Hw & Hn). simplify_eq.
  - split; [done|]. intros Hs ->. apply Hs in E as (_ & w & Hw & _). congruence.
Qed.

(** Replacing the entry at [k] keeps the index sound, whatever its name. *)
Lemma index_replace_sound k v m names :
  index_sound m names ->
  index_sound (<[k := v]> m) (index_put k v (index_drop k (m !! k) names)).
Proof.
  intros Hs n k' E. rewrite index_put_lookup in E.
  assert (index_drop k (m !! k) names !! n = Some k' ->
          n <> "" /\ exists w, <[k := v]> m !! k' = Some w /\ name_of w = n) as Hold.
  { intros Hd. apply index_drop_lookup in Hd as [Hn Hk]. specialize (Hk Hs).
    apply Hs in Hn as (Hne & w & Hw & Hnw). split; [done|]. exists w. by rewrite lookup_insert_ne. }
  destruct (str_empty (name_of v)) eqn:Ee; [auto|].
  destruct (decide (name_of v = n)) as [Hv|]; [|auto]. simplify_eq.
  apply str_empty_false in Ee. split; [done|]. exists v. by rewrite lookup_insert_eq.
Qed.

(** It also keeps the index complete when no other entry bears the name. *)
Lemma index_replace_complete k v m names :
  index_complete m names ->
  (forall k', names !! name_of v = Some k' -> k' = k) ->
  index_complete (<[k := v]> m) (index_put k v (index_drop k (m !! k) names)).
Proof.
  intros Hc Hfree k' w E Hw. rewrite index_put_lookup.
  apply lookup_insert_Some in E as [[<- <-]|[Hne E]].
  - rewrite (proj2 (str_empty_false _) Hw). by rewrite decide_True.
  - pose proof (Hc _ _ E Hw) as Hn.
    assert (index_drop k (m !! k) names !! name_of w = Some k') as Hd.
    { unfold index_drop. destruct (m !! k) as [u|]; [|done]. case_bool_decide as Hu; [|done].
      rewrite lookup_delete_ne; [done|]. intros Heq. rewrite Heq in Hu. congruence. }
    destruct (str_empty (name_of v)); [done|]. case_decide as Hvw; [|done].
    rewrite Hvw in Hfree. by rewrite (Hfree _ Hn) in Hne.
Qed.

(** Under both, a lookup by name finds the entry of that name. *)
Lemma index_lookup m names n v :
  index_sound m names -> index_complete m names -> n <> "" ->
  (exists k, names !! n = Some k /\ m !! k = Some v) <-> (exists k, m !! k = Some v /\ name_of v = n).
Proof.
  intros Hs Hc Hn. split; intros (k & H1 & H2).
  - apply Hs in H1 as (_ & w & Hw & Hnw). exists k. by simplify_eq.
  - exists k. subst n. auto.
Qed.

(** Names are unique under both. *)
Lemma index_unique m names k1 k2 v1 v2 :
  index_complete m names ->
  m !! k1 = Some v1 -> m !! k2 = Some v2 -> name_of v1 = name_of v2 -> name_of v1 <> "" -> k1 = k2.
Proof.
  intros Hc H1 H2 He Hn. pose proof (Hc _ _ H1 Hn) as E1.
  rewrite He in Hn, E1. pose proof (Hc _ _ H2 Hn). congruence.
Qed.

End Index.
