(* ===== verification/Stream.v ===== *)
(** * Incremental decoding of a byte stream

    The four envelopes of [src/transport/protocol.cpp] and the frame decoder of
    [src/transport/frame.cpp] share one control structure: append the bytes
    received to a buffer, then loop, each iteration either asking for more bytes
    ([break]), emitting one packet and erasing its bytes from the front of the
    buffer, or setting [error_], clearing the buffer and stopping.  This file is
    that loop, with an interface [StreamStep] stating what a loop body promises
    to it.  The results proved against the interface (termination, prefix
    stability, independence of the way a stream is cut into chunks) hold for
    every decoder that discharges it. *)

From S2P Require Import Prelude.

(** What one iteration of a decoding loop decides. *)
Inductive verdict (P : Type) :=
| Wait
| Emit (p : P) (consumed : nat)
| Reject (err : string).
Arguments Wait {P}.
Arguments Emit {P} p consumed.
Arguments Reject {P} err.

(** The loop.  [None] in the last component means that the loop was left by
    the plain [break]; [Some e] that [error_] was set to [e] and the buffer
    cleared. *)
Fixpoint drain_fuel {P} (step : list byte -> verdict P) (fuel : nat) (buf : list byte)
  : list P * list byte * option string :=
  match fuel with
  | O => ([], buf, None)
  | S fuel' =>
      match step buf with
      | Wait => ([], buf, None)
      | Reject e => ([], [], Some e)
      | Emit p n =>
          let '(ps, rest, e) := drain_fuel step fuel' (drop n buf) in
          (p :: ps, rest, e)
      end
  end.

(** Every iteration erases at least one byte, so one more unit of fuel than
    there are bytes never runs out (see [drain_fuel_enough]). *)
Definition drain {P} (step : list byte -> verdict P) (buf : list byte) :=
  drain_fuel step (S (length buf)) buf.

(** What the body of a decoding loop promises: it consumes what it emits, it
    makes progress, and neither an emitted packet nor an error is revised when
    more bytes arrive. *)
Class StreamStep {P} (step : list byte -> verdict P) : Prop := {
  step_consumes : forall b p n, step b = Emit p n -> (0 < n <= length b)%nat;
  step_emit_stable : forall b c p n, step b = Emit p n -> step (b ++ c) = Emit p n;
  step_reject_stable : forall b c e, step b = Reject e -> step (b ++ c) = Reject e
}.

Section Drain.
Context {P : Type} (step : list byte -> verdict P) `{!StreamStep step}.

Lemma drain_fuel_enough f1 f2 buf :
  (length buf < f1)%nat -> (length buf < f2)%nat ->
  drain_fuel step f1 buf = drain_fuel step f2 buf.
Proof.
  revert f2 buf. induction f1 as [|f1 IH]; intros f2 buf H1 H2; [lia|].
  destruct f2 as [|f2]; [lia|]. cbn.
  destruct (step buf) as [|p n|e] eqn:E; try done.
  apply step_consumes in E.
  rewrite (IH f2 (drop n buf)) by (rewrite length_drop; lia). done.
Qed.

(** The loop unrolls once. *)
Lemma drain_unfold buf :
  drain step buf =
  match step buf with
  | Wait => ([], buf, None)
  | Reject e => ([], [], Some e)
  | Emit p n => let '(ps, rest, e) := drain step (drop n buf) in (p :: ps, rest, e)
  end.
Proof.
  unfold drain at 1. cbn [drain_fuel].
  destruct (step buf) as [|p n|e] eqn:E; try done.
  apply step_consumes in E. unfold drain.
  erewrite (drain_fuel_enough (length buf)); [done | rewrite length_drop; lia ..].
Qed.

Lemma drain_ind (Q : list byte -> list P * list byte * option string -> Prop) :
  (forall b, step b = Wait -> Q b ([], b, None)) ->
  (forall b e, step b = Reject e -> Q b ([], [], Some e)) ->
  (forall b p n ps rest e, step b = Emit p n -> drain step (drop n b) = (ps, rest, e) ->
     Q (drop n b) (ps, rest, e) -> Q b (p :: ps, rest, e)) ->
  forall b, Q b (drain step b).
Proof.
  intros Hw Hr He b.
  induction b as [b IH] using (induction_ltof1 _ length). unfold ltof in IH.
  rewrite drain_unfold. destruct (step b) as [|p n|e] eqn:E; auto.
  destruct (drain step (drop n b)) as [[ps rest] e] eqn:D.
  eapply He; eauto. rewrite <- D. apply IH.
  apply step_consumes in E. rewrite length_drop. lia.
Qed.

(** When the loop stops without an error its buffer asks for more bytes. *)
Lemma drain_waits buf ps rest : drain step buf = (ps, rest, None) -> step rest = Wait.
Proof.
  revert ps rest. pattern buf, (drain step buf). apply drain_ind; intros; simplify_eq; eauto.
Qed.

Lemma drain_reject_clears buf ps rest e : drain step buf = (ps, rest, Some e) -> rest = [].
Proof.
  revert ps rest e. pattern buf, (drain step buf). apply drain_ind; intros; simplify_eq; eauto.
Qed.

Lemma drain_reject_inv buf ps rest e :
  drain step buf = (ps, rest, Some e) -> exists b, step b = Reject e.
Proof.
  revert ps rest e. pattern buf, (drain step buf). apply drain_ind; intros; simplify_eq; eauto.
Qed.

(** Cutting a stream at any byte changes nothing: when the first part decodes
    without error, decoding the second part after it gives what decoding the
    concatenation gives, packets, remaining bytes and error alike. *)
Lemma drain_app_ok b1 b2 ps1 rest1 :
  drain step b1 = (ps1, rest1, None) ->
  drain step (b1 ++ b2) =
    let '(ps2, rest2, e2) := drain step (rest1 ++ b2) in (ps1 ++ ps2, rest2, e2).
Proof.
  revert ps1 rest1. pattern b1, (drain step b1).
  apply drain_ind; clear b1; [intros b _ | discriminate | intros b p n ps rest e E D IH];
    intros ps1 rest1 Heq; simplify_eq.
  - destruct (drain step (rest1 ++ b2)) as [[? ?] ?]. done.
  - rewrite drain_unfold, (step_emit_stable _ _ _ _ E).
    apply step_consumes in E.
    rewrite drop_app_le, (IH ps rest1) by (done || lia).
    destruct (drain step (rest1 ++ b2)) as [[? ?] ?]. done.
Qed.

(** An error found in a prefix is found in the whole stream, after the same
    packets. *)
Lemma drain_app_reject b1 b2 ps1 rest1 e :
  drain step b1 = (ps1, rest1, Some e) -> drain step (b1 ++ b2) = (ps1, [], Some e).
Proof.
  revert ps1 rest1 e. pattern b1, (drain step b1).
  apply drain_ind; clear b1; [discriminate | intros b e0 E | intros b p n ps rest e0 E D IH];
    intros ps1 rest1 e Heq; simplify_eq; rewrite drain_unfold.
  - by rewrite (step_reject_stable _ _ _ E).
  - rewrite (step_emit_stable _ _ _ _ E). apply step_consumes in E.
    rewrite drop_app_le by lia. by rewrite (IH ps rest1 e).
Qed.

(** A stream that starts with one complete packet. *)
Lemma drain_emit p frame rest :
  step frame = Emit p (length frame) ->
  drain step (frame ++ rest) =
    let '(ps, r, e) := drain step rest in (p :: ps, r, e).
Proof.
  intros E. rewrite drain_unfold, (step_emit_stable _ _ _ _ E), drop_app_length. done.
Qed.

(** A stream made of complete packets, and nothing else, yields those packets
    in order and leaves an empty buffer. *)
Lemma drain_frames (frames : list (P * list byte)) :
  step [] = Wait ->
  Forall (fun '(p, f) => step f = Emit p (length f)) frames ->
  drain step (concat (map snd frames)) = (map fst frames, [], None).
Proof.
  intros Hnil. induction 1 as [|[p f] frames E _ IH]; cbn [map concat fst snd].
  - by rewrite drain_unfold, Hnil.
  - by rewrite (drain_emit _ _ _ E), IH.
Qed.

End Drain.
