(* ===== verification/Wire.v ===== *)
(** * Wire integers ([src/transport/protocol.cpp])

    The header integers of the envelopes, in both byte orders, as the code
    computes them with 64-bit shifts, and their refinement to the little-endian
    lists of coqutil. *)

From S2P Require Import Prelude.

Inductive Endian := Big | Little.

#[export] Instance Endian_eq_dec : EqDecision Endian.
Proof. solve_decision. Defined.

(** ** Header integers *)

Definition valid_integer_width (width : Z) : bool :=
  (width =? 1) || (width =? 2) || (width =? 4) || (width =? 8).

Fixpoint read_uint_big (data : list byte) (value : Z) : Z :=
  match data with
  | [] => value
  | b :: data' => read_uint_big data' (Z.lor (u64 (Z.shiftl value 8)) (byte.unsigned b))
  end.

Fixpoint read_uint_little (data : list byte) (i value : Z) : Z :=
  match data with
  | [] => value
  | b :: data' =>
      read_uint_little data' (i + 1)
        (Z.lor value (u64 (Z.shiftl (byte.unsigned b) (i * 8))))
  end.

Definition read_uint (data : list byte) (e : Endian) : Z :=
  match e with
  | Big => read_uint_big data 0
  | Little => read_uint_little data 0 0
  end.

Definition write_uint (value width : Z) (e : Endian) (out : list byte) : list byte :=
  let ixs := seqZ 0 width in
  let octet shift := byte.of_Z (Z.land (Z.shiftr value shift) 0xff) in
  match e with
  | Big => out ++ map (fun i => octet ((width - 1 - i) * 8)) ixs
  | Little => out ++ map (fun i => octet (i * 8)) ixs
  end.

Definition fits_width (value width : Z) : bool :=
  if 8 <=? width then true else value <? Z.shiftl 1 (width * 8).

(** ** Header integers: refinement to little-endian lists *)

Lemma valid_integer_width_cases w :
  valid_integer_width w = true -> w = 1 \/ w = 2 \/ w = 4 \/ w = 8.
Proof. unfold valid_integer_width. rewrite !orb_true_iff, !Z.eqb_eq. tauto. Qed.

Lemma valid_integer_width_range w : valid_integer_width w = true -> 1 <= w <= 8.
Proof. intros H. apply valid_integer_width_cases in H. lia. Qed.

Lemma read_uint_big_spec data v :
  vsize data <= 8 -> 0 <= v < 2 ^ (64 - 8 * vsize data) ->
  read_uint_big data v = Z.lor (le_combine (rev data)) (Z.shiftl v (8 * vsize data)).
Proof.
  revert v. induction data as [|b data IH]; intros v Hlen Hv; cbn [read_uint_big rev].
  - rewrite (@vsize_nil byte), Z.shiftl_0_r, le_combine_nil. done.
  - rewrite vsize_cons in *. pose proof (byte.unsigned_range b).
    pose proof (vsize_nonneg data).
    assert (Hs : 0 <= Z.shiftl v 8 < 2 ^ (64 - 8 * vsize data)).
    { rewrite Z.shiftl_mul_pow2 by lia.
      replace (64 - 8 * vsize data) with (64 - 8 * (1 + vsize data) + 8) by lia.
      rewrite Z.pow_add_r by lia. nia. }
    assert (Hle : 2 ^ (64 - 8 * vsize data) <= 2 ^ 64) by (apply Z.pow_le_mono_r; lia).
    rewrite cast_small by lia. rewrite IH; [|lia|].
    + rewrite le_combine_app, le_combine_1, length_rev.
      replace (Z.of_nat (length data) * 8) with (8 * vsize data) by (unfold vsize; lia).
      rewrite Z.shiftl_lor, Z.shiftl_shiftl by lia.
      replace (8 + 8 * vsize data) with (8 * (1 + vsize data)) by lia.
      rewrite <- Z.lor_assoc. f_equal. apply Z.lor_comm.
    + split; [apply Z.lor_nonneg; lia|].
      destruct (Z.eq_dec (Z.lor (Z.shiftl v 8) (byte.unsigned b)) 0) as [->|Hnz]; [lia|].
      assert (0 <= Z.lor (Z.shiftl v 8) (byte.unsigned b)) by (apply Z.lor_nonneg; lia).
      apply Z.log2_lt_pow2; [lia|]. rewrite Z.log2_lor by lia.
      assert (0 < 64 - 8 * vsize data) by lia.
      apply Z.max_lub_lt; [apply Z_log2_lt_pow2_nonneg; lia|].
      apply Z_log2_lt_pow2_nonneg; [lia|lia|].
      assert (2 ^ 8 <= 2 ^ (64 - 8 * vsize data)) by (apply Z.pow_le_mono_r; lia). lia.
Qed.

Lemma read_uint_little_spec data i v :
  0 <= i -> i + vsize data <= 8 ->
  read_uint_little data i v = Z.lor v (Z.shiftl (le_combine data) (i * 8)).
Proof.
  revert i v. induction data as [|b data IH]; intros i v Hi Hlen; cbn [read_uint_little].
  - rewrite le_combine_nil, Z.shiftl_0_l, Z.lor_0_r. done.
  - rewrite vsize_cons in Hlen. pose proof (vsize_nonneg data).
    pose proof (byte.unsigned_range b).
    rewrite IH by lia. rewrite cast_small.
    + change (b :: data) with ([b] ++ data).
      rewrite le_combine_app, le_combine_1, Z.shiftl_lor, Z.shiftl_shiftl, Z.lor_assoc
        by (cbn [length]; lia).
      cbn [length]. do 2 f_equal. lia.
    + rewrite Z.shiftl_mul_pow2 by lia.
      split; [nia|].
      assert (2 ^ (8 + i * 8) <= 2 ^ 64) by (apply Z.pow_le_mono_r; lia).
      rewrite Z.pow_add_r in H1 by lia. nia.
Qed.

Lemma read_uint_spec data e :
  vsize data <= 8 ->
  read_uint data e = le_combine (match e with Big => rev data | Little => data end).
Proof.
  intros H. destruct e; cbn [read_uint].
  - rewrite read_uint_big_spec; [|lia|].
    + by rewrite Z.shiftl_0_l, Z.lor_0_r.
    + split; [lia|]. apply Z.pow_pos_nonneg; lia.
  - rewrite read_uint_little_spec by lia. by rewrite Z.shiftl_0_r.
Qed.

Lemma read_uint_range data e : vsize data <= 8 -> 0 <= read_uint data e < 2 ^ 64.
Proof.
  intros H. rewrite read_uint_spec by done.
  pose proof (le_combine_bound (match e with Big => rev data | Little => data end)) as B.
  assert (Hl : length (match e with Big => rev data | Little => data end) = length data).
  { destruct e; [apply length_rev | done]. }
  rewrite Hl in B. unfold vsize in H.
  assert (2 ^ (8 * Z.of_nat (length data)) <= 2 ^ 64) by (apply Z.pow_le_mono_r; lia). lia.
Qed.

Lemma octet_land value : byte.of_Z (Z.land value 0xff) = byte.of_Z value.
Proof.
  apply byte.unsigned_inj. rewrite !byte.unsigned_of_Z. unfold byte.wrap.
  change 0xff with (Z.ones 8). rewrite Z.land_ones by lia. apply Z.mod_mod. lia.
Qed.

Lemma write_octets_le (n : nat) s value :
  0 <= s ->
  map (fun i => byte.of_Z (Z.land (Z.shiftr value (i * 8)) 0xff)) (seqZ s (Z.of_nat n))
  = le_split n (Z.shiftr value (s * 8)).
Proof.
  revert s. induction n as [|n IH]; intros s Hs; [done|].
  rewrite seqZ_cons by lia. cbn [map]. rewrite octet_land.
  replace (Z.pred (Z.of_nat (S n))) with (Z.of_nat n) by lia.
  rewrite IH by lia. unfold le_split at 2; fold le_split. f_equal.
  rewrite Z.shiftr_shiftr by lia. do 2 f_equal. lia.
Qed.

Lemma seqZ_rev (n : nat) :
  map (fun i => Z.of_nat n - 1 - i) (seqZ 0 (Z.of_nat n)) = rev (seqZ 0 (Z.of_nat n)).
Proof.
  induction n as [|n IH]; [done|].
  transitivity (Z.of_nat n :: map (fun i => Z.of_nat n - 1 - i) (seqZ 0 (Z.of_nat n))).
  - rewrite seqZ_cons by lia. cbn [map]. f_equal; [lia|].
    replace (Z.pred (Z.of_nat (S n))) with (Z.of_nat n) by lia.
    change (Z.succ 0) with (1 + 0). rewrite <- (fmap_add_seqZ 1 0).
    change (Z.add 1 <$> seqZ 0 (Z.of_nat n)) with (map (Z.add 1) (seqZ 0 (Z.of_nat n))).
    rewrite map_map. apply map_ext. intros. lia.
  - rewrite IH, (seqZ_S 0 n), rev_app_distr. done.
Qed.

Lemma write_uint_spec value width e out :
  0 <= width ->
  write_uint value width e out =
    out ++ match e with
           | Big => rev (le_split (Z.to_nat width) value)
           | Little => le_split (Z.to_nat width) value
           end.
Proof.
  intros Hw. rewrite <- (Z2Nat.id width Hw) at 1.
  assert (L : map (fun i => byte.of_Z (Z.land (Z.shiftr value (i * 8)) 0xff))
                (seqZ 0 (Z.of_nat (Z.to_nat width))) = le_split (Z.to_nat width) value).
  { rewrite write_octets_le by lia. by rewrite Z.shiftr_0_r. }
  destruct e; cbn [write_uint]; f_equal; [|exact L].
  rewrite <- L, <- map_rev, <- seqZ_rev, map_map. done.
Qed.

Lemma write_uint_length value width e :
  0 <= width -> vsize (write_uint value width e []) = width.
Proof.
  intros H. rewrite write_uint_spec by done. unfold vsize.
  destruct e; rewrite ?length_app, ?length_rev, length_le_split; cbn [length]; lia.
Qed.

Lemma fits_width_bound value width :
  valid_integer_width width = true -> 0 <= value < 2 ^ 64 ->
  fits_width value width = true -> value < 2 ^ (width * 8).
Proof.
  intros Hw Hv H. apply valid_integer_width_cases in Hw. unfold fits_width in H.
  destruct (8 <=? width) eqn:E; bools.
  - replace (width * 8) with 64 by lia. lia.
  - rewrite Z.shiftl_mul_pow2, Z.mul_1_l in H by lia. done.
Qed.

Lemma read_write_uint_mod value width e :
  valid_integer_width width = true ->
  read_uint (write_uint value width e []) e = value `mod` 2 ^ (width * 8).
Proof.
  intros Hw. apply valid_integer_width_range in Hw.
  rewrite read_uint_spec by (rewrite write_uint_length; lia).
  rewrite write_uint_spec by lia.
  assert (le_combine (le_split (Z.to_nat width) value) = value `mod` 2 ^ (width * 8)) as Hc.
  { by rewrite le_combine_split, Z2Nat.id by lia. }
  destruct e; cbn [app]; rewrite ?rev_involutive; exact Hc.
Qed.

Lemma read_write_uint value width e :
  valid_integer_width width = true -> 0 <= value < 2 ^ 64 -> fits_width value width = true ->
  read_uint (write_uint value width e []) e = value.
Proof.
  intros Hw Hv Hf. pose proof (fits_width_bound _ _ Hw Hv Hf) as Hb.
  rewrite read_write_uint_mod by done. apply Z.mod_small. lia.
Qed.

(** The guard [fits_width] is exact: a value passes it if and only if the
    header field of that width, in either byte order, reads back as the value. *)
Theorem fits_width_exact value width e :
  valid_integer_width width = true -> 0 <= value < 2 ^ 64 ->
  fits_width value width = true <-> read_uint (write_uint value width e []) e = value.
Proof.
  intros Hw Hv. split; [by apply read_write_uint|].
  rewrite read_write_uint_mod by done. intros Hm.
  pose proof (valid_integer_width_range _ Hw).
  assert (value < 2 ^ (width * 8)) by (rewrite <- Hm; apply Z.mod_pos_bound; lia).
  unfold fits_width. case_head; [done|].
  rewrite Z.shiftl_mul_pow2, Z.mul_1_l by lia. by apply Z.ltb_lt.
Qed.

Lemma fits_width_exact_witness :
  fits_width 65535 2 = true <-> read_uint (write_uint 65535 2 Little []) Little = 65535.
Proof. apply (fits_width_exact 65535 2 Little); [reflexivity | lia]. Defined.
