(* ===== verification/Envelope.v ===== *)
(** * Envelopes: framing of packets ([src/transport/protocol.cpp])

    The integer codec of the headers, the four envelopes ([LenPrefixEnvelope],
    [IdLenEnvelope], [TypeLenEnvelope], [DelimiterEnvelope]) with their
    constructors, [feed] and [encode], and the factory [create_envelope].  The
    body of each [feed] loop is a [step] on the buffer; the loop itself ixs
    [Stream.drain].  The theorems: the header integers round-trip; every
    envelope decodes what it encodes, in the middle of any stream; how a stream
    is cut into chunks is irrelevant; no packet exceeds the configured limit;
    the error and reset paths. *)

From S2P Require Import Prelude Text Stream Wire.

(** ** Data ([include/shield/transport/protocol.hpp]) *)

Inductive RouteSource := SourceNone | SourceHeader | SourceBody.
Inductive EnvelopeKind := LenPrefix | IdLen | TypeLen | Delimiter.
Inductive PacketKind := Message | Request | Response | Push | Control.

#[export] Instance RouteSource_eq_dec : EqDecision RouteSource.
Proof. solve_decision. Defined.
#[export] Instance EnvelopeKind_eq_dec : EqDecision EnvelopeKind.
Proof. solve_decision. Defined.

(** [static_cast<std::uint16_t>(PacketKind)]. *)
Definition packet_kind_value (k : PacketKind) : Z :=
  match k with Message => 0 | Request => 1 | Response => 2 | Push => 3 | Control => 4 end.

(** [Packet]; [PacketRef] is the same record with borrowed bytes, and
    [Packet::ref] the identity. *)
Record Packet := mkPacket {
  pk_route_id : Z;
  pk_kind : Z;
  pk_flags : Z;
  pk_seq : Z;
  pk_body : list byte;
  pk_raw_frame : list byte
}.

Definition default_packet : Packet := mkPacket 0 (packet_kind_value Message) 0 0 [] [].

Record EnvelopeConfig := mkConfig {
  endian : Endian;
  length_bytes : Z;
  route_id_bytes : Z;
  length_includes_header : bool;
  delimiter : byte;
  max_frame_size : Z;
  route_source : RouteSource
}.

Definition default_config : EnvelopeConfig :=
  mkConfig Big 0 0 false Byte.x0a 0 SourceBody.

(** The protected members of [Envelope]. *)
Record Envelope := mkEnvelope {
  config_ : EnvelopeConfig;
  buffer_ : list byte;
  error_ : string
}.

Definition set_error (s : Envelope) (e : string) : Envelope :=
  mkEnvelope (config_ s) (buffer_ s) e.

(** The arguments [(data, size)] of [feed]: a null pointer with a size, or
    [size] readable bytes. *)
Inductive Span :=
| NullData (sz : Z)
| Data (bytes : list byte).

(** ** Frame lengths *)

Definition body_length_from_field (length_field header_size : Z) (includes_header : bool)
  : option Z :=
  if negb includes_header then
    if size_max <? length_field then None else Some length_field
  else if (length_field <? header_size) || (size_max <? length_field) then None
  else Some (length_field - header_size).

(** ** Shared by the envelopes *)

Definition Envelope_make (config : EnvelopeConfig) : Envelope := mkEnvelope config [] "".

(** [Envelope::reset] *)
Definition reset (s : Envelope) : Envelope := mkEnvelope (config_ s) [] "".

(** [Envelope::has_error] *)
Definition has_error (s : Envelope) : bool := negb (str_empty (error_ s)).

(** An early return of [feed]: set [error_], clear the buffer, no packet. *)
Definition fail_feed (s : Envelope) (e : string) : list Packet * Envelope :=
  ([], mkEnvelope (config_ s) [] e).

(** Append the received bytes and run the decoding loop. *)
Definition pump (step : list byte -> verdict Packet) (s : Envelope) (bytes : list byte)
  : list Packet * Envelope :=
  let '(packets, rest, e) := drain step (buffer_ s ++ bytes) in
  (packets, mkEnvelope (config_ s) rest (default "" e)).

(** The tail of a loop iteration of the three length-prefixed envelopes, from
    the value of the length field on: compute the payload length, check it, wait
    for the whole frame, cut it.  [who] is the prefix of the error texts. *)
Definition sized_frame (who : string) (c : EnvelopeConfig) (header_size length_field : Z)
    (make : list byte -> list byte -> Packet) (buf : list byte) : verdict Packet :=
  match body_length_from_field length_field header_size (length_includes_header c) with
  | None => Reject (who +:+ " frame length overflow")
  | Some payload_len =>
      if size_max - header_size <? payload_len then
        Reject (who +:+ " frame length overflow")
      else
        let total_len := payload_len + header_size in
        if (0 <? max_frame_size c) && (max_frame_size c <? payload_len) then
          Reject (who +:+ " frame too large")
        else if vsize buf <? total_len then Wait
        else
          let total := Z.to_nat total_len in
          Emit (make (take (Z.to_nat payload_len) (drop (Z.to_nat header_size) buf))
                     (take total buf))
               total
  end.

(** ** [LenPrefixEnvelope] *)

Module LenPrefixEnvelope.

Definition make (config : EnvelopeConfig) : Envelope :=
  Envelope_make
    (mkConfig (endian config)
       (if length_bytes config =? 0 then 4 else length_bytes config)
       0 (length_includes_header config) (delimiter config) (max_frame_size config)
       SourceBody).

Definition packet (payload raw : list byte) : Packet := mkPacket 0 0 0 0 payload raw.

(** One iteration of the [while] loop of [feed]. *)
Definition step (c : EnvelopeConfig) (buf : list byte) : verdict Packet :=
  let header_size := length_bytes c in
  if vsize buf <? header_size then Wait
  else
    let length_field := read_uint (take (Z.to_nat header_size) buf) (endian c) in
    sized_frame "lenprefix" c header_size length_field packet buf.

Definition feed (s : Envelope) (d : Span) : list Packet * Envelope :=
  match d with
  | NullData sz =>
      if 0 <? sz then fail_feed s "lenprefix feed received null data"
      else if negb (valid_integer_width (length_bytes (config_ s))) then
        fail_feed s "invalid lenprefix length width"
      else pump (step (config_ s)) s []
  | Data bytes =>
      if negb (valid_integer_width (length_bytes (config_ s))) then
        fail_feed s "invalid lenprefix length width"
      else pump (step (config_ s)) s bytes
  end.

Definition encode (s : Envelope) (p : Packet) : list byte * Envelope :=
  let c := config_ s in
  if negb (valid_integer_width (length_bytes c)) then
    ([], set_error s "invalid lenprefix length width")
  else
    let length_field :=
      if length_includes_header c then u64 (vsize (pk_body p) + length_bytes c)
      else vsize (pk_body p) in
    if negb (fits_width length_field (length_bytes c)) then
      ([], set_error s "lenprefix payload length does not fit header")
    else
      (write_uint length_field (length_bytes c) (endian c) [] ++ pk_body p, set_error s "").

End LenPrefixEnvelope.

(** ** [IdLenEnvelope] *)

Module IdLenEnvelope.

Definition make (config : EnvelopeConfig) : Envelope :=
  Envelope_make
    (mkConfig (endian config)
       (if length_bytes config =? 0 then 2 else length_bytes config)
       (if route_id_bytes config =? 0 then 2 else route_id_bytes config)
       (length_includes_header config) (delimiter config) (max_frame_size config)
       SourceHeader).

Definition packet (id : Z) (payload raw : list byte) : Packet :=
  mkPacket (u32 id) 0 0 0 payload raw.

Definition step (c : EnvelopeConfig) (buf : list byte) : verdict Packet :=
  let header_size := route_id_bytes c + length_bytes c in
  if vsize buf <? header_size then Wait
  else
    let id := read_uint (take (Z.to_nat (route_id_bytes c)) buf) (endian c) in
    let length_field :=
      read_uint (take (Z.to_nat (length_bytes c)) (drop (Z.to_nat (route_id_bytes c)) buf))
        (endian c) in
    if u32_max <? id then Reject "idlen route id overflow"
    else sized_frame "idlen" c header_size length_field (packet id) buf.

Definition widths_ok (c : EnvelopeConfig) : bool :=
  valid_integer_width (route_id_bytes c) && valid_integer_width (length_bytes c).

Definition feed (s : Envelope) (d : Span) : list Packet * Envelope :=
  match d with
  | NullData sz =>
      if 0 <? sz then fail_feed s "idlen feed received null data"
      else if negb (widths_ok (config_ s)) then fail_feed s "invalid idlen integer width"
      else pump (step (config_ s)) s []
  | Data bytes =>
      if negb (widths_ok (config_ s)) then fail_feed s "invalid idlen integer width"
      else pump (step (config_ s)) s bytes
  end.

Definition encode (s : Envelope) (p : Packet) : list byte * Envelope :=
  let c := config_ s in
  if negb (widths_ok c) then ([], set_error s "invalid idlen integer width")
  else if negb (fits_width (pk_route_id p) (route_id_bytes c)) then
    ([], set_error s "idlen route id does not fit header")
  else
    let length_field :=
      if length_includes_header c then
        u64 (vsize (pk_body p) + route_id_bytes c + length_bytes c)
      else vsize (pk_body p) in
    if negb (fits_width length_field (length_bytes c)) then
      ([], set_error s "idlen payload length does not fit header")
    else
      (write_uint length_field (length_bytes c) (endian c)
         (write_uint (pk_route_id p) (route_id_bytes c) (endian c) [])
       ++ pk_body p, set_error s "").

End IdLenEnvelope.

(** ** [TypeLenEnvelope] *)

Module TypeLenEnvelope.

Definition make (config : EnvelopeConfig) : Envelope :=
  Envelope_make
    (mkConfig (endian config)
       (if length_bytes config =? 0 then 4 else length_bytes config)
       (if route_id_bytes config =? 0 then 1 else route_id_bytes config)
       (length_includes_header config) (delimiter config) (max_frame_size config)
       SourceHeader).

Definition packet (type_id : Z) (payload raw : list byte) : Packet :=
  mkPacket (u32 type_id) (u16 (Z.land type_id u16_max)) 0 0 payload raw.

Definition step (c : EnvelopeConfig) (buf : list byte) : verdict Packet :=
  let header_size := route_id_bytes c + length_bytes c in
  if vsize buf <? header_size then Wait
  else
    let type_id := read_uint (take (Z.to_nat (route_id_bytes c)) buf) (endian c) in
    let length_field :=
      read_uint (take (Z.to_nat (length_bytes c)) (drop (Z.to_nat (route_id_bytes c)) buf))
        (endian c) in
    if u32_max <? type_id then Reject "typed_len type id overflow"
    else sized_frame "typed_len" c header_size length_field (packet type_id) buf.

Definition widths_ok (c : EnvelopeConfig) : bool :=
  valid_integer_width (route_id_bytes c) && valid_integer_width (length_bytes c).

Definition feed (s : Envelope) (d : Span) : list Packet * Envelope :=
  match d with
  | NullData sz =>
      if 0 <? sz then fail_feed s "typed_len feed received null data"
      else if negb (widths_ok (config_ s)) then fail_feed s "invalid typed_len integer width"
      else pump (step (config_ s)) s []
  | Data bytes =>
      if negb (widths_ok (config_ s)) then fail_feed s "invalid typed_len integer width"
      else pump (step (config_ s)) s bytes
  end.

Definition encode (s : Envelope) (p : Packet) : list byte * Envelope :=
  let c := config_ s in
  let type_id := if negb (pk_route_id p =? 0) then pk_route_id p else pk_kind p in
  if negb (widths_ok c) then ([], set_error s "invalid typed_len integer width")
  else if negb (fits_width type_id (route_id_bytes c)) then
    ([], set_error s "typed_len type id does not fit header")
  else
    let length_field :=
      if length_includes_header c then
        u64 (vsize (pk_body p) + route_id_bytes c + length_bytes c)
      else vsize (pk_body p) in
    if negb (fits_width length_field (length_bytes c)) then
      ([], set_error s "typed_len payload length does not fit header")
    else
      (write_uint length_field (length_bytes c) (endian c)
         (write_uint type_id (route_id_bytes c) (endian c) [])
       ++ pk_body p, set_error s "").

End TypeLenEnvelope.

(** ** [DelimiterEnvelope] *)

Module DelimiterEnvelope.

Definition make (config : EnvelopeConfig) : Envelope :=
  Envelope_make
    (mkConfig (endian config) 0 0 (length_includes_header config) (delimiter config)
       (max_frame_size config) SourceBody).

(** [std::find]: the position of the first delimiter. *)
Fixpoint find (d : byte) (buf : list byte) : option nat :=
  match buf with
  | [] => None
  | b :: buf' => if byte.unsigned b =? byte.unsigned d then Some O else S <$> find d buf'
  end.

Definition step (c : EnvelopeConfig) (buf : list byte) : verdict Packet :=
  match find (delimiter c) buf with
  | None =>
      if (0 <? max_frame_size c) && (max_frame_size c <? vsize buf) then
        Reject "delimiter frame too large"
      else Wait
  | Some body_len =>
      if (0 <? max_frame_size c) && (max_frame_size c <? Z.of_nat body_len) then
        Reject "delimiter frame too large"
      else
        Emit (mkPacket 0 0 0 0 (take body_len buf) (take (S body_len) buf)) (S body_len)
  end.

Definition feed (s : Envelope) (d : Span) : list Packet * Envelope :=
  match d with
  | NullData sz =>
      if 0 <? sz then fail_feed s "delimiter feed received null data"
      else pump (step (config_ s)) s []
  | Data bytes => pump (step (config_ s)) s bytes
  end.

Definition encode (s : Envelope) (p : Packet) : list byte * Envelope :=
  (pk_body p ++ [delimiter (config_ s)], set_error s "").

End DelimiterEnvelope.

(** ** The factory and the virtual operations

    An object of static type [Envelope&]: its dynamic class and its members. *)

Record EnvelopeObj := mkEnvelopeObj { env_kind : EnvelopeKind; env_state : Envelope }.

Definition create_envelope (k : EnvelopeKind) (config : EnvelopeConfig) : EnvelopeObj :=
  mkEnvelopeObj k
    match k with
    | LenPrefix => LenPrefixEnvelope.make config
    | IdLen => IdLenEnvelope.make config
    | TypeLen => TypeLenEnvelope.make config
    | Delimiter => DelimiterEnvelope.make config
    end.

(** [parse_envelope_kind], also the test order of [create_envelope(string_view, _)]. *)
Definition parse_envelope_kind (value : string) : option EnvelopeKind :=
  if str_in value ["lenprefix"; "len-prefix"; "len_prefix"] then Some LenPrefix
  else if str_in value ["idlen"; "id-len"; "id_len"] then Some IdLen
  else if str_in value ["typed_len"; "type_len"; "typed-len"; "typelen"] then Some TypeLen
  else if str_in value ["delimiter"; "line"] then Some Delimiter
  else None.

Definition create_envelope_by_name (name : string) (config : EnvelopeConfig)
  : option EnvelopeObj :=
  if str_in name ["lenprefix"; "len-prefix"; "len_prefix"] then
    Some (create_envelope LenPrefix config)
  else if str_in name ["idlen"; "id-len"; "id_len"] then
    Some (create_envelope IdLen config)
  else if str_in name ["typed_len"; "type_len"; "typed-len"; "typelen"] then
    Some (create_envelope TypeLen config)
  else if str_in name ["delimiter"; "line"] then Some (create_envelope Delimiter config)
  else None.

Definition env_name (k : EnvelopeKind) : string :=
  match k with
  | LenPrefix => "lenprefix" | IdLen => "idlen"
  | TypeLen => "typed_len" | Delimiter => "delimiter"
  end.

Definition env_feed (o : EnvelopeObj) (d : Span) : list Packet * EnvelopeObj :=
  let '(ps, s) :=
    match env_kind o with
    | LenPrefix => LenPrefixEnvelope.feed (env_state o) d
    | IdLen => IdLenEnvelope.feed (env_state o) d
    | TypeLen => TypeLenEnvelope.feed (env_state o) d
    | Delimiter => DelimiterEnvelope.feed (env_state o) d
    end in
  (ps, mkEnvelopeObj (env_kind o) s).

Definition env_encode (o : EnvelopeObj) (p : Packet) : list byte * EnvelopeObj :=
  let '(bs, s) :=
    match env_kind o with
    | LenPrefix => LenPrefixEnvelope.encode (env_state o) p
    | IdLen => IdLenEnvelope.encode (env_state o) p
    | TypeLen => TypeLenEnvelope.encode (env_state o) p
    | Delimiter => DelimiterEnvelope.encode (env_state o) p
    end in
  (bs, mkEnvelopeObj (env_kind o) s).

Definition env_reset (o : EnvelopeObj) : EnvelopeObj :=
  mkEnvelopeObj (env_kind o) (reset (env_state o)).

(** ** The length-prefixed loop bodies meet the stream interface *)

Lemma body_length_bound lf h inc n :
  0 <= lf -> 0 <= h -> body_length_from_field lf h inc = Some n ->
  0 <= n <= size_max /\ (if inc then n + h = lf else n = lf).
Proof.
  unfold body_length_from_field. intros Hlf Hh H.
  destruct inc; cbn [negb] in H; repeat case_in H; simplify_eq; bools; lia.
Qed.

Lemma sized_frame_app who c h lf mk b d :
  0 <= h <= vsize b -> 0 <= lf -> sized_frame who c h lf mk b <> Wait ->
  sized_frame who c h lf mk (b ++ d) = sized_frame who c h lf mk b.
Proof.
  unfold sized_frame. intros Hh Hlf H.
  destruct (body_length_from_field lf h (length_includes_header c)) as [n|] eqn:E; [|done].
  apply body_length_bound in E as [[Hn _] _]; [|lia|lia].
  destruct (size_max - h <? n); [done|].
  destruct ((0 <? max_frame_size c) && (max_frame_size c <? n))%bool; [done|].
  destruct (vsize b <? n + h) eqn:Ew; [done|]. bools.
  rewrite vsize_app. pose proof (vsize_nonneg d).
  rewrite (proj2 (Z.ltb_ge _ _)) by lia.
  rewrite (take_app_prefix (Z.to_nat (n + h))) by lia.
  rewrite (drop_app_prefix (Z.to_nat h)) by lia.
  rewrite take_app_prefix; [done|]. unfold vsize in *. rewrite length_drop. lia.
Qed.

Lemma sized_frame_consumes who c h lf mk b p n :
  0 < h -> 0 <= lf -> sized_frame who c h lf mk b = Emit p n -> (0 < n <= length b)%nat.
Proof.
  unfold sized_frame. intros Hh Hlf H.
  destruct (body_length_from_field lf h (length_includes_header c)) as [k|] eqn:E; [|done].
  apply body_length_bound in E as [[Hn _] _]; [|lia|lia].
  repeat case_in H; simplify_eq. bools. unfold vsize in *. lia.
Qed.

Lemma sized_frame_inv who c h lf mk b p n :
  0 <= h -> 0 <= lf -> sized_frame who c h lf mk b = Emit p n ->
  exists len, p = mk (take (Z.to_nat len) (drop (Z.to_nat h) b)) (take n b) /\
    0 <= len /\ len + h <= vsize b /\ n = Z.to_nat (len + h) /\
    (0 < max_frame_size c -> len <= max_frame_size c).
Proof.
  unfold sized_frame. intros Hh Hlf H.
  destruct (body_length_from_field lf h (length_includes_header c)) as [k|] eqn:E; [|done].
  apply body_length_bound in E as [[Hn _] _]; [|lia|lia].
  repeat case_in H; simplify_eq. bools. exists k. repeat split; try lia.
Qed.

(** The loop body of each class, and the configurations its [feed] accepts. *)
Definition env_step (k : EnvelopeKind) : EnvelopeConfig -> list byte -> verdict Packet :=
  match k with
  | LenPrefix => LenPrefixEnvelope.step
  | IdLen => IdLenEnvelope.step
  | TypeLen => TypeLenEnvelope.step
  | Delimiter => DelimiterEnvelope.step
  end.

Definition env_widths_ok (k : EnvelopeKind) (c : EnvelopeConfig) : bool :=
  match k with
  | LenPrefix => valid_integer_width (length_bytes c)
  | IdLen => IdLenEnvelope.widths_ok c
  | TypeLen => TypeLenEnvelope.widths_ok c
  | Delimiter => true
  end.

Lemma env_feed_data o bytes :
  env_widths_ok (env_kind o) (config_ (env_state o)) = true ->
  env_feed o (Data bytes) =
    let '(ps, s) := pump (env_step (env_kind o) (config_ (env_state o))) (env_state o) bytes in
    (ps, mkEnvelopeObj (env_kind o) s).
Proof.
  destruct o as [k s]; cbn. unfold env_feed; cbn.
  destruct k; cbn; intros H; rewrite ?H; done.
Qed.

(** With a width outside 1, 2, 4, 8 every [feed] fails. *)
Lemma env_feed_bad_width o d :
  env_widths_ok (env_kind o) (config_ (env_state o)) = false ->
  exists e, e <> "" /\
    env_feed o d = ([], mkEnvelopeObj (env_kind o) (mkEnvelope (config_ (env_state o)) [] e)).
Proof.
  destruct o as [k s]; cbn. unfold env_feed; cbn.
  destruct k; cbn; intros H; [| | |done]; destruct d; cbn; rewrite ?H; cbn;
    try (destruct (0 <? sz); cbn); eexists; (split; [|reflexivity]); discriminate.
Qed.

Lemma idlen_widths c :
  IdLenEnvelope.widths_ok c = true -> 1 <= route_id_bytes c <= 8 /\ 1 <= length_bytes c <= 8.
Proof. unfold IdLenEnvelope.widths_ok. intros. bools. split; by apply valid_integer_width_range. Qed.

Lemma typelen_widths c :
  TypeLenEnvelope.widths_ok c = true -> 1 <= route_id_bytes c <= 8 /\ 1 <= length_bytes c <= 8.
Proof. apply idlen_widths. Qed.

Lemma vsize_take_le {A} (l : list A) n : 0 <= n -> vsize (take (Z.to_nat n) l) <= n.
Proof. intros. unfold vsize. rewrite length_take. lia. Qed.

(** Header fields are read from the first bytes only. *)
Lemma header_field_app (b d : list byte) skip width :
  0 <= skip -> 0 <= width -> skip + width <= vsize b ->
  take (Z.to_nat width) (drop (Z.to_nat skip) (b ++ d)) =
  take (Z.to_nat width) (drop (Z.to_nat skip) b).
Proof.
  intros. rewrite drop_app_prefix by lia.
  apply take_app_prefix. unfold vsize in *. rewrite length_drop. lia.
Qed.

#[local] Hint Resolve vsize_take_le : shield.

Lemma header_take_app (b d : list byte) width :
  0 <= width <= vsize b -> take (Z.to_nat width) (b ++ d) = take (Z.to_nat width) b.
Proof. intros. apply (header_field_app b d 0 width); lia. Qed.

Lemma read_field_nonneg l n e : 0 <= n <= 8 -> 0 <= read_uint (take (Z.to_nat n) l) e.
Proof. intros. apply read_uint_range. etransitivity; [apply vsize_take_le|]; lia. Qed.

Lemma lenprefix_stream c :
  valid_integer_width (length_bytes c) = true -> StreamStep (LenPrefixEnvelope.step c).
Proof.
  intros Hw%valid_integer_width_range. unfold LenPrefixEnvelope.step. cbv zeta.
  split; intros b.
  - intros p n H. case_in H; [done|].
    eapply sized_frame_consumes; [..|exact H]; [lia|apply read_field_nonneg; lia].
  - intros d p n H. case_in H; [done|]. bools. rewrite vsize_app. pose proof (vsize_nonneg d).
    rewrite (proj2 (Z.ltb_ge _ _)), header_take_app by lia.
    rewrite sized_frame_app; [exact H|lia|apply read_field_nonneg; lia|by rewrite H].
  - intros d e H. case_in H; [done|]. bools. rewrite vsize_app. pose proof (vsize_nonneg d).
    rewrite (proj2 (Z.ltb_ge _ _)), header_take_app by lia.
    rewrite sized_frame_app; [exact H|lia|apply read_field_nonneg; lia|by rewrite H].
Qed.

(** The bodies of the two id-prefixed loops differ in their texts and in the
    packet they build. *)
Definition id_step (who overflow : string) (mk : Z -> list byte -> list byte -> Packet)
    (c : EnvelopeConfig) (buf : list byte) : verdict Packet :=
  let header_size := route_id_bytes c + length_bytes c in
  if vsize buf <? header_size then Wait
  else
    let id := read_uint (take (Z.to_nat (route_id_bytes c)) buf) (endian c) in
    let length_field :=
      read_uint (take (Z.to_nat (length_bytes c)) (drop (Z.to_nat (route_id_bytes c)) buf))
        (endian c) in
    if u32_max <? id then Reject overflow
    else sized_frame who c header_size length_field (mk id) buf.

Lemma id_step_app who ov mk c b d :
  1 <= route_id_bytes c <= 8 -> 1 <= length_bytes c <= 8 ->
  id_step who ov mk c b <> Wait -> id_step who ov mk c (b ++ d) = id_step who ov mk c b.
Proof.
  unfold id_step. intros Hr Hl H. destruct (vsize b <? _) eqn:E in *; [done|]. bools.
  rewrite vsize_app. pose proof (vsize_nonneg d).
  rewrite (proj2 (Z.ltb_ge _ _)), header_take_app, header_field_app by lia.
  case_head; [done|]. apply sized_frame_app; [lia|apply read_field_nonneg; lia|done].
Qed.

Lemma id_step_stream who ov mk c :
  1 <= route_id_bytes c <= 8 -> 1 <= length_bytes c <= 8 -> StreamStep (id_step who ov mk c).
Proof.
  intros Hr Hl. split; intros b.
  - intros p n H. unfold id_step in H. repeat case_in H; try done.
    eapply sized_frame_consumes; [..|exact H]; [lia|apply read_field_nonneg; lia].
  - intros d p n H. rewrite id_step_app; [done..|by rewrite H].
  - intros d e H. rewrite id_step_app; [done..|by rewrite H].
Qed.

Lemma find_app d b b' n :
  DelimiterEnvelope.find d b = Some n -> DelimiterEnvelope.find d (b ++ b') = Some n.
Proof.
  revert n. induction b as [|x b IH]; intros n H; [done|]. cbn in *.
  case_head; [done|]. destruct (DelimiterEnvelope.find d b); [|done].
  cbn in *. by rewrite (IH n0).
Qed.

Lemma find_none_app d b b' :
  DelimiterEnvelope.find d b = None ->
  DelimiterEnvelope.find d (b ++ b') =
    (fun k => (length b + k)%nat) <$> DelimiterEnvelope.find d b'.
Proof.
  induction b as [|x b IH]; intros H; cbn in *.
  - by destruct (DelimiterEnvelope.find d b').
  - case_head; [done|]. destruct (DelimiterEnvelope.find d b); [done|].
    rewrite IH by done. by destruct (DelimiterEnvelope.find d b').
Qed.

Lemma find_bound d b n : DelimiterEnvelope.find d b = Some n -> (n < length b)%nat.
Proof.
  revert n. induction b as [|x b IH]; intros n H; [done|]. cbn in *.
  case_in H; [simplify_eq; lia|]. destruct (DelimiterEnvelope.find d b) eqn:E'; [|done].
  cbn in *. simplify_eq. specialize (IH _ eq_refl). lia.
Qed.

Lemma delimiter_stream c : StreamStep (DelimiterEnvelope.step c).
Proof.
  unfold DelimiterEnvelope.step. split; intros b.
  - intros p n H. destruct (DelimiterEnvelope.find _ b) eqn:F; [|by case_in H].
    case_in H; [done|]. simplify_eq. apply find_bound in F. lia.
  - intros d p n H. destruct (DelimiterEnvelope.find _ b) eqn:F; [|by case_in H].
    rewrite (find_app _ _ _ _ F). case_in H; [done|]. simplify_eq.
    apply find_bound in F. rewrite !take_app_le by lia. done.
  - intros d e H. destruct (DelimiterEnvelope.find _ b) eqn:F.
    + rewrite (find_app _ _ _ _ F). by case_in H.
    + case_in H; [|done]. bools. rewrite (find_none_app _ _ _ F).
      unfold vsize in *. destruct (DelimiterEnvelope.find _ d); cbn.
      * rewrite (proj2 (andb_true_iff _ _)); [done|split; apply Z.ltb_lt; lia].
      * rewrite length_app, (proj2 (andb_true_iff _ _)); [done|split; apply Z.ltb_lt; lia].
Qed.

Lemma env_step_stream k c : env_widths_ok k c = true -> StreamStep (env_step k c).
Proof.
  destruct k; cbn; intros H.
  - by apply lenprefix_stream.
  - apply idlen_widths in H as [? ?].
    by apply (id_step_stream "idlen" "idlen route id overflow" IdLenEnvelope.packet).
  - apply typelen_widths in H as [? ?].
    by apply (id_step_stream "typed_len" "typed_len type id overflow" TypeLenEnvelope.packet).
  - apply delimiter_stream.
Qed.

Lemma env_step_nil k c : env_widths_ok k c = true -> env_step k c [] = Wait.
Proof.
  destruct k; cbn [env_step env_widths_ok]; intros H.
  - apply valid_integer_width_range in H. unfold LenPrefixEnvelope.step.
    by rewrite (proj2 (Z.ltb_lt _ _)) by (rewrite (@vsize_nil byte); lia).
  - apply idlen_widths in H. unfold IdLenEnvelope.step.
    by rewrite (proj2 (Z.ltb_lt _ _)) by (rewrite (@vsize_nil byte); lia).
  - apply typelen_widths in H. unfold TypeLenEnvelope.step.
    by rewrite (proj2 (Z.ltb_lt _ _)) by (rewrite (@vsize_nil byte); lia).
  - unfold DelimiterEnvelope.step. cbn [DelimiterEnvelope.find]. rewrite (@vsize_nil byte).
    destruct (Z.ltb_spec 0 (max_frame_size c)), (Z.ltb_spec (max_frame_size c) 0); done || lia.
Qed.

(** ** Feeding a stream in chunks *)

Lemma sized_frame_error who c h lf mk b e : sized_frame who c h lf mk b = Reject e -> e <> "".
Proof. unfold sized_frame. intros H. repeat case_in H; simplify_eq; by destruct who. Qed.

Lemma env_step_error k c b e : env_step k c b = Reject e -> e <> "".
Proof.
  destruct k; cbn; intros H.
  - unfold LenPrefixEnvelope.step in H. case_in H; [done|]. by eapply sized_frame_error.
  - unfold IdLenEnvelope.step in H. repeat case_in H; simplify_eq; try done.
    by eapply sized_frame_error.
  - unfold TypeLenEnvelope.step in H. repeat case_in H; simplify_eq; try done.
    by eapply sized_frame_error.
  - unfold DelimiterEnvelope.step in H. repeat case_in H; by simplify_eq.
Qed.

Lemma env_drain_error k c b ps r e :
  env_widths_ok k c = true -> drain (env_step k c) b = (ps, r, Some e) -> e <> "".
Proof.
  intros W D. pose proof (env_step_stream _ _ W).
  apply drain_reject_inv in D as [b' ?]; [|done]. by eapply env_step_error.
Qed.

(** When a first call raises no error, feeding a second part after it is feeding
    the concatenation: same packets, same buffered bytes, same error. *)
Lemma env_feed_app o b1 b2 ps1 o1 :
  env_feed o (Data b1) = (ps1, o1) -> has_error (env_state o1) = false ->
  env_feed o (Data (b1 ++ b2)) =
    let '(ps2, o2) := env_feed o1 (Data b2) in (ps1 ++ ps2, o2).
Proof.
  destruct (env_widths_ok (env_kind o) (config_ (env_state o))) eqn:W.
  - pose proof (env_step_stream _ _ W) as HS. rewrite !env_feed_data by done. unfold pump.
    destruct (drain _ (buffer_ (env_state o) ++ b1)) as [[ps r] e] eqn:D.
    intros [= <- <-] He. unfold has_error in He; cbn in He.
    destruct e as [e|]; cbn in He; bools.
    + apply str_empty_true in He. by apply env_drain_error in D.
    + rewrite env_feed_data by done. unfold pump. cbn [env_state env_kind config_ buffer_].
      rewrite (app_assoc _ b1 b2), (drain_app_ok _ _ _ _ _ D).
      by destruct (drain _ (r ++ b2)) as [[? ?] ?].
  - destruct (env_feed_bad_width o (Data b1) W) as (e & He & ->). intros [= <- <-].
    unfold has_error; cbn. intros. bools. by apply str_empty_true in H.
Qed.

Lemma env_feed_app_error o b1 b2 ps1 o1 :
  env_feed o (Data b1) = (ps1, o1) -> has_error (env_state o1) = true ->
  has_error (env_state o) = false -> env_feed o (Data []) = ([], o) ->
  env_feed o (Data (b1 ++ b2)) = (ps1, o1).
Proof.
  intros E He Ho Hid.
  destruct (env_widths_ok (env_kind o) (config_ (env_state o))) eqn:W.
  - rewrite env_feed_data in E |- * by done. unfold pump in *.
    pose proof (env_step_stream _ _ W).
    destruct (drain _ (buffer_ (env_state o) ++ b1)) as [[q r] [e|]] eqn:D; simplify_eq.
    rewrite (app_assoc _ b1), (drain_app_reject _ _ _ _ _ _ D).
    by apply drain_reject_clears in D as ->.
  - destruct (env_feed_bad_width o (Data []) W) as (e & Hne & Hb).
    rewrite Hb in Hid. apply (f_equal snd) in Hid; cbn in Hid. rewrite <- Hid in Ho.
    unfold has_error in Ho; cbn in Ho. bools. by apply str_empty_true in Ho.
Qed.

(** After an error-free call, feeding nothing changes nothing. *)
Lemma env_feed_idle o b ps o' :
  env_feed o (Data b) = (ps, o') -> has_error (env_state o') = false ->
  env_feed o' (Data []) = ([], o').
Proof.
  intros E He. assert (HH := env_feed_app o b [] ps o' E He).
  rewrite app_nil_r, E in HH. destruct (env_feed o' (Data [])) as [q1 q2]. simplify_eq.
  assert (q1 = []) as -> by (eapply app_inv_head; rewrite app_nil_r; eauto). done.
Qed.

(** A sequence of [feed] calls on one envelope, as a session makes them. *)
Fixpoint feed_all (o : EnvelopeObj) (chunks : list (list byte)) : list Packet * EnvelopeObj :=
  match chunks with
  | [] => ([], o)
  | c :: cs =>
      let '(ps, o1) := env_feed o (Data c) in
      let '(ps', o2) := feed_all o1 cs in
      (ps ++ ps', o2)
  end.

Lemma env_feed_shape o d :
  env_kind (env_feed o d).2 = env_kind o /\
  config_ (env_state (env_feed o d).2) = config_ (env_state o).
Proof.
  destruct (env_widths_ok (env_kind o) (config_ (env_state o))) eqn:W.
  - assert (H : forall st bs, config_ (pump st (env_state o) bs).2 = config_ (env_state o)).
    { intros. unfold pump. by destruct (drain _ _) as [[? ?] ?]. }
    unfold env_feed. destruct o as [[] s]; cbn in *; unfold
      LenPrefixEnvelope.feed, IdLenEnvelope.feed, TypeLenEnvelope.feed, DelimiterEnvelope.feed;
      destruct d; try (destruct (0 <? sz); cbn; [done|]); rewrite ?W; cbn [negb];
      match goal with |- context [pump ?st s ?bs] =>
        specialize (H st bs); by destruct (pump st s bs) end.
  - destruct (env_feed_bad_width o d W) as (e & _ & ->). done.
Qed.

(** An error-free prefix of a stream is what the chunks before it fed. *)
Lemma feed_all_concat o chunks ps o' :
  env_feed o (Data []) = ([], o) -> has_error (env_state o) = false ->
  env_feed o (Data (concat chunks)) = (ps, o') -> has_error (env_state o') = false ->
  feed_all o chunks = (ps, o').
Proof.
  revert o ps o'. induction chunks as [|c cs IH]; intros o ps o' Hid Ho H He; cbn in *.
  - congruence.
  - destruct (env_feed o (Data c)) as [ps1 o1] eqn:E1.
    destruct (has_error (env_state o1)) eqn:He1.
    + rewrite (env_feed_app_error _ _ (concat cs) _ _ E1 He1 Ho Hid) in H. congruence.
    + rewrite (env_feed_app _ _ _ _ _ E1 He1) in H.
      destruct (env_feed o1 (Data (concat cs))) as [ps2 o2] eqn:E2. simplify_eq.
      rewrite (IH o1 ps2 o'); [done| |done..]. by eapply env_feed_idle.
Qed.

(** ** Round trips *)

(** The packets an application can send through an envelope: field ranges, a
    body that the limit admits and whose length does not overflow [size_t] with
    a header, and no delimiter inside a delimited body. *)
Definition sendable (k : EnvelopeKind) (c : EnvelopeConfig) (p : Packet) : Prop :=
  0 <= pk_route_id p < 2 ^ 32 /\ 0 <= pk_kind p < 2 ^ 16 /\
  vsize (pk_body p) + 16 <= size_max /\
  (0 < max_frame_size c -> vsize (pk_body p) <= max_frame_size c) /\
  (k = Delimiter -> DelimiterEnvelope.find (delimiter c) (pk_body p) = None).

(** What the receiver sees of a packet [p] sent as the bytes [raw]. *)
Definition delivered (k : EnvelopeKind) (p : Packet) (raw : list byte) : Packet :=
  match k with
  | LenPrefix | Delimiter => mkPacket 0 0 0 0 (pk_body p) raw
  | IdLen => mkPacket (pk_route_id p) 0 0 0 (pk_body p) raw
  | TypeLen =>
      let t := if pk_route_id p =? 0 then pk_kind p else pk_route_id p in
      mkPacket t (t `mod` 2 ^ 16) 0 0 (pk_body p) raw
  end.

Lemma sized_frame_complete who c hdr lf mk p :
  vsize hdr <= 16 -> vsize (pk_body p) + 16 <= size_max ->
  (0 < max_frame_size c -> vsize (pk_body p) <= max_frame_size c) ->
  lf = (if length_includes_header c then u64 (vsize (pk_body p) + vsize hdr)
        else vsize (pk_body p)) ->
  sized_frame who c (vsize hdr) lf mk (hdr ++ pk_body p) =
    Emit (mk (pk_body p) (hdr ++ pk_body p)) (length (hdr ++ pk_body p)).
Proof.
  intros Hh Hs Hm Hlf. pose proof (vsize_nonneg hdr). pose proof (vsize_nonneg (pk_body p)).
  unfold sized_frame.
  assert (body_length_from_field lf (vsize hdr) (length_includes_header c)
          = Some (vsize (pk_body p))) as ->.
  { unfold body_length_from_field, size_max in *. subst lf.
    destruct (length_includes_header c); cbn [negb].
    - rewrite cast_small by lia.
      rewrite (proj2 (orb_false_iff _ _)) by (split; apply Z.ltb_ge; lia). f_equal. lia.
    - rewrite (proj2 (Z.ltb_ge _ _)) by lia. done. }
  rewrite (proj2 (Z.ltb_ge _ _)) by lia.
  rewrite (proj2 (andb_false_iff _ _)) by
    (destruct (Z.ltb_spec 0 (max_frame_size c)); [right; apply Z.ltb_ge; lia | by left]).
  rewrite vsize_app, (proj2 (Z.ltb_ge _ _)) by lia.
  assert (Z.to_nat (vsize (pk_body p) + vsize hdr) = length (hdr ++ pk_body p)) as ->.
  { rewrite length_app. unfold vsize. lia. }
  unfold vsize. rewrite !Nat2Z.id, drop_app_length, !firstn_all. done.
Qed.

Lemma typelen_type_id p :
  0 <= pk_route_id p < 2 ^ 32 -> 0 <= pk_kind p < 2 ^ 16 ->
  0 <= (if negb (pk_route_id p =? 0) then pk_route_id p else pk_kind p) < 2 ^ 32.
Proof. intros. destruct (negb _); lia. Qed.

(** The header of the id-prefixed classes. *)
Lemma id_step_complete who ov mk c id p lf :
  valid_integer_width (route_id_bytes c) = true -> valid_integer_width (length_bytes c) = true ->
  0 <= id < 2 ^ 32 -> fits_width id (route_id_bytes c) = true ->
  lf = (if length_includes_header c
        then u64 (vsize (pk_body p) + route_id_bytes c + length_bytes c)
        else vsize (pk_body p)) ->
  fits_width lf (length_bytes c) = true ->
  vsize (pk_body p) + 16 <= size_max ->
  (0 < max_frame_size c -> vsize (pk_body p) <= max_frame_size c) ->
  let hdr := write_uint lf (length_bytes c) (endian c)
               (write_uint id (route_id_bytes c) (endian c) []) in
  id_step who ov mk c (hdr ++ pk_body p) =
    Emit (mk id (pk_body p) (hdr ++ pk_body p)) (length (hdr ++ pk_body p)).
Proof.
  intros Hr Hl Hid Hfid Hlf Hfl Hs Hm hdr.
  pose proof (valid_integer_width_range _ Hr). pose proof (valid_integer_width_range _ Hl).
  pose proof (vsize_nonneg (pk_body p)).
  assert (Hlr : 0 <= lf < 2 ^ 64).
  { subst lf. unfold size_max in Hs. destruct (length_includes_header c); [|lia].
    apply cast_range. lia. }
  set (h1 := write_uint id (route_id_bytes c) (endian c) []) in *.
  set (h2 := write_uint lf (length_bytes c) (endian c) []) in *.
  assert (L1 : vsize h1 = route_id_bytes c) by (apply write_uint_length; lia).
  assert (L2 : vsize h2 = length_bytes c) by (apply write_uint_length; lia).
  assert (Eh : hdr = h1 ++ h2).
  { subst hdr h2. rewrite !write_uint_spec by lia. done. }
  assert (Lh : vsize hdr = route_id_bytes c + length_bytes c) by (rewrite Eh, vsize_app; lia).
  assert (T1 : take (Z.to_nat (route_id_bytes c)) (hdr ++ pk_body p) = h1).
  { rewrite Eh, <- L1, <- app_assoc. unfold vsize. by rewrite Nat2Z.id, take_app_length. }
  assert (T2 : take (Z.to_nat (length_bytes c))
                 (drop (Z.to_nat (route_id_bytes c)) (hdr ++ pk_body p)) = h2).
  { rewrite Eh, <- L1, <- L2, <- app_assoc. unfold vsize.
    by rewrite !Nat2Z.id, drop_app_length, take_app_length. }
  unfold id_step. rewrite T1, T2, <- Lh, vsize_app, (proj2 (Z.ltb_ge _ _)) by lia.
  subst h1 h2. rewrite !read_write_uint by (done || lia).
  rewrite (proj2 (Z.ltb_ge _ _)) by (unfold u32_max; lia).
  apply sized_frame_complete; [lia|done|done|].
  rewrite Lh, Z.add_assoc. done.
Qed.

(** An encoded packet is one complete frame of its own class. *)
Lemma encode_step o p bs o' :
  let k := env_kind o in let c := config_ (env_state o) in
  sendable k c p -> env_encode o p = (bs, o') -> has_error (env_state o') = false ->
  env_widths_ok k c = true /\ env_step k c bs = Emit (delivered k p bs) (length bs).
Proof.
  destruct o as [k s]. cbn. intros (Hid & Hk & Hs & Hm & Hd) He Hn.
  unfold env_encode in He. destruct k; cbn in He |- *.
  - unfold LenPrefixEnvelope.encode in He.
    destruct (valid_integer_width _) eqn:W; cbn [negb] in He; [|by simplify_eq].
    destruct (fits_width _ _) eqn:F; cbn [negb] in He; [|by simplify_eq].
    simplify_eq. split; [done|]. pose proof (valid_integer_width_range _ W).
    unfold LenPrefixEnvelope.step.
    set (lf := if length_includes_header _ then _ else _) in *.
    set (hdr := write_uint lf _ _ []).
    assert (L : vsize hdr = length_bytes (config_ s)) by (apply write_uint_length; lia).
    pose proof (vsize_nonneg (pk_body p)).
    assert (T : take (Z.to_nat (length_bytes (config_ s))) (hdr ++ pk_body p) = hdr).
    { rewrite <- L. unfold vsize. by rewrite Nat2Z.id, take_app_length. }
    rewrite T, vsize_app, (proj2 (Z.ltb_ge _ _)) by lia.
    replace (read_uint hdr (endian (config_ s))) with lf.
    + rewrite <- L. apply sized_frame_complete; [lia|done|done|]. by rewrite L.
    + symmetry. apply read_write_uint; [done| |done]. subst lf. unfold size_max in Hs.
      destruct (length_includes_header _); [apply cast_range; lia | lia].
  - unfold IdLenEnvelope.encode in He.
    destruct (IdLenEnvelope.widths_ok _) eqn:W; cbn [negb] in He; [|by simplify_eq].
    destruct (fits_width (pk_route_id p) _) eqn:Fi; cbn [negb] in He; [|by simplify_eq].
    destruct (fits_width _ (length_bytes _)) eqn:F; cbn [negb] in He; [|by simplify_eq].
    simplify_eq. split; [done|]. unfold IdLenEnvelope.widths_ok in W. bools.
    etransitivity;
      [apply (id_step_complete "idlen" "idlen route id overflow" IdLenEnvelope.packet); eauto|].
    unfold IdLenEnvelope.packet. rewrite cast_small by lia. done.
  - unfold TypeLenEnvelope.encode in He.
    destruct (TypeLenEnvelope.widths_ok _) eqn:W; cbn [negb] in He; [|by simplify_eq].
    pose proof (typelen_type_id p Hid Hk) as Ht.
    set (t := if negb (pk_route_id p =? 0) then _ else _) in *.
    destruct (fits_width t _) eqn:Fi; cbn [negb] in He; [|by simplify_eq].
    destruct (fits_width _ (length_bytes _)) eqn:F; cbn [negb] in He; [|by simplify_eq].
    simplify_eq. split; [done|]. unfold TypeLenEnvelope.widths_ok in W. bools.
    etransitivity;
      [apply (id_step_complete "typed_len" "typed_len type id overflow"
                TypeLenEnvelope.packet); eauto|].
    assert ((if pk_route_id p =? 0 then pk_kind p else pk_route_id p) = t) as Et.
    { subst t. by destruct (pk_route_id p =? 0). }
    unfold delivered. rewrite Et. unfold TypeLenEnvelope.packet.
    rewrite (cast_small 32) by lia. change u16_max with (Z.ones 16).
    rewrite Z.land_ones by lia. unfold cast. rewrite Z.mod_mod by lia. done.
  - unfold DelimiterEnvelope.encode in He. simplify_eq. split; [done|].
    unfold DelimiterEnvelope.step. rewrite (find_none_app _ _ _ (Hd eq_refl)). cbn.
    rewrite Z.eqb_refl. cbn. rewrite Nat.add_0_r.
    assert ((0 <? max_frame_size (config_ s)) &&
            (max_frame_size (config_ s) <? Z.of_nat (length (pk_body p))) = false) as ->.
    { unfold vsize in Hm. destruct (Z.ltb_spec 0 (max_frame_size (config_ s))); [|done].
      cbn. apply Z.ltb_ge. lia. }
    rewrite length_app, take_app_length. cbn [length].
    rewrite Nat.add_1_r, firstn_all2 by (rewrite length_app; cbn [length]; lia). done.
Qed.

(** Each packet's raw frame is the bytes consumed for it. *)
Lemma env_step_raw k c b p n :
  env_widths_ok k c = true -> env_step k c b = Emit p n ->
  pk_raw_frame p = take n b /\ (0 < max_frame_size c -> vsize (pk_body p) <= max_frame_size c).
Proof.
  destruct k; cbn [env_step env_widths_ok]; intros W H.
  - apply valid_integer_width_range in W. unfold LenPrefixEnvelope.step in H. case_in H; [done|].
    apply sized_frame_inv in H as (len & -> & ? & ? & -> & ?); [|lia|apply read_field_nonneg; lia].
    split; [done|]. intros. cbn. etransitivity; [apply vsize_take_le|]; auto.
  - apply idlen_widths in W. unfold IdLenEnvelope.step in H. repeat case_in H; try done.
    apply sized_frame_inv in H as (len & -> & ? & ? & -> & ?); [|lia|apply read_field_nonneg; lia].
    split; [done|]. intros. cbn. etransitivity; [apply vsize_take_le|]; auto.
  - apply typelen_widths in W. unfold TypeLenEnvelope.step in H. repeat case_in H; try done.
    apply sized_frame_inv in H as (len & -> & ? & ? & -> & ?); [|lia|apply read_field_nonneg; lia].
    split; [done|]. intros. cbn. etransitivity; [apply vsize_take_le|]; auto.
  - unfold DelimiterEnvelope.step in H.
    destruct (DelimiterEnvelope.find _ b) as [m|] eqn:F; [|by case_in H].
    case_in H; [done|]. simplify_eq. split; [done|]. cbn. unfold vsize. rewrite length_take.
    intros. destruct (Z.ltb_spec (max_frame_size c) (Z.of_nat m)); [|lia].
    rewrite andb_false_iff in *. bools. destruct E; bools; lia.
Qed.

Lemma env_drain_conserves k c b ps r :
  env_widths_ok k c = true -> drain (env_step k c) b = (ps, r, None) ->
  b = concat (map pk_raw_frame ps) ++ r /\
  Forall (fun p => 0 < max_frame_size c -> vsize (pk_body p) <= max_frame_size c) ps.
Proof.
  intros W. pose proof (env_step_stream _ _ W) as HS. revert ps r.
  pattern b, (drain (env_step k c) b).
  apply drain_ind; clear b; [done| | discriminate | intros b p n ps rest e E D IH];
    [intros b _ | ]; intros ps' r' Heq; simplify_eq; [by split|].
  destruct (IH ps r' eq_refl) as [H1 H2].
  destruct (env_step_raw _ _ _ _ _ W E) as [H3 H4].
  split; [|by constructor]. cbn. by rewrite <- app_assoc, <- H1, H3, take_drop.
Qed.

(** The receiver's chunked calls deliver what the sender encoded. *)
Lemma stream_delivered k cfg (sent : list (Packet * list byte)) chunks :
  let o := create_envelope k cfg in
  Forall (fun '(p, bs) => sendable k (config_ (env_state o)) p /\
            exists o', env_encode o p = (bs, o') /\ has_error (env_state o') = false) sent ->
  env_widths_ok k (config_ (env_state o)) = true ->
  concat chunks = concat (map snd sent) ->
  feed_all o chunks = (map (fun '(p, bs) => delivered k p bs) sent, o).
Proof.
  intros o Hsent W Hc.
  assert (Hk : env_kind o = k) by done.
  assert (Ho : buffer_ (env_state o) = [] /\ error_ (env_state o) = "") by (by destruct k).
  pose proof (env_step_stream _ _ W) as HS.
  pose proof (env_step_nil _ _ W) as Hnil.
  assert (Hdrain : drain (env_step k (config_ (env_state o))) (concat chunks) =
            (map (fun '(p, bs) => delivered k p bs) sent, [], None)).
  { rewrite Hc.
    set (fr := map (fun '(p, bs) => (delivered k p bs, bs)) sent).
    replace (map snd sent) with (map snd fr) by
      (unfold fr; rewrite map_map; apply map_ext; by intros [? ?]).
    replace (map (fun '(p, bs) => delivered k p bs) sent) with (map fst fr) by
      (unfold fr; rewrite map_map; apply map_ext; by intros [? ?]).
    apply drain_frames; [done|done|]. unfold fr.
    apply Forall_forall. intros [q f] Hin.
    apply in_map_iff in Hin as ([p bs] & Heq & Hin). simplify_eq. rewrite Forall_forall in Hsent.
    destruct (Hsent (p, f)) as (Hs & o' & He & Hne); [done|].
    by apply (encode_step o p f o'). }
  apply feed_all_concat.
  - rewrite env_feed_data by done. unfold pump. rewrite (proj1 Ho), Hk. cbn [app].
    rewrite drain_unfold, Hnil by done. cbn. destruct Ho. by destruct k.
  - unfold has_error. by rewrite (proj2 Ho).
  - rewrite env_feed_data by done. unfold pump. rewrite (proj1 Ho), Hk. cbn [app].
    rewrite Hdrain. cbn. destruct Ho. by destruct k.
  - unfold has_error. by rewrite (proj2 Ho).
Qed.

(** ** Properties *)

(** C1: an envelope decodes what it encodes.  Packets that the sender's
    [encode] accepts, sent one after the other and received in chunks cut
    anywhere, come out of the receiver's successive [feed] calls as exactly those
    packets, in order, with nothing left in the buffer and no error. *)
Theorem stream_roundtrip k cfg (sent : list (Packet * list byte)) chunks :
  let o := create_envelope k cfg in
  Forall (fun '(p, bs) => sendable k (config_ (env_state o)) p /\
            exists o', env_encode o p = (bs, o') /\ has_error (env_state o') = false) sent ->
  env_widths_ok k (config_ (env_state o)) = true ->
  concat chunks = concat (map snd sent) ->
  feed_all o chunks = (map (fun '(p, bs) => delivered k p bs) sent, o).
Proof. apply stream_delivered. Qed.

Definition ex_packet (id : Z) (text : string) : Packet := mkPacket id 0 0 0 (bytes_of text) [].

Lemma stream_roundtrip_witness :
  let p := ex_packet 258 "hi" in
  feed_all (create_envelope IdLen default_config)
    [[Byte.x01]; [Byte.x02; Byte.x00; Byte.x02; Byte.x68]; [Byte.x69]] =
  ([mkPacket 258 0 0 0 (bytes_of "hi") [Byte.x01; Byte.x02; Byte.x00; Byte.x02; Byte.x68; Byte.x69]],
   create_envelope IdLen default_config).
Proof.
  intros p.
  apply (stream_roundtrip IdLen default_config
    [(p, [Byte.x01; Byte.x02; Byte.x00; Byte.x02; Byte.x68; Byte.x69])]); [|reflexivity..].
  constructor; [|constructor]. split.
  - unfold sendable, size_max. cbn. unfold vsize; cbn. repeat split; try lia; discriminate.
  - exists (create_envelope IdLen default_config). split; reflexivity.
Defined.

(** How a byte stream is cut into [feed] calls is irrelevant, for every
    envelope class, configuration and buffered state.  If feeding the whole
    stream at once raises no error, any sequence of chunks of it yields the same
    packets and the same state; if it raises an error, feeding the chunks one by
    one reaches the same error, after the same packets, at some chunk. *)
Theorem feed_any_chunking o chunks ps o' :
  env_feed o (Data []) = ([], o) -> has_error (env_state o) = false ->
  env_feed o (Data (concat chunks)) = (ps, o') ->
  if has_error (env_state o')
  then exists n, feed_all o (take n chunks) = (ps, o')
  else feed_all o chunks = (ps, o').
Proof.
  destruct (has_error (env_state o')) eqn:He; [|intros; by apply feed_all_concat].
  revert o ps. induction chunks as [|c cs IH]; intros o ps Hid Ho H; cbn in H.
  { rewrite Hid in H. simplify_eq. congruence. }
  destruct (env_feed o (Data c)) as [ps1 o1] eqn:E1.
  destruct (has_error (env_state o1)) eqn:He1.
  - exists 1%nat. cbn. rewrite take_0. cbn. rewrite E1, app_nil_r.
    rewrite (env_feed_app_error _ _ (concat cs) _ _ E1 He1 Ho Hid) in H. congruence.
  - rewrite (env_feed_app _ _ _ _ _ E1 He1) in H.
    destruct (env_feed o1 (Data (concat cs))) as [ps2 o2] eqn:E2. simplify_eq.
    destruct (IH o1 ps2) as [n Hn]; [|done..|].
    + by eapply env_feed_idle.
    + exists (S n). cbn. by rewrite E1, Hn.
Qed.

Definition split_line : EnvelopeObj := create_envelope Delimiter default_config.

Lemma feed_any_chunking_witness :
  feed_all split_line [[Byte.x61]; [Byte.x62; Byte.x0a]] =
  ([mkPacket 0 0 0 0 [Byte.x61; Byte.x62] [Byte.x61; Byte.x62; Byte.x0a]], split_line).
Proof.
  apply (feed_any_chunking split_line [[Byte.x61]; [Byte.x62; Byte.x0a]]
           [mkPacket 0 0 0 0 [Byte.x61; Byte.x62] [Byte.x61; Byte.x62; Byte.x0a]] split_line);
    reflexivity.
Defined.

(** No byte is lost, invented or duplicated by an error-free [feed]: the
    raw frames of the packets it returns, followed by what stays buffered, are
    the bytes that were buffered before followed by the bytes received.  And
    no packet exceeds the configured limit. *)
Theorem feed_conserves_bytes o bytes ps o' :
  env_feed o (Data bytes) = (ps, o') -> has_error (env_state o') = false ->
  buffer_ (env_state o) ++ bytes = concat (map pk_raw_frame ps) ++ buffer_ (env_state o') /\
  Forall (fun p => 0 < max_frame_size (config_ (env_state o)) ->
                   vsize (pk_body p) <= max_frame_size (config_ (env_state o))) ps.
Proof.
  destruct (env_widths_ok (env_kind o) (config_ (env_state o))) eqn:W.
  - rewrite env_feed_data by done. unfold pump.
    destruct (drain _ _) as [[qs r] e] eqn:D. intros [= <- <-] He.
    unfold has_error in He; cbn in He. destruct e as [e|]; cbn in He; bools.
    + apply str_empty_true in He. by apply env_drain_error in D.
    + cbn. by apply (env_drain_conserves _ _ _ _ _ W).
  - destruct (env_feed_bad_width o (Data bytes) W) as (e & He & ->). intros [= <- <-].
    unfold has_error; cbn. intros. bools. by apply str_empty_true in H.
Qed.

Lemma feed_conserves_bytes_witness :
  buffer_ (env_state split_line) ++ [Byte.x61; Byte.x0a; Byte.x62] =
  concat (map pk_raw_frame [mkPacket 0 0 0 0 [Byte.x61] [Byte.x61; Byte.x0a]]) ++ [Byte.x62].
Proof.
  apply (feed_conserves_bytes split_line [Byte.x61; Byte.x0a; Byte.x62]
    [mkPacket 0 0 0 0 [Byte.x61] [Byte.x61; Byte.x0a]]
    (mkEnvelopeObj Delimiter (mkEnvelope (config_ (env_state split_line)) [Byte.x62] "")));
    reflexivity.
Defined.
