(* ===== verification/Frame.v ===== *)
(** * Length-prefixed frames ([src/transport/frame.cpp])

    [FrameHeader], [Frame], [FrameEncoder] and the stateful [FrameDecoder],
    which caches the header of an incomplete frame between calls.  The decoder is
    shown to refine the stream loop of [Stream.v]; the round trips follow. *)

From S2P Require Import Prelude Text Stream Wire.

Record FrameHeader := mkHeader { fh_length : Z; fh_flags : Z; fh_type : Z }.

Definition HEADER_SIZE : Z := 8.

Definition at_ (data : list byte) (i : nat) : Z := byte.unsigned (nth i data Byte.x00).

(** [FrameHeader::from_network]; the caller guarantees 8 readable bytes. *)
Definition from_network (data : list byte) : FrameHeader :=
  mkHeader
    (Z.lor (Z.lor (Z.lor (u32 (Z.shiftl (at_ data 0) 24)) (u32 (Z.shiftl (at_ data 1) 16)))
                  (u32 (Z.shiftl (at_ data 2) 8))) (at_ data 3))
    (u16 (Z.lor (Z.shiftl (at_ data 4) 8) (at_ data 5)))
    (u16 (Z.lor (Z.shiftl (at_ data 6) 8) (at_ data 7))).

Definition octet (v shift : Z) : byte := byte.of_Z (Z.land (Z.shiftr v shift) 0xff).

Definition to_network (h : FrameHeader) : list byte :=
  [octet (fh_length h) 24; octet (fh_length h) 16; octet (fh_length h) 8; octet (fh_length h) 0;
   octet (fh_flags h) 8; octet (fh_flags h) 0; octet (fh_type h) 8; octet (fh_type h) 0].

Record Frame := mkFrame { fr_header : FrameHeader; fr_payload : list byte }.

(** [Frame(type, payload)] *)
Definition frame_make (type : Z) (payload : list byte) : Frame :=
  mkFrame (mkHeader (u32 (vsize payload)) 0 type) payload.

Definition total_size (f : Frame) : Z := HEADER_SIZE + fh_length (fr_header f).

Definition serialize (f : Frame) : list byte := to_network (fr_header f) ++ fr_payload f.

(** [Frame::parse]: the result and the object, whose header is overwritten even
    when the payload is incomplete. *)
Definition parse (f : Frame) (data : list byte) : bool * Frame :=
  if vsize data <? HEADER_SIZE then (false, f)
  else
    let h := from_network data in
    if vsize data - HEADER_SIZE <? fh_length h then (false, mkFrame h (fr_payload f))
    else (true, mkFrame h (take (Z.to_nat (fh_length h)) (drop 8 data))).

(** [FrameEncoder::encode] *)
Definition frame_encode (f : Frame) : list byte := serialize f.

(** ** [FrameDecoder] *)

Record FrameDecoder := mkDecoder {
  fd_buffer : list byte;
  fd_header : FrameHeader;
  fd_needed : Z;
  fd_have_header : bool;
  fd_max_frame_size : Z;
  fd_error : string
}.

Definition decoder_make (max_frame_size : Z) : FrameDecoder :=
  mkDecoder [] (mkHeader 0 0 0) HEADER_SIZE false max_frame_size "".

Definition set_max_frame_size (d : FrameDecoder) (m : Z) : FrameDecoder :=
  mkDecoder (fd_buffer d) (fd_header d) (fd_needed d) (fd_have_header d) m (fd_error d).

Definition decoder_reset (d : FrameDecoder) : FrameDecoder :=
  mkDecoder [] (fd_header d) HEADER_SIZE false (fd_max_frame_size d) (fd_error d).

Definition too_large_error (len max : Z) : string :=
  "frame too large: " +:+ to_string_u64 len +:+ " bytes (max " +:+ to_string_u64 max +:+ ")".

(** One iteration of the [while] loop of [feed]: [inl d] when the loop is left
    in state [d], [inr (f, d)] when frame [f] was produced and the loop goes on. *)
Definition decoder_iter (d : FrameDecoder) : FrameDecoder + Frame * FrameDecoder :=
  let with_header :=
    if negb (fd_have_header d) then
      if vsize (fd_buffer d) <? HEADER_SIZE then
        inl (mkDecoder (fd_buffer d) (fd_header d) (HEADER_SIZE - vsize (fd_buffer d))
               false (fd_max_frame_size d) (fd_error d))
      else
        let h := from_network (fd_buffer d) in
        if (0 <? fd_max_frame_size d) && (fd_max_frame_size d <? fh_length h) then
          inl (decoder_reset
                 (mkDecoder (fd_buffer d) h (fd_needed d) false (fd_max_frame_size d)
                    (too_large_error (fh_length h) (fd_max_frame_size d))))
        else
          inr (mkDecoder (fd_buffer d) h (fh_length h) true (fd_max_frame_size d) (fd_error d))
    else inr d in
  match with_header with
  | inl stop => inl stop
  | inr d1 =>
      if vsize (fd_buffer d1) <? HEADER_SIZE + fd_needed d1 then inl d1
      else
        let n := Z.to_nat (fh_length (fd_header d1)) in
        let frame := mkFrame (fd_header d1) (take n (drop 8 (fd_buffer d1))) in
        inr (frame,
             mkDecoder (drop (8 + n) (fd_buffer d1)) (fd_header d1) HEADER_SIZE false
               (fd_max_frame_size d1) (fd_error d1))
  end.

Fixpoint decoder_loop (fuel : nat) (d : FrameDecoder) : list Frame * FrameDecoder :=
  match fuel with
  | O => ([], d)
  | S fuel' =>
      match fd_buffer d with
      | [] => ([], d)
      | _ =>
          match decoder_iter d with
          | inl stop => ([], stop)
          | inr (f, d') => let '(fs, d'') := decoder_loop fuel' d' in (f :: fs, d'')
          end
      end
  end.

(** [FrameDecoder::feed].  Every iteration that goes on erases at least the 8
    header bytes, so one unit of fuel per buffered byte is enough
    ([decoder_loop_refines] proves that the result is that of the loop). *)
Definition decoder_feed (d : FrameDecoder) (data : list byte) : list Frame * FrameDecoder :=
  let buf := fd_buffer d ++ data in
  decoder_loop (S (length buf))
    (mkDecoder buf (fd_header d) (fd_needed d) (fd_have_header d) (fd_max_frame_size d) "").

#[global] Arguments from_network data : simpl never.

(** ** Headers *)

Lemma at_range d i : 0 <= at_ d i < 2 ^ 8.
Proof. apply byte.unsigned_range. Qed.

Lemma shiftl_octet_range b s : 0 <= b < 2 ^ 8 -> 0 <= s -> 0 <= Z.shiftl b s < 2 ^ (8 + s).
Proof. intros. rewrite Z.shiftl_mul_pow2, Z.pow_add_r by lia. nia. Qed.

Lemma le_combine_two b0 b1 : le_combine [b1; b0] = Z.lor (Z.shiftl (byte.unsigned b0) 8) (byte.unsigned b1).
Proof.
  change [b1; b0] with ([b1] ++ [b0]). rewrite le_combine_app, !le_combine_1. cbn [length].
  apply Z.lor_comm.
Qed.

(** The header fields are the big-endian integers at offsets 0, 4 and 6. *)
Lemma from_network_spec b0 b1 b2 b3 b4 b5 b6 b7 rest :
  from_network (b0 :: b1 :: b2 :: b3 :: b4 :: b5 :: b6 :: b7 :: rest) =
  mkHeader (read_uint [b0; b1; b2; b3] Big) (read_uint [b4; b5] Big) (read_uint [b6; b7] Big).
Proof.
  unfold from_network, at_. cbn [nth].
  pose proof (byte.unsigned_range b0). pose proof (byte.unsigned_range b1).
  pose proof (byte.unsigned_range b2). pose proof (byte.unsigned_range b4).
  pose proof (byte.unsigned_range b6).
  rewrite !read_uint_spec by (vm_compute; discriminate). cbn [rev app]. f_equal.
  - rewrite !cast_small by
      (match goal with |- 0 <= Z.shiftl ?b ?s < _ =>
         pose proof (shiftl_octet_range b s); lia end).
    change [b3; b2; b1; b0] with ([b3; b2] ++ [b1; b0]).
    rewrite le_combine_app, !le_combine_two. cbn [length].
    rewrite Z.shiftl_lor, Z.shiftl_shiftl by lia. change (Z.of_nat 2 * 8) with 16. change (8 + 16) with 24.
    apply Z.bits_inj'. intros. rewrite !Z.lor_spec. btauto.
  - rewrite le_combine_two. apply cast_small.
    pose proof (le_combine_bound [b5; b4]) as B. rewrite le_combine_two in B. exact B.
  - rewrite le_combine_two. apply cast_small.
    pose proof (le_combine_bound [b7; b6]) as B. rewrite le_combine_two in B. exact B.
Qed.

Lemma to_network_spec h :
  to_network h = write_uint (fh_length h) 4 Big [] ++ write_uint (fh_flags h) 2 Big []
                 ++ write_uint (fh_type h) 2 Big [].
Proof. reflexivity. Qed.

Definition header_wf (h : FrameHeader) : Prop :=
  0 <= fh_length h < 2 ^ 32 /\ 0 <= fh_flags h < 2 ^ 16 /\ 0 <= fh_type h < 2 ^ 16.

Lemma to_network_cons h : exists b0 b1 b2 b3 b4 b5 b6 b7,
  to_network h = [b0; b1; b2; b3; b4; b5; b6; b7].
Proof. unfold to_network. repeat eexists. Qed.

Lemma from_to_network h rest : header_wf h -> from_network (to_network h ++ rest) = h.
Proof.
  intros (Hl & Hf & Ht). unfold to_network. cbn [app]. rewrite from_network_spec.
  pose proof (read_write_uint_mod (fh_length h) 4 Big eq_refl) as E1.
  pose proof (read_write_uint_mod (fh_flags h) 2 Big eq_refl) as E2.
  pose proof (read_write_uint_mod (fh_type h) 2 Big eq_refl) as E3.
  destruct h as [l f t]. cbn [fh_length fh_flags fh_type] in *.
  f_equal; [etransitivity; [exact E1|] | etransitivity; [exact E2|] | etransitivity; [exact E3|]];
    apply Z.mod_small; lia.
Qed.

Lemma from_network_wf data : (8 <= length data)%nat -> header_wf (from_network data).
Proof.
  intros H. do 8 (destruct data as [|? data]; [cbn in H; lia|]).
  rewrite from_network_spec. unfold header_wf. cbn [fh_length fh_flags fh_type].
  rewrite !read_uint_spec by (vm_compute; discriminate).
  repeat split; try apply le_combine_bound;
    match goal with |- le_combine ?l < _ => apply (le_combine_bound l) end.
Qed.

Lemma from_network_app b d : (8 <= length b)%nat -> from_network (b ++ d) = from_network b.
Proof.
  intros H. do 8 (destruct b as [|? b]; [cbn in H; lia|]). cbn [app]. by rewrite !from_network_spec.
Qed.

Lemma to_from_network data :
  length data = 8%nat -> to_network (from_network data) = data.
Proof.
  intros H. do 8 (destruct data as [|? data]; [done|]). destruct data; [|done].
  rewrite from_network_spec, to_network_spec. cbn [fh_length fh_flags fh_type].
  rewrite !read_uint_spec by (vm_compute; discriminate).
  rewrite !write_uint_spec by lia. cbn [app].
  change (Z.to_nat 4) with 4%nat. change (Z.to_nat 2) with 2%nat.
  rewrite !(split_le_combine' (rev _)) by done. done.
Qed.

(** ** The decoder refines the stream loop *)

Definition frame_step (max : Z) (buf : list byte) : verdict Frame :=
  if vsize buf <? HEADER_SIZE then Wait
  else
    let h := from_network buf in
    if (0 <? max) && (max <? fh_length h) then Reject (too_large_error (fh_length h) max)
    else if vsize buf <? HEADER_SIZE + fh_length h then Wait
    else
      let n := Z.to_nat (fh_length h) in
      Emit (mkFrame h (take n (drop 8 buf))) (8 + n).

Lemma frame_step_app max b d :
  frame_step max b <> Wait -> frame_step max (b ++ d) = frame_step max b.
Proof.
  unfold frame_step, HEADER_SIZE. intros H. destruct (vsize b <? 8) eqn:E; [done|]. bools.
  pose proof (vsize_nonneg d). rewrite vsize_app, (proj2 (Z.ltb_ge _ _)) by lia.
  assert (8 <= length b)%nat by (unfold vsize in *; lia).
  rewrite from_network_app by done.
  pose proof (from_network_wf b ltac:(done)) as (? & _ & _).
  case_head; [done|].
  destruct (vsize b <? 8 + fh_length (from_network b)) eqn:E2; [done|]. bools.
  rewrite (proj2 (Z.ltb_ge _ _)) by lia. unfold vsize in *.
  rewrite drop_app_le, take_app_le by (rewrite ?length_drop; lia). done.
Qed.

#[export] Instance frame_step_stream max : StreamStep (frame_step max).
Proof.
  split; intros b.
  - intros p n H. unfold frame_step, HEADER_SIZE in H. repeat case_in H; try done.
    bools. unfold vsize in *. pose proof (from_network_wf b ltac:(lia)) as (? & _ & _).
    remember (from_network b) as h. injection H as _ <-. lia.
  - intros d p n H. rewrite frame_step_app; [done|by rewrite H].
  - intros d e H. rewrite frame_step_app; [done|by rewrite H].
Qed.

(** The decoder's members agree: a cached header is the header of the buffer
    and passed the size check. *)
Definition decoder_wf (d : FrameDecoder) : Prop :=
  fd_have_header d = true ->
  HEADER_SIZE <= vsize (fd_buffer d) /\
  fd_header d = from_network (fd_buffer d) /\
  fd_needed d = fh_length (fd_header d) /\
  (0 < fd_max_frame_size d -> fh_length (fd_header d) <= fd_max_frame_size d).

Lemma decoder_iter_refines d :
  decoder_wf d ->
  match decoder_iter d, frame_step (fd_max_frame_size d) (fd_buffer d) with
  | inl d', Wait =>
      fd_buffer d' = fd_buffer d /\ fd_error d' = fd_error d /\ decoder_wf d' /\
      fd_max_frame_size d' = fd_max_frame_size d
  | inl d', Reject e =>
      fd_buffer d' = [] /\ fd_error d' = e /\ decoder_wf d' /\
      fd_max_frame_size d' = fd_max_frame_size d
  | inr (f, d'), Emit f' n =>
      f = f' /\ fd_buffer d' = drop n (fd_buffer d) /\ fd_error d' = fd_error d /\
      decoder_wf d' /\ fd_max_frame_size d' = fd_max_frame_size d
  | _, _ => False
  end.
Proof.
  unfold decoder_wf, decoder_iter, frame_step. intros Hwf.
  destruct d as [buf h nd [] mx er]; cbn [negb fd_have_header fd_buffer fd_header fd_needed
    fd_max_frame_size fd_error decoder_reset] in *.
  - destruct (Hwf eq_refl) as (H8 & -> & -> & Hm). unfold HEADER_SIZE in *.
    rewrite (proj2 (Z.ltb_ge (vsize buf) 8)) by lia.
    rewrite (proj2 (andb_false_iff _ _)) by
      (destruct (Z.ltb_spec 0 mx); [right; apply Z.ltb_ge; lia | by left]).
    case_head; cbn; repeat split; auto; discriminate.
  - unfold HEADER_SIZE. destruct (vsize buf <? 8) eqn:E; cbn; [repeat split; auto; discriminate|].
    bools.
    destruct ((0 <? mx) && (mx <? fh_length (from_network buf)))%bool eqn:Em; cbn;
      [repeat split; auto; discriminate|].
    case_head; cbn; repeat split; auto; try discriminate; try lia.
Qed.

(** The loop computes what [Stream.drain] computes on the buffer. *)
Lemma decoder_loop_refines fuel d fs d' :
  decoder_wf d -> (length (fd_buffer d) < fuel)%nat -> decoder_loop fuel d = (fs, d') ->
  exists e, drain (frame_step (fd_max_frame_size d)) (fd_buffer d) = (fs, fd_buffer d', e) /\
    fd_error d' = default (fd_error d) e /\ decoder_wf d' /\
    fd_max_frame_size d' = fd_max_frame_size d.
Proof.
  revert d fs d'. induction fuel as [|fuel IH]; intros d fs d' Hwf Hf H; [lia|].
  cbn in H. destruct (fd_buffer d) as [|b0 buf] eqn:Eb.
  - simplify_eq. exists None. rewrite Eb, (drain_unfold _ []). done.
  - rewrite <- Eb in *. clear Eb b0 buf.
    pose proof (decoder_iter_refines d Hwf) as HR. rewrite (drain_unfold (frame_step _)).
    destruct (decoder_iter d) as [st|[f d1]];
      destruct (frame_step (fd_max_frame_size d) (fd_buffer d)) as [|f' n|e] eqn:Es; try done.
    + destruct HR as (? & ? & ? & ?). simplify_eq. exists None. split_and!; auto. congruence.
    + destruct HR as (Hb & ? & ? & ?). simplify_eq. exists (Some (fd_error d')).
      rewrite Hb. split_and!; auto.
    + destruct HR as (-> & Hb & He & Hw & Hm).
      destruct (decoder_loop fuel d1) as [fs1 d2] eqn:El. simplify_eq.
      apply step_consumes in Es. apply IH in El as (e & Hd & Herr & Hw' & Hm'); [|done|].
      * exists e. rewrite <- Hm, <- Hb, Hd, Herr, He, Hm'. done.
      * rewrite Hb, length_drop. lia.
Qed.

Lemma decoder_feed_refines d data fs d' :
  decoder_wf d -> decoder_feed d data = (fs, d') ->
  exists e, drain (frame_step (fd_max_frame_size d)) (fd_buffer d ++ data)
            = (fs, fd_buffer d', e) /\
    fd_error d' = default "" e /\ decoder_wf d' /\ fd_max_frame_size d' = fd_max_frame_size d.
Proof.
  intros Hwf H. unfold decoder_feed in H.
  apply decoder_loop_refines in H; [done| |cbn; lia].
  intros Hh. destruct (Hwf Hh) as (H8 & Hd & Hn & Hm). cbn.
  split_and!; [rewrite vsize_app; pose proof (vsize_nonneg data); lia| |done|done].
  rewrite Hd. symmetry. apply from_network_app. unfold HEADER_SIZE, vsize in *. lia.
Qed.

Lemma too_large_error_nonempty l m : too_large_error l m <> "".
Proof. done. Qed.

Lemma frame_drain_error max b ps r e :
  drain (frame_step max) b = (ps, r, Some e) -> e <> "".
Proof.
  intros D. apply drain_reject_inv in D as [b' H]; [|apply _].
  unfold frame_step in H. repeat case_in H; simplify_eq. apply too_large_error_nonempty.
Qed.

(** A sequence of [feed] calls. *)
Fixpoint decoder_feed_all (d : FrameDecoder) (chunks : list (list byte))
  : list Frame * FrameDecoder :=
  match chunks with
  | [] => ([], d)
  | c :: cs =>
      let '(fs, d1) := decoder_feed d c in
      let '(fs', d2) := decoder_feed_all d1 cs in
      (fs ++ fs', d2)
  end.

Lemma decoder_feed_all_refines chunks d fs r :
  decoder_wf d -> fd_error d = "" -> frame_step (fd_max_frame_size d) (fd_buffer d) = Wait ->
  drain (frame_step (fd_max_frame_size d)) (fd_buffer d ++ concat chunks) = (fs, r, None) ->
  exists d', decoder_feed_all d chunks = (fs, d') /\ fd_buffer d' = r /\ fd_error d' = "" /\
    decoder_wf d' /\ fd_max_frame_size d' = fd_max_frame_size d.
Proof.
  revert d fs r. induction chunks as [|c cs IH]; intros d fs r Hwf He Hw HD; cbn [decoder_feed_all concat] in *.
  - rewrite app_nil_r, (drain_unfold (frame_step _)), Hw in HD. simplify_eq. eauto 10.
  - destruct (decoder_feed d c) as [f1 d1] eqn:E1.
    destruct (decoder_feed_refines _ _ _ _ Hwf E1) as (e & HD1 & He1 & Hwf1 & Hm1).
    destruct e as [e|].
    + rewrite app_assoc, (drain_app_reject _ _ _ _ _ _ HD1) in HD. done.
    + rewrite app_assoc, (drain_app_ok _ _ _ _ _ HD1) in HD.
      destruct (drain _ (fd_buffer d1 ++ concat cs)) as [[f2 r2] e2] eqn:HD2. simplify_eq.
      destruct (IH d1 f2 r) as (d' & Hf & Hb & Her & Hwf' & Hm'); [done|done| | |].
      * rewrite Hm1. eapply drain_waits; [apply _|exact HD1].
      * by rewrite Hm1.
      * exists d'. rewrite Hf. split_and!; auto. congruence.
Qed.

(** ** Properties *)

(** The eight header bytes and the three header fields determine each
    other: every header of the declared widths survives [to_network] and
    [from_network], and every eight bytes survive the converse. *)
Theorem frame_header_roundtrip :
  (forall h, header_wf h -> from_network (to_network h) = h) /\
  (forall data, length data = 8%nat ->
     header_wf (from_network data) /\ to_network (from_network data) = data).
Proof.
  split.
  - intros h Hh. rewrite <- (app_nil_r (to_network h)). by apply from_to_network.
  - intros data Hl. split; [apply from_network_wf; lia | by apply to_from_network].
Qed.

Lemma serialize_step max f :
  header_wf (fr_header f) -> fh_length (fr_header f) = vsize (fr_payload f) ->
  (0 < max -> vsize (fr_payload f) <= max) ->
  frame_step max (serialize f) = Emit f (length (serialize f)).
Proof.
  intros Hwf Hl Hm. unfold frame_step, serialize, HEADER_SIZE.
  rewrite from_to_network, Hl by done. rewrite vsize_app.
  change (vsize (to_network (fr_header f))) with 8.
  pose proof (vsize_nonneg (fr_payload f)).
  rewrite (proj2 (Z.ltb_ge _ _)) by lia.
  rewrite (proj2 (andb_false_iff _ _)) by
    (destruct (Z.ltb_spec 0 max); [right; apply Z.ltb_ge; lia | by left]).
  rewrite (proj2 (Z.ltb_ge _ _)) by lia.
  change 8%nat with (length (to_network (fr_header f))). rewrite drop_app_length, length_app.
  unfold vsize. rewrite Nat2Z.id, firstn_all. by destruct f.
Qed.

(** A frame a sender may emit: its header fits the wire, announces the payload
    it carries and stays within the receiver's limit. *)
Definition frame_ok (max : Z) (f : Frame) : Prop :=
  header_wf (fr_header f) /\ fh_length (fr_header f) = vsize (fr_payload f) /\
  (0 < max -> vsize (fr_payload f) <= max).

Lemma drain_serialized max (frames : list Frame) :
  Forall (frame_ok max) frames ->
  drain (frame_step max) (concat (map serialize frames)) = (frames, [], None).
Proof.
  intros HF.
  pose proof (drain_frames (frame_step max) (map (fun f => (f, serialize f)) frames)) as HD.
  rewrite !map_map, map_id in HD. apply HD; [done|].
  apply Forall_map. eapply Forall_impl; [|exact HF]. intros f (? & ? & ?). by apply serialize_step.
Qed.

(** Frames serialized one after the other and received in chunks cut
    anywhere leave the decoder as exactly those frames, in order, with an empty
    buffer and no error, although the decoder caches the header of an
    incomplete frame from one call to the next. *)
Theorem frame_stream_roundtrip max (frames : list Frame) chunks :
  Forall (frame_ok max) frames ->
  concat chunks = concat (map serialize frames) ->
  exists d, decoder_feed_all (decoder_make max) chunks = (frames, d) /\
    fd_buffer d = [] /\ fd_error d = "".
Proof.
  intros HF Hc.
  destruct (decoder_feed_all_refines chunks (decoder_make max) frames []) as (d & H & Hb & He & _);
    [done|done|done| |eauto].
  cbn [fd_buffer decoder_make app fd_max_frame_size]. rewrite Hc. by apply drain_serialized.
Qed.

Definition ping : Frame := frame_make 7 (bytes_of "ping").

Lemma frame_stream_roundtrip_witness :
  exists d, decoder_feed_all (decoder_make 16)
    [take 3 (serialize ping); drop 3 (serialize ping) ++ take 9 (serialize ping);
     drop 9 (serialize ping)] = ([ping; ping], d) /\ fd_buffer d = [] /\ fd_error d = "".
Proof.
  apply (frame_stream_roundtrip 16 [ping; ping]); [|reflexivity].
  repeat constructor; vm_compute; congruence.
Defined.

(** A frame whose declared length exceeds a non-zero limit is rejected as
    soon as its header is complete, before any of its payload is buffered or
    returned: the call reports the error, returns only the frames that precede
    it, and leaves an empty buffer ready for a new frame. *)
Theorem oversized_frame_rejected max (frames : list Frame) h rest :
  Forall (frame_ok max) frames ->
  header_wf h -> 0 < max < fh_length h ->
  exists d, decoder_feed (decoder_make max)
              (concat (map serialize frames) ++ to_network h ++ rest) = (frames, d) /\
    fd_error d = too_large_error (fh_length h) max /\ fd_buffer d = [] /\
    decoder_wf d /\ frame_step max (fd_buffer d) = Wait.
Proof.
  intros HF Hh Hm.
  destruct (decoder_feed _ _) as [fs d] eqn:E. exists d.
  apply decoder_feed_refines in E as (e & HD & He & Hwf & _); [|done].
  cbn [fd_buffer decoder_make app fd_max_frame_size] in HD.
  rewrite (drain_app_ok _ _ _ _ _ (drain_serialized max frames HF)) in HD.
  assert (frame_step max (to_network h ++ rest) = Reject (too_large_error (fh_length h) max)) as HR.
  { unfold frame_step, HEADER_SIZE. rewrite from_to_network by done. rewrite vsize_app.
    change (vsize (to_network h)) with 8. pose proof (vsize_nonneg rest).
    rewrite (proj2 (Z.ltb_ge _ _)) by lia.
    rewrite (proj2 (andb_true_iff _ _)) by (split; apply Z.ltb_lt; lia). done. }
  cbn [app] in HD. rewrite (drain_unfold (frame_step _)), HR, app_nil_r in HD. simplify_eq. cbn in He.
  match goal with H : [] = fd_buffer d |- _ => rewrite <- H end. split_and!; auto.
Qed.

Lemma oversized_frame_rejected_witness :
  exists d, decoder_feed (decoder_make 16)
              (concat (map serialize [ping]) ++ to_network (mkHeader 17 0 7) ++ bytes_of "xx")
            = ([ping], d) /\
    fd_error d = "frame too large: 17 bytes (max 16)" /\ fd_buffer d = [] /\
    decoder_wf d /\ frame_step 16 (fd_buffer d) = Wait.
Proof.
  apply (oversized_frame_rejected 16 [ping] (mkHeader 17 0 7) (bytes_of "xx"));
    repeat constructor; vm_compute; congruence.
Defined.
