(* ===== verification/Routes.v ===== *)
(** * Routes: [RouteEntry] and [RouteTable] (protocol.hpp, protocol.cpp) *)

From S2P Require Import Prelude Text Index Envelope.

Inductive RouteDirection := ClientToServer | ServerToClient | Bidirectional.

Record RoutePolicy := mkPolicy { rp_action : RouteAction; rp_lazy_decode : bool }.

Record RouteEntry := mkRoute {
  re_route_id : Z;
  re_direction : RouteDirection;
  re_requires_auth : bool;
  re_codec_id : Z;
  re_schema_id : Z;
  re_kind : PacketKind;
  re_debug_name : string;
  re_policy : RoutePolicy
}.

(** The default member initialisers. *)
Definition default_policy : RoutePolicy := mkPolicy DecodeLocal true.
Definition default_route : RouteEntry :=
  mkRoute 0 ClientToServer true 0 0 Message "" default_policy.

#[export] Instance RouteDirection_eq_dec : EqDecision RouteDirection.
Proof. solve_decision. Defined.
#[export] Instance RoutePolicy_eq_dec : EqDecision RoutePolicy.
Proof. solve_decision. Defined.
#[export] Instance PacketKind_eq_dec : EqDecision PacketKind.
Proof. solve_decision. Defined.
#[export] Instance RouteEntry_eq_dec : EqDecision RouteEntry.
Proof. solve_decision. Defined.

#[export] Instance route_named : Named RouteEntry := re_debug_name.

Record RouteTable := mkTable {
  routes_ : gmap Z RouteEntry;
  route_names_ : gmap string Z
}.

Definition table_empty : RouteTable := mkTable ∅ ∅.

Module RouteTable.

(** [find]: the pointer is null or leads to the entry. *)
Definition find (t : RouteTable) (route_id : Z) : option RouteEntry := routes_ t !! route_id.

Definition find_by_name (t : RouteTable) (route_name : string) : option RouteEntry :=
  match route_names_ t !! route_name with
  | Some route_id => find t route_id
  | None => None
  end.

(** [only]: the single entry, when there is exactly one. *)
Definition only (t : RouteTable) : option RouteEntry :=
  match map_to_list (routes_ t) with
  | [(_, e)] => Some e
  | _ => None
  end.

Definition contains (t : RouteTable) (route_id : Z) : bool :=
  bool_decide (is_Some (routes_ t !! route_id)).

Definition clear (t : RouteTable) : RouteTable := mkTable ∅ ∅.

Definition size (t : RouteTable) : Z := Z.of_nat (base.size (routes_ t)).

Definition add (t : RouteTable) (entry : RouteEntry) : bool * RouteTable :=
  let route_id := re_route_id entry in
  let route_name := re_debug_name entry in
  if negb (str_empty route_name) && bool_decide (is_Some (route_names_ t !! route_name))
  then (false, t)
  else
    match routes_ t !! route_id with
    | Some _ => (false, t)
    | None =>
        (true,
         mkTable (<[route_id := entry]> (routes_ t))
           (if str_empty route_name then route_names_ t
            else match route_names_ t !! route_name with
                 | Some _ => route_names_ t
                 | None => <[route_name := route_id]> (route_names_ t)
                 end))
    end.

Definition upsert (t : RouteTable) (entry : RouteEntry) : RouteTable :=
  let route_id := re_route_id entry in
  let route_name := re_debug_name entry in
  let names :=
    match routes_ t !! route_id with
    | Some existing =>
        if negb (str_empty (re_debug_name existing)) then
          match route_names_ t !! re_debug_name existing with
          | Some id =>
              if id =? route_id then delete (re_debug_name existing) (route_names_ t)
              else route_names_ t
          | None => route_names_ t
          end
        else route_names_ t
    | None => route_names_ t
    end in
  mkTable (<[route_id := entry]> (routes_ t))
    (if str_empty route_name then names else <[route_name := route_id]> names).

End RouteTable.

(** ** Invariant *)

(** Entries are filed under their own number. *)
Definition keys_ok (t : RouteTable) : Prop :=
  forall id e, routes_ t !! id = Some e -> re_route_id e = id.

Definition table_sound (t : RouteTable) : Prop :=
  keys_ok t /\ index_sound (routes_ t) (route_names_ t).

Definition table_ok (t : RouteTable) : Prop :=
  table_sound t /\ index_complete (routes_ t) (route_names_ t).

(** The name of [e] is free, or already that of the same route. *)
Definition name_available (t : RouteTable) (e : RouteEntry) : Prop :=
  forall id, route_names_ t !! re_debug_name e = Some id -> id = re_route_id e.

Lemma table_empty_ok : table_ok table_empty.
Proof.
  pose proof (index_empty (V:=RouteEntry)) as [? ?]. split; [split|]; auto.
  intros id e Hid. cbn in Hid. by rewrite lookup_empty in Hid.
Qed.

Lemma upsert_index t e :
  index_sound (routes_ t) (route_names_ t) ->
  route_names_ (RouteTable.upsert t e) =
    index_put (re_route_id e) e
      (index_drop (re_route_id e) (routes_ t !! re_route_id e) (route_names_ t)).
Proof.
  intros Hs. unfold RouteTable.upsert, index_put, index_drop, name_of, route_named. cbn [route_names_].
  destruct (routes_ t !! re_route_id e) as [old|] eqn:Eo; [|done].
  assert ((if negb (str_empty (re_debug_name old)) then
          match route_names_ t !! re_debug_name old with
          | Some id =>
              if id =? re_route_id e then delete (re_debug_name old) (route_names_ t)
              else route_names_ t
          | None => route_names_ t
          end else route_names_ t) =
     (if bool_decide (route_names_ t !! re_debug_name old = Some (re_route_id e))
      then delete (re_debug_name old) (route_names_ t) else route_names_ t)) as ->; [|done].
  destruct (str_empty (re_debug_name old)) eqn:Ee; cbn [negb].
  - apply str_empty_true in Ee. rewrite Ee. case_bool_decide as Hd; [|done].
    by destruct (Hs _ _ Hd) as [? _].
  - destruct (route_names_ t !! re_debug_name old) as [id|] eqn:Ei.
    + destruct (Z.eqb_spec id (re_route_id e)) as [->|]; case_bool_decide; naive_solver.
    + by case_bool_decide.
Qed.

Lemma keys_ok_insert t e : keys_ok t -> keys_ok (mkTable (<[re_route_id e := e]> (routes_ t)) ∅).
Proof. intros Hk id e' H. cbn in H. apply lookup_insert_Some in H as [[<- <-]|[_ H]]; auto. Qed.

Lemma upsert_sound t e : table_sound t -> table_sound (RouteTable.upsert t e).
Proof.
  intros [Hk Hs]. split; [exact (keys_ok_insert t e Hk)|].
  rewrite upsert_index by done. by apply (index_replace_sound (V:=RouteEntry)).
Qed.

Lemma upsert_ok t e : table_ok t -> name_available t e -> table_ok (RouteTable.upsert t e).
Proof.
  intros [Hs Hc] Hn. split; [by apply upsert_sound|].
  rewrite upsert_index by apply Hs. by apply (index_replace_complete (V:=RouteEntry)).
Qed.

(** [add] succeeds exactly when neither the number nor the name is taken, and
    is then [upsert]. *)
Lemma add_spec t e :
  RouteTable.add t e =
    if bool_decide (routes_ t !! re_route_id e = None /\
                    (re_debug_name e <> "" -> route_names_ t !! re_debug_name e = None))
    then (true, RouteTable.upsert t e) else (false, t).
Proof.
  unfold RouteTable.add, RouteTable.upsert.
  destruct (str_empty (re_debug_name e)) eqn:Ee; cbn [negb andb].
  - apply str_empty_true in Ee.
    destruct (routes_ t !! re_route_id e) eqn:Er; case_bool_decide; naive_solver.
  - apply str_empty_false in Ee.
    destruct (route_names_ t !! re_debug_name e) eqn:En; cbn.
    + rewrite bool_decide_eq_false_2 by naive_solver. done.
    + destruct (routes_ t !! re_route_id e) eqn:Er; case_bool_decide; naive_solver.
Qed.

Lemma add_ok t e b t' : table_ok t -> RouteTable.add t e = (b, t') -> table_ok t'.
Proof.
  intros Hok H. rewrite add_spec in H. case_bool_decide as Hd; simplify_eq; [|done].
  apply upsert_ok; [done|]. intros id Hid. destruct Hd as [_ Hf].
  destruct (string_empty_dec (re_debug_name e)) as [En|En].
  - rewrite En in Hid. by destruct (proj2 (proj1 Hok) _ _ Hid).
  - rewrite Hf in Hid by done. done.
Qed.

Lemma find_by_name_spec t n e :
  table_ok t -> n <> "" ->
  RouteTable.find_by_name t n = Some e <->
  exists id, RouteTable.find t id = Some e /\ re_debug_name e = n.
Proof.
  intros [[_ Hs] Hc] Hn. unfold RouteTable.find_by_name, RouteTable.find.
  rewrite <- (index_lookup (V:=RouteEntry) _ _ n e Hs Hc Hn).
  destruct (route_names_ t !! n); naive_solver.
Qed.

Lemma find_by_name_sound t n e :
  table_sound t -> RouteTable.find_by_name t n = Some e ->
  re_debug_name e = n /\ n <> "" /\ RouteTable.find t (re_route_id e) = Some e.
Proof.
  intros [Hk Hs] H. unfold RouteTable.find_by_name, RouteTable.find in *.
  destruct (route_names_ t !! n) as [id|] eqn:E; [|done].
  destruct (Hs _ _ E) as (Hn & w & Hw & Hnw). rewrite H in Hw. simplify_eq.
  split; [done|]. split; [done|]. by rewrite (Hk _ _ H).
Qed.

Lemma only_spec t e :
  RouteTable.only t = Some e <-> exists id, routes_ t = {[ id := e ]}.
Proof.
  unfold RouteTable.only. split.
  - intros H. destruct (map_to_list (routes_ t)) as [|[id e'] [|]] eqn:E; simplify_eq.
    exists id. apply map_to_list_inj. rewrite E, map_to_list_singleton. done.
  - intros [id ->]. by rewrite map_to_list_singleton.
Qed.

(** ** Properties *)

(** The tables that sequences of operations reach.  [upsert] is called only
    with a name that is free or already the route's own, which is what
    [build_protocol_pipeline_from_json] checks before it calls it. *)
Inductive reachable : RouteTable -> Prop :=
| reach_empty : reachable table_empty
| reach_add t e : reachable t -> reachable (RouteTable.add t e).2
| reach_upsert t e : reachable t -> name_available t e -> reachable (RouteTable.upsert t e)
| reach_clear t : reachable t -> reachable (RouteTable.clear t).

Lemma reachable_ok t : reachable t -> table_ok t.
Proof.
  induction 1 as [|t e _ IH|t e _ IH Hn|t _ IH].
  - apply table_empty_ok.
  - destruct (RouteTable.add t e) as [b t'] eqn:E. by eapply add_ok.
  - by apply upsert_ok.
  - apply table_empty_ok.
Qed.

(** Whatever sequence of operations built a route table, looking a name up
    finds a route if and only if that route is in the table and bears that
    name; two routes never share a name, and every route is filed under its
    own number. *)
Theorem route_table_lookup t n e :
  reachable t -> n <> "" ->
  (RouteTable.find_by_name t n = Some e <->
   RouteTable.find t (re_route_id e) = Some e /\ re_debug_name e = n) /\
  (forall id id' e', RouteTable.find t id = Some e -> RouteTable.find t id' = Some e' ->
     re_debug_name e = n -> re_debug_name e' = n -> id = id' /\ e = e').
Proof.
  intros Hr Hn. pose proof (reachable_ok t Hr) as Hok. split.
  - rewrite (find_by_name_spec t n e Hok Hn). split.
    + intros (id & Hf & He). by rewrite (proj1 (proj1 Hok) _ _ Hf).
    + intros [Hf He]. eauto.
  - intros id id' e' H1 H2 E1 E2. subst n.
    assert (id = id') as <- by
      (eapply (index_unique (V:=RouteEntry)); [apply Hok|exact H1|exact H2|symmetry; exact E2|done]).
    unfold RouteTable.find in *. split; congruence.
Qed.

Definition named (id : Z) (n : string) : RouteEntry :=
  mkRoute id ClientToServer true 1 0 Message n default_policy.

Definition two_routes : RouteTable :=
  (RouteTable.add (RouteTable.upsert table_empty (named 1 "login")) (named 2 "move")).2.

Lemma route_table_lookup_witness :
  (RouteTable.find_by_name two_routes "move" = Some (named 2 "move") <->
   RouteTable.find two_routes 2 = Some (named 2 "move") /\ "move" = "move") /\
  (forall id id' e', RouteTable.find two_routes id = Some (named 2 "move") ->
     RouteTable.find two_routes id' = Some e' ->
     "move" = "move" -> re_debug_name e' = "move" -> id = id' /\ named 2 "move" = e').
Proof.
  apply (route_table_lookup two_routes "move" (named 2 "move")); [|done].
  apply (reach_add _ (named 2 "move")), reach_upsert; [apply reach_empty|].
  intros id H. vm_compute in H. discriminate.
Defined.

(** Without the caller's check [upsert] can leave a named route that no lookup
    by name finds: a second route takes the name and then gives it up. *)
Lemma upsert_orphans_name :
  let t := RouteTable.upsert (RouteTable.upsert
             (RouteTable.upsert table_empty (named 1 "a")) (named 2 "a")) (named 2 "b") in
  RouteTable.find t 1 = Some (named 1 "a") /\ RouteTable.find_by_name t "a" = None.
Proof. vm_compute. done. Qed.
