(* ===== verification/Xmldef.v ===== *)
(** * Xmldef: the xmldef route catalog (src/transport/protocol.cpp)

    [parse_xml_attributes], [find_attr] and [load_xmldef_routes_from_string].
    A position in the text is the text that remains after it. *)

From S2P Require Import Prelude Text Index Envelope Routes.

(** ** Attributes *)

Definition attr_sep (c : Ascii.ascii) : bool := is_ws c || Ascii.eqb c "/"%char.

Definition attr_key (c : Ascii.ascii) : bool :=
  isalnum c || Ascii.eqb c "_"%char || Ascii.eqb c "-"%char || Ascii.eqb c "."%char.

(** The double quote character. *)
Definition dquote : Ascii.ascii := "034"%char.

Definition is_quote (c : Ascii.ascii) : bool := Ascii.eqb c dquote || Ascii.eqb c "'"%char.

(** The outer [while] loop.  Every iteration consumes a character, so the
    length of the text bounds the number of iterations. *)
Fixpoint attrs_loop (fuel : nat) (tag : string) (attrs : gmap string string)
  : gmap string string :=
  match fuel, tag with
  | O, _ | _, "" => attrs
  | S fuel', _ =>
      let '(key, rest) := span attr_key (skip attr_sep tag) in
      if str_empty key then
        attrs_loop fuel' (match rest with String _ r => r | "" => "" end) attrs
      else
        match skip is_ws rest with
        | String "="%char r =>
            match skip is_ws r with
            | String q value =>
                if is_quote q then
                  match split_at q value with
                  | Some (v, r') => attrs_loop fuel' r' (<[key := v]> attrs)
                  | None => attrs
                  end
                else attrs_loop fuel' (String q value) attrs
            | "" => attrs
            end
        | r => attrs_loop fuel' r attrs
        end
  end.

Definition parse_xml_attributes (tag : string) : gmap string string :=
  attrs_loop (String.length tag) tag ∅.

Definition find_attr (attrs : gmap string string) (key : string) : option string := attrs !! key.

(** ** Catalog *)

Record XmldefCatalogOptions := mkOptions {
  xo_default_codec_id : Z;
  xo_default_action : RouteAction;
  xo_default_lazy_decode : bool
}.

Definition default_options : XmldefCatalogOptions := mkOptions 0 DecodeLocal true.

Definition parse_direction (dir : string) : option RouteDirection :=
  if str_in dir ["c2s"; "client_to_server"] then Some ClientToServer
  else if str_in dir ["s2c"; "server_to_client"] then Some ServerToClient
  else if str_in dir ["bidi"; "bidirectional"] then Some Bidirectional
  else None.

(** An optional attribute: its default when absent, an error when malformed. *)
Definition attr_or {A} (o : option string) (parse : string -> option A) (dflt : A) (e : string)
  : string + A :=
  match o with Some v => require (parse v) e | None => inr dflt end.

(** The body of the loop from [find_attr(attrs, "id")] to the finished entry. *)
Definition entry_of_attrs (options : XmldefCatalogOptions) (attrs : gmap string string)
  : string + RouteEntry :=
  let? id_attr := require (find_attr attrs "id") "xmldef message/route is missing id" in
  let? route_id := match parse_u32 id_attr with
                   | Some n => if n =? 0 then inl "xmldef message/route id must be uint32" else inr n
                   | None => inl "xmldef message/route id must be uint32"
                   end in
  let debug_name := default "" (find_attr attrs "name") in
  let? direction := attr_or (find_attr attrs "direction") parse_direction ClientToServer
                      "xmldef direction must be c2s/s2c/bidi" in
  let requires_auth := match find_attr attrs "requires_auth" with
                       | Some v => String.eqb v "true" || String.eqb v "1"
                       | None => true
                       end in
  let? codec_id := attr_or (find_attr attrs "codec_id") parse_u16 (xo_default_codec_id options)
                     "xmldef codec_id must be uint16" in
  let? schema_id := match find_attr attrs "schema_id" with
                    | Some v => require (parse_u16 v) "xmldef schema_id must be uint16"
                    | None => attr_or (find_attr attrs "schema") parse_u16 0
                                "xmldef schema must be uint16"
                    end in
  let? action := attr_or (find_attr attrs "action") parse_action (xo_default_action options)
                   "xmldef action is invalid" in
  let? lazy_decode := attr_or (find_attr attrs "lazy_decode") parse_bool
                        (xo_default_lazy_decode options) "xmldef lazy_decode must be bool" in
  inr (mkRoute route_id direction requires_auth codec_id schema_id Message debug_name
         (mkPolicy action lazy_decode)).

(** The text between [<] and [>]: nothing when the tag is skipped, else the
    entry it declares. *)
Definition read_tag (options : XmldefCatalogOptions) (raw_tag : string)
  : string + option RouteEntry :=
  let tag := trim_copy raw_tag in
  match tag with
  | "" | String "/"%char _ | String "?"%char _ | String "!"%char _ => inr None
  | _ =>
      let '(tag_name, after) := span (fun c => negb (attr_sep c)) tag in
      if negb (str_in tag_name ["message"; "route"]) then inr None
      else
        let attr_text := match after with String _ r => r | "" => "" end in
        let? e := entry_of_attrs options (parse_xml_attributes attr_text) in inr (Some e)
  end.

(** The [while (true)] loop: [None] for [true], the error text for [false],
    and the table, which keeps the routes added before an error. *)
Fixpoint load_loop (fuel : nat) (xml : string) (routes : RouteTable)
    (options : XmldefCatalogOptions) : option string * RouteTable :=
  match fuel with
  | O => (None, routes)
  | S fuel' =>
      match split_at "<"%char xml with
      | None => (None, routes)
      | Some (_, after) =>
          match split_at ">"%char after with
          | None => (Some "xmldef contains an unterminated tag", routes)
          | Some (raw_tag, rest) =>
              match read_tag options raw_tag with
              | inl e => (Some e, routes)
              | inr None => load_loop fuel' rest routes options
              | inr (Some entry) =>
                  match RouteTable.add routes entry with
                  | (true, routes') => load_loop fuel' rest routes' options
                  | (false, routes') =>
                      (Some "xmldef contains duplicate route id or name", routes')
                  end
              end
          end
      end
  end.

Definition load_xmldef_routes_from_string (xml : string) (routes : RouteTable)
    (options : XmldefCatalogOptions) : option string * RouteTable :=
  load_loop (String.length xml) xml routes options.

(** ** The fuel is enough *)

Lemma slen_nat s t : slen s < slen t -> (String.length s < String.length t)%nat.
Proof. unfold slen. lia. Qed.

Lemma attrs_loop_fuel f g tag attrs :
  (String.length tag <= f)%nat -> (String.length tag <= g)%nat ->
  attrs_loop f tag attrs = attrs_loop g tag attrs.
Proof.
  revert g tag attrs. induction f as [|f IH]; intros g tag attrs Hf Hg.
  { destruct tag; [by destruct g|cbn in Hf; lia]. }
  destruct tag as [|c0 s0]; [by destruct g|]. destruct g as [|g]; [cbn in Hg; lia|].
  cbn [attrs_loop]. set (tag := String c0 s0) in *.
  destruct (span attr_key (skip attr_sep tag)) as [key rest] eqn:E.
  assert (forall r a, slen r < slen tag -> attrs_loop f r a = attrs_loop g r a) as IH'.
  { intros r a Hr. apply slen_nat in Hr. apply IH; lia. }
  pose proof (span_length _ _ _ _ E). pose proof (skip_length attr_sep tag).
  pose proof (skip_length is_ws rest).
  destruct key as [|kc key]; cbn [str_empty].
  { destruct rest; [apply IH'; rewrite slen_nil; unfold tag; rewrite slen_cons;
      pose proof (slen_nonneg s0); lia|].
    apply IH'. rewrite slen_cons, slen_nil in *. lia. }
  rewrite slen_cons in *. pose proof (slen_nonneg key).
  destruct (skip is_ws rest) as [|e r] eqn:Er; [apply IH'; lia|].
  assert (forall a, attrs_loop f (String e r) a = attrs_loop g (String e r) a) as Hcont
    by (intros; apply IH'; lia).
  destruct e as [[] [] [] [] [] [] [] []]; try apply Hcont.
  pose proof (skip_length is_ws r). rewrite slen_cons in *.
  destruct (skip is_ws r) as [|q value] eqn:Ev; [done|]. rewrite slen_cons in *.
  destruct (is_quote q); [|apply IH'; rewrite slen_cons; lia].
  destruct (split_at q value) as [[v r']|] eqn:Es; [|done].
  apply split_at_length in Es. pose proof (slen_nonneg v). apply IH'. lia.
Qed.

Lemma load_loop_fuel f g xml routes options :
  (String.length xml <= f)%nat -> (String.length xml <= g)%nat ->
  load_loop f xml routes options = load_loop g xml routes options.
Proof.
  revert g xml routes. induction f as [|f IH]; intros g xml routes Hf Hg.
  { destruct xml; [by destruct g|cbn in Hf; lia]. }
  destruct g as [|g]. { destruct xml; [done|cbn in Hg; lia]. }
  cbn [load_loop]. destruct (split_at "<" xml) as [[a after]|] eqn:E1; [|done].
  destruct (split_at ">" after) as [[raw rest]|] eqn:E2; [|done].
  apply split_at_length in E1, E2. pose proof (slen_nonneg a). pose proof (slen_nonneg raw).
  assert (slen rest < slen xml) as Hr%slen_nat by lia.
  destruct (read_tag options raw) as [|[e|]]; [done| |apply IH; lia].
  destruct (RouteTable.add routes e) as [[] ?]; [apply IH; lia|done].
Qed.

(** ** Reading back a printed catalog *)

Definition attr_text (kv : string * string) : string :=
  kv.1 +:+ "=" +:+ String dquote (kv.2 +:+ String dquote "").

Fixpoint attrs_text (l : list (string * string)) : string :=
  match l with [] => "/" | kv :: l' => String " " (attr_text kv +:+ attrs_text l') end.

Definition attr_ok (kv : string * string) : bool :=
  negb (str_empty kv.1) && str_all attr_key kv.1 &&
  str_all (fun c => negb (Ascii.eqb c dquote)) kv.2.

Lemma attr_key_stops k s : str_all attr_key k = true -> k <> "" -> stops attr_sep (k +:+ s) = true.
Proof.
  destruct k as [|c k]; [done|]. intros H _. rewrite str_app_cons. cbn in *. bools.
  unfold attr_sep, is_ws. destruct c as [[] [] [] [] [] [] [] []]; try reflexivity; discriminate.
Qed.

Lemma attrs_loop_attr f w kv rest attrs :
  str_all attr_sep w = true -> attr_ok kv = true ->
  attrs_loop (S f) (w +:+ attr_text kv +:+ rest) attrs = attrs_loop f rest (<[kv.1 := kv.2]> attrs).
Proof.
  destruct kv as [k v]. unfold attr_ok, attr_text. cbn [fst snd]. intros Hw H. bools.
  apply str_empty_false in H.
  assert ((k +:+ "=" +:+ String dquote (v +:+ String dquote "")) +:+ rest =
          k +:+ String "=" (String dquote (v +:+ String dquote rest))) as ->.
  { rewrite <- app_assoc_str. f_equal.
    change (String "=" (String dquote ((v +:+ String dquote "") +:+ rest)) =
            String "=" (String dquote (v +:+ String dquote rest))).
    by rewrite <- app_assoc_str. }
  set (tail := String "=" _).
  assert (exists c s, w +:+ k +:+ tail = String c s) as (c & s & E)
    by (destruct w; [destruct k|]; [done|..]; rewrite ?str_app_nil, str_app_cons; eauto).
  cbn [attrs_loop]. rewrite E. rewrite <- E. clear E c s.
  rewrite skip_all, skip_stops by (auto using attr_key_stops).
  rewrite span_all by done. rewrite (proj2 (str_empty_false k)) by done.
  rewrite (skip_stops is_ws tail) by done. unfold tail. cbn iota.
  rewrite (skip_stops is_ws (String dquote _)) by done. cbn iota.
  change (is_quote dquote) with true. cbn iota. rewrite split_at_app by done. done.
Qed.

Lemma attrs_loop_text l f attrs :
  Forall (fun kv => attr_ok kv = true) l -> (length l < f)%nat ->
  attrs_loop f (attrs_text l) attrs = foldl (fun m kv => <[kv.1 := kv.2]> m) attrs l.
Proof.
  revert f attrs. induction l as [|kv l IH]; intros f attrs HF Hf; destruct f as [|f]; try (cbn in Hf; lia).
  - by destruct f.
  - apply Forall_cons_iff in HF as [Hk HF]. cbn [attrs_text foldl].
    change (String " " (attr_text kv +:+ attrs_text l)) with (" " +:+ attr_text kv +:+ attrs_text l).
    rewrite attrs_loop_attr by done. apply IH; [done|cbn in Hf; lia].
Qed.

Lemma parse_attrs_text kv l :
  Forall (fun kv => attr_ok kv = true) (kv :: l) ->
  parse_xml_attributes (attr_text kv +:+ attrs_text l) =
    foldl (fun m kv => <[kv.1 := kv.2]> m) ∅ (kv :: l).
Proof.
  intros HF. unfold parse_xml_attributes. set (s := attr_text kv +:+ attrs_text l).
  rewrite (attrs_loop_fuel _ (S (String.length s + S (length l)))) by lia.
  unfold s. rewrite <- (str_app_nil (attr_text kv +:+ _)).
  apply Forall_cons_iff in HF as [Hk HF]. rewrite attrs_loop_attr by done.
  cbn [foldl]. apply attrs_loop_text; [done|lia].
Qed.

(** A route as a catalog prints it. *)
Definition show_direction (d : RouteDirection) : string :=
  match d with ClientToServer => "c2s" | ServerToClient => "s2c" | Bidirectional => "bidi" end.

Definition show_action (a : RouteAction) : string :=
  match a with DecodeLocal => "decode" | ForwardRaw => "forward" | Drop => "drop" end.

Definition show_bool (b : bool) : string := if b then "true" else "false".

Definition route_attrs (e : RouteEntry) : list (string * string) :=
  [("id", to_string_u64 (re_route_id e)); ("name", re_debug_name e);
   ("direction", show_direction (re_direction e));
   ("requires_auth", show_bool (re_requires_auth e));
   ("codec_id", to_string_u64 (re_codec_id e));
   ("schema_id", to_string_u64 (re_schema_id e));
   ("action", show_action (rp_action (re_policy e)));
   ("lazy_decode", show_bool (rp_lazy_decode (re_policy e)))].

Definition route_text (e : RouteEntry) : string :=
  String "<" ("route" +:+ attrs_text (route_attrs e) +:+ ">").

(** What the catalog syntax can express: a non-zero 32-bit number, 16-bit codec
    and schema numbers, and a name that needs no escape. *)
Definition printable (e : RouteEntry) : Prop :=
  0 < re_route_id e <= u32_max /\ 0 <= re_codec_id e <= u16_max /\
  0 <= re_schema_id e <= u16_max /\ re_kind e = Message /\
  str_all (fun c => negb (Ascii.eqb c dquote) && negb (Ascii.eqb c ">"%char)) (re_debug_name e) = true.

Lemma str_all_impl (p q : Ascii.ascii -> bool) s :
  (forall c, p c = true -> q c = true) -> str_all p s = true -> str_all q s = true.
Proof. intros Hpq. induction s; cbn; [done|]. intros H. bools. rewrite Hpq, IHs; done. Qed.

Definition plain (c : Ascii.ascii) : bool :=
  negb (Ascii.eqb c dquote) && negb (Ascii.eqb c ">"%char).

Lemma to_string_plain n : 0 <= n -> str_all plain (to_string_u64 n) = true.
Proof.
  intros Hn. apply dec_digits_solid; [|done|done]. intros d Hd.
  destruct (digit_spec d Hd) as (_ & _ & _ & Ha & _). revert Ha. generalize (digit d).
  intros [[] [] [] [] [] [] [] []]; vm_compute; congruence.
Qed.

(** Every attribute of a printable route has a plain value. *)
Lemma route_attrs_plain e : printable e ->
  Forall (fun kv => attr_ok kv = true /\ str_all plain kv.1 = true /\ str_all plain kv.2 = true)
    (route_attrs e).
Proof.
  intros (Hi & Hc & Hs & _ & Hn).
  assert (forall k v, str_all plain v = true -> str_all attr_key k = true -> k <> "" ->
            attr_ok (k, v) = true /\ str_all plain k = true /\ str_all plain v = true) as Hall.
  { intros k v Hv Hk Hk0. split; [|split; [|done]].
    - unfold attr_ok. cbn [fst snd]. rewrite (proj2 (str_empty_false k)), Hk by done. cbn.
      eapply str_all_impl; [|exact Hv]. unfold plain. intros c H. by apply andb_true_iff in H as [? _].
    - eapply str_all_impl; [|exact Hk].
      intros [[] [] [] [] [] [] [] []]; vm_compute; congruence. }
  unfold route_attrs. repeat (apply Forall_cons; [apply Hall; try done|]); [..|by apply Forall_nil].
  all: try (apply to_string_plain; lia).
  - by destruct (re_direction e).
  - by destruct (re_requires_auth e).
  - by destruct (rp_action (re_policy e)).
  - by destruct (rp_lazy_decode (re_policy e)).
Qed.

Lemma attrs_text_plain l :
  Forall (fun kv => str_all plain kv.1 = true /\ str_all plain kv.2 = true) l ->
  str_all (fun c => negb (Ascii.eqb c ">"%char)) (attrs_text l) = true.
Proof.
  induction 1 as [|[k v] l [Hk Hv] _ IH]; [done|]. cbn [attrs_text fst snd] in *.
  assert (forall s, str_all plain s = true ->
            str_all (fun c => negb (Ascii.eqb c ">"%char)) s = true) as Himp
    by (intros s; apply str_all_impl; unfold plain; intros c H; by apply andb_true_iff in H as [_ ?]).
  unfold attr_text. cbn [fst snd str_all]. rewrite !str_all_app. cbn [str_all].
  rewrite !str_all_app, IH, !Himp by done. done.
Qed.

Lemma rtrim_ends s c : is_ws c = false -> rtrim (s +:+ String c "") = s +:+ String c "".
Proof.
  intros Hc. induction s as [|d s IH]; rewrite ?str_app_cons, ?str_app_nil; cbn.
  - by rewrite Hc.
  - rewrite IH. destruct (s +:+ String c "") eqn:E; [by destruct s|]. by rewrite andb_false_r.
Qed.

Lemma attrs_text_ends l : exists s, attrs_text l = s +:+ "/".
Proof.
  induction l as [|kv l [s IH]]; [by exists ""|]. cbn [attrs_text]. rewrite IH.
  exists (String " " (attr_text kv +:+ s)). by rewrite str_app_cons, app_assoc_str.
Qed.

Lemma entry_of_route_attrs options e : printable e ->
  entry_of_attrs options (foldl (fun m kv => <[kv.1 := kv.2]> m) ∅ (route_attrs e)) = inr e.
Proof.
  intros (Hi & Hc & Hs & Hk & Hn). unfold route_attrs. cbn [foldl fst snd].
  unfold entry_of_attrs, find_attr.
  lookups.
  cbn [require ebind attr_or default].
  rewrite parse_u32_to_string, !parse_u16_to_string by lia.
  cbn [require ebind attr_or default]. rewrite (proj2 (Z.eqb_neq _ 0)) by lia.
  destruct e as [i [] [] cd sc k n [[] []]]; cbn in *; subst k; reflexivity.
Qed.

Lemma read_route_tag options e : printable e ->
  read_tag options ("route" +:+ attrs_text (route_attrs e)) = inr (Some e).
Proof.
  intros He. unfold read_tag.
  assert (trim_copy ("route" +:+ attrs_text (route_attrs e)) = "route" +:+ attrs_text (route_attrs e))
    as ->.
  { unfold trim_copy. rewrite skip_stops by done.
    destruct (attrs_text_ends (route_attrs e)) as [s ->].
    rewrite app_assoc_str. by apply rtrim_ends. }
  pose proof (route_attrs_plain e He) as Hp.
  assert (span (fun c => negb (attr_sep c)) ("route" +:+ attrs_text (route_attrs e)) =
          ("route", attrs_text (route_attrs e))) as -> by (by apply span_all).
  cbn [String.append]. cbn iota. change (negb (str_in "route" ["message"; "route"])) with false. cbn iota.
  assert (parse_xml_attributes (match attrs_text (route_attrs e) with
            | "" => "" | String _ r => r end) =
          foldl (fun m kv => <[kv.1 := kv.2]> m) ∅ (route_attrs e)) as ->.
  { apply parse_attrs_text. eapply Forall_impl; [|exact Hp]. by intros kv [? _]. }
  by rewrite entry_of_route_attrs.
Qed.

(** One printed route, after any text without a tag. *)
Lemma load_loop_route f junk e rest routes options :
  printable e -> str_all (fun c => negb (Ascii.eqb c "<"%char)) junk = true ->
  load_loop (S f) (junk +:+ route_text e +:+ rest) routes options =
    match RouteTable.add routes e with
    | (true, routes') => load_loop f rest routes' options
    | (false, routes') => (Some "xmldef contains duplicate route id or name", routes')
    end.
Proof.
  intros He Hj. cbn [load_loop]. unfold route_text. rewrite str_app_cons, split_at_app by done.
  pose proof (route_attrs_plain e He) as Hp.
  assert (split_at ">" (("route" +:+ attrs_text (route_attrs e) +:+ ">") +:+ rest) =
          Some ("route" +:+ attrs_text (route_attrs e), rest)) as ->.
  { rewrite <- !app_assoc_str. change (">" +:+ rest) with (String ">" rest).
    rewrite app_assoc_str. apply split_at_app. rewrite str_all_app.
    rewrite attrs_text_plain; [done|]. eapply Forall_impl; [|exact Hp]. by intros kv [_ ?]. }
  by rewrite read_route_tag.
Qed.

(** A catalog: routes, each after some text without a tag. *)
Fixpoint catalog (l : list (string * RouteEntry)) (trailer : string) : string :=
  match l with
  | [] => trailer
  | (junk, e) :: l' => junk +:+ route_text e +:+ catalog l' trailer
  end.

(** [RouteTable::add] for each route until one is refused. *)
Fixpoint add_all (routes : RouteTable) (es : list RouteEntry) : option string * RouteTable :=
  match es with
  | [] => (None, routes)
  | e :: es' =>
      match RouteTable.add routes e with
      | (true, routes') => add_all routes' es'
      | (false, routes') => (Some "xmldef contains duplicate route id or name", routes')
      end
  end.

Lemma split_at_none c s :
  str_all (fun d => negb (Ascii.eqb d c)) s = true -> split_at c s = None.
Proof.
  induction s as [|d s IH]; [done|]. cbn. intros H. bools. by rewrite H, IH.
Qed.

(** C2: loading a printed catalog registers exactly the printed routes, in
    order and with all their attributes, and stops with the duplicate error at
    the first one whose number or name is taken. *)
Theorem catalog_roundtrip (l : list (string * RouteEntry)) trailer routes options :
  Forall (fun je => printable je.2 /\
            str_all (fun c => negb (Ascii.eqb c "<"%char)) je.1 = true) l ->
  str_all (fun c => negb (Ascii.eqb c "<"%char)) trailer = true ->
  load_xmldef_routes_from_string (catalog l trailer) routes options = add_all routes (map snd l).
Proof.
  intros HF Ht. unfold load_xmldef_routes_from_string.
  rewrite (load_loop_fuel _ (String.length (catalog l trailer) + S (length l))) by lia.
  generalize (String.length (catalog l trailer)) as n. intros n. revert n routes.
  induction l as [|[junk e] l IH]; intros n routes; cbn [catalog map add_all length snd].
  - rewrite Nat.add_comm. cbn [load_loop Nat.add]. by rewrite split_at_none.
  - apply Forall_cons_iff in HF as [[He Hj] HF]. rewrite <- Nat.add_succ_comm.
    rewrite Nat.add_succ_l. rewrite load_loop_route by done.
    destruct (RouteTable.add routes e) as [[] t]; [|done]. cbn [snd]. by apply IH.
Qed.

Definition login : RouteEntry :=
  mkRoute 100 Bidirectional false 3 70 Message "auth.login" (mkPolicy ForwardRaw false).

Lemma catalog_roundtrip_witness :
  load_xmldef_routes_from_string (catalog [("  ", login)] " ") table_empty default_options
  = (None, (RouteTable.add table_empty login).2).
Proof.
  apply (catalog_roundtrip [("  ", login)] " " table_empty default_options); [|reflexivity].
  repeat constructor; vm_compute; congruence.
Defined.

Definition entry_ranges (e : RouteEntry) : Prop :=
  0 < re_route_id e <= u32_max /\ 0 <= re_codec_id e <= u16_max /\
  0 <= re_schema_id e <= u16_max.

Lemma attr_or_inr {A} (P : A -> Prop) o parse dflt e a :
  attr_or o parse dflt e = inr a -> (forall s x, parse s = Some x -> P x) -> P dflt -> P a.
Proof.
  unfold attr_or, require. intros H Hp Hd. destruct o as [s|]; [|by simplify_eq].
  destruct (parse s) eqn:E; simplify_eq. eauto.
Qed.

Definition is_u16 (n : Z) : Prop := 0 <= n <= u16_max.

Lemma attr_or_u16 o dflt e n : is_u16 dflt -> attr_or o parse_u16 dflt e = inr n -> is_u16 n.
Proof. intros Hd H. eapply attr_or_inr; [exact H| |done]. apply parse_u16_range. Qed.

Lemma entry_of_attrs_ranges options attrs e :
  is_u16 (xo_default_codec_id options) ->
  entry_of_attrs options attrs = inr e -> entry_ranges e.
Proof.
  intros Ho H. unfold entry_of_attrs in H.
  apply ebind_inr in H as (ids & _ & H). apply ebind_inr in H as (id & Hid & H).
  apply ebind_inr in H as (dir & _ & H). apply ebind_inr in H as (codec & Hc & H).
  apply ebind_inr in H as (schema & Hs & H). apply ebind_inr in H as (act & _ & H).
  apply ebind_inr in H as (lz & _ & H). injection H as <-.
  unfold entry_ranges. cbn [re_route_id re_codec_id re_schema_id]. split; [|split].
  - destruct (parse_u32 ids) as [n|] eqn:E; [|done]. apply parse_u32_range in E.
    destruct (n =? 0) eqn:E0; [done|]. bools. injection Hid as <-. lia.
  - by eapply attr_or_u16.
  - assert (is_u16 0) by (unfold is_u16, u16_max; lia).
    destruct (find_attr attrs "schema_id") as [v|]; [|by eapply attr_or_u16].
    unfold require in Hs. destruct (parse_u16 v) eqn:E; [|done]. injection Hs as <-.
    by eapply parse_u16_range.
Qed.

Lemma read_tag_ranges options raw e :
  is_u16 (xo_default_codec_id options) -> read_tag options raw = inr (Some e) -> entry_ranges e.
Proof.
  intros Ho H. unfold read_tag in H.
  assert (forall s, (let '(tag_name, after) := span (fun c => negb (attr_sep c)) s in
     if negb (str_in tag_name ["message"; "route"]) then inr None
     else let? e := entry_of_attrs options
                      (parse_xml_attributes match after with String _ r => r | "" => "" end) in
          inr (Some e)) = inr (Some e) -> entry_ranges e) as Hbody.
  { intros s Hs. destruct (span _ s) as [nm after]. destruct (negb _); [done|].
    apply ebind_inr in Hs as (e' & He & Hs). simplify_eq. by eapply entry_of_attrs_ranges. }
  destruct (trim_copy raw) as [|c s]; [done|].
  destruct c as [[] [] [] [] [] [] [] []]; first [done | by eapply Hbody].
Qed.

Lemma add_find t e t' b id x :
  RouteTable.add t e = (b, t') ->
  (RouteTable.find t id = Some x -> RouteTable.find t' id = Some x) /\
  (RouteTable.find t' id = Some x -> RouteTable.find t id = Some x \/ x = e).
Proof.
  rewrite add_spec. unfold RouteTable.find. case_bool_decide as Hd; intros [= <- <-]; [|auto].
  destruct Hd as [Hd _]. cbn [RouteTable.upsert routes_]. rewrite lookup_insert_Some. split.
  - intros Hx. right. split; [congruence|done].
  - intros [[_ <-]|[_ Hx]]; auto.
Qed.

Lemma load_loop_keeps fuel xml routes options err routes' :
  is_u16 (xo_default_codec_id options) -> table_ok routes ->
  load_loop fuel xml routes options = (err, routes') ->
  table_ok routes' /\
  (forall id e, RouteTable.find routes id = Some e -> RouteTable.find routes' id = Some e) /\
  (forall id e, RouteTable.find routes' id = Some e ->
     RouteTable.find routes id = Some e \/ entry_ranges e).
Proof.
  intros Ho. revert xml routes. induction fuel as [|fuel IH]; intros xml routes Hok H; cbn in H.
  { simplify_eq. naive_solver. }
  destruct (split_at "<" xml) as [[a after]|]; [|simplify_eq; naive_solver].
  destruct (split_at ">" after) as [[raw rest]|]; [|simplify_eq; naive_solver].
  destruct (read_tag options raw) as [|[e|]] eqn:Et; [simplify_eq; naive_solver| |by eapply IH].
  destruct (RouteTable.add routes e) as [b t] eqn:Ea.
  pose proof (add_ok _ _ _ _ Hok Ea) as Hok'. pose proof (read_tag_ranges _ _ _ Ho Et) as Hr.
  assert (exists r, load_loop fuel r t options = (err, routes') \/ t = routes') as (r & [Hl|<-])
    by (destruct b; [eauto|exists rest; right; by simplify_eq]).
  - destruct (IH _ _ Hok' Hl) as (? & Hf & Hb). split; [done|].
    split; intros id x; destruct (add_find _ _ _ _ id x Ea); naive_solver.
  - split; [done|]. split; intros id x; destruct (add_find _ _ _ _ id x Ea); naive_solver.
Qed.

(** A loaded catalog never breaks the table: from a consistent table the
    loader returns a consistent one, on success and on every error, and every
    route it adds has a non-zero 32-bit number and 16-bit codec and schema
    numbers (given a 16-bit default). *)
Theorem load_keeps_table xml routes options err routes' :
  table_ok routes -> 0 <= xo_default_codec_id options <= u16_max ->
  load_xmldef_routes_from_string xml routes options = (err, routes') ->
  table_ok routes' /\
  (forall id e, RouteTable.find routes id = Some e -> RouteTable.find routes' id = Some e) /\
  (forall id e, RouteTable.find routes' id = Some e -> RouteTable.find routes id = None ->
     0 < re_route_id e <= u32_max /\ 0 <= re_codec_id e <= u16_max /\
     0 <= re_schema_id e <= u16_max).
Proof.
  intros Hok Ho H. destruct (load_loop_keeps _ _ _ _ _ _ Ho Hok H) as (? & ? & Hnew).
  split; [done|]. split; [done|]. intros id e Hf Hn. destruct (Hnew _ _ Hf); [congruence|done].
Qed.

Definition bad_catalog : string :=
  catalog [("", login); ("", login)] "".

Lemma load_keeps_table_witness :
  table_ok (RouteTable.upsert table_empty login) /\
  (forall id e, RouteTable.find table_empty id = Some e ->
     RouteTable.find (RouteTable.upsert table_empty login) id = Some e) /\
  (forall id e, RouteTable.find (RouteTable.upsert table_empty login) id = Some e ->
     RouteTable.find table_empty id = None ->
     0 < re_route_id e <= u32_max /\ 0 <= re_codec_id e <= u16_max /\
     0 <= re_schema_id e <= u16_max).
Proof.
  apply (load_keeps_table bad_catalog table_empty default_options
           (Some "xmldef contains duplicate route id or name") (RouteTable.upsert table_empty login)).
  - apply table_empty_ok.
  - vm_compute. split; congruence.
  - vm_compute. reflexivity.
Defined.
