(* ===== verification/Json.v ===== *)
(** * Json: the values of nlohmann::json and the operations the sources use

    A JSON value with the number types nlohmann distinguishes.  Objects are
    [std::map]s: association lists kept in increasing key order.  Parsing,
    printing and the texts of the exceptions belong to the library and are
    parameters, members of the class [JsonLib]; the conversions and their
    failures are written out. *)

From Stdlib Require Import Floats.SpecFloat.
From S2P Require Import Prelude.

Inductive json :=
| JNull
| JBool (b : bool)
| JInt (z : Z)
| JUInt (z : Z)
| JFloat (f : spec_float)
| JStr (s : string)
| JArr (l : list json)
| JObj (l : list (string * json)).

(** The library: [json::parse] and [dump], which throw on malformed input and
    on strings that are not UTF-8, and the text of a type error by its number,
    the expected type and the offending value. *)
Class JsonLib := {
  json_parse : list byte -> exn + json;
  json_dump : json -> exn + string;
  json_error : Z -> string -> json -> string
}.

(** ** Objects *)

Fixpoint obj_find (k : string) (l : list (string * json)) : option json :=
  match l with
  | (k', v) :: l' => if String.eqb k k' then Some v else obj_find k l'
  | [] => None
  end.

(** [j[k] = v] keeps the keys in increasing order. *)
Fixpoint obj_set (k : string) (v : json) (l : list (string * json)) : list (string * json) :=
  match l with
  | (k', v') :: l' =>
      match String.compare k k' with
      | Eq => (k, v) :: l'
      | Lt => (k, v) :: (k', v') :: l'
      | Gt => (k', v') :: obj_set k v l'
      end
  | [] => [(k, v)]
  end.

Definition is_object (j : json) : bool := match j with JObj _ => true | _ => false end.
Definition is_array (j : json) : bool := match j with JArr _ => true | _ => false end.
Definition is_string (j : json) : bool := match j with JStr _ => true | _ => false end.
Definition is_number_unsigned (j : json) : bool := match j with JUInt _ => true | _ => false end.

(** [j.find(k)]; [contains] is false on anything but an object. *)
Definition get (k : string) (j : json) : option json :=
  match j with JObj l => obj_find k l | _ => None end.

Definition contains (k : string) (j : json) : bool := bool_decide (is_Some (get k j)).

(** [j.empty()]: null and empty containers. *)
Definition json_empty (j : json) : bool :=
  match j with JNull | JArr [] | JObj [] => true | _ => false end.

(** ** Conversions *)

Section Conversions.
Context `{JsonLib}.

Definition type_error {A} (n : Z) (expected : string) (j : json) : outcome A :=
  Throw (JsonExn (json_error n expected j)).

(** The integer part of a finite double. *)
Definition float_trunc (f : spec_float) : option Z :=
  match f with
  | S754_zero _ => Some 0
  | S754_finite s m e => Some ((if s then Z.opp else fun x => x) (Z.shiftl (Zpos m) e))
  | _ => None
  end.

(** [static_cast] of a double to an integer type of range [lo..hi] is undefined
    outside of the range. *)
Definition float_cast (lo hi : Z) (f : spec_float) : outcome Z :=
  match float_trunc f with
  | Some z => if (lo <=? z) && (z <=? hi) then Ret z else Undef
  | None => Undef
  end.

(** [get] for an unsigned type of [w] bits other than the library's own 64-bit
    one: numbers are converted modulo [2^w] and booleans are accepted. *)
Definition get_uint (w : Z) (j : json) : outcome Z :=
  match j with
  | JUInt z | JInt z => Ret (cast w z)
  | JFloat f => float_cast 0 (2 ^ w - 1) f
  | JBool b => Ret (Z.b2z b)
  | _ => type_error 302 "number" j
  end.

(** [get<std::size_t>], the library's unsigned type: no booleans. *)
Definition get_size (j : json) : outcome Z :=
  match j with
  | JUInt z | JInt z => Ret (u64 z)
  | JFloat f => float_cast 0 size_max f
  | _ => type_error 302 "number" j
  end.

(** [get<int>]: two's complement in 32 bits. *)
Definition signed32 (z : Z) : Z :=
  let m := u32 z in if m <? 2 ^ 31 then m else m - 2 ^ 32.

(** Two's complement in 64 bits. *)
Definition signed64 (z : Z) : Z :=
  let m := u64 z in if m <? 2 ^ 63 then m else m - 2 ^ 64.

Definition get_int (j : json) : outcome Z :=
  match j with
  | JUInt z | JInt z => Ret (signed32 z)
  | JFloat f => float_cast (- 2 ^ 31) (2 ^ 31 - 1) f
  | JBool b => Ret (Z.b2z b)
  | _ => type_error 302 "number" j
  end.

Definition get_bool (j : json) : outcome bool :=
  match j with JBool b => Ret b | _ => type_error 302 "boolean" j end.

Definition get_string (j : json) : outcome string :=
  match j with JStr s => Ret s | _ => type_error 302 "string" j end.

Definition get_json (j : json) : outcome json := Ret j.

(** [j.value(k, d)]: the default when the key is absent; the conversion throws
    when the value has another type and the call itself when [j] is no object. *)
Definition value {A} (conv : json -> outcome A) (k : string) (d : A) (j : json) : outcome A :=
  match j with
  | JObj l => match obj_find k l with Some v => conv v | None => Ret d end
  | _ => type_error 306 "object" j
  end.

End Conversions.

(** ** Lemmas *)

Lemma obj_find_set k v l k' :
  obj_find k' (obj_set k v l) = if String.eqb k' k then Some v else obj_find k' l.
Proof.
  induction l as [|[k0 v0] l IH]; cbn; [done|].
  destruct (String.compare k k0) eqn:E; cbn.
  - apply String.compare_eq_iff in E as ->. by destruct (String.eqb k' k0).
  - done.
  - rewrite IH. destruct (String.eqb_spec k' k0) as [E0|], (String.eqb_spec k' k) as [E1|]; try done.
    subst. pose proof (String.compare_antisym k k) as Ha. rewrite E in Ha. done.
Qed.

Lemma get_obj_set k v l k' :
  get k' (JObj (obj_set k v l)) = if String.eqb k' k then Some v else get k' (JObj l).
Proof. apply obj_find_set. Qed.

(** Induction that reaches the elements of arrays and the members of objects. *)
Section Induction.
Context (P : json -> Prop).
Context (Hflat : forall j, is_array j = false -> is_object j = false -> P j).
Context (Harr : forall l, (forall x, x ∈ l -> P x) -> P (JArr l)).
Context (Hobj : forall l, (forall k x, (k, x) ∈ l -> P x) -> P (JObj l)).

Fixpoint json_nested_ind (j : json) : P j.
Proof.
  destruct j as [| | | | | |l|l]; try (apply Hflat; reflexivity).
  - apply Harr. induction l as [|x l IH]; [clear json_nested_ind|].
    + intros y Hy. by apply elem_of_nil in Hy.
    + pose proof (json_nested_ind x) as Hx. clear json_nested_ind.
      intros y Hy. apply elem_of_cons in Hy as [->|Hy]; [exact Hx|exact (IH y Hy)].
  - apply Hobj. induction l as [|[k x] l IH]; [clear json_nested_ind|].
    + intros k y Hy. by apply elem_of_nil in Hy.
    + pose proof (json_nested_ind x) as Hx. clear json_nested_ind.
      intros k' y Hy. apply elem_of_cons in Hy as [[= -> ->]|Hy]; [exact Hx|exact (IH k' y Hy)].
Qed.
End Induction.

Lemma obj_find_elem k v l : obj_find k l = Some v -> (k, v) ∈ l.
Proof.
  induction l as [|[k' v'] l IH]; cbn; [done|].
  destruct (String.eqb_spec k k') as [->|]; [intros [= ->]; by left|right; auto].
Qed.
