(* ===== verification/Codec.v ===== *)
(** * Codec: body codecs and their registry (src/transport/protocol.cpp)

    The structured messages of the JSON codec, the four [BodyCodec] classes as
    one tagged type, the calls into a codec plugin with the results they must
    free, and [BodyCodecRegistry]. *)

From S2P Require Import Prelude Text Index Envelope Routes Json.

(** ** Data *)

Record BodyRouteKey := mkKey { key_route_id : Z; key_route_name : string }.

Definition key_empty (k : BodyRouteKey) : bool :=
  (key_route_id k =? 0) && str_empty (key_route_name k).

Record DecodedBody := mkBody {
  db_route_id : Z;
  db_codec_id : Z;
  db_schema_id : Z;
  db_route_name : string;
  db_bytes : list byte;
  db_message : option json
}.

Definition default_body : DecodedBody := mkBody 0 0 0 "" [] None.

(** [ProtocolProfile] *)
Record ProtocolProfile := mkProfile {
  pp_name : string;
  pp_envelope_kind : EnvelopeKind;
  pp_envelope : EnvelopeConfig;
  pp_default_codec_id : Z;
  pp_route_source : RouteSource;
  pp_unknown_route_action : RouteAction;
  pp_decode_body_route : bool;
  pp_decode_before_dispatch : bool
}.

Definition default_profile : ProtocolProfile :=
  mkProfile "" LenPrefix default_config 0 SourceBody Drop true false.

(** [shield_error_v1]: null pointers are [None]. *)
Record PluginError := mkPluginError { pe_code : option string; pe_message : option string }.

Record DecodeArgs := mkDecodeArgs {
  da_route_id : Z; da_codec_id : Z; da_schema_id : Z;
  da_route_name : option string; da_payload : list byte
}.

Record EncodeArgs := mkEncodeArgs {
  ea_route_id : Z; ea_codec_id : Z; ea_schema_id : Z;
  ea_route_name : option string; ea_message_json : string
}.

(** [shield_protocol_codec_v1]: the function pointers of a plugin.  Each call
    returns the C result code, the filled result and the error structure. *)
Record CodecVtable := mkVtable {
  cv_codec_name : option string;
  cv_decode : option (DecodeArgs -> Z * option (list byte) * PluginError);
  cv_encode : option (EncodeArgs -> Z * option (list byte) * PluginError);
  cv_free_decode_result : bool;
  cv_free_encode_result : bool
}.

(** The classes derived from [BodyCodec]. *)
Inductive BodyCodec :=
| RawBodyCodec
| PassthroughBodyCodec (name_ : string)
| JsonBodyCodec
| ExternalBodyCodec (provider_ name_ : string) (codec_ : option CodecVtable).

Definition codec_name (c : BodyCodec) : string :=
  match c with
  | RawBodyCodec => "raw"
  | PassthroughBodyCodec n => n
  | JsonBodyCodec => "json"
  | ExternalBodyCodec _ n _ => n
  end.

#[export] Instance codec_named : Named BodyCodec := codec_name.

(** ** Structured messages *)

(** [key.route_id] from an unsigned number, converted to 32 bits. *)
Definition unsigned_field (k : string) (j : json) : option Z :=
  match get k j with Some (JUInt z) => Some (u32 z) | _ => None end.

Definition string_field (k : string) (j : json) : option string :=
  match get k j with Some (JStr s) => Some s | _ => None end.

Definition first_some {A} (a b : option A) : option A :=
  match a with Some _ => a | None => b end.

Definition structured_route_key (v : json) : option BodyRouteKey :=
  if negb (is_object v) then None
  else
    let route_id := default 0 (first_some (unsigned_field "route_id" v) (unsigned_field "msg_id" v)) in
    let route_name := default "" (first_some (string_field "route" v) (string_field "method" v)) in
    let key := mkKey route_id route_name in
    if key_empty key then None else Some key.

Definition decode_structured_body (packet : Packet) (route : RouteEntry) (message : json)
  : DecodedBody :=
  mkBody (re_route_id route) (re_codec_id route) (re_schema_id route)
    (match structured_route_key message with Some key => key_route_name key | None => "" end)
    (pk_body packet)
    (Some (match get "payload" message with Some p => p | None => message end)).

Definition message_contains_route_hint (message : json) : bool :=
  is_object message &&
  (contains "route" message || contains "route_id" message ||
   contains "msg_id" message || contains "method" message).

(** The wrapper object around a payload. *)
Definition wrap_message (body : DecodedBody) (route : RouteEntry) (payload : json) : json :=
  let m0 :=
    if negb (str_empty (db_route_name body)) then obj_set "route" (JStr (db_route_name body)) []
    else if negb (str_empty (re_debug_name route)) then obj_set "route" (JStr (re_debug_name route)) []
    else [] in
  let m1 :=
    if negb (re_route_id route =? 0) then obj_set "route_id" (JUInt (re_route_id route)) m0
    else m0 in
  JObj (obj_set "payload" payload m1).

Definition encode_structured_message (body : DecodedBody) (route : RouteEntry) : exn + json :=
  match db_message body with
  | Some message =>
      if message_contains_route_hint message then inr message
      else inr (wrap_message body route message)
  | None =>
      match db_bytes body with
      | _ :: _ => inl (StdExn "structured body codec expects business message, not raw bytes")
      | [] => inr (wrap_message body route (JObj []))
      end
  end.

Definition plugin_business_message (body : DecodedBody) : exn + json :=
  match db_message body with
  | Some message =>
      match get "payload" message with
      | Some p => if message_contains_route_hint message then inr p else inr message
      | None => inr message
      end
  | None =>
      match db_bytes body with
      | _ :: _ => inl (StdExn "plugin body codec expects business message, not raw bytes")
      | [] => inr (JObj [])
      end
  end.

Definition c_text (s : option string) : string := default "" s.

Definition plugin_error_message (err : PluginError) (fallback : string) : string :=
  if negb (str_empty (c_text (pe_message err))) then c_text (pe_message err)
  else if negb (str_empty (c_text (pe_code err))) then c_text (pe_code err)
  else fallback.

(** ** The codecs *)

(** The calls the host makes into a plugin, in order. *)
Inductive PluginCall := CallDecode | CallEncode | CallFreeDecode | CallFreeEncode.

Definition route_name_arg (route : RouteEntry) : option string :=
  if str_empty (re_debug_name route) then None else Some (re_debug_name route).

Definition provider_missing (provider : string) : exn :=
  StdExn ("protocol codec provider '" +:+ provider +:+ "' is not available").

Section Codecs.
Context `{JsonLib}.

(** [ExternalBodyCodec::decode] with the calls it makes. *)
Definition external_decode (provider : string) (codec : option CodecVtable)
    (packet : Packet) (route : RouteEntry) : list PluginCall * (exn + DecodedBody) :=
  match codec with
  | Some v =>
      match cv_decode v with
      | Some decode =>
          let args := mkDecodeArgs (re_route_id route) (re_codec_id route) (re_schema_id route)
                        (route_name_arg route) (pk_body packet) in
          let '(rc, out, err) := decode args in
          if negb (rc =? 0) then
            ([CallDecode], inl (StdExn (plugin_error_message err "protocol decode failed")))
          else
            let result :=
              let? message := match out with
                              | Some (b :: bs) => json_parse (b :: bs)
                              | _ => inr (JObj [])
                              end in
              inr (mkBody (re_route_id route) (re_codec_id route) (re_schema_id route)
                     (re_debug_name route) (pk_body packet) (Some message)) in
            (CallDecode :: (if cv_free_decode_result v then [CallFreeDecode] else []), result)
      | None => ([], inl (provider_missing provider))
      end
  | None => ([], inl (provider_missing provider))
  end.

(** [ExternalBodyCodec::encode] with the calls it makes. *)
Definition external_encode (provider : string) (codec : option CodecVtable)
    (body : DecodedBody) (route : RouteEntry) : list PluginCall * (exn + list byte) :=
  match codec with
  | Some v =>
      match cv_encode v with
      | Some encode =>
          match (let? message := plugin_business_message body in json_dump message) with
          | inl e => ([], inl e)
          | inr message_text =>
              let args := mkEncodeArgs (re_route_id route) (re_codec_id route)
                            (re_schema_id route) (route_name_arg route) message_text in
              let '(rc, out, err) := encode args in
              if negb (rc =? 0) then
                ([CallEncode], inl (StdExn (plugin_error_message err "protocol encode failed")))
              else
                (CallEncode :: (if cv_free_encode_result v then [CallFreeEncode] else []),
                 inr (default [] out))
          end
      | None => ([], inl (provider_missing provider))
      end
  | None => ([], inl (provider_missing provider))
  end.

(** [BodyCodec::route_key], overridden by the JSON codec. *)
Definition codec_route_key (c : BodyCodec) (packet : Packet) : option BodyRouteKey :=
  match c with
  | JsonBodyCodec =>
      match json_parse (pk_body packet) with
      | inr j => structured_route_key j
      | _ => None
      end
  | _ => None
  end.

(** [BodyCodec::decode] *)
Definition codec_decode (c : BodyCodec) (packet : Packet) (route : RouteEntry)
  : (exn + DecodedBody) :=
  match c with
  | RawBodyCodec =>
      inr (mkBody (re_route_id route) (re_codec_id route) (re_schema_id route) ""
             (pk_body packet) None)
  | PassthroughBodyCodec _ => inl (StdExn "body codec does not support decode_local")
  | JsonBodyCodec =>
      let? j := json_parse (pk_body packet) in
      inr (decode_structured_body packet route j)
  | ExternalBodyCodec provider _ codec => (external_decode provider codec packet route).2
  end.

(** [BodyCodec::encode] *)
Definition codec_encode (c : BodyCodec) (body : DecodedBody) (route : RouteEntry)
  : (exn + list byte) :=
  match c with
  | RawBodyCodec =>
      match db_message body with
      | Some _ => inl (StdExn "raw body codec expects bytes")
      | None => inr (db_bytes body)
      end
  | PassthroughBodyCodec _ => inl (StdExn "body codec does not support encode")
  | JsonBodyCodec =>
      let? j := encode_structured_message body route in
      let? serialized := json_dump j in
      inr (bytes_of serialized)
  | ExternalBodyCodec provider _ codec => (external_encode provider codec body route).2
  end.

End Codecs.

Definition create_body_codec (name : string) : option BodyCodec :=
  if String.eqb name "raw" then Some RawBodyCodec
  else if String.eqb name "json" then Some JsonBodyCodec
  else if str_in name ["msgpack"; "protobuf"; "fbs"; "flatbuffers"; "sproto"] then
    Some (PassthroughBodyCodec name)
  else if str_in name ["xmldef"; "xml_def"] then Some (PassthroughBodyCodec "xmldef")
  else None.

(** ** The registry *)

Record BodyCodecRegistry := mkRegistry {
  codecs_ : gmap Z BodyCodec;
  codec_names_ : gmap string Z
}.

Definition registry_empty : BodyCodecRegistry := mkRegistry ∅ ∅.

Module BodyCodecRegistry.

Definition find (r : BodyCodecRegistry) (codec_id : Z) : option BodyCodec := codecs_ r !! codec_id.

Definition find_by_name (r : BodyCodecRegistry) (name : string) : option BodyCodec :=
  match codec_names_ r !! name with
  | Some codec_id => find r codec_id
  | None => None
  end.

(** [add]; a null pointer is [None]. *)
Definition add (r : BodyCodecRegistry) (codec_id : Z) (codec : option BodyCodec)
  : bool * BodyCodecRegistry :=
  match codec with
  | None => (false, r)
  | Some c =>
      if bool_decide (is_Some (codecs_ r !! codec_id)) then (false, r)
      else if negb (str_empty (codec_name c)) &&
              bool_decide (is_Some (codec_names_ r !! codec_name c)) then (false, r)
      else
        (true,
         mkRegistry (<[codec_id := c]> (codecs_ r))
           (if str_empty (codec_name c) then codec_names_ r
            else match codec_names_ r !! codec_name c with
                 | Some _ => codec_names_ r
                 | None => <[codec_name c := codec_id]> (codec_names_ r)
                 end))
  end.

Definition upsert (r : BodyCodecRegistry) (codec_id : Z) (codec : option BodyCodec)
  : BodyCodecRegistry :=
  match codec with
  | None => r
  | Some c =>
      let names :=
        match codecs_ r !! codec_id with
        | Some existing =>
            match codec_names_ r !! codec_name existing with
            | Some id =>
                if id =? codec_id then delete (codec_name existing) (codec_names_ r)
                else codec_names_ r
            | None => codec_names_ r
            end
        | None => codec_names_ r
        end in
      mkRegistry (<[codec_id := c]> (codecs_ r))
        (if str_empty (codec_name c) then names else <[codec_name c := codec_id]> names)
  end.

Definition clear (r : BodyCodecRegistry) : BodyCodecRegistry := mkRegistry ∅ ∅.

Definition size (r : BodyCodecRegistry) : Z := Z.of_nat (base.size (codecs_ r)).

End BodyCodecRegistry.

(** ** Structured messages: lemmas *)

Lemma wrap_get_payload body route p : get "payload" (wrap_message body route p) = Some p.
Proof. apply get_obj_set. Qed.

Lemma wrap_get_route_id body route p :
  unsigned_field "route_id" (wrap_message body route p) =
    if re_route_id route =? 0 then None else Some (u32 (re_route_id route)).
Proof.
  unfold unsigned_field, wrap_message. rewrite get_obj_set. cbn [String.eqb Ascii.eqb Bool.eqb].
  destruct (re_route_id route =? 0); cbn [negb];
    destruct (str_empty (db_route_name body)), (str_empty (re_debug_name route)); reflexivity.
Qed.

Lemma wrap_get_msg_id body route p : unsigned_field "msg_id" (wrap_message body route p) = None.
Proof.
  unfold unsigned_field, wrap_message. rewrite get_obj_set. cbn [String.eqb Ascii.eqb Bool.eqb].
  destruct (re_route_id route =? 0); cbn [negb];
    destruct (str_empty (db_route_name body)), (str_empty (re_debug_name route)); reflexivity.
Qed.

(** The name a wrapped message carries. *)
Definition wire_name (body : DecodedBody) (route : RouteEntry) : string :=
  if str_empty (db_route_name body) then re_debug_name route else db_route_name body.

Lemma wrap_get_route body route p :
  default "" (first_some (string_field "route" (wrap_message body route p))
                (string_field "method" (wrap_message body route p))) = wire_name body route.
Proof.
  unfold string_field, wire_name, wrap_message. rewrite !get_obj_set.
  cbn [String.eqb Ascii.eqb Bool.eqb].
  destruct (re_route_id route =? 0); cbn [negb];
    destruct (str_empty (db_route_name body)) eqn:E1, (str_empty (re_debug_name route)) eqn:E2;
    cbn [negb]; try reflexivity; apply str_empty_true in E2; by rewrite E2.
Qed.

Lemma wrap_route_key body route p :
  0 < re_route_id route < 2 ^ 32 ->
  structured_route_key (wrap_message body route p) =
    Some (mkKey (re_route_id route) (wire_name body route)).
Proof.
  intros Hr. unfold structured_route_key. change (is_object (wrap_message _ _ _)) with true.
  rewrite wrap_get_route, wrap_get_route_id. rewrite (proj2 (Z.eqb_neq _ 0)) by lia.
  cbn. rewrite cast_small by lia. unfold key_empty. cbn.
  rewrite (proj2 (Z.eqb_neq (re_route_id route) 0)) by lia. done.
Qed.

(** The business message of a body: its message, or the empty object that a
    body without bytes stands for. *)
Definition business_message (body : DecodedBody) : option json :=
  match db_message body, db_bytes body with
  | Some m, _ => Some m
  | None, [] => Some (JObj [])
  | None, _ => None
  end.

Lemma encode_structured_wrap body route m :
  business_message body = Some m -> message_contains_route_hint m = false ->
  encode_structured_message body route = inr (wrap_message body route m).
Proof.
  unfold business_message, encode_structured_message. intros Hb Hh.
  destruct (db_message body); [by simplify_eq; rewrite Hh|].
  destruct (db_bytes body); by simplify_eq.
Qed.

(** ** Registry: lemmas *)

Definition registry_ok (r : BodyCodecRegistry) : Prop :=
  index_sound (codecs_ r) (codec_names_ r) /\ index_complete (codecs_ r) (codec_names_ r).

Lemma registry_empty_ok : registry_ok registry_empty.
Proof. apply index_empty. Qed.

Lemma registry_upsert_index r id c :
  codec_names_ (BodyCodecRegistry.upsert r id (Some c)) =
    index_put id c (index_drop id (codecs_ r !! id) (codec_names_ r)).
Proof.
  unfold BodyCodecRegistry.upsert, index_put, index_drop, name_of, codec_named.
  cbn [codec_names_]. destruct (codecs_ r !! id) as [old|]; [|done].
  destruct (codec_names_ r !! codec_name old) as [i|] eqn:Ei.
  - destruct (Z.eqb_spec i id) as [->|Hne]; case_bool_decide as Hd; try done; congruence.
  - by rewrite bool_decide_eq_false_2.
Qed.

Lemma registry_add_spec r id c :
  BodyCodecRegistry.add r id (Some c) =
    if bool_decide (codecs_ r !! id = None /\
                    (codec_name c <> "" -> codec_names_ r !! codec_name c = None))
    then (true, BodyCodecRegistry.upsert r id (Some c)) else (false, r).
Proof.
  unfold BodyCodecRegistry.add, BodyCodecRegistry.upsert.
  destruct (codecs_ r !! id) eqn:Er; cbn [bool_decide].
  { rewrite bool_decide_eq_true_2 by eauto. by rewrite bool_decide_eq_false_2 by naive_solver. }
  rewrite bool_decide_eq_false_2 by (intros [? ?]; done).
  destruct (str_empty (codec_name c)) eqn:Ee; cbn [negb andb].
  - apply str_empty_true in Ee. by rewrite bool_decide_eq_true_2.
  - apply str_empty_false in Ee. destruct (codec_names_ r !! codec_name c) eqn:En.
    + rewrite bool_decide_eq_true_2 by eauto. by rewrite bool_decide_eq_false_2 by naive_solver.
    + rewrite bool_decide_eq_false_2 by (intros [? ?]; done). by rewrite bool_decide_eq_true_2.
Qed.

(** The registries that sequences of operations reach; an [upsert] replaces a
    codec or brings a name of its own. *)
Inductive registry_reachable : BodyCodecRegistry -> Prop :=
| registry_reach_empty : registry_reachable registry_empty
| registry_reach_add r id c :
    registry_reachable r -> registry_reachable (BodyCodecRegistry.add r id c).2
| registry_reach_upsert r id c :
    registry_reachable r ->
    (forall k, codec_names_ r !! codec_name c = Some k -> k = id) ->
    registry_reachable (BodyCodecRegistry.upsert r id (Some c))
| registry_reach_clear r :
    registry_reachable r -> registry_reachable (BodyCodecRegistry.clear r).

Lemma registry_upsert_ok r id c :
  registry_ok r -> (forall k, codec_names_ r !! codec_name c = Some k -> k = id) ->
  registry_ok (BodyCodecRegistry.upsert r id (Some c)).
Proof.
  intros [Hs Hc] Hf. unfold registry_ok. rewrite registry_upsert_index.
  split; [by apply (index_replace_sound (V:=BodyCodec)) | by apply (index_replace_complete (V:=BodyCodec))].
Qed.

Lemma registry_reachable_ok r : registry_reachable r -> registry_ok r.
Proof.
  induction 1 as [|r id [c|] _ IH|r id c _ IH Hf|r _ IH]; cbn [snd BodyCodecRegistry.add];
    auto using registry_empty_ok, registry_upsert_ok.
  fold (BodyCodecRegistry.add r id (Some c)). rewrite registry_add_spec.
  case_bool_decide as Hd; [|done]. destruct Hd as [_ Hn]. apply registry_upsert_ok; [done|].
  intros k Hk. destruct (string_empty_dec (codec_name c)) as [E|E].
  - rewrite E in Hk. by destruct (proj1 IH _ _ Hk).
  - rewrite Hn in Hk by done. done.
Qed.

(** ** Properties *)

Section Properties.
Context `{JsonLib}.

(** The three operations of the JSON codec on a wrapped message. *)
Lemma json_encode_wrapped body route m text :
  business_message body = Some m -> message_contains_route_hint m = false ->
  json_dump (wrap_message body route m) = inr text ->
  codec_encode JsonBodyCodec body route = inr (bytes_of text).
Proof.
  intros Hb Hh Hd. cbn [codec_encode]. rewrite (encode_structured_wrap _ _ _ Hb Hh). cbn [ebind].
  by rewrite Hd.
Qed.

Lemma json_decode_wrapped body route packet m :
  0 < re_route_id route < 2 ^ 32 -> json_parse (pk_body packet) = inr (wrap_message body route m) ->
  codec_decode JsonBodyCodec packet route =
    inr (mkBody (re_route_id route) (re_codec_id route) (re_schema_id route)
           (wire_name body route) (pk_body packet) (Some m)).
Proof.
  intros Hr Hp. cbn [codec_decode]. rewrite Hp. cbn [ebind]. unfold decode_structured_body.
  by rewrite wrap_route_key, wrap_get_payload.
Qed.

Lemma json_key_wrapped body route packet m :
  0 < re_route_id route < 2 ^ 32 -> json_parse (pk_body packet) = inr (wrap_message body route m) ->
  codec_route_key JsonBodyCodec packet = Some (mkKey (re_route_id route) (wire_name body route)).
Proof. intros Hr Hp. cbn [codec_route_key]. rewrite Hp. by apply wrap_route_key. Qed.

(** What the JSON codec encodes it decodes: a business message that has no
    routing fields of its own comes back unchanged, with the route's numbers
    and the name the sender put on it, and the receiver reads the route's
    number off the same bytes.  The hypothesis is the library's round trip for
    the one document sent. *)
Theorem json_codec_roundtrip body route packet m text :
  business_message body = Some m -> message_contains_route_hint m = false ->
  0 < re_route_id route < 2 ^ 32 ->
  json_dump (wrap_message body route m) = inr text ->
  json_parse (bytes_of text) = inr (wrap_message body route m) ->
  codec_encode JsonBodyCodec body route = inr (bytes_of text) /\
  (pk_body packet = bytes_of text ->
   codec_decode JsonBodyCodec packet route =
     inr (mkBody (re_route_id route) (re_codec_id route) (re_schema_id route)
            (wire_name body route) (bytes_of text) (Some m)) /\
   codec_route_key JsonBodyCodec packet = Some (mkKey (re_route_id route) (wire_name body route))).
Proof.
  intros Hb Hh Hr Hd Hp. split; [by eapply json_encode_wrapped|].
  intros Hpk. rewrite <- Hpk in Hp |- *.
  split; [by apply json_decode_wrapped | by eapply json_key_wrapped].
Qed.

End Properties.

(** A one-document library: enough to run the codecs on a concrete message. *)
Definition demo_doc : json :=
  JObj [("payload", JObj [("hp", JUInt 7)]); ("route", JStr "move"); ("route_id", JUInt 2)].

Definition demo_text : string := "<doc>".

Definition demo_lib : JsonLib :=
  {| json_parse := fun b => if String.eqb (string_of b) demo_text then inr demo_doc
                            else inl (JsonExn "parse error");
     json_dump := fun _ => inr demo_text;
     json_error := fun _ _ _ => "type error" |}.

Definition demo_body : DecodedBody := mkBody 0 0 0 "" [] (Some (JObj [("hp", JUInt 7)])).

Definition demo_packet : Packet := mkPacket 2 0 0 0 (bytes_of demo_text) [].

Lemma json_codec_roundtrip_witness :
  @codec_encode demo_lib JsonBodyCodec demo_body (named 2 "move") = inr (bytes_of demo_text) /\
  (pk_body demo_packet = bytes_of demo_text ->
   @codec_decode demo_lib JsonBodyCodec demo_packet (named 2 "move") =
     inr (mkBody 2 1 0 "move" (bytes_of demo_text) (Some (JObj [("hp", JUInt 7)]))) /\
   @codec_route_key demo_lib JsonBodyCodec demo_packet = Some (mkKey 2 "move")).
Proof.
  apply (@json_codec_roundtrip demo_lib demo_body (named 2 "move") demo_packet
           (JObj [("hp", JUInt 7)]) demo_text); try reflexivity; vm_compute; split; congruence.
Defined.
