(* ===== verification/Pipeline.v ===== *)
(** * Pipeline: [ProtocolPipeline] (src/transport/protocol.cpp)

    The object that a session owns: an envelope, a route table and a codec
    registry.  [feed] turns received bytes into dispatch results,
    [encode_message] turns a business message into bytes. *)

From S2P Require Import Prelude Text Index Stream Wire Envelope Routes Json Codec.

(** [DispatchResult]; the route pointer is null or leads to the entry. *)
Record DispatchResult := mkResult {
  dr_packet : Packet;
  dr_route : option RouteEntry;
  dr_action : RouteAction;
  dr_decoded_body : option DecodedBody;
  dr_error : string
}.

Definition default_result : DispatchResult := mkResult default_packet None Drop None "".

Definition ok (r : DispatchResult) : bool := str_empty (dr_error r).
Definition should_forward_raw (r : DispatchResult) : bool := bool_decide (dr_action r = ForwardRaw).
Definition should_drop (r : DispatchResult) : bool :=
  bool_decide (dr_action r = Drop) && str_empty (dr_error r).
Definition decoded (r : DispatchResult) : bool := bool_decide (is_Some (dr_decoded_body r)).

Record ProtocolPipeline := mkPipeline {
  profile_ : ProtocolProfile;
  envelope_ : option EnvelopeObj;
  pl_routes : RouteTable;
  pl_codecs : BodyCodecRegistry;
  pl_error : string
}.

(** The constructor; [create_envelope] knows every kind. *)
Definition pipeline_make (profile : ProtocolProfile) (routes : RouteTable)
    (codecs : BodyCodecRegistry) : ProtocolPipeline :=
  mkPipeline profile (Some (create_envelope (pp_envelope_kind profile) (pp_envelope profile)))
    routes codecs "".

Definition with_envelope (p : ProtocolPipeline) (o : EnvelopeObj) (e : string)
  : ProtocolPipeline :=
  mkPipeline (profile_ p) (Some o) (pl_routes p) (pl_codecs p) e.

Definition with_error (p : ProtocolPipeline) (e : string) : ProtocolPipeline :=
  mkPipeline (profile_ p) (envelope_ p) (pl_routes p) (pl_codecs p) e.

Definition codec_for_route (p : ProtocolPipeline) (route : RouteEntry) : option BodyCodec :=
  BodyCodecRegistry.find (pl_codecs p) (pp_default_codec_id (profile_ p)).

Definition default_codec_name (p : ProtocolPipeline) : string :=
  match BodyCodecRegistry.find (pl_codecs p) (pp_default_codec_id (profile_ p)) with
  | Some c => codec_name c
  | None => ""
  end.

Definition pipeline_reset (p : ProtocolPipeline) : ProtocolPipeline :=
  mkPipeline (profile_ p) (option_map env_reset (envelope_ p)) (pl_routes p) (pl_codecs p) "".

Definition set_route_id (p : Packet) (id : Z) : Packet :=
  mkPacket id (pk_kind p) (pk_flags p) (pk_seq p) (pk_body p) (pk_raw_frame p).

Section Pipeline.
Context `{JsonLib}.

(** [resolve_route]: the packet, whose route number it may set, the error it
    stores in the result, and the route. *)
Definition resolve_route (p : ProtocolPipeline) (packet : Packet)
  : Packet * string * option RouteEntry :=
  let header_route :=
    if negb (pk_route_id packet =? 0) then RouteTable.find (pl_routes p) (pk_route_id packet)
    else None in
  match header_route with
  | Some route => (packet, "", Some route)
  | None =>
      if bool_decide (pp_route_source (profile_ p) <> SourceBody) ||
         negb (pp_decode_body_route (profile_ p))
      then (packet, "", None)
      else
        match BodyCodecRegistry.find (pl_codecs p) (pp_default_codec_id (profile_ p)) with
        | None => (packet, "default body codec is not registered", None)
        | Some codec =>
            match codec_route_key codec packet with
            | None => (packet, "", None)
            | Some key =>
                if key_empty key then (packet, "", None)
                else if negb (key_route_id key =? 0) then
                  (set_route_id packet (key_route_id key), "",
                   RouteTable.find (pl_routes p) (key_route_id key))
                else if negb (str_empty (key_route_name key)) then
                  match RouteTable.find_by_name (pl_routes p) (key_route_name key) with
                  | Some route => (set_route_id packet (re_route_id route), "", Some route)
                  | None => (packet, "", None)
                  end
                else (packet, "", None)
            end
        end
  end.

(** The body of the loop over the packets in [feed]. *)
Definition dispatch (p : ProtocolPipeline) (packet0 : Packet) : DispatchResult :=
  let '(packet, err, route) := resolve_route p packet0 in
  if negb (str_empty err) then mkResult packet route Drop None err
  else
    match route with
    | None => mkResult packet None (pp_unknown_route_action (profile_ p)) None ""
    | Some r =>
        let action := rp_action (re_policy r) in
        let should_decode :=
          bool_decide (action = DecodeLocal) &&
          (pp_decode_before_dispatch (profile_ p) || negb (rp_lazy_decode (re_policy r))) in
        if bool_decide (action = Drop) || negb should_decode then
          mkResult packet (Some r) action None ""
        else
          match codec_for_route p r with
          | None => mkResult packet (Some r) action None "body codec is not registered"
          | Some codec =>
              match codec_decode codec packet r with
              | inr body => mkResult packet (Some r) action (Some body) ""
              | inl ex =>
                  mkResult packet (Some r) action None ("body decode failed: " +:+ exn_what ex)
              end
          end
    end.

(** [feed]: when the envelope reports an error, the packets it returned with
    the error are dropped. *)
Definition feed (p : ProtocolPipeline) (d : Span) : list DispatchResult * ProtocolPipeline :=
  match envelope_ p with
  | None =>
      let e := "protocol envelope is not configured" in
      ([mkResult default_packet None Drop None e], with_error p e)
  | Some o =>
      let '(packets, o') := env_feed o d in
      if has_error (env_state o') then
        let e := error_ (env_state o') in
        ([mkResult default_packet None Drop None e], with_envelope p o' e)
      else (map (dispatch p) packets, with_envelope p o' "")
  end.

Definition encode (p : ProtocolPipeline) (packet : Packet) : list byte * ProtocolPipeline :=
  match envelope_ p with
  | None => ([], with_error p "protocol envelope is not configured")
  | Some o =>
      let '(encoded, o') := env_encode o packet in
      (encoded,
       with_envelope p o' (if has_error (env_state o') then error_ (env_state o') else ""))
  end.

Definition body_with (b : DecodedBody) (id : Z) (name : string) : DecodedBody :=
  mkBody id (db_codec_id b) (db_schema_id b) name (db_bytes b) (db_message b).

(** The name a body keeps, or takes over from the route it resolved to. *)
Definition name_or (b : DecodedBody) (route : RouteEntry) : string :=
  if str_empty (db_route_name b) then re_debug_name route else db_route_name b.

(** A route number in the message. *)
Definition by_message_id (p : ProtocolPipeline) (b : DecodedBody) (k : string) (message : json)
  : option (DecodedBody * RouteEntry) :=
  match unsigned_field k message with
  | Some id =>
      match RouteTable.find (pl_routes p) id with
      | Some route => Some (body_with b id (name_or b route), route)
      | None => None
      end
  | None => None
  end.

(** A route name in the message. *)
Definition by_message_name (p : ProtocolPipeline) (b : DecodedBody) (k : string) (message : json)
  : option (DecodedBody * RouteEntry) :=
  match string_field k message with
  | Some name =>
      match RouteTable.find_by_name (pl_routes p) name with
      | Some route => Some (body_with b (re_route_id route) name, route)
      | None => None
      end
  | None => None
  end.

(** The attempts on [body.route_id] and [body.route_name]. *)
Definition by_body (p : ProtocolPipeline) (b : DecodedBody) : option (DecodedBody * RouteEntry) :=
  match (if negb (db_route_id b =? 0) then RouteTable.find (pl_routes p) (db_route_id b) else None) with
  | Some route => Some (body_with b (db_route_id b) (name_or b route), route)
  | None =>
      if negb (str_empty (db_route_name b)) then
        match RouteTable.find_by_name (pl_routes p) (db_route_name b) with
        | Some route => Some (body_with b (re_route_id route) (db_route_name b), route)
        | None => None
        end
      else None
  end.

(** The attempts on the fields of the message, in the source's order. *)
Definition by_message (p : ProtocolPipeline) (b : DecodedBody) : option (DecodedBody * RouteEntry) :=
  match db_message b with
  | Some message =>
      if is_object message then
        first_some (by_message_id p b "route_id" message)
          (first_some (by_message_id p b "msg_id" message)
             (first_some (by_message_name p b "route" message)
                (by_message_name p b "method" message)))
      else None
  | None => None
  end.

(** [saw_route_hint] after all attempts. *)
Definition saw_route_hint (b : DecodedBody) : bool :=
  negb (db_route_id b =? 0) || negb (str_empty (db_route_name b)) ||
  match db_message b with Some m => message_contains_route_hint m | None => false end.

Definition by_only_route (p : ProtocolPipeline) (b : DecodedBody)
  : option (DecodedBody * RouteEntry) :=
  if negb (saw_route_hint b) then
    match RouteTable.only (pl_routes p) with
    | Some route => Some (body_with b (re_route_id route) (name_or b route), route)
    | None => None
    end
  else None.

(** [resolve_outbound_route]: the body it completes, and the route. *)
Definition resolve_outbound_route (p : ProtocolPipeline) (b : DecodedBody)
  : option (DecodedBody * RouteEntry) :=
  first_some (by_body p b) (first_some (by_message p b) (by_only_route p b)).

Definition encode_message (p : ProtocolPipeline) (b : DecodedBody)
  : list byte * ProtocolPipeline :=
  match envelope_ p with
  | None => ([], with_error p "protocol envelope is not configured")
  | Some _ =>
      match resolve_outbound_route p b with
      | None => ([], with_error p "failed to resolve outbound route")
      | Some (body, route) =>
          match codec_for_route p route with
          | None => ([], with_error p "body codec is not registered")
          | Some codec =>
              match codec_encode codec body route with
              | inl ex => ([], with_error p ("body encode failed: " +:+ exn_what ex))
              | inr body_bytes =>
                  encode p (mkPacket (re_route_id route) (packet_kind_value (re_kind route)) 0 0
                              body_bytes [])
              end
          end
      end
  end.

Definition set_result (r : DispatchResult) (b : option DecodedBody) (e : string)
  : DispatchResult :=
  mkResult (dr_packet r) (dr_route r) (dr_action r) b e.

Definition materialize_decode (p : ProtocolPipeline) (r : DispatchResult)
  : bool * DispatchResult :=
  if negb (ok r) || bool_decide (dr_action r <> DecodeLocal) then (ok r, r)
  else if decoded r then (true, r)
  else
    match dr_route r with
    | None => (false, set_result r None "decode_local dispatch is missing route metadata")
    | Some route =>
        match codec_for_route p route with
        | None => (false, set_result r None "body codec is not registered")
        | Some codec =>
            match codec_decode codec (dr_packet r) route with
            | inr body => (true, set_result r (Some body) "")
            | inl ex => (false, set_result r None ("body decode failed: " +:+ exn_what ex))
            end
        end
    end.

(** A sequence of [feed] calls on one pipeline. *)
Fixpoint pipeline_feed_all (p : ProtocolPipeline) (chunks : list (list byte))
  : list DispatchResult * ProtocolPipeline :=
  match chunks with
  | [] => ([], p)
  | c :: cs =>
      let '(rs, p1) := feed p (Data c) in
      let '(rs', p2) := pipeline_feed_all p1 cs in
      (rs ++ rs', p2)
  end.

End Pipeline.

(** ** Routing *)

Section Routing.
Context `{JsonLib}.

(** The table's routes have the numbers that the wire can carry. *)
Definition routes_in_range (t : RouteTable) : Prop :=
  forall id e, RouteTable.find t id = Some e -> 0 < re_route_id e < 2 ^ 32.

Lemma first_some_inv {A} (a b : option A) x : first_some a b = Some x -> a = Some x \/ b = Some x.
Proof. destruct a; cbn; auto. Qed.

(** An outbound route is one of the table, filed under its number, and the body
    keeps its content. *)
Lemma resolve_outbound_sound p b b' route :
  table_sound (pl_routes p) -> resolve_outbound_route p b = Some (b', route) ->
  RouteTable.find (pl_routes p) (re_route_id route) = Some route /\
  db_message b' = db_message b /\ db_bytes b' = db_bytes b.
Proof.
  intros Ht Hr. pose proof Ht as [Hk _].
  assert (forall id, RouteTable.find (pl_routes p) id = Some route ->
            RouteTable.find (pl_routes p) (re_route_id route) = Some route) as Hid.
  { intros id Hf. by rewrite (Hk _ _ Hf). }
  assert (forall n, RouteTable.find_by_name (pl_routes p) n = Some route ->
            RouteTable.find (pl_routes p) (re_route_id route) = Some route) as Hname.
  { intros n Hf. by destruct (find_by_name_sound _ _ _ Ht Hf) as (_ & _ & ?). }
  unfold resolve_outbound_route in Hr.
  apply first_some_inv in Hr as [Hr|Hr]; [|apply first_some_inv in Hr as [Hr|Hr]].
  - unfold by_body in Hr. destruct (negb (db_route_id b =? 0)); [|]; repeat case_in Hr; simplify_eq; eauto.
  - unfold by_message in Hr. destruct (db_message b) as [m|] eqn:Em; [|done].
    destruct (is_object m); [|done].
    apply first_some_inv in Hr as [Hr|Hr]; [|apply first_some_inv in Hr as [Hr|Hr];
      [|apply first_some_inv in Hr as [Hr|Hr]]];
      unfold by_message_id, by_message_name in Hr; repeat case_in Hr; simplify_eq; eauto.
  - unfold by_only_route in Hr. repeat case_in Hr; simplify_eq.
    apply only_spec in E0 as [id E0]. split; [|done]. apply (Hid id).
    unfold RouteTable.find. rewrite E0. apply lookup_singleton_eq.
Qed.

(** How the receiver learns the route: from the header, or from the body. *)
Definition routable (p : ProtocolProfile) : Prop :=
  pp_envelope_kind p = IdLen \/ pp_envelope_kind p = TypeLen \/
  (pp_route_source p = SourceBody /\ pp_decode_body_route p = true).

(** The packet a result holds: the delivered one, with the route's number. *)
Definition routed_packet (k : EnvelopeKind) (route : RouteEntry) (body raw : list byte) : Packet :=
  set_route_id
    (delivered k (mkPacket (re_route_id route) (packet_kind_value (re_kind route)) 0 0 body []) raw)
    (re_route_id route).

Lemma resolve_delivered p route b m raw body_bytes :
  let packet := mkPacket (re_route_id route) (packet_kind_value (re_kind route)) 0 0 body_bytes [] in
  let k := pp_envelope_kind (profile_ p) in
  0 < re_route_id route < 2 ^ 32 ->
  RouteTable.find (pl_routes p) (re_route_id route) = Some route ->
  BodyCodecRegistry.find (pl_codecs p) (pp_default_codec_id (profile_ p)) = Some JsonBodyCodec ->
  json_parse body_bytes = inr (wrap_message b route m) -> routable (profile_ p) ->
  resolve_route p (delivered k packet raw) = (routed_packet k route body_bytes raw, "", Some route).
Proof.
  intros packet k Hr Hf Hc Hp Hroute.
  assert ((re_route_id route =? 0) = false) as H0 by (apply Z.eqb_neq; lia).
  assert (forall q, pk_route_id q = re_route_id route ->
            resolve_route p q = (set_route_id q (re_route_id route), "", Some route)) as Hheader.
  { intros q Hq. unfold resolve_route. rewrite Hq, H0. cbn [negb]. rewrite Hf.
    unfold set_route_id. rewrite <- Hq. by destruct q. }
  unfold routed_packet. fold packet. subst k.
  destruct (pp_envelope_kind (profile_ p)) eqn:Ek; cbn [delivered].
  2: { by apply Hheader. }
  2: { apply Hheader. cbn [pk_route_id packet]. by rewrite H0. }
  all: unfold resolve_route; cbn [pk_route_id]; change (negb (0 =? 0)) with false; cbn iota.
  all: destruct Hroute as [?|[?|[Hs Hb]]]; [congruence|congruence|].
  all: rewrite Hs, Hb, bool_decide_eq_false_2 by (intros X; by apply X); cbn [orb negb].
  all: rewrite Hc; erewrite json_key_wrapped; [|exact Hr|exact Hp].
  all: unfold key_empty; cbn [key_route_id]; rewrite H0; cbn [andb negb]; by rewrite Hf.
Qed.

(** What the receiver decodes from a wrapped message. *)
Definition decoded_as (b : DecodedBody) (route : RouteEntry) (bytes : list byte) (m : json)
  : DecodedBody :=
  mkBody (re_route_id route) (re_codec_id route) (re_schema_id route) (wire_name b route) bytes
    (Some m).

(** Received without error, on the route it was sent on, with the action of the
    route, and, when the route is decoded here, with the message, at the latest
    when [materialize_decode] asks for it. *)
Definition received (p : ProtocolPipeline) (b : DecodedBody) (route : RouteEntry)
    (body_bytes : list byte) (m : json) (r : DispatchResult) : Prop :=
  dr_error r = "" /\ dr_route r = Some route /\ dr_action r = rp_action (re_policy route) /\
  pk_route_id (dr_packet r) = re_route_id route /\ pk_body (dr_packet r) = body_bytes /\
  (rp_action (re_policy route) = DecodeLocal ->
   exists r', materialize_decode p r = (true, r') /\
     dr_decoded_body r' = Some (decoded_as b route body_bytes m)).

Lemma dispatch_delivered p route b m raw body_bytes :
  let packet := mkPacket (re_route_id route) (packet_kind_value (re_kind route)) 0 0 body_bytes [] in
  let k := pp_envelope_kind (profile_ p) in
  0 < re_route_id route < 2 ^ 32 ->
  RouteTable.find (pl_routes p) (re_route_id route) = Some route ->
  BodyCodecRegistry.find (pl_codecs p) (pp_default_codec_id (profile_ p)) = Some JsonBodyCodec ->
  json_parse body_bytes = inr (wrap_message b route m) -> routable (profile_ p) ->
  received p b route body_bytes m (dispatch p (delivered k packet raw)).
Proof.
  intros packet k Hr Hf Hc Hp Hroute. unfold dispatch.
  pose proof (resolve_delivered p route b m raw body_bytes Hr Hf Hc Hp Hroute) as E.
  cbv zeta in E. fold packet k in E. rewrite E. clear E. cbn [str_empty negb].
  set (q := routed_packet k route body_bytes raw).
  assert (pk_body q = body_bytes /\ pk_route_id q = re_route_id route) as [Hq Hqi]
    by (unfold q; split; [by destruct k|done]).
  assert (codec_decode JsonBodyCodec q route = inr (decoded_as b route body_bytes m)) as Hdec.
  { rewrite (json_decode_wrapped b route q m) by (rewrite ?Hq; done). by rewrite Hq. }
  unfold codec_for_route. rewrite Hc, Hdec.
  assert (forall r, dr_packet r = q -> dr_route r = Some route -> dr_error r = "" ->
    dr_action r = rp_action (re_policy route) ->
    (dr_decoded_body r = None \/ dr_decoded_body r = Some (decoded_as b route body_bytes m)) ->
    received p b route body_bytes m r) as Hall.
  { intros r Hpk Hro He Ha Hd. unfold received. rewrite Hpk, Hq, Hqi. repeat (split; [done|]).
    intros Hl. unfold materialize_decode, ok, decoded, codec_for_route.
    rewrite He, Hro, Ha, Hl, bool_decide_eq_false_2 by (intros X; by apply X). cbn [str_empty negb orb].
    destruct Hd as [Hd|Hd]; rewrite Hd; [|by exists r].
    rewrite bool_decide_eq_false_2 by (by intros [? ?]). rewrite Hc, Hpk, Hdec. eauto. }
  case_head; apply Hall; cbn; auto.
Qed.

(** [dispatch] does not look at the envelope or the stored error. *)
Lemma dispatch_envelope p o e : dispatch (with_envelope p o e) = dispatch p.
Proof. reflexivity. Qed.

(** Error-free chunks give the dispatch of the packets of the whole stream. *)
Lemma pipeline_feed_concat p o chunks ps o' :
  envelope_ p = Some o -> pl_error p = "" ->
  env_feed o (Data []) = ([], o) -> has_error (env_state o) = false ->
  env_feed o (Data (concat chunks)) = (ps, o') -> has_error (env_state o') = false ->
  pipeline_feed_all p chunks = (map (dispatch p) ps, with_envelope p o' "").
Proof.
  revert p o ps o'. induction chunks as [|c cs IH]; intros p o ps o' Hp Hpe Hid Ho Hf He; cbn in *.
  - rewrite Hid in Hf. simplify_eq. destruct p; cbn in *; by subst.
  - unfold feed. rewrite Hp. destruct (env_feed o (Data c)) as [ps1 o1] eqn:E1.
    destruct (has_error (env_state o1)) eqn:He1.
    + rewrite (env_feed_app_error _ _ (concat cs) _ _ E1 He1 Ho Hid) in Hf. congruence.
    + rewrite (env_feed_app _ _ _ _ _ E1 He1) in Hf.
      destruct (env_feed o1 (Data (concat cs))) as [ps2 o2] eqn:E2. simplify_eq.
      rewrite (IH (with_envelope p o1 "") o1 ps2 o') by (try done; by eapply env_feed_idle).
      by rewrite dispatch_envelope, map_app.
Qed.

(** The sender's side of one message: the route it resolved, the wrapped
    document it printed, and the frame that [encode_message] returned. *)
Definition sent (p : ProtocolPipeline) (b : DecodedBody) (frame : list byte)
    (b' : DecodedBody) (route : RouteEntry) (m : json) (text : string) : Prop :=
  resolve_outbound_route p b = Some (b', route) /\
  business_message b = Some m /\ message_contains_route_hint m = false /\
  json_dump (wrap_message b' route m) = inr text /\
  json_parse (bytes_of text) = inr (wrap_message b' route m) /\
  slen text + 16 <= size_max /\
  (forall o, envelope_ p = Some o ->
     (0 < max_frame_size (config_ (env_state o)) -> slen text <= max_frame_size (config_ (env_state o))) /\
     (env_kind o = Delimiter ->
      DelimiterEnvelope.find (delimiter (config_ (env_state o))) (bytes_of text) = None)) /\
  exists p', encode_message p b = (frame, p') /\ pl_error p' = "".

(** The packet that [encode_message] hands to the envelope. *)
Definition outbound_packet (route : RouteEntry) (text : string) : Packet :=
  mkPacket (re_route_id route) (packet_kind_value (re_kind route)) 0 0 (bytes_of text) [].

Lemma vsize_bytes_of s : vsize (bytes_of s) = slen s.
Proof.
  unfold vsize, slen, bytes_of, String.list_byte_of_string. rewrite length_map.
  f_equal. induction s; cbn; congruence.
Qed.

Lemma packet_kind_range k : 0 <= packet_kind_value k < 2 ^ 16.
Proof. by destruct k. Qed.

(** A message that was sent is a packet that the envelope accepted. *)
Lemma sent_packet profile routes codecs b frame b' route m text :
  let p := pipeline_make profile routes codecs in
  let o := create_envelope (pp_envelope_kind profile) (pp_envelope profile) in
  table_sound routes -> routes_in_range routes ->
  BodyCodecRegistry.find codecs (pp_default_codec_id profile) = Some JsonBodyCodec ->
  sent p b frame b' route m text ->
  sendable (pp_envelope_kind profile) (config_ (env_state o)) (outbound_packet route text) /\
  exists o', env_encode o (outbound_packet route text) = (frame, o') /\
    has_error (env_state o') = false.
Proof.
  intros p o Ht Hr Hc (Hres & Hb & Hh & Hd & Hp & Hsz & Hlim & p' & He & Herr).
  destruct (resolve_outbound_sound p b b' route Ht Hres) as (Hf & Hm & Hby).
  assert (business_message b' = Some m) as Hb' by (unfold business_message in *; by rewrite Hm, Hby).
  specialize (Hlim o eq_refl) as [Hmax Hdel]. specialize (Hr _ _ Hf). split.
  - unfold sendable, outbound_packet. cbn [pk_route_id pk_kind pk_body]. rewrite vsize_bytes_of.
    pose proof (packet_kind_range (re_kind route)). split_and!; try lia; auto.
  - unfold encode_message in He. cbn [envelope_ pipeline_make p] in He. rewrite Hres in He.
    unfold codec_for_route in He. cbn [pl_codecs profile_ pipeline_make p] in He. rewrite Hc in He.
    rewrite (json_encode_wrapped _ _ _ _ Hb' Hh Hd) in He. unfold encode in He.
    cbn [envelope_ pipeline_make p] in He. fold o (outbound_packet route text) in He.
    destruct (env_encode o (outbound_packet route text)) as [bs o'].
    injection He as <- <-. exists o'. split; [done|]. cbn [pl_error with_envelope] in Herr.
    destruct (has_error (env_state o')) eqn:E; [|done].
    unfold has_error in E. bools. rewrite Herr in E. done.
Qed.

Lemma Forall_choose {A B} (P : A -> B -> Prop) l :
  Forall (fun a => exists b, P a b) l -> exists bs, Forall2 P l bs.
Proof. induction 1 as [|a l [b Hb] _ [bs IH]]; eauto. Qed.

(** A stream that the sender's envelope accepted, decoded in one call. *)
Lemma one_feed k cfg (l : list (Packet * list byte)) :
  let o := create_envelope k cfg in
  Forall (fun '(q, bs) => sendable k (config_ (env_state o)) q /\
            exists o', env_encode o q = (bs, o') /\ has_error (env_state o') = false) l ->
  env_widths_ok k (config_ (env_state o)) = true ->
  env_feed o (Data (concat (map snd l))) = (map (fun '(q, bs) => delivered k q bs) l, o) /\
  has_error (env_state o) = false.
Proof.
  intros o Hl W. split; [|by destruct k].
  pose proof (stream_delivered k cfg l [concat (map snd l)] Hl W (app_nil_r _)) as E.
  fold o in E. cbn [feed_all] in E. destruct (env_feed o _) as [ps o1].
  rewrite app_nil_r in E. exact E.
Qed.

(** The message behind a packet of the stream. *)
Definition carries (p : ProtocolPipeline) (bf : DecodedBody * list byte)
    (qbs : Packet * list byte) : Prop :=
  exists b' route m text, sent p bf.1 bf.2 b' route m text /\
    qbs = (outbound_packet route text, bf.2).

Lemma carries_frames p msgs l : Forall2 (carries p) msgs l -> map snd l = map snd msgs.
Proof.
  induction 1 as [|[b f] q msgs l (b' & route & m & text & _ & ->) _ IH]; cbn; congruence.
Qed.

(** C3: what one pipeline sends, a pipeline of the same configuration
    receives.  Business messages that [encode_message] accepted, sent over a
    stream cut at arbitrary points, arrive in order and without error, each on
    the route it was sent on and with the message unchanged; the receiver ends
    in its initial state.  This holds for every envelope, for routes resolved
    from the header and from the body. *)
Theorem pipeline_roundtrip profile routes codecs (msgs : list (DecodedBody * list byte)) chunks :
  let p := pipeline_make profile routes codecs in
  table_sound routes -> routes_in_range routes -> routable profile ->
  BodyCodecRegistry.find codecs (pp_default_codec_id profile) = Some JsonBodyCodec ->
  env_widths_ok (pp_envelope_kind profile)
    (config_ (env_state (create_envelope (pp_envelope_kind profile) (pp_envelope profile)))) = true ->
  Forall (fun '(b, frame) => exists b' route m text, sent p b frame b' route m text) msgs ->
  concat chunks = concat (map snd msgs) ->
  exists results, pipeline_feed_all p chunks = (results, p) /\
    Forall2 (fun '(b, frame) r => exists b' route m text,
               sent p b frame b' route m text /\ received p b' route (bytes_of text) m r)
      msgs results.
Proof.
  intros p Ht Hr Hro Hc W HF Hch. set (k := pp_envelope_kind profile) in *.
  set (o := create_envelope k (pp_envelope profile)) in *.
  destruct (Forall_choose (carries p) msgs) as [l Hl].
  { eapply Forall_impl; [|exact HF]. intros [b f] (b' & route & m & text & Hs).
    exists (outbound_packet route text, f), b', route, m, text. done. }
  rewrite <- (carries_frames _ _ _ Hl) in Hch.
  assert (Forall (fun '(q, bs) => sendable k (config_ (env_state o)) q /\
            exists o', env_encode o q = (bs, o') /\ has_error (env_state o') = false) l) as Hok.
  { clear Hch HF. induction Hl as [|[b f] q msgs l (b' & route & m & text & Hs & ->) _ IH];
      constructor; auto. by apply (sent_packet profile routes codecs b f b' route m text). }
  destruct (one_feed k (pp_envelope profile) l Hok W) as [Hfeed Ho].
  destruct (one_feed k (pp_envelope profile) [] (Forall_nil _) W) as [Hid _].
  fold o in Hfeed, Ho, Hid. rewrite <- Hch in Hfeed.
  exists (map (dispatch p) (map (fun '(q, bs) => delivered k q bs) l)). split.
  { by apply (pipeline_feed_concat p o). }
  clear Hch Hfeed Hok HF. induction Hl as [|[b f] q msgs l (b' & route & m & text & Hs & ->) _ IH];
    cbn [map]; constructor; [|done]. exists b', route, m, text. split; [done|].
  destruct Hs as (Hres & _ & _ & _ & Hp & _).
  destruct (resolve_outbound_sound p b b' route Ht Hres) as (Hf & _). cbn [fst snd].
  apply (dispatch_delivered p route b' m f (bytes_of text)); auto. by apply (Hr _ _ Hf).
Qed.

End Routing.

(** A pipeline that frames with a length prefix and routes by the body. *)
Definition demo_profile : ProtocolProfile :=
  mkProfile "demo" LenPrefix default_config 1 SourceBody Drop true false.

Definition demo_codecs : BodyCodecRegistry :=
  (BodyCodecRegistry.add registry_empty 1 (Some JsonBodyCodec)).2.

Definition demo_pipeline : ProtocolPipeline := pipeline_make demo_profile two_routes demo_codecs.

Definition demo_message : DecodedBody := mkBody 2 0 0 "" [] (Some (JObj [("hp", JUInt 7)])).

Definition demo_frame : list byte :=
  [Byte.x00; Byte.x00; Byte.x00; Byte.x05] ++ bytes_of demo_text.

Lemma two_routes_in_range : table_sound two_routes /\ routes_in_range two_routes.
Proof.
  split.
  - apply reachable_ok. apply (reach_add _ (named 2 "move")), reach_upsert; [apply reach_empty|].
    intros id H. vm_compute in H. discriminate.
  - intros id e He.
    change (routes_ two_routes !! id = Some e) in He.
    assert (routes_ two_routes = <[2 := named 2 "move"]> (<[1 := named 1 "login"]> ∅)) as E
      by reflexivity.
    rewrite E in He. apply lookup_insert_Some in He as [[_ <-]|[_ He]]; [cbn; lia|].
    apply lookup_insert_Some in He as [[_ <-]|[_ He]]; [cbn; lia|]. by rewrite lookup_empty in He.
Qed.

Lemma pipeline_roundtrip_witness :
  exists results,
    @pipeline_feed_all demo_lib demo_pipeline [take 3 demo_frame; drop 3 demo_frame ++ demo_frame]
      = (results, demo_pipeline) /\
    Forall2 (fun '(b, frame) r => exists b' route m text,
               @sent demo_lib demo_pipeline b frame b' route m text /\
               @received demo_lib demo_pipeline b' route (bytes_of text) m r)
      [(demo_message, demo_frame); (demo_message, demo_frame)] results.
Proof.
  apply (@pipeline_roundtrip demo_lib demo_profile two_routes demo_codecs
           [(demo_message, demo_frame); (demo_message, demo_frame)]
           [take 3 demo_frame; drop 3 demo_frame ++ demo_frame]).
  - apply two_routes_in_range.
  - apply two_routes_in_range.
  - right. right. split; reflexivity.
  - reflexivity.
  - reflexivity.
  - assert (exists b' route m text,
              @sent demo_lib demo_pipeline demo_message demo_frame b' route m text) as Hs.
    { exists (mkBody 2 0 0 "move" [] (Some (JObj [("hp", JUInt 7)]))), (named 2 "move"),
        (JObj [("hp", JUInt 7)]), demo_text.
      repeat (split; [vm_compute; congruence|]). split.
      - intros o Ho. injection Ho as <-. vm_compute. split; congruence.
      - exists demo_pipeline. split; vm_compute; reflexivity. }
    repeat constructor; exact Hs.
  - reflexivity.
Defined.

(** ** Dispatch *)

Section Dispatch.
Context `{JsonLib}.

Lemma resolve_route_sound p packet packet' err route :
  table_sound (pl_routes p) -> resolve_route p packet = (packet', err, Some route) ->
  err = "" /\ RouteTable.find (pl_routes p) (pk_route_id packet') = Some route /\
  pk_body packet' = pk_body packet.
Proof.
  intros Ht Hr. unfold resolve_route in Hr. repeat case_in Hr; simplify_eq; cbn; auto.
  all: match goal with
       | E : RouteTable.find_by_name _ _ = Some _ |- _ => apply find_by_name_sound in E; naive_solver
       end.
Qed.

(** C4: dispatch never acts outside of the route table.  For every packet,
    whatever its bytes and whatever the codec does: the body is untouched; a
    result that names a route names the one filed under the packet's final
    number and, when it is no error, carries that route's action; a result
    without a route and without an error takes the profile's action for
    unknown routes; and a decoded body is present only on such a route's
    [DecodeLocal]. *)
Theorem dispatch_within_table p packet :
  table_sound (pl_routes p) ->
  let r := dispatch p packet in
  pk_body (dr_packet r) = pk_body packet /\
  (forall e, dr_route r = Some e ->
     RouteTable.find (pl_routes p) (pk_route_id (dr_packet r)) = Some e /\
     dr_action r = rp_action (re_policy e)) /\
  (dr_route r = None -> dr_error r = "" ->
     dr_action r = pp_unknown_route_action (profile_ p)) /\
  (decoded r = true -> exists e, dr_route r = Some e /\ dr_action r = DecodeLocal /\
     (pp_decode_before_dispatch (profile_ p) = true \/ rp_lazy_decode (re_policy e) = false)).
Proof.
  intros Ht r. subst r. unfold dispatch.
  destruct (resolve_route p packet) as [[packet' err] route] eqn:Er.
  assert (pk_body packet' = pk_body packet) as Hb.
  { unfold resolve_route in Er. repeat case_in Er; by simplify_eq. }
  destruct route as [e|].
  - destruct (resolve_route_sound _ _ _ _ _ Ht Er) as (-> & Hf & _). cbn [str_empty negb].
    case_head.
    + cbn. split_and!; [done| |done|done]. intros e' He. by simplify_eq.
    + apply orb_false_iff in E as [_ E]. bools. apply bool_decide_eq_true in H0.
      apply orb_true_iff in H1.
      assert (pp_decode_before_dispatch (profile_ p) = true \/ rp_lazy_decode (re_policy e) = false)
        as Hd by (destruct H1; [by left|right; by bools]).
      repeat case_head; cbn; (split_and!; [done| |done|]); try (intros e' He; by simplify_eq);
        try done; eauto.
  - case_head; cbn; (split_and!; [done|done| |done]); [|done].
    intros _ ->. done.
Qed.

(** The number in a body is read modulo [2^32]: a message for route
    [2^32 + n] is dispatched as one for route [n]. *)
Lemma body_route_id_wraps z :
  structured_route_key (JObj [("route_id", JUInt z)]) =
    if u32 z =? 0 then None else Some (mkKey (u32 z) "").
Proof.
  unfold structured_route_key, unsigned_field, string_field, key_empty. cbn.
  by destruct (u32 z =? 0).
Qed.

End Dispatch.

Lemma dispatch_within_table_witness :
  let r := @dispatch demo_lib demo_pipeline demo_packet in
  pk_body (dr_packet r) = pk_body demo_packet /\
  (forall e, dr_route r = Some e ->
     RouteTable.find two_routes (pk_route_id (dr_packet r)) = Some e /\
     dr_action r = rp_action (re_policy e)) /\
  (dr_route r = None -> dr_error r = "" -> dr_action r = Drop) /\
  (decoded r = true -> exists e, dr_route r = Some e /\ dr_action r = DecodeLocal /\
     (false = true \/ rp_lazy_decode (re_policy e) = false)).
Proof.
  apply (@dispatch_within_table demo_lib demo_pipeline demo_packet). apply two_routes_in_range.
Defined.
