(* ===== verification/Build.v ===== *)
(** * Build: [build_protocol_pipeline_from_json] (src/transport/protocol.cpp)

    The pipeline builder section by section.  It returns a null pointer, with or
    without an error text, or a pipeline; JSON exceptions are caught at the
    end. *)

From Stdlib Require Import Floats.SpecFloat.
From S2P Require Import Prelude Text Index Envelope Routes Xmldef Json Codec Pipeline.

(** ** The builder's results *)

(** [inl None]: null, [*error] untouched; [inl (Some e)]: null and [*error = e]. *)
Definition build (A : Type) : Type := outcome (option string + A).

Definition bret {A} (a : A) : build A := Ret (inr a).
Definition bfail {A} (e : string) : build A := Ret (inl (Some e)).
Definition blift {A} (m : outcome A) : build A := let! a := m in Ret (inr a).
Definition brequire {A} (o : option A) (e : string) : build A :=
  match o with Some a => bret a | None => bfail e end.

Definition bbind {A B} (m : build A) (k : A -> build B) : build B :=
  match m with
  | Ret (inr a) => k a
  | Ret (inl e) => Ret (inl e)
  | Throw e => Throw e
  | Undef => Undef
  end.

Notation "'do' x <- m ; k" := (bbind m (fun x => k))
  (at level 10, x name, m at level 100, k at level 200) : cpp_scope.

(** ** Environment *)

Definition parse_protocol_endian (v : json) : option Wire.Endian :=
  match v with
  | JStr text =>
      if str_in text ["big"; "be"] then Some Wire.Big
      else if str_in text ["little"; "le"] then Some Wire.Little
      else None
  | _ => None
  end.

Definition parse_route_source (v : string) : option RouteSource :=
  if str_in v ["header"; "header.route_id"; "header.msg_id"] then Some SourceHeader
  else if str_in v ["body"; "body.route"; "body.route_id"] then Some SourceBody
  else if String.eqb v "none" then Some SourceNone
  else None.

Definition default_route_source_for_envelope (k : EnvelopeKind) : RouteSource :=
  match k with IdLen | TypeLen => SourceHeader | LenPrefix | Delimiter => SourceBody end.

(** [ProtocolBuildOptions]; the resolver returns the plugin's table and the
    text it left in [resolver_error]. *)
Record ProtocolBuildOptions := mkBuildOptions {
  bo_source_dir : string;
  bo_fallback_max_frame_size : Z;
  bo_external_codec_resolver : option (string -> string -> option CodecVtable * string)
}.

(** [std::filesystem::path]: a relative path has no leading slash; [a / b]. *)
Definition path_is_relative (p : string) : bool :=
  match p with String "/"%char _ => false | _ => true end.

Fixpoint ends_with_slash (p : string) : bool :=
  match p with
  | "" => false
  | String c "" => Ascii.eqb c "/"%char
  | String _ r => ends_with_slash r
  end.

Definition path_join (a b : string) : string :=
  if ends_with_slash a then a +:+ b else a +:+ String "/" b.

Section Build.
Context `{JsonLib}.

(** The file system: the content of a file that can be opened. *)
Context (read_file : string -> option string).

Definition load_xmldef_routes_from_file (path : string) (routes : RouteTable)
    (options : XmldefCatalogOptions) : option string * RouteTable :=
  match read_file path with
  | None => (Some "failed to open xmldef catalog", routes)
  | Some text => load_xmldef_routes_from_string text routes options
  end.

(** ** Sections of the configuration *)

(** [if (j.contains(k)) { parsed = parse(j[k]); if (!parsed) fail; x = *parsed; }] *)
Definition opt_section {A} (j : json) (k : string) (parse : json -> build A) (dflt : A) : build A :=
  match get k j with Some v => parse v | None => bret dflt end.

(** As [opt_section], for values that are ignored unless they are strings. *)
Definition opt_string {A} (j : json) (k : string) (parse : string -> build A) (dflt : A) : build A :=
  match get k j with Some (JStr s) => parse s | _ => bret dflt end.

(** [static_cast<std::uint8_t>(delimiter.front())] *)
Definition delimiter_byte (s : string) (dflt : byte) : byte :=
  match bytes_of s with b :: _ => b | [] => dflt end.

Definition envelope_section (envelope : json) : build (EnvelopeKind * EnvelopeConfig) :=
  if is_object envelope then
    do kind <- opt_section envelope "type"
                 (fun v => do s <- blift (get_string v);
                           brequire (parse_envelope_kind s) "unknown network.protocol.envelope.type")
                 LenPrefix;
    do endian <- opt_section envelope "endian"
                   (fun v => brequire (parse_protocol_endian v)
                               "invalid network.protocol.envelope.endian") Wire.Big;
    do length_bytes <- blift (value get_int "length_bytes" 0 envelope);
    do route_id_bytes <- blift (value get_int "route_id_bytes" 0 envelope);
    do includes <- blift (value get_bool "length_includes_header" false envelope);
    let dflt := delimiter default_config in
    do delim <- opt_string envelope "delimiter" (fun s => bret (delimiter_byte s dflt)) dflt;
    do max_frame <- blift (value get_size "max_frame_size" 0 envelope);
    bret (kind, mkConfig endian (u8 length_bytes) (u8 route_id_bytes) includes delim max_frame
                  (route_source default_config))
  else bret (LenPrefix, default_config).

(** [if (max_frame_size == 0 && fallback > 0) max_frame_size = fallback] *)
Definition with_fallback (c : EnvelopeConfig) (fallback : Z) : EnvelopeConfig :=
  if (max_frame_size c =? 0) && (0 <? fallback) then
    mkConfig (endian c) (length_bytes c) (route_id_bytes c) (length_includes_header c)
      (delimiter c) fallback (route_source c)
  else c.

(** The external codec behind [body.provider]. *)
Definition resolve_provider (options : ProtocolBuildOptions) (provider codec : string)
  : build BodyCodec :=
  match bo_external_codec_resolver options with
  | None =>
      bfail ("network.protocol.body.provider is configured " +:+
             "but no external codec resolver is available")
  | Some resolver =>
      let '(external, resolver_error) := resolver provider codec in
      match external with
      | None =>
          bfail (if str_empty resolver_error then "failed to resolve network.protocol.body.provider"
                 else resolver_error)
      | Some v =>
          if negb (bool_decide (cv_codec_name v = Some codec)) then
            bfail "network.protocol.body.provider does not serve network.protocol.body.codec"
          else
            match cv_decode v, cv_encode v with
            | Some _, Some _ => bret (ExternalBodyCodec provider codec (Some v))
            | _, _ => bfail "network.protocol.body.provider has incomplete vtable"
            end
      end
  end.

Definition default_codec_id : Z := 1.

Definition body_section (options : ProtocolBuildOptions) (body : json) : build BodyCodec :=
  do body_codec <- blift (value get_string "codec" "raw" body);
  do body_provider <- blift (value get_string "provider" "" body);
  if negb (str_empty body_provider) then resolve_provider options body_provider body_codec
  else brequire (create_body_codec body_codec) "unsupported network.protocol.body.codec".

(** The members of the profile that [routing] sets: source, body routing,
    eager decoding and the action for unknown routes. *)
Definition routing_section (routing : json) (src : RouteSource)
  : build (RouteSource * bool * bool * RouteAction) :=
  if is_object routing then
    do source <- opt_string routing "source"
                   (fun s => brequire (parse_route_source s)
                               "invalid network.protocol.routing.source") src;
    do body_route <- blift (value get_bool "decode_body_route" true routing);
    do eager <- blift (value get_bool "decode_before_dispatch" false routing);
    do unknown <- opt_string routing "unknown_route_action"
                    (fun s => brequire (parse_action s)
                                "invalid network.protocol.routing.unknown_route_action") Drop;
    bret (source, body_route, eager, unknown)
  else bret (src, true, false, Drop).

(** The xmldef catalog that a configuration with that codec may name. *)
Definition catalog_section (options : ProtocolBuildOptions) (codec : BodyCodec)
    (body routing : json) : build RouteTable :=
  match get "catalog" body with
  | Some (JStr catalog) =>
      if String.eqb (codec_name codec) "xmldef" then
        do action <- opt_string routing "default_action"
                       (fun s => brequire (parse_action s)
                                   "invalid network.protocol.routing.default_action") DecodeLocal;
        do lazy_decode <- blift (value get_bool "lazy_decode" true routing);
        let path :=
          if path_is_relative catalog && negb (str_empty (bo_source_dir options))
          then path_join (bo_source_dir options) catalog else catalog in
        match load_xmldef_routes_from_file path table_empty
                (mkOptions default_codec_id action lazy_decode) with
        | (None, routes) => bret routes
        | (Some catalog_error, _) => bfail ("failed to load xmldef catalog: " +:+ catalog_error)
        end
      else bret table_empty
  | _ => bret table_empty
  end.

(** One element of [routes]; an unknown direction keeps the default. *)
Definition route_section (route : json) : build RouteEntry :=
  do id <- blift (value (get_uint 32) "id" 0 route);
  do dir <- blift (value get_string "direction" "c2s" route);
  let direction := default ClientToServer (parse_direction dir) in
  do requires_auth <- blift (value get_bool "requires_auth" true route);
  do codec_id <- blift (value (get_uint 16) "codec_id" default_codec_id route);
  do schema_id <- blift (value (get_uint 16) "schema_id" 0 route);
  do name <- blift (value get_string "name" "" route);
  do lazy_decode <- blift (value get_bool "lazy_decode" true route);
  do action <- opt_string route "action"
                 (fun s => brequire (parse_action s) "invalid network.protocol.routes.action")
                 DecodeLocal;
  if id =? 0 then bfail "network.protocol.routes[].id is required"
  else bret (mkRoute id direction requires_auth codec_id schema_id Message name
               (mkPolicy action lazy_decode)).

(** The check before [upsert]: no other route bears the name. *)
Definition add_route (routes : RouteTable) (entry : RouteEntry) : build RouteTable :=
  let taken :=
    negb (str_empty (re_debug_name entry)) &&
    match RouteTable.find_by_name routes (re_debug_name entry) with
    | Some named => negb (re_route_id named =? re_route_id entry)
    | None => false
    end in
  if taken then bfail "network.protocol.routes contains duplicate name"
  else bret (RouteTable.upsert routes entry).

Fixpoint routes_section (l : list json) (routes : RouteTable) : build RouteTable :=
  match l with
  | [] => bret routes
  | route :: l' =>
      if is_object route then
        do entry <- route_section route;
        do routes' <- add_route routes entry;
        routes_section l' routes'
      else routes_section l' routes
  end.

(** The body of the [try] block. *)
Definition build_from_config (config : json) (options : ProtocolBuildOptions)
  : build ProtocolPipeline :=
  if negb (is_object config) || json_empty config then Ret (inl None)
  else
    do name <- blift (value get_string "name" "" config);
    do envelope <- blift (value get_json "envelope" (JObj []) config);
    do kc <- envelope_section envelope;
    let '(kind, cfg0) := kc in
    let cfg := with_fallback cfg0 (bo_fallback_max_frame_size options) in
    do body <- blift (value get_json "body" (JObj []) config);
    do codec <- body_section options body;
    let codecs := (BodyCodecRegistry.add registry_empty default_codec_id (Some codec)).2 in
    do routing <- blift (value get_json "routing" (JObj []) config);
    do rs <- routing_section routing (default_route_source_for_envelope kind);
    let '(source, body_route, eager, unknown) := rs in
    do routes0 <- catalog_section options codec body routing;
    do routes <- match get "routes" config with
                 | Some (JArr l) => routes_section l routes0
                 | _ => bret routes0
                 end;
    bret (pipeline_make
            (mkProfile name kind cfg default_codec_id source unknown body_route eager)
            routes codecs).

(** The whole function: text that is no JSON gives null, JSON exceptions give
    an error text. *)
Definition build_protocol_pipeline_from_json (config_json : string)
    (options : ProtocolBuildOptions) : build ProtocolPipeline :=
  match json_parse (bytes_of config_json) with
  | inl _ => Ret (inl None)
  | inr config =>
      match build_from_config config options with
      | Throw (JsonExn what) => bfail ("invalid network.protocol: " +:+ what)
      | r => r
      end
  end.

(** The overload without a codec resolver. *)
Definition build_protocol_pipeline_simple (config_json source_dir : string) (fallback : Z)
  : build ProtocolPipeline :=
  build_protocol_pipeline_from_json config_json (mkBuildOptions source_dir fallback None).

(** ** Lemmas *)

Lemma bbind_ret {A B} (m : build A) (k : A -> build B) b :
  bbind m k = Ret (inr b) -> exists a, m = Ret (inr a) /\ k a = Ret (inr b).
Proof. destruct m as [[e|a]|e|]; cbn; naive_solver. Qed.

Lemma blift_ret {A} (m : outcome A) a : blift m = Ret (inr a) -> m = Ret a.
Proof. destruct m; cbn; naive_solver. Qed.

(** A value of the declared width, whatever the configuration holds. *)
Lemma value_uint_range w k d j n :
  0 < w -> 0 <= d < 2 ^ w -> value (get_uint w) k d j = Ret n -> 0 <= n < 2 ^ w.
Proof.
  intros Hw Hd Hv. unfold value, get_uint, type_error, float_cast in Hv.
  pose proof (fun z => cast_range w z ltac:(lia)).
  assert (2 <= 2 ^ w) by (pose proof (Z.pow_le_mono_r 2 1 w); lia).
  repeat case_in Hv; simplify_eq; eauto; bools; try lia. by destruct b; cbn; lia.
Qed.

Lemma route_section_range route e :
  route_section route = Ret (inr e) -> 0 < re_route_id e < 2 ^ 32.
Proof.
  unfold route_section. intros Hr.
  apply bbind_ret in Hr as (id & Hid & Hr).
  do 7 (apply bbind_ret in Hr as (? & _ & Hr)).
  apply blift_ret, value_uint_range in Hid; [|lia|lia].
  destruct (id =? 0) eqn:E; [done|]. bools. injection Hr as <-. cbn. lia.
Qed.

Definition table_good (t : RouteTable) : Prop := table_ok t /\ routes_in_range t.

Lemma table_empty_good : table_good table_empty.
Proof.
  split; [apply table_empty_ok|]. intros id e He. unfold RouteTable.find in He. cbn in He.
  by rewrite lookup_empty in He.
Qed.

Lemma add_route_good t e t' :
  table_good t -> 0 < re_route_id e < 2 ^ 32 -> add_route t e = Ret (inr t') -> table_good t'.
Proof.
  intros [Hok Hr] He Ha. unfold add_route in Ha. case_in Ha; [done|]. injection Ha as <-. split.
  - apply upsert_ok; [done|]. intros id Hid.
    destruct (proj2 (proj1 Hok) _ _ Hid) as (Hn & v & Hv & Hname).
    rewrite (proj2 (str_empty_false _) Hn) in E. cbn [negb andb] in E.
    unfold RouteTable.find_by_name, RouteTable.find in E. rewrite Hid, Hv in E. bools.
    by rewrite <- (proj1 (proj1 Hok) _ _ Hv).
  - intros id x Hx. unfold RouteTable.find in Hx. cbn [routes_ RouteTable.upsert] in Hx.
    apply lookup_insert_Some in Hx as [[_ <-]|[_ Hx]]; [done|by apply (Hr id)].
Qed.

Lemma routes_section_good l t t' :
  table_good t -> routes_section l t = Ret (inr t') -> table_good t'.
Proof.
  revert t. induction l as [|j l IH]; intros t Ht Hl; cbn in Hl; [by injection Hl as <-|].
  destruct (is_object j); [|by eapply IH].
  apply bbind_ret in Hl as (e & He & Hl). apply bbind_ret in Hl as (t1 & Ht1 & Hl).
  eapply IH; [|exact Hl]. eapply add_route_good; [done| |done]. by eapply route_section_range.
Qed.

Lemma catalog_section_good options codec body routing t :
  catalog_section options codec body routing = Ret (inr t) -> table_good t.
Proof.
  unfold catalog_section. intros Hc.
  destruct (get "catalog" body) as [[]|]; try (injection Hc as <-; apply table_empty_good).
  destruct (String.eqb _ "xmldef"); [|injection Hc as <-; apply table_empty_good].
  apply bbind_ret in Hc as (action & _ & Hc). apply bbind_ret in Hc as (lz & _ & Hc).
  destruct (load_xmldef_routes_from_file _ _ _) as [[err|] routes] eqn:El; [done|].
  injection Hc as <-. unfold load_xmldef_routes_from_file in El.
  destruct (read_file _) as [text|]; [|done].
  unfold load_xmldef_routes_from_string in El.
  apply load_loop_keeps in El as (Hok & _ & Hnew);
    [|unfold is_u16, u16_max; cbn; unfold default_codec_id; lia|apply table_empty_ok].
  split; [done|]. intros id e He. destruct (Hnew _ _ He) as [Hemp|Hr].
  - by apply (proj2 table_empty_good id e).
  - destruct Hr as ((? & ?) & _). unfold u32_max in *. lia.
Qed.

(** A computation that throws nothing but JSON exceptions. *)
Definition json_only {A} (m : outcome A) : Prop :=
  match m with Throw (StdExn _) => False | _ => True end.

Lemma json_only_bbind {A B} (m : build A) (k : A -> build B) :
  json_only m -> (forall a, json_only (k a)) -> json_only (bbind m k).
Proof. destruct m as [[e|a]|[]|]; cbn; auto. Qed.

Lemma json_only_blift {A} (m : outcome A) : json_only m -> json_only (blift m).
Proof. by destruct m as [|[]|]. Qed.

Lemma json_only_value {A} (conv : json -> outcome A) k d j :
  (forall v, json_only (conv v)) -> json_only (value conv k d j).
Proof. intros Hc. destruct j as [| | | | | | |l]; cbn; try done. destruct (obj_find k l); cbn; auto. Qed.

Lemma json_only_float lo hi f : json_only (float_cast lo hi f).
Proof. unfold float_cast. destruct (float_trunc f); [|done]. by destruct (_ && _). Qed.

Lemma json_only_conversions v :
  json_only (get_int v) /\ json_only (get_bool v) /\ json_only (get_size v) /\
  json_only (get_string v) /\ json_only (get_json v) /\ forall w, json_only (get_uint w v).
Proof. destruct v; cbn; repeat split; auto using json_only_float. Qed.

Lemma json_only_brequire {A} (o : option A) e : json_only (brequire o e).
Proof. by destruct o. Qed.

Lemma json_only_opt_string {A} j k (parse : string -> build A) d :
  (forall s, json_only (parse s)) -> json_only (opt_string j k parse d).
Proof. intros Hp. unfold opt_string. destruct (get k j) as [[]|]; cbn; auto. Qed.

Lemma json_only_opt_section {A} j k (parse : json -> build A) d :
  (forall s, json_only (parse s)) -> json_only (opt_section j k parse d).
Proof. intros Hp. unfold opt_section. destruct (get k j); cbn; auto. Qed.

(** Discharge [json_only] by the shape of the computation. *)
Ltac json_only_tac :=
  repeat match goal with
  | |- json_only (bbind _ _) => apply json_only_bbind; [|intros]
  | |- json_only (blift _) => apply json_only_blift
  | |- json_only (value _ _ _ _) => apply json_only_value; intros v; apply json_only_conversions
  | |- json_only (get_string _) => apply json_only_conversions
  | |- json_only (brequire _ _) => apply json_only_brequire
  | |- json_only (opt_string _ _ _ _) => apply json_only_opt_string; intros
  | |- json_only (opt_section _ _ _ _) => apply json_only_opt_section; intros
  | |- json_only (match ?x with _ => _ end) => destruct x
  | |- json_only (if ?b then _ else _) => destruct b
  | |- json_only _ => exact I
  end.

Lemma routes_section_json l t : json_only (routes_section l t).
Proof.
  revert t. induction l as [|j l IH]; intros t; cbn; [done|]. destruct (is_object j); [|done].
  unfold route_section, add_route. json_only_tac; try exact (IH _); auto.
Qed.

Lemma build_from_config_json config options : json_only (build_from_config config options).
Proof.
  unfold build_from_config, envelope_section, body_section, resolve_provider, routing_section,
    catalog_section.
  json_only_tac; auto using routes_section_json.
Qed.

(** The builder hands out only pipelines that work.  Whatever the
    configuration and the catalog hold, a pipeline it returns has a consistent
    route table whose numbers fit the wire, exactly one codec, registered under
    the profile's codec number, an empty envelope of the configured kind and no
    error: the assumptions under which routing and dispatch are proved. *)
Theorem built_pipeline_ok config_json options p :
  build_protocol_pipeline_from_json config_json options = Ret (inr p) ->
  table_ok (pl_routes p) /\ routes_in_range (pl_routes p) /\
  (exists codec, codecs_ (pl_codecs p) = {[ pp_default_codec_id (profile_ p) := codec ]} /\
     codec_for_route p default_route = Some codec) /\
  registry_ok (pl_codecs p) /\
  envelope_ p = Some (create_envelope (pp_envelope_kind (profile_ p)) (pp_envelope (profile_ p))) /\
  pl_error p = "".
Proof.
  unfold build_protocol_pipeline_from_json. intros Hb.
  destruct (json_parse _) as [|config]; [done|].
  assert (build_from_config config options = Ret (inr p)) as Hc
    by (destruct (build_from_config config options) as [|[]|]; done).
  clear Hb. unfold build_from_config in Hc. case_in Hc; [done|].
  apply bbind_ret in Hc as (name & _ & Hc). apply bbind_ret in Hc as (env & _ & Hc).
  apply bbind_ret in Hc as ([kind cfg] & _ & Hc). apply bbind_ret in Hc as (body & _ & Hc).
  apply bbind_ret in Hc as (codec & _ & Hc). apply bbind_ret in Hc as (routing & _ & Hc).
  apply bbind_ret in Hc as ([[[src br] eager] unk] & _ & Hc).
  apply bbind_ret in Hc as (t0 & Ht0 & Hc). apply bbind_ret in Hc as (t & Ht & Hc).
  injection Hc as <-. apply catalog_section_good in Ht0.
  assert (table_good t) as [Hok Hr].
  { destruct (get "routes" config) as [[]|]; try (by injection Ht as <-). by eapply routes_section_good. }
  cbn. split; [done|]. split; [done|]. split; [|split; [|done]].
  - exists codec. split; [by destruct (codec_name codec)|].
    unfold codec_for_route, BodyCodecRegistry.find. cbn. by destruct (codec_name codec).
  - apply registry_reachable_ok.
    exact (registry_reach_add registry_empty default_codec_id (Some codec) registry_reach_empty).
Qed.

(** No exception leaves the builder: every malformed configuration, of
    whatever shape, gives a null pointer, and every wrong type in it an error
    text. *)
Theorem build_never_throws config_json options e :
  build_protocol_pipeline_from_json config_json options <> Throw e.
Proof.
  unfold build_protocol_pipeline_from_json. destruct (json_parse _) as [|config]; [done|].
  pose proof (build_from_config_json config options) as Hj.
  by destruct (build_from_config config options) as [|[]|].
Qed.

End Build.

(** A configuration with a JSON body and one route, and the library that reads
    it. *)
Definition demo_config : json :=
  JObj [("body", JObj [("codec", JStr "json")]); ("name", JStr "game");
        ("routes", JArr [JObj [("id", JUInt 7); ("name", JStr "chat")]; JNull])].

Definition config_lib : JsonLib :=
  {| json_parse := fun b => if String.eqb (string_of b) "cfg" then inr demo_config
                            else inl (JsonExn "parse error");
     json_dump := fun _ => inr "cfg";
     json_error := fun _ _ _ => "type error" |}.

Definition demo_options : ProtocolBuildOptions := mkBuildOptions "conf" 4096 None.

Definition demo_built : ProtocolPipeline :=
  pipeline_make
    (mkProfile "game" LenPrefix (with_fallback default_config 4096) 1 SourceBody Drop true false)
    (RouteTable.upsert table_empty (named 7 "chat"))
    (BodyCodecRegistry.add registry_empty 1 (Some JsonBodyCodec)).2.

Lemma built_pipeline_ok_witness :
  table_ok (pl_routes demo_built) /\ routes_in_range (pl_routes demo_built) /\
  (exists codec, codecs_ (pl_codecs demo_built) = {[ 1 := codec ]} /\
     codec_for_route demo_built default_route = Some codec) /\
  registry_ok (pl_codecs demo_built) /\
  envelope_ demo_built = Some (create_envelope LenPrefix (with_fallback default_config 4096)) /\
  pl_error demo_built = "".
Proof.
  apply (@built_pipeline_ok config_lib (fun _ => None) "cfg" demo_options demo_built).
  vm_compute. reflexivity.
Defined.
