(* ===== verification/Session.v ===== *)
(** * Session: [TcpSession] (src/net/session.cpp) as a transition system

    Three kinds of activity interleave: callers of [send], [send_message] and
    [close] on any thread, the handlers that the strand runs one at a time in
    the order they were posted, and the completions of the socket and of the
    idle timer.  A step is one access to an atomic member, together with the
    work on members that only strand handlers touch; [callers] and [running]
    hold the program counters in between.  Boost.Asio is what the labels
    abstract: which operation completes next and with which result is not
    determined. *)

From S2P Require Import Prelude Text Index Stream Wire Envelope Frame Routes Json Codec Pipeline.

(** ** State *)

(** What a caller wants to send: [send] or [send_message]. *)
Inductive Work :=
| WRaw (data : list byte)
| WMessage (message : DecodedBody).

(** A thread inside [send]/[send_message], after the checks and after
    [fetch_add] returned [reserved]; or inside [close], after the exchange. *)
Inductive Caller :=
| Checked (w : Work)
| Reserved (w : Work) (reserved : Z)
| Closing (reason : string).

(** Handlers posted to the strand. *)
Inductive Post := PSend (w : Work) | PClose.

(** What the strand is executing: the rest of a handler. *)
Inductive Handler :=
| HPush (w : Work)
| HWrite
| HPop
| HClose (reason : string)
| HResults (results : list DispatchResult)
| HFrames (frames : list Frame).

(** Calls of the session's callbacks. *)
Inductive Event :=
| EConnect
| EPacket (result : DispatchResult)
| EMessage (payload : list byte)
| EDisconnect (reason : string).

(** The members of [TcpSession] (those that configuration fixes are in
    [Config]), the program counters, the pending operations, and the trace:
    callbacks made, frames the socket accepted, frames queued so far, values
    returned to callers. *)
Record State := mkState {
  alive_ : bool;
  queued_count_ : Z;
  send_queue_ : list (list byte);
  send_in_progress_ : bool;
  writing : option (list byte);
  posts : list Post;
  callers : list Caller;
  running : option Handler;
  reading : bool;
  timer_armed : bool;
  timers_due : nat;
  protocol_pipeline_ : option ProtocolPipeline;
  frame_decoder_ : FrameDecoder;
  error_code_ : string;
  events : list Event;
  wire : list (list byte);
  pushed : list (list byte);
  returns : list (bool * string)
}.

Definition set_alive (v : bool) (s : State) : State :=
  mkState v (queued_count_ s) (send_queue_ s) (send_in_progress_ s) (writing s) (posts s)
    (callers s) (running s) (reading s) (timer_armed s) (timers_due s) (protocol_pipeline_ s)
    (frame_decoder_ s) (error_code_ s) (events s) (wire s) (pushed s) (returns s).
Definition set_queued_count (v : Z) (s : State) : State :=
  mkState (alive_ s) v (send_queue_ s) (send_in_progress_ s) (writing s) (posts s) (callers s)
    (running s) (reading s) (timer_armed s) (timers_due s) (protocol_pipeline_ s)
    (frame_decoder_ s) (error_code_ s) (events s) (wire s) (pushed s) (returns s).
Definition set_send_queue (v : list (list byte)) (s : State) : State :=
  mkState (alive_ s) (queued_count_ s) v (send_in_progress_ s) (writing s) (posts s) (callers s)
    (running s) (reading s) (timer_armed s) (timers_due s) (protocol_pipeline_ s)
    (frame_decoder_ s) (error_code_ s) (events s) (wire s) (pushed s) (returns s).
Definition set_send_in_progress (v : bool) (s : State) : State :=
  mkState (alive_ s) (queued_count_ s) (send_queue_ s) v (writing s) (posts s) (callers s)
    (running s) (reading s) (timer_armed s) (timers_due s) (protocol_pipeline_ s)
    (frame_decoder_ s) (error_code_ s) (events s) (wire s) (pushed s) (returns s).
Definition set_writing (v : option (list byte)) (s : State) : State :=
  mkState (alive_ s) (queued_count_ s) (send_queue_ s) (send_in_progress_ s) v (posts s)
    (callers s) (running s) (reading s) (timer_armed s) (timers_due s) (protocol_pipeline_ s)
    (frame_decoder_ s) (error_code_ s) (events s) (wire s) (pushed s) (returns s).
Definition set_posts (v : list Post) (s : State) : State :=
  mkState (alive_ s) (queued_count_ s) (send_queue_ s) (send_in_progress_ s) (writing s) v
    (callers s) (running s) (reading s) (timer_armed s) (timers_due s) (protocol_pipeline_ s)
    (frame_decoder_ s) (error_code_ s) (events s) (wire s) (pushed s) (returns s).
Definition set_callers (v : list Caller) (s : State) : State :=
  mkState (alive_ s) (queued_count_ s) (send_queue_ s) (send_in_progress_ s) (writing s)
    (posts s) v (running s) (reading s) (timer_armed s) (timers_due s) (protocol_pipeline_ s)
    (frame_decoder_ s) (error_code_ s) (events s) (wire s) (pushed s) (returns s).
Definition set_running (v : option Handler) (s : State) : State :=
  mkState (alive_ s) (queued_count_ s) (send_queue_ s) (send_in_progress_ s) (writing s)
    (posts s) (callers s) v (reading s) (timer_armed s) (timers_due s) (protocol_pipeline_ s)
    (frame_decoder_ s) (error_code_ s) (events s) (wire s) (pushed s) (returns s).
Definition set_reading (v : bool) (s : State) : State :=
  mkState (alive_ s) (queued_count_ s) (send_queue_ s) (send_in_progress_ s) (writing s)
    (posts s) (callers s) (running s) v (timer_armed s) (timers_due s) (protocol_pipeline_ s)
    (frame_decoder_ s) (error_code_ s) (events s) (wire s) (pushed s) (returns s).
Definition set_timer_armed (v : bool) (s : State) : State :=
  mkState (alive_ s) (queued_count_ s) (send_queue_ s) (send_in_progress_ s) (writing s)
    (posts s) (callers s) (running s) (reading s) v (timers_due s) (protocol_pipeline_ s)
    (frame_decoder_ s) (error_code_ s) (events s) (wire s) (pushed s) (returns s).
Definition set_timers_due (v : nat) (s : State) : State :=
  mkState (alive_ s) (queued_count_ s) (send_queue_ s) (send_in_progress_ s) (writing s)
    (posts s) (callers s) (running s) (reading s) (timer_armed s) v (protocol_pipeline_ s)
    (frame_decoder_ s) (error_code_ s) (events s) (wire s) (pushed s) (returns s).
Definition set_protocol_pipeline (v : option ProtocolPipeline) (s : State) : State :=
  mkState (alive_ s) (queued_count_ s) (send_queue_ s) (send_in_progress_ s) (writing s)
    (posts s) (callers s) (running s) (reading s) (timer_armed s) (timers_due s) v
    (frame_decoder_ s) (error_code_ s) (events s) (wire s) (pushed s) (returns s).
Definition set_frame_decoder (v : FrameDecoder) (s : State) : State :=
  mkState (alive_ s) (queued_count_ s) (send_queue_ s) (send_in_progress_ s) (writing s)
    (posts s) (callers s) (running s) (reading s) (timer_armed s) (timers_due s)
    (protocol_pipeline_ s) v (error_code_ s) (events s) (wire s) (pushed s) (returns s).
Definition set_error_code (v : string) (s : State) : State :=
  mkState (alive_ s) (queued_count_ s) (send_queue_ s) (send_in_progress_ s) (writing s)
    (posts s) (callers s) (running s) (reading s) (timer_armed s) (timers_due s)
    (protocol_pipeline_ s) (frame_decoder_ s) v (events s) (wire s) (pushed s) (returns s).
Definition set_events (v : list Event) (s : State) : State :=
  mkState (alive_ s) (queued_count_ s) (send_queue_ s) (send_in_progress_ s) (writing s)
    (posts s) (callers s) (running s) (reading s) (timer_armed s) (timers_due s)
    (protocol_pipeline_ s) (frame_decoder_ s) (error_code_ s) v (wire s) (pushed s) (returns s).
Definition set_wire (v : list (list byte)) (s : State) : State :=
  mkState (alive_ s) (queued_count_ s) (send_queue_ s) (send_in_progress_ s) (writing s)
    (posts s) (callers s) (running s) (reading s) (timer_armed s) (timers_due s)
    (protocol_pipeline_ s) (frame_decoder_ s) (error_code_ s) (events s) v (pushed s)
    (returns s).
Definition set_pushed (v : list (list byte)) (s : State) : State :=
  mkState (alive_ s) (queued_count_ s) (send_queue_ s) (send_in_progress_ s) (writing s)
    (posts s) (callers s) (running s) (reading s) (timer_armed s) (timers_due s)
    (protocol_pipeline_ s) (frame_decoder_ s) (error_code_ s) (events s) (wire s) v (returns s).
Definition set_returns (v : list (bool * string)) (s : State) : State :=
  mkState (alive_ s) (queued_count_ s) (send_queue_ s) (send_in_progress_ s) (writing s)
    (posts s) (callers s) (running s) (reading s) (timer_armed s) (timers_due s)
    (protocol_pipeline_ s) (frame_decoder_ s) (error_code_ s) (events s) (wire s) (pushed s) v.

Record Config := mkSessionConfig {
  max_send_queue_ : Z;
  read_idle_timeout_ms_ : Z;
  has_on_packet : bool;
  has_on_message : bool
}.

(** ** Operations *)

Definition log (e : Event) (s : State) : State := set_events (events s ++ [e]) s.
Definition answer (b : bool) (e : string) (s : State) : State := set_returns (returns s ++ [(b, e)]) s.

(** [queued_count_.fetch_add(1)] and [fetch_sub(n)] *)
Definition fetch_add (s : State) : State := set_queued_count (u64 (queued_count_ s + 1)) s.
Definition fetch_sub (n : Z) (s : State) : State := set_queued_count (u64 (queued_count_ s - n)) s.

Definition post (p : Post) (s : State) : State := set_posts (posts s ++ [p]) s.
Definition leave (i : nat) (s : State) : State := set_callers (delete i (callers s)) s.

(** [reason.find(x) != npos] *)
Definition mentions (x s : string) : bool :=
  match String.index 0 x s with Some _ => true | None => false end.

Definition error_code_of (reason : string) : string :=
  if mentions "idle" reason then "read_idle_timeout"
  else if mentions "decode" reason || mentions "frame" reason then "decode_error"
  else if mentions "timeout" reason then "handshake_timeout"
  else "session_closed".

(** [handle_error] on the strand up to the exchange in [close]. *)
Definition handle_error (reason : string) (s : State) : State :=
  let s1 := set_error_code (error_code_of reason) s in
  if alive_ s then set_running (Some (HClose reason)) (set_alive false s1)
  else set_running None s1.

(** The rest of [close]: the socket and the timer are closed, the clean-up is
    posted and the owner is told. *)
Definition finish_close (reason : string) (s : State) : State :=
  log (EDisconnect reason) (post PClose (set_timer_armed false s)).

(** The members of the session right after construction. *)
Definition session_make (pipeline : option ProtocolPipeline) (max_frame_size : Z) : State :=
  mkState true 0 [] false None [] [] None false false 0 pipeline (decoder_make max_frame_size)
    "" [] [] [] [].

(** How an operation on the socket ends. *)
Inductive IoResult (A : Type) := IoOk (a : A) | IoAborted | IoFailed (message : string).
Arguments IoOk {A} a.
Arguments IoAborted {A}.
Arguments IoFailed {A} message.

Section Session.
Context `{JsonLib} (c : Config).

Definition do_receive (s : State) : State :=
  if alive_ s then set_reading true (set_timer_armed (0 <? read_idle_timeout_ms_ c) s) else s.

Definition start (s : State) : State := do_receive (log EConnect s).

(** The checks at the top of [send] and [send_message]. *)
Definition send_enter (w : Work) (s : State) : State :=
  if negb (alive_ s) then answer false "session is closed" s
  else
    match w with
    | WRaw [] => answer true "" s
    | WRaw _ => set_callers (callers s ++ [Checked w]) s
    | WMessage _ =>
        match protocol_pipeline_ s with
        | None => answer false "protocol pipeline is not configured" s
        | Some _ => set_callers (callers s ++ [Checked w]) s
        end
    end.

(** [queued_count_.fetch_add(1)] *)
Definition send_reserve (i : nat) (w : Work) (s : State) : State :=
  fetch_add (set_callers (<[i := Reserved w (queued_count_ s)]> (callers s)) s).

Definition over_limit (reserved : Z) : bool :=
  (0 <? max_send_queue_ c) && (max_send_queue_ c <=? reserved).

(** The roll-back, or the post to the strand. *)
Definition send_commit (i : nat) (w : Work) (reserved : Z) (s : State) : State :=
  if over_limit reserved then answer false "session_send_queue_full" (leave i (fetch_sub 1 s))
  else answer true "" (leave i (post (PSend w) s)).

(** [close] on a caller's thread, up to the exchange. *)
Definition close_enter (reason : string) (s : State) : State :=
  if alive_ s then set_callers (callers s ++ [Closing reason]) (set_alive false s) else s.

(** The first access of a posted handler. *)
Definition run_post (p : Post) (ps : list Post) (s : State) : State :=
  let s1 := set_posts ps s in
  match p with
  | PSend w => if alive_ s then set_running (Some (HPush w)) s1 else fetch_sub 1 s1
  | PClose =>
      let dropped := vsize (send_queue_ s) in
      let s2 := set_send_queue [] s1 in
      let s3 := if 0 <? dropped then fetch_sub dropped s2 else s2 in
      set_send_in_progress false s3
  end.

(** [send_queue_.push_back] and, when no write is going on, the first one. *)
Definition push_frame (frame : list byte) (s : State) : State :=
  let s1 := set_pushed (pushed s ++ [frame]) (set_send_queue (send_queue_ s ++ [frame]) s) in
  if send_in_progress_ s then set_running None s1
  else set_running (Some HWrite) (set_send_in_progress true s1).

(** The rest of the handler posted by [send_message]. *)
Definition push_message (m : DecodedBody) (p : ProtocolPipeline) (s : State) : State :=
  let '(encoded, p') := encode_message p m in
  let s1 := set_protocol_pipeline (Some p') s in
  if negb (str_empty (pl_error p')) || bool_decide (encoded = []) then
    set_running None (fetch_sub 1 s1)
  else push_frame encoded s1.

Definition do_async_write (s : State) : State :=
  match alive_ s, send_queue_ s with
  | true, front :: _ => set_writing (Some front) (set_running None s)
  | _, _ => set_send_in_progress false (set_running None s)
  end.

(** One result of [feed]: an error closes the session, a dropped packet is
    skipped, a local one is decoded, the rest is handed to [on_packet]. *)
Definition deliver_result (p : ProtocolPipeline) (r : DispatchResult) (rs : list DispatchResult)
    (s : State) : State :=
  if negb (ok r) then handle_error ("protocol dispatch error: " +:+ dr_error r) s
  else if should_drop r then set_running (Some (HResults rs)) s
  else
    let '(good, r') :=
      if bool_decide (dr_action r = DecodeLocal) then materialize_decode p r else (true, r) in
    if negb good then handle_error ("protocol decode error: " +:+ dr_error r') s
    else
      let s1 := if has_on_packet c then log (EPacket r') s else s in
      set_running (Some (HResults rs)) s1.

Definition deliver_frame (f : Frame) (fs : list Frame) (s : State) : State :=
  let s1 := if has_on_message c then log (EMessage (fr_payload f)) s else s in
  set_running (Some (HFrames fs)) s1.

(** The next access of the handler that the strand is running. *)
Definition run_handler (h : Handler) (s : State) : option State :=
  match h with
  | HPush (WRaw data) => Some (push_frame data s)
  | HPush (WMessage m) =>
      match protocol_pipeline_ s with Some p => Some (push_message m p s) | None => None end
  | HWrite => Some (do_async_write s)
  | HPop =>
      match send_queue_ s with
      | _ :: q => Some (set_running (Some HWrite) (set_send_queue q (fetch_sub 1 s)))
      | [] => None
      end
  | HClose reason => Some (set_running None (finish_close reason s))
  | HResults [] | HFrames [] => Some (do_receive (set_running None s))
  | HResults (r :: rs) =>
      match protocol_pipeline_ s with Some p => Some (deliver_result p r rs s) | None => None end
  | HFrames (f :: fs) => Some (deliver_frame f fs s)
  end.

(** The completion handler of [async_write] for the frame it was writing. *)
Definition write_done (frame : list byte) (r : IoResult unit) (s : State) : State :=
  let s1 := set_writing None s in
  let s2 := match r with IoOk _ => set_wire (wire s ++ [frame]) s1 | _ => s1 end in
  if negb (alive_ s) then s2
  else
    match r with
    | IoAborted => s2
    | IoFailed m => handle_error ("send error: " +:+ m) s2
    | IoOk _ => set_running (Some HPop) s2
    end.

(** The completion handler of [async_read_some]. *)
Definition read_done (r : IoResult (list byte)) (s : State) : State :=
  let s1 := set_reading false s in
  let s2 := if 0 <? read_idle_timeout_ms_ c then set_timer_armed false s1 else s1 in
  match r with
  | IoAborted => s2
  | IoFailed m => handle_error ("receive error: " +:+ m) s2
  | IoOk bytes =>
      match protocol_pipeline_ s with
      | Some p =>
          let '(results, p') := feed p (Data bytes) in
          let s3 := set_protocol_pipeline (Some p') s2 in
          if negb (str_empty (pl_error p')) then
            handle_error ("protocol decode error: " +:+ pl_error p') s3
          else set_running (Some (HResults results)) s3
      | None =>
          let '(frames, d) := decoder_feed (frame_decoder_ s) bytes in
          let s3 := set_frame_decoder d s2 in
          if negb (str_empty (fd_error d)) then
            handle_error ("frame decode error: " +:+ fd_error d) s3
          else set_running (Some (HFrames frames)) s3
      end
  end.

(** The wait handler of the idle timer, run without an error code. *)
Definition idle_timeout (s : State) : State :=
  if alive_ s then handle_error "read idle timeout" s else s.

(** ** Steps *)

Inductive Label :=
| LSend (w : Work)
| LReserve (i : nat)
| LCommit (i : nat)
| LClose (reason : string)
| LFinishClose (i : nat)
| LRunPost
| LRunHandler
| LWriteDone (r : IoResult unit)
| LReadDone (r : IoResult (list byte))
| LTimerExpires
| LTimerRun.

(** [None]: the label is not enabled. *)
Definition step (l : Label) (s : State) : option State :=
  match l with
  | LSend w => Some (send_enter w s)
  | LReserve i =>
      match callers s !! i with Some (Checked w) => Some (send_reserve i w s) | _ => None end
  | LCommit i =>
      match callers s !! i with Some (Reserved w r) => Some (send_commit i w r s) | _ => None end
  | LClose reason => Some (close_enter reason s)
  | LFinishClose i =>
      match callers s !! i with
      | Some (Closing reason) => Some (leave i (finish_close reason s))
      | _ => None
      end
  | LRunPost =>
      match running s, posts s with None, p :: ps => Some (run_post p ps s) | _, _ => None end
  | LRunHandler => match running s with Some h => run_handler h s | None => None end
  | LWriteDone r =>
      match running s, writing s with
      | None, Some frame => Some (write_done frame r s)
      | _, _ => None
      end
  | LReadDone r =>
      match running s, reading s with None, true => Some (read_done r s) | _, _ => None end
  | LTimerExpires =>
      if timer_armed s then Some (set_timers_due (S (timers_due s)) (set_timer_armed false s))
      else None
  | LTimerRun =>
      match running s, timers_due s with
      | None, S n => Some (idle_timeout (set_timers_due n s))
      | _, _ => None
      end
  end.

(** ** Counting slots *)

Definition is_reserved (x : Caller) : bool := match x with Reserved _ _ => true | _ => false end.

(** A caller whose reservation will not be rolled back. *)
Definition is_accepted (x : Caller) : bool :=
  match x with Reserved _ r => negb (over_limit r) | _ => false end.

Definition is_closing (x : Caller) : bool := match x with Closing _ => true | _ => false end.
Definition is_send (p : Post) : bool := match p with PSend _ => true | PClose => false end.

Definition is_disconnect (e : Event) : bool := match e with EDisconnect _ => true | _ => false end.

Fixpoint num {A} (f : A -> bool) (l : list A) : Z :=
  match l with [] => 0 | x :: l' => (if f x then 1 else 0) + num f l' end.

Definition pushing (s : State) : Z := match running s with Some (HPush _) => 1 | _ => 0 end.
Definition closing_handler (s : State) : Z := match running s with Some (HClose _) => 1 | _ => 0 end.

(** Slots held after a reservation: frames queued, posted or about to be
    pushed. *)
Definition in_flight (s : State) : Z :=
  num is_send (posts s) + pushing s + vsize (send_queue_ s).

Definition pending (s : State) : Z := num is_reserved (callers s) + in_flight s.

Definition accepted (s : State) : Z := num is_accepted (callers s) + in_flight s.

(** ** Invariant *)

(** The counter is the number of slots held, and the slots that count stay
    within the limit. *)
Definition counter_ok (s : State) : Prop :=
  queued_count_ s = u64 (pending s) /\
  (0 < max_send_queue_ c -> accepted s <= max_send_queue_ c).

(** One close: while alive nothing of it has begun; afterwards exactly one of
    its stages is current or its callback has been made, and the clean-up is
    still to come as long as frames can be left behind. *)
Definition closing_ok (s : State) : Prop :=
  num is_closing (callers s) + closing_handler s + num is_disconnect (events s) =
    (if alive_ s then 0 else 1) /\
  (PClose ∈ posts s -> alive_ s = false) /\
  (alive_ s = false -> send_queue_ s <> [] \/ pushing s = 1 ->
   0 < num is_closing (callers s) + closing_handler s \/ PClose ∈ posts s).

(** The queue against the trace: what the socket accepted is a prefix of what
    was queued; at most one write is outstanding, and it is of the first frame. *)
Definition queue_ok (s : State) : Prop :=
  exists rest, pushed s = wire s ++ rest /\
    match running s with
    | Some HPop => (exists f, send_queue_ s = f :: rest) /\ writing s = None /\
                   send_in_progress_ s = true
    | Some HWrite => (alive_ s = true -> send_queue_ s = rest /\ writing s = None) /\
                     (forall f, writing s = Some f -> exists q, rest = f :: q) /\
                     send_in_progress_ s = true
    | _ => (alive_ s = true -> send_queue_ s = rest) /\
           (forall f, writing s = Some f -> exists q, rest = f :: q) /\
           (alive_ s = true -> send_in_progress_ s = false -> writing s = None)
    end.

(** Messages are only in flight when there is a pipeline to encode them. *)
Definition is_message (w : Work) : bool := match w with WMessage _ => true | WRaw _ => false end.

Definition message_caller (x : Caller) : bool :=
  match x with Checked w | Reserved w _ => is_message w | Closing _ => false end.

Definition message_post (p : Post) : bool := match p with PSend w => is_message w | PClose => false end.

(** A handler whose next access dereferences the pipeline. *)
Definition needs_pipeline (s : State) : Z :=
  match running s with
  | Some (HPush (WMessage _)) | Some (HResults (_ :: _)) => 1
  | _ => 0
  end.

Definition pipeline_ok (s : State) : Prop :=
  protocol_pipeline_ s = None ->
  num message_caller (callers s) + num message_post (posts s) + needs_pipeline s = 0.

(** ** Reachable states

    A 64-bit process holds fewer than [2^64] frames: the states counted stay
    below that. *)
Inductive reachable (s0 : State) : State -> Prop :=
| reach_refl : reachable s0 s0
| reach_step s l s' :
    reachable s0 s -> step l s = Some s' -> pending s' < 2 ^ 64 -> reachable s0 s'.

(** ** Counting lemmas *)

Lemma num_nil {A} (f : A -> bool) : num f [] = 0.
Proof. reflexivity. Qed.

Lemma num_cons {A} (f : A -> bool) x l : num f (x :: l) = (if f x then 1 else 0) + num f l.
Proof. reflexivity. Qed.

Lemma num_app {A} (f : A -> bool) l k : num f (l ++ k) = num f l + num f k.
Proof. induction l as [|x l IH]; [done|]. cbn [app num]. lia. Qed.

Lemma num_nonneg {A} (f : A -> bool) l : 0 <= num f l.
Proof. induction l as [|x l IH]; cbn [num]; [|destruct (f x)]; lia. Qed.

Lemma num_delete {A} (f : A -> bool) l i x :
  l !! i = Some x -> num f (delete i l) = num f l - (if f x then 1 else 0).
Proof.
  intros Hl. rewrite <- (take_drop_middle l i x Hl) at 2. rewrite delete_take_drop.
  rewrite !num_app, num_cons. lia.
Qed.

Lemma num_insert {A} (f : A -> bool) l i x y :
  l !! i = Some x ->
  num f (<[i := y]> l) = num f l - (if f x then 1 else 0) + (if f y then 1 else 0).
Proof.
  intros Hl. rewrite <- (take_drop_middle l i x Hl) at 2.
  rewrite insert_take_drop by (by eapply lookup_lt_Some). rewrite !num_app, !num_cons. lia.
Qed.

Lemma num_pos {A} (f : A -> bool) l i x : l !! i = Some x -> f x = true -> 1 <= num f l.
Proof.
  intros Hl Hx. rewrite <- (take_drop_middle l i x Hl), num_app, num_cons, Hx.
  pose proof (num_nonneg f (take i l)). pose proof (num_nonneg f (drop (S i) l)). lia.
Qed.

Lemma num_le {A} (f g : A -> bool) l : (forall x, f x = true -> g x = true) -> num f l <= num g l.
Proof.
  intros Hfg. induction l as [|x l IH]; [done|]. rewrite !num_cons.
  destruct (f x) eqn:Ef; [rewrite (Hfg _ Ef)|]; [|destruct (g x)]; lia.
Qed.

Lemma u64_add a n : u64 (u64 a + n) = u64 (a + n).
Proof. unfold cast. by rewrite Zplus_mod_idemp_l. Qed.

Lemma u64_sub a n : u64 (u64 a - n) = u64 (a - n).
Proof. unfold cast. by rewrite Zminus_mod_idemp_l. Qed.

(** ** Case analysis on a step *)

(** Split [H : step l s = Some s'] into its leaves, outermost choice first, and
    replace [s'] by the state each of them builds. *)
Ltac leaf H :=
  cbv zeta in H;
  lazymatch type of H with
  | None = Some _ => discriminate H
  | Some _ = Some _ => injection H as H; leaf H
  | (match ?x with _ => _ end) = _ => let E := fresh "E" in destruct x eqn:E; leaf H
  | context [if ?b then _ else _] => let E := fresh "E" in destruct b eqn:E; leaf H
  | context [match ?r with IoOk _ => _ | _ => _ end] => destruct r; leaf H
  | _ => subst
  end.

Ltac open_step l H :=
  destruct l; unfold step, send_enter, send_reserve, send_commit, close_enter, run_post, run_handler,
    push_message, push_frame, do_async_write, deliver_result, deliver_frame, write_done, read_done,
    idle_timeout, handle_error, finish_close, do_receive in H; leaf H; bools.

(** Read the fields of an updated state. *)
Ltac fields :=
  unfold log, answer, fetch_add, fetch_sub, post, leave in *;
  cbn [alive_ queued_count_ send_queue_ send_in_progress_ writing posts callers running reading
       timer_armed timers_due protocol_pipeline_ frame_decoder_ error_code_ events wire pushed returns
       set_alive set_queued_count set_send_queue set_send_in_progress set_writing set_posts set_callers
       set_running set_reading set_timer_armed set_timers_due set_protocol_pipeline set_frame_decoder
       set_error_code set_events set_wire set_pushed set_returns] in *.

(** Replace the fields whose value the case fixed, and count. *)
Ltac counts :=
  repeat match goal with
  | E : callers _ !! _ = Some _ |- context [num ?f (delete _ _)] => rewrite (num_delete f _ _ _ E)
  | E : callers _ !! _ = Some _ |- context [num ?f (<[_ := _]> _)] => rewrite (num_insert f _ _ _ _ E)
  | E : posts _ = _ |- _ => rewrite E in *; clear E
  | E : send_queue_ _ = _ |- _ => rewrite E in *; clear E
  | E : running _ = _ |- _ => rewrite E in *; clear E
  | E : alive_ _ = _ |- _ => rewrite E in *; clear E
  end;
  rewrite ?num_app, ?num_cons, ?num_nil, ?vsize_app, ?vsize_cons, ?(@vsize_nil (list byte)) in *;
  cbn [is_reserved is_accepted is_closing is_send is_disconnect] in *.

Lemma pending_step l s s' :
  queued_count_ s = u64 (pending s) -> step l s = Some s' -> queued_count_ s' = u64 (pending s').
Proof.
  intros Hc Hs. unfold pending, in_flight, pushing in *.
  pose proof (vsize_nonneg (send_queue_ s)).
  open_step l Hs; fields; counts; rewrite ?Hc, ?u64_add, ?u64_sub; f_equal; lia.
Qed.

Lemma accepted_le_pending s : accepted s <= pending s.
Proof.
  unfold accepted, pending. enough (num is_accepted (callers s) <= num is_reserved (callers s)) by lia.
  apply num_le. by intros [].
Qed.

Lemma pending_nonneg s : 0 <= pending s.
Proof.
  unfold pending, in_flight, pushing. pose proof (num_nonneg is_reserved (callers s)).
  pose proof (num_nonneg is_send (posts s)). pose proof (vsize_nonneg (send_queue_ s)).
  repeat case_head; lia.
Qed.

Lemma counter_step l s s' :
  counter_ok s -> pending s < 2 ^ 64 -> step l s = Some s' -> counter_ok s'.
Proof.
  intros [Hc Hb] Hp Hs. split; [by eapply pending_step|]. intros Hm. specialize (Hb Hm).
  pose proof (accepted_le_pending s) as Hle. pose proof (pending_nonneg s) as Hnn.
  unfold accepted, in_flight, pushing in *.
  pose proof (vsize_nonneg (send_queue_ s)).
  open_step l Hs; fields; counts; try lia; rewrite ?E1; cbn [negb]; try lia.
  rewrite Hc, cast_small by lia. unfold over_limit.
  destruct (Z.ltb_spec 0 (max_send_queue_ c)), (Z.leb_spec (max_send_queue_ c) (pending s));
    cbn [andb negb]; lia.
Qed.

Lemma closing_step l s s' : closing_ok s -> step l s = Some s' -> closing_ok s'.
Proof.
  intros (Hn & Hp & Hq) Hs. unfold closing_ok, closing_handler, pushing in *.
  pose proof (num_nonneg is_closing (callers s)).
  pose proof (num_nonneg is_disconnect (events s)).
  assert (0 <= match running s with Some (HClose _) => 1 | _ => 0 end)
    by (destruct (running s) as [[]|]; lia).
  open_step l Hs; fields; counts; split_and!; try lia; try done.
  all: try (intros Ha Hd; destruct (Hq Ha Hd); [left; lia | right; set_solver]).
  all: try (intros Ha _; apply Hq; [done|by right]).
  all: try (intros Ha [?|?]; [apply Hq; auto|lia]).
  all: try (intros _ _; right; apply elem_of_app; right; by apply list_elem_of_singleton).
  all: try (intros _ [?|?]; [done|lia]).
  all: try (intros Hin; apply Hp; by right).
  all: intros Hin; try (apply elem_of_app in Hin as [Hin|Hin%list_elem_of_singleton];
                        [by apply Hp|try done]).
  - pose proof (num_pos is_closing _ _ _ E eq_refl). destruct (alive_ s); [lia|done].
  - destruct (alive_ s); [lia|done].
Qed.

Lemma queue_step l s s' : queue_ok s -> closing_ok s -> step l s = Some s' -> queue_ok s'.
Proof.
  intros (rest & Hpu & Hr) (_ & Hp & _) Hs. unfold queue_ok in *.
  open_step l Hs; fields; counts.
  all: try (exists rest; split; [done|]; exact Hr).
  all: try (exists rest; split; [done|]; split_and!; intros; destruct_and?; simplify_eq; eauto; fail).
  (* a frame was pushed *)
  all: try (match goal with |- exists _, pushed _ ++ [?x] = _ /\ _ =>
      exists (rest ++ [x]); rewrite Hpu, app_assoc; destruct Hr as (Hr1 & Hr2 & Hr3);
      split_and!; [done| | |first [done | congruence]];
      [intros Ha; rewrite (Hr1 Ha); auto | intros f Hf; destruct (Hr2 f Hf) as [q ->]; by exists (q ++ [x])]
    end).
  - exists rest. split; [done|]. destruct (running s) as [[]|]; naive_solver.
  - assert (alive_ s = false) as Ha by (apply Hp; left). rewrite Ha. exists rest.
    split_and!; [done|done|apply Hr|done].
  - assert (alive_ s = false) as Ha by (apply Hp; left). rewrite Ha. exists rest.
    split_and!; [done|done|apply Hr|done].
  - destruct Hr as (Hr1 & Hr2 & Hr3). destruct (Hr1 eq_refl) as [<- Hw]. exists []. auto.
  - destruct Hr as (Hr1 & Hr2 & Hr3). destruct (Hr1 eq_refl) as [<- Hw]. exists (l :: l0).
    split_and!; [done|done| |by rewrite Hr3]. intros f [= <-]. eauto.
  - destruct Hr as ([f Hf] & Hw & Hi). simplify_eq. exists rest. rewrite Hw. split_and!; try done.
  - destruct Hr as (_ & Hr2 & _). destruct (Hr2 l eq_refl) as [q ->]. exists q.
    rewrite Hpu, <- app_assoc. done.
  - destruct Hr as (Hr1 & Hr2 & Hr3). destruct (Hr2 l eq_refl) as [q ->]. exists q.
    rewrite Hpu, <- app_assoc. split_and!; [done|rewrite Hr1 by done; eauto|done|].
    destruct (send_in_progress_ s); [done|]. by discriminate Hr3.
Qed.

Lemma pipeline_step l s s' : pipeline_ok s -> step l s = Some s' -> pipeline_ok s'.
Proof.
  intros Hi Hs. unfold pipeline_ok, needs_pipeline in *.
  pose proof (num_nonneg message_caller (callers s)). pose proof (num_nonneg message_post (posts s)).
  assert (0 <= match running s with Some (HPush (WMessage _)) | Some (HResults (_ :: _)) => 1 | _ => 0 end)
    by (destruct (running s) as [[[]| | | |[]|]|]; lia).
  open_step l Hs; fields; counts; try exact Hi; try done; intros Hnone; try congruence;
    specialize (Hi ltac:(first [exact Hnone | reflexivity]));
    try (match goal with E : callers _ !! _ = Some _ |- _ =>
           pose proof (num_pos message_caller _ _ _ E); cbn [message_caller] in * end);
    cbn [message_caller message_post is_message] in *; try lia; try congruence.
  all: try (pose proof (num_nonneg message_post l)); destruct w; cbn in *; lia.
Qed.

(** ** The initial state and the invariant *)

Definition fresh_session (pipeline : option ProtocolPipeline) (max_frame_size : Z) : State :=
  start (session_make pipeline max_frame_size).

Definition session_inv (s : State) : Prop :=
  counter_ok s /\ closing_ok s /\ queue_ok s /\ pipeline_ok s /\ pending s < 2 ^ 64.

Lemma fresh_session_inv pipeline m : 0 <= max_send_queue_ c -> session_inv (fresh_session pipeline m).
Proof.
  intros Hm. unfold session_inv, counter_ok, closing_ok, queue_ok, pipeline_ok, fresh_session, start,
    session_make, do_receive, pending, accepted, in_flight, pushing, needs_pipeline, closing_handler.
  fields. cbn. split_and!; try done; try lia; try set_solver.
Qed.

Lemma reachable_inv s0 s : session_inv s0 -> reachable s0 s -> session_inv s.
Proof.
  intros H0. induction 1 as [|s l s' _ (Hc & Hcl & Hq & Hp & Hpe) Hs Hb]; [done|].
  split_and!; eauto using counter_step, closing_step, queue_step, pipeline_step.
Qed.

(** C5: back-pressure is exact under any interleaving of senders, strand and
    socket.  The atomic counter always equals the number of slots held, so it
    never underflows and leaks nothing; and with a limit configured, the frames
    posted, being pushed and queued together never exceed it, however many
    senders race. *)
Theorem send_queue_bounded pipeline max_frame s :
  0 <= max_send_queue_ c -> reachable (fresh_session pipeline max_frame) s ->
  queued_count_ s = pending s /\
  (0 < max_send_queue_ c -> in_flight s <= max_send_queue_ c).
Proof.
  intros Hm Hr. destruct (reachable_inv _ _ (fresh_session_inv pipeline max_frame Hm) Hr)
    as ([Hc Hb] & _ & _ & _ & Hp). pose proof (pending_nonneg s). split.
  - rewrite Hc. apply cast_small. lia.
  - intros Hpos. specialize (Hb Hpos). unfold accepted in Hb.
    pose proof (num_nonneg is_accepted (callers s)). lia.
Qed.

(** The frames the socket accepted are a prefix of the frames queued, in
    order and without duplicates; a write is only started when none is
    outstanding; and the handler that runs on the strand can always go on: it
    never takes a frame from an empty queue nor encodes or dispatches without a
    pipeline. *)
Theorem writes_in_order pipeline max_frame s :
  0 <= max_send_queue_ c -> reachable (fresh_session pipeline max_frame) s ->
  wire s `prefix_of` pushed s /\
  (running s = Some HWrite -> alive_ s = true -> writing s = None) /\
  (forall h, running s = Some h -> is_Some (run_handler h s)).
Proof.
  intros Hm Hr. destruct (reachable_inv _ _ (fresh_session_inv pipeline max_frame Hm) Hr)
    as (_ & _ & (rest & Hpu & Hq) & Hp & _). split; [by exists rest|]. split.
  - intros Hw Ha. rewrite Hw in Hq. destruct Hq as (Hq & _). by apply Hq.
  - intros h Hh. rewrite Hh in Hq. unfold pipeline_ok, needs_pipeline in Hp. rewrite Hh in Hp.
    pose proof (num_nonneg message_caller (callers s)). pose proof (num_nonneg message_post (posts s)).
    destruct h as [[]| | | |[|]|[|]]; cbn [run_handler]; try by eexists.
    + destruct (protocol_pipeline_ s); [by eexists|]. specialize (Hp eq_refl). lia.
    + destruct Hq as ([f ->] & _). by eexists.
    + destruct (protocol_pipeline_ s); [by eexists|]. specialize (Hp eq_refl). lia.
Qed.

(** A session closes once.  However many threads and errors close it, the
    owner is told at most once, and never while the session is alive; and when a
    closed session has come to rest, it was told exactly once, the queue is
    empty and every reserved slot has been given back. *)
Theorem close_exactly_once pipeline max_frame s :
  0 <= max_send_queue_ c -> reachable (fresh_session pipeline max_frame) s ->
  num is_disconnect (events s) <= 1 /\
  (alive_ s = true -> num is_disconnect (events s) = 0) /\
  (alive_ s = false -> callers s = [] -> posts s = [] -> running s = None ->
   num is_disconnect (events s) = 1 /\ send_queue_ s = [] /\ queued_count_ s = 0).
Proof.
  intros Hm Hr. destruct (reachable_inv _ _ (fresh_session_inv pipeline max_frame Hm) Hr)
    as ([Hc _] & (Hn & _ & Hq) & _).
  pose proof (num_nonneg is_closing (callers s)). pose proof (num_nonneg is_disconnect (events s)).
  assert (0 <= closing_handler s) by (unfold closing_handler; repeat case_head; lia).
  split_and!; [destruct (alive_ s); lia | intros Ha; rewrite Ha in Hn; lia |].
  intros Ha Hca Hpo Hru. specialize (Hq Ha). rewrite Ha in Hn. unfold closing_handler in *.
  rewrite Hca, Hru in *. rewrite Hpo in Hq. cbn in *.
  assert (send_queue_ s = []) as Hs.
  { destruct (send_queue_ s); [done|]. destruct Hq as [?|?]; [by left|lia|set_solver]. }
  split_and!; [lia|done|]. rewrite Hc. unfold pending, in_flight, pushing.
  by rewrite Hca, Hpo, Hru, Hs.
Qed.

(** ** Running a script of labels *)

Fixpoint run (ls : list Label) (s : State) : option State :=
  match ls with
  | [] => Some s
  | l :: ls' =>
      match step l s with
      | Some s' => if pending s' <? 2 ^ 64 then run ls' s' else None
      | None => None
      end
  end.

Lemma run_reachable s0 ls s s' : reachable s0 s -> run ls s = Some s' -> reachable s0 s'.
Proof.
  revert s. induction ls as [|l ls IH]; intros s Hr H1; cbn in H1; [by simplify_eq|].
  destruct (step l s) as [s1|] eqn:E; [|done]. destruct (pending s1 <? 2 ^ 64) eqn:E1; [|done].
  bools. eapply IH; [|exact H1]. by eapply reach_step.
Qed.

Lemma script_reachable s0 ls : reachable s0 (default s0 (run ls s0)).
Proof.
  destruct (run ls s0) as [s|] eqn:E; [|apply reach_refl]. eapply run_reachable; [apply reach_refl|done].
Qed.

End Session.

(** Two senders race for the single slot of a session; the winner's frame is
    being written when the session is kicked. *)
Definition one_slot : Config := mkSessionConfig 1 0 true true.

Definition race : list Label :=
  [LSend (WRaw (bytes_of "a")); LSend (WRaw (bytes_of "b")); LReserve 0; LReserve 1; LCommit 1;
   LCommit 0; LRunPost; LRunHandler; LRunHandler].

Definition kicked : list Label :=
  race ++ [LClose "kicked"; LFinishClose 0; LRunPost; LWriteDone IoAborted].

Definition race_state (ls : list Label) : State :=
  let s0 := fresh_session one_slot None 0 in default s0 (@run demo_lib one_slot ls s0).

Lemma race_reachable ls :
  @reachable demo_lib one_slot (fresh_session one_slot None 0) (race_state ls).
Proof. apply script_reachable. Qed.

(** The script is run to its end. *)
Example race_runs :
  writing (race_state race) = Some (bytes_of "a") /\
  returns (race_state race) = [(false, "session_send_queue_full"); (true, "")] /\
  alive_ (race_state kicked) = false.
Proof. vm_compute. done. Qed.

Lemma send_queue_bounded_witness :
  queued_count_ (race_state race) = pending (race_state race) /\
  (0 < 1 -> in_flight (race_state race) <= 1).
Proof.
  apply (@send_queue_bounded demo_lib one_slot None 0 (race_state race)); [vm_compute; congruence|].
  apply race_reachable.
Defined.

Lemma writes_in_order_witness :
  wire (race_state race) `prefix_of` pushed (race_state race) /\
  (running (race_state race) = Some HWrite -> alive_ (race_state race) = true ->
   writing (race_state race) = None) /\
  (forall h, running (race_state race) = Some h ->
     is_Some (@run_handler demo_lib one_slot h (race_state race))).
Proof.
  apply (@writes_in_order demo_lib one_slot None 0 (race_state race)); [vm_compute; congruence|].
  apply race_reachable.
Defined.

Lemma close_exactly_once_witness :
  num is_disconnect (events (race_state kicked)) <= 1 /\
  (alive_ (race_state kicked) = true -> num is_disconnect (events (race_state kicked)) = 0) /\
  (alive_ (race_state kicked) = false -> callers (race_state kicked) = [] ->
   posts (race_state kicked) = [] -> running (race_state kicked) = None ->
   num is_disconnect (events (race_state kicked)) = 1 /\
   send_queue_ (race_state kicked) = [] /\ queued_count_ (race_state kicked) = 0).
Proof.
  apply (@close_exactly_once demo_lib one_slot None 0 (race_state kicked)); [vm_compute; congruence|].
  apply race_reachable.
Defined.
