(* ===== verification/Listener.v ===== *)
(** * Listener: [TcpListener] (src/net/listener.cpp) as a transition system

    The accept handler is one chain: it runs on a connection, takes the lock
    three times and re-arms itself at its end.  Sessions close, are kicked, and
    the listener is stopped, from other threads in between.  A step is one
    critical section of [sessions_mutex_] or one access to
    [g_next_session_id]. *)

From S2P Require Import Prelude.

(** ** State *)

(** Where the accept chain is: waiting for a connection, inside the handler
    after the connection limit, after the per-address limit, after the session
    was created, after it was stored, or ended (no [async_accept] is pending). *)
Inductive AcceptPc :=
| Waiting
| LimitChecked (ip : string)
| IpChecked (ip : string)
| Created (id : Z) (ip : string)
| Stored (id : Z)
| Ended.

Record State := mkListener {
  sessions_ : gmap Z string;      (* session id, remote address *)
  ip_counts_ : gmap string Z;
  last_rejection_ : string;
  listening_ : bool;
  next_session_id : Z;            (* g_next_session_id *)
  accept_pc : AcceptPc;
  created : gmap Z string;        (* every session ever created *)
  closed : list (Z * string);     (* calls of [Session::close], in order *)
  started : list Z                (* sessions started *)
}.

Record Limits := mkLimits { max_connections_ : Z; max_per_ip_ : Z }.

(** A listener whose acceptor was opened, bound and listening. *)
Definition listener_make : State := mkListener ∅ ∅ "" true 1 Ended ∅ [] [].

Definition set_pc (pc : AcceptPc) (s : State) : State :=
  mkListener (sessions_ s) (ip_counts_ s) (last_rejection_ s) (listening_ s) (next_session_id s)
    pc (created s) (closed s) (started s).

Definition set_rejection (r : string) (s : State) : State :=
  mkListener (sessions_ s) (ip_counts_ s) r (listening_ s) (next_session_id s)
    (accept_pc s) (created s) (closed s) (started s).

Definition set_tables (ss : gmap Z string) (ips : gmap string Z) (s : State) : State :=
  mkListener ss ips (last_rejection_ s) (listening_ s) (next_session_id s)
    (accept_pc s) (created s) (closed s) (started s).

Definition close_session (id : Z) (reason : string) (s : State) : State :=
  mkListener (sessions_ s) (ip_counts_ s) (last_rejection_ s) (listening_ s) (next_session_id s)
    (accept_pc s) (created s) (closed s ++ [(id, reason)]) (started s).

(** ** Operations *)

(** [start]: the first [do_accept]. *)
Definition start (s : State) : State := if listening_ s then set_pc Waiting s else s.

Definition session_count (s : State) : Z := Z.of_nat (size (sessions_ s)).

Definition find_session (s : State) (id : Z) : option string := sessions_ s !! id.

(** [remove_session_locked] for the session [id] of address [ip]. *)
Definition remove_session_locked (id : Z) (ip : string) (s : State) : State :=
  match sessions_ s !! id with
  | None => s
  | Some _ =>
      let ips :=
        match ip_counts_ s !! ip with
        | Some n => if 1 <? n then <[ip := n - 1]> (ip_counts_ s) else delete ip (ip_counts_ s)
        | None => ip_counts_ s
        end in
      set_tables (delete id (sessions_ s)) ips s
  end.

(** [kick_session]; the session's own close callback comes as another step. *)
Definition kick_session (id : Z) (reason : string) (s : State) : bool * State :=
  match sessions_ s !! id with
  | None => (false, s)
  | Some ip => (true, close_session id reason (remove_session_locked id ip s))
  end.

(** [stop]: the pending [async_accept], if there is one, completes with
    [operation_aborted] and ends the chain. *)
Definition stop (s : State) : State :=
  let ids := map fst (map_to_list (sessions_ s)) in
  mkListener ∅ ∅ (last_rejection_ s) false (next_session_id s)
    (match accept_pc s with Waiting => Ended | pc => pc end) (created s)
    (closed s ++ map (fun id => (id, "listener shutdown")) ids) (started s).

(** The sessions that [broadcast] offers the data to: those stored when it took
    the lock and alive when it came to them. *)
Definition broadcast (alive : Z -> bool) (s : State) : list Z :=
  filter (fun id => alive id = true) (map fst (map_to_list (sessions_ s))).

Section Listener.
Context (c : Limits).

(** The connection limit; [do_accept] on a stopped listener ends the chain. *)
Definition rearm (s : State) : State :=
  set_pc (if listening_ s then Waiting else Ended) s.

(** The accept handler up to the end of the first critical section, and the
    remote address; [None]: [remote_endpoint] throws and the chain ends. *)
Definition on_accept (remote : option string) (s : State) : State :=
  if (0 <? max_connections_ c) && (max_connections_ c <=? session_count s) then
    rearm (set_rejection "connection_limit" s)
  else
    match remote with
    | Some ip => set_pc (LimitChecked ip) s
    | None => set_pc Ended s
    end.

Definition check_ip (ip : string) (s : State) : State :=
  let full :=
    (0 <? max_per_ip_ c) &&
    match ip_counts_ s !! ip with Some n => max_per_ip_ c <=? n | None => false end in
  if full then rearm (set_rejection "ip_limit" s) else set_pc (IpChecked ip) s.

(** [g_next_session_id.fetch_add(1)] and the session object. *)
Definition create_session (ip : string) (s : State) : State :=
  let id := next_session_id s in
  mkListener (sessions_ s) (ip_counts_ s) (last_rejection_ s) (listening_ s) (u64 (id + 1))
    (Created id ip) (<[id := ip]> (created s)) (closed s) (started s).

Definition store_session (id : Z) (ip : string) (s : State) : State :=
  set_pc (Stored id)
    (set_tables (<[id := ip]> (sessions_ s))
       (<[ip := u64 (default 0 (ip_counts_ s !! ip) + 1)]> (ip_counts_ s)) s).

Definition start_session (id : Z) (s : State) : State :=
  rearm (mkListener (sessions_ s) (ip_counts_ s) (last_rejection_ s) (listening_ s)
           (next_session_id s) (accept_pc s) (created s) (closed s) (started s ++ [id])).

Inductive Label :=
| LAccept (remote : option string)
| LAcceptError
| LContinue
| LSessionClosed (id : Z)
| LKick (id : Z) (reason : string)
| LStop.

Definition step (l : Label) (s : State) : option State :=
  match l with
  | LAccept remote =>
      match accept_pc s with Waiting => Some (on_accept remote s) | _ => None end
  | LAcceptError => match accept_pc s with Waiting => Some (set_pc Ended s) | _ => None end
  | LContinue =>
      match accept_pc s with
      | LimitChecked ip => Some (check_ip ip s)
      | IpChecked ip => Some (create_session ip s)
      | Created id ip => Some (store_session id ip s)
      | Stored id => Some (start_session id s)
      | Waiting | Ended => None
      end
  | LSessionClosed id =>
      match created s !! id with Some ip => Some (remove_session_locked id ip s) | None => None end
  | LKick id reason => Some (kick_session id reason s).2
  | LStop => Some (stop s)
  end.

(** ** Invariant *)

(** The number of stored sessions of an address. *)
Definition count_ip (m : gmap Z string) (ip : string) : Z :=
  Z.of_nat (size (filter (fun p : Z * string => p.2 = ip) m)).

Definition counts_ok (s : State) : Prop :=
  forall ip, ip_counts_ s !! ip =
    (if decide (count_ip (sessions_ s) ip = 0) then None else Some (count_ip (sessions_ s) ip)).

(** Sessions are stored under the address they were created with, and ids are
    handed out in increasing order. *)
Definition ids_ok (s : State) : Prop :=
  sessions_ s ⊆ created s /\ (forall id ip, created s !! id = Some ip -> id < next_session_id s) /\
  Z.of_nat (size (created s)) + 1 = next_session_id s /\
  match accept_pc s with
  | Created id ip => created s !! id = Some ip /\ sessions_ s !! id = None
  | _ => True
  end.

(** Room for the session being accepted. *)
Definition room (s : State) : Z :=
  match accept_pc s with LimitChecked _ | IpChecked _ | Created _ _ => 1 | _ => 0 end.

Definition room_ip (s : State) (ip : string) : Z :=
  match accept_pc s with
  | IpChecked ip' | Created _ ip' => if decide (ip' = ip) then 1 else 0
  | _ => 0
  end.

Definition limits_ok (s : State) : Prop :=
  (0 < max_connections_ c -> session_count s + room s <= max_connections_ c) /\
  (0 < max_per_ip_ c -> forall ip, count_ip (sessions_ s) ip + room_ip s ip <= max_per_ip_ c).

(** Fewer than [2^64] sessions are ever created. *)
Inductive reachable : State -> Prop :=
| reach_start : reachable (start listener_make)
| reach_step s l s' :
    reachable s -> step l s = Some s' -> next_session_id s + 1 < 2 ^ 64 -> reachable s'.

(** ** Counting *)

Lemma count_insert m id ip' ip :
  m !! id = None ->
  count_ip (<[id := ip']> m) ip = count_ip m ip + (if decide (ip' = ip) then 1 else 0).
Proof.
  intros Hm. unfold count_ip. destruct (decide (ip' = ip)) as [->|Hne].
  - rewrite map_filter_insert_True by done. rewrite map_size_insert_None; [lia|].
    apply map_lookup_filter_None. by left.
  - rewrite map_filter_insert_False by done. rewrite delete_id by done. lia.
Qed.

Lemma count_delete m id ip' ip :
  m !! id = Some ip' ->
  count_ip (delete id m) ip = count_ip m ip - (if decide (ip' = ip) then 1 else 0).
Proof.
  intros Hm. rewrite <- (insert_delete_id m id ip' Hm) at 2.
  rewrite count_insert by apply lookup_delete_eq. lia.
Qed.

Lemma count_nonneg m ip : 0 <= count_ip m ip.
Proof. unfold count_ip. lia. Qed.

Lemma count_le m ip : count_ip m ip <= Z.of_nat (size m).
Proof. unfold count_ip. apply Nat2Z.inj_le, map_subseteq_size, map_filter_subseteq. Qed.

Lemma count_pos m id ip : m !! id = Some ip -> 1 <= count_ip m ip.
Proof.
  intros Hm. pose proof (count_delete m id ip ip Hm) as Hd.
  rewrite decide_True in Hd by done. pose proof (count_nonneg (delete id m) ip). lia.
Qed.

Lemma size_delete_Z (m : gmap Z string) id ip :
  m !! id = Some ip -> Z.of_nat (size (delete id m)) = Z.of_nat (size m) - 1.
Proof.
  intros Hm. rewrite <- (insert_delete_id m id ip Hm) at 2.
  rewrite map_size_insert_None by apply lookup_delete_eq. lia.
Qed.

(** ** Preservation *)

Definition listener_inv (s : State) : Prop := counts_ok s /\ ids_ok s /\ limits_ok s.

(** Removing a session keeps the tables in step and makes room. *)
Lemma remove_inv id ip s :
  created s !! id = Some ip -> listener_inv s -> listener_inv (remove_session_locked id ip s).
Proof.
  intros Hid (Hc & (Hsub & Hlt & Hsz & Hpc) & Hl1 & Hl2). unfold remove_session_locked.
  destruct (sessions_ s !! id) as [ip0|] eqn:E; [|done].
  assert (ip0 = ip) as -> by (pose proof (lookup_weaken _ _ _ _ E Hsub); congruence).
  split; [|split].
  - intros ip'. cbn. rewrite (count_delete _ _ _ ip' E). pose proof (Hc ip) as Hi.
    pose proof (count_pos _ _ _ E). rewrite decide_False in Hi by lia. rewrite Hi.
    pose proof (Hc ip') as Hi'. destruct (decide (ip = ip')) as [<-|Hne].
    + destruct (Z.ltb_spec 1 (count_ip (sessions_ s) ip)).
      * rewrite lookup_insert_eq, decide_False by lia. done.
      * rewrite lookup_delete_eq, decide_True by lia. done.
    + rewrite Z.sub_0_r, <- Hi'. destruct (1 <? _); by simplify_map_eq.
  - split_and!; cbn; [|done|done|].
    + etrans; [apply delete_subseteq|done].
    + destruct (accept_pc s); try done. destruct Hpc as [? Hn]. split; [done|].
      apply lookup_delete_None. by right.
  - unfold limits_ok, session_count, room, room_ip in *. cbn. rewrite (size_delete_Z _ _ _ E).
    split; [intros Hm; specialize (Hl1 Hm); lia|]. intros Hm ip'. specialize (Hl2 Hm ip').
    rewrite (count_delete _ _ _ ip' E). destruct (decide (ip = ip')); lia.
Qed.

(** Steps that only move the accept chain to a point that needs no room. *)
Lemma set_pc_inv pc s :
  listener_inv s -> match pc with Waiting | Stored _ | Ended => True | _ => False end ->
  listener_inv (set_pc pc s).
Proof.
  intros (Hc & (Hsub & Hlt & Hsz & Hpc) & Hl1 & Hl2) Hp. split; [done|]. split.
  - split_and!; cbn; try done. by destruct pc.
  - unfold limits_ok, session_count, room, room_ip in *. cbn.
    split; intros Hm; [specialize (Hl1 Hm)|intros ip; specialize (Hl2 Hm ip)];
      destruct pc, (accept_pc s); try done; repeat case_decide; lia.
Qed.

Lemma rearm_inv s : listener_inv s -> listener_inv (rearm s).
Proof. intros Hi. unfold rearm. apply set_pc_inv; [done|]. by destruct (listening_ s). Qed.

Lemma on_accept_inv remote s :
  listener_inv s -> accept_pc s = Waiting -> listener_inv (on_accept remote s).
Proof.
  intros Hi Hw. unfold on_accept. case_head; [by apply (rearm_inv (set_rejection _ s))|].
  destruct remote as [ip|]; [|by apply set_pc_inv].
  destruct Hi as (Hc & (Hsub & Hlt & Hsz & Hpc) & Hl1 & Hl2). split; [done|]. split; [done|].
  unfold limits_ok, session_count, room, room_ip in *. cbn. rewrite Hw in *.
  split; [|done]. intros Hm. specialize (Hl1 Hm).
  rewrite (proj2 (Z.ltb_lt _ _) Hm) in E. cbn in E. bools. lia.
Qed.

Lemma check_ip_inv ip s :
  listener_inv s -> accept_pc s = LimitChecked ip -> listener_inv (check_ip ip s).
Proof.
  intros Hi Hw. unfold check_ip. case_head; [by apply (rearm_inv (set_rejection _ s))|].
  destruct Hi as (Hc & (Hsub & Hlt & Hsz & Hpc) & Hl1 & Hl2). split; [done|]. split; [done|].
  unfold limits_ok, session_count, room, room_ip in *. cbn. rewrite Hw in *.
  split; [done|]. intros Hm ip'. specialize (Hl2 Hm ip').
  rewrite (proj2 (Z.ltb_lt _ _) Hm) in E. cbn in E. case_decide as Hd; [|lia]. subst ip'.
  rewrite (Hc ip) in E. pose proof (count_nonneg (sessions_ s) ip).
  case_decide; [lia|]. bools. lia.
Qed.

Lemma create_inv ip s :
  listener_inv s -> accept_pc s = IpChecked ip -> next_session_id s + 1 < 2 ^ 64 ->
  listener_inv (create_session ip s).
Proof.
  intros (Hc & (Hsub & Hlt & Hsz & Hpc) & Hl) Hw Hb.
  assert (created s !! next_session_id s = None) as Hfresh.
  { destruct (created s !! next_session_id s) as [x|] eqn:E; [|done]. apply Hlt in E. lia. }
  assert (u64 (next_session_id s + 1) = next_session_id s + 1) as Hu by (apply cast_small; lia).
  split; [done|]. split.
  - unfold ids_ok. cbn. rewrite Hu. split_and!.
    + apply insert_subseteq_r; [by eapply lookup_weaken_None|done].
    + intros id ip' Hid. apply lookup_insert_Some in Hid as [[<- _]|[_ Hid]]; [lia|].
      apply Hlt in Hid. lia.
    + rewrite map_size_insert_None by done. lia.
    + apply lookup_insert_eq.
    + by eapply lookup_weaken_None.
  - unfold limits_ok, room, room_ip in *. cbn. by rewrite Hw in Hl.
Qed.

Lemma store_inv id ip s :
  listener_inv s -> accept_pc s = Created id ip -> next_session_id s + 1 < 2 ^ 64 ->
  listener_inv (store_session id ip s).
Proof.
  intros (Hc & (Hsub & Hlt & Hsz & Hpc) & Hl1 & Hl2) Hw Hb. rewrite Hw in Hpc.
  destruct Hpc as [Hcr Hno]. split; [|split].
  - intros ip'. cbn. rewrite count_insert by done. pose proof (Hc ip') as Hi'.
    pose proof (count_nonneg (sessions_ s) ip'). pose proof (count_le (sessions_ s) ip').
    pose proof (map_subseteq_size _ _ Hsub). destruct (decide (ip = ip')) as [<-|Hne].
    + rewrite lookup_insert_eq, decide_False by lia. f_equal. rewrite Hi'.
      case_decide as Hd; cbn; [rewrite Hd|]; apply cast_small; lia.
    + by rewrite lookup_insert_ne, Z.add_0_r.
  - unfold ids_ok. cbn. split_and!; [|done|done|done]. by apply insert_subseteq_l.
  - unfold limits_ok, session_count, room, room_ip in *. cbn. rewrite Hw in *.
    rewrite map_size_insert_None by done.
    split; intros Hm; [specialize (Hl1 Hm); lia|]. intros ip'. specialize (Hl2 Hm ip').
    rewrite count_insert by done. lia.
Qed.

Lemma stop_inv s :
  0 <= max_connections_ c -> listener_inv s -> listener_inv (stop s).
Proof.
  intros Hn (Hc & (Hsub & Hlt & Hsz & Hpc) & Hl1 & Hl2).
  pose proof (fun ip => count_nonneg (sessions_ s) ip) as Hnn.
  split; [|split].
  - intros ip. unfold count_ip. cbn. by rewrite map_filter_empty, lookup_empty, map_size_empty.
  - unfold ids_ok. cbn. split_and!; [apply map_empty_subseteq|done|done|].
    destruct (accept_pc s); try done. by destruct Hpc.
  - unfold limits_ok, session_count, room, room_ip, count_ip in *. cbn.
    rewrite map_size_empty.
    split; intros Hm; [specialize (Hl1 Hm)|intros ip; specialize (Hl2 Hm ip)].
    + destruct (accept_pc s); lia.
    + rewrite map_filter_empty, map_size_empty. specialize (Hnn ip).
      destruct (accept_pc s); try case_decide; lia.
Qed.

Lemma step_inv l s s' :
  0 <= max_connections_ c -> listener_inv s -> next_session_id s + 1 < 2 ^ 64 ->
  step l s = Some s' -> listener_inv s'.
Proof.
  intros Hn Hi Hb Hs. destruct l as [remote| | |id|id reason|]; cbn in Hs.
  - destruct (accept_pc s) eqn:E; simplify_eq. by apply on_accept_inv.
  - destruct (accept_pc s) eqn:E; simplify_eq. by apply set_pc_inv.
  - destruct (accept_pc s) eqn:E; simplify_eq;
      auto using check_ip_inv, create_inv, store_inv.
    by apply (rearm_inv (mkListener _ _ _ _ _ _ _ _ _)).
  - destruct (created s !! id) as [ip|] eqn:E; simplify_eq. by apply remove_inv.
  - simplify_eq. unfold kick_session. destruct (sessions_ s !! id) as [ip|] eqn:E; [|done]. cbn [snd].
    assert (created s !! id = Some ip) by (eapply lookup_weaken; [exact E|apply Hi]).
    by apply remove_inv.
  - simplify_eq. by apply stop_inv.
Qed.

Lemma start_inv : 0 <= max_connections_ c -> 0 <= max_per_ip_ c -> listener_inv (start listener_make).
Proof.
  intros Hn Hp. split; [|split].
  - intros ip. unfold count_ip. cbn. by rewrite map_filter_empty, lookup_empty, map_size_empty.
  - unfold ids_ok. cbn. split_and!; [done| |done|done]. intros id ip Hid.
    by rewrite lookup_empty in Hid.
  - unfold limits_ok, session_count, room, room_ip, count_ip. cbn. rewrite map_size_empty.
    split; [lia|]. intros _ ip. rewrite map_filter_empty, map_size_empty. lia.
Qed.

(** C6: the listener's limits hold in every interleaving of its accept chain
    with closing sessions, kicks and a stop: never more than [max_connections_]
    sessions, never more than [max_per_ip_] from one address; and the counter of
    an address is exactly the number of its stored sessions, absent when there
    are none, so no address stays locked out after its sessions are gone. *)
Theorem connection_limits s :
  0 <= max_connections_ c -> 0 <= max_per_ip_ c -> reachable s ->
  (0 < max_connections_ c -> session_count s <= max_connections_ c) /\
  (0 < max_per_ip_ c -> forall ip, count_ip (sessions_ s) ip <= max_per_ip_ c) /\
  (forall ip, ip_counts_ s !! ip =
     (if decide (count_ip (sessions_ s) ip = 0) then None else Some (count_ip (sessions_ s) ip))).
Proof.
  intros Hn Hp Hr.
  assert (listener_inv s) as (Hc & _ & Hl1 & Hl2).
  { induction Hr; [by apply start_inv|by eapply step_inv]. }
  split_and!; [| |done].
  - intros Hm. specialize (Hl1 Hm). unfold room in Hl1. destruct (accept_pc s); lia.
  - intros Hm ip. specialize (Hl2 Hm ip). unfold room_ip in Hl2.
    destruct (accept_pc s); try case_decide; lia.
Qed.

End Listener.

(** Two connections from one address with room for one: the second is turned
    away, and let in after the first was kicked. *)
Definition one_each : Limits := mkLimits 10 1.

Definition knock : list Label :=
  [LAccept (Some "10.0.0.1"); LContinue; LContinue; LContinue; LContinue].

Fixpoint play (c : Limits) (ls : list Label) (s : State) : State :=
  match ls with
  | [] => s
  | l :: ls' =>
      match step c l s with
      | Some s' => if next_session_id s + 1 <? 2 ^ 64 then play c ls' s' else s
      | None => s
      end
  end.

Lemma play_reachable c ls s : reachable c s -> reachable c (play c ls s).
Proof.
  revert s. induction ls as [|l ls IH]; intros s Hr; cbn; [done|].
  destruct (step c l s) as [s'|] eqn:E; [|done]. destruct (_ <? _) eqn:Eb; [|done]. bools.
  apply IH. by eapply reach_step.
Qed.

Definition knocked : State :=
  play one_each (knock ++ [LAccept (Some "10.0.0.1"); LContinue] ++ [LKick 1 "kicked"] ++ knock)
    (start listener_make).

Example knocked_state :
  last_rejection_ knocked = "ip_limit" /\ sessions_ knocked = {[ 2 := "10.0.0.1" ]}.
Proof. vm_compute. done. Qed.

Lemma connection_limits_witness :
  (0 < 10 -> session_count knocked <= 10) /\
  (0 < 1 -> forall ip, count_ip (sessions_ knocked) ip <= 1) /\
  (forall ip, ip_counts_ knocked !! ip =
     (if decide (count_ip (sessions_ knocked) ip = 0) then None
      else Some (count_ip (sessions_ knocked) ip))).
Proof.
  apply (connection_limits one_each knocked); [vm_compute; congruence|vm_compute; congruence|].
  apply play_reachable, reach_start.
Defined.

(** A stop between the creation of a session and its storing leaves the session
    behind: stored and started by a listener that no longer listens, and not
    closed. *)
Example stop_leaves_session :
  let s := play one_each [LAccept (Some "10.0.0.1"); LContinue; LContinue; LStop; LContinue; LContinue]
             (start listener_make) in
  listening_ s = false /\ sessions_ s = {[ 1 := "10.0.0.1" ]} /\ started s = [1] /\ closed s = [].
Proof. vm_compute. done. Qed.

(** A failed accept is not followed by another one: the listener stays open and
    deaf. *)
Lemma accept_error_ends_chain c s s' remote :
  step c LAcceptError s = Some s' -> listening_ s' = listening_ s /\ step c (LAccept remote) s' = None.
Proof. cbn. destruct (accept_pc s); intros; by simplify_eq. Qed.
