(* ===== verification/Manifest.v ===== *)
(** * Manifest: plugin manifests (src/plugin/manifest.cpp)

    The parsed [manifest.yaml] of a plugin package, the conversion of a YAML
    document to JSON, the parser of the JSON form and the loader of the file.
    yaml-cpp is the class [YamlLib]: its loader, its scalar conversions and the
    texts of its exceptions.  Paths are POSIX paths. *)

From S2P Require Import Prelude Text Json.
From Stdlib Require Import Floats.SpecFloat.

(** ** Data *)

Record Lib := mkLib { lib_windows : string; lib_linux : string; lib_macos : string }.
Record Provide := mkProvide { provide_interface : string; capabilities : list string }.
Record Require := mkRequire { require_name : string; require_interface : string; optional : bool }.
Record LuaMeta := mkLuaMeta { lua_namespace : string; search_paths : list string; lua_enabled : bool }.
Record DocumentationMeta := mkDocs { docs_url : string; docs_description : string; docs_enabled : bool }.

Record Manifest := mkManifest {
  schema_version : Z;
  manifest_id : string;
  manifest_name : string;
  version : string;
  kind : string;
  description : string;
  entry : string;
  library : Lib;
  provides : list Provide;
  requires_ : list Require;
  lua : LuaMeta;
  documentation : DocumentationMeta;
  config_schema : json
}.

(** ** Parsing *)

Section Parse.
Context `{JsonLib}.

Definition is_null (j : json) : bool := match j with JNull => true | _ => false end.

(** [j.at(k)]; the callers test the key first. *)
Definition field (k : string) (j : json) : outcome json :=
  match get k j with Some v => Ret v | None => type_error 403 k j end.

Definition missing (k : string) : exn :=
  StdExn ("plugin.manifest.invalid: missing '" ++ k ++ "'").

(** [require_field(j, k)] and the [j.at(k)] that follows every call of it. *)
Definition require_field (k : string) (j : json) : outcome json :=
  match get k j with
  | Some v => if is_null v then Throw (missing k) else Ret v
  | None => Throw (missing k)
  end.

(** The elements a range-for over a JSON value visits: those of an array, the
    values of an object, nothing for null, and the value itself otherwise. *)
Definition elements (j : json) : list json :=
  match j with
  | JNull => []
  | JArr l => l
  | JObj l => map snd l
  | _ => [j]
  end.

Fixpoint omap_list {A B} (f : A -> outcome B) (l : list A) : outcome (list B) :=
  match l with
  | [] => Ret []
  | x :: l' => let! y := f x in let! ys := omap_list f l' in Ret (y :: ys)
  end.

(** [j.contains(k) && j[k].is_array()] with the array, [is_object] likewise. *)
Definition array_field (k : string) (j : json) : option (list json) :=
  match get k j with Some (JArr l) => Some l | _ => None end.

Definition object_field (k : string) (j : json) : option json :=
  match get k j with Some (JObj l) => Some (JObj l) | _ => None end.

Definition parse_library (j : json) : outcome Lib :=
  let! linux := value get_string "linux" "" j in
  let! macos := value get_string "macos" "" j in
  let! windows := value get_string "windows" "" j in
  Ret (mkLib windows linux macos).

Definition parse_provide (p : json) : outcome Provide :=
  let! i := require_field "interface" p in
  let! name := get_string i in
  let! caps := match array_field "capabilities" p with
               | Some l => omap_list get_string l
               | None => Ret []
               end in
  Ret (mkProvide name caps).

Definition parse_require (r : json) : outcome Require :=
  let! n := require_field "name" r in
  let! name := get_string n in
  let! i := require_field "interface" r in
  let! iface := get_string i in
  let! opt := value get_bool "optional" false r in
  Ret (mkRequire name iface opt).

Definition no_lua : LuaMeta := mkLuaMeta "" [] false.

Definition strings_of (l : list json) : list string :=
  omap (fun j => match j with JStr s => Some s | _ => None end) l.

Definition parse_lua (j : json) : outcome LuaMeta :=
  match object_field "lua" j with
  | None => Ret no_lua
  | Some l =>
      let! ns := match get "namespace" l with
                 | Some v => if is_null v then Ret "" else get_string v
                 | None => Ret ""
                 end in
      let paths := match array_field "search_paths" l with Some a => strings_of a | None => [] end in
      Ret (mkLuaMeta ns paths (negb (str_empty ns) || negb (bool_decide (paths = []))))
  end.

Definition no_docs : DocumentationMeta := mkDocs "" "" false.

Definition string_or_empty (o : option json) : string :=
  match o with Some (JStr s) => s | _ => "" end.

Definition parse_documentation (j : json) : DocumentationMeta :=
  match object_field "documentation" j with
  | None => no_docs
  | Some d =>
      let url := string_or_empty (get "url" d) in
      mkDocs url (string_or_empty (get "description" d)) (negb (str_empty url))
  end.

Definition parse_manifest (j : json) : outcome Manifest :=
  let! sv := require_field "schema_version" j in
  let! schema := get_int sv in
  if negb (schema =? 1)
  then Throw (StdExn "plugin.manifest.invalid: schema_version must be 1")
  else
  let! id_ := require_field "id" j in
  let! id := get_string id_ in
  let! entry_ := require_field "entry" j in
  let! ent := get_string entry_ in
  let! name := value get_string "name" id j in
  let! ver := value get_string "version" "0.0.0" j in
  let! knd := value get_string "kind" "" j in
  let! descr := value get_string "description" "" j in
  let! lib_ := require_field "library" j in
  let! lib := parse_library lib_ in
  let! prov_ := require_field "provides" j in
  let! prov := omap_list parse_provide (elements prov_) in
  let! reqs := match array_field "requires" j with
               | Some l => omap_list parse_require l
               | None => Ret []
               end in
  let! lua_ := parse_lua j in
  let docs := parse_documentation j in
  let! cs := value get_json "config_schema" (JObj []) j in
  Ret (mkManifest schema id name ver knd descr ent lib prov reqs lua_ docs cs).

End Parse.

(** The library path of the platform the host is built for. *)
Inductive Platform := Windows | Apple | OtherPlatform.

Definition platform_library_path (platform : Platform) (m : Manifest) : string :=
  match platform with
  | Windows => lib_windows (library m)
  | Apple => lib_macos (library m)
  | OtherPlatform => lib_linux (library m)
  end.

(** ** YAML *)

(** A node of a document: undefined and null nodes, scalars by their tag and
    text. *)
Inductive ynode :=
| YNull
| YScalar (tag s : string)
| YSequence (l : list ynode)
| YMap (l : list (ynode * ynode)).

Inductive yaml_exn :=
| ParserException (what : string)
| BadConversion (what : string)
| OtherYamlExn (what : string).

Class YamlLib := {
  yaml_load : string -> yaml_exn + ynode;
  as_bool : string -> option bool;
  as_int64 : string -> option Z;
  as_double : string -> option spec_float;
  as_string : ynode -> yaml_exn + string
}.

Section Yaml.
Context `{YamlLib}.

(** The first conversion of a scalar that succeeds. *)
Definition scalar_to_json (tag s : string) : yaml_exn + json :=
  match as_bool s with
  | Some b => inr (JBool b)
  | None =>
  match as_int64 s with
  | Some z => inr (JInt z)
  | None =>
  match as_double s with
  | Some f => inr (JFloat f)
  | None => let? t := as_string (YScalar tag s) in inr (JStr t)
  end end end.

Fixpoint yaml_to_json (node : ynode) : yaml_exn + json :=
  match node with
  | YNull => inr JNull
  | YScalar tag s => scalar_to_json tag s
  | YSequence items =>
      let? l := (fix go (l : list ynode) : yaml_exn + list json :=
                   match l with
                   | [] => inr []
                   | x :: l' => let? y := yaml_to_json x in let? ys := go l' in inr (y :: ys)
                   end) items in
      inr (JArr l)
  | YMap items =>
      let? o := (fix go (l : list (ynode * ynode)) (o : list (string * json))
                   : yaml_exn + list (string * json) :=
                   match l with
                   | [] => inr o
                   | (k, v) :: l' =>
                       let? y := yaml_to_json v in
                       let? key := as_string k in
                       go l' (obj_set key y o)
                   end) items [] in
      inr (JObj o)
  end.

End Yaml.

(** ** Paths *)

(** The parts of a text between separators. *)
Fixpoint split_on (sep : Ascii.ascii) (s : string) : list string :=
  match s with
  | EmptyString => [""]
  | String c s' =>
      if Ascii.eqb c sep then "" :: split_on sep s'
      else match split_on sep s' with
           | p :: ps => String c p :: ps
           | [] => [String c ""]
           end
  end.

Definition path_parts : string -> list string := split_on "/"%char.

(** [fs::path::filename()] *)
Definition filename (p : string) : string := List.last (path_parts p) "".

Definition is_absolute (p : string) : bool :=
  match p with String c _ => Ascii.eqb c "/"%char | EmptyString => false end.

(** [p / q] *)
Definition path_join (p q : string) : string :=
  if is_absolute q then q
  else if str_empty (filename p) then p ++ q else p ++ "/" ++ q.

(** ** Loading the file *)

Section Load.
Context `{JsonLib} `{YamlLib}.

(** The files of the host: [None] when the file cannot be opened. *)
Context (read_file : string -> option string).

Definition yaml_rethrow (path : string) (e : yaml_exn) : exn :=
  match e with
  | ParserException w =>
      StdExn ("plugin.manifest.invalid: YAML parse error in " ++ path ++ ": " ++ w)
  | BadConversion w =>
      StdExn ("plugin.manifest.invalid: YAML conversion error in " ++ path ++ ": " ++ w)
  | OtherYamlExn w => StdExn w
  end.

Definition load_manifest_file (path : string) : outcome Manifest :=
  if negb (String.eqb (filename path) "manifest.yaml")
  then Throw (StdExn "plugin.manifest.invalid: manifest file must be named manifest.yaml")
  else
  match read_file path with
  | None => Throw (StdExn ("plugin.manifest.invalid: cannot open " ++ path))
  | Some text =>
      match yaml_load text with
      | inl e => Throw (yaml_rethrow path e)
      | inr node =>
          match yaml_to_json node with
          | inl e => Throw (yaml_rethrow path e)
          | inr j => parse_manifest j
          end
      end
  end.

End Load.

(** ** Specification: the manifest as a document *)

Definition provide_json (p : Provide) : json :=
  JObj [("capabilities", JArr (map JStr (capabilities p)));
        ("interface", JStr (provide_interface p))].

Definition require_json (r : Require) : json :=
  JObj [("interface", JStr (require_interface r)); ("name", JStr (require_name r));
        ("optional", JBool (optional r))].

Definition manifest_json (m : Manifest) : json :=
  JObj [("config_schema", config_schema m);
        ("description", JStr (description m));
        ("documentation", JObj [("description", JStr (docs_description (documentation m)));
                                ("url", JStr (docs_url (documentation m)))]);
        ("entry", JStr (entry m));
        ("id", JStr (manifest_id m));
        ("kind", JStr (kind m));
        ("library", JObj [("linux", JStr (lib_linux (library m)));
                          ("macos", JStr (lib_macos (library m)));
                          ("windows", JStr (lib_windows (library m)))]);
        ("lua", JObj [("namespace", JStr (lua_namespace (lua m)));
                      ("search_paths", JArr (map JStr (search_paths (lua m))))]);
        ("name", JStr (manifest_name m));
        ("provides", JArr (map provide_json (provides m)));
        ("requires", JArr (map require_json (requires_ m)));
        ("schema_version", JUInt (schema_version m));
        ("version", JStr (version m))].

(** What the parser makes sure of: the version, and the derived flags. *)
Definition manifest_ok (m : Manifest) : Prop :=
  schema_version m = 1 /\
  lua_enabled (lua m) = negb (str_empty (lua_namespace (lua m))) ||
                        negb (bool_decide (search_paths (lua m) = [])) /\
  docs_enabled (documentation m) = negb (str_empty (docs_url (documentation m))).

Section RoundTrip.
Context `{JsonLib}.

Lemma omap_list_map {A B} (f : A -> json) (g : json -> outcome B) (h : A -> B) l :
  (forall x, g (f x) = Ret (h x)) -> omap_list g (map f l) = Ret (map h l).
Proof. intros Hg. induction l as [|x l IH]; cbn; [done|]. by rewrite Hg, IH. Qed.

Lemma parse_strings l : omap_list get_string (map JStr l) = Ret l.
Proof. rewrite (omap_list_map _ _ id); [by rewrite map_id|done]. Qed.

Lemma strings_of_map l : strings_of (map JStr l) = l.
Proof. induction l as [|s l IH]; cbn; [done|]. f_equal. exact IH. Qed.

Lemma parse_provide_json p : parse_provide (provide_json p) = Ret p.
Proof. destruct p as [i c]. cbn. by rewrite parse_strings. Qed.

Lemma parse_require_json r : parse_require (require_json r) = Ret r.
Proof. by destruct r. Qed.

Lemma parse_manifest_json m : manifest_ok m -> parse_manifest (manifest_json m) = Ret m.
Proof.
  destruct m as [sv i n v k d e [lw ll lm] pr rq [ns sp le] [du dd de] cs].
  intros (Hv & Hl & Hd). cbn in Hv, Hl, Hd. subst sv le de.
  unfold parse_manifest, parse_lua, parse_documentation. cbn.
  rewrite (omap_list_map _ _ id) by apply parse_provide_json.
  rewrite (omap_list_map _ _ id) by apply parse_require_json. cbn.
  by rewrite !map_id, strings_of_map.
Qed.

Lemma parse_lua_ok j l :
  parse_lua j = Ret l ->
  lua_enabled l = negb (str_empty (lua_namespace l)) || negb (bool_decide (search_paths l = [])).
Proof.
  unfold parse_lua. destruct (object_field "lua" j) as [o|]; [|by intros [= <-]].
  intros (ns & _ & [= <-])%obind_ret_inv. done.
Qed.

Lemma parse_documentation_ok j :
  let d := parse_documentation j in docs_enabled d = negb (str_empty (docs_url d)).
Proof. unfold parse_documentation. by destruct (object_field "documentation" j). Qed.

Lemma parse_manifest_ok j m : parse_manifest j = Ret m -> manifest_ok m.
Proof.
  unfold parse_manifest. intros (sv & _ & Hm)%obind_ret_inv.
  apply obind_ret_inv in Hm as (z & _ & Hm).
  destruct (z =? 1) eqn:Ez; cbn [negb] in Hm; [|done]. bools.
  repeat (apply obind_ret_inv in Hm as (? & ? & Hm)). injection Hm as <-.
  split_and!; [done|by eapply parse_lua_ok|apply parse_documentation_ok].
Qed.

End RoundTrip.

(** Parsing a manifest inverts its document form: every manifest whose
    version is 1 and whose two derived flags agree with the fields they are
    computed from is read back unchanged from its JSON document, and the parser
    returns no other manifests.  In particular any document that parses has
    schema version 1. *)
Theorem manifest_roundtrip `{JsonLib} :
  (forall m, manifest_ok m -> parse_manifest (manifest_json m) = Ret m) /\
  (forall j m, parse_manifest j = Ret m ->
     manifest_ok m /\ parse_manifest (manifest_json m) = Ret m).
Proof.
  split; [exact parse_manifest_json|]. intros j m Hp. pose proof (parse_manifest_ok _ _ Hp).
  split; [done|by apply parse_manifest_json].
Qed.

(** A library that parses nothing and a manifest with every part present. *)
Definition plain_lib : JsonLib :=
  {| json_parse := fun _ => inl (JsonExn "parse error");
     json_dump := fun _ => inr "{}";
     json_error := fun _ _ _ => "type error" |}.

Definition sqlite_manifest : Manifest :=
  mkManifest 1 "shield.database.sqlite" "SQLite" "1.0.0" "database" "" "shield_plugin_get_v1"
    (mkLib "sqlite.dll" "libsqlite.so" "libsqlite.dylib")
    [mkProvide "shield.database.v1" ["sql"; "transactions"]]
    [mkRequire "log" "shield.log.v1" true]
    (mkLuaMeta "database.sqlite" ["lua/?.lua"] true) (mkDocs "https://docs" "" true) (JObj []).

Lemma manifest_roundtrip_witness :
  manifest_ok sqlite_manifest /\
  @parse_manifest plain_lib (manifest_json sqlite_manifest) = Ret sqlite_manifest.
Proof.
  split; [repeat split|]. apply (proj1 (@manifest_roundtrip plain_lib)). repeat split.
Defined.
