(* ===== verification/Schema.v ===== *)
(** * Schema: the JSON-Schema subset of plugin configurations
    (src/plugin/schema_validator.cpp)

    [validate_config] returns the first violation as a text, the empty text when
    the value conforms, and throws when the schema itself has a keyword of the
    wrong type.  [conforms] says what a conforming value is, keyword by keyword;
    [schema_ok] excludes the schemas the validator throws on. *)

From S2P Require Import Prelude Text Json.
From Stdlib Require Import Floats.SpecFloat.

(** ** Numbers and equality of JSON values *)

(** [static_cast<double>] of an integer. *)
Definition double_of_Z (z : Z) : spec_float := binary_normalize 53 1024 z 0 false.

(** The numeric value of a number as a double. *)
Definition number (j : json) : option spec_float :=
  match j with
  | JInt z | JUInt z => Some (double_of_Z z)
  | JFloat f => Some f
  | _ => None
  end.

Definition is_number (j : json) : bool := bool_decide (is_Some (number j)).
Definition is_boolean (j : json) : bool := match j with JBool _ => true | _ => false end.
Definition is_number_integer (j : json) : bool :=
  match j with JInt _ | JUInt _ => true | _ => false end.

(** nlohmann's [operator==]: numbers of different types are converted. *)
Fixpoint json_eqb (a b : json) : bool :=
  match a, b with
  | JNull, JNull => true
  | JBool x, JBool y => Bool.eqb x y
  | JStr x, JStr y => String.eqb x y
  | JInt x, JInt y | JUInt x, JUInt y => x =? y
  | JInt x, JUInt y => x =? signed64 y
  | JUInt x, JInt y => signed64 x =? y
  | JFloat x, JFloat y => SFeqb x y
  | JInt x, JFloat y | JUInt x, JFloat y => SFeqb (double_of_Z x) y
  | JFloat x, JInt y | JFloat x, JUInt y => SFeqb x (double_of_Z y)
  | JArr l, JArr k =>
      (fix go (l k : list json) : bool :=
         match l, k with
         | [], [] => true
         | x :: l', y :: k' => json_eqb x y && go l' k'
         | _, _ => false
         end) l k
  | JObj l, JObj k =>
      (fix go (l k : list (string * json)) : bool :=
         match l, k with
         | [], [] => true
         | (n, x) :: l', (m, y) :: k' => String.eqb n m && json_eqb x y && go l' k'
         | _, _ => false
         end) l k
  | _, _ => false
  end.

(** ** The validator *)

Section Validate.
Context `{JsonLib}.

Definition check_type (want : string) (v : json) : bool :=
  if String.eqb want "object" then is_object v
  else if String.eqb want "array" then is_array v
  else if String.eqb want "string" then is_string v
  else if String.eqb want "integer" then is_number_integer v
  else if String.eqb want "number" then is_number v
  else if String.eqb want "boolean" then is_boolean v
  else true.

Definition join_path (base key : string) : string :=
  if str_empty base then key else base ++ "." ++ key.

(** [get<double>()] *)
Definition get_double (j : json) : outcome spec_float :=
  match number j with Some f => Ret f | None => type_error 302 "number" j end.

(** [if (!err.empty()) return err;] *)
Definition andthen (m k : outcome string) : outcome string :=
  let! err := m in if str_empty err then k else Ret err.

Definition check_keyword_type (schema v : json) (path : string) : outcome string :=
  match get "type" schema with
  | None => Ret ""
  | Some t =>
      let! want := get_string t in
      if check_type want v then Ret ""
      else Ret (if str_empty path then "type mismatch: expected " ++ want
                else path ++ ": type mismatch, expected " ++ want)%string
  end.

Fixpoint check_required (names : list json) (v : json) (path : string) : outcome string :=
  match names with
  | [] => Ret ""
  | k :: names' =>
      let! key := get_string k in
      if contains key v then check_required names' v path
      else Ret (join_path path key ++ ": required field missing")%string
  end.

Definition check_bounds (schema v : json) (path : string) : outcome string :=
  match number v with
  | None => Ret ""
  | Some d =>
      andthen
        (match get "minimum" schema with
         | None => Ret ""
         | Some m => let! b := get_double m in
                     if SFltb d b then Ret (path ++ ": below minimum")%string else Ret ""
         end)
        (match get "maximum" schema with
         | None => Ret ""
         | Some m => let! b := get_double m in
                     if SFltb b d then Ret (path ++ ": above maximum")%string else Ret ""
         end)
  end.

Definition check_enum (schema v : json) (path : string) : outcome string :=
  match get "enum" schema with
  | Some (JArr es) => if existsb (fun e => json_eqb e v) es then Ret ""
                      else Ret (path ++ ": value not in enum")%string
  | _ => Ret ""
  end.

Definition item_path (path : string) (i : Z) : string := path ++ "[" ++ to_string_u64 i ++ "]".

Fixpoint validate_config (schema v : json) (path : string) {struct v} : outcome string :=
  andthen (check_keyword_type schema v path)
  (andthen
    (match v with
     | JObj members =>
         andthen
           (match get "required" schema with
            | Some (JArr names) => check_required names v path
            | _ => Ret ""
            end)
           (match get "properties" schema with
            | Some (JObj props) =>
                (fix go (l : list (string * json)) : outcome string :=
                   match l with
                   | [] => Ret ""
                   | (key, x) :: l' =>
                       match obj_find key props with
                       | Some sub => andthen (validate_config sub x (join_path path key)) (go l')
                       | None => go l'
                       end
                   end) members
            | _ => Ret ""
            end)
     | _ => Ret ""
     end)
  (andthen (check_bounds schema v path)
  (andthen (check_enum schema v path)
    (match v with
     | JArr els =>
         match get "items" schema with
         | Some sub =>
             (fix go (l : list json) (i : Z) : outcome string :=
                match l with
                | [] => Ret ""
                | x :: l' => andthen (validate_config sub x (item_path path i)) (go l' (i + 1))
                end) els 0
         | None => Ret ""
         end
     | _ => Ret ""
     end)))).

(** The paths of the values marked secret. *)
Fixpoint collect_secret_paths (schema : json) (path : string) : outcome (list string) :=
  match schema with
  | JObj sl =>
      let! secret := value get_bool "secret" false schema in
      let! below :=
        (fix props (l : list (string * json)) : outcome (list string) :=
           match l with
           | [] => Ret []
           | (k, p) :: l' =>
               if String.eqb "properties" k then
                 match p with
                 | JObj ps =>
                     (fix go (ps : list (string * json)) : outcome (list string) :=
                        match ps with
                        | [] => Ret []
                        | (key, sub) :: ps' =>
                            let! a := collect_secret_paths sub (join_path path key) in
                            let! b := go ps' in
                            Ret (a ++ b)
                        end) ps
                 | _ => Ret []
                 end
               else props l'
           end) sl in
      Ret ((if (secret : bool) then [path] else []) ++ below)
  | _ => Ret []
  end.

End Validate.

(** ** Defaults *)

(** The inner loop scans for the key ["properties"] so that the recursion into
    a sub-schema is structural; [apply_defaults_eq] restates it with [get]. *)
Fixpoint apply_defaults (schema v : json) {struct schema} : json :=
  match v, schema with
  | JObj members, JObj sl =>
      (fix props (l : list (string * json)) : json :=
         match l with
         | [] => v
         | (k, p) :: l' =>
             if String.eqb "properties" k then
               match p with
               | JObj ps =>
                   JObj ((fix go (ps : list (string * json)) (o : list (string * json))
                            : list (string * json) :=
                            match ps with
                            | [] => o
                            | (key, sub) :: ps' =>
                                go ps'
                                  (match obj_find key o with
                                   | None => match get "default" sub with
                                             | Some d => obj_set key d o
                                             | None => o
                                             end
                                   | Some (JObj x) => obj_set key (apply_defaults sub (JObj x)) o
                                   | Some _ => o
                                   end)
                            end) ps members)
               | _ => v
               end
             else props l'
         end) sl
  | _, _ => v
  end.

(** One property of the loop of [apply_defaults]. *)
Definition default_property (o : list (string * json)) (p : string * json) : list (string * json) :=
  match obj_find p.1 o with
  | None => match get "default" p.2 with Some d => obj_set p.1 d o | None => o end
  | Some (JObj x) => obj_set p.1 (apply_defaults p.2 (JObj x)) o
  | Some _ => o
  end.

Lemma apply_defaults_eq schema v :
  apply_defaults schema v =
  match v, get "properties" schema with
  | JObj members, Some (JObj ps) => JObj (fold_left default_property ps members)
  | _, _ => v
  end.
Proof.
  destruct v, schema as [| | | | | | |sl]; try done. cbn [apply_defaults get].
  induction sl as [|[k p] sl IH]; [done|]. cbn [obj_find].
  destruct (String.eqb "properties" k); [|exact IH]. destruct p as [| | | | | | |ps]; try done.
  f_equal. clear IH. revert l. induction ps as [|[key sub] ps IH]; intros o; [done|].
  cbn [fold_left]. rewrite <- IH. reflexivity.
Qed.

(** ** Specification *)

(** A value conforms to a schema when it satisfies every keyword the schema
    has. *)
Inductive conforms (schema v : json) : Prop :=
| conforms_intro :
    (forall t, get "type" schema = Some t -> exists want, t = JStr want /\ check_type want v = true) ->
    (forall names members, v = JObj members -> get "required" schema = Some (JArr names) ->
       forall n, n ∈ names -> exists key, n = JStr key /\ is_Some (obj_find key members)) ->
    (forall props members key x sub, v = JObj members ->
       get "properties" schema = Some (JObj props) -> (key, x) ∈ members ->
       obj_find key props = Some sub -> conforms sub x) ->
    (forall d, number v = Some d ->
       (forall m, get "minimum" schema = Some m -> exists b, number m = Some b /\ SFltb d b = false) /\
       (forall m, get "maximum" schema = Some m -> exists b, number m = Some b /\ SFltb b d = false)) ->
    (forall es, get "enum" schema = Some (JArr es) -> exists e, e ∈ es /\ json_eqb e v = true) ->
    (forall els sub x, v = JArr els -> get "items" schema = Some sub -> x ∈ els -> conforms sub x) ->
    conforms schema v.

(** The schemas on which no keyword has the wrong type. *)
Inductive schema_ok (schema : json) : Prop :=
| schema_ok_intro :
    (forall t, get "type" schema = Some t -> is_string t = true) ->
    (forall names, get "required" schema = Some (JArr names) ->
       forall n, n ∈ names -> is_string n = true) ->
    (forall m, get "minimum" schema = Some m \/ get "maximum" schema = Some m -> is_Some (number m)) ->
    (forall props key sub, get "properties" schema = Some (JObj props) ->
       obj_find key props = Some sub -> schema_ok sub) ->
    (forall sub, get "items" schema = Some sub -> schema_ok sub) ->
    schema_ok schema.

(** ** Validation decides conformance *)

Section Decides.
Context `{JsonLib}.

(** The loops of the validator. *)
Definition validate_members (props : list (string * json)) (path : string) :=
  fix go (l : list (string * json)) : outcome string :=
    match l with
    | [] => Ret ""
    | (key, x) :: l' =>
        match obj_find key props with
        | Some sub => andthen (validate_config sub x (join_path path key)) (go l')
        | None => go l'
        end
    end.

Definition validate_items (sub : json) (path : string) :=
  fix go (l : list json) (i : Z) : outcome string :=
    match l with
    | [] => Ret ""
    | x :: l' => andthen (validate_config sub x (item_path path i)) (go l' (i + 1))
    end.

Lemma andthen_empty m k : andthen m k = Ret "" <-> m = Ret "" /\ k = Ret "".
Proof.
  destruct m as [[|c e]| |]; cbn; naive_solver.
Qed.

Lemma andthen_total m k :
  (exists e, m = Ret e) -> (exists e, k = Ret e) -> exists e, andthen m k = Ret e.
Proof. intros [[|c e] ->] Hk; cbn; eauto. Qed.

Lemma suffix_nonempty (s t : string) c : Ret (s ++ String c t)%string <> Ret "".
Proof. destruct s; discriminate. Qed.

Lemma check_keyword_type_spec schema v path :
  check_keyword_type schema v path = Ret "" <->
  forall t, get "type" schema = Some t -> exists want, t = JStr want /\ check_type want v = true.
Proof.
  unfold check_keyword_type. destruct (get "type" schema) as [t|]; [|naive_solver].
  destruct t; cbn; try (split; [done|intros Hc; by destruct (Hc _ eq_refl) as (? & ? & ?)]).
  destruct (check_type s v) eqn:E; [naive_solver|]. split.
  - case_match; [discriminate|]. intros Hr. by apply suffix_nonempty in Hr.
  - intros Hc. destruct (Hc _ eq_refl) as (w & [= <-] & Hw). congruence.
Qed.

Lemma contains_obj key members : contains key (JObj members) = true <-> is_Some (obj_find key members).
Proof. unfold contains. by rewrite bool_decide_eq_true. Qed.

Lemma check_required_spec names members path :
  check_required names (JObj members) path = Ret "" <->
  forall n, n ∈ names -> exists key, n = JStr key /\ is_Some (obj_find key members).
Proof.
  induction names as [|n names IH]; cbn [check_required]; [set_solver|].
  destruct n; cbn; try (split; [done|intros Hc; by destruct (Hc _ (list_elem_of_here _ _)) as (? & ? & ?)]).
  destruct (contains s (JObj members)) eqn:E.
  - apply contains_obj in E. rewrite IH. split; [|intros Hc n Hn; apply Hc; by right].
    intros Hc n [->|Hn]%elem_of_cons; eauto.
  - split; [intros Hr; by apply suffix_nonempty in Hr|].
    intros Hc. destruct (Hc _ (list_elem_of_here _ _)) as (k & [= <-] & Hk).
    apply contains_obj in Hk. congruence.
Qed.

Lemma check_bounds_spec schema v path :
  check_bounds schema v path = Ret "" <->
  forall d, number v = Some d ->
    (forall m, get "minimum" schema = Some m -> exists b, number m = Some b /\ SFltb d b = false) /\
    (forall m, get "maximum" schema = Some m -> exists b, number m = Some b /\ SFltb b d = false).
Proof.
  unfold check_bounds. destruct (number v) as [d|]; [|naive_solver].
  assert (forall o (less : spec_float -> bool) t c,
    match o with
    | None => Ret ""
    | Some m => let! b := get_double m in if less b then Ret (path ++ String c t)%string else Ret ""
    end = Ret "" <-> forall m, o = Some m -> exists b, number m = Some b /\ less b = false) as Hone.
  { intros [m|] less t c; [|naive_solver]. unfold get_double.
    destruct (number m) as [b|] eqn:Em; cbn; [|split; [done|naive_solver]].
    destruct (less b) eqn:El; [|naive_solver]. split; [intros Hr; by apply suffix_nonempty in Hr|].
    intros Hc. destruct (Hc _ eq_refl) as (b' & ? & ?). congruence. }
  rewrite andthen_empty, Hone, (Hone _ (fun b => SFltb b d)). naive_solver.
Qed.

Lemma check_enum_spec schema v path :
  check_enum schema v path = Ret "" <->
  forall es, get "enum" schema = Some (JArr es) -> exists e, e ∈ es /\ json_eqb e v = true.
Proof.
  unfold check_enum. destruct (get "enum" schema) as [[]|]; try naive_solver.
  destruct (existsb _ l) eqn:E.
  - apply existsb_exists in E as (e & He & Heq). split; [|done].
    intros _ es [= <-]. exists e. by rewrite list_elem_of_In.
  - split; [intros Hr; by apply suffix_nonempty in Hr|]. intros Hc.
    destruct (Hc _ eq_refl) as (e & He & Heq). rewrite <- not_true_iff_false in E. destruct E.
    apply existsb_exists. exists e. by rewrite <- list_elem_of_In.
Qed.

Lemma validate_config_eq schema v path :
  validate_config schema v path =
  andthen (check_keyword_type schema v path)
  (andthen
    (match v with
     | JObj members =>
         andthen (match get "required" schema with
                  | Some (JArr names) => check_required names v path
                  | _ => Ret ""
                  end)
                 (match get "properties" schema with
                  | Some (JObj props) => validate_members props path members
                  | _ => Ret ""
                  end)
     | _ => Ret ""
     end)
  (andthen (check_bounds schema v path)
  (andthen (check_enum schema v path)
    (match v, get "items" schema with
     | JArr els, Some sub => validate_items sub path els 0
     | _, _ => Ret ""
     end)))).
Proof. by destruct v. Qed.

(** Validation of the members and of the elements, given that it decides
    conformance of each. *)
Lemma validate_members_spec props path members :
  (forall key x, (key, x) ∈ members -> forall s p, validate_config s x p = Ret "" <-> conforms s x) ->
  validate_members props path members = Ret "" <->
  forall key x sub, (key, x) ∈ members -> obj_find key props = Some sub -> conforms sub x.
Proof.
  induction members as [|[k x] l IH]; intros Hx; cbn; [set_solver|].
  assert (Hl : forall key x, (key, x) ∈ l -> forall s p, validate_config s x p = Ret "" <-> conforms s x)
    by (intros; eapply Hx; by right).
  specialize (IH Hl). pose proof (Hx k x (list_elem_of_here _ _)) as H0.
  destruct (obj_find k props) as [sub|] eqn:E.
  - rewrite andthen_empty, IH, H0. split.
    + intros [Hc Hr] key y s [[= -> ->]|Hy]%elem_of_cons Hs; [congruence|by eapply Hr].
    + intros Hc. split; [by eapply Hc; [left|]|]. intros key y s Hy Hs. eapply Hc; [by right|done].
  - rewrite IH. split.
    + intros Hr key y s [[= -> ->]|Hy]%elem_of_cons Hs; [congruence|by eapply Hr].
    + intros Hc key y s Hy Hs. eapply Hc; [by right|done].
Qed.

Lemma validate_items_spec sub path els i :
  (forall x, x ∈ els -> forall s p, validate_config s x p = Ret "" <-> conforms s x) ->
  validate_items sub path els i = Ret "" <-> forall x, x ∈ els -> conforms sub x.
Proof.
  revert i. induction els as [|x l IH]; intros i Hx; cbn; [set_solver|].
  rewrite andthen_empty, IH by (intros; apply Hx; by right).
  rewrite (Hx x (list_elem_of_here _ _)). set_solver.
Qed.

Lemma validate_decides v : forall schema path, validate_config schema v path = Ret "" <-> conforms schema v.
Proof.
  induction v as [v Ha Ho|els IH|members IH] using json_nested_ind; intros schema path;
    rewrite validate_config_eq, !andthen_empty, check_keyword_type_spec, check_bounds_spec, check_enum_spec.
  - split; [intros (? & _ & ? & ? & _); constructor; try assumption; intros; subst v; discriminate|].
    intros [? ? ? ? ? ?]. split_and!; try assumption; destruct v; discriminate || reflexivity.
  - split.
    + intros (? & _ & ? & ? & Hi). constructor; try assumption; try discriminate.
      intros els' sub x [= <-] Hs. rewrite Hs in Hi.
      exact (proj1 (validate_items_spec sub path els 0 IH) Hi x).
    + intros [? ? ? ? ? Hi]. split_and!; try assumption; try reflexivity. destruct (get "items" schema) as [sub|]; [|done].
      apply validate_items_spec; [exact IH|]. intros x Hx. by eapply Hi.
  - split.
    + intros (? & [Hr Hp] & ? & ? & _). constructor; try assumption; try discriminate.
      * intros names m [= <-] E. rewrite E in Hr. exact (proj1 (check_required_spec names members path) Hr).
      * intros props m key x sub [= <-] E. rewrite E in Hp.
        exact (proj1 (validate_members_spec props path members IH) Hp key x sub).
    + intros [? Hr Hp ? ? _]. split_and!; try assumption; try reflexivity.
      * destruct (get "required" schema) as [[]|]; try done. apply check_required_spec. by eapply Hr.
      * destruct (get "properties" schema) as [[]|]; try done. apply validate_members_spec; [exact IH|].
        intros; by eapply Hp.
Qed.

(** ** No exception on a well-typed schema *)

Lemma keyword_total {A} (o : option json) (conv : json -> outcome A) (k : A -> outcome string) :
  (forall t, o = Some t -> exists a, conv t = Ret a) -> (forall a, exists e, k a = Ret e) ->
  exists e, match o with None => Ret "" | Some t => obind (conv t) k end = Ret e.
Proof. intros Hc Hk. destruct o as [t|]; [|eauto]. destruct (Hc t eq_refl) as [a ->]. apply Hk. Qed.

Lemma get_string_total t : is_string t = true -> exists s, get_string t = Ret s.
Proof. destruct t; try discriminate. cbn. eauto. Qed.

Lemma check_bounds_total schema v path : schema_ok schema -> exists e, check_bounds schema v path = Ret e.
Proof.
  intros [_ _ Hn _ _]. unfold check_bounds. destruct (number v) as [d|]; [|eauto].
  assert (forall m, get "minimum" schema = Some m \/ get "maximum" schema = Some m ->
            exists b, get_double m = Ret b) as Hd.
  { intros m Hm. unfold get_double. destruct (Hn m Hm) as [b ->]. by exists b. }
  apply andthen_total; (apply keyword_total; [|intros b; case_match; eauto]);
    intros t E; apply Hd; [by left|by right].
Qed.

Lemma check_required_total names v path :
  (forall n, n ∈ names -> is_string n = true) -> exists e, check_required names v path = Ret e.
Proof.
  induction names as [|n names IH]; intros Hs; cbn; [eauto|].
  destruct (get_string_total n) as [s ->]; [apply Hs; by left|]. cbn.
  case_match; [|eauto]. apply IH. intros; apply Hs; by right.
Qed.

Lemma validate_members_total props path members :
  (forall key x, (key, x) ∈ members -> forall s p, schema_ok s -> exists e, validate_config s x p = Ret e) ->
  (forall key sub, obj_find key props = Some sub -> schema_ok sub) ->
  exists e, validate_members props path members = Ret e.
Proof.
  intros Hx Hp. induction members as [|[k x] l IH]; cbn; [eauto|].
  assert (exists e, validate_members props path l = Ret e) as Hl
    by (apply IH; intros ? ? ? ? ? ?; eapply Hx; [by right|done]).
  destruct (obj_find k props) eqn:E; [|exact Hl]. apply andthen_total; [|exact Hl].
  eapply Hx; [by left|by eapply Hp].
Qed.

Lemma validate_items_total sub path els i :
  (forall x, x ∈ els -> forall p, exists e, validate_config sub x p = Ret e) ->
  exists e, validate_items sub path els i = Ret e.
Proof.
  revert i. induction els as [|x l IH]; intros i Hx; cbn; [eauto|].
  apply andthen_total; [apply Hx; by left|]. apply IH. intros; apply Hx; by right.
Qed.

Lemma validate_total v : forall schema path, schema_ok schema -> exists e, validate_config schema v path = Ret e.
Proof.
  induction v as [v Ha Ho|els IH|members IH] using json_nested_ind; intros schema path Hok;
    rewrite validate_config_eq; pose proof Hok as [Ht Hr _ Hp Hi];
    (apply andthen_total; [apply keyword_total;
       [intros; by apply get_string_total, Ht|intros; case_match; eauto]|]);
    (apply andthen_total; [|apply andthen_total; [by apply check_bounds_total|
       apply andthen_total; [unfold check_enum; repeat case_match; eauto|]]]).
  - destruct v; eauto; done.
  - destruct v; eauto; done.
  - eauto.
  - destruct (get "items" schema) as [sub|]; [|eauto]. apply validate_items_total. eauto.
  - apply andthen_total.
    + destruct (get "required" schema) as [[]|]; eauto. by apply check_required_total, Hr.
    + destruct (get "properties" schema) as [[]|]; eauto. apply validate_members_total; eauto.
  - eauto.
Qed.

End Decides.

(** ** What the defaults leave alone and what they add *)

(** The value at a path of keys. *)
Fixpoint at_path (p : list string) (j : json) : option json :=
  match p with
  | [] => Some j
  | k :: p' => match get k j with Some x => at_path p' x | None => None end
  end.

(** [w] has everything [v] has, at the same paths; only objects may differ, and
    only by more members. *)
Definition keeps (v w : json) : Prop :=
  forall p x, at_path p v = Some x ->
    exists y, at_path p w = Some y /\ if is_object x then is_object y = true else y = x.

#[global] Instance keeps_refl : Reflexive keeps.
Proof. intros v p x Hx. exists x. split; [done|]. by destruct (is_object x) eqn:E. Qed.

#[global] Instance keeps_trans : Transitive keeps.
Proof.
  intros u v w Huv Hvw p x Hx. destruct (Huv _ _ Hx) as (y & Hy & Hxy).
  destruct (Hvw _ _ Hy) as (z & Hz & Hyz). exists z. split; [done|].
  destruct (is_object x) eqn:E; [by rewrite Hxy in Hyz|]. subst y. by rewrite E in Hyz.
Qed.

Lemma keeps_obj l l' :
  (forall k x, obj_find k l = Some x -> exists y, obj_find k l' = Some y /\ keeps x y) ->
  keeps (JObj l) (JObj l').
Proof.
  intros Hl [|k p] x; cbn; [intros [= <-]; by eexists|].
  destruct (obj_find k l) as [v|] eqn:E; [|done]. destruct (Hl _ _ E) as (w & -> & Hk). apply Hk.
Qed.

(** A member after one round of the loop. *)
Lemma default_property_find o p k :
  obj_find k (default_property o p) =
  if String.eqb k p.1 then
    match obj_find k o with
    | None => get "default" p.2
    | Some (JObj x) => Some (apply_defaults p.2 (JObj x))
    | Some v => Some v
    end
  else obj_find k o.
Proof.
  unfold default_property. destruct p as [key sub]. cbn [fst snd].
  destruct (String.eqb_spec k key) as [->|Hne].
  - destruct (obj_find key o) as [[]|] eqn:E; try done; [by rewrite obj_find_set, String.eqb_refl|].
    destruct (get "default" sub) eqn:Ed; [by rewrite obj_find_set, String.eqb_refl|done].
  - apply String.eqb_neq in Hne.
    destruct (obj_find key o) as [[]|]; try done; [by rewrite obj_find_set, Hne|].
    destruct (get "default" sub); [by rewrite obj_find_set, Hne|done].
Qed.

Lemma default_property_keeps o p :
  (forall v, keeps v (apply_defaults p.2 v)) -> keeps (JObj o) (JObj (default_property o p)).
Proof.
  intros Hs. apply keeps_obj. intros k x E. rewrite default_property_find, E.
  destruct (String.eqb k p.1); [|by exists x]. destruct x; by eexists.
Qed.

Lemma fold_defaults_keeps ps o :
  (forall k sub, (k, sub) ∈ ps -> forall v, keeps v (apply_defaults sub v)) ->
  keeps (JObj o) (JObj (fold_left default_property ps o)).
Proof.
  revert o. induction ps as [|[k s] ps IH]; intros o Hs; [done|]. cbn [fold_left].
  etransitivity; [apply (default_property_keeps o (k, s)); apply (Hs k s); by left|].
  apply IH. intros; eapply Hs; by right.
Qed.

Lemma apply_defaults_keeps schema : forall v, keeps v (apply_defaults schema v).
Proof.
  assert (forall j, (forall v, keeps v (apply_defaults j v)) /\
    forall ps, j = JObj ps -> forall k s, (k, s) ∈ ps -> forall v, keeps v (apply_defaults s v)) as H;
    [|by apply H].
  intros j. induction j as [j Ha Ho|l IH|sl IH] using json_nested_ind.
  - split; [|by intros ps ->]. intros v. rewrite apply_defaults_eq. by destruct v, j.
  - split; [|done]. intros v. rewrite apply_defaults_eq. by destruct v.
  - split; [|intros ps [= <-] k s Hs; exact (proj1 (IH k s Hs))].
    intros v. rewrite apply_defaults_eq. destruct v as [| | | | | | |o]; try done.
    destruct (get "properties" (JObj sl)) as [[| | | | | | |ps]|] eqn:E; try done.
    cbn in E. apply obj_find_elem in E. apply fold_defaults_keeps. exact (proj2 (IH _ _ E) ps eq_refl).
Qed.

Lemma fold_defaults_other ps o k :
  k ∉ map fst ps -> obj_find k (fold_left default_property ps o) = obj_find k o.
Proof.
  revert o. induction ps as [|[key s] ps IH]; intros o Hk; [done|]. cbn in *.
  rewrite IH, default_property_find by set_solver. cbn.
  destruct (String.eqb_spec k key) as [->|]; [set_solver|done].
Qed.

Lemma fold_defaults_default ps o k sub d :
  NoDup (map fst ps) -> obj_find k ps = Some sub -> get "default" sub = Some d ->
  obj_find k o = None -> obj_find k (fold_left default_property ps o) = Some d.
Proof.
  revert o. induction ps as [|[key s] ps IH]; intros o Hnd E Hd Ho; [done|]. cbn in *.
  apply list.NoDup_cons in Hnd as [Hk Hnd].
  destruct (String.eqb_spec k key) as [->|Hne].
  - injection E as <-. rewrite fold_defaults_other by done.
    by rewrite default_property_find, String.eqb_refl, Ho.
  - apply IH; try done. rewrite default_property_find. cbn [fst]. by rewrite (proj2 (String.eqb_neq k key)).
Qed.

(** ** Properties *)

(** C7: The validator decides conformance: on a schema without ill-typed
    keywords it returns a text and throws nothing, and the text is empty
    exactly when the value satisfies every keyword of the schema, at every
    depth. *)
Theorem validate_config_decides `{JsonLib} schema v path :
  schema_ok schema ->
  exists err, validate_config schema v path = Ret err /\ (err = "" <-> conforms schema v).
Proof.
  intros Hok. destruct (validate_total v schema path Hok) as [err E]. exists err. split; [done|].
  rewrite <- (validate_decides v schema path), E. naive_solver.
Qed.

(** Defaults never overwrite configuration: every value present before,
    at any depth, is present afterwards at the same path, unchanged unless it is
    an object that gained members; and a property that is absent from the
    configuration gets the default its schema declares. *)
Theorem apply_defaults_fills schema members :
  keeps (JObj members) (apply_defaults schema (JObj members)) /\
  forall props key sub d,
    get "properties" schema = Some (JObj props) -> NoDup (map fst props) ->
    obj_find key props = Some sub -> get "default" sub = Some d ->
    obj_find key members = None -> get key (apply_defaults schema (JObj members)) = Some d.
Proof.
  split; [apply apply_defaults_keeps|]. intros props key sub d Hp Hnd Hk Hd Hm.
  rewrite apply_defaults_eq, Hp. by eapply fold_defaults_default.
Qed.

(** A schema with a typed, bounded port that has a default, and a name from an
    enumeration that is required. *)
Definition port_schema : json :=
  JObj [("default", JUInt 5432); ("maximum", JUInt 65535); ("minimum", JUInt 1);
        ("type", JStr "integer")].

Definition db_schema : json :=
  JObj [("properties", JObj [("mode", JObj [("enum", JArr [JStr "ro"; JStr "rw"])]);
                             ("port", port_schema)]);
        ("required", JArr [JStr "mode"]);
        ("type", JStr "object")].

Definition schema_lib : JsonLib :=
  {| json_parse := fun _ => inl (JsonExn "parse error");
     json_dump := fun _ => inr "{}";
     json_error := fun _ _ _ => "type error" |}.

(** A schema whose members are neither properties nor items. *)
Lemma flat_schema_ok schema :
  (forall t, get "type" schema = Some t -> is_string t = true) ->
  get "required" schema = None ->
  (forall m, get "minimum" schema = Some m \/ get "maximum" schema = Some m -> is_Some (number m)) ->
  get "properties" schema = None -> get "items" schema = None -> schema_ok schema.
Proof. intros Ht Hr Hm Hp Hi. constructor; congruence || eauto. Qed.

Lemma db_schema_ok : schema_ok db_schema.
Proof.
  constructor.
  - by intros t [= <-].
  - intros names [= <-] n Hn. by apply list_elem_of_singleton in Hn as ->.
  - by intros m [|].
  - intros props key sub [= <-]. cbn.
    destruct (String.eqb key "mode"); [|destruct (String.eqb key "port"); [|done]]; intros [= <-].
    + apply flat_schema_ok; try done. by intros m [|].
    + apply flat_schema_ok; try done; [by intros t [= <-]|]. intros m [[= <-]|[= <-]]; by eexists.
  - done.
Qed.

Lemma validate_config_decides_witness :
  schema_ok db_schema /\
  (exists err, @validate_config schema_lib db_schema
                 (JObj [("mode", JStr "rw"); ("port", JUInt 70000)]) "" = Ret err /\
     (err = "" <-> conforms db_schema (JObj [("mode", JStr "rw"); ("port", JUInt 70000)]))) /\
  @validate_config schema_lib db_schema (JObj [("mode", JStr "rw"); ("port", JUInt 70000)]) ""
    = Ret "port: above maximum".
Proof.
  split; [exact db_schema_ok|]. split; [|vm_compute; reflexivity].
  apply (@validate_config_decides schema_lib db_schema
           (JObj [("mode", JStr "rw"); ("port", JUInt 70000)]) "" db_schema_ok).
Defined.

Lemma apply_defaults_fills_witness :
  NoDup (map fst [("mode", JObj [("enum", JArr [JStr "ro"; JStr "rw"])]); ("port", port_schema)]) /\
  get "port" (apply_defaults db_schema (JObj [("mode", JStr "ro")])) = Some (JUInt 5432).
Proof.
  assert (NoDup (map fst [("mode", JObj [("enum", JArr [JStr "ro"; JStr "rw"])]); ("port", port_schema)]))
    as Hnd by (apply (bool_decide_unpack _); vm_compute; exact I).
  split; [exact Hnd|].
  apply (proj2 (apply_defaults_fills db_schema [("mode", JStr "ro")])
           [("mode", JObj [("enum", JArr [JStr "ro"; JStr "rw"])]); ("port", port_schema)]
           "port" port_schema (JUInt 5432) eq_refl Hnd); reflexivity.
Defined.

(** A schema with an ill-typed keyword makes the validator throw. *)
Example validate_config_throws :
  @validate_config schema_lib (JObj [("type", JArr [JStr "string"])]) (JObj []) ""
  = Throw (JsonExn "type error").
Proof. reflexivity. Qed.

(** The paths of secrets, nested ones included. *)
Example secret_paths :
  @collect_secret_paths schema_lib
    (JObj [("properties", JObj [("auth", JObj [("properties",
        JObj [("password", JObj [("secret", JBool true)])])]); ("host", JObj [])])]) ""
  = Ret ["auth.password"].
Proof. reflexivity. Qed.
