(* ===== verification/Topo.v ===== *)
(** * Topo: the start order of plugins (PluginHost::plan_and_resolve)

    Kahn's algorithm as the plugin host runs it: in-degrees and adjacency
    lists built from the resolved dependencies, a queue of the instances whose
    dependencies are all placed, first in key order.  An edge [(d, i)] says
    that instance [i] depends on instance [d]. *)

From S2P Require Import Prelude.

Definition edge : Type := string * string.

(** ** Definitions *)

(** The keys of a [std::map]: in increasing order, without duplicates. *)
Fixpoint key_insert (k : string) (l : list string) : list string :=
  match l with
  | [] => [k]
  | k' :: l' =>
      match String.compare k k' with
      | Lt => k :: l
      | Eq => l
      | Gt => k' :: key_insert k l'
      end
  end.

Definition map_keys (ids : list string) : list string := foldr key_insert [] ids.

Fixpoint occurrences (x : string) (l : list string) : Z :=
  match l with [] => 0 | y :: l' => (if String.eqb x y then 1 else 0) + occurrences x l' end.

(** [indeg[i]]: the number of edges into [i]. *)
Definition indegree (edges : list edge) (i : string) : Z := occurrences i (map snd edges).

(** [adj[n]]: the dependents of [n], in the order the edges were added. *)
Definition adjacent (edges : list edge) (n : string) : list string :=
  map snd (filter (fun e : edge => e.1 = n) edges).

(** [for (m : adj[n]) if (--work[m] == 0) q.push_back(m);] *)
Fixpoint relax (ms : list string) (work : string -> Z) (q : list string)
  : (string -> Z) * list string :=
  match ms with
  | [] => (work, q)
  | m :: ms' =>
      let w := work m - 1 in
      let work' := fun x => if String.eqb x m then w else work x in
      relax ms' work' (if w =? 0 then q ++ [m] else q)
  end.

(** The [while (!q.empty())] loop: the instances in the order they leave the
    queue. *)
Fixpoint drain_queue (fuel : nat) (edges : list edge) (work : string -> Z) (q : list string)
  : list string :=
  match fuel, q with
  | _, [] => []
  | O, _ => []
  | S fuel', n :: q' =>
      let '(work', q'') := relax (adjacent edges n) work q' in
      n :: drain_queue fuel' edges work' q''
  end.

(** The queue starts with the instances of in-degree 0, in key order; every
    instance enters it at most once, so as many rounds as instances suffice. *)
Definition start_order (ids : list string) (edges : list edge) : list string :=
  let indeg := indegree edges in
  let q0 := filter (fun k => indeg k = 0) (map_keys ids) in
  drain_queue (length ids) edges indeg q0.

(** [visited != instances_.size()] *)
Definition has_cycle (ids : list string) (edges : list edge) : bool :=
  negb (bool_decide (length (start_order ids edges) = length ids)).

(** ** Specification *)

(** Every instance comes after what it depends on. *)
Definition deps_first (edges : list edge) (l : list string) : Prop :=
  forall l1 i l2, l = l1 ++ i :: l2 -> forall d, (d, i) ∈ edges -> d ∈ l1.

Definition topological (ids : list string) (edges : list edge) (l : list string) : Prop :=
  l ≡ₚ ids /\ deps_first edges l.

(** ** Keys *)

Lemma elem_of_key_insert x k l : x ∈ key_insert k l <-> x = k \/ x ∈ l.
Proof.
  induction l as [|y l IH]; cbn [key_insert]; [set_solver|].
  destruct (String.compare k y) eqn:E; [|set_solver..].
  apply String.compare_eq_iff in E as ->. set_solver.
Qed.

Lemma elem_of_map_keys x ids : x ∈ map_keys ids <-> x ∈ ids.
Proof.
  induction ids as [|y ids IH]; cbn; [done|]. rewrite elem_of_key_insert. set_solver.
Qed.

Lemma key_insert_perm k l : k ∉ l -> key_insert k l ≡ₚ k :: l.
Proof.
  induction l as [|y l IH]; cbn [key_insert]; intros Hk; [done|].
  destruct (String.compare k y) eqn:E; [|done|].
  - apply String.compare_eq_iff in E as ->. set_solver.
  - rewrite IH by set_solver. apply Permutation_swap.
Qed.

Lemma map_keys_perm ids : NoDup ids -> map_keys ids ≡ₚ ids.
Proof.
  induction 1 as [|k ids Hk _ IH]; cbn; [done|].
  rewrite key_insert_perm, IH; [done|]. by rewrite elem_of_map_keys.
Qed.

(** ** Occurrences and open dependencies *)

Lemma occurrences_nonneg x l : 0 <= occurrences x l.
Proof. induction l as [|y l IH]; cbn; [|destruct (String.eqb x y)]; lia. Qed.

Lemma occurrences_pos x l : 0 < occurrences x l <-> x ∈ l.
Proof.
  induction l as [|y l IH]; cbn; [set_solver by lia|].
  pose proof (occurrences_nonneg x l). destruct (String.eqb_spec x y) as [->|Hne]; [set_solver by lia|].
  rewrite elem_of_cons, <- IH. split; [lia|naive_solver].
Qed.

(** The edges into [m] from instances that are not placed yet. *)
Definition undone (edges : list edge) (placed : list string) (m : string) : Z :=
  occurrences m (map snd (filter (fun e : edge => e.1 ∉ placed) edges)).

Lemma undone_nonneg edges placed m : 0 <= undone edges placed m.
Proof. apply occurrences_nonneg. Qed.

Lemma undone_zero edges placed m :
  undone edges placed m = 0 <-> forall d, (d, m) ∈ edges -> d ∈ placed.
Proof.
  pose proof (undone_nonneg edges placed m) as Hn. unfold undone in *.
  pose proof (occurrences_pos m (map snd (filter (fun e : edge => e.1 ∉ placed) edges))) as Hp.
  split.
  - intros H0 d Hd. destruct (decide (d ∈ placed)) as [|Hno]; [done|]. exfalso.
    assert (m ∈ map snd (filter (fun e : edge => e.1 ∉ placed) edges)) as Hin.
    { apply list_elem_of_fmap. exists (d, m). split; [done|]. by apply list_elem_of_filter. }
    apply Hp in Hin. lia.
  - intros Hall. destruct (decide (0 < occurrences m (map snd (filter (fun e : edge => e.1 ∉ placed) edges))))
      as [Hpos|]; [|lia]. apply Hp in Hpos. apply list_elem_of_fmap in Hpos as ([d m'] & Heq & Hin).
    apply list_elem_of_filter in Hin as [Hno Hin]. cbn in *. subst m'. by destruct (Hno (Hall d Hin)).
Qed.

(** Placing [n] settles exactly the edges out of [n]. *)
Lemma undone_place edges placed n m :
  n ∉ placed ->
  undone edges (placed ++ [n]) m = undone edges placed m - occurrences m (adjacent edges n).
Proof.
  intros Hn. unfold undone, adjacent.
  induction edges as [|[d i] edges IH]; [done|]. rewrite !filter_cons. cbn [fst].
  destruct (decide (d = n)) as [->|Hdn].
  - rewrite (decide_False (P := n ∉ placed ++ [n])) by set_solver.
    rewrite (decide_True (P := n ∉ placed)) by done. cbn. rewrite IH. lia.
  - destruct (decide (d ∉ placed)) as [Hp|Hp].
    + rewrite (decide_True (P := d ∉ placed ++ [n])) by set_solver. cbn. rewrite IH. lia.
    + rewrite (decide_False (P := d ∉ placed ++ [n])) by set_solver. exact IH.
Qed.

Lemma undone_start edges m : undone edges [] m = indegree edges m.
Proof.
  unfold undone, indegree. f_equal. f_equal. induction edges as [|e edges IH]; [done|].
  rewrite filter_cons, decide_True by set_solver. by rewrite IH.
Qed.

(** ** One round of the loop *)

Lemma relax_spec ms work q work' q' :
  relax ms work q = (work', q') -> (forall m, occurrences m ms <= work m) ->
  (forall m, work' m = work m - occurrences m ms) /\
  exists p, q' = q ++ p /\ NoDup p /\
    forall m, m ∈ p <-> m ∈ ms /\ work m = occurrences m ms.
Proof.
  revert work q. induction ms as [|x ms IH]; intros work q E Hle; cbn in E.
  - simplify_eq. split; [intros; cbn; lia|]. exists []. rewrite app_nil_r.
    split_and!; [done|apply NoDup_nil_2|set_solver].
  - pose proof (fun m => occurrences_nonneg m ms) as Hnn.
    apply IH in E as (Hw & p & -> & Hnd & Hp).
    2: { intros m. pose proof (Hle m) as Hm. revert Hm. cbn.
         destruct (String.eqb_spec m x) as [Hmx|]; [subst m|]; lia. }
    split.
    + intros m. rewrite Hw. cbn. destruct (String.eqb_spec m x) as [Hmx|]; [subst m|]; lia.
    + pose proof (Hle x) as Hx. cbn in Hx. rewrite String.eqb_refl in Hx.
      assert (forall m, m <> x -> m ∈ p <-> m ∈ ms /\ work m = occurrences m ms) as Hp'.
      { intros m Hm. rewrite Hp. by rewrite (proj2 (String.eqb_neq m x)). }
      assert (x ∈ p <-> x ∈ ms /\ work x - 1 = occurrences x ms) as Hpx
        by (rewrite Hp; by rewrite String.eqb_refl).
      destruct (work x - 1 =? 0) eqn:E0; bools.
      * assert (x ∉ p) as Hnx.
        { intros Hin. apply Hpx in Hin as [Hin He]. apply occurrences_pos in Hin. lia. }
        exists (x :: p). rewrite <- app_assoc. split_and!; [done|by apply NoDup_cons_2|].
        intros m. cbn. destruct (String.eqb_spec m x) as [Hmx|Hm]; [subst m|].
        -- specialize (Hnn x). split; [intros _; split; [by left|lia]|intros _; by left].
        -- rewrite elem_of_cons, elem_of_cons, Hp' by done. naive_solver.
      * exists p. split_and!; [done|done|]. intros m. cbn.
        destruct (String.eqb_spec m x) as [Hmx|Hm]; [subst m|].
        -- rewrite Hpx, elem_of_cons. rewrite <- occurrences_pos. specialize (Hnn x). split; [lia|].
           intros [_ ?]. split; lia.
        -- rewrite elem_of_cons, Hp' by done. naive_solver.
Qed.

(** ** The loop *)

Section Loop.
Context (ids : list string) (edges : list edge).

(** The instances are distinct and the edges connect them. *)
Context (ids_nodup : NoDup ids).
Context (edges_ids : forall d i, (d, i) ∈ edges -> d ∈ ids /\ i ∈ ids).

(** [placed] have left the queue; the queue holds exactly the others whose
    dependencies are all placed. *)
Definition loop_inv (placed q : list string) (work : string -> Z) : Prop :=
  NoDup (placed ++ q) /\ (forall m, m ∈ placed ++ q -> m ∈ ids) /\
  (forall m, work m = undone edges placed m) /\
  (forall m, m ∈ ids -> m ∈ placed ++ q <-> undone edges placed m = 0).

Lemma loop_start : loop_inv [] (filter (fun k => indegree edges k = 0) (map_keys ids)) (indegree edges).
Proof.
  unfold loop_inv. cbn [app]. split_and!.
  - apply list.NoDup_filter. by rewrite map_keys_perm.
  - intros m Hm. apply list_elem_of_filter in Hm as [_ Hm]. by apply elem_of_map_keys.
  - intros m. by rewrite undone_start.
  - intros m Hm. rewrite list_elem_of_filter, elem_of_map_keys, undone_start. naive_solver.
Qed.

Lemma loop_round placed n q work work' q' :
  loop_inv placed (n :: q) work -> relax (adjacent edges n) work q = (work', q') ->
  loop_inv (placed ++ [n]) q' work'.
Proof.
  intros (Hnd & Hin & Hw & Hq) Hr.
  assert (placed ++ n :: q = (placed ++ [n]) ++ q) as Happ by (by rewrite <- app_assoc).
  assert (n ∉ placed) as Hn.
  { apply list.NoDup_app in Hnd as (_ & Hd & _). intros Hc. apply (Hd _ Hc). by left. }
  assert (forall m, undone edges (placed ++ [n]) m =
            undone edges placed m - occurrences m (adjacent edges n)) as Hu
    by (intros; by apply undone_place).
  destruct (relax_spec _ _ _ _ _ Hr) as (Hw' & p & -> & Hpn & Hp).
  { intros m. rewrite Hw. pose proof (undone_nonneg edges (placed ++ [n]) m). specialize (Hu m). lia. }
  assert (forall m, m ∈ p -> m ∈ ids /\ 0 < undone edges placed m) as Hpp.
  { intros m Hm. apply Hp in Hm as [Hm He]. rewrite Hw in He. pose proof Hm as Hpos.
    apply occurrences_pos in Hpos. split; [|lia].
    unfold adjacent in Hm. apply list_elem_of_fmap in Hm as ([d i] & -> & He').
    apply list_elem_of_filter in He' as [_ He']. by apply edges_ids in He' as [_ ?]. }
  rewrite Happ in *. unfold loop_inv. rewrite !(app_assoc (placed ++ [n])). split_and!.
  - apply list.NoDup_app. split_and!; [done| |done]. intros m Hm Hmp.
    destruct (Hpp m Hmp) as [Hmi Hpos]. apply (Hq m Hmi) in Hm. lia.
  - intros m Hm. apply elem_of_app in Hm as [Hm|Hm]; [by apply Hin|by apply Hpp].
  - intros m. rewrite Hw', Hw, Hu. done.
  - intros m Hm. rewrite elem_of_app, Hq by done. rewrite Hu, Hp, Hw.
    pose proof (undone_nonneg edges (placed ++ [n]) m) as Hnn. rewrite Hu in Hnn.
    pose proof (occurrences_nonneg m (adjacent edges n)).
    rewrite <- occurrences_pos. split; [lia|]. intros He.
    destruct (decide (undone edges placed m = 0)); [by left|right]. lia.
Qed.

(** What the loop leaves: an order without repetitions, dependencies first, that
    misses no instance whose dependencies it contains. *)
Lemma drain_queue_spec fuel placed q work :
  loop_inv placed q work -> (length ids <= fuel + length placed)%nat ->
  deps_first edges placed ->
  let l := placed ++ drain_queue fuel edges work q in
  NoDup l /\ (forall m, m ∈ l -> m ∈ ids) /\ deps_first edges l /\
  (forall m, m ∈ ids -> undone edges l m = 0 -> m ∈ l).
Proof.
  revert placed q work. induction fuel as [|fuel IH]; intros placed q work Hi Hf Hd.
  - assert (q = []) as ->.
    { destruct Hi as (Hnd & Hin & _). destruct q as [|n q]; [done|].
      assert (placed ++ n :: q ⊆+ ids) as Hs by (apply NoDup_submseteq; [done|exact Hin]).
      apply submseteq_length in Hs. rewrite length_app in Hs. cbn in Hs. lia. }
    cbn. destruct Hi as (Hnd & Hin & Hw & Hq). rewrite app_nil_r in *. split_and!; try done.
    intros m Hm. by apply Hq.
  - destruct q as [|n q].
    { cbn. destruct Hi as (Hnd & Hin & Hw & Hq). rewrite app_nil_r in *. split_and!; try done.
      intros m Hm. by apply Hq. }
    cbn [drain_queue]. destruct (relax (adjacent edges n) work q) as [work' q'] eqn:Er.
    pose proof (loop_round _ _ _ _ _ _ Hi Er) as Hi'.
    assert (deps_first edges (placed ++ [n])) as Hd'.
    { intros l1 i l2 Heq d He. destruct (decide (l2 = [])) as [->|Hne].
      - apply app_inj_tail in Heq as [<- <-].
        destruct Hi as (_ & Hin & _ & Hq).
        assert (n ∈ placed ++ n :: q) as Hn by set_solver.
        pose proof (Hin _ Hn) as Hni. apply (Hq _ Hni) in Hn. by apply (proj1 (undone_zero _ _ _) Hn).
      - destruct (exists_last Hne) as (l3 & x & ->).
        rewrite app_comm_cons, app_assoc in Heq. apply app_inj_tail in Heq as [Heq _].
        by eapply Hd. }
    specialize (IH (placed ++ [n]) q' work' Hi'). cbn [app].
    rewrite cons_middle, app_assoc. apply IH; [|done]. rewrite length_app. cbn. lia.
Qed.

Lemma start_order_spec :
  let l := start_order ids edges in
  NoDup l /\ (forall m, m ∈ l -> m ∈ ids) /\ deps_first edges l /\
  (forall m, m ∈ ids -> undone edges l m = 0 -> m ∈ l).
Proof.
  apply (drain_queue_spec _ [] _ _ loop_start); [cbn; lia|].
  intros l1 i l2 Heq. by destruct l1.
Qed.

(** An order of all instances leaves none behind. *)
Lemma start_order_complete l : topological ids edges l -> start_order ids edges ≡ₚ ids.
Proof.
  intros [Hp Hd]. destruct start_order_spec as (Hnd & Hin & _ & Hclo).
  apply submseteq_length_Permutation; [by apply NoDup_submseteq|].
  apply submseteq_length, NoDup_submseteq; [done|]. intros m Hm.
  assert (forall l1 l2, l = l1 ++ l2 -> forall x, x ∈ l1 -> x ∈ start_order ids edges) as Hpre.
  { intros l1. induction l1 as [|x l1 IH] using rev_ind; intros l2 Heq y Hy; [set_solver|].
    rewrite <- app_assoc in Heq. cbn in Heq.
    apply elem_of_app in Hy as [Hy|Hy]; [by eapply IH|].
    apply list_elem_of_singleton in Hy as ->. apply Hclo.
    - rewrite <- Hp, Heq. set_solver.
    - apply undone_zero. intros d He. eapply IH; [exact Heq|]. by eapply Hd. }
  apply (Hpre l []); [by rewrite app_nil_r|]. by rewrite Hp.
Qed.

Lemma start_order_topological : has_cycle ids edges = false -> topological ids edges (start_order ids edges).
Proof.
  intros Hc. destruct start_order_spec as (Hnd & Hin & Hd & _). split; [|done].
  unfold has_cycle in Hc. bools. apply bool_decide_eq_true in Hc.
  apply submseteq_length_Permutation; [by apply NoDup_submseteq|lia].
Qed.

Lemma has_cycle_sound l : topological ids edges l -> has_cycle ids edges = false.
Proof.
  intros Hl. unfold has_cycle. rewrite bool_decide_eq_true_2; [done|].
  by rewrite (start_order_complete l Hl).
Qed.

End Loop.
