(* ===== verification/PluginHost.v ===== *)
(** * PluginHost: the plugin pipeline (src/plugin/plugin_host.cpp)

    scan, catalog, plan, resolve, load, create, start and shutdown over the
    packages and instances of the host.  The plugins themselves are foreign
    code: the class [Plugins] says what a library, an entry point and the
    functions of an instance answer, and every answer may depend on all calls
    made before.  The host's calls into plugins are recorded in [calls], oldest
    first; a plugin can call back only into functions of the host that change
    none of its state.

    A stage returns [Ret None] where the code returns true, [Ret (Some e)] where
    it returns false with [error] set to [e], and [Throw] where an exception
    leaves it.  A pointer to a package or instance is the package or the id of
    the instance. *)

From S2P Require Import Prelude Text Json Manifest Schema Topo.

(** ** Data *)

Record InstanceDecl := mkDecl {
  decl_id : string;
  decl_package : string;
  required : bool;
  dependencies : list (string * string);  (* std::map: in key order *)
  config : json
}.

Record BindingDecl := mkBinding { logical : string; instance_id : string }.

Record PluginConfig := mkPluginConfig {
  directory : string;
  decls : list InstanceDecl;
  decl_bindings : list BindingDecl
}.

Record Package := mkPackage { manifest : Manifest; root : string }.

Inductive State := planned | loaded | started | unavailable | failed | stopped.

#[global] Instance State_eq_dec : EqDecision State.
Proof. solve_decision. Defined.

(** The ABI table of a library and the shell of an instance: the sizes and ids
    they carry, and which of their function pointers are set. *)
Record Abi := mkAbi {
  abi_version : Z;
  abi_struct_size : Z;
  abi_package_id : option string;
  has_create : bool
}.

Record Handle := mkHandle {
  handle_struct_size : Z;
  has_get_interface : bool;
  has_start : bool;
  has_shutdown : bool;
  has_register_lua : bool
}.

Record Instance_ := mkInstance {
  id : string;
  package : option Package;
  decl : InstanceDecl;
  state : State;
  lib : option string;          (* the path of the loaded library *)
  abi : option Abi;
  handle : option Handle;
  dep_ids : list string;
  last_error : string
}.

(** The fields of shield_error_v1 the host reads. *)
Record Err := mkErr { err_code : option string; err_message : option string }.

(** The calls the host makes into libraries and plugins. *)
Inductive Call :=
| COpen (path : string)
| CCreate (id config_json : string)
| CInterface (id name : string)
| CStart (id : string) (ok : bool)
| CShutdown (id : string)
| CRegisterLua (id : string).

Class Plugins := {
  dlopen : list Call -> string -> string + unit;
  entry_point : list Call -> string -> string -> option (option Abi);
  create : list Call -> string -> string -> Z * option Handle * Err;
  get_interface : list Call -> string -> string -> option Z;
  start : list Call -> string -> Z * Err;
  register_lua : list Call -> string -> Z * Err
}.

(** The files the host sees: [exists] and [is_directory] may throw; a listing
    gives the entries read before an exception ended it. *)
Class FileSystem := {
  fs_exists : string -> exn + bool;
  fs_is_directory : string -> exn + bool;
  fs_list : string -> list string * option exn;
  fs_read : string -> option string
}.

Record Host := mkHost {
  packages : list Package;
  instances : list Instance_;
  bindings : list BindingDecl;
  contexts : list string;
  start_ids : list string;      (* impl_->start_order *)
  calls : list Call
}.

Definition host_make : Host := mkHost [] [] [] [] [] [].

Definition ABI_VERSION : Z := 1.
Definition sizeof_abi : Z := 32.
Definition sizeof_instance : Z := 48.

(** ** Field updates *)

Definition set_state (s : State) (i : Instance_) : Instance_ :=
  mkInstance (id i) (package i) (decl i) s (lib i) (abi i) (handle i) (dep_ids i) (last_error i).
Definition set_handle (h : option Handle) (i : Instance_) : Instance_ :=
  mkInstance (id i) (package i) (decl i) (state i) (lib i) (abi i) h (dep_ids i) (last_error i).
Definition set_abi (a : option Abi) (i : Instance_) : Instance_ :=
  mkInstance (id i) (package i) (decl i) (state i) (lib i) a (handle i) (dep_ids i) (last_error i).
Definition set_lib (l : option string) (i : Instance_) : Instance_ :=
  mkInstance (id i) (package i) (decl i) (state i) l (abi i) (handle i) (dep_ids i) (last_error i).
Definition set_dep_ids (d : list string) (i : Instance_) : Instance_ :=
  mkInstance (id i) (package i) (decl i) (state i) (lib i) (abi i) (handle i) d (last_error i).
Definition set_last_error (e : string) (i : Instance_) : Instance_ :=
  mkInstance (id i) (package i) (decl i) (state i) (lib i) (abi i) (handle i) (dep_ids i) e.
Definition set_config (c : json) (i : Instance_) : Instance_ :=
  let d := decl i in
  mkInstance (id i) (package i)
    (mkDecl (decl_id d) (decl_package d) (required d) (dependencies d) c)
    (state i) (lib i) (abi i) (handle i) (dep_ids i) (last_error i).

Definition set_instances (l : list Instance_) (h : Host) : Host :=
  mkHost (packages h) l (bindings h) (contexts h) (start_ids h) (calls h).
Definition set_calls (t : list Call) (h : Host) : Host :=
  mkHost (packages h) (instances h) (bindings h) (contexts h) (start_ids h) t.
Definition set_contexts (c : list string) (h : Host) : Host :=
  mkHost (packages h) (instances h) (bindings h) c (start_ids h) (calls h).
Definition set_start_ids (o : list string) (h : Host) : Host :=
  mkHost (packages h) (instances h) (bindings h) (contexts h) o (calls h).
Definition set_bindings (b : list BindingDecl) (h : Host) : Host :=
  mkHost (packages h) (instances h) b (contexts h) (start_ids h) (calls h).
Definition set_packages (p : list Package) (h : Host) : Host :=
  mkHost p (instances h) (bindings h) (contexts h) (start_ids h) (calls h).

(** ** Helpers *)

Definition state_name (s : State) : string :=
  match s with
  | planned => "planned" | loaded => "loaded" | started => "started"
  | unavailable => "unavailable" | failed => "failed" | stopped => "stopped"
  end.

Definition find_package (pid : string) (l : list Package) : option Package :=
  List.find (fun p => String.eqb (manifest_id (manifest p)) pid) l.

Definition find_instance (i : string) (l : list Instance_) : option Instance_ :=
  List.find (fun x => String.eqb (id x) i) l.

(** Changing the instance [find_instance_mut] points to. *)
Fixpoint update_instance (i : string) (f : Instance_ -> Instance_) (l : list Instance_) : list Instance_ :=
  match l with
  | [] => []
  | x :: l' => if String.eqb (id x) i then f x :: l' else x :: update_instance i f l'
  end.

Definition provides_interface (p : option Package) (name : string) : bool :=
  match p with
  | None => false
  | Some p => existsb (fun x => String.eqb (provide_interface x) name) (provides (manifest p))
  end.

Definition find_require (m : Manifest) (name : string) : option Require :=
  List.find (fun r => String.eqb (require_name r) name) (requires_ m).

Definition dependency_of (d : InstanceDecl) (name : string) : option string :=
  option_map snd (List.find (fun p => String.eqb (fst p) name) (dependencies d)).

Definition has_parent_reference (p : string) : bool :=
  existsb (fun part => String.eqb part "..") (path_parts p).

(** A stage's result. *)
Definition Res : Type := outcome (option string).
Definition ok : Res := Ret None.
Definition fail (e : string) : Res := Ret (Some e).

(** [fail_or_unavailable]: false, with the error, for a required instance. *)
Definition fail_or_unavailable (i : Instance_) (message : string) : Instance_ * Res :=
  let i := set_last_error message i in
  if required (decl i) then (set_state failed i, fail message)
  else (set_state unavailable i, ok).

Definition release_unstarted_handle (t : list Call) (i : Instance_) : list Call * Instance_ :=
  (match handle i with
   | Some h => if has_shutdown h then t ++ [CShutdown (id i)] else t
   | None => t
   end, set_handle None i).

Definition opt_text (pre post : string) (o : option string) : string :=
  match o with Some s => pre ++ s ++ post | None => "" end.

(** A loop over the instances whose body may leave the stage. *)
Fixpoint each {S} (body : S -> Instance_ -> S * Instance_ * Res) (s : S) (l : list Instance_)
  : S * list Instance_ * Res :=
  match l with
  | [] => (s, [], ok)
  | i :: l' =>
      let '(s', i', r) := body s i in
      match r with
      | Ret None => let '(s'', l'', r') := each body s' l' in (s'', i' :: l'', r')
      | _ => (s', i' :: l', r)
      end
  end.

(** ** The stages *)

Section Stages.
Context `{JsonLib} `{YamlLib} `{Plugins} `{FileSystem}.

(** The platform the host is built for. *)
Context (platform : Platform).

(** *** scan *)

(** One directory entry: the package it holds, if any; a manifest that cannot
    be read or parsed is skipped. *)
Definition scan_entry (path : string) : outcome (option Package) :=
  let! d := of_sum (fs_is_directory path) in
  if negb (d : bool) then Ret None
  else
  let yaml_path := path_join path "manifest.yaml" in
  let! e := of_sum (fs_exists yaml_path) in
  if negb (e : bool) then Ret None
  else match load_manifest_file fs_read yaml_path with
       | Ret m => Ret (Some (mkPackage m path))
       | Throw _ => Ret None
       | Undef => Undef
       end.

Fixpoint scan_entries (l : list string) (acc : list Package) : list Package * Res :=
  match l with
  | [] => (acc, ok)
  | p :: l' =>
      match scan_entry p with
      | Ret (Some pkg) => scan_entries l' (acc ++ [pkg])
      | Ret None => scan_entries l' acc
      | Throw e => (acc, Throw e)
      | Undef => (acc, Undef)
      end
  end.

Definition scan (dir : string) (h : Host) : Host * Res :=
  match (let! e := of_sum (fs_exists dir) in
         if (e : bool) then of_sum (fs_is_directory dir) else Ret false) with
  | Ret true =>
      let '(entries, e) := fs_list dir in
      let '(ps, r) := scan_entries entries (packages h) in
      (set_packages ps h,
       match r with Ret None => match e with Some x => Throw x | None => ok end | _ => r end)
  | Ret false => (h, ok)
  | Throw e => (h, Throw e)
  | Undef => (h, Undef)
  end.

(** *** catalog *)

Definition invalid_package (m : Manifest) (text : string) : string :=
  "plugin.manifest.invalid: package '" ++ manifest_id m ++ "' " ++ text.

Definition validate_library_path (p : Package) : option string :=
  let l := platform_library_path platform (manifest p) in
  if str_empty l
  then Some (invalid_package (manifest p) "missing library path for current platform")
  else if is_absolute l || has_parent_reference l
  then Some (invalid_package (manifest p) "library path must stay under package root")
  else None.

Fixpoint check_provides (m : Manifest) (seen : list string) (l : list Provide) : option string :=
  match l with
  | [] => None
  | p :: l' =>
      let n := provide_interface p in
      if str_empty n then Some (invalid_package m "declares an empty provided interface")
      else if existsb (String.eqb n) seen
      then Some (invalid_package m ("declares duplicate interface '" ++ n ++ "'"))
      else check_provides m (n :: seen) l'
  end.

Fixpoint check_requires (m : Manifest) (seen : list string) (l : list Require) : option string :=
  match l with
  | [] => None
  | r :: l' =>
      let n := require_name r in
      if str_empty n || str_empty (require_interface r)
      then Some (invalid_package m "declares an invalid dependency")
      else if existsb (String.eqb n) seen
      then Some (invalid_package m ("declares duplicate dependency '" ++ n ++ "'"))
      else check_requires m (n :: seen) l'
  end.

Definition validate_interface_declarations (m : Manifest) : option string :=
  if bool_decide (provides m = [])
  then Some (invalid_package m "must declare at least one provided interface")
  else match check_provides m [] (provides m) with
       | Some e => Some e
       | None => check_requires m [] (requires_ m)
       end.

Fixpoint catalog_loop (seen : list string) (l : list Package) : option string :=
  match l with
  | [] => None
  | p :: l' =>
      let n := manifest_id (manifest p) in
      if existsb (String.eqb n) seen
      then Some ("plugin.manifest.invalid: duplicate package id '" ++ n ++ "'")%string
      else match validate_interface_declarations (manifest p) with
           | Some e => Some e
           | None => match validate_library_path p with
                     | Some e => Some e
                     | None => catalog_loop (n :: seen) l'
                     end
           end
  end.

Definition catalog (h : Host) : Host * Res := (h, Ret (catalog_loop [] (packages h))).

(** *** plan *)

Definition new_instance (d : InstanceDecl) (p : option Package) : Instance_ :=
  mkInstance (decl_id d) p d planned None None None [] "".

Fixpoint plan_loop (ps : list Package) (seen : list string) (ds : list InstanceDecl)
    (acc : list Instance_) : list Instance_ * option string :=
  match ds with
  | [] => (acc, None)
  | d :: ds' =>
      if str_empty (decl_id d) then (acc, Some "plugin.config.invalid: instance id is required")
      else if existsb (String.eqb (decl_id d)) seen
      then (acc, Some ("plugin.config.invalid: duplicate instance id '" ++ decl_id d ++ "'")%string)
      else match find_package (decl_package d) ps with
           | None =>
               let e := ("plugin.package.not_found: package '" ++ decl_package d ++
                         "' for instance '" ++ decl_id d ++ "'")%string in
               let i := set_last_error e (set_state unavailable (new_instance d None)) in
               if required d then (acc, Some e)
               else plan_loop ps (decl_id d :: seen) ds' (acc ++ [i])
           | Some p => plan_loop ps (decl_id d :: seen) ds' (acc ++ [new_instance d (Some p)])
           end
  end.

(** Defaults and validation; [apply_defaults] throws nothing, so its handler in
    the source has no counterpart. *)
Definition config_instance (_ : unit) (i : Instance_) : unit * Instance_ * Res :=
  match package i with
  | Some p =>
      if bool_decide (state i = unavailable) then (tt, i, ok)
      else
      let c := match config (decl i) with JNull => JObj [] | c => c end in
      let c := apply_defaults (config_schema (manifest p)) c in
      match validate_config (config_schema (manifest p)) c "" with
      | Ret err =>
          if str_empty err then (tt, set_config c i, ok)
          else let '(i', r) := fail_or_unavailable i
                 ("plugin.config.invalid: instance '" ++ id i ++ "': " ++ err)%string in
               (tt, i', r)
      | Throw e => (tt, i, Throw e)
      | Undef => (tt, i, Undef)
      end
  | None => (tt, i, ok)
  end.

(** *** resolve *)

(** A failed resolution of an optional instance forgets the dependencies found
    so far. *)
Definition unresolved (i : Instance_) (message : string) : Instance_ * Res :=
  let '(i', r) := fail_or_unavailable i message in
  (match r with Ret None => set_dep_ids [] i' | _ => i' end, r).

Definition missing_dependency (i : Instance_) (text : string) : string :=
  "plugin.dependency.missing: instance '" ++ id i ++ "' " ++ text.

(** The loop over the declared requirements; [all] are the instances of the
    host, of which only ids and packages are read. *)
Fixpoint resolve_requires (all : list Instance_) (rs : list Require) (i : Instance_)
  : Instance_ * Res :=
  match rs with
  | [] => (i, ok)
  | r :: rs' =>
      match dependency_of (decl i) (require_name r) with
      | None =>
          if optional r then resolve_requires all rs' i
          else unresolved i (missing_dependency i ("missing required dependency '" ++ require_name r ++ "'"))
      | Some target =>
          match find_instance target all with
          | None =>
              if optional r then resolve_requires all rs' i
              else unresolved i (missing_dependency i ("dependency '" ++ require_name r ++ "' -> '" ++
                                   target ++ "' not found"))
          | Some dep =>
              if negb (provides_interface (package dep) (require_interface r)) then
                if optional r then resolve_requires all rs' i
                else unresolved i (missing_dependency dep ("does not provide '" ++
                                     require_interface r ++ "'"))
              else resolve_requires all rs' (set_dep_ids (dep_ids i ++ [id dep]) i)
          end
      end
  end.

Definition resolve_instance (all : list Instance_) (_ : unit) (i : Instance_) : unit * Instance_ * Res :=
  match package i with
  | Some p =>
      if bool_decide (state i = unavailable) then (tt, i, ok)
      else
      let undeclared := List.find (fun d => bool_decide (find_require (manifest p) (fst d) = None))
                          (dependencies (decl i)) in
      let '(i', r) :=
        match undeclared with
        | Some (name, _) => unresolved i ("plugin.dependency.undeclared: instance '" ++ id i ++
                              "' configured undeclared dependency '" ++ name ++ "'")%string
        | None => resolve_requires all (requires_ (manifest p)) i
        end in
      (tt, i', r)
  | None => (tt, i, ok)
  end.

Definition invalid_binding (text : string) : string := "plugin.binding.invalid: " ++ text.

Fixpoint check_bindings (all : list Instance_) (seen : list string) (bs : list BindingDecl)
  : option string :=
  match bs with
  | [] => None
  | b :: bs' =>
      if str_empty (logical b) then Some (invalid_binding "binding name is required")
      else if existsb (String.eqb (logical b)) seen
      then Some (invalid_binding ("duplicate binding '" ++ logical b ++ "'"))
      else match find_instance (instance_id b) all with
           | None => Some (invalid_binding ("binding '" ++ logical b ++
                             "' targets missing instance '" ++ instance_id b ++ "'"))
           | Some _ => check_bindings all (logical b :: seen) bs'
           end
  end.

(** An edge for each entry of [dep_ids], instance by instance. *)
Definition dep_edges (l : list Instance_) : list edge :=
  flat_map (fun i => map (fun d => (d, id i)) (dep_ids i)) l.

Definition cycle_error : string :=
  "plugin.dependency.cycle: circular dependency among instances".

Definition plan_and_resolve (cfg : PluginConfig) (h : Host) : Host * Res :=
  let h := set_bindings (decl_bindings cfg) h in
  match plan_loop (packages h) [] (decls cfg) [] with
  | (l, Some e) => (set_instances l h, fail e)
  | (l, None) =>
      let '(_, l, r) := each config_instance tt l in
      match r with
      | Ret None =>
          let '(_, l, r) := each (resolve_instance l) tt l in
          let h := set_instances l h in
          match r with
          | Ret None =>
              match check_bindings l [] (decl_bindings cfg) with
              | Some e => (h, fail e)
              | None =>
                  if has_cycle (map id l) (dep_edges l) then (h, fail cycle_error)
                  else (set_start_ids (start_order (map id l) (dep_edges l)) h, ok)
              end
          | _ => (h, r)
          end
      | _ => (set_instances l h, r)
      end
  end.

(** *** load *)

Definition load_instance (t : list Call) (i : Instance_) : list Call * Instance_ * Res :=
  match state i, package i with
  | planned, Some p =>
      let m := manifest p in
      let libpath := path_join (root p) (platform_library_path platform m) in
      let abandon (i : Instance_) (t : list Call) (e : string) :=
        let '(i', r) := fail_or_unavailable i e in (t, i', r) in
      let t' := t ++ [COpen libpath] in
      match dlopen t libpath with
      | inl err => abandon i t' ("plugin.entry.missing: " ++ libpath ++ ": " ++ err)%string
      | inr _ =>
          let i := set_lib (Some libpath) i in
          match entry_point t' libpath (entry m) with
          | None => abandon i t' ("plugin.entry.missing: symbol '" ++ entry m ++
                      "' not found in " ++ libpath)%string
          | Some a =>
              let i := set_abi a i in
              let mismatch (text : string) :=
                abandon i t' ("plugin.abi.mismatch: " ++ id i ++ " (" ++ text ++ ")")%string in
              match a with
              | None => mismatch "abi_version"
              | Some a =>
                  if negb (abi_version a =? ABI_VERSION) then mismatch "abi_version"
                  else if abi_struct_size a <? sizeof_abi then mismatch "struct_size"
                  else if negb (bool_decide (abi_package_id a = Some (manifest_id m)))
                  then mismatch ("package_id '" ++ default "" (abi_package_id a) ++
                                 "' != manifest '" ++ manifest_id m ++ "'")%string
                  else (t', set_state loaded i, ok)
              end
          end
      end
  | planned, None => (t, i, Undef)
  | _, _ => (t, i, ok)
  end.

Definition load_all (h : Host) : Host * Res :=
  let '(t, l, r) := each load_instance (calls h) (instances h) in
  (set_calls t (set_instances l h), r).

(** *** create *)

(** The declared interfaces are asked for in order until one is missing. *)
Fixpoint first_missing (t : list Call) (i : string) (l : list Provide) : list Call * option string :=
  match l with
  | [] => (t, None)
  | p :: l' =>
      let n := provide_interface p in
      let t' := t ++ [CInterface i n] in
      match get_interface t i n with
      | Some _ => first_missing t' i l'
      | None => (t', Some n)
      end
  end.

Definition reject (t : list Call) (ctxs : list string) (i : Instance_) (e : string)
  : list Call * list string * Instance_ * Res :=
  let '(t, i) := release_unstarted_handle t i in
  let '(i, r) := fail_or_unavailable i e in
  (t, ctxs, i, r).

Definition create_failed (i : string) (text : string) : string :=
  "plugin.create.failed: " ++ i ++ text.

(** After [abi->create]: the guards on the handle. *)
Definition check_handle (t : list Call) (ctxs : list string) (i : Instance_) (hd : Handle) (m : Manifest)
  : list Call * list string * Instance_ * Res :=
  if handle_struct_size hd <? sizeof_instance
  then reject t ctxs i ("plugin.abi.mismatch: " ++ id i ++ " (instance struct_size)")%string
  else if negb (has_get_interface hd)
  then reject t ctxs i (create_failed (id i) " missing get_interface")
  else
  let '(t, missing) := first_missing t (id i) (provides m) in
  match missing with
  | Some n => reject t ctxs i (create_failed (id i) (" does not provide declared interface '" ++ n ++ "'"))
  | None => (t, ctxs ++ [id i], i, ok)
  end.

Definition create_instance (s : list Call * list string) (i : Instance_)
  : list Call * list string * Instance_ * Res :=
  let '(t, ctxs) := s in
  match state i, abi i, package i with
  | loaded, Some a, Some p =>
      match json_dump (config (decl i)) with
      | inl e => (t, ctxs, i, Throw e)
      | inr text =>
          if has_create a then
            let '(rc, hd, e) := create t (id i) text in
            let t := t ++ [CCreate (id i) text] in
            let i := set_handle hd i in
            match hd with
            | Some hd' => if rc =? 0 then check_handle t ctxs i hd' (manifest p)
                          else reject t ctxs i (create_failed (id i)
                                 (opt_text " [" "]" (err_code e) ++ opt_text " " "" (err_message e)))
            | None => reject t ctxs i (create_failed (id i)
                        (opt_text " [" "]" (err_code e) ++ opt_text " " "" (err_message e)))
            end
          else reject t ctxs i (create_failed (id i) "")
      end
  | loaded, _, _ => (t, ctxs, i, Undef)
  | _, _, _ => (t, ctxs, i, ok)
  end.

Definition create_all (h : Host) : Host * Res :=
  let '(t, ctxs, l, r) := each create_instance (calls h, contexts h) (instances h) in
  (set_contexts ctxs (set_calls t (set_instances l h)), r).

(** *** start *)

(** The first required dependency of the instance that is not started. *)
Definition blocked_by (all : list Instance_) (i : Instance_) : option string :=
  match package i with
  | None => None
  | Some p =>
      option_map require_name
        (List.find
           (fun r => negb (optional r) &&
              match dependency_of (decl i) (require_name r) with
              | None => false
              | Some target =>
                  match find_instance target all with
                  | Some dep => negb (bool_decide (state dep = started))
                  | None => true
                  end
              end)
           (requires_ (manifest p)))
  end.

Definition start_instance (all : list Instance_) (t : list Call) (i : Instance_)
  : list Call * Instance_ * Res :=
  match handle i with
  | None => (t, i, ok)
  | Some hd =>
      if bool_decide (state i = unavailable) then (t, i, ok)
      else match blocked_by all i with
      | Some name =>
          let '(t, i) := release_unstarted_handle t i in
          let '(i, r) := fail_or_unavailable i
            ("plugin.dependency.unavailable: instance '" ++ id i ++ "' dependency '" ++
             name ++ "' is not started")%string in
          (t, i, r)
      | None =>
          if has_start hd then
            let '(rc, e) := start t (id i) in
            let t := t ++ [CStart (id i) (rc =? 0)] in
            if rc =? 0 then (t, set_state started i, ok)
            else
            let '(t, i) := release_unstarted_handle t i in
            let '(i, r) := fail_or_unavailable i
              ("plugin.init.failed: " ++ id i ++ opt_text " " "" (err_message e))%string in
            (t, i, r)
          else (t, set_state started i, ok)
      end
  end.

(** The loop over the start order. *)
Fixpoint start_loop (order : list string) (h : Host) : Host * Res :=
  match order with
  | [] => (h, ok)
  | n :: order' =>
      match find_instance n (instances h) with
      | None => start_loop order' h
      | Some i =>
          let '(t, i', r) := start_instance (instances h) (calls h) i in
          let h' := set_calls t (set_instances (update_instance n (fun _ => i') (instances h)) h) in
          match r with
          | Ret None => start_loop order' h'
          | _ => (h', r)
          end
      end
  end.

Definition start_all (h : Host) : Host * Res := start_loop (start_ids h) h.

(** *** shutdown and startup *)

Definition stop_instance (t : list Call) (i : Instance_) : list Call * Instance_ :=
  match handle i with
  | Some hd =>
      if bool_decide (state i = started)
      then (if has_shutdown hd then t ++ [CShutdown (id i)] else t,
            set_state stopped (set_handle None i))
      else (t, i)
  | None => (t, i)
  end.

Fixpoint stop_loop (order : list string) (h : Host) : Host :=
  match order with
  | [] => h
  | n :: order' =>
      match find_instance n (instances h) with
      | None => stop_loop order' h
      | Some i =>
          let '(t, i') := stop_instance (calls h) i in
          stop_loop order' (set_calls t (set_instances (update_instance n (fun _ => i') (instances h)) h))
      end
  end.

Definition shutdown (h : Host) : Host :=
  set_contexts [] (stop_loop (rev (start_ids h)) h).

(** The stages in order; a failed one is followed by [shutdown], an exception
    is not. *)
Fixpoint run_stages (stages : list (Host -> Host * Res)) (h : Host) : Host * Res :=
  match stages with
  | [] => (h, ok)
  | f :: stages' =>
      match f h with
      | (h', Ret None) => run_stages stages' h'
      | (h', Ret (Some e)) => (shutdown h', fail e)
      | (h', r) => (h', r)
      end
  end.

Definition not_started_error (i : Instance_) : string :=
  "plugin.init.failed: required instance '" ++ id i ++ "' not started (" ++
  state_name (state i) ++ ")".

(** The check at the end of startup. *)
Definition check_required_started (h : Host) : Host * Res :=
  (h, Ret (option_map not_started_error
             (List.find (fun i => required (decl i) && negb (bool_decide (state i = started)))
                (instances h)))).

Definition startup (cfg : PluginConfig) (h : Host) : Host * Res :=
  let h := shutdown h in
  let h := mkHost [] [] [] [] [] (calls h) in
  run_stages [scan (directory cfg); catalog; plan_and_resolve cfg; load_all; create_all; start_all;
              check_required_started] h.

(** *** Lua registration *)

(** [register_lua_all] for a given VM. *)
Fixpoint register_loop (order : list string) (h : Host) : Host * option string :=
  match order with
  | [] => (h, None)
  | n :: order' =>
      match find_instance n (instances h) with
      | Some i =>
          match handle i with
          | Some hd =>
              if bool_decide (state i = started) && has_register_lua hd then
                let '(rc, e) := register_lua (calls h) (id i) in
                let h := set_calls (calls h ++ [CRegisterLua (id i)]) h in
                if rc =? 0 then register_loop order' h
                else
                let msg := ("plugin.lua_register.failed: " ++ id i ++
                            opt_text " [" "]" (err_code e) ++ opt_text " " "" (err_message e))%string in
                let h := set_instances (update_instance n (set_last_error msg) (instances h)) h in
                if required (decl i) then (h, Some msg) else register_loop order' h
              else register_loop order' h
          | None => register_loop order' h
          end
      | None => register_loop order' h
      end
  end.

Definition register_lua_all (h : Host) : Host * option string := register_loop (start_ids h) h.

(** The global [package] of a VM: whether it is a table, its [path] and its
    [cpath]. *)
Record LuaState := mkLuaState {
  package_is_table : bool; package_path : option string; package_cpath : option string }.

Definition last_is_semicolon (s : string) : bool :=
  match String.get (String.length s - 1) s with
  | Some c => Ascii.eqb c ";"%char
  | None => false
  end.

(** A search path with one more entry. *)
Definition extend_path (field : option string) (s : string) : string :=
  let cur := default "" field in
  let cur := if negb (str_empty cur) && negb (last_is_semicolon cur) then (cur ++ ";")%string else cur in
  (cur ++ s)%string.

Definition add_path (L : LuaState) (s : string) : LuaState :=
  if package_is_table L
  then mkLuaState true (Some (extend_path (package_path L) s)) (package_cpath L)
  else L.

Definition instance_paths (i : Instance_) : list string :=
  match package i with
  | Some p =>
      if bool_decide (state i = started) && lua_enabled (lua (manifest p))
      then map (path_join (root p)) (List.filter (fun r => negb (str_empty r)) (search_paths (lua (manifest p))))
      else []
  | None => []
  end.

Definition inject_lua_paths (h : Host) (L : LuaState) : LuaState :=
  fold_left
    (fun L n => match find_instance n (instances h) with
                | Some i => fold_left add_path (instance_paths i) L
                | None => L
                end) (start_ids h) L.

(** *** Queries *)

Definition find_binding (name : string) (h : Host) : option BindingDecl :=
  List.find (fun b => String.eqb (logical b) name) (bindings h).

Definition binding_instance_id (name : string) (h : Host) : string :=
  match find_binding name h with Some b => instance_id b | None => "" end.

(** Asking a started instance for an interface. *)
Definition ask_interface (i : option Instance_) (iface : string) (h : Host) : Host * option Z :=
  match i with
  | Some i =>
      match handle i with
      | Some _ =>
          if bool_decide (state i = started)
          then (set_calls (calls h ++ [CInterface (id i) iface]) h, get_interface (calls h) (id i) iface)
          else (h, None)
      | None => (h, None)
      end
  | None => (h, None)
  end.

Definition get_binding_vtable (name iface : string) (h : Host) : Host * option Z :=
  match find_binding name h with
  | Some b => ask_interface (find_instance (instance_id b) (instances h)) iface h
  | None => (h, None)
  end.

(** [host_api.dependency] for the context of the instance [ctx]. *)
Definition dependency (ctx name iface : string) (h : Host) : Host * option Z :=
  match find_instance ctx (instances h) with
  | Some i =>
      match dependency_of (decl i) name, package i with
      | Some target, Some p =>
          match find_require (manifest p) name with
          | Some r => if String.eqb (require_interface r) iface
                      then ask_interface (find_instance target (instances h)) iface h
                      else (h, None)
          | None => (h, None)
          end
      | _, _ => (h, None)
      end
  | None => (h, None)
  end.

(** The dot-path navigation of [host_api.config_get]. *)
Fixpoint config_walk (segs : list string) (cur : json) : option json :=
  match segs with
  | [] | [""] => Some cur
  | seg :: segs' =>
      if is_object cur
      then match get seg cur with Some x => config_walk segs' x | None => None end
      else Some cur
  end.

Definition config_get (ctx path : string) (h : Host) : outcome (option string) :=
  match find_instance ctx (instances h) with
  | Some i =>
      match config_walk (split_on "."%char path) (config (decl i)) with
      | Some (JStr s) => Ret (Some s)
      | Some j => let! text := of_sum (json_dump j) in Ret (Some text)
      | None => Ret None
      end
  | None => Ret None
  end.

(** [host_api.binding_instance_id]: [None] is the null pointer.  Without a
    context the process-wide host answers. *)
Definition host_binding_instance_id (binding : string) (h : Host) : option string :=
  if str_empty binding then None
  else let n := binding_instance_id binding h in
       if str_empty n then None else Some n.

(** [host_api.lua_add_path] from the instance [ctx] while the VM [L] is being
    prepared on this thread; [None] outside of that.  Returns 0 on success. *)
Definition lua_add_path (ctx path : string) (is_cpath : bool) (h : Host) (L : option LuaState)
  : Z * option LuaState :=
  match find_instance ctx (instances h), L with
  | Some i, Some L =>
      match package i with
      | Some p =>
          let s := path_join (root p) path in
          if negb (package_is_table L) then (-1, Some L)
          else if is_cpath
          then (0, Some (mkLuaState true (package_path L) (Some (extend_path (package_cpath L) s))))
          else (0, Some (mkLuaState true (Some (extend_path (package_path L) s)) (package_cpath L)))
      | None => (-1, Some L)
      end
  | _, _ => (-1, L)
  end.

Definition package_ids (h : Host) : list string := map (fun p => manifest_id (manifest p)) (packages h).

Record InstanceInfo := mkInstanceInfo {
  info_id : string; info_package : string; info_state : string; info_required : bool }.

Definition list_instances (h : Host) : list InstanceInfo :=
  map (fun i => mkInstanceInfo (id i) (decl_package (decl i)) (state_name (state i)) (required (decl i)))
      (instances h).

Record PackageInfo := mkPackageInfo {
  pinfo_id : string; pinfo_version : string; pinfo_kind : string; pinfo_provides : list string;
  pinfo_docs_url : string; pinfo_docs_description : string }.

Definition list_packages (h : Host) : list PackageInfo :=
  map (fun p => let m := manifest p in
         mkPackageInfo (manifest_id m) (version m) (kind m) (map provide_interface (provides m))
           (docs_url (documentation m)) (docs_description (documentation m))) (packages h).

Record BindingInfo := mkBindingInfo {
  binfo_logical : string; binfo_instance_id : string; binfo_interface : string }.

Definition get_binding (name : string) (h : Host) : option BindingInfo :=
  match find_binding name h with
  | None => None
  | Some b =>
      Some (mkBindingInfo (logical b) (instance_id b)
        (match find_instance (instance_id b) (instances h) with
         | Some i => match package i with
                     | Some p => match provides (manifest p) with
                                 | pr :: _ => provide_interface pr
                                 | [] => ""
                                 end
                     | None => ""
                     end
         | None => ""
         end))
  end.

End Stages.

Arguments startup {_ _ _ _} platform cfg h.
