(* ===== verification/Lifecycle.v ===== *)
(** * Lifecycle: what the plugin pipeline guarantees

    Planning gives a start order in which every instance follows the instances
    it depends on, and refuses a configuration for a cycle only if there is
    one.  A successful startup leaves every required instance started, each
    after its dependencies; shutdown stops the started instances in the reverse
    order, each once; a failed startup leaves nothing started.  Only libraries
    below their package root are opened. *)

From S2P Require Import Prelude Text Json Manifest Schema Topo PluginHost.

(** ** Instances by id *)

Lemma find_instance_id n l i : find_instance n l = Some i -> id i = n /\ i ∈ l.
Proof.
  intros Hf. apply List.find_some in Hf as [Hin He]. apply String.eqb_eq in He.
  split; [done|by apply list_elem_of_In].
Qed.

Lemma find_instance_elem n l : n ∈ map id l -> exists i, find_instance n l = Some i.
Proof.
  induction l as [|x l IH]; cbn; [set_solver|]. intros Hn.
  destruct (String.eqb_spec (id x) n) as [|Hne]; [eauto|]. apply IH. set_solver.
Qed.

(** Distinct ids make [find_instance] a lookup. *)
Lemma find_instance_nodup l i : NoDup (map id l) -> i ∈ l -> find_instance (id i) l = Some i.
Proof.
  induction l as [|x l IH]; cbn; [set_solver|]. intros [Hx Hnd]%list.NoDup_cons Hi.
  apply elem_of_cons in Hi as [<-|Hi]; [by rewrite String.eqb_refl|].
  destruct (String.eqb_spec (id x) (id i)) as [E|]; [|by apply IH].
  destruct Hx. rewrite E. apply list_elem_of_fmap. eauto.
Qed.

Lemma find_instance_cons m x l :
  find_instance m (x :: l) = if String.eqb (id x) m then Some x else find_instance m l.
Proof. done. Qed.

Lemma update_instance_ids n f l : (forall i, id (f i) = id i) -> map id (update_instance n f l) = map id l.
Proof.
  intros Hf. induction l as [|x l IH]; cbn; [done|].
  destruct (String.eqb (id x) n); cbn; [by rewrite Hf|by rewrite IH].
Qed.

Lemma find_update n f l m :
  (forall i, id i = n -> id (f i) = n) ->
  find_instance m (update_instance n f l) =
  if String.eqb m n then option_map f (find_instance m l) else find_instance m l.
Proof.
  intros Hf. induction l as [|x l IH]; cbn [update_instance]; [by destruct (String.eqb m n)|].
  destruct (String.eqb_spec (id x) n) as [E|Hne]; rewrite !find_instance_cons.
  - rewrite Hf, E by done. rewrite (String.eqb_sym m n). by destruct (String.eqb n m).
  - rewrite IH. destruct (String.eqb_spec m n) as [->|]; [|done].
    by rewrite (proj2 (String.eqb_neq (id x) n)).
Qed.

(** ** Loops over instances *)

Lemma each_rel {S} (body : S -> Instance_ -> S * Instance_ * Res) (R : Instance_ -> Instance_ -> Prop) :
  (forall i, R i i) -> (forall s i s' i' r, body s i = (s', i', r) -> R i i') ->
  forall l s s' l' r, each body s l = (s', l', r) -> Forall2 R l l'.
Proof.
  intros Hrefl Hb l. induction l as [|i l IH]; cbn; intros s s' l' r E; [by simplify_eq|].
  destruct (body s i) as [[s1 i1] r1] eqn:Eb. apply Hb in Eb.
  assert (Forall2 R l l) as Hl by (clear -Hrefl; induction l; by constructor).
  destruct r1 as [[e|]| |]; simplify_eq; try by constructor.
  destruct (each body s1 l) as [[s2 l2] r2] eqn:Ee. simplify_eq. constructor; [done|by eapply IH].
Qed.

Lemma each_state {S} (body : S -> Instance_ -> S * Instance_ * Res) (Q : S -> Prop) (P : Instance_ -> Prop) :
  (forall s i s' i' r, P i -> body s i = (s', i', r) -> Q s -> Q s') ->
  forall l s s' l' r, (forall i, i ∈ l -> P i) -> each body s l = (s', l', r) -> Q s -> Q s'.
Proof.
  intros Hb l. induction l as [|i l IH]; cbn; intros s s' l' r HP E HQ; [by simplify_eq|].
  destruct (body s i) as [[s1 i1] r1] eqn:Eb. apply Hb in Eb; [|apply HP; by left|done].
  destruct r1 as [[e|]| |]; simplify_eq; try done.
  destruct (each body s1 l) as [[s2 l2] r2] eqn:Ee. simplify_eq.
  eapply IH; [|done|done]. intros; apply HP; by right.
Qed.

(** A finished loop ran the body on every instance. *)
Lemma each_ok {S} (body : S -> Instance_ -> S * Instance_ * Res) :
  forall l s s' l', each body s l = (s', l', Ret None) ->
  Forall2 (fun i i' => exists s s', body s i = (s', i', Ret None)) l l'.
Proof.
  intros l. induction l as [|i l IH]; cbn; intros s s' l' E; [by simplify_eq|].
  destruct (body s i) as [[s1 i1] r1] eqn:Eb.
  destruct r1 as [[e|]| |]; simplify_eq.
  destruct (each body s1 l) as [[s2 l2] r2] eqn:Ee. simplify_eq. constructor; [eauto|by eapply IH].
Qed.

(** ** What no stage changes

    The identity of an instance, its package and its declared dependencies; an
    unavailable instance stays so, and only the start stage starts one. *)
Record same (i i' : Instance_) : Prop := {
  same_id : id i' = id i;
  same_package : package i' = package i;
  same_deps : dependencies (decl i') = dependencies (decl i);
  same_required : required (decl i') = required (decl i);
  same_unavailable : state i = unavailable -> state i' = unavailable;
  same_started : state i' = started -> state i = started
}.

Lemma same_refl i : same i i.
Proof. by constructor. Qed.

Lemma same_trans i j k : same i j -> same j k -> same i k.
Proof. intros [? ? ? ? ? ?] [? ? ? ? ? ?]. constructor; [congruence..|auto|auto]. Qed.

#[export] Hint Resolve same_refl : shield.

(** Solve [same] for an instance changed by setters. *)
Ltac frame := constructor; cbn in *; first [done | intros; congruence | auto].

Lemma fail_or_unavailable_same i e i' r :
  state i <> unavailable -> fail_or_unavailable i e = (i', r) -> same i i'.
Proof. unfold fail_or_unavailable. cbn. case_match; intros; simplify_eq; frame. Qed.

Section Frame.
Context `{JsonLib} `{YamlLib} `{Plugins} `{FileSystem} (platform : Platform).

Lemma config_instance_same s i s' i' r : config_instance s i = (s', i', r) -> same i i'.
Proof.
  unfold config_instance. destruct (package i); [|intros; simplify_eq; auto with shield].
  case_bool_decide; [intros; simplify_eq; auto with shield|].
  destruct (validate_config _ _ _); [|intros; simplify_eq; auto with shield..].
  destruct (str_empty _); [intros; simplify_eq; frame|].
  destruct (fail_or_unavailable _ _) eqn:E. intros; simplify_eq. by eapply fail_or_unavailable_same.
Qed.

Lemma unresolved_same i e i' r : state i <> unavailable -> unresolved i e = (i', r) -> same i i'.
Proof.
  unfold unresolved. intros Hs. destruct (fail_or_unavailable i e) as [j q] eqn:E.
  apply fail_or_unavailable_same in E; [|done]. intros; simplify_eq. eapply same_trans; [exact E|].
  repeat case_match; auto with shield. frame.
Qed.

Lemma resolve_requires_same all rs : forall i i' r,
  state i <> unavailable -> resolve_requires all rs i = (i', r) -> same i i'.
Proof.
  induction rs as [|q rs IH]; intros i i' r Hs; cbn; [intros; simplify_eq; auto with shield|].
  repeat (case_match; try by (apply IH || apply unresolved_same)).
  intros E. apply IH in E; [|done]. eapply same_trans; [|exact E]. frame.
Qed.

Lemma resolve_instance_same all s i s' i' r : resolve_instance all s i = (s', i', r) -> same i i'.
Proof.
  unfold resolve_instance. destruct (package i); [|intros; simplify_eq; auto with shield].
  case_bool_decide; [intros; simplify_eq; auto with shield|].
  destruct (List.find _ _) as [[n t]|].
  - destruct (unresolved _ _) eqn:E. intros; simplify_eq. by eapply unresolved_same.
  - destruct (resolve_requires _ _ _) eqn:E. intros; simplify_eq. by eapply resolve_requires_same.
Qed.

(** The later stages leave the resolved dependencies alone, too. *)
Definition settled (i i' : Instance_) : Prop := same i i' /\ dep_ids i' = dep_ids i.

Lemma settled_refl i : settled i i.
Proof. split; auto with shield. Qed.

Lemma settled_trans i j k : settled i j -> settled j k -> settled i k.
Proof. intros [S1 E1] [S2 E2]. split; [by eapply same_trans|congruence]. Qed.

Lemma fail_or_unavailable_settled i e i' r :
  state i <> unavailable -> fail_or_unavailable i e = (i', r) -> settled i i'.
Proof.
  intros Hs E. split; [by eapply fail_or_unavailable_same|]. unfold fail_or_unavailable in E.
  cbn in E. case_match; by simplify_eq.
Qed.

Lemma load_instance_settled t i t' i' r : load_instance platform t i = (t', i', r) -> settled i i'.
Proof.
  unfold load_instance. destruct (state i) eqn:Es; try (intros; simplify_eq; apply settled_refl).
  destruct (package i) eqn:Ep; [|intros; simplify_eq; apply settled_refl].
  repeat (case_match; try (intros; simplify_eq; split; [frame|done]));
    intros; simplify_eq;
    (eapply settled_trans; [|eapply fail_or_unavailable_settled; [|eassumption]; cbn; congruence]);
    (split; [frame|done]).
Qed.

Lemma reject_settled t c i e t' c' i' r :
  state i <> unavailable -> reject t c i e = (t', c', i', r) -> settled i i'.
Proof.
  unfold reject. cbn. destruct (fail_or_unavailable _ _) eqn:E. intros; simplify_eq.
  eapply settled_trans; [|by eapply fail_or_unavailable_settled; [|exact E]]. split; [frame|done].
Qed.

Lemma create_instance_settled s i s' i' r : create_instance s i = (s', i', r) -> settled i i'.
Proof.
  unfold create_instance. destruct s as [t c], s' as [t' c'].
  destruct (state i) eqn:Es; try (intros; simplify_eq; apply settled_refl).
  destruct (abi i), (package i); try (intros; simplify_eq; apply settled_refl).
  case_match; [intros; simplify_eq; apply settled_refl|].
  case_match; [|apply reject_settled; congruence].
  destruct (create _ _ _) as [[rc hd] e].
  assert (settled i (set_handle hd i)) as Hh by (split; [frame|done]).
  assert (state (set_handle hd i) <> unavailable) as Hu by (cbn; congruence).
  intros E. eapply settled_trans; [exact Hh|].
  destruct hd as [hd|]; [|by eapply reject_settled]. case_match; [|by eapply reject_settled].
  unfold check_handle in E. case_match; [by eapply reject_settled|].
  case_match; [by eapply reject_settled|]. destruct (first_missing _ _ _) as [t1 [n|]];
    [by eapply reject_settled|]. simplify_eq. apply settled_refl.
Qed.
End Frame.

(** ** Planning *)

(** An instance as the planning loop leaves it. *)
Definition fresh (ps : list Package) (i : Instance_) : Prop :=
  dep_ids i = [] /\ handle i = None /\
  match package i with Some p => p ∈ ps /\ state i = planned | None => state i = unavailable end.

Lemma find_package_elem n ps p : find_package n ps = Some p -> p ∈ ps.
Proof. intros [Hin _]%List.find_some. by apply list_elem_of_In. Qed.

Lemma existsb_seen n seen : existsb (String.eqb n) seen = false -> n ∉ seen.
Proof.
  intros E Hn. rewrite <- not_true_iff_false in E. apply E. apply existsb_exists.
  exists n. split; [by apply list_elem_of_In|apply String.eqb_refl].
Qed.

Lemma plan_loop_spec ps ds : forall seen acc l r,
  plan_loop ps seen ds acc = (l, r) ->
  NoDup (map id acc) -> (forall n, n ∈ map id acc -> n ∈ seen) -> (forall i, i ∈ acc -> fresh ps i) ->
  NoDup (map id l) /\ (forall i, i ∈ l -> fresh ps i).
Proof.
  induction ds as [|d ds IH]; intros seen acc l r; cbn [plan_loop]; [by intros; simplify_eq|].
  destruct (str_empty (decl_id d)); [by intros; simplify_eq|].
  destruct (existsb _ seen) eqn:Es; [by intros; simplify_eq|]. apply existsb_seen in Es.
  assert (forall x, id x = decl_id d -> fresh ps x ->
    plan_loop ps (decl_id d :: seen) ds (acc ++ [x]) = (l, r) ->
    NoDup (map id acc) -> (forall n, n ∈ map id acc -> n ∈ seen) -> (forall i, i ∈ acc -> fresh ps i) ->
    NoDup (map id l) /\ (forall i, i ∈ l -> fresh ps i)) as Hstep.
  { intros x Hx Hf E Hnd Hseen Hacc. apply IH in E; [done|..]; rewrite ?map_app; cbn.
    - apply list.NoDup_app. split_and!; [done| |apply NoDup_singleton].
      intros n Hn Hn'. apply list_elem_of_singleton in Hn' as ->. apply Es. rewrite <- Hx. by apply Hseen.
    - intros n. rewrite elem_of_app, list_elem_of_singleton, Hx. intros [Hn| ->]; [right; auto|by left].
    - intros i. rewrite elem_of_app, list_elem_of_singleton. naive_solver. }
  destruct (find_package (decl_package d) ps) as [p|] eqn:Ep.
  - apply Hstep; [done|]. split; [done|]. split; [done|]. cbn. split; [by eapply find_package_elem|done].
  - destruct (required d); [by intros; simplify_eq|]. by apply Hstep.
Qed.

(** ** Resolution *)

Section Resolve.
Context `{JsonLib}.
Context (all : list Instance_).

(** The requirement [q] of an instance is met by the instance [dep]. *)
Definition met (i : Instance_) (q : Require) (dep : Instance_) : Prop :=
  exists target, dependency_of (decl i) (require_name q) = Some target /\
    find_instance target all = Some dep /\
    provides_interface (package dep) (require_interface q) = true.

Lemma unresolved_ok i e i' : unresolved i e = (i', Ret None) -> state i' = unavailable.
Proof. unfold unresolved, fail_or_unavailable, fail, ok. cbn. destruct (required (decl i)); cbn; intros; by simplify_eq. Qed.

Lemma unresolved_dep_ids i e i' r :
  unresolved i e = (i', r) -> dep_ids i' = [] \/ dep_ids i' = dep_ids i.
Proof.
  unfold unresolved, fail_or_unavailable, fail, ok. cbn.
  destruct (required (decl i)); cbn; intros; simplify_eq; cbn; auto.
Qed.

Lemma resolve_requires_dep_ids rs : forall i i' r,
  resolve_requires all rs i = (i', r) ->
  (forall d, d ∈ dep_ids i -> d ∈ map id all) -> forall d, d ∈ dep_ids i' -> d ∈ map id all.
Proof.
  induction rs as [|q rs IH]; intros i i' r; cbn; [intros E Hd; simplify_eq; exact Hd|].
  assert (forall e, unresolved i e = (i', r) ->
    (forall d, d ∈ dep_ids i -> d ∈ map id all) -> forall d, d ∈ dep_ids i' -> d ∈ map id all) as Hu.
  { intros e [E|E]%unresolved_dep_ids Hd d; rewrite E; [set_solver|apply Hd]. }
  destruct (dependency_of _ _) as [target|]; [|case_match; [apply IH|apply Hu]].
  destruct (find_instance target all) as [dep|] eqn:Ef; [|case_match; [apply IH|apply Hu]].
  destruct (negb _); [case_match; [apply IH|apply Hu]|].
  intros E Hd. apply (IH _ _ _ E). cbn. intros d [Hin|Hin]%elem_of_app; [auto|].
  apply list_elem_of_singleton in Hin as ->. apply find_instance_id in Ef as [_ Ef].
  apply list_elem_of_fmap. eauto.
Qed.

Lemma resolve_requires_met rs : forall i i',
  resolve_requires all rs i = (i', Ret None) -> state i' <> unavailable -> state i <> unavailable ->
  (forall d, d ∈ dep_ids i -> d ∈ dep_ids i') /\
  forall q, q ∈ rs -> optional q = false -> exists dep, met i q dep /\ id dep ∈ dep_ids i'.
Proof.
  induction rs as [|q rs IH]; intros i i'; cbn [resolve_requires].
  { intros; simplify_eq. split; [done|set_solver]. }
  assert (forall P : Require -> Prop, optional q = true -> (forall q', q' ∈ rs -> optional q' = false -> P q') ->
    forall q', q' ∈ q :: rs -> optional q' = false -> P q') as Hskip.
  { intros P Ho Hr q' [->|Hq]%elem_of_cons; [congruence|by apply Hr]. }
  assert (forall e, (if optional q then resolve_requires all rs i else unresolved i e) = (i', Ret None) ->
    state i' <> unavailable -> state i <> unavailable ->
    (forall d, d ∈ dep_ids i -> d ∈ dep_ids i') /\
    forall q', q' ∈ q :: rs -> optional q' = false -> exists dep, met i q' dep /\ id dep ∈ dep_ids i') as Hopt.
  { intros e E Hs' Hs. destruct (optional q) eqn:Eo; [|by apply unresolved_ok in E].
    destruct (IH _ _ E) as [Hm1 Hm2]; [done..|]. split; [done|]. by apply Hskip. }
  destruct (dependency_of _ _) as [target|] eqn:Ed; [|apply Hopt].
  destruct (find_instance target all) as [dep|] eqn:Ef; [|apply Hopt].
  destruct (provides_interface _ _) eqn:Ep; cbn [negb]; [|apply Hopt].
  intros E Hs' Hs. destruct (IH _ _ E) as [Hm1 Hm2]; [done..|]. cbn in Hm1. split; [set_solver|].
  intros q' [->|Hq]%elem_of_cons Ho; [|by apply Hm2].
  exists dep. split; [by exists target|]. apply Hm1. set_solver.
Qed.

Lemma resolve_instance_dep_ids s i s' i' r :
  resolve_instance all s i = (s', i', r) ->
  (forall d, d ∈ dep_ids i -> d ∈ map id all) -> forall d, d ∈ dep_ids i' -> d ∈ map id all.
Proof.
  unfold resolve_instance. destruct (package i); [|intros E Hd; simplify_eq; exact Hd].
  case_match; [intros E Hd; simplify_eq; exact Hd|]. destruct (List.find _ _) as [[n t]|].
  - destruct (unresolved _ _) eqn:E. intros; simplify_eq.
    destruct (unresolved_dep_ids _ _ _ _ E) as [Ed|Ed]; rewrite Ed in *; [set_solver|auto].
  - destruct (resolve_requires _ _ _) eqn:E. intros; simplify_eq. by eapply resolve_requires_dep_ids.
Qed.

Lemma resolve_instance_met s i s' i' p :
  resolve_instance all s i = (s', i', Ret None) -> package i = Some p ->
  state i' <> unavailable ->
  forall q, q ∈ requires_ (manifest p) -> optional q = false ->
  exists dep, met i q dep /\ id dep ∈ dep_ids i'.
Proof.
  unfold resolve_instance. intros E Hp Hs. rewrite Hp in E.
  case_bool_decide as Hb; [by simplify_eq|]. destruct (List.find _ _) as [[n t]|].
  - destruct (unresolved _ _) eqn:Eu. simplify_eq. by apply unresolved_ok in Eu.
  - destruct (resolve_requires _ _ _) eqn:Er. simplify_eq. by apply resolve_requires_met in Er as [_ Hq].
Qed.
End Resolve.

(** ** The planning stage as a whole *)

Lemma forall2_ids (R : Instance_ -> Instance_ -> Prop) l l' :
  (forall i i', R i i' -> same i i') -> Forall2 R l l' -> map id l' = map id l.
Proof.
  intros Hs. induction 1 as [|i i' l l' Hi _ IH]; cbn; [done|].
  by rewrite IH, (same_id _ _ (Hs _ _ Hi)).
Qed.

Lemma find_forall2 (R : Instance_ -> Instance_ -> Prop) n l l' :
  (forall i i', R i i' -> same i i') -> Forall2 R l l' ->
  forall i, find_instance n l = Some i -> exists i', find_instance n l' = Some i' /\ R i i'.
Proof.
  intros Hs HF. induction HF as [|x y l l' Hxy _ IH]; intros i; [done|]. rewrite !find_instance_cons.
  rewrite (same_id _ _ (Hs _ _ Hxy)). destruct (String.eqb (id x) n); [|by apply IH].
  intros [= <-]. eauto.
Qed.

Lemma forall2_elem_r {A B} (R : A -> B -> Prop) l l' y :
  Forall2 R l l' -> y ∈ l' -> exists x, x ∈ l /\ R x y.
Proof.
  induction 1 as [|a b l l' Hab _ IH]; intros Hy; [set_solver|].
  apply elem_of_cons in Hy as [->|Hy]; [exists a; split; [by left|done]|].
  destruct (IH Hy) as (x & ? & ?). exists x. split; [by right|done].
Qed.

Lemma forall2_both {A B} (P Q : A -> B -> Prop) l l' :
  Forall2 P l l' -> Forall2 Q l l' -> Forall2 (fun x y => P x y /\ Q x y) l l'.
Proof. induction 1; inversion 1; subst; constructor; auto. Qed.

(** No instance is started. *)
Definition idle (l : list Instance_) : Prop := forall i, i ∈ l -> state i <> started.

Lemma idle_forall2 (R : Instance_ -> Instance_ -> Prop) l l' :
  (forall i i', R i i' -> same i i') -> Forall2 R l l' -> idle l -> idle l'.
Proof.
  intros Hs HF Hl i Hi Hst. destruct (forall2_elem_r _ _ _ _ HF Hi) as (j & Hj & HR).
  apply (Hl j Hj), (same_started _ _ (Hs _ _ HR)), Hst.
Qed.

Lemma dep_edges_elem l d i : (d, i) ∈ dep_edges l <-> exists x, x ∈ l /\ id x = i /\ d ∈ dep_ids x.
Proof.
  unfold dep_edges. rewrite list_elem_of_In, in_flat_map. split.
  - intros (x & Hx & He). apply in_map_iff in He as (d' & [= -> <-] & Hd).
    exists x. by rewrite !list_elem_of_In.
  - intros (x & Hx & <- & Hd). exists x. rewrite <- list_elem_of_In. split; [done|].
    apply in_map_iff. exists d. by rewrite <- list_elem_of_In.
Qed.

(** What planning establishes: every instance that is still to be started has
    its requirements met by an instance it comes after. *)
Record planned_host (ps : list Package) (h : Host) : Prop := {
  ph_nodup : NoDup (map id (instances h));
  ph_order : topological (map id (instances h)) (dep_edges (instances h)) (start_ids h);
  ph_idle : idle (instances h);
  ph_package : forall i p, i ∈ instances h -> package i = Some p -> p ∈ ps;
  ph_met : forall i p q, i ∈ instances h -> package i = Some p -> state i <> unavailable ->
    q ∈ requires_ (manifest p) -> optional q = false ->
    exists dep, met (instances h) i q dep /\ id dep ∈ dep_ids i
}.

Section Plan.
Context `{JsonLib}.

(** The configuration and resolution loops on the planned instances. *)
Lemma plan_loops ps cfg l l1 u1 r1 l2 u2 r2 e :
  plan_loop ps [] (decls cfg) [] = (l, e) ->
  each config_instance tt l = (u1, l1, r1) -> each (resolve_instance l1) tt l1 = (u2, l2, r2) ->
  map id l2 = map id l1 /\ NoDup (map id l1) /\ idle l1 /\ idle l2 /\
  (forall i p, i ∈ l2 -> package i = Some p -> p ∈ ps) /\
  (forall d i, (d, i) ∈ dep_edges l2 -> d ∈ map id l2 /\ i ∈ map id l2) /\
  Forall2 same l1 l2.
Proof.
  intros Ep Ec Er.
  destruct (plan_loop_spec _ _ _ _ _ _ Ep) as [Hnd Hfresh]; [constructor|set_solver..|].
  assert (Forall2 same l l1) as F1.
  { eapply each_rel; [apply same_refl|apply config_instance_same|exact Ec]. }
  assert (Forall2 same l1 l2) as F2.
  { eapply each_rel; [apply same_refl|apply resolve_instance_same|exact Er]. }
  pose proof (forall2_ids same _ _ (fun _ _ h => h) F1) as I1.
  pose proof (forall2_ids same _ _ (fun _ _ h => h) F2) as I2.
  assert (idle l) as Hidle.
  { intros i Hi. destruct (Hfresh i Hi) as (_ & _ & Hp). destruct (package i); [destruct Hp|]; congruence. }
  assert (idle l1) as Hidle1 by (eapply idle_forall2; [|exact F1|done]; done).
  assert (forall i, i ∈ l1 -> dep_ids i = []) as Hd1.
  { intros i Hi. assert (Forall2 (fun a b => dep_ids b = dep_ids a) l l1) as Fd.
    { eapply each_rel; [done| |exact Ec]. clear. intros s i s' i' r. unfold config_instance.
      repeat case_match; intros; simplify_eq; try done;
        unfold fail_or_unavailable in *; cbn in *; case_match; by simplify_eq. }
    destruct (forall2_elem_r _ _ _ _ Fd Hi) as (j & Hj & ->). by destruct (Hfresh j Hj). }
  split_and!; [done|by rewrite I1|done|by eapply idle_forall2| | |done].
  - intros i p Hi Hp. destruct (forall2_elem_r _ _ _ _ F2 Hi) as (j & Hj & Sj).
    destruct (forall2_elem_r _ _ _ _ F1 Hj) as (k & Hk & Sk).
    destruct (Hfresh k Hk) as (_ & _ & Hpk).
    rewrite (same_package _ _ Sj), (same_package _ _ Sk) in Hp. rewrite Hp in Hpk. by destruct Hpk.
  - intros d i (x & Hx & <- & Hd)%dep_edges_elem. split; [|apply list_elem_of_fmap; eauto].
    rewrite I2. assert (Forall2 (fun a b => (forall d, d ∈ dep_ids a -> d ∈ map id l1) ->
                         forall d, d ∈ dep_ids b -> d ∈ map id l1) l1 l2) as Fr.
    { eapply each_rel; [done| |exact Er]. intros. by eapply resolve_instance_dep_ids. }
    destruct (forall2_elem_r _ _ _ _ Fr Hx) as (j & Hj & HR). apply HR; [|done].
    rewrite (Hd1 j Hj). set_solver.
Qed.

Lemma plan_stage cfg h h' r :
  plan_and_resolve cfg h = (h', r) ->
  calls h' = calls h /\ packages h' = packages h /\
  idle (instances h') /\ NoDup (map id (instances h')) /\ (r <> Ret None -> start_ids h' = start_ids h).
Proof.
  unfold plan_and_resolve. destruct (plan_loop _ _ _ _) as [l e] eqn:Ep.
  destruct (plan_loop_spec _ _ _ _ _ _ Ep) as [Hnd Hf]; [constructor|set_solver..|].
  assert (idle l) as Hl.
  { intros i Hi. destruct (Hf i Hi) as (_ & _ & Hp). destruct (package i); [destruct Hp|]; congruence. }
  destruct e as [e|]; [by intros [= <- _]|].
  destruct (each config_instance tt l) as [[u1 l1] r1] eqn:Ec.
  assert (Forall2 same l l1) as F1.
  { eapply each_rel; [apply same_refl|apply config_instance_same|exact Ec]. }
  assert (NoDup (map id l1)) as Hnd1 by (by rewrite (forall2_ids same l l1 (fun _ _ h => h) F1)).
  assert (idle l1) as Hl1 by (by eapply (idle_forall2 same)).
  destruct r1 as [[e|]| |]; try by intros [= <- _].
  destruct (each (resolve_instance l1) tt l1) as [[u2 l2] r2] eqn:Er.
  destruct (plan_loops _ _ _ _ _ _ _ _ _ _ Ep Ec Er) as (Hids & _ & _ & Hi & _).
  rewrite <- Hids in Hnd1. destruct r2 as [[e|]| |]; try by intros [= <- _].
  destruct (check_bindings _ _ _); [by intros [= <- _]|]. destruct (has_cycle _ _); by intros [= <- <-].
Qed.

Lemma plan_ok cfg h h' : plan_and_resolve cfg h = (h', Ret None) -> planned_host (packages h) h'.
Proof.
  unfold plan_and_resolve, fail. destruct (plan_loop _ _ _ _) as [l [e|]] eqn:Ep; [done|].
  destruct (each config_instance tt l) as [[u1 l1] [[e|]| |]] eqn:Ec; try done.
  destruct (each (resolve_instance l1) tt l1) as [[u2 l2] [[e|]| |]] eqn:Er; try done.
  destruct (check_bindings _ _ _); [done|]. destruct (has_cycle _ _) eqn:Eh; [done|]. intros [= <-].
  destruct (plan_loops _ _ _ _ _ _ _ _ _ _ Ep Ec Er) as (I2 & Hnd & Hi1 & Hi2 & Hp & He & F2).
  assert (NoDup (map id l2)) as Hnd2 by (by rewrite I2).
  constructor; cbn; [done|by apply start_order_topological|done|exact Hp|].
  intros i p q Hi Hpk Hs Hq Ho. apply each_ok in Er.
  destruct (forall2_elem_r _ _ _ _ (forall2_both _ _ _ _ F2 Er) Hi) as (j & Hj & Sj & s & s' & Ej).
  destruct (resolve_instance_met _ _ _ _ _ p Ej) with (q := q) as (dep & (t & Ht & Hf & Hpr) & Hd);
    [by rewrite <- (same_package _ _ Sj)|done..|].
  destruct (find_forall2 same t _ _ (fun _ _ h => h) F2 dep Hf) as (dep' & Hf' & Sd).
  exists dep'. split; [|by rewrite (same_id _ _ Sd)]. exists t.
  unfold dependency_of in *. rewrite (same_deps _ _ Sj), (same_package _ _ Sd). done.
Qed.

(** *** A cycle is reported only when there is one *)

Lemma check_bindings_not_cycle all bs : forall seen, check_bindings all seen bs <> Some cycle_error.
Proof.
  induction bs as [|b bs IH]; intros seen; cbn [check_bindings]; [done|].
  repeat case_match; try done; apply IH.
Qed.

Lemma plan_loop_not_cycle ps ds : forall seen acc l e,
  plan_loop ps seen ds acc = (l, Some e) -> e <> cycle_error.
Proof.
  induction ds as [|d ds IH]; intros seen acc l e; cbn [plan_loop]; [done|].
  repeat case_match; try (intros [= _ <-]; done); apply IH.
Qed.

Lemma each_error {S} (body : S -> Instance_ -> S * Instance_ * Res) (Q : string -> Prop) :
  (forall s i s' i' e, body s i = (s', i', Ret (Some e)) -> Q e) ->
  forall l s s' l' e, each body s l = (s', l', Ret (Some e)) -> Q e.
Proof.
  intros Hb l. induction l as [|i l IH]; cbn; intros s s' l' e E; [done|].
  destruct (body s i) as [[s1 i1] [[e1|]| |]] eqn:Eb; simplify_eq; [by eapply Hb|].
  destruct (each body s1 l) as [[s2 l2] r2] eqn:Ee. simplify_eq. by eapply IH.
Qed.

Lemma fail_or_unavailable_error i m i' e : fail_or_unavailable i m = (i', Ret (Some e)) -> e = m.
Proof. unfold fail_or_unavailable, fail, ok. case_match; intros; by simplify_eq. Qed.

Lemma unresolved_error i m i' e : unresolved i m = (i', Ret (Some e)) -> e = m.
Proof.
  unfold unresolved. destruct (fail_or_unavailable i m) as [j q] eqn:E. intros [= _ ->].
  by eapply fail_or_unavailable_error.
Qed.

Lemma resolve_requires_not_cycle all rs : forall i i' e,
  resolve_requires all rs i = (i', Ret (Some e)) -> e <> cycle_error.
Proof.
  induction rs as [|q rs IH]; intros i i' e; cbn [resolve_requires]; [done|].
  repeat (case_match; try apply IH); intros E; apply unresolved_error in E as ->; done.
Qed.

Lemma cycle_only_if_cyclic cfg h h' l :
  plan_and_resolve cfg h = (h', fail cycle_error) ->
  ~ topological (map id (instances h')) (dep_edges (instances h')) l.
Proof.
  unfold plan_and_resolve, fail. destruct (plan_loop _ _ _ _) as [l0 [e|]] eqn:Ep.
  { intros [= _ ->]. by destruct (plan_loop_not_cycle _ _ _ _ _ _ Ep). }
  destruct (each config_instance tt l0) as [[u1 l1] [[e|]| |]] eqn:Ec; try done.
  { intros [= _ ->]. exfalso. eapply (each_error _ (fun e => e <> cycle_error)); [|exact Ec|done].
    intros s i s' i' e. unfold config_instance. destruct (package i); [|done].
    case_match; [done|]. destruct (validate_config _ _ _); [|done..].
    destruct (str_empty _); [done|]. destruct (fail_or_unavailable _ _) eqn:E. intros [= _ _ ->].
    by apply fail_or_unavailable_error in E as ->. }
  destruct (each (resolve_instance l1) tt l1) as [[u2 l2] [[e|]| |]] eqn:Er; try done.
  { intros [= _ ->]. exfalso. eapply (each_error _ (fun e => e <> cycle_error)); [|exact Er|done].
    intros s i s' i' e. unfold resolve_instance. destruct (package i); [|done].
    case_match; [done|]. destruct (List.find _ _) as [[n t]|].
    - destruct (unresolved _ _) eqn:E. intros [= _ _ ->]. by apply unresolved_error in E as ->.
    - destruct (resolve_requires _ _ _) eqn:E. intros [= _ _ ->]. by eapply resolve_requires_not_cycle. }
  destruct (check_bindings _ _ _) eqn:Eb.
  { intros [= _ ->]. by apply check_bindings_not_cycle in Eb. }
  destruct (has_cycle _ _) eqn:Eh; [|done]. intros [= <-] Ht. cbn in *.
  destruct (plan_loops _ _ _ _ _ _ _ _ _ _ Ep Ec Er) as (I2 & Hnd & _ & _ & _ & He & _).
  assert (NoDup (map id l2)) as Hnd2 by (by rewrite I2).
  by rewrite (has_cycle_sound _ _ Hnd2 He l Ht) in Eh.
Qed.
End Plan.

(** ** Loading and creating *)

Lemma settled_edges l l' : Forall2 settled l l' -> dep_edges l' = dep_edges l.
Proof.
  induction 1 as [|i i' l l' [Hs Hd] _ IH]; cbn; [done|]. unfold dep_edges in *.
  by rewrite IH, Hd, (same_id _ _ Hs).
Qed.

Lemma settled_planned ps h h' :
  planned_host ps h -> Forall2 settled (instances h) (instances h') -> start_ids h' = start_ids h ->
  planned_host ps h'.
Proof.
  intros [Hnd Ho Hi Hp Hm] HF Hs.
  assert (forall i i', settled i i' -> same i i') as Hse by (by intros i i' [? _]).
  pose proof (forall2_ids _ _ _ Hse HF) as Hids. constructor.
  - by rewrite Hids.
  - by rewrite Hids, Hs, (settled_edges _ _ HF).
  - by eapply idle_forall2.
  - intros i p Hin E. destruct (forall2_elem_r _ _ _ _ HF Hin) as (j & Hj & [Sj _]).
    eapply Hp; [exact Hj|]. by rewrite <- (same_package _ _ Sj).
  - intros i p q Hin E Hst Hq Hopt. destruct (forall2_elem_r _ _ _ _ HF Hin) as (j & Hj & [Sj Hd]).
    destruct (Hm j p q) as (dep & (t & Ht & Hf & Hpr) & Hdi); try done;
      [by rewrite <- (same_package _ _ Sj)|intros Hc; by apply Hst, (same_unavailable _ _ Sj)|].
    destruct (find_forall2 _ t _ _ Hse HF dep Hf) as (dep' & Hf' & [Sd _]).
    exists dep'. rewrite Hd, (same_id _ _ Sd). split; [|done]. exists t. unfold dependency_of in *.
    by rewrite (same_deps _ _ Sj), (same_package _ _ Sd).
Qed.

(** The calls made before the start stage: nothing is started, and only the
    libraries the manifests name are opened. *)
Definition early_call (platform : Platform) (ps : list Package) (c : Call) : Prop :=
  match c with
  | COpen path => exists p, p ∈ ps /\
      path = path_join (root p) (platform_library_path platform (manifest p))
  | CStart _ _ => False
  | _ => True
  end.

(** [t'] is [t] with calls that satisfy [P] appended. *)
Definition grows (P : Call -> Prop) (t t' : list Call) : Prop := exists u, t' = t ++ u /\ Forall P u.

#[global] Instance grows_refl P : Reflexive (grows P).
Proof. intros t. exists []. by rewrite app_nil_r. Qed.

#[global] Instance grows_trans P : Transitive (grows P).
Proof.
  intros t1 t2 t3 (u & -> & Hu) (v & -> & Hv). exists (u ++ v).
  rewrite app_assoc. split; [done|]. apply Forall_app. done.
Qed.

Lemma grows_snoc (P : Call -> Prop) t c : P c -> grows P t (t ++ [c]).
Proof. intros Hc. exists [c]. split; [done|]. by constructor. Qed.

Section Early.
Context `{JsonLib} `{YamlLib} `{Plugins} `{FileSystem} (platform : Platform).
Context (ps : list Package).
Definition early : list Call -> list Call -> Prop := grows (early_call platform ps).

Lemma load_instance_early t i t' i' r :
  (forall p, package i = Some p -> p ∈ ps) -> load_instance platform t i = (t', i', r) -> early t t'.
Proof.
  intros Hp. unfold load_instance. destruct (state i); try (intros; simplify_eq; reflexivity).
  destruct (package i) as [p|]; [|intros; simplify_eq; reflexivity].
  assert (early t (t ++ [COpen (path_join (root p) (platform_library_path platform (manifest p)))]))
    by (apply grows_snoc; exists p; split; [by apply Hp|done]).
  repeat case_match; intros; by simplify_eq.
Qed.

Lemma release_early t i t' i' : release_unstarted_handle t i = (t', i') -> early t t'.
Proof.
  unfold release_unstarted_handle. repeat case_match; intros; simplify_eq; try reflexivity.
  by apply grows_snoc.
Qed.

Lemma reject_early t c i e t' c' i' r : reject t c i e = (t', c', i', r) -> early t t'.
Proof.
  unfold reject. destruct (release_unstarted_handle t i) as [t1 i1] eqn:E.
  destruct (fail_or_unavailable i1 e). intros; simplify_eq. by eapply release_early.
Qed.

Lemma first_missing_early i l : forall t t' o, first_missing t i l = (t', o) -> early t t'.
Proof.
  induction l as [|p l IH]; intros t t' o; cbn; [intros; simplify_eq; reflexivity|].
  assert (early t (t ++ [CInterface i (provide_interface p)])) as Hs by (by apply grows_snoc).
  case_match; [|by intros; simplify_eq]. intros E. etransitivity; [exact Hs|by eapply IH].
Qed.

Lemma create_instance_early s i s' i' r : create_instance s i = (s', i', r) -> early s.1 s'.1.
Proof.
  unfold create_instance. destruct s as [t c], s' as [t' c']. cbn [fst].
  destruct (state i); try (intros; simplify_eq; reflexivity).
  destruct (abi i), (package i); try (intros; simplify_eq; reflexivity).
  case_match; [intros; simplify_eq; reflexivity|].
  case_match; [|apply reject_early]. destruct (create _ _ _) as [[rc hd] e].
  assert (early t (t ++ [CCreate (id i) s])) as Hs by (by apply grows_snoc).
  intros E. etransitivity; [exact Hs|].
  destruct hd as [hd|]; [|by eapply reject_early]. case_match; [|by eapply reject_early].
  unfold check_handle in E. case_match; [by eapply reject_early|].
  case_match; [by eapply reject_early|].
  destruct (first_missing _ _ _) as [t1 o] eqn:Em. apply first_missing_early in Em.
  etransitivity; [exact Em|]. destruct o; [by eapply reject_early|]. simplify_eq. reflexivity.
Qed.

(** Either stage, whatever its result. *)
Lemma load_all_stage h h' r :
  load_all platform h = (h', r) -> planned_host ps h ->
  planned_host ps h' /\ early (calls h) (calls h') /\ packages h' = packages h.
Proof.
  unfold load_all. destruct (each _ _ _) as [[t l] r'] eqn:E. intros [= <- _] Hp. split_and!; [| |done].
  - eapply settled_planned; [exact Hp| |done].
    eapply each_rel; [apply settled_refl|apply load_instance_settled|exact E].
  - eapply (each_state _ (fun t => early (calls h) t) (fun i => forall p, package i = Some p -> p ∈ ps));
      [|intros i Hi p; by apply (ph_package _ _ Hp)|exact E|reflexivity].
    intros s i s' i' q Hi Hb Hs. etransitivity; [exact Hs|by eapply load_instance_early].
Qed.

Lemma create_all_stage h h' r :
  create_all h = (h', r) -> planned_host ps h ->
  planned_host ps h' /\ early (calls h) (calls h') /\ packages h' = packages h.
Proof.
  unfold create_all. destruct (each _ _ _) as [[[t c] l] r'] eqn:E. intros [= <- _] Hp.
  split_and!; [| |done].
  - eapply settled_planned; [exact Hp| |done].
    eapply each_rel; [apply settled_refl|apply create_instance_settled|exact E].
  - refine (each_state create_instance (fun s => early (calls h) s.1) (fun _ => True)
              _ _ _ _ _ _ (fun _ _ => I) E _); [|exact (grows_refl _ _)].
    intros s i s' i' q _ Hb Hs. etransitivity; [exact Hs|by eapply create_instance_early].
Qed.
End Early.

(** ** Starting *)

(** The instances an instance must not start before: the targets of its
    requirements that are not optional. *)
Definition targets (i : Instance_) : list string :=
  match package i with
  | None => []
  | Some p => omap (fun q => if optional q then None else dependency_of (decl i) (require_name q))
                (requires_ (manifest p))
  end.

Definition is_started (l : list Instance_) (n : string) : Prop :=
  exists i, find_instance n l = Some i /\ state i = started.

Lemma blocked_by_none all i : blocked_by all i = None -> forall n, n ∈ targets i -> is_started all n.
Proof.
  unfold blocked_by, targets. destruct (package i) as [p|]; [|set_solver].
  destruct (List.find _ _) as [q|] eqn:E; [done|]. intros _ n Hn.
  apply list_elem_of_omap in Hn as (q & Hq & Hd). rewrite list_elem_of_In in Hq.
  pose proof (List.find_none _ _ E q Hq) as Hf. cbn in Hf.
  destruct (optional q); [done|]. rewrite Hd in Hf. cbn in Hf.
  destruct (find_instance n all) as [dep|] eqn:Ef; [|done]. exists dep. split; [done|].
  by case_bool_decide.
Qed.

(** What starting an instance does to it, and the calls it makes. *)
Inductive start_case (all : list Instance_) (i : Instance_) : list Call -> Instance_ -> Prop :=
| case_skip : state i = unavailable \/ handle i = None -> start_case all i [] i
| case_blocked i' u :
    state i' <> started -> Forall (fun c => c = CShutdown (id i)) u -> start_case all i u i'
| case_started hd :
    handle i = Some hd -> blocked_by all i = None ->
    start_case all i (if has_start hd then [CStart (id i) true] else []) (set_state started i)
| case_failed i' u :
    state i' <> started -> blocked_by all i = None -> Forall (fun c => c = CShutdown (id i)) u ->
    start_case all i (CStart (id i) false :: u) i'.

(** The identity of an instance: everything but state, handle and error; an
    unavailable instance stays unavailable. *)
Record kept (i i' : Instance_) : Prop := {
  kept_id : id i' = id i;
  kept_package : package i' = package i;
  kept_decl : decl i' = decl i;
  kept_dep_ids : dep_ids i' = dep_ids i;
  kept_unavailable : state i = unavailable -> state i' = unavailable
}.

Lemma kept_refl i : kept i i.
Proof. by constructor. Qed.

Lemma kept_trans i j k : kept i j -> kept j k -> kept i k.
Proof. intros [? ? ? ? ?] [? ? ? ? ?]. constructor; [congruence..|auto]. Qed.

Section Start.
Context `{Plugins}.

Lemma release_calls t i t' i' :
  release_unstarted_handle t i = (t', i') ->
  i' = set_handle None i /\ exists u, t' = t ++ u /\ Forall (fun c => c = CShutdown (id i)) u.
Proof.
  unfold release_unstarted_handle. intros [= <- <-]. split; [done|].
  destruct (handle i) as [hd|]; [destruct (has_shutdown hd)|].
  - exists [CShutdown (id i)]. split; [done|]. by repeat constructor.
  - exists []. by rewrite app_nil_r.
  - exists []. by rewrite app_nil_r.
Qed.

Lemma fail_or_unavailable_kept i e i' r :
  state i <> unavailable -> fail_or_unavailable i e = (i', r) -> kept i i' /\ state i' <> started.
Proof. unfold fail_or_unavailable. cbn. case_match; intros; simplify_eq; by split. Qed.

Lemma start_instance_case all t i t' i' r :
  start_instance all t i = (t', i', r) ->
  kept i i' /\ exists u, t' = t ++ u /\ start_case all i u i'.
Proof.
  unfold start_instance. pose proof (kept_refl i) as Hk.
  destruct (handle i) as [hd|] eqn:Eh.
  2: { intros [= <- <- _]. split; [done|]. exists []. rewrite app_nil_r. split; [done|]. by apply case_skip; right. }
  case_bool_decide as Hu.
  { intros [= <- <- _]. split; [done|]. exists []. rewrite app_nil_r. split; [done|]. by apply case_skip; left. }
  destruct (blocked_by all i) as [name|] eqn:Eb.
  - destruct (release_unstarted_handle t i) as [t1 i1] eqn:Er.
    apply release_calls in Er as (-> & u & -> & Hall).
    destruct (fail_or_unavailable _ _) as [i2 r2] eqn:Ef.
    apply fail_or_unavailable_kept in Ef as [Hk2 Hs]; [|done].
    intros [= <- <- _]. split; [by destruct Hk2|]. exists u. split; [done|]. by apply case_blocked.
  - destruct (has_start hd) eqn:Est.
    + destruct (start t (id i)) as [rc e]. destruct (rc =? 0).
      * intros [= <- <- _]. split; [done|]. eexists. split; [done|].
        replace [CStart (id i) true] with (if has_start hd then [CStart (id i) true] else []) by (by rewrite Est).
        by apply case_started.
      * destruct (release_unstarted_handle _ i) as [t1 i1] eqn:Er.
        apply release_calls in Er as (-> & u & -> & Hall).
        destruct (fail_or_unavailable _ _) as [i2 r2] eqn:Ef.
    apply fail_or_unavailable_kept in Ef as [Hk2 Hs]; [|done].
        intros [= <- <- _]. split; [by destruct Hk2|]. exists (CStart (id i) false :: u).
        rewrite <- app_assoc. split; [done|]. by apply case_failed.
    + intros [= <- <- _]. split; [done|]. exists (if has_start hd then [CStart (id i) true] else []).
      rewrite Est, app_nil_r. split; [done|]. pose proof (case_started all i hd Eh Eb) as Hc. by rewrite Est in Hc.
Qed.
End Start.

(** A start call is the first call of its instance's turn, and its instance is
    not blocked. *)
Lemma start_case_split all i u i' k m b t :
  start_case all i u i' -> u = k ++ CStart m b :: t ->
  k = [] /\ m = id i /\ blocked_by all i = None.
Proof.
  assert (forall u, Forall (fun c => c = CShutdown (id i)) u -> CStart m b ∉ u) as Hn.
  { intros v Hv Hin. rewrite Forall_forall in Hv. apply list_elem_of_In in Hin. by apply Hv in Hin. }
  intros Hc ->. inversion Hc as [? E|? ? ? Hall E|hd Hh Hb E|? ? ? Hb Hall E]; subst.
  - by destruct k.
  - destruct (Hn _ Hall). set_solver.
  - destruct (has_start hd); [|by destruct k]. destruct k as [|c k]; [by cbn in E; simplify_eq|].
    destruct k; discriminate.
  - destruct k as [|c k]; [by cbn in E; simplify_eq|]. cbn in E; injection E as _ ->. destruct (Hn _ Hall). set_solver.
Qed.

Lemma kept_targets i i' : kept i i' -> targets i' = targets i.
Proof. intros [_ Hp Hd _ _]. unfold targets. by rewrite Hp, Hd. Qed.

(** A started dependency, with its start call in [t] if it has a start
    function. *)
Definition started_in (l : list Instance_) (t : list Call) (m : string) : Prop :=
  exists dep hd, find_instance m l = Some dep /\ state dep = started /\ handle dep = Some hd /\
    (has_start hd = true -> CStart m true ∈ t).

(** The loop has visited [pre] and made the calls [tr]. *)
Record start_inv (h0 : Host) (pre : list string) (h : Host) (tr : list Call) : Prop := {
  si_calls : calls h = calls h0 ++ tr;
  si_kept : Forall2 kept (instances h0) (instances h);
  si_order : start_ids h = start_ids h0;
  si_packages : packages h = packages h0;
  si_started : forall n, is_started (instances h) n -> n ∈ pre /\ started_in (instances h) tr n;
  si_deps : forall i, i ∈ instances h -> state i = started ->
    forall m, m ∈ targets i -> is_started (instances h) m;
  si_trace : forall t1 n b t2, tr = t1 ++ CStart n b :: t2 ->
    exists i, find_instance n (instances h) = Some i /\
      forall m, m ∈ targets i -> started_in (instances h) t1 m
}.

Lemma started_in_mono l t u m : started_in l t m -> started_in l (t ++ u) m.
Proof. intros (d & hd & ? & ? & ? & Ht). exists d, hd. split_and!; try done. intros Hs. set_solver. Qed.

Lemma forall2_update n f l l' :
  (forall i, i ∈ l' -> id i = n -> kept i (f i)) -> Forall2 kept l l' ->
  Forall2 kept l (update_instance n f l').
Proof.
  intros Hf. induction 1 as [|i i' l l' Hk HF IH]; cbn; [done|].
  destruct (String.eqb_spec (id i') n) as [E|]; constructor; try done.
  - specialize (Hf i' (list_elem_of_here _ _) E). by eapply kept_trans.
  - apply IH. intros j Hj. apply Hf. by right.
Qed.

#[local] Arguments find_instance : simpl never.

Section Turn.
Context (h0 : Host) (pre : list string) (h : Host) (tr u : list Call) (n : string) (i i' : Instance_).
Context (inv : start_inv h0 pre h tr) (nodup : NoDup (map id (instances h))).
Context (fresh_n : n ∉ pre) (found : find_instance n (instances h) = Some i).
Context (same_i : kept i i') (case_i : start_case (instances h) i u i').

Definition turned : list Instance_ := update_instance n (fun _ => i') (instances h).

Lemma turn_find m : find_instance m turned = if String.eqb m n then Some i' else find_instance m (instances h).
Proof.
  unfold turned. rewrite find_update.
  - destruct (String.eqb_spec m n) as [->|]; [by rewrite found|done].
  - intros _ _. rewrite (kept_id _ _ same_i). by apply find_instance_id in found as [-> _].
Qed.

Lemma turn_ids : map id turned = map id (instances h).
Proof.
  unfold turned. clear -found same_i. induction (instances h) as [|x l IH]; [done|]. cbn [update_instance].
  rewrite find_instance_cons in found. destruct (String.eqb (id x) n); cbn; [|by rewrite IH].
  simplify_eq. by rewrite (kept_id _ _ same_i).
Qed.

Lemma turn_not_started : ~ is_started (instances h) n.
Proof. intros Hs. by apply (si_started _ _ _ _ inv) in Hs as [? _]. Qed.

Lemma turn_stays m : is_started (instances h) m -> find_instance m turned = find_instance m (instances h).
Proof.
  intros Hs. rewrite turn_find. destruct (String.eqb_spec m n) as [->|]; [|done].
  by apply turn_not_started in Hs.
Qed.

Lemma turn_started_in t m : started_in (instances h) t m -> started_in turned t m.
Proof.
  intros (d & hd & Hf & Hs & Hh & Ht). exists d, hd. rewrite turn_stays; [done|]. by exists d.
Qed.

Lemma turn_is_started m : is_started (instances h) m -> is_started turned m.
Proof. intros Hs. pose proof Hs as (d & Hf & Hd). exists d. by rewrite turn_stays. Qed.

Lemma turn_targets : blocked_by (instances h) i = None -> forall m, m ∈ targets i' -> started_in turned tr m.
Proof.
  intros Hb m Hm. rewrite (kept_targets _ _ same_i) in Hm. apply turn_started_in.
  apply (si_started _ _ _ _ inv). by eapply blocked_by_none.
Qed.

(** An instance this turn started has its call in [u]. *)
Lemma turn_self : state i' = started ->
  blocked_by (instances h) i = None /\ exists hd, handle i' = Some hd /\ (has_start hd = true -> CStart n true ∈ u).
Proof.
  intros Hs. assert (state i <> started) as Hi.
  { intros Hc. apply turn_not_started. by exists i. }
  pose proof (proj1 (find_instance_id _ _ _ found)) as Hid.
  inversion case_i; subst; try done. split; [done|]. exists hd. split; [done|]. intros ->. set_solver.
Qed.

Lemma turn_inv : start_inv h0 (pre ++ [n]) (set_calls (calls h ++ u) (set_instances turned h)) (tr ++ u).
Proof.
  pose proof turn_self as Hself. destruct inv as [Hc Hk Ho Hp Hst Hd Htr].
  constructor; cbn; [by rewrite Hc, app_assoc| |done|done|..].
  - apply forall2_update; [|done]. intros x Hx Hid.
    apply (find_instance_nodup _ _ nodup) in Hx. rewrite Hid, found in Hx. by injection Hx as <-.
  - intros m (x & Hx & Hs). rewrite turn_find in Hx. destruct (String.eqb_spec m n) as [->|Hne].
    + injection Hx as <-. split; [set_solver|]. destruct (Hself Hs) as (_ & hd & Hh & Ht).
      exists i', hd. rewrite turn_find, String.eqb_refl. split_and!; try done. intros Hs'. set_solver.
    + destruct (Hst m) as [Hpre Hin]; [by exists x|]. split; [set_solver|].
      by apply started_in_mono, turn_started_in.
  - intros x Hx Hs m Hm. assert (find_instance (id x) turned = Some x) as Hf.
    { apply find_instance_nodup; [|done]. by rewrite turn_ids. }
    rewrite turn_find in Hf. destruct (String.eqb_spec (id x) n) as [E|Hne].
    + injection Hf as <-. destruct (Hself Hs) as [Hb _]. destruct (turn_targets Hb m Hm) as (d & hd & ? & ? & _).
      by exists d.
    + apply turn_is_started. eapply Hd; [|exact Hs|exact Hm]. exact (proj2 (find_instance_id _ _ _ Hf)).
  - intros t1 m b t2 E. apply app_eq_inv in E as [(k & Ek1 & Ek2)|(k & Ek1 & Ek2)].
    + destruct k as [|c k].
      * cbn in Ek2. symmetry in Ek2. rewrite app_nil_r in Ek1. subst t1.
        destruct (start_case_split _ _ _ _ [] _ _ _ case_i Ek2) as (_ & -> & Hb).
        exists i'. pose proof (find_instance_id _ _ _ found) as [-> _]. rewrite turn_find, String.eqb_refl.
        split; [done|]. by apply turn_targets.
      * injection Ek2 as <- _. destruct (Htr _ _ _ _ Ek1) as (x & Hx & Hm).
        exists (if String.eqb m n then i' else x). rewrite turn_find.
        destruct (String.eqb_spec m n) as [->|]; split; try done.
        -- intros y Hy. rewrite (kept_targets _ _ same_i) in Hy. rewrite found in Hx. injection Hx as <-.
           by apply turn_started_in, Hm.
        -- intros y Hy. by apply turn_started_in, Hm.
    + subst t1. destruct (start_case_split _ _ _ _ _ _ _ _ case_i Ek2) as (-> & -> & Hb).
      exists i'. pose proof (find_instance_id _ _ _ found) as [-> _]. rewrite turn_find, String.eqb_refl.
      split; [done|]. rewrite app_nil_r. by apply turn_targets.
Qed.
End Turn.

Section StartAll.
Context `{Plugins}.

Lemma forall2_kept_refl l : Forall2 kept l l.
Proof. induction l as [|i l IH]; [apply Forall2_nil|]. apply Forall2_cons; [apply kept_refl|exact IH]. Qed.

Lemma forall2_kept_ids l l' : Forall2 kept l l' -> map id l' = map id l.
Proof. induction 1 as [|i i' l l' Hk _ IH]; cbn; [done|]. by rewrite IH, (kept_id _ _ Hk). Qed.

Lemma start_loop_inv h0 order : forall pre h tr h' r,
  start_inv h0 pre h tr -> NoDup (pre ++ order) -> NoDup (map id (instances h0)) ->
  start_loop order h = (h', r) ->
  exists pre' tr', start_inv h0 pre' h' tr' /\ forall m, m ∈ pre' -> m ∈ pre ++ order.
Proof.
  induction order as [|n order IH]; intros pre h tr h' r Hi Hnd Hids E; cbn in E.
  { simplify_eq. exists pre, tr. by rewrite app_nil_r. }
  assert (pre ++ n :: order = (pre ++ [n]) ++ order) as Happ by (by rewrite <- app_assoc).
  assert (n ∉ pre) as Hn.
  { apply list.NoDup_app in Hnd as (_ & Hd & _). intros Hc. apply (Hd _ Hc). by left. }
  assert (forall m, m ∈ pre ++ [n] -> m ∈ pre ++ n :: order) as Hsub by set_solver.
  destruct (find_instance n (instances h)) as [i|] eqn:Ef.
  - destruct (start_instance _ _ _) as [[t i'] r1] eqn:Es.
    destruct (start_instance_case _ _ _ _ _ _ Es) as (Hk & u & -> & Hc).
    assert (NoDup (map id (instances h))) as Hids'.
    { by rewrite (forall2_kept_ids _ _ (si_kept _ _ _ _ Hi)). }
    pose proof (turn_inv _ _ _ _ _ _ _ _ Hi Hids' Hn Ef Hk Hc) as Hi'.
    destruct r1 as [[e|]| |]; simplify_eq; try (exists (pre ++ [n]), (tr ++ u); by split).
    rewrite Happ in *. by eapply IH.
  - rewrite Happ in *. eapply IH; [|done..]. destruct Hi as [? ? ? ? Hs ? ?]. constructor; try done.
    intros m Hm. destruct (Hs m Hm). split; [set_solver|done].
Qed.

Lemma start_all_inv ps h h' r :
  planned_host ps h -> start_all h = (h', r) ->
  exists pre tr, start_inv h pre h' tr /\ forall m, m ∈ pre -> m ∈ start_ids h.
Proof.
  intros Hp E. pose proof (ph_nodup _ _ Hp) as Hnd. destruct (ph_order _ _ Hp) as [Hperm _].
  apply (start_loop_inv h (start_ids h) [] h [] h' r); [|cbn; by rewrite Hperm|done|exact E].
  constructor; try done.
  - by rewrite app_nil_r.
  - apply forall2_kept_refl.
  - intros n (i & Hf & Hs). apply find_instance_id in Hf as [_ Hf]. by apply (ph_idle _ _ Hp) in Hf.
  - intros i Hi Hs. by apply (ph_idle _ _ Hp) in Hi.
  - intros [|] ? ? ? ?; discriminate.
Qed.
End StartAll.

(** ** Stopping *)

(** The instances [shutdown] calls into. *)
Definition shuts (l : list Instance_) (n : string) : bool :=
  match find_instance n l with
  | Some i => match handle i with
              | Some hd => bool_decide (state i = started) && has_shutdown hd
              | None => false
              end
  | None => false
  end.

Lemma stop_instance_calls t i :
  (stop_instance t i).1 =
  t ++ match handle i with
       | Some hd => if bool_decide (state i = started) && has_shutdown hd then [CShutdown (id i)] else []
       | None => []
       end.
Proof.
  unfold stop_instance. destruct (handle i) as [hd|]; cbn; [|by rewrite app_nil_r].
  case_bool_decide; cbn; [destruct (has_shutdown hd)|]; by rewrite ?app_nil_r.
Qed.

Lemma stop_instance_id t i : id (stop_instance t i).2 = id i.
Proof. unfold stop_instance. destruct (handle i); cbn; [|done]. by case_bool_decide. Qed.

Lemma stop_instance_state t i :
  (handle i <> None \/ state i <> started) -> state (stop_instance t i).2 <> started.
Proof. unfold stop_instance. destruct (handle i); cbn; [case_bool_decide; cbn; naive_solver|naive_solver]. Qed.

Lemma decide_cons_ne (m n : string) l : m <> n -> bool_decide (m ∈ n :: l) = bool_decide (m ∈ l).
Proof. intros Hne. apply bool_decide_ext. rewrite elem_of_cons. naive_solver. Qed.

Lemma update_const_ids n (x : Instance_) l :
  id x = n -> map id (update_instance n (fun _ => x) l) = map id l.
Proof.
  intros Hx. induction l as [|y l IH]; [done|]. cbn [update_instance].
  destruct (String.eqb_spec (id y) n) as [E|]; cbn; [congruence|by rewrite IH].
Qed.

Lemma stop_loop_eq order : forall h,
  NoDup order ->
  calls (stop_loop order h) = calls h ++ map CShutdown (List.filter (shuts (instances h)) order) /\
  (forall n, find_instance n (instances (stop_loop order h)) =
     if bool_decide (n ∈ order) then option_map (fun i => (stop_instance [] i).2) (find_instance n (instances h))
     else find_instance n (instances h)) /\
  map id (instances (stop_loop order h)) = map id (instances h) /\
  start_ids (stop_loop order h) = start_ids h.
Proof.
  induction order as [|n order IH]; intros h Hnd; cbn [stop_loop].
  { cbn. rewrite app_nil_r. split_and!; try done. }
  apply list.NoDup_cons in Hnd as [Hn Hnd]. cbn [List.filter].
  destruct (find_instance n (instances h)) as [i|] eqn:Ef.
  - destruct (stop_instance (calls h) i) as [t i'] eqn:Es.
    assert (i' = (stop_instance [] i).2) as Hi'.
    { assert (i' = (stop_instance (calls h) i).2) as -> by (by rewrite Es).
      unfold stop_instance. destruct (handle i); [|done]. by case_bool_decide. }
    assert (id i' = n) as Hid'. { rewrite Hi', stop_instance_id. by apply find_instance_id in Ef as [-> _]. }
    assert (forall m, find_instance m (update_instance n (fun _ => i') (instances h)) =
      if String.eqb m n then option_map (fun _ => i') (find_instance m (instances h))
      else find_instance m (instances h)) as Hu by (intros; by apply find_update).
    assert (t = (stop_instance (calls h) i).1) as -> by (by rewrite Es). rewrite stop_instance_calls.
    set (h' := set_calls _ _). destruct (IH h' Hnd) as (Hc & Hf & Hids & Ho). split_and!.
    + rewrite Hc. subst h'. cbn [calls instances set_calls set_instances]. rewrite <- app_assoc. f_equal.
      assert (List.filter (shuts (update_instance n (fun _ => i') (instances h))) order =
              List.filter (shuts (instances h)) order) as ->.
      { apply filter_ext_in. intros m Hm%list_elem_of_In. unfold shuts. rewrite Hu.
        by rewrite (proj2 (String.eqb_neq m n)) by (intros ->; done). }
      unfold shuts at 2. rewrite Ef. pose proof (find_instance_id _ _ _ Ef) as [-> _].
      by destruct (handle i) as [hd|]; [destruct (bool_decide _ && _)|].
    + intros m. rewrite Hf. subst h'. cbn [instances set_calls set_instances]. rewrite Hu.
      destruct (String.eqb_spec m n) as [->|Hmn].
      * rewrite bool_decide_eq_false_2 by done. rewrite bool_decide_eq_true_2 by (by left).
        rewrite Ef. cbn. by rewrite Hi'.
      * by rewrite decide_cons_ne.
    + rewrite Hids. by apply update_const_ids.
    + by rewrite Ho.
  - destruct (IH h Hnd) as (Hc & Hf & Hids & Ho). split_and!; try done.
    + rewrite Hc. unfold shuts at 2. by rewrite Ef.
    + intros m. rewrite Hf. destruct (String.eqb_spec m n) as [->|Hmn].
      * rewrite bool_decide_eq_false_2 by done. by case_bool_decide; rewrite Ef.
      * by rewrite decide_cons_ne.
Qed.

(** A host whose started instances are all within reach of [shutdown]. *)
Record stoppable (h : Host) : Prop := {
  st_order : NoDup (start_ids h);
  st_ids : NoDup (map id (instances h));
  st_reach : forall i, i ∈ instances h -> state i = started -> id i ∈ start_ids h /\ handle i <> None
}.

Lemma idle_stoppable h : NoDup (start_ids h) -> NoDup (map id (instances h)) -> idle (instances h) -> stoppable h.
Proof. intros Ho Hn Hi. constructor; [done..|]. intros i Hin Hs. by apply Hi in Hin. Qed.

Lemma NoDup_rev {A} (l : list A) : NoDup l -> NoDup (rev l).
Proof. intros Hn. rewrite <- (Permutation_rev l). exact Hn. Qed.

Lemma shutdown_spec h :
  stoppable h ->
  calls (shutdown h) = calls h ++ map CShutdown (List.filter (shuts (instances h)) (rev (start_ids h))) /\
  idle (instances (shutdown h)) /\ stoppable (shutdown h).
Proof.
  intros [Ho Hn Hr]. unfold shutdown. cbn [calls instances set_contexts].
  destruct (stop_loop_eq (rev (start_ids h)) h) as (Hc & Hf & Hids & Hs); [by apply NoDup_rev|].
  assert (idle (instances (stop_loop (rev (start_ids h)) h))) as Hidle.
  { intros i Hi Hst. apply find_instance_nodup in Hi; [|by rewrite Hids].
    rewrite Hf in Hi. destruct (bool_decide (id i ∈ rev (start_ids h))) eqn:Eb.
    - destruct (find_instance (id i) (instances h)) as [j|] eqn:Ej; [|done]. cbn in Hi. injection Hi as Hi.
      revert Hst. rewrite <- Hi. apply stop_instance_state.
      apply find_instance_id in Ej as [_ Hj]. destruct (decide (state j = started)) as [Hs'|]; [|by right].
      left. by apply (Hr j Hj).
    - apply bool_decide_eq_false in Eb. apply Eb. rewrite <- (Permutation_rev (start_ids h)).
      apply find_instance_id in Hi as [_ Hi]. by apply Hr. }
  split_and!; [exact Hc|exact Hidle|]. apply idle_stoppable; cbn; [by rewrite Hs|by rewrite Hids|done].
Qed.

(** Nothing to stop, nothing to call. *)
Lemma shutdown_idle h : stoppable h -> idle (instances h) -> calls (shutdown h) = calls h.
Proof.
  intros Hs Hi. rewrite (proj1 (shutdown_spec h Hs)).
  assert (List.filter (shuts (instances h)) (rev (start_ids h)) = []) as ->; [|by rewrite app_nil_r].
  induction (rev (start_ids h)) as [|n l IH]; [done|]. cbn [List.filter].
  destruct (shuts (instances h) n) eqn:E; [|done]. unfold shuts in E.
  destruct (find_instance n (instances h)) as [i|] eqn:Ef; [|done].
  destruct (handle i); [|done]. bools. apply bool_decide_eq_true in H.
  apply find_instance_id in Ef as [_ Ef]. by apply Hi in Ef.
Qed.

(** ** Startup *)

Section Startup.
Context `{JsonLib} `{YamlLib} `{Plugins} `{FileSystem} (platform : Platform).

(** The library paths the catalog lets through. *)
Definition inside_root (p : Package) : Prop :=
  let l := platform_library_path platform (manifest p) in
  l <> "" /\ is_absolute l = false /\ ".." ∉ path_parts l.

Lemma catalog_inside l : forall seen, catalog_loop platform seen l = None -> forall p, p ∈ l -> inside_root p.
Proof.
  induction l as [|x l IH]; intros seen; cbn [catalog_loop]; [set_solver|].
  destruct (existsb _ seen); [done|]. destruct (validate_interface_declarations _); [done|].
  destruct (validate_library_path platform x) eqn:E; [done|]. intros Hl p [->|Hp]%elem_of_cons; [|by eapply IH].
  unfold validate_library_path in E. unfold inside_root.
  destruct (str_empty _) eqn:E1; [done|]. apply str_empty_false in E1.
  destruct (is_absolute _) eqn:E2; [done|]. cbn in E. destruct (has_parent_reference _) eqn:E3; [done|].
  split_and!; try done. intros Hin. rewrite <- not_true_iff_false in E3. apply E3.
  apply existsb_exists. exists "..". by rewrite <- list_elem_of_In.
Qed.

(** What the last three stages start from. *)
Record ready (h0 h : Host) : Prop := {
  rd_catalog : catalog_loop platform [] (packages h) = None;
  rd_planned : planned_host (packages h) h;
  rd_calls : early platform (packages h) (calls h0) (calls h)
}.

Lemma scan_frame dir h h' r :
  scan dir h = (h', r) ->
  instances h' = instances h /\ start_ids h' = start_ids h /\ calls h' = calls h.
Proof.
  unfold scan. repeat case_match; intros; simplify_eq; done.
Qed.

Lemma start_inv_stoppable hm pre h tr :
  planned_host (packages hm) hm -> start_inv hm pre h tr -> (forall m, m ∈ pre -> m ∈ start_ids hm) ->
  stoppable h.
Proof.
  intros Hp Hi Hpre. pose proof (forall2_kept_ids _ _ (si_kept _ _ _ _ Hi)) as Hids.
  assert (NoDup (map id (instances h))) as Hnd by (rewrite Hids; apply (ph_nodup _ _ Hp)).
  constructor; [|done|].
  - rewrite (si_order _ _ _ _ Hi). rewrite (proj1 (ph_order _ _ Hp)). apply (ph_nodup _ _ Hp).
  - intros i Hin Hs. apply (find_instance_nodup _ _ Hnd) in Hin.
    destruct (si_started _ _ _ _ Hi (id i)) as [Hi1 (d & hd & Hd & _ & Hh & _)]; [by exists i|].
    rewrite (si_order _ _ _ _ Hi). split; [by apply Hpre|]. congruence.
Qed.

Definition started_result (h0 h' : Host) : Prop :=
  exists hm pre tr, ready h0 hm /\ start_inv hm pre h' tr /\ (forall m, m ∈ pre -> m ∈ start_ids hm) /\
    forall i, i ∈ instances h' -> required (decl i) = true -> state i = started.

(** Every library that is opened is inside the root of a catalogued package. *)
Definition safe_call (ps : list Package) (c : Call) : Prop :=
  match c with
  | COpen path => exists p, p ∈ ps /\ inside_root p /\
      path = path_join (root p) (platform_library_path platform (manifest p))
  | _ => True
  end.

Lemma grows_weaken (P Q : Call -> Prop) t t' : (forall c, P c -> Q c) -> grows P t t' -> grows Q t t'.
Proof.
  intros HPQ (u & -> & Hu). exists u. split; [done|]. eapply Forall_impl; [|exact Hu]. exact HPQ.
Qed.

Lemma shutdown_grows ps h : stoppable h -> grows (safe_call ps) (calls h) (calls (shutdown h)).
Proof.
  intros Hs. rewrite (proj1 (shutdown_spec h Hs)). eexists. split; [done|].
  apply Forall_forall. intros c Hc. apply in_map_iff in Hc as (n & <- & _). done.
Qed.

Lemma shutdown_packages h : packages (shutdown h) = packages h.
Proof.
  unfold shutdown. cbn. generalize (rev (start_ids h)) as order. intros order.
  revert h. induction order as [|n order IH]; intros h; cbn; [done|].
  destruct (find_instance n (instances h)); [|apply IH]. destruct (stop_instance _ _). by rewrite IH.
Qed.

Lemma start_case_safe ps all i u i' : start_case all i u i' -> Forall (safe_call ps) u.
Proof.
  assert (forall v, Forall (fun c => c = CShutdown (id i)) v -> Forall (safe_call ps) v) as Hv.
  { intros v Hv. eapply Forall_impl; [|exact Hv]. by intros c ->. }
  intros [| | |]; [constructor|by apply Hv|case_match; repeat constructor|constructor; [done|by apply Hv]].
Qed.

Lemma start_loop_grows ps order : forall h h' r,
  start_loop order h = (h', r) -> grows (safe_call ps) (calls h) (calls h').
Proof.
  induction order as [|n order IH]; intros h h' r; cbn; [by intros [= <- _]|].
  destruct (find_instance n (instances h)) as [i|]; [|apply IH].
  destruct (start_instance _ _ _) as [[t i'] r1] eqn:Es.
  destruct (start_instance_case _ _ _ _ _ _ Es) as (_ & u & -> & Hc). apply (start_case_safe ps) in Hc.
  assert (grows (safe_call ps) (calls h) (calls h ++ u)) as Hg by (by exists u).
  destruct r1 as [[e|]| |]; try by intros [= <- _].
  intros E. etransitivity; [exact Hg|]. by apply IH in E.
Qed.

(** How startup ends: its calls, and its result when no exception leaves it. *)
Definition ends (h0 h' : Host) (r : Res) : Prop :=
  grows (safe_call (packages h')) (calls h0) (calls h') /\
  match r with
  | Ret None => started_result h0 h'
  | Ret (Some e) => exists hf, h' = shutdown hf /\ stoppable hf
  | _ => True
  end.

(** One stage: it ends startup, leaving a stoppable host to [shutdown], or the
    next one runs. *)
Lemma stage_ends f fs h0 h h1 r1 h' r :
  f h = (h1, r1) -> run_stages (f :: fs) h = (h', r) ->
  (r1 <> Ret None -> stoppable h1) -> grows (safe_call (packages h1)) (calls h0) (calls h1) ->
  (r1 = Ret None -> run_stages fs h1 = (h', r) -> ends h0 h' r) -> ends h0 h' r.
Proof.
  intros Ef E Hs Hg Hn. cbn [run_stages] in E. rewrite Ef in E.
  destruct r1 as [[e|]| |]; [|by apply Hn|injection E as <- <-; by split..].
  injection E as <- <-. specialize (Hs ltac:(done)). split; [|by exists h1].
  rewrite shutdown_packages. etransitivity; [exact Hg|by apply shutdown_grows].
Qed.

Lemma start_ends h0 h h' r :
  ready h0 h -> grows (safe_call (packages h)) (calls h0) (calls h) ->
  run_stages [start_all; check_required_started] h = (h', r) -> ends h0 h' r.
Proof.
  intros Hr Hg E. destruct (start_all h) as [h6 r6] eqn:E6.
  destruct (start_all_inv _ _ _ _ (rd_planned _ _ Hr) E6) as (pre & tr & Hi & Hpre).
  pose proof (start_inv_stoppable _ _ _ _ (rd_planned _ _ Hr) Hi Hpre) as Hs6.
  assert (grows (safe_call (packages h6)) (calls h0) (calls h6)) as Hg6.
  { rewrite (si_packages _ _ _ _ Hi). etransitivity; [exact Hg|by eapply start_loop_grows]. }
  eapply stage_ends; [exact E6|exact E|done|done|]. clear E. intros _ E.
  eapply (stage_ends check_required_started [] h0 h6); [reflexivity|exact E|done|done|]. clear E. cbn. intros Ef [= <- <-].
  split; [done|]. exists h, pre, tr. split_and!; try done.
  destruct (List.find _ _) as [|] eqn:Ef' in Ef; [done|]. intros i Hin Hreq.
  pose proof (List.find_none _ _ Ef' i (proj1 (list_elem_of_In _ _) Hin)) as Hn. cbn in Hn.
  rewrite Hreq in Hn. cbn in Hn. by case_bool_decide.
Qed.

Lemma planned_stoppable ps h : planned_host ps h -> stoppable h.
Proof.
  intros Hg. apply idle_stoppable; try apply Hg. rewrite (proj1 (ph_order _ _ Hg)). apply Hg.
Qed.

Lemma early_safe ps t t' :
  catalog_loop platform [] ps = None -> early platform ps t t' -> grows (safe_call ps) t t'.
Proof.
  intros Hc. apply grows_weaken. intros [] Hp; try done. destruct Hp as (p & Hp & ->).
  exists p. split_and!; [done|by eapply catalog_inside|done].
Qed.

Lemma load_ends h0 h h' r :
  ready h0 h -> run_stages [load_all platform; create_all; start_all; check_required_started] h = (h', r) ->
  ends h0 h' r.
Proof.
  intros [Hc Hp Hg] E. destruct (load_all platform h) as [h4 r4] eqn:E4.
  destruct (load_all_stage _ _ _ _ _ E4 Hp) as (Hp4 & C4 & P4). rewrite <- P4 in *.
  assert (early platform (packages h4) (calls h0) (calls h4)) as Hg4 by (etransitivity; [exact Hg|exact C4]).
  eapply stage_ends; [exact E4|exact E|intros; by eapply planned_stoppable|by apply early_safe|].
  clear E. intros _ E. destruct (create_all h4) as [h5 r5] eqn:E5.
  destruct (create_all_stage platform _ _ _ _ E5 Hp4) as (Hp5 & C5 & P5). rewrite <- P5 in *.
  assert (early platform (packages h5) (calls h0) (calls h5)) as Hg5 by (etransitivity; [exact Hg4|exact C5]).
  eapply stage_ends; [exact E5|exact E|intros; by eapply planned_stoppable|by apply early_safe|].
  clear E. intros _ E. eapply start_ends; [by constructor|by apply early_safe|exact E].
Qed.

Lemma startup_ends cfg h h' r : startup platform cfg h = (h', r) -> ends (shutdown h) h' r.
Proof.
  unfold startup. set (h0 := mkHost _ _ _ _ _ _). intros E.
  destruct (scan (directory cfg) h0) as [h1 r1] eqn:E1.
  destruct (scan_frame _ _ _ _ E1) as (I1 & O1 & C1).
  assert (stoppable h1) as Hs1.
  { apply idle_stoppable; [rewrite O1|rewrite I1|rewrite I1]; [constructor..|intros i; set_solver]. }
  assert (forall P, grows P (calls (shutdown h)) (calls h1)) as Hg1 by (intros P; rewrite C1; reflexivity).
  eapply stage_ends; [exact E1|exact E|done|apply Hg1|]. clear E. intros _ E.
  eapply (stage_ends (catalog platform) _ _ h1); [reflexivity|exact E|done|apply Hg1|]. clear E. intros [= Ecat] E.
  destruct (plan_and_resolve cfg h1) as [h3 r3] eqn:E3.
  destruct (plan_stage _ _ _ _ E3) as (C3 & P3 & I3 & N3 & O3).
  assert (forall P, grows P (calls (shutdown h)) (calls h3)) as Hg3 by (intros P; rewrite C3; apply Hg1).
  eapply stage_ends; [exact E3|exact E| |apply Hg3|].
  { intros Hr3. apply idle_stoppable; try done. rewrite O3, O1 by done. constructor. }
  clear E. intros -> E. apply plan_ok in E3. rewrite <- P3 in *.
  eapply load_ends; [|exact E]. constructor; [done|done|apply Hg3].
Qed.
End Startup.

Lemma kept_find n l l' i :
  Forall2 kept l l' -> find_instance n l = Some i -> exists i', find_instance n l' = Some i' /\ kept i i'.
Proof.
  induction 1 as [|x y l l' Hk _ IH]; [done|]. rewrite !find_instance_cons, (kept_id _ _ Hk).
  destruct (String.eqb (id x) n); [intros [= <-]; eauto|exact IH].
Qed.

Lemma kept_edges l l' : Forall2 kept l l' -> dep_edges l' = dep_edges l.
Proof.
  induction 1 as [|i i' l l' Hk _ IH]; cbn; [done|]. unfold dep_edges in *.
  by rewrite IH, (kept_dep_ids _ _ Hk), (kept_id _ _ Hk).
Qed.

(** A requirement met when the plan was made is met in the end. *)
Lemma kept_met l l' i i' q dep :
  Forall2 kept l l' -> kept i i' -> met l i q dep -> exists dep', met l' i' q dep' /\ kept dep dep'.
Proof.
  intros HF Hk (t & Ht & Hf & Hp). destruct (kept_find _ _ _ _ HF Hf) as (dep' & Hf' & Hk').
  exists dep'. split; [|done]. exists t. by rewrite (kept_decl _ _ Hk), (kept_package _ _ Hk').
Qed.

Lemma targets_elem i p q t :
  package i = Some p -> q ∈ requires_ (manifest p) -> optional q = false ->
  dependency_of (decl i) (require_name q) = Some t -> t ∈ targets i.
Proof.
  intros Hp Hq Ho Ht. unfold targets. rewrite Hp. apply list_elem_of_omap. exists q. by rewrite Ho.
Qed.

(** ** Properties *)

(** C8: The order plugins are started in is sound and complete: when planning
    succeeds, the start order lists every instance once and puts each after all
    instances it was resolved to depend on; and planning fails with the cycle
    error only if the resolved dependencies admit no such order. *)
Theorem plan_order_topological `{JsonLib} cfg h h' r :
  plan_and_resolve cfg h = (h', r) ->
  (r = Ret None -> topological (map id (instances h')) (dep_edges (instances h')) (start_ids h')) /\
  (r = fail cycle_error -> forall l, ~ topological (map id (instances h')) (dep_edges (instances h')) l).
Proof.
  intros E. split; intros ->.
  - exact (ph_order _ _ (plan_ok _ _ _ E)).
  - intros l. by eapply cycle_only_if_cyclic.
Qed.

(** C9: A successful startup delivers what the configuration asks for: every
    required instance is started, and every started instance has each of its
    mandatory requirements met by an instance that is itself started and whose
    package provides the required interface. *)
Theorem startup_success `{JsonLib} `{YamlLib} `{Plugins} `{FileSystem} platform cfg h h' :
  startup platform cfg h = (h', Ret None) ->
  (forall i, i ∈ instances h' -> required (decl i) = true -> state i = started) /\
  (forall i p q, i ∈ instances h' -> state i = started -> package i = Some p ->
     q ∈ requires_ (manifest p) -> optional q = false ->
     exists dep, met (instances h') i q dep /\ state dep = started).
Proof.
  intros E. destruct (startup_ends _ _ _ _ _ E) as (_ & hm & pre & tr & Hr & Hi & _ & Hreq).
  split; [exact Hreq|]. intros i p q Hin Hs Hp Hq Ho.
  destruct (forall2_elem_r _ _ _ _ (si_kept _ _ _ _ Hi) Hin) as (j & Hj & Hk).
  destruct (ph_met _ _ (rd_planned _ _ _ Hr) j p q Hj) as (dep & Hm & _); try done;
    [by rewrite <- (kept_package _ _ Hk)|intros Hc; by rewrite (kept_unavailable _ _ Hk Hc) in Hs|].
  destruct (kept_met _ _ _ _ _ _ (si_kept _ _ _ _ Hi) Hk Hm) as (dep' & Hm' & _).
  exists dep'. split; [done|]. destruct Hm' as (t & Ht & Hf & _).
  destruct (si_deps _ _ _ _ Hi i Hin Hs t) as (d & Hd & Hds); [by eapply targets_elem|]. congruence.
Qed.

(** Dependencies start first: among the calls a successful startup makes,
    every call of an instance's start function comes after the successful start
    call of each instance it mandatorily depends on (of those that have a start
    function), and these instances are started in the end. *)
Theorem start_calls_ordered `{JsonLib} `{YamlLib} `{Plugins} `{FileSystem} platform cfg h h' :
  startup platform cfg h = (h', Ret None) ->
  exists u, calls h' = calls (shutdown h) ++ u /\
    forall t1 n b t2, u = t1 ++ CStart n b :: t2 ->
    exists i, find_instance n (instances h') = Some i /\
      forall m, m ∈ targets i -> started_in (instances h') t1 m.
Proof.
  intros E. destruct (startup_ends _ _ _ _ _ E) as (_ & hm & pre & tr & Hr & Hi & _ & _).
  destruct (rd_calls _ _ _ Hr) as (v & Hv & Hall). exists (v ++ tr).
  split; [by rewrite (si_calls _ _ _ _ Hi), Hv, app_assoc|].
  assert (forall n b, CStart n b ∉ v) as Hno.
  { intros n b Hin. rewrite Forall_forall in Hall. apply list_elem_of_In in Hin. by apply Hall in Hin. }
  intros t1 n b t2 [(k & -> & Ek)|(k & -> & Ek)]%app_eq_inv.
  - destruct k as [|c k]; [|injection Ek as <- _; destruct (Hno n b); set_solver].
    rewrite app_nil_r in *. destruct (si_trace _ _ _ _ Hi [] n b t2 (eq_sym Ek)) as (i & Hf & Hm).
    exists i. split; [done|]. intros m Hin. destruct (Hm m Hin) as (d & hd & ? & ? & ? & Ht).
    exists d, hd. split_and!; try done. intros Hs. by apply Ht, elem_of_nil in Hs.
  - destruct (si_trace _ _ _ _ Hi k n b t2 Ek) as (i & Hf & Hm). exists i. split; [done|].
    intros m Hin. destruct (Hm m Hin) as (d & hd & ? & ? & ? & Ht). exists d, hd.
    split_and!; try done. intros Hs. apply elem_of_app. right. by apply Ht.
Qed.

(** C10: Failure is clean with respect to running plugins: when startup returns
    false, whatever stage failed, no instance is left started and the host keeps
    no plugin context. *)
Theorem startup_failure_stops `{JsonLib} `{YamlLib} `{Plugins} `{FileSystem} platform cfg h h' e :
  startup platform cfg h = (h', Ret (Some e)) ->
  idle (instances h') /\ contexts h' = [].
Proof.
  intros E. destruct (startup_ends _ _ _ _ _ E) as (_ & hf & -> & Hs).
  by destruct (shutdown_spec hf Hs) as (_ & Hi & _).
Qed.

(** Two elements a filter keeps come in the order of the list. *)
Lemma filter_order (f : string -> bool) o k1 i k2 d k3 :
  List.filter f o = k1 ++ i :: k2 ++ d :: k3 -> exists o1 o2, o = o1 ++ i :: o2 /\ d ∈ o2.
Proof.
  revert k1. induction o as [|x o IH]; intros k1 E; [by destruct k1|]. cbn in E. destruct (f x).
  - destruct k1 as [|y k1]; injection E as -> E.
    + exists [], o. split; [done|]. assert (d ∈ List.filter f o) as Hin by (rewrite E; set_solver).
      rewrite list_elem_of_In, filter_In in Hin. rewrite list_elem_of_In. apply Hin.
    + destruct (IH _ E) as (o1 & o2 & -> & Hd). by exists (y :: o1), o2.
  - destruct (IH _ E) as (o1 & o2 & -> & Hd). by exists (x :: o1), o2.
Qed.

(** Filtering a reversed topological order keeps dependents first. *)
Lemma dependents_first ids edges order (f : string -> bool) l1 d l2 i :
  NoDup ids -> topological ids edges order -> List.filter f (rev order) = l1 ++ d :: l2 ->
  (d, i) ∈ edges -> i ∉ l2.
Proof.
  intros Hnd [Hp Hd] E He Hi. rewrite filter_rev, <- (rev_involutive (l1 ++ d :: l2)) in E.
  apply (f_equal (@rev string)) in E. rewrite !rev_involutive, rev_app_distr in E. cbn in E.
  rewrite <- app_assoc in E. cbn in E.
  assert (NoDup order) as Hno by (by rewrite Hp).
  assert (i ∈ rev l2) as Hi' by (by rewrite <- (Permutation_rev l2)).
  apply list_elem_of_split in Hi' as (k1 & k2 & Hk). rewrite Hk, <- !app_assoc in E. cbn in E.
  destruct (filter_order _ _ _ _ _ _ _ E) as (o1 & o2 & Ho & Hin). specialize (Hd _ _ _ Ho d He).
  rewrite Ho in Hno. apply list.NoDup_app in Hno as (_ & Hdis & _). apply (Hdis d Hd). by right.
Qed.

Lemma list_filter_nodup {A} (f : A -> bool) l : NoDup l -> NoDup (List.filter f l).
Proof.
  induction 1 as [|x l Hx _ IH]; cbn; [constructor|]. destruct (f x); [|done].
  constructor; [|done]. rewrite list_elem_of_In, filter_In, <- list_elem_of_In. naive_solver.
Qed.

(** C11: Shutdown after a successful startup calls the shutdown function of
    exactly the started instances that have one, each once, and an instance only
    after every instance that depends on it; afterwards nothing is started, and
    shutting down again calls nothing. *)
Theorem shutdown_dependents_first `{JsonLib} `{YamlLib} `{Plugins} `{FileSystem} platform cfg h h' :
  startup platform cfg h = (h', Ret None) ->
  exists l, calls (shutdown h') = calls h' ++ map CShutdown l /\ NoDup l /\
    (forall n, n ∈ l <-> shuts (instances h') n = true) /\
    (forall l1 d l2 i, l = l1 ++ d :: l2 -> (d, i) ∈ dep_edges (instances h') -> i ∉ l2) /\
    idle (instances (shutdown h')) /\ calls (shutdown (shutdown h')) = calls (shutdown h').
Proof.
  intros E. destruct (startup_ends _ _ _ _ _ E) as (_ & hm & pre & tr & Hr & Hi & Hpre & _).
  pose proof (rd_planned _ _ _ Hr) as Hp. pose proof (start_inv_stoppable _ _ _ _ Hp Hi Hpre) as Hs.
  destruct (shutdown_spec h' Hs) as (Hc & Hid & Hs').
  eexists. split; [exact Hc|]. split_and!; [|..|exact Hid|by apply shutdown_idle].
  - apply list_filter_nodup, NoDup_rev, Hs.
  - intros n. rewrite list_elem_of_In, filter_In, <- in_rev, <- list_elem_of_In. split; [by intros [_ ?]|].
    intros Hn. split; [|done]. unfold shuts in Hn.
    destruct (find_instance n (instances h')) as [i|] eqn:Ef; [|done]. destruct (handle i); [|done].
    bools. apply find_instance_id in Ef as [<- Hin]. apply (st_reach _ Hs); [done|].
    by apply bool_decide_eq_true in H3.
  - intros l1 d l2 i El He. rewrite (kept_edges _ _ (si_kept _ _ _ _ Hi)) in He.
    rewrite (si_order _ _ _ _ Hi) in El. by eapply dependents_first; [apply Hp|apply Hp|..].
Qed.

(** Only libraries inside their package are opened: whatever startup
    returns, every library path it opens is the path a scanned package's
    manifest declares, joined to the package root, and the declared path is not
    empty, not absolute and has no parent reference. *)
Theorem opened_libraries_inside `{JsonLib} `{YamlLib} `{Plugins} `{FileSystem} platform cfg h h' r :
  startup platform cfg h = (h', r) ->
  exists u, calls h' = calls (shutdown h) ++ u /\
    forall path, COpen path ∈ u -> exists p, p ∈ packages h' /\
      path = path_join (root p) (platform_library_path platform (manifest p)) /\ inside_root platform p.
Proof.
  intros E. destruct (startup_ends _ _ _ _ _ E) as [(u & Hu & Hall) _]. exists u. split; [done|].
  intros path Hin. rewrite Forall_forall in Hall. apply list_elem_of_In, Hall in Hin.
  destruct Hin as (p & Hp & Hins & ->). by exists p.
Qed.

(** ** A concrete host

    Two packages: a database and a cache that requires it; the cache is
    configured first. *)

(** An untagged scalar. *)
Definition plain (s : string) : ynode := YScalar "?" s.

Definition demo_node (name iface : string) (reqs : list ynode) : ynode :=
  YMap [(plain "schema_version", plain "1"); (plain "id", plain name);
        (plain "entry", plain "shield_plugin_get_v1");
        (plain "library", YMap [(plain "linux", plain (name ++ ".so"))]);
        (plain "provides", YSequence [YMap [(plain "interface", plain iface)]]);
        (plain "requires", YSequence reqs)].

Definition demo_require (name iface : string) : ynode :=
  YMap [(plain "name", plain name); (plain "interface", plain iface)].

Definition demo_yaml : YamlLib :=
  {| yaml_load := fun text =>
       if String.eqb text "db" then inr (demo_node "db" "shield.database.v1" [])
       else if String.eqb text "cache"
       then inr (demo_node "cache" "shield.cache.v1" [demo_require "db" "shield.database.v1"])
       else inl (ParserException "bad file");
     as_bool := fun _ => None;
     as_int64 := fun s => if String.eqb s "1" then Some 1 else None;
     as_double := fun _ => None;
     as_string := fun n => match n with YScalar _ s => inr s | _ => inl (BadConversion "bad conversion") end |}.

Definition demo_files : FileSystem :=
  {| fs_exists := fun _ => inr true;
     fs_is_directory := fun _ => inr true;
     fs_list := fun _ => (["plugins/cache"; "plugins/db"; "plugins/junk"], None);
     fs_read := fun p => if String.eqb p "plugins/db/manifest.yaml" then Some "db"
                         else if String.eqb p "plugins/cache/manifest.yaml" then Some "cache"
                         else None |}.

(** Every plugin works, except that the instance [broken] does not start. *)
Definition demo_plugins (broken : string) : Plugins :=
  {| dlopen := fun _ _ => inr tt;
     entry_point := fun _ p _ =>
       Some (Some (mkAbi 1 32 (Some (if String.eqb p "plugins/db/db.so" then "db" else "cache")) true));
     create := fun _ _ _ => (0, Some (mkHandle 48 true true true false), mkErr None None);
     get_interface := fun _ _ _ => Some 4096;
     start := fun _ i => if String.eqb i broken then (1, mkErr None (Some "no disk")) else (0, mkErr None None);
     register_lua := fun _ _ => (0, mkErr None None) |}.

Definition demo_config : PluginConfig :=
  mkPluginConfig "plugins"
    [mkDecl "cache.main" "cache" true [("db", "db.main")] JNull; mkDecl "db.main" "db" true [] JNull]
    [mkBinding "database.default" "db.main"].

Definition demo_startup (broken : string) : Host * Res :=
  @startup plain_lib demo_yaml (demo_plugins broken) demo_files OtherPlatform demo_config host_make.

Definition demo_host : Host := Eval vm_compute in (demo_startup "").1.
Definition broken_host : Host := Eval vm_compute in (demo_startup "db.main").1.

(** The cache waits for the database it was configured before. *)
Example demo_order : start_ids demo_host = ["db.main"; "cache.main"].
Proof. reflexivity. Qed.

(** A configuration whose two instances require each other. *)
Definition ring_package : Package :=
  mkPackage (mkManifest 1 "ring" "ring" "1" "" "" "e" (mkLib "" "ring.so" "")
    [mkProvide "ring.v1" []] [mkRequire "next" "ring.v1" false] no_lua no_docs (JObj [])) "plugins/ring".

Definition ring_config : PluginConfig :=
  mkPluginConfig "plugins"
    [mkDecl "a" "ring" true [("next", "b")] JNull; mkDecl "b" "ring" true [("next", "a")] JNull] [].

Definition ring_plan : Host * Res :=
  @plan_and_resolve plain_lib ring_config (set_packages [ring_package] host_make).

Lemma plan_order_topological_witness :
  ring_plan = (ring_plan.1, fail cycle_error) /\
  ~ topological ["a"; "b"] [("b", "a"); ("a", "b")] ["a"; "b"].
Proof.
  assert (ring_plan = (ring_plan.1, fail cycle_error)) as E by (vm_compute; reflexivity).
  split; [exact E|].
  exact (proj2 (@plan_order_topological plain_lib ring_config (set_packages [ring_package] host_make)
                  ring_plan.1 (fail cycle_error) E) eq_refl ["a"; "b"]).
Defined.

Lemma demo_startup_ok :
  @startup plain_lib demo_yaml (demo_plugins "") demo_files OtherPlatform demo_config host_make
  = (demo_host, Ret None).
Proof. vm_compute. reflexivity. Qed.

Lemma broken_startup_fails :
  @startup plain_lib demo_yaml (demo_plugins "db.main") demo_files OtherPlatform demo_config host_make
  = (broken_host, Ret (Some "plugin.init.failed: db.main no disk")).
Proof. vm_compute. reflexivity. Qed.

Lemma startup_success_witness :
  (@startup plain_lib demo_yaml (demo_plugins "") demo_files OtherPlatform demo_config host_make
     = (demo_host, Ret None)) /\
  (forall i, i ∈ instances demo_host -> required (decl i) = true -> state i = started) /\
  (forall i p q, i ∈ instances demo_host -> state i = started -> package i = Some p ->
     q ∈ requires_ (manifest p) -> optional q = false ->
     exists dep, met (instances demo_host) i q dep /\ state dep = started).
Proof.
  split; [exact demo_startup_ok|].
  apply (@startup_success plain_lib demo_yaml (demo_plugins "") demo_files OtherPlatform demo_config
           host_make demo_host demo_startup_ok).
Defined.

Lemma start_calls_ordered_witness :
  (@startup plain_lib demo_yaml (demo_plugins "") demo_files OtherPlatform demo_config host_make
     = (demo_host, Ret None)) /\
  (exists u, calls demo_host = [] ++ u /\
    forall t1 n b t2, u = t1 ++ CStart n b :: t2 ->
    exists i, find_instance n (instances demo_host) = Some i /\
      forall m, m ∈ targets i -> started_in (instances demo_host) t1 m) /\
  CStart "cache.main" true ∈ calls demo_host.
Proof.
  split; [exact demo_startup_ok|]. split.
  - apply (@start_calls_ordered plain_lib demo_yaml (demo_plugins "") demo_files OtherPlatform demo_config
             host_make demo_host demo_startup_ok).
  - apply list_elem_of_In. vm_compute. tauto.
Defined.

Lemma startup_failure_stops_witness :
  (@startup plain_lib demo_yaml (demo_plugins "db.main") demo_files OtherPlatform demo_config host_make
     = (broken_host, Ret (Some "plugin.init.failed: db.main no disk"))) /\
  idle (instances broken_host) /\ contexts broken_host = [].
Proof.
  split; [exact broken_startup_fails|].
  apply (@startup_failure_stops plain_lib demo_yaml (demo_plugins "db.main") demo_files OtherPlatform
           demo_config host_make broken_host _ broken_startup_fails).
Defined.

Lemma shutdown_dependents_first_witness :
  (@startup plain_lib demo_yaml (demo_plugins "") demo_files OtherPlatform demo_config host_make
     = (demo_host, Ret None)) /\
  (exists l, calls (shutdown demo_host) = calls demo_host ++ map CShutdown l /\ NoDup l /\
    (forall n, n ∈ l <-> shuts (instances demo_host) n = true) /\
    (forall l1 d l2 i, l = l1 ++ d :: l2 -> (d, i) ∈ dep_edges (instances demo_host) -> i ∉ l2) /\
    idle (instances (shutdown demo_host)) /\
    calls (shutdown (shutdown demo_host)) = calls (shutdown demo_host)) /\
  calls (shutdown demo_host) = calls demo_host ++ [CShutdown "cache.main"; CShutdown "db.main"].
Proof.
  split; [exact demo_startup_ok|]. split; [|vm_compute; reflexivity].
  apply (@shutdown_dependents_first plain_lib demo_yaml (demo_plugins "") demo_files OtherPlatform
           demo_config host_make demo_host demo_startup_ok).
Defined.

Lemma opened_libraries_inside_witness :
  (@startup plain_lib demo_yaml (demo_plugins "") demo_files OtherPlatform demo_config host_make
     = (demo_host, Ret None)) /\
  (exists u, calls demo_host = [] ++ u /\
    forall path, COpen path ∈ u -> exists p, p ∈ packages demo_host /\
      path = path_join (root p) (platform_library_path OtherPlatform (manifest p)) /\
      inside_root OtherPlatform p) /\
  COpen "plugins/cache/cache.so" ∈ calls demo_host.
Proof.
  split; [exact demo_startup_ok|]. split.
  - apply (@opened_libraries_inside plain_lib demo_yaml (demo_plugins "") demo_files OtherPlatform
             demo_config host_make demo_host (Ret None) demo_startup_ok).
  - apply list_elem_of_In. vm_compute. tauto.
Defined.

(** A failed startup leaves handles behind: the cache was created, the start of
    the database failed, and the cache's handle is neither shut down nor
    released, although its context is gone. *)
Example failed_startup_leaks :
  map (fun i => (id i, state i, bool_decide (handle i = None))) (instances broken_host)
    = [("cache.main", loaded, false); ("db.main", failed, true)] /\
  CShutdown "cache.main" ∉ calls broken_host /\ contexts broken_host = [].
Proof.
  split; [reflexivity|]. split; [|reflexivity].
  rewrite list_elem_of_In. vm_compute. intuition discriminate.
Qed.
