(* ===== verification/Config.v ===== *)
(** * Config: the layered configuration (src/config/config.cpp)

    YAML documents are merged into one tree, later ones on top; the tree's
    scalars and lists of scalars are stored under their dotted paths, which is
    what every reader sees.  [PluginConfig] is read back from that store
    (src/plugin/plugin_config.cpp). *)

From S2P Require Import Prelude Text Json Manifest PluginHost.
From Stdlib Require Import Floats.SpecFloat.

(** ** Data *)

Inductive StorageValue :=
| SString (s : string)
| SInt (z : Z)
| SDouble (f : spec_float)
| SBool (b : bool)
| SArray (l : list string)
| SNode (n : ynode).

(** [Config::Impl] *)
Record Config := mkConfig {
  storage : gmap string StorageValue;
  yaml_root : ynode;
  source_dir : string
}.

Definition config_make : Config := mkConfig ∅ YNull "".

(** ** Numbers as text *)

(** The quotient rounded to the nearest integer, ties to even. *)
Definition round_div (n d : Z) : Z :=
  let q := n / d in let r := n `mod` d in
  if 2 * r <? d then q else if d <? 2 * r then q + 1 else if Z.even q then q else q + 1.

(** The decimal digits of a non-negative number of any size. *)
Definition digits_of (z : Z) : string := dec_digits (S (Z.to_nat (Z.log2 z))) z "".

Fixpoint zeros (n : nat) : string := match n with O => "" | S n' => String "0"%char (zeros n') end.

(** [printf("%f")], as [std::to_string(double)] prints: six decimals. *)
Definition to_string_double (f : spec_float) : string :=
  let show (neg : bool) (m : Z) (e : Z) : string :=
    let n := if 0 <=? e then m * 2 ^ e * 10 ^ 6 else round_div (m * 10 ^ 6) (2 ^ (- e)) in
    let frac := digits_of (n `mod` 10 ^ 6) in
    ((if neg then "-" else "") ++ digits_of (n / 10 ^ 6) ++ "." ++
     zeros (6 - String.length frac) ++ frac)%string in
  match f with
  | S754_zero s => show s 0 0
  | S754_finite s m e => show s (Zpos m) e
  | S754_infinity s => if s then "-inf" else "inf"
  | S754_nan => "nan"
  end.

(** [std::stoll(s)] in base 10: leading space and a sign are allowed, what
    follows the digits is ignored. *)
Definition stoll (s : string) : option Z :=
  let s1 := skip isspace s in
  let '(neg, s2) := match s1 with
                    | String "-"%char r => (true, r)
                    | String "+"%char r => (false, r)
                    | _ => (false, s1)
                    end in
  let '(v, digits) := scan_digits 10 s2 0 0 in
  let z := if (neg : bool) then - v else v in
  if digits =? 0 then None
  else if (- 2 ^ 63 <=? z) && (z <? 2 ^ 63) then Some z else None.

(** ** Merging documents *)

Section Yaml.
Context `{YamlLib}.

(** Whether a key node is the text [k]. *)
Definition key_is (k : string) (n : ynode) : bool :=
  match as_string n with inr s => String.eqb s k | inl _ => false end.

(** [node[k]] of a map, and [node[k] = v]. *)
Fixpoint find_key (k : string) (l : list (ynode * ynode)) : option ynode :=
  match l with
  | [] => None
  | (n, v) :: l' => if key_is k n then Some v else find_key k l'
  end.

Fixpoint set_key (k : string) (v : ynode) (l : list (ynode * ynode)) : list (ynode * ynode) :=
  match l with
  | [] => [(YScalar "" k, v)]
  | (n, w) :: l' => if key_is k n then (n, v) :: l' else (n, w) :: set_key k v l'
  end.

Fixpoint merge_yaml_nodes (base overlay : ynode) {struct overlay} : yaml_exn + ynode :=
  match base, overlay with
  | YNull, _ => inr overlay
  | _, YNull => inr base
  | YMap b, YMap o =>
      (fix go (merged o : list (ynode * ynode)) {struct o} : yaml_exn + ynode :=
         match o with
         | [] => inr (YMap merged)
         | (n, v) :: o' =>
             let? key := as_string n in
             let? m := merge_yaml_nodes (default YNull (find_key key merged)) v in
             go (set_key key m merged) o'
         end) b o
  | _, _ => inr overlay
  end.

(** ** Storing the leaves *)

(** [value.as<T>()], which throws when the text is no [T]. *)
Definition as_or_throw {A} (o : option A) : yaml_exn + A :=
  match o with Some a => inr a | None => inl (BadConversion "bad conversion") end.

Definition scalar_value (tag s : string) : yaml_exn + StorageValue :=
  if String.eqb tag "!!int" then let? z := as_or_throw (as_int64 s) in inr (SInt z)
  else if String.eqb tag "!!float" then let? f := as_or_throw (as_double s) in inr (SDouble f)
  else if String.eqb tag "!!bool" then let? b := as_or_throw (as_bool s) in inr (SBool b)
  else let? t := as_string (YScalar tag s) in inr (SString t).

(** The texts of a sequence, [None] when an item is no scalar. *)
Fixpoint sequence_value (items : list ynode) : yaml_exn + option (list string) :=
  match items with
  | [] => inr (Some [])
  | YScalar tag s :: items' =>
      let? t := as_string (YScalar tag s) in
      let? r := sequence_value items' in
      inr (option_map (cons t) r)
  | _ :: _ => inr None
  end.

Definition full_key (prefix key : string) : string :=
  if str_empty prefix then key else prefix ++ "." ++ key.

(** What is stored for a value that is not walked into. *)
Definition leaf_value (n : ynode) : yaml_exn + option StorageValue :=
  match n with
  | YScalar tag s => let? v := scalar_value tag s in inr (Some v)
  | YSequence items => let? r := sequence_value items in inr (option_map SArray r)
  | _ => inr None
  end.

(** The recursive lambda of [flatten_yaml_node]; an exception leaves what was
    stored before it. *)
Fixpoint flatten (node : ynode) (prefix : string) (st : gmap string StorageValue)
  : gmap string StorageValue * option yaml_exn :=
  match node with
  | YMap l =>
      (fix go (l : list (ynode * ynode)) (st : gmap string StorageValue)
         : gmap string StorageValue * option yaml_exn :=
         match l with
         | [] => (st, None)
         | (n, v) :: l' =>
             match as_string n with
             | inl e => (st, Some e)
             | inr key =>
                 let k := full_key prefix key in
                 let '(st', e) :=
                   match v with
                   | YScalar _ _ | YSequence _ =>
                       match leaf_value v with
                       | inl e => (st, Some e)
                       | inr (Some x) => (<[k := x]> st, None)
                       | inr None => (st, None)
                       end
                   | _ => flatten v k st
                   end in
                 match e with
                 | None => go l' st'
                 | Some e => (st', Some e)
                 end
             end
         end) l st
  | _ => (st, None)
  end.

Definition flatten_yaml_node (root : ynode) : gmap string StorageValue * option yaml_exn :=
  flatten root "" ∅.

(** ** Loading *)

(** After parsing: the tree is replaced before the store is rebuilt, so an
    exception in between leaves the new tree and a partial store. *)
Definition load_node (dir : string) (node : ynode) (c : Config) : Config * bool :=
  match merge_yaml_nodes (yaml_root c) node with
  | inl _ => (c, false)
  | inr root =>
      let '(st, e) := flatten_yaml_node root in
      (mkConfig st root dir, match e with None => true | Some _ => false end)
  end.

Definition load_yaml_string (yaml : string) (c : Config) : Config * bool :=
  match yaml_load yaml with
  | inl _ => (c, false)
  | inr node => load_node (source_dir c) node c
  end.

(** [fs::path::parent_path()]: the parts before the last, without trailing
    separators. *)
Fixpoint drop_empty (l : list string) : list string :=
  match l with "" :: l' => drop_empty l' | _ => l end.

Definition parent_path (p : string) : string :=
  match rev (drop_empty (rev (removelast (path_parts p)))) with
  | [] => if is_absolute p then "/" else ""
  | ps => String.concat "/" ps
  end.

Definition load_yaml (read_file : string -> option string) (path : string) (c : Config) : Config * bool :=
  match read_file path with
  | None => (c, false)
  | Some text =>
      match yaml_load text with
      | inl _ => (c, false)
      | inr node =>
          let parent := parent_path path in
          load_node (if str_empty parent then "." else parent) node c
      end
  end.

End Yaml.

(** ** Reading *)

Definition get_string (c : Config) (key default_value : string) : string :=
  match storage c !! key with
  | Some (SString s) => s
  | Some (SInt z) => to_string_i64 z
  | Some (SDouble f) => to_string_double f
  | Some (SBool b) => if b then "true" else "false"
  | _ => default_value
  end.

Definition get_int (c : Config) (key : string) (default_value : Z) : outcome Z :=
  match storage c !! key with
  | Some (SInt z) => Ret z
  | Some (SDouble f) => float_cast (- 2 ^ 63) (2 ^ 63 - 1) f
  | Some (SString s) => Ret (default default_value (stoll s))
  | _ => Ret default_value
  end.

Definition get_bool (c : Config) (key : string) (default_value : bool) : bool :=
  match storage c !! key with
  | Some (SBool b) => b
  | Some (SString s) => String.eqb s "true" || String.eqb s "1" || String.eqb s "yes"
  | _ => default_value
  end.

Definition get_string_array (c : Config) (key : string) : list string :=
  match storage c !! key with Some (SArray l) => l | _ => [] end.

Definition has (c : Config) (key : string) : bool := bool_decide (is_Some (storage c !! key)).

(** [ConfigValue] has the alternatives other than a node. *)
Definition is_config_value (v : StorageValue) : bool := match v with SNode _ => false | _ => true end.

Definition set (key : string) (v : StorageValue) (c : Config) : Config :=
  mkConfig (<[key := v]> (storage c)) (yaml_root c) (source_dir c).

Definition get_value (c : Config) (key : string) : option StorageValue :=
  match storage c !! key with
  | Some v => if is_config_value v then Some v else None
  | None => None
  end.

Definition merge (c other : Config) : Config :=
  mkConfig (storage other ∪ storage c) (yaml_root c) (source_dir c).

(** ** As JSON *)

Definition scalar_json (v : StorageValue) : option json :=
  match v with
  | SString s => Some (JStr s)
  | SInt z => Some (JInt z)
  | SDouble f => Some (JFloat f)
  | SBool b => Some (JBool b)
  | _ => None
  end.

(** Assigning to a member makes the null value an object. *)
Definition json_add (j : json) (kv : string * StorageValue) : json :=
  match scalar_json kv.2 with
  | Some x => JObj (obj_set kv.1 x (match j with JObj l => l | _ => [] end))
  | None => j
  end.

Definition storage_json (c : Config) : json := fold_left json_add (map_to_list (storage c)) JNull.

Definition to_json `{JsonLib} (c : Config) : exn + string := json_dump (storage_json c).

(** ** The plugin configuration *)

Section ReadPlugins.
Context `{JsonLib}.

Definition parse_dependencies (j : json) : outcome (list (string * string)) :=
  match get "dependencies" j with
  | Some (JObj l) =>
      omap_list (fun kv => let! s := Json.get_string kv.2 in Ret (kv.1, s)) l
  | _ => Ret []
  end.

Definition parse_instance (j : json) : outcome InstanceDecl :=
  let! id := value Json.get_string "id" "" j in
  let! pkg := value Json.get_string "package" "" j in
  let! req := value Json.get_bool "required" true j in
  let! deps := parse_dependencies j in
  let! cfg := value get_json "config" (JObj []) j in
  Ret (mkDecl id pkg req deps cfg).

Definition parse_bindings (plugins : json) : outcome (list BindingDecl) :=
  match get "bindings" plugins with
  | Some (JObj l) =>
      omap_list (fun kv => let! s := Json.get_string kv.2 in Ret (mkBinding kv.1 s)) l
  | _ => Ret []
  end.

Definition parse_instances (plugins : json) : outcome (list InstanceDecl) :=
  match get "instances" plugins with
  | Some (JArr l) => omap_list parse_instance l
  | _ => Ret []
  end.

Definition parse_plugin_config (c : Config) : outcome PluginConfig :=
  let dir := get_string c "plugins.directory" "./plugins" in
  let empty := mkPluginConfig dir [] [] in
  match (let? text := to_json c in json_parse (bytes_of text)) with
  | inl _ => Ret empty
  | inr root =>
      match get "plugins" root with
      | None => Ret empty
      | Some plugins =>
          let! instances := parse_instances plugins in
          let! bindings := parse_bindings plugins in
          Ret (mkPluginConfig dir instances bindings)
      end
  end.

End ReadPlugins.

(** ** Navigation

    The value at a path of keys, null when there is none. *)

Section Paths.
Context `{YamlLib}.

Definition child (n : ynode) (k : string) : ynode :=
  match n with YMap l => default YNull (find_key k l) | _ => YNull end.

Definition at_keys (n : ynode) (p : list string) : ynode := fold_left child p n.

#[local] Arguments at_keys : simpl never.

Lemma at_keys_cons n k p : at_keys n (k :: p) = at_keys (child n k) p.
Proof. done. Qed.

(** Scalars and sequences: what a later document replaces as a whole. *)
Definition is_leaf (n : ynode) : bool :=
  match n with YScalar _ _ | YSequence _ => true | _ => false end.

(** Keys are texts and distinct within each map. *)
Definition key_texts (l : list (ynode * ynode)) : list (yaml_exn + string) := map (fun kv => as_string kv.1) l.

Inductive keys_distinct : ynode -> Prop :=
| kd_flat n : (forall l, n <> YMap l) -> keys_distinct n
| kd_map l ks :
    key_texts l = map inr ks -> NoDup ks -> (forall n v, (n, v) ∈ l -> keys_distinct v) ->
    keys_distinct (YMap l).

Lemma key_is_text k n : key_is k n = true <-> as_string n = inr k.
Proof.
  unfold key_is. destruct (as_string n) as [e|s]; [done|]. rewrite String.eqb_eq. naive_solver.
Qed.

Lemma find_key_elem k l v : find_key k l = Some v -> exists n, (n, v) ∈ l /\ as_string n = inr k.
Proof.
  induction l as [|[n w] l IH]; cbn; [done|]. destruct (key_is k n) eqn:E.
  - intros [= <-]. apply key_is_text in E. exists n. split; [by left|done].
  - intros (m & Hm & Hk)%IH. exists m. split; [by right|done].
Qed.

(** The text keys of a map are those [find_key] finds. *)
Lemma find_key_none k l ks : key_texts l = map inr ks -> k ∉ ks -> find_key k l = None.
Proof.
  intros Hl Hk. destruct (find_key k l) as [w|] eqn:E; [|done]. exfalso. apply Hk.
  apply find_key_elem in E as (n & Hin & Ht).
  assert (inr k ∈ key_texts l) as Hin' by (apply list_elem_of_fmap; exists (n, w); cbn; auto).
  rewrite Hl in Hin'. by apply list_elem_of_fmap in Hin' as (? & [= ->] & ?).
Qed.

Lemma find_set_key k v l j :
  as_string (YScalar "" k) = inr k ->
  find_key j (set_key k v l) = if String.eqb j k then Some v else find_key j l.
Proof.
  intros Hk. induction l as [|[n w] l IH]; cbn [set_key find_key].
  - unfold key_is. rewrite Hk, String.eqb_sym. by destruct (String.eqb j k).
  - destruct (key_is k n) eqn:E; cbn [find_key].
    + apply key_is_text in E. unfold key_is. rewrite E, (String.eqb_sym k j). by destruct (String.eqb j k).
    + rewrite IH. destruct (key_is j n) eqn:Ej; [|done]. destruct (String.eqb_spec j k) as [->|]; [congruence|done].
Qed.

(** *** Merging *)

(** yaml-cpp reads a scalar it made from a text back as that text. *)
Context (scalar_text : forall k, as_string (YScalar "" k) = inr k).

Definition merge_loop :=
  fix go (merged o : list (ynode * ynode)) {struct o} : yaml_exn + ynode :=
    match o with
    | [] => inr (YMap merged)
    | (n, v) :: o' =>
        let? key := as_string n in
        let? m := merge_yaml_nodes (default YNull (find_key key merged)) v in
        go (set_key key m merged) o'
    end.

Lemma merge_maps b o : merge_yaml_nodes (YMap b) (YMap o) = merge_loop b o.
Proof. done. Qed.

(** A child of a merged map: merged where the overlay has the key, the base's
    otherwise. *)
Lemma merge_loop_child o : forall ks b m k,
  key_texts o = map inr ks -> NoDup ks -> merge_loop b o = inr m ->
  match find_key k o with
  | Some v => merge_yaml_nodes (default YNull (find_key k b)) v = inr (child m k)
  | None => child m k = default YNull (find_key k b)
  end.
Proof.
  induction o as [|[n v] o IH]; intros ks b m k Hk Hnd; cbn; [intros [= <-]; done|].
  destruct ks as [|k0 ks]; [done|]. injection Hk as Hn Hk. apply list.NoDup_cons in Hnd as [Hk0 Hnd].
  rewrite Hn. cbn [ebind]. destruct (merge_yaml_nodes _ v) as [e|m0] eqn:Em; [done|]. cbn [ebind].
  intros Hm. specialize (IH ks _ _ k Hk Hnd Hm). rewrite find_set_key in IH by done.
  unfold key_is. rewrite Hn. rewrite (String.eqb_sym k0 k). destruct (String.eqb_spec k k0) as [->|Hne].
  - pose proof (find_key_none _ _ _ Hk Hk0) as Hno.
    rewrite Hno in IH. cbn in IH. by rewrite Em, IH.
  - exact IH.
Qed.

Lemma at_keys_null p : at_keys YNull p = YNull.
Proof. induction p as [|k p IH]; [done|exact IH]. Qed.

Lemma at_keys_leaf n p : is_leaf n = true -> p <> [] -> at_keys n p = YNull.
Proof. destruct p; [done|]. intros Hl _. destruct n; try done; apply at_keys_null. Qed.

Lemma distinct_child n k : keys_distinct n -> keys_distinct (child n k).
Proof.
  intros Hd. destruct n as [|tag s|l|l]; try (constructor; done). cbn.
  destruct (find_key k l) as [v|] eqn:E; [|by constructor].
  apply find_key_elem in E as (n & Hin & _). inversion Hd as [? Hf|? ? ? ? Hv]; subst; [by destruct (Hf l)|].
  by eapply Hv.
Qed.

(** The overlay's leaves win. *)
Lemma merge_overlay p : forall b o m,
  keys_distinct o -> merge_yaml_nodes b o = inr m -> is_leaf (at_keys o p) = true -> at_keys m p = at_keys o p.
Proof.
  induction p as [|k p IH]; intros b o m Hd Hm Hl; [|rewrite !at_keys_cons in *].
  { unfold at_keys in *. destruct b, o; cbn in *; congruence. }
  destruct o as [|tag s|l|o]; try (cbn in Hl; by rewrite at_keys_null in Hl).
  destruct b as [|? ?|?|b]; try (cbn in Hm; by injection Hm as <-).
  rewrite merge_maps in Hm. inversion Hd as [? Hf|? ks Hk Hnd Hv]; subst; [by destruct (Hf o)|].
  pose proof (merge_loop_child _ _ _ _ k Hk Hnd Hm) as Hc. cbn in *.
  destruct (find_key k o) as [v|] eqn:E; cbn in *; [|by rewrite at_keys_null in Hl].
  eapply IH; [|exact Hc|exact Hl]. apply find_key_elem in E as (n & Hin & _). by eapply Hv.
Qed.

(** The base's leaves stay where the overlay says nothing. *)
Lemma merge_base p : forall b o m,
  keys_distinct o -> merge_yaml_nodes b o = inr m ->
  (forall q, q `prefix_of` p -> is_leaf (at_keys o q) = false) -> at_keys o p = YNull ->
  is_leaf (at_keys b p) = true -> at_keys m p = at_keys b p.
Proof.
  induction p as [|k p IH]; intros b o m Hd Hm Hq Ho Hl; [|rewrite !at_keys_cons in *].
  { unfold at_keys in *. cbn in *. subst o. destruct b; cbn in *; congruence. }
  pose proof (Hq [] (prefix_nil _)) as Hleaf. unfold at_keys in Hleaf. cbn in Hleaf.
  destruct b as [|? ?|?|b]; try (cbn in Hl; by rewrite at_keys_null in Hl).
  destruct o as [|tag s|l|o]; try done; [cbn in Hm; by injection Hm as <-|].
  rewrite merge_maps in Hm. inversion Hd as [? Hf|? ks Hk Hnd Hv]; subst; [by destruct (Hf o)|].
  pose proof (merge_loop_child _ _ _ _ k Hk Hnd Hm) as Hc. cbn in *.
  destruct (find_key k o) as [v|] eqn:E; cbn in *; [|by rewrite Hc].
  eapply IH; [|exact Hc| |exact Ho|exact Hl].
  - apply find_key_elem in E as (n & Hin & _). by eapply Hv.
  - intros q Hp. specialize (Hq (k :: q) (prefix_cons _ _ _ Hp)). rewrite at_keys_cons in Hq.
    cbn in Hq. by rewrite E in Hq.
Qed.
End Paths.

(** ** Dotted paths *)

Definition dotless (k : string) : bool :=
  negb (str_empty k) && str_all (fun c => negb (Ascii.eqb c "."%char)) k.

Definition dotted (p : list string) : string := String.concat "." p.

Lemma split_on_dotless k : str_all (fun c => negb (Ascii.eqb c "."%char)) k = true -> split_on "."%char k = [k].
Proof.
  induction k as [|c k IH]; cbn; [done|]. intros [Hc Hk]%andb_true_iff.
  apply negb_true_iff in Hc. by rewrite Hc, IH.
Qed.

Lemma split_on_app k r :
  str_all (fun c => negb (Ascii.eqb c "."%char)) k = true ->
  split_on "."%char (k +:+ String "."%char r) = k :: split_on "."%char r.
Proof.
  induction k as [|c k IH]; [done|]. cbn [str_all]. intros [Hc Hk]%andb_true_iff.
  rewrite str_app_cons. cbn [split_on]. apply negb_true_iff in Hc. by rewrite Hc, IH.
Qed.

Lemma dotted_cons k p : p <> [] -> dotted (k :: p) = k +:+ String "."%char (dotted p).
Proof. destruct p; [done|]. intros _. unfold dotted. cbn. by rewrite str_app_cons, str_app_nil. Qed.

(** A dotted path determines its keys. *)
Lemma split_dotted p : p <> [] -> Forall (fun k => dotless k = true) p -> split_on "."%char (dotted p) = p.
Proof.
  induction p as [|k p IH]; [done|]. intros _ [Hk Hp]%Forall_cons_iff.
  apply andb_true_iff in Hk as [_ Hk]. destruct (decide (p = [])) as [->|Hne].
  - by apply split_on_dotless.
  - rewrite dotted_cons, split_on_app by done. by rewrite IH.
Qed.

Lemma dotted_inj p r :
  p <> [] -> r <> [] -> Forall (fun k => dotless k = true) p -> Forall (fun k => dotless k = true) r ->
  dotted p = dotted r -> p = r.
Proof. intros Hp Hr Gp Gr E. rewrite <- (split_dotted p), <- (split_dotted r) by done. by rewrite E. Qed.

Lemma dotted_app q k : q <> [] -> dotted (q ++ [k]) = dotted q +:+ String "."%char k.
Proof.
  induction q as [|x q IH]; [done|]. intros _. destruct (decide (q = [])) as [->|Hne]; [done|].
  rewrite <- app_comm_cons, !dotted_cons by (by destruct q). rewrite IH by done.
  by rewrite <- app_assoc_str, str_app_cons.
Qed.

Lemma dotted_snoc q k :
  Forall (fun k => dotless k = true) q -> full_key (dotted q) k = dotted (q ++ [k]).
Proof.
  unfold full_key. destruct (decide (q = [])) as [->|Hne]; [done|]. intros Hq.
  rewrite dotted_app by done. assert (str_empty (dotted q) = false) as ->; [|done].
  destruct q as [|x q]; [done|]. apply Forall_cons_iff in Hq as [Hx _].
  apply andb_true_iff in Hx as [Hx _]. apply negb_true_iff in Hx. destruct x as [|c x]; [done|].
  destruct (decide (q = [])) as [->|]; [done|]. by rewrite dotted_cons, str_app_cons.
Qed.

Fixpoint strip (q r : list string) : option (list string) :=
  match q, r with
  | [], _ => Some r
  | x :: q', y :: r' => if String.eqb x y then strip q' r' else None
  | _ :: _, [] => None
  end.

Lemma strip_some q r p : strip q r = Some p <-> r = q ++ p.
Proof.
  revert r. induction q as [|x q IH]; intros r; cbn; [naive_solver|].
  destruct r as [|y r]; [done|]. destruct (String.eqb_spec x y) as [->|Hne]; [rewrite IH|]; naive_solver.
Qed.

Lemma strip_snoc q k r :
  strip (q ++ [k]) r = match strip q r with
                       | Some (k' :: p) => if String.eqb k k' then Some p else None
                       | _ => None
                       end.
Proof.
  revert r. induction q as [|x q IH]; intros r; cbn; [by destruct r|].
  destruct r as [|y r]; [done|]. destruct (String.eqb x y); [apply IH|done].
Qed.

(** ** The store holds the leaves *)

Section Flatten.
Context `{YamlLib}.

(** Every key is a text without a dot, and distinct within its map. *)
Inductive well_keyed : ynode -> Prop :=
| wk_flat n : (forall l, n <> YMap l) -> well_keyed n
| wk_map l ks :
    key_texts l = map inr ks -> NoDup ks -> Forall (fun k => dotless k = true) ks ->
    (forall n v, (n, v) ∈ l -> well_keyed v) -> well_keyed (YMap l).

(** What the store keeps of a node. *)
Definition stored (n : ynode) : option StorageValue :=
  match leaf_value n with inr o => o | inl _ => None end.

(** The leaf of [n] that the path [r] names, when [n] is at the path [q]. *)
Definition named (n : ynode) (q r : list string) : option StorageValue :=
  match strip q r with Some (k :: p) => stored (at_keys n (k :: p)) | _ => None end.

(** The leaf named through the child [v] at key [k]. *)
Definition named_child (k : string) (v : ynode) (q r : list string) : option StorageValue :=
  match strip (q ++ [k]) r with Some p => stored (at_keys v p) | None => None end.

Definition flatten_loop (prefix : string) :=
  fix go (l : list (ynode * ynode)) (st : gmap string StorageValue)
    : gmap string StorageValue * option yaml_exn :=
    match l with
    | [] => (st, None)
    | (n, v) :: l' =>
        match as_string n with
        | inl e => (st, Some e)
        | inr key =>
            let k := full_key prefix key in
            let '(st', e) :=
              match v with
              | YScalar _ _ | YSequence _ =>
                  match leaf_value v with
                  | inl e => (st, Some e)
                  | inr (Some x) => (<[k := x]> st, None)
                  | inr None => (st, None)
                  end
              | _ => flatten v k st
              end in
            match e with
            | None => go l' st'
            | Some e => (st', Some e)
            end
        end
    end.

Lemma flatten_map l prefix st : flatten (YMap l) prefix st = flatten_loop prefix l st.
Proof. done. Qed.

Definition good_path (r : list string) : Prop := r <> [] /\ Forall (fun k => dotless k = true) r.

(** What flattening [n] at [q] does to the store. *)
Definition stores (n : ynode) : Prop := forall q st st',
  well_keyed n -> Forall (fun k => dotless k = true) q -> flatten n (dotted q) st = (st', None) ->
  forall r, good_path r ->
  st' !! dotted r = match named n q r with Some v => Some v | None => st !! dotted r end.

Lemma named_map_cons n v l k ks q r :
  as_string n = inr k -> key_texts l = map inr ks -> k ∉ ks ->
  named (YMap ((n, v) :: l)) q r =
  match named_child k v q r with Some x => Some x | None => named (YMap l) q r end.
Proof.
  intros Hn Hl Hk. unfold named, named_child. rewrite strip_snoc.
  destruct (strip q r) as [[|j p]|]; [done| |done]. rewrite !at_keys_cons. cbn [child find_key].
  unfold key_is at 1. rewrite Hn. destruct (String.eqb_spec k j) as [->|Hne]; [|done].
  rewrite (find_key_none _ _ _ Hl Hk).
  cbn. rewrite at_keys_null. by destruct (stored (at_keys v p)).
Qed.

(** A leaf is stored under its own path, and nothing else changes. *)
Lemma leaf_stores v k q (st : gmap string StorageValue) r x :
  is_leaf v = true -> leaf_value v = inr x -> Forall (fun k => dotless k = true) q -> dotless k = true ->
  good_path r ->
  match x with Some y => <[full_key (dotted q) k := y]> st | None => st end !! dotted r =
  match named_child k v q r with Some y => Some y | None => st !! dotted r end.
Proof.
  intros Hl Hx Hq Hk [Hr Gr]. rewrite dotted_snoc by done. unfold named_child.
  assert (Forall (fun k => dotless k = true) (q ++ [k])) as Gq by (apply Forall_app; by repeat constructor).
  assert (q ++ [k] <> []) as Hne by (by destruct q).
  destruct (strip (q ++ [k]) r) as [[|j p]|] eqn:Es.
  - apply strip_some in Es. rewrite app_nil_r in Es. subst r. unfold stored, at_keys. cbn. rewrite Hx.
    destruct x; [by rewrite lookup_insert_eq|done].
  - rewrite at_keys_leaf by done. cbn. destruct x; [|done]. rewrite lookup_insert_ne; [done|].
    intros E. apply dotted_inj in E; try done. apply strip_some in Es. subst r.
    rewrite <- (app_nil_r (q ++ [k])) in E at 1. by apply app_inv_head in E.
  - destruct x; [|done]. rewrite lookup_insert_ne; [done|]. intros E. apply dotted_inj in E; try done.
    assert (strip (q ++ [k]) r = Some []) as Hs by (apply strip_some; by rewrite app_nil_r). congruence.
Qed.

Lemma child_stores v k q (st st1 : gmap string StorageValue) :
  stores v -> well_keyed v -> Forall (fun k => dotless k = true) q -> dotless k = true ->
  match v with
  | YScalar _ _ | YSequence _ =>
      match leaf_value v with
      | inl e => (st, Some e)
      | inr (Some x) => (<[full_key (dotted q) k := x]> st, None)
      | inr None => (st, None)
      end
  | _ => flatten v (full_key (dotted q) k) st
  end = (st1, None) ->
  forall r, good_path r ->
  st1 !! dotted r = match named_child k v q r with Some y => Some y | None => st !! dotted r end.
Proof.
  intros Hs Hw Hq Hk E r Hr. destruct (is_leaf v) eqn:El.
  - assert (exists x, leaf_value v = inr x /\
      st1 = match x with Some y => <[full_key (dotted q) k := y]> st | None => st end) as (x & Hx & ->).
    { destruct v; try done; destruct (leaf_value _) as [e|[x|]]; simplify_eq; eauto. }
    by apply leaf_stores.
  - assert (flatten v (full_key (dotted q) k) st = (st1, None)) as Ef by (by destruct v).
    rewrite dotted_snoc in Ef by done.
    rewrite (Hs (q ++ [k]) st st1 Hw) with (r := r);
      [|apply Forall_app; by repeat constructor|exact Ef|done].
    unfold named, named_child. destruct (strip (q ++ [k]) r) as [[|j p]|]; try done.
    unfold at_keys. cbn. assert (stored v = None) as -> by (by destruct v). done.
Qed.

Lemma flatten_stores n : stores n.
Proof.
  revert n. fix IH 1. intros [|tag s|items|l]; try (intros q st st' _ _ [= <-] r _; unfold named;
    destruct (strip q r) as [[|k p]|]; try done; rewrite at_keys_cons; cbn; by rewrite at_keys_null).
  assert (forall n v, (n, v) ∈ l -> stores v) as Hl.
  { induction l as [|[n0 v0] l IHl]; [clear IH; intros n v Hin; by apply elem_of_nil in Hin|].
    pose proof (IH v0) as H0. clear IH. intros n v [[= -> ->]|Hin]%elem_of_cons; [exact H0|by eapply IHl]. }
  clear IH. intros q st st' Hw Hq. rewrite flatten_map.
  inversion Hw as [? Hf|? ks Hk Hnd Hg Hv]; subst; [by destruct (Hf l)|]. clear Hw.
  revert ks st Hk Hnd Hg. induction l as [|[n v] l IHl]; intros ks st Hk Hnd Hg; cbn [flatten_loop].
  { intros [= <-] r _. unfold named. destruct (strip q r) as [[|k p]|]; try done.
    rewrite at_keys_cons. cbn. by rewrite at_keys_null. }
  destruct ks as [|k ks]; [done|]. injection Hk as Hn Hk. apply list.NoDup_cons in Hnd as [Hnk Hnd].
  apply Forall_cons_iff in Hg as [Gk Hg]. rewrite Hn.
  match goal with |- (let '(_, _) := ?m in _) = _ -> _ => destruct m as [st1 e] eqn:E1 end.
  destruct e; [done|]. intros E r Hr.
  rewrite (IHl (fun n' v' Hin => Hl n' v' (list_elem_of_further _ _ _ Hin))
            (fun n' v' Hin => Hv n' v' (list_elem_of_further _ _ _ Hin)) ks st1 Hk Hnd Hg E r Hr).
  rewrite (child_stores v k q st st1 (Hl n v (list_elem_of_here _ _)) (Hv n v (list_elem_of_here _ _))
             Hq Gk E1 r Hr).
  rewrite (named_map_cons n v l k ks q r Hn Hk Hnk).
  destruct (named_child k v q r) eqn:Ec; [|done].
  destruct (named (YMap l) q r) eqn:En; [|done]. exfalso.
  unfold named, named_child in *. rewrite strip_snoc in Ec.
  destruct (strip q r) as [[|j p]|]; try done. destruct (String.eqb_spec k j) as [->|]; [|done].
  rewrite at_keys_cons in En. cbn in En. rewrite (find_key_none _ _ _ Hk Hnk) in En.
  cbn in En. by rewrite at_keys_null in En.
Qed.
End Flatten.

(** ** The plugin configuration is lost *)

(** Every member of the JSON form of a store is a scalar. *)
Definition flat_object (j : json) : Prop :=
  forall k v, get k j = Some v -> is_object v = false /\ is_array v = false.

Lemma json_add_flat j kv : flat_object j -> flat_object (json_add j kv).
Proof.
  intros Hj k v. unfold json_add. destruct kv as [key x]. cbn [fst snd].
  destruct (scalar_json x) as [y|] eqn:E; [|apply Hj].
  rewrite get_obj_set. destruct (String.eqb k key).
  - intros [= <-]. destruct x; cbn in E; by simplify_eq.
  - destruct j; try done. apply Hj.
Qed.

Lemma storage_json_flat c : flat_object (storage_json c).
Proof.
  unfold storage_json. assert (flat_object JNull) as H0 by done. revert H0. generalize JNull as j.
  induction (map_to_list (storage c)) as [|kv l IH]; intros j Hj; [done|]. cbn. apply IH. by apply json_add_flat.
Qed.

(** Parsing the text of a value gives its members back, each of its kind. *)
Class JsonRoundTrip (J : JsonLib) : Prop :=
  parse_dump : forall j text j', json_dump j = inr text -> json_parse (bytes_of text) = inr j' ->
    forall k v', get k j' = Some v' ->
    exists v, get k j = Some v /\ is_object v' = is_object v /\ is_array v' = is_array v.

Lemma no_members plugins k : is_object plugins = false -> get k plugins = None.
Proof. by destruct plugins. Qed.

(** ** Properties *)

(** Later documents win, leaf by leaf: in the merge of two documents every
    scalar or list of the later one is found at its path; and every scalar or
    list of the earlier one is kept if the later one has nothing at its path
    and no scalar or list on the way to it. *)
Theorem later_document_wins `{YamlLib} b o m :
  (forall k, as_string (YScalar "" k) = inr k) -> keys_distinct o -> merge_yaml_nodes b o = inr m ->
  (forall p, is_leaf (at_keys o p) = true -> at_keys m p = at_keys o p) /\
  (forall p, is_leaf (at_keys b p) = true -> at_keys o p = YNull ->
     (forall q, q `prefix_of` p -> is_leaf (at_keys o q) = false) -> at_keys m p = at_keys b p).
Proof.
  intros Hs Hd Hm. split.
  - intros p. by apply (merge_overlay Hs p b o m).
  - intros p Hl Ho Hq. by apply (merge_base Hs p b o m).
Qed.

(** The store is the document: after a successful load of a document whose
    keys have no dots, reading a dotted path gives exactly the scalar or list
    of scalars at that path of the merged tree, and nothing for any other path. *)
Theorem store_holds_leaves `{YamlLib} yaml c c' :
  load_yaml_string yaml c = (c', true) -> well_keyed (yaml_root c') ->
  forall p, p <> [] -> Forall (fun k => dotless k = true) p ->
  storage c' !! dotted p = stored (at_keys (yaml_root c') p).
Proof.
  unfold load_yaml_string, load_node. destruct (yaml_load yaml) as [|node]; [done|].
  destruct (merge_yaml_nodes _ _) as [|root]; [done|].
  destruct (flatten_yaml_node root) as [st e] eqn:E. intros [= <- He] Hw p Hp Gp.
  destruct e; [done|]. cbn in *. rewrite (flatten_stores root [] ∅ st Hw (Forall_nil _) E p) by done.
  unfold named. cbn. destruct p as [|k p]; [done|]. by destruct (stored _).
Qed.

(** The plugin configuration never arrives: whatever the configuration
    holds, reading the plugin section from its JSON form yields no instances
    and no bindings, because that form has the dotted paths of scalars as its
    members and no nested section. *)
Theorem plugin_section_is_lost (J : JsonLib) (c : Config) :
  JsonRoundTrip J ->
  parse_plugin_config c = Ret (mkPluginConfig (get_string c "plugins.directory" "./plugins") [] []).
Proof.
  intros HR. unfold parse_plugin_config, to_json. destruct (json_dump (storage_json c)) as [e|text] eqn:Ed; [done|].
  cbn [ebind]. destruct (json_parse (bytes_of text)) as [e|j] eqn:Ep; [done|].
  destruct (get "plugins" j) as [v'|] eqn:Eg; [|done].
  destruct (HR _ _ _ Ed Ep _ _ Eg) as (v & Hv & Ho & _). apply storage_json_flat in Hv as [Hv _].
  unfold parse_instances, parse_bindings. by rewrite !(no_members v') by (by rewrite Ho).
Qed.

(** ** Concrete documents *)

Definition text_node (s : string) : ynode := YScalar "?" s.

(** A base document with a plugin instance, and an overlay. *)
Definition base_doc : ynode :=
  YMap [(text_node "plugins",
          YMap [(text_node "directory", text_node "./plugins");
                (text_node "instances", YSequence [YMap [(text_node "id", text_node "db.main")]])]);
        (text_node "log", YMap [(text_node "level", text_node "info"); (text_node "file", text_node "a.log")])].

Definition overlay_doc : ynode :=
  YMap [(text_node "log", YMap [(text_node "level", text_node "debug")])].

Definition doc_yaml : YamlLib :=
  {| yaml_load := fun text => if String.eqb text "base" then inr base_doc
                              else if String.eqb text "overlay" then inr overlay_doc
                              else inl (ParserException "bad file");
     as_bool := fun _ => None; as_int64 := fun _ => None; as_double := fun _ => None;
     as_string := fun n => match n with YScalar _ s => inr s | _ => inl (BadConversion "bad conversion") end |}.

(** A library that prints and parses objects with one member, true. *)
Definition flag_lib : JsonLib :=
  {| json_parse := fun bytes => inr (JObj [(string_of bytes, JBool true)]);
     json_dump := fun j => match j with JObj [(k, JBool true)] => inr k | _ => inl (JsonExn "not a flag") end;
     json_error := fun _ _ _ => "type error" |}.

Lemma flag_roundtrip : JsonRoundTrip flag_lib.
Proof.
  intros j text j' Hd [= <-] k v' Hg. cbn in Hd. rewrite string_of_bytes_of in Hg.
  destruct j as [| | | | | | |l]; try done. destruct l as [|[k0 x] l]; [done|].
  destruct x as [|[]| | | | | |], l; try done. simplify_eq. exists v'. split; [exact Hg|done].
Qed.

Definition merged_doc : ynode :=
  YMap [(text_node "plugins",
          YMap [(text_node "directory", text_node "./plugins");
                (text_node "instances", YSequence [YMap [(text_node "id", text_node "db.main")]])]);
        (text_node "log", YMap [(text_node "level", text_node "debug"); (text_node "file", text_node "a.log")])].

Lemma overlay_distinct : @keys_distinct doc_yaml overlay_doc.
Proof.
  apply (@kd_map doc_yaml _ ["log"]); [done|apply (bool_decide_unpack _); vm_compute; exact I|].
  intros n v [= -> ->]%list_elem_of_singleton.
  apply (@kd_map doc_yaml _ ["level"]); [done|apply (bool_decide_unpack _); vm_compute; exact I|].
  intros n v [= -> ->]%list_elem_of_singleton. by constructor.
Qed.

Lemma later_document_wins_witness :
  @merge_yaml_nodes doc_yaml base_doc overlay_doc = inr merged_doc /\
  @at_keys doc_yaml merged_doc ["log"; "level"] = text_node "debug" /\
  @at_keys doc_yaml merged_doc ["log"; "file"] = text_node "a.log".
Proof.
  split; [reflexivity|].
  pose proof (@later_document_wins doc_yaml base_doc overlay_doc merged_doc
                (fun k => eq_refl) overlay_distinct eq_refl) as [Ho Hb].
  split.
  - exact (Ho ["log"; "level"] eq_refl).
  - apply (Hb ["log"; "file"] eq_refl eq_refl). intros q Hq.
    destruct q as [|x [|y [|z q]]]; [reflexivity|..].
    + apply prefix_cons_inv_1 in Hq as ->. reflexivity.
    + pose proof (prefix_cons_inv_1 _ _ _ _ Hq) as ->. apply prefix_cons_inv_2 in Hq.
      apply prefix_cons_inv_1 in Hq as ->. reflexivity.
    + apply prefix_length in Hq. cbn in Hq. lia.
Defined.

Definition loaded_config : Config := Eval vm_compute in (@load_yaml_string doc_yaml "base" config_make).1.

Lemma base_well_keyed : @well_keyed doc_yaml base_doc.
Proof.
  apply (@wk_map doc_yaml _ ["plugins"; "log"]); [done|apply (bool_decide_unpack _); vm_compute; exact I|
    by repeat constructor|].
  intros n v [[= -> ->]|[= -> ->]%list_elem_of_singleton]%elem_of_cons.
  - apply (@wk_map doc_yaml _ ["directory"; "instances"]); [done|apply (bool_decide_unpack _); vm_compute; exact I|
      by repeat constructor|].
    intros n v [[= -> ->]|[= -> ->]%list_elem_of_singleton]%elem_of_cons; by constructor.
  - apply (@wk_map doc_yaml _ ["level"; "file"]); [done|apply (bool_decide_unpack _); vm_compute; exact I|
      by repeat constructor|].
    intros n v [[= -> ->]|[= -> ->]%list_elem_of_singleton]%elem_of_cons; by constructor.
Qed.

Lemma store_holds_leaves_witness :
  @load_yaml_string doc_yaml "base" config_make = (loaded_config, true) /\
  storage loaded_config !! "log.level" = Some (SString "info") /\
  storage loaded_config !! "plugins.instances" = None.
Proof.
  assert (@load_yaml_string doc_yaml "base" config_make = (loaded_config, true)) as E
    by (vm_compute; reflexivity).
  split; [exact E|]. split.
  - apply (@store_holds_leaves doc_yaml "base" config_make loaded_config E base_well_keyed ["log"; "level"]);
      [done|by repeat constructor].
  - apply (@store_holds_leaves doc_yaml "base" config_make loaded_config E base_well_keyed
             ["plugins"; "instances"]); [done|by repeat constructor].
Defined.

Lemma plugin_section_is_lost_witness :
  JsonRoundTrip flag_lib /\
  @parse_plugin_config flag_lib (set "plugins" (SBool true) config_make)
    = Ret (mkPluginConfig "./plugins" [] []).
Proof.
  split; [exact flag_roundtrip|].
  exact (plugin_section_is_lost flag_lib (set "plugins" (SBool true) config_make) flag_roundtrip).
Defined.
