(* ===== verification/Numbers.v ===== *)
(** * Numbers: texts as numbers, as the C++ library reads them

    [std::stoll] and [std::stod] with the position they report, and
    [Config::get_double], which uses the second.  A decimal number is rounded to
    the nearest double; [stod] throws when the number is too large, or so small
    that digits are lost. *)

From Stdlib Require Import Floats.SpecFloat.
From S2P Require Import Prelude Text Schema Config.

(** ** Signs *)

(** The text behind blanks and a sign, and whether the sign was a minus. *)
Definition split_sign (s : string) : bool * string :=
  match skip isspace s with
  | String "-"%char r => (true, r)
  | String "+"%char r => (false, r)
  | r => (false, r)
  end.

(** How much of [s] was read when [rest] is left. *)
Definition consumed (s rest : string) : Z := slen s - slen rest.

(** The digits at the front, and what follows them. *)
Definition is_digit (base : Z) (c : Ascii.ascii) : bool := bool_decide (is_Some (digit_val base c)).

(** ** Integers *)

(** [std::stoll(s, &pos)]: the number and [pos]. *)
Definition stoll_pos (s : string) : option (Z * Z) :=
  let '(neg, s2) := split_sign s in
  let '(v, digits) := scan_digits 10 s2 0 0 in
  let z := if (neg : bool) then - v else v in
  if digits =? 0 then None
  else if (- 2 ^ 63 <=? z) && (z <? 2 ^ 63) then Some (z, slen s - slen s2 + digits) else None.

(** ** Doubles *)

(** The double nearest to [m * 10^e]; the quotient has enough bits for one bit to
    stand for what is cut off. *)
Definition nearest_double (neg : bool) (m e : Z) : spec_float :=
  if 0 <=? e then binary_normalize 53 1024 ((if neg then -1 else 1) * m * 10 ^ e) 0 neg
  else
    let d := 10 ^ (- e) in
    let k := Z.max 0 (Z.log2 d - Z.log2 m + 60) in
    let q := m * 2 ^ k / d in
    let sticky := if (m * 2 ^ k) `mod` d =? 0 then 0 else 1 in
    binary_normalize 53 1024 ((if neg then -1 else 1) * (2 * q + sticky)) (- k - 1) neg.

Definition lower (c : Ascii.ascii) : Ascii.ascii :=
  if between "A" "Z" c then Ascii.ascii_of_N (Ascii.N_of_ascii c + 32) else c.

(** What follows a word that [s] starts with in either case. *)
Fixpoint after_word (word s : string) : option string :=
  match word, s with
  | EmptyString, _ => Some s
  | String w word, String c s => if Ascii.eqb w (lower c) then after_word word s else None
  | _, _ => None
  end.

(** The exponent behind one of the letters, when digits follow: its value, and
    what is left. *)
Definition read_exponent (letter : Ascii.ascii) (s : string) : Z * string :=
  match s with
  | String c r =>
      let '(neg, r2) := match r with
                        | String "-"%char r => (true, r)
                        | String "+"%char r => (false, r)
                        | _ => (false, r)
                        end in
      let '(digits, rest) := span (is_digit 10) r2 in
      if Ascii.eqb letter (lower c) && negb (str_empty digits)
      then ((if (neg : bool) then -1 else 1) * (scan_digits 10 digits 0 0).1, rest) else (0, s)
  | EmptyString => (0, s)
  end.

(** Digits with a point among them: the number that they are without the point,
    how many stand behind it, and what is left. *)
Definition read_digits (base : Z) (s : string) : option (Z * Z * string) :=
  let '(whole, s3) := span (is_digit base) s in
  let '(frac, s4) := match s3 with String "."%char r => span (is_digit base) r | _ => ("", s3) end in
  if str_empty (whole +:+ frac) then None
  else Some ((scan_digits base (whole +:+ frac) 0 0).1, slen frac, s4).

(** A result that is as small as the smallest normal double lost digits unless it
    is [m * b^e]. *)
Definition lost_digits (f : spec_float) (m b e : Z) : bool :=
  match f with
  | S754_zero _ => negb (m =? 0)
  | S754_finite _ q x => (Zpos q <? 2 ^ 52) && negb (m * 2 ^ (- x) =? Zpos q * b ^ (- e))
  | _ => false
  end.

(** [std::stod(s, &pos)]: the number and [pos]. *)
Definition stod (s : string) : option (spec_float * Z) :=
  let '(neg, s2) := split_sign s in
  let in_range f m b e rest :=
    match f with
    | S754_infinity _ => None
    | _ => if lost_digits f m b e then None else Some (f, consumed s rest)
    end in
  match after_word "infinity" s2, after_word "inf" s2, after_word "nan" s2, after_word "0x" s2 with
  | Some rest, _, _, _ | None, Some rest, _, _ => Some (S754_infinity neg, consumed s rest)
  | None, None, Some rest, _ => Some (S754_nan, consumed s rest)
  | None, None, None, hex =>
      match hex ≫= read_digits 16 with
      | Some (m, places, rest) =>
          let '(exponent, rest) := read_exponent "p" rest in
          let e := exponent - 4 * places in
          in_range (binary_normalize 53 1024 ((if neg then -1 else 1) * m) e neg) m 2 e rest
      | None =>
          match read_digits 10 s2 with
          | Some (m, places, rest) =>
              let '(exponent, rest) := read_exponent "e" rest in
              in_range (nearest_double neg m (exponent - places)) m 10 (exponent - places) rest
          | None => None
          end
      end
  end.

(** [Config::get_double] *)
Definition get_double (c : Config) (key : string) (default_value : spec_float) : spec_float :=
  match storage c !! key with
  | Some (SDouble f) => f
  | Some (SInt z) => double_of_Z z
  | Some (SString s) => match stod s with Some (f, _) => f | None => default_value end
  | _ => default_value
  end.

(** ** Printed integers *)

Lemma skip_printed fuel z acc : 0 <= z < 10 ^ Z.of_nat fuel -> (0 < fuel)%nat ->
  split_sign (dec_digits fuel z acc) = (false, dec_digits fuel z acc).
Proof.
  intros Hz Hf. destruct (dec_digits_head fuel z acc Hz Hf) as (d & r & -> & Hd & _).
  destruct (digit_spec d Hd) as (_ & _ & Hs & _ & Hm & Hp & _). unfold split_sign. cbn [skip]. rewrite Hs.
  revert Hm Hp. generalize (digit d) as c. intros c Hm Hp. destruct c as [[] [] [] [] [] [] [] []]; try done; by destruct Hm, Hp.
Qed.


Lemma split_minus s : split_sign ("-" +:+ s) = (true, s).
Proof. reflexivity. Qed.

(** What is printed is read back to its end. *)
Lemma stoll_printed z : - 2 ^ 63 <= z < 2 ^ 63 -> stoll_pos (to_string_i64 z) = Some (z, slen (to_string_i64 z)).
Proof.
  intros Hz. unfold stoll_pos, to_string_i64, to_string_u64.
  assert (Hr : forall n, 0 <= n <= 2 ^ 63 -> exists k, 1 <= k /\ slen (dec_digits 20 n "") = k /\
    scan_digits 10 (dec_digits 20 n "") 0 0 = (n, k) /\ split_sign (dec_digits 20 n "") = (false, dec_digits 20 n "")).
  { intros n Hn. destruct (dec_digits_scan 20 n "") as (k & Hk & Hl & Hs); [lia|lia|].
    exists k. change (slen "") with 0 in Hl. split_and!; [done|lia|by rewrite Hs|apply skip_printed; lia]. }
  destruct (Z.ltb_spec z 0) as [Hneg|Hpos].
  - destruct (Hr (- z)) as (k & Hk & Hl & Hs & Hsp); [lia|]. rewrite split_minus, Hs.
    rewrite (proj2 (Z.eqb_neq k 0)), (proj2 (Z.leb_le _ _)), (proj2 (Z.ltb_lt _ _)) by lia. cbn [andb].
    change ("-" +:+ dec_digits 20 (- z) "") with (String "-" (dec_digits 20 (- z) "")). rewrite slen_cons. f_equal. f_equal; lia.
  - destruct (Hr z) as (k & Hk & Hl & Hs & Hsp); [lia|]. rewrite Hsp, Hs.
    rewrite (proj2 (Z.eqb_neq k 0)), (proj2 (Z.leb_le _ _)), (proj2 (Z.ltb_lt _ _)) by lia. cbn [andb]. f_equal. f_equal; lia.
Qed.

Example stod_examples :
  stoll_pos " +12abc" = Some (12, 4) /\ stoll_pos "9223372036854775808" = None /\
  option_map snd (stod "2.5e3x") = Some 5 /\ option_map fst (stod "0x10") = Some (double_of_Z 16) /\
  option_map fst (stod "-1e2") = Some (double_of_Z (-100)) /\ stod "1e400" = None /\ stod "1e-320" = None /\
  stod "Infinity" = Some (S754_infinity false, 8) /\ stod "e5" = None /\ option_map snd (stod "1e") = Some 1.
Proof. vm_compute. repeat split. Qed.
