(* ===== verification/RuntimeConfig.v ===== *)
(** * RuntimeConfig: the runtime's view of the configuration (src/config/config.cpp)

    The validation of the merged document before the runtime starts, the actor
    declarations and the number of network threads that the bootstrap reads from
    it, and the endpoint parser of src/bootstrap/bootstrap.cpp.

    A node that a document does not have is [None], as in yaml-cpp: reading from
    it throws, as does looking up a key in a scalar.  A check gives the text left
    in [*error], or nothing when it passes; an exception is what leaves it. *)

From S2P Require Import Prelude Text Json Manifest Config.

(** ** Nodes *)

Definition invalid_node : exn := StdExn "invalid node".
Definition bad_subscript : exn := StdExn "operator[] call on a scalar".

Definition yaml_what (e : yaml_exn) : exn :=
  match e with ParserException w | BadConversion w | OtherYamlExn w => StdExn w end.

(** The outcome of a check: the error text, if any. *)
Definition verdict : Type := outcome (option string).
Definition accept : verdict := Ret None.
Definition reject (e : string) : verdict := Ret (Some e).

Definition and_then (m k : verdict) : verdict :=
  let! r := m in match r with None => k | Some e => Ret (Some e) end.
Notation "m &&> k" := (and_then m k) (at level 70, right associativity) : cpp_scope.

(** [std::stoi]: the digits in front, as an [int]. *)
Definition in_int (z : Z) : bool := (- 2 ^ 31 <=? z) && (z <? 2 ^ 31).
Definition int_of (o : option Z) : option Z :=
  match o with Some z => if in_int z then Some z else None | None => None end.
Definition stoi (s : string) : option Z := int_of (stoll s).

(** [value.rfind(':')] and the two parts around it. *)
Fixpoint rsplit (s : string) : option (string * string) :=
  match s with
  | EmptyString => None
  | String c r =>
      match rsplit r with
      | Some (a, b) => Some (String c a, b)
      | None => if Ascii.eqb c ":" then Some ("", r) else None
      end
  end.

(** ** Endpoints (src/bootstrap/bootstrap.cpp) *)

Record Endpoint := mkEndpoint { ep_host : string; ep_port : Z }.

Definition parse_endpoint (v : string) : option Endpoint :=
  match rsplit v with
  | None => None
  | Some (host, rest) =>
      if str_empty rest then None
      else match stoi rest with
           | Some port => if (port <? 1) || (65535 <? port) then None else Some (mkEndpoint host port)
           | None => None
           end
  end.

Section Yaml.
Context `{YamlLib}.

(** [node[key]] of a constant node. *)
Definition index (n : ynode) (key : string) : outcome (option ynode) :=
  match n with
  | YMap l => Ret (find_key key l)
  | YScalar _ _ => Throw bad_subscript
  | YNull | YSequence _ => Ret None
  end.

Definition is_map (n : ynode) : bool := match n with YMap _ => true | _ => false end.

(** [as<std::string>()] and, where the code catches what they throw, [as<int>()]
    and [as<bool>()].  The integer conversions of yaml-cpp differ in their range
    only. *)
Definition as_text (n : option ynode) : outcome string :=
  match n with
  | None => Throw invalid_node
  | Some n => match as_string n with inr s => Ret s | inl e => Throw (yaml_what e) end
  end.

Definition as_int (n : ynode) : option Z :=
  match n with YScalar _ s => int_of (as_int64 s) | _ => None end.

Definition as_flag (n : ynode) : option bool :=
  match n with YScalar _ s => as_bool s | _ => None end.

Definition scalar_int (n : ynode) (key : string) : outcome (option Z) :=
  let! v := index n key in Ret (v ≫= as_int).

Definition scalar_bool_default (n : ynode) (key : string) (fallback : bool) : outcome bool :=
  let! v := index n key in Ret (default fallback (v ≫= as_flag)).

(** ** Checks of one value *)

(** [if (!node[key]) return true;] *)
Definition if_present (n : ynode) (key : string) (check : ynode -> verdict) : verdict :=
  let! v := index n key in match v with None => accept | Some v => check v end.

Definition validate_int_range (n : ynode) (key path : string) (lo hi : Z) : verdict :=
  if_present n key (fun v =>
    match as_int v with
    | None => reject (path ++ "." ++ key ++ " must be an integer")
    | Some z =>
        if (z <? lo) || (hi <? z)
        then reject (path ++ "." ++ key ++ " must be between " ++ to_string_i64 lo ++ " and " ++
                     to_string_i64 hi)
        else accept
    end).

Definition validate_protocol_string_enum (n : ynode) (key path : string) (allowed : list string)
  : verdict :=
  if_present n key (fun v =>
    match as_string v with
    | inl _ => reject (path ++ "." ++ key ++ " must be a string")
    | inr s => if str_in s allowed then accept
               else reject (path ++ "." ++ key ++ " has an unsupported value")
    end).

Definition validate_protocol_route_action (n : ynode) (key path : string) : verdict :=
  validate_protocol_string_enum n key path ["decode"; "decode_local"; "forward"; "forward_raw"; "drop"].

(** The blocks that only check that a conversion succeeds. *)
Definition must_be_bool (n : ynode) (key path : string) : verdict :=
  if_present n key (fun v =>
    match as_flag v with Some _ => accept | None => reject (path ++ "." ++ key ++ " must be a bool") end).

Definition must_be_string (n : ynode) (key path : string) (empty_ok : bool) : verdict :=
  if_present n key (fun v =>
    match as_string v with
    | inl _ => reject (path ++ "." ++ key ++ " must be a string")
    | inr s => if str_empty s && negb empty_ok then reject (path ++ "." ++ key ++ " must not be empty")
               else accept
    end).

(** ** The protocol of a listener *)

Definition validate_protocol_envelope (envelope : option ynode) (path : string) : verdict :=
  match envelope with
  | None => accept
  | Some e =>
      if negb (is_map e) then reject (path ++ ".envelope must be a map")
      else
        validate_protocol_string_enum e "type" (path ++ ".envelope")
          ["lenprefix"; "len-prefix"; "len_prefix"; "idlen"; "id-len"; "id_len"; "typed_len"; "type_len";
           "typed-len"; "typelen"; "delimiter"; "line"] &&>
        validate_protocol_string_enum e "endian" (path ++ ".envelope") ["big"; "be"; "little"; "le"] &&>
        validate_int_range e "length_bytes" (path ++ ".envelope") 0 255 &&>
        validate_int_range e "route_id_bytes" (path ++ ".envelope") 0 255 &&>
        validate_int_range e "max_frame_size" (path ++ ".envelope") 0 (16 * 1024 * 1024) &&>
        must_be_bool e "length_includes_header" (path ++ ".envelope") &&>
        must_be_string e "delimiter" (path ++ ".envelope") false
  end.

Definition validate_protocol_routing (routing : option ynode) (path : string) : verdict :=
  match routing with
  | None => accept
  | Some r =>
      if negb (is_map r) then reject (path ++ ".routing must be a map")
      else
        validate_protocol_string_enum r "source" (path ++ ".routing")
          ["header"; "header.route_id"; "header.msg_id"; "body"; "body.route"; "body.route_id"; "none"] &&>
        validate_protocol_route_action r "unknown_route_action" (path ++ ".routing") &&>
        validate_protocol_route_action r "default_action" (path ++ ".routing") &&>
        must_be_bool r "decode_body_route" (path ++ ".routing") &&>
        must_be_bool r "decode_before_dispatch" (path ++ ".routing") &&>
        must_be_bool r "lazy_decode" (path ++ ".routing")
  end.

(** The name of a route: the names seen so far, or the error. *)
Definition check_route_name (route : ynode) (names : gset string) (path item_path : string)
  : outcome (string + gset string) :=
  let! v := index route "name" in
  Ret (match v with
       | None => inr names
       | Some v =>
           match as_string v with
           | inl _ => inl (item_path ++ ".name must be a string")
           | inr s => if str_empty s then inr names
                      else if bool_decide (s ∈ names) then inl (path ++ ".routes contains duplicate name")
                      else inr ({[ s ]} ∪ names)
           end
       end)%string.

Fixpoint routes_loop (routes : list ynode) (i : Z) (ids : gset Z) (names : gset string) (path : string)
  : verdict :=
  match routes with
  | [] => accept
  | route :: routes =>
      let item_path := (path ++ ".routes[" ++ to_string_u64 i ++ "]")%string in
      if negb (is_map route) then reject (item_path ++ " must be a map")
      else
        let! id := scalar_int route "id" in
        match id with
        | None => reject (item_path ++ ".id is required and must be an integer")
        | Some id =>
            if id <=? 0 then reject (item_path ++ ".id must be >= 1")
            else if bool_decide (u32 id ∈ ids) then reject (path ++ ".routes contains duplicate id")
            else
              validate_int_range route "codec_id" item_path 0 65535 &&>
              validate_int_range route "schema_id" item_path 0 65535 &&>
              validate_protocol_route_action route "action" item_path &&>
              must_be_bool route "lazy_decode" item_path &&>
              let! r := check_route_name route names path item_path in
              match r with
              | inl e => reject e
              | inr names => routes_loop routes (i + 1) ({[ u32 id ]} ∪ ids) names path
              end
        end
  end.

Definition validate_protocol_routes (routes : option ynode) (path : string) : verdict :=
  match routes with
  | None => accept
  | Some (YSequence l) => routes_loop l 0 ∅ ∅ path
  | Some _ => reject (path ++ ".routes must be an array")
  end.

Definition validate_body (body : ynode) (path : string) : verdict :=
  if negb (is_map body) then reject (path ++ ".body must be a map")
  else
    validate_protocol_string_enum body "codec" (path ++ ".body")
      ["raw"; "json"; "msgpack"; "protobuf"; "fbs"; "flatbuffers"; "sproto"; "xmldef"; "xml_def"] &&>
    must_be_string body "catalog" (path ++ ".body") true &&>
    must_be_string body "provider" (path ++ ".body") false.

Definition validate_network_protocol (protocol : ynode) (path : string) : verdict :=
  match protocol with
  | YMap l =>
      if vsize l =? 0 then reject (path ++ " must not be empty")
      else
        must_be_string protocol "name" path true &&>
        if_present protocol "body" (fun body => validate_body body path) &&>
        validate_protocol_envelope (find_key "envelope" l) path &&>
        validate_protocol_routing (find_key "routing" l) path &&>
        validate_protocol_routes (find_key "routes" l) path
  | _ => reject (path ++ " must be a map")
  end.

(** ** Actors *)

Definition validate_listener_address (n : ynode) (key actor_name : string) : verdict :=
  let field := ("actors[" ++ actor_name ++ "].network." ++ key)%string in
  if_present n key (fun v =>
    match as_string v with
    | inl _ => reject (field ++ " must be a string host:port")
    | inr s =>
        match rsplit s with
        | None => reject (field ++ " must be host:port")
        | Some (host, rest) =>
            if str_empty host || str_empty rest then reject (field ++ " must be host:port")
            else match stoi rest with
                 | Some port =>
                     if (port <? 1) || (65535 <? port)
                     then reject (field ++ " port must be between 1 and 65535") else accept
                 | None => reject (field ++ " port must be between 1 and 65535")
                 end
        end
    end).

(** Ranges of [network]: the key and its bounds. *)
Definition network_ranges : list (string * (Z * Z)) :=
  [("max_connections", (1, 10000000)); ("max_connections_per_ip", (1, 10000000));
   ("max_frame_size", (1, 16 * 1024 * 1024)); ("max_session_send_queue", (0, 1000000));
   ("read_idle_timeout", (0, 86400000))].

Definition check_ranges (n : ynode) (path : string) (ranges : list (string * (Z * Z))) : verdict :=
  fold_right (fun r k => validate_int_range n r.1 path r.2.1 r.2.2 &&> k) accept ranges.

Definition validate_network (network : ynode) (name : string) (instances : Z) : verdict :=
  let path := ("actors[" ++ name ++ "].network")%string in
  if negb (is_map network) then reject (path ++ " must be a map")
  else
    let! udp := index network "udp" in
    let! kcp := index network "kcp" in
    let! ws := index network "websocket" in
    match udp, kcp, ws with
    | None, None, None =>
        validate_listener_address network "tcp" name &&>
        if_present network "protocol" (fun p =>
          if negb (is_map p) then reject (path ++ ".protocol must be a map")
          else validate_network_protocol p (path ++ ".protocol")) &&>
        if_present network "tcp" (fun _ =>
          if instances =? 1 then accept else reject (path ++ ".tcp requires instances to be 1")) &&>
        check_ranges network path network_ranges
    | _, _, _ => reject (path ++ " only supports tcp in Phase 1")
    end.

Definition validate_restart (actor : ynode) (name : string) : verdict :=
  if_present actor "restart" (fun restart =>
    let! policy := index restart "policy" in
    match policy with
    | None => accept
    | Some p =>
        let! s := as_text (Some p) in
        if str_in s ["always"; "on-failure"; "never"] then accept
        else reject ("actors[" ++ name ++ "].restart.policy must be always, on-failure, or never")
    end).

(** What follows the name of an actor. *)
Definition validate_actor (actor : ynode) (name : string) : verdict :=
  let! script := index actor "script" in
  let! text := match script with None => Ret "" | Some _ => as_text script end in
  if str_empty text then reject ("actors[" ++ name ++ "].script is required")
  else
    let! instances := scalar_int actor "instances" in
    if match instances with Some z => z <? 0 | None => false end
    then reject ("actors[" ++ name ++ "].instances must be >= 0")
    else
      validate_restart actor name &&>
      if_present actor "network" (fun network => validate_network network name (default 1 instances)).

(** The name, [None] when it is missing, no text or empty. *)
Definition actor_name (actor : ynode) : outcome (option string) :=
  let! v := index actor "name" in
  Ret (match v ≫= (fun n => match as_string n with inr s => Some s | inl _ => None end) with
       | Some s => if str_empty s then None else Some s
       | None => None
       end).

(** The loop over the actors; the names of the actors that passed. *)
Fixpoint actors_loop (actors : list ynode) (i : Z) (names : gset string) : outcome (string + list (string * ynode)) :=
  match actors with
  | [] => Ret (inr [])
  | actor :: actors =>
      let item := ("actors[" ++ to_string_u64 i ++ "]")%string in
      if negb (is_map actor) then Ret (inl (item ++ " must be a map")%string)
      else
        let! name := actor_name actor in
        match name with
        | None => Ret (inl (item ++ ".name is required")%string)
        | Some name =>
            if bool_decide (name ∈ names) then Ret (inl ("actors[].name must be unique: " ++ name)%string)
            else
              let! v := validate_actor actor name in
              match v with
              | Some e => Ret (inl e)
              | None =>
                  let! r := actors_loop actors (i + 1) ({[ name ]} ∪ names) in
                  Ret (let? l := r in inr ((name, actor) :: l))
              end
        end
  end.

(** ** Scripts *)

Section Files.
(** [std::filesystem::exists], which throws when the file cannot be examined. *)
Context (exists_ : string -> outcome bool).

(** Try a candidate, else go on. *)
Definition try_path (p : string) (k : outcome (option string)) : outcome (option string) :=
  let! e := exists_ p in if e then Ret (Some p) else k.

Definition existing_script_path (actor : ynode) (dir : string) (root : ynode) : outcome (option string) :=
  let! v := index actor "script" in
  match v with
  | None => Ret None
  | Some _ =>
      let! script := as_text v in
      let from_lua :=
        let! lua := index root "lua" in
        match lua with
        | None => Ret None
        | Some lua =>
            let! sp := index lua "script_path" in
            match sp with
            | None => Ret None
            | Some _ => let! dir := as_text sp in try_path (path_join dir script) (Ret None)
            end
        end in
      let from_source := if str_empty dir then from_lua else try_path (path_join dir script) from_lua in
      if is_absolute script then try_path script (try_path script from_source)
      else try_path script from_source
  end.

Fixpoint scripts_loop (actors : list (string * ynode)) (dir : string) (root : ynode) : verdict :=
  match actors with
  | [] => accept
  | (name, actor) :: actors =>
      let! p := existing_script_path actor dir root in
      match p with
      | Some _ => scripts_loop actors dir root
      | None =>
          let! script := index actor "script" in
          let! text := as_text script in
          reject ("actors[" ++ name ++ "].script does not exist: " ++ text)
      end
  end.

(** ** The whole configuration *)

Record RuntimeValidationOptions := mkOptions {
  cluster_enabled : bool;
  global_enabled : bool;
  player_enabled : bool;
  server_enabled : bool;
  ops_enabled : bool;
  require_actors : bool
}.

Definition optional_modules (o : RuntimeValidationOptions) : list (string * string * bool) :=
  [("cluster", "shield_cluster", cluster_enabled o); ("global", "shield_global", global_enabled o);
   ("player", "shield_player", player_enabled o); ("server_manager", "shield_server", server_enabled o);
   ("ops", "shield_ops", ops_enabled o)].

Definition check_modules (root : ynode) (o : RuntimeValidationOptions) : verdict :=
  fold_right (fun '(section, module_, enabled) k =>
    let! v := index root section in
    match v with
    | Some _ => if (enabled : bool) then k
                else reject ("optional module config '" ++ section ++ "' requires " ++ module_)
    | None => k
    end) accept (optional_modules o).

Definition check_app (root : ynode) : verdict :=
  let! app := index root "app" in
  match app with
  | Some (YMap l) =>
      match find_key "name" l with
      | None => reject "app.name is required"
      | Some n =>
          let! name := as_text (Some n) in
          if str_empty name then reject "app.name is required"
          else if 64 <? slen name then reject "app.name must be 1-64 characters" else accept
      end
  | _ => reject "app.name is required"
  end.

Definition check_log (root : ynode) : verdict :=
  if_present root "log" (fun log =>
    if_present log "level" (fun l =>
      let! level := as_text (Some l) in
      if str_in level ["debug"; "info"; "warn"; "error"] then accept
      else reject "log.level must be debug, info, warn, or error")).

Definition check_lua (root : ynode) : verdict :=
  if_present root "lua" (fun lua =>
    if_present lua "vm" (fun vm =>
      if_present vm "mode" (fun m =>
        let! mode := as_text (Some m) in
        if String.eqb mode "per_service" then accept else reject "lua.vm.mode must be per_service")) &&>
    if_present lua "cache" (fun cache =>
      validate_int_range cache "max_size" "lua.cache" 1 10000 &&>
      validate_int_range cache "ttl_seconds" "lua.cache" 0 86400)).

Definition check_actors (c : Config) : verdict :=
  let! actors := index (yaml_root c) "actors" in
  match actors with
  | Some (YSequence ((_ :: _) as l)) =>
      let! r := actors_loop l 0 ∅ in
      match r with
      | inl e => reject e
      | inr l => scripts_loop l (source_dir c) (yaml_root c)
      end
  | _ => reject "actors must contain at least one actor"
  end.

Definition check_part (timeout : ynode) (total : Z) (key : string) : verdict :=
  let! part := scalar_int timeout key in
  match part with
  | Some p => if total <=? p then reject ("shutdown.timeout.total must be greater than " ++ key) else accept
  | None => accept
  end.

Definition check_shutdown (root : ynode) : verdict :=
  if_present root "shutdown" (fun shutdown =>
    if_present shutdown "timeout" (fun timeout =>
      if is_map timeout then
        let! total := scalar_int timeout "total" in
        match total with
        | None => accept
        | Some total =>
            check_part timeout total "service_drain" &&> check_part timeout total "service_stop" &&>
            check_part timeout total "plugin_shutdown"
        end
      else accept)).

Definition check_net (root : ynode) : verdict :=
  if_present root "net" (fun net => validate_int_range net "threads" "net" 0 64).

Definition validate_runtime_config (c : Config) (o : RuntimeValidationOptions) : verdict :=
  let root := yaml_root c in
  check_modules root o &&> check_app root &&> check_log root &&> check_lua root &&>
  (if require_actors o then check_actors c else accept) &&>
  check_shutdown root &&> check_net root.

End Files.

(** ** Actor declarations *)

Record RuntimeActorConfig := mkActor {
  ra_name : string;
  ra_script : string;
  ra_source_dir : string;
  ra_instances : Z;
  ra_required : bool;
  options_json : string;
  network_tcp : string;
  max_connections : Z;
  max_connections_per_ip : Z;
  max_frame_size : Z;
  max_session_send_queue : Z;
  read_idle_timeout_ms : Z;
  network_protocol_json : string;
  network_protocol_enabled : bool
}.

(** [runtime_net_threads] *)
Definition runtime_net_threads (c : Config) : outcome Z :=
  let! net := index (yaml_root c) "net" in
  match net with
  | None => Ret 0
  | Some net =>
      let! v := scalar_int net "threads" in
      Ret (match v with Some z => if z <? 0 then 0 else z | None => 0 end)
  end.

Section Actors.
Context `{JsonLib}.

(** The same text as the conversion in manifest.cpp. *)
Definition config_yaml_to_json (n : ynode) : yaml_exn + json := Manifest.yaml_to_json n.

(** [yaml_to_json(node).dump()] *)
Definition json_text (n : ynode) : outcome string :=
  match config_yaml_to_json n with
  | inl e => Throw (yaml_what e)
  | inr j => of_sum (json_dump j)
  end.

(** A count of [network], zero when it is absent or no integer. *)
Definition network_count (network : ynode) (key : string) : outcome Z :=
  let! v := scalar_int network key in Ret (default 0 v).

Definition with_network (network : ynode) (item : RuntimeActorConfig) : outcome RuntimeActorConfig :=
  let! tcp := index network "tcp" in
  let! tcp := match tcp with None => Ret (network_tcp item) | Some _ => as_text tcp end in
  let! mc := network_count network "max_connections" in
  let! mi := network_count network "max_connections_per_ip" in
  let! mf := network_count network "max_frame_size" in
  let! mq := network_count network "max_session_send_queue" in
  let! idle := network_count network "read_idle_timeout" in
  let! protocol := index network "protocol" in
  let! text := match protocol with None => Ret (network_protocol_json item) | Some p => json_text p end in
  Ret (mkActor (ra_name item) (ra_script item) (ra_source_dir item) (ra_instances item) (ra_required item)
         (options_json item) tcp (u64 mc) (u64 mi) (u64 mf) (u64 mq) (u32 idle) text
         (bool_decide (is_Some protocol))).

Definition runtime_actor (dir : string) (actor : ynode) : outcome RuntimeActorConfig :=
  let! n := index actor "name" in
  let! name := as_text n in
  let! s := index actor "script" in
  let! script := as_text s in
  let! instances := scalar_int actor "instances" in
  let! required := scalar_bool_default actor "required" true in
  let! options := index actor "options" in
  let! text := match options with None => Ret "{}" | Some o => json_text o end in
  let item := mkActor name script dir (default 1 instances) required text "" 0 0 0 0 0 "{}" false in
  let! network := index actor "network" in
  match network with None => Ret item | Some network => with_network network item end.

Definition runtime_actors (c : Config) : outcome (list RuntimeActorConfig) :=
  let! actors := index (yaml_root c) "actors" in
  match actors with
  | Some (YSequence l) => omap_list (runtime_actor (source_dir c)) l
  | _ => Ret []
  end.

End Actors.
End Yaml.

(** ** Lemmas on checks *)

Section Accepted.
Context `{YamlLib}.

Lemma and_then_accept m k : (m &&> k) = accept -> m = accept /\ k = accept.
Proof. destruct m as [[e|]| |]; cbn; done. Qed.

Lemma if_present_accept n key check v :
  if_present n key check = accept -> index n key = Ret (Some v) -> check v = accept.
Proof. unfold if_present. intros E Ev. rewrite Ev in E. exact E. Qed.

Lemma index_map n key : is_map n = true -> exists v, index n key = Ret v.
Proof. destruct n; try done. eexists. done. Qed.

Lemma int_range_accept n key path lo hi :
  is_map n = true -> validate_int_range n key path lo hi = accept ->
  exists v, scalar_int n key = Ret v /\ (forall z, v = Some z -> lo <= z <= hi).
Proof.
  intros Hm E. destruct (index_map n key Hm) as [v Ev]. unfold scalar_int. rewrite Ev. cbn [obind].
  eexists. split; [done|]. destruct v as [v|]; [|done]. pose proof (if_present_accept _ _ _ _ E Ev) as Hc.
  cbn in Hc |- *. intros z Hz. rewrite Hz in Hc. destruct ((z <? lo) || (hi <? z)) eqn:Hr; [done|]. bools. lia.
Qed.

Lemma ranges_accept n path ranges key lo hi :
  is_map n = true -> check_ranges n path ranges = accept -> (key, (lo, hi)) ∈ ranges -> 0 <= lo <= hi ->
  exists z, network_count n key = Ret z /\ 0 <= z <= hi.
Proof.
  intros Hm. induction ranges as [|r ranges IH]; [by intros _ ?%elem_of_nil|].
  intros [E1 E2]%and_then_accept Hin Hlo. apply elem_of_cons in Hin as [<-|Hin]; [|by apply IH].
  destruct (int_range_accept _ _ _ _ _ Hm E1) as (v & Ev & Hv). cbn [fst snd] in *. unfold network_count. rewrite Ev. cbn [obind].
  eexists. split; [done|]. destruct v as [z|]; cbn; [specialize (Hv z eq_refl)|]; cbn in *; lia.
Qed.

(** An address that passes is one the bootstrap can open. *)
Lemma listener_address_accept n name v :
  validate_listener_address n "tcp" name = accept -> index n "tcp" = Ret (Some v) ->
  exists s ep, as_string v = inr s /\ parse_endpoint s = Some ep /\ ep_host ep <> "" /\ 1 <= ep_port ep <= 65535.
Proof.
  intros E Ev. pose proof (if_present_accept _ _ _ _ E Ev) as Hc. cbn in Hc. clear E Ev.
  destruct (as_string v) as [|s]; [done|]. unfold parse_endpoint.
  destruct (rsplit s) as [[host rest]|] eqn:Es; [|done].
  destruct (str_empty host || str_empty rest) eqn:Ee; [done|]. apply orb_false_iff in Ee as [E1 E2].
  destruct (stoi rest) as [port|] eqn:Ep; [|done].
  destruct ((port <? 1) || (65535 <? port)) eqn:Er; [done|]. exists s, (mkEndpoint host port).
  rewrite Es, E2, Ep, Er. split; [done|]. split; [done|]. apply str_empty_false in E1. bools. cbn. split; [done|lia].
Qed.

(** What a network section that passes gives. *)
Lemma network_accept network name instances :
  validate_network network name instances = accept ->
  is_map network = true /\ validate_listener_address network "tcp" name = accept /\
  (forall v, index network "tcp" = Ret (Some v) -> instances = 1) /\
  check_ranges network ("actors[" ++ name ++ "].network") network_ranges = accept.
Proof.
  unfold validate_network. destruct (is_map network) eqn:Em; [|done]. cbn [negb].
  destruct (index_map network "udp" Em) as [u ->], (index_map network "kcp" Em) as [k ->],
    (index_map network "websocket" Em) as [w ->]. cbn [obind]. destruct u, k, w; try done.
  intros [E1 E]%and_then_accept. apply and_then_accept in E as [_ E]. apply and_then_accept in E as [E2 E3].
  split; [done|]. split; [done|]. split; [|done]. intros v Ev. pose proof (if_present_accept _ _ _ _ E2 Ev) as Hc.
  cbn in Hc. destruct (Z.eqb_spec instances 1); [done|discriminate].
Qed.

(** What an actor that passes gives. *)
Lemma actor_accept actor name :
  validate_actor actor name = accept ->
  exists script instances, (let! s := index actor "script" in as_text s) = Ret script /\ script <> "" /\
    scalar_int actor "instances" = Ret instances /\ 0 <= default 1 instances /\
    if_present actor "network" (fun n => validate_network n name (default 1 instances)) = accept.
Proof.
  unfold validate_actor. intros (s & Es & E)%obind_ret_inv. apply obind_ret_inv in E as (text & Et & E).
  destruct (str_empty text) eqn:Em; [done|]. apply str_empty_false in Em.
  apply obind_ret_inv in E as (instances & Ei & E).
  destruct (match instances with Some z => z <? 0 | None => false end) eqn:Eneg; [done|].
  apply and_then_accept in E as [_ E]. exists text, instances. rewrite Es. cbn [obind].
  destruct s as [s|]; [|simplify_eq]. repeat split; try done. destruct instances as [z|]; cbn; [bools|]; lia.
Qed.

Lemma actor_name_ret actor name :
  actor_name actor = Ret (Some name) ->
  (let! n := index actor "name" in as_text n) = Ret name /\ name <> "".
Proof.
  unfold actor_name. intros (v & -> & E)%obind_ret_inv. cbn [obind]. injection E as E.
  destruct v as [v|]; [|done]. cbn in E |- *. destruct (as_string v) as [e|s]; [done|]. cbn in E.
  destruct (str_empty s) eqn:Em; [done|]. apply str_empty_false in Em. by simplify_eq.
Qed.

Lemma actors_loop_spec actors i names pairs :
  actors_loop actors i names = Ret (inr pairs) ->
  pairs.*2 = actors /\ NoDup pairs.*1 /\ Forall (fun n => n ∉ names) pairs.*1 /\
  Forall (fun p => is_map p.2 = true /\ actor_name p.2 = Ret (Some p.1) /\ validate_actor p.2 p.1 = accept) pairs.
Proof.
  revert i names pairs. induction actors as [|actor actors IH]; intros i names pairs; cbn [actors_loop].
  - intros [= <-]. repeat constructor.
  - destruct (is_map actor) eqn:Em; [|done]. cbn [negb].
    intros ([name|] & En & E)%obind_ret_inv; [|done].
    destruct (bool_decide (name ∈ names)) eqn:Eb; [done|]. apply bool_decide_eq_false in Eb.
    apply obind_ret_inv in E as ([e|] & Ev & E); [done|].
    apply obind_ret_inv in E as ([e|l] & El & E); cbn in E; [done|]. injection E as <-.
    destruct (IH _ _ _ El) as (E2 & Hnd & Hfresh & Hall). cbn [fmap list_fmap fst snd].
    rewrite !list.NoDup_cons, !Forall_cons_iff. repeat split; try done.
    + by f_equal.
    + intros Hin. rewrite Forall_forall in Hfresh. apply list_elem_of_In in Hin. apply (Hfresh _ Hin). set_solver.
    + eapply Forall_impl; [|exact Hfresh]. set_solver.
Qed.

(** ** Scripts *)

(** A file that exists and is the script itself or lies under some directory. *)
Definition found (exists_ : string -> outcome bool) (script : string) : Prop :=
  exists p, exists_ p = Ret true /\ (p = script \/ exists dir, p = path_join dir script).

Lemma try_path_found exists_ p k r script :
  try_path exists_ p k = Ret (Some r) -> (p = script \/ exists dir, p = path_join dir script) ->
  (k = Ret (Some r) -> found exists_ script) -> found exists_ script.
Proof.
  unfold try_path. intros ([|] & E & H1)%obind_ret_inv Hp Hk; [|by apply Hk].
  exists p. by split.
Qed.

Lemma existing_script_found exists_ actor dir root p script :
  existing_script_path exists_ actor dir root = Ret (Some p) ->
  (let! s := index actor "script" in as_text s) = Ret script -> found exists_ script.
Proof.
  unfold existing_script_path. intros (v & -> & E)%obind_ret_inv. cbn [obind]. intros Ht.
  destruct v as [v|]; [|done]. rewrite Ht in E. cbn [obind] in E.
  set (lua := obind (index root "lua") _) in E.
  assert (Hlua : lua = Ret (Some p) -> found exists_ script).
  { subst lua. intros ([l|] & _ & E')%obind_ret_inv; [|done]. apply obind_ret_inv in E' as ([sp|] & _ & E'); [|done].
    apply obind_ret_inv in E' as (d & _ & E'). eapply try_path_found; [exact E'|right; eauto|done]. }
  clearbody lua. set (src := if str_empty dir then lua else _) in E.
  assert (Hsrc : src = Ret (Some p) -> found exists_ script).
  { subst src. destruct (str_empty dir); [done|]. intros E'.
    eapply try_path_found; [exact E'|right; eauto|done]. }
  clearbody src. destruct (is_absolute script).
  - eapply try_path_found; [exact E|by left|]. intros E'. eapply try_path_found; [exact E'|by left|done].
  - eapply try_path_found; [exact E|by left|done].
Qed.

Lemma scripts_loop_found exists_ pairs dir root :
  scripts_loop exists_ pairs dir root = accept ->
  Forall (fun p => exists f, existing_script_path exists_ p.2 dir root = Ret (Some f)) pairs.
Proof.
  induction pairs as [|[name actor] pairs IH]; [by constructor|]. cbn [scripts_loop].
  intros ([f|] & Ef & E)%obind_ret_inv.
  - apply Forall_cons_iff. split; [by exists f|]. by apply IH.
  - apply obind_ret_inv in E as (s & _ & E). by apply obind_ret_inv in E as (t & _ & E).
Qed.

(** ** Declarations *)

Context `{JsonLib}.

(** The sections that are handed on as JSON can be printed. *)
Definition printable (actor : ynode) : Prop :=
  (forall o, index actor "options" = Ret (Some o) -> exists t, json_text o = Ret t) /\
  (forall n p, index actor "network" = Ret (Some n) -> index n "protocol" = Ret (Some p) ->
     exists t, json_text p = Ret t).

(** What the bootstrap relies on. *)
Definition usable (exists_ : string -> outcome bool) (a : RuntimeActorConfig) : Prop :=
  ra_name a <> "" /\ ra_script a <> "" /\ found exists_ (ra_script a) /\ 0 <= ra_instances a /\
  (network_tcp a = "" \/
   ra_instances a = 1 /\
   exists ep, parse_endpoint (network_tcp a) = Some ep /\ ep_host ep <> "" /\ 1 <= ep_port ep <= 65535) /\
  0 <= max_connections a <= 10000000 /\ 0 <= max_connections_per_ip a <= 10000000 /\
  0 <= max_frame_size a <= 16 * 1024 * 1024 /\ 0 <= max_session_send_queue a <= 1000000 /\
  0 <= read_idle_timeout_ms a <= 86400000.

(** The network part of a declaration. *)
Lemma with_network_usable exists_ network name item :
  validate_network network name (ra_instances item) = accept ->
  (forall p, index network "protocol" = Ret (Some p) -> exists t, json_text p = Ret t) ->
  usable exists_ item -> network_tcp item = "" ->
  exists a, with_network network item = Ret a /\ ra_name a = ra_name item /\ usable exists_ a.
Proof.
  intros Hv Hp Hu Htcp. apply network_accept in Hv as (Hm & Haddr & Hinst & Hr).
  pose proof (fun key lo hi => ranges_accept network _ network_ranges key lo hi Hm Hr) as Hc.
  destruct (Hc "max_connections" 1 10000000) as (mc & E1 & B1); [unfold network_ranges; set_solver|lia|].
  destruct (Hc "max_connections_per_ip" 1 10000000) as (mi & E2 & B2); [unfold network_ranges; set_solver|lia|].
  destruct (Hc "max_frame_size" 1 (16 * 1024 * 1024)) as (mf & E3 & B3); [unfold network_ranges; set_solver|lia|].
  destruct (Hc "max_session_send_queue" 0 1000000) as (mq & E4 & B4); [unfold network_ranges; set_solver|lia|].
  destruct (Hc "read_idle_timeout" 0 86400000) as (idle & E5 & B5); [unfold network_ranges; set_solver|lia|].
  unfold with_network. rewrite E1, E2, E3, E4, E5. clear E1 E2 E3 E4 E5 Hc Hr.
  destruct (index_map network "tcp" Hm) as [tcp Et], (index_map network "protocol" Hm) as [pr Ep].
  rewrite Et, Ep. cbn [obind].
  assert (Htext : exists t, match tcp with None => Ret (network_tcp item) | Some _ => as_text tcp end = Ret t /\
    (t = "" \/ ra_instances item = 1 /\
       exists ep, parse_endpoint t = Some ep /\ ep_host ep <> "" /\ 1 <= ep_port ep <= 65535)).
  { destruct tcp as [v|]; [|eexists; split; [done|by left]].
    destruct (listener_address_accept _ _ _ Haddr Et) as (s & ep & Es & Hep). exists s. cbn [as_text].
    rewrite Es. split; [done|]. right. split; [by eapply Hinst|]. by exists ep. }
  destruct Htext as (t & -> & Ht). cbn [obind].
  assert (Hjson : exists j, match pr with None => Ret (network_protocol_json item) | Some p => json_text p end = Ret j)
    by (destruct pr as [p|]; [by apply Hp|by eexists]).
  destruct Hjson as [j ->]. cbn [obind]. eexists. split; [done|]. split; [done|].
  destruct Hu as (U1 & U2 & U3 & U4 & _). unfold usable. cbn.
  rewrite !cast_small by lia. repeat split; first [done|lia].
Qed.

Lemma runtime_actor_usable exists_ dir root actor name :
  is_map actor = true -> actor_name actor = Ret (Some name) -> validate_actor actor name = accept ->
  (exists f, existing_script_path exists_ actor dir root = Ret (Some f)) -> printable actor ->
  exists a, runtime_actor dir actor = Ret a /\ ra_name a = name /\ usable exists_ a.
Proof.
  intros Hm Hn Hv (f & Hf) [Hopt Hnet]. apply actor_name_ret in Hn as [Hn Hne].
  apply actor_accept in Hv as (script & instances & Hs & Hse & Hi & Hi0 & Hnw).
  pose proof (existing_script_found _ _ _ _ _ _ Hf Hs) as Hfound.
  unfold runtime_actor. apply obind_ret_inv in Hn as (n & -> & Hn). apply obind_ret_inv in Hs as (s & -> & Hs).
  cbn [obind]. rewrite Hn, Hs. cbn [obind]. rewrite Hi. cbn [obind]. unfold scalar_bool_default.
  destruct (index_map actor "required" Hm) as [r ->], (index_map actor "options" Hm) as [o Eo],
    (index_map actor "network" Hm) as [nw En]. rewrite Eo, En. cbn [obind].
  assert (Htext : exists t, match o with None => Ret "{}" | Some o => json_text o end = Ret t)
    by (destruct o as [o|]; [by apply Hopt|by eexists]).
  destruct Htext as [t ->]. cbn [obind].
  assert (Hu : forall req, usable exists_
    (mkActor name script dir (default 1 instances) req t "" 0 0 0 0 0 "{}" false)).
  { intros req. unfold usable. cbn. repeat split; try done; try lia. by left. }
  destruct nw as [nw|]; [|by eexists].
  pose proof (if_present_accept _ _ _ _ Hnw En) as Hv.
  apply (with_network_usable exists_ nw name); [exact Hv| |apply Hu|done]. intros p. by apply Hnet.
Qed.

Lemma runtime_actors_all exists_ dir root pairs :
  Forall (fun p => is_map p.2 = true /\ actor_name p.2 = Ret (Some p.1) /\ validate_actor p.2 p.1 = accept) pairs ->
  Forall (fun p => exists f, existing_script_path exists_ p.2 dir root = Ret (Some f)) pairs ->
  Forall printable pairs.*2 ->
  exists l, omap_list (runtime_actor dir) pairs.*2 = Ret l /\ map ra_name l = pairs.*1 /\
            Forall (usable exists_) l.
Proof.
  induction pairs as [|[name actor] pairs IH]; cbn [fmap list_fmap fst snd]; rewrite ?Forall_cons_iff.
  - by exists [].
  - intros [(Hm & Hn & Hv) H1] [Hf H2] [Hp H3]. destruct (IH H1 H2 H3) as (l & El & Hl & Hul).
    destruct (runtime_actor_usable exists_ dir root actor name Hm Hn Hv Hf Hp) as (a & Ea & Ha & Hua).
    exists (a :: l). cbn [omap_list]. rewrite Ea. cbn [obind]. change (list_fmap _ _ snd pairs) with (pairs.*2).
    rewrite El. cbn. rewrite Ha, Hl. repeat split; try done. by constructor.
Qed.
End Accepted.

(** ** Properties *)

(** When the validation accepts the configuration, the declarations that the
    bootstrap reads exist and can be used: at least one actor, distinct names, an
    existing script each, counts within their ranges, and an address that can be
    opened wherever one is given, for a single instance.  The free-form sections
    are assumed to be printable as JSON. *)
Theorem validated_actors_usable `{YamlLib} `{JsonLib} exists_ c o :
  require_actors o = true -> validate_runtime_config exists_ c o = accept ->
  (forall actors, index (yaml_root c) "actors" = Ret (Some (YSequence actors)) -> Forall printable actors) ->
  exists l, runtime_actors c = Ret l /\ l <> [] /\ NoDup (map ra_name l) /\ Forall (usable exists_) l.
Proof.
  intros Hreq Hv Hp. unfold validate_runtime_config in Hv.
  do 4 (apply and_then_accept in Hv as [_ Hv]). apply and_then_accept in Hv as [Hv _]. rewrite Hreq in Hv.
  unfold check_actors in Hv. apply obind_ret_inv in Hv as (actors & Ea & Hv).
  unfold runtime_actors. rewrite Ea. cbn [obind].
  destruct actors as [[| |[|x l]|]|]; try done. apply obind_ret_inv in Hv as ([e|pairs] & El & Hs); [done|].
  apply actors_loop_spec in El as (E2 & Hnd & _ & Hall). apply scripts_loop_found in Hs.
  specialize (Hp _ Ea). rewrite <- E2 in Hp |- *.
  destruct (runtime_actors_all exists_ (source_dir c) (yaml_root c) pairs Hall Hs Hp) as (r & Er & Hn & Hu).
  exists r. rewrite Er, Hn. repeat split; try done. intros ->. cbn in Hn. by destruct pairs.
Qed.

(** A configuration with a gateway and a script that exists. *)
Definition runtime_yaml : YamlLib :=
  {| yaml_load := fun _ => inl (ParserException "bad file");
     as_bool := fun s => if String.eqb s "true" then Some true else None;
     as_int64 := stoll; as_double := fun _ => None;
     as_string := fun n => match n with YScalar _ s => inr s | _ => inl (BadConversion "bad conversion") end |}.

Definition dict (l : list (string * ynode)) : ynode := YMap (map (fun p => (text_node p.1, p.2)) l).

Definition gateway_actor : ynode :=
  dict [("name", text_node "gateway"); ("script", text_node "gateway.lua");
        ("network", dict [("tcp", text_node "0.0.0.0:7000"); ("max_connections", text_node "500")])].
Definition world_actor : ynode :=
  dict [("name", text_node "world"); ("script", text_node "world.lua"); ("instances", text_node "4")].

Definition runtime_doc (actors : list ynode) : ynode :=
  dict [("app", dict [("name", text_node "game")]); ("lua", dict [("script_path", text_node "scripts")]);
        ("actors", YSequence actors)].
Definition runtime_cfg (actors : list ynode) : Config := mkConfig ∅ (runtime_doc actors) ".".

Definition demo_exists (p : string) : outcome bool :=
  Ret (str_in p ["scripts/gateway.lua"; "./world.lua"]).
Definition plain_options : RuntimeValidationOptions := mkOptions false false false false false true.

Lemma validated_actors_usable_witness :
  @validate_runtime_config runtime_yaml demo_exists (runtime_cfg [gateway_actor; world_actor]) plain_options
    = accept /\
  exists l, @runtime_actors runtime_yaml flag_lib (runtime_cfg [gateway_actor; world_actor]) = Ret l /\
    l <> [] /\ NoDup (map ra_name l) /\ Forall (usable demo_exists) l.
Proof.
  split; [vm_compute; reflexivity|].
  refine (@validated_actors_usable runtime_yaml flag_lib demo_exists _ plain_options eq_refl _ _);
    [vm_compute; reflexivity|].
  intros actors E. vm_compute in E. injection E as <-.
  apply Forall_cons_iff. split; [|apply Forall_cons_iff; split; [|by constructor]]; split;
    try (intros ? E; vm_compute in E; discriminate E);
    intros n p E E'; vm_compute in E; try discriminate E. injection E as <-. vm_compute in E'. discriminate E'.
Defined.

(** ** What the validation lets through *)

(** A section that should be a map and is a scalar makes the validation throw
    instead of reporting an error. *)
Example scalar_section_throws :
  @validate_runtime_config runtime_yaml demo_exists
    (mkConfig ∅ (dict [("app", dict [("name", text_node "game")]); ("log", text_node "info")]) ".")
    plain_options = Throw bad_subscript.
Proof. vm_compute. reflexivity. Qed.

(** A number of instances that is no integer counts as one. *)
Example instances_text_ignored :
  let actor := dict [("name", text_node "world"); ("script", text_node "world.lua"); ("instances", text_node "many")] in
  @validate_runtime_config runtime_yaml demo_exists (runtime_cfg [actor]) plain_options = accept /\
  (let! l := @runtime_actors runtime_yaml flag_lib (runtime_cfg [actor]) in Ret (map ra_instances l)) = Ret [1].
Proof. vm_compute. split; reflexivity. Qed.

(** A port may be followed by anything. *)
Example port_suffix_ignored : parse_endpoint "localhost:80x" = Some (mkEndpoint "localhost" 80).
Proof. vm_compute. reflexivity. Qed.

(** Options with a key that is no scalar pass, and reading them throws. *)
Example options_not_checked :
  let actor := dict [("name", text_node "world"); ("script", text_node "world.lua");
                     ("options", YMap [(YSequence [], YNull)])] in
  @validate_runtime_config runtime_yaml demo_exists (runtime_cfg [actor]) plain_options = accept /\
  @runtime_actors runtime_yaml flag_lib (runtime_cfg [actor]) = Throw (StdExn "bad conversion").
Proof. vm_compute. split; reflexivity. Qed.
