(* ===== verification/Cluster.v ===== *)
(** * Cluster: nodes, their health and remote routes (src/cluster/cluster_manager.cpp)

    [ClusterManager] keeps a table of peers with the time of their last
    heartbeat, a cache of remote services and the function that sends to other
    nodes.  The readings of the steady clock are arguments of the operations. *)

From S2P Require Import Prelude Text Json Config.

(** ** Data *)

Inductive NodeState := Connecting | Online | Suspect | Offline | Removed.

#[global] Instance NodeState_eq_dec : EqDecision NodeState.
Proof. solve_decision. Defined.

Record NodeInfo := mkNode {
  nd_node_id : string;
  nd_address : string;
  nd_state : NodeState;
  last_heartbeat_ms : Z;
  connected_at_ms : Z;
  nd_epoch : Z
}.

Record ClusterConfig := mkClusterConfig {
  cl_enabled : bool;
  cl_node_id : string;
  listen_address : string;
  peers : list string;
  heartbeat_interval_ms : Z;
  suspect_timeout_ms : Z;
  offline_timeout_ms : Z
}.

Definition RemoteSendFn : Type := string -> string -> string -> string -> bool.

(** [ClusterManager::Impl] *)
Record ClusterManager := mkCluster {
  cl_config : ClusterConfig;
  node_epoch : Z;
  cl_nodes : gmap string NodeInfo;
  route_cache : gmap string string;
  remote_send_fn : option RemoteSendFn;
  cl_running : bool
}.

Definition set_nodes (m : gmap string NodeInfo) (s : ClusterManager) : ClusterManager :=
  mkCluster (cl_config s) (node_epoch s) m (route_cache s) (remote_send_fn s) (cl_running s).
Definition set_running (b : bool) (s : ClusterManager) : ClusterManager :=
  mkCluster (cl_config s) (node_epoch s) (cl_nodes s) (route_cache s) (remote_send_fn s) b.
Definition with_state (st : NodeState) (n : NodeInfo) : NodeInfo :=
  mkNode (nd_node_id n) (nd_address n) st (last_heartbeat_ms n) (connected_at_ms n) (nd_epoch n).
Definition with_heartbeat (t : Z) (n : NodeInfo) : NodeInfo :=
  mkNode (nd_node_id n) (nd_address n) (nd_state n) t (connected_at_ms n) (nd_epoch n).

(** ** Construction and running *)

(** Until the handshake the address stands for the identifier. *)
Definition add_peer (now : Z) (address : string) (m : gmap string NodeInfo) : gmap string NodeInfo :=
  <[address := mkNode address address Connecting 0 now 0]> m.

(** [epoch] is the random number, [now] a reading of the clock per peer. *)
Definition cluster_make (c : ClusterConfig) (epoch : Z) (now : string -> Z) : ClusterManager :=
  mkCluster c epoch (fold_left (fun m p => add_peer (now p) p m) (peers c) ∅) ∅ None false.

Definition cluster_start (now : string -> Z) (s : ClusterManager) : ClusterManager :=
  if cl_running s then s
  else set_running true
         (set_nodes (map_imap (fun id n => Some (with_heartbeat (now id) (with_state Online n))) (cl_nodes s)) s).

Definition cluster_stop (s : ClusterManager) : ClusterManager :=
  if negb (cl_running s) then s
  else set_running false (set_nodes (with_state Removed <$> cl_nodes s) s).

(** ** Health *)

Definition find_node (node_id : string) (s : ClusterManager) : option NodeInfo := cl_nodes s !! node_id.

Definition check_node_reachable (node_id : string) (s : ClusterManager) : string :=
  match cl_nodes s !! node_id with
  | None => "node_not_found"
  | Some n => match nd_state n with
              | Online | Connecting => ""
              | Suspect => "node_suspect"
              | Offline => "node_offline"
              | Removed => "node_removed"
              end
  end.

(** One node at a tick. *)
Definition tick_node (c : ClusterConfig) (now : Z) (n : NodeInfo) : NodeInfo :=
  match nd_state n with
  | Online => if suspect_timeout_ms c <? now - last_heartbeat_ms n then with_state Suspect n else n
  | Suspect => if offline_timeout_ms c <? now - last_heartbeat_ms n then with_state Offline n else n
  | _ => n
  end.

Definition tick_changes (c : ClusterConfig) (now : Z) (n : NodeInfo) : bool :=
  negb (bool_decide (nd_state (tick_node c now n) = nd_state n)).

(** The new state and the number of changes. *)
Definition tick (now : Z) (s : ClusterManager) : ClusterManager * Z :=
  if negb (cl_running s) then (s, 0)
  else (set_nodes (tick_node (cl_config s) now <$> cl_nodes s) s,
        vsize (List.filter (fun p => tick_changes (cl_config s) now p.2) (map_to_list (cl_nodes s)))).

Definition node_state_name (s : NodeState) : string :=
  match s with
  | Connecting => "connecting"
  | Online => "online"
  | Suspect => "suspect"
  | Offline => "offline"
  | Removed => "removed"
  end.

(** ** Routes *)

Definition route_key (node_id service_name : string) : string := node_id ++ ":" ++ service_name.

Definition query_remote (node_id service_name : string) (s : ClusterManager) : string :=
  default "" (route_cache s !! route_key node_id service_name).

Definition register_route (node_id service_name service_id : string) (s : ClusterManager) : ClusterManager :=
  mkCluster (cl_config s) (node_epoch s) (cl_nodes s)
    (<[route_key node_id service_name := service_id]> (route_cache s)) (remote_send_fn s) (cl_running s).

(** At the first colon; both parts must not be empty. *)
Definition parse_remote_target (target : string) : option (string * string) :=
  match split_at ":" target with
  | Some (node, service) => if str_empty node || str_empty service then None else Some (node, service)
  | None => None
  end.

Definition set_remote_send_fn (f : option RemoteSendFn) (s : ClusterManager) : ClusterManager :=
  mkCluster (cl_config s) (node_epoch s) (cl_nodes s) (route_cache s) f (cl_running s).

Definition send_remote (target_node service_id method args_json : string) (s : ClusterManager) : bool :=
  match remote_send_fn s with
  | Some f => f target_node service_id method args_json
  | None => false
  end.

(** ** Configuration *)

Definition is_blank (c : Ascii.ascii) : bool := Ascii.eqb c " " || Ascii.eqb c "009".

(** [find_last_not_of] *)
Fixpoint rtrim_blank (s : string) : string :=
  match s with
  | EmptyString => EmptyString
  | String c r => match rtrim_blank r with
                  | EmptyString => if is_blank c then EmptyString else String c EmptyString
                  | r' => String c r'
                  end
  end.

Definition add_item (current : string) (l : list string) : list string :=
  match rtrim_blank (skip is_blank current) with EmptyString => l | t => l ++ [t] end.

(** The loop over the text; [current] is the item being read. *)
Fixpoint split_peers (s current : string) (l : list string) : list string :=
  match s with
  | EmptyString => if str_empty current then l else add_item current l
  | String c r =>
      if Ascii.eqb c "," || Ascii.eqb c "010" then
        if str_empty current then split_peers r current l else split_peers r "" (add_item current l)
      else split_peers r (current ++ String c "") l
  end.

Definition parse_cluster_config (c : Config) : outcome ClusterConfig :=
  if negb (has c "cluster.node_id") then Ret (mkClusterConfig false "" "" [] 5000 15000 30000)
  else
    let! hb := get_int c "cluster.heartbeat_interval_ms" 5000 in
    let! su := get_int c "cluster.suspect_timeout_ms" 15000 in
    let! off := get_int c "cluster.offline_timeout_ms" 30000 in
    let listed := get_string_array c "cluster.peers" in
    let all := match listed with
               | [] => if has c "cluster.peers" then split_peers (get_string c "cluster.peers" "") "" [] else []
               | _ => listed
               end in
    Ret (mkClusterConfig true (get_string c "cluster.node_id" "") (get_string c "cluster.listen" "0.0.0.0:9000")
           all (signed32 hb) (signed32 su) (signed32 off)).

(** ** Reachable states

    The time and the manager; time passes between the calls.  The readings of one
    [start] lie between the time of the call and the time of its return. *)

Inductive cluster_step : Z * ClusterManager -> Z * ClusterManager -> Prop :=
| step_time t t' s : t <= t' -> cluster_step (t, s) (t', s)
| step_start t t' s now :
    t <= t' -> (forall id, t <= now id <= t') -> cluster_step (t, s) (t', cluster_start now s)
| step_stop t s : cluster_step (t, s) (t, cluster_stop s)
| step_tick t s : cluster_step (t, s) (t, (tick t s).1)
| step_route t s n v i : cluster_step (t, s) (t, register_route n v i s)
| step_send_fn t s f : cluster_step (t, s) (t, set_remote_send_fn f s).

Definition cluster_reachable (c : ClusterConfig) (x : Z * ClusterManager) : Prop :=
  exists epoch now t0, rtc cluster_step (t0, cluster_make c epoch now) x.

(** ** Invariant *)

(** What the state of a node says about its last heartbeat. *)
Definition healthy (c : ClusterConfig) (running : bool) (t : Z) (n : NodeInfo) : Prop :=
  if running then
    last_heartbeat_ms n <= t /\
    match nd_state n with
    | Online => True
    | Suspect => suspect_timeout_ms c < t - last_heartbeat_ms n
    | Offline => offline_timeout_ms c < t - last_heartbeat_ms n
    | Connecting | Removed => False
    end
  else nd_state n = Connecting \/ nd_state n = Removed.

Definition cluster_inv (c : ClusterConfig) (x : Z * ClusterManager) : Prop :=
  cl_config x.2 = c /\
  forall id n, cl_nodes x.2 !! id = Some n -> nd_node_id n = id /\ healthy c (cl_running x.2) x.1 n.

Lemma healthy_later c b t t' n : t <= t' -> healthy c b t n -> healthy c b t' n.
Proof. unfold healthy. destruct b; [|done]. intros Ht [Hl Hs]. split; [lia|]. destruct (nd_state n); lia. Qed.

Lemma tick_node_healthy c t n : healthy c true t n -> healthy c true t (tick_node c t n).
Proof.
  unfold healthy, tick_node. intros [Hl Hs]. destruct (nd_state n) eqn:E; try done.
  - destruct (Z.ltb_spec (suspect_timeout_ms c) (t - last_heartbeat_ms n)); cbn; rewrite ?E; lia.
  - destruct (Z.ltb_spec (offline_timeout_ms c) (t - last_heartbeat_ms n)); cbn; rewrite ?E; lia.
  - by rewrite E.
Qed.

Lemma tick_node_id c t n : nd_node_id (tick_node c t n) = nd_node_id n.
Proof. unfold tick_node. destruct (nd_state n); try done; by case_head. Qed.

Lemma peers_inv now l m :
  (forall id n, m !! id = Some n -> nd_node_id n = id /\ nd_state n = Connecting) ->
  forall id n, fold_left (fun m p => add_peer (now p) p m) l m !! id = Some n ->
    nd_node_id n = id /\ nd_state n = Connecting.
Proof.
  revert m. induction l as [|p l IH]; intros m Hm; [done|]. cbn [fold_left]. apply IH. intros id n.
  unfold add_peer. intros [[<- <-]|[_ Hn]]%lookup_insert_Some; [done|by apply Hm].
Qed.

Lemma cluster_step_inv c x y : cluster_step x y -> cluster_inv c x -> cluster_inv c y.
Proof.
  intros Hstep [Hc Hi]. destruct Hstep as [t t' s Ht|t t' s now Ht Hnow|t s|t s|t s n v i|t s f];
    unfold cluster_inv in *; cbn [fst snd] in *.
  - split; [done|]. intros id n Hn. destruct (Hi id n Hn). split; [done|]. by eapply healthy_later.
  - unfold cluster_start. destruct (cl_running s) eqn:Er; split; try done; cbn.
    + intros id n Hn. destruct (Hi id n Hn). split; [done|]. rewrite Er. by eapply healthy_later.
    + intros id n. rewrite map_lookup_imap. intros (n0 & Hn0 & [= <-])%bind_Some.
      destruct (Hi id n0 Hn0). split; [done|]. cbn. split; [apply Hnow|done].
  - unfold cluster_stop. destruct (cl_running s) eqn:Er; cbn [negb]; split; try done; cbn; [|by rewrite Er].
    intros id n. rewrite lookup_fmap. intros (n0 & Hn0 & ->)%fmap_Some. destruct (Hi id n0 Hn0). split; [done|by right].
  - unfold tick. destruct (cl_running s) eqn:Er; cbn [negb fst]; split; try done; cbn; rewrite Er; [|done].
    intros id n. rewrite lookup_fmap. intros (n0 & Hn0 & ->)%fmap_Some. destruct (Hi id n0 Hn0) as [Hid Hh].
    rewrite tick_node_id. split; [done|]. rewrite Hc. by apply tick_node_healthy.
  - done.
  - done.
Qed.

Lemma cluster_reachable_inv c x : cluster_reachable c x -> cluster_inv c x.
Proof.
  intros (epoch & now & t0 & Hr).
  assert (H0 : cluster_inv c (t0, cluster_make c epoch now)).
  { split; [done|]. cbn. intros id n Hn. destruct (peers_inv now (peers c) ∅ ltac:(by intros ? ? ?%lookup_empty_Some) id n Hn).
    split; [done|by left]. }
  revert H0. induction Hr as [|x y z Hxy _ IH]; [done|]. intros Hx. apply IH. by eapply cluster_step_inv.
Qed.

(** ** Two ticks *)

Lemma two_ticks_offline c t t' t'' n :
  healthy c true t n -> t <= t' <= t'' -> suspect_timeout_ms c < t' - t -> offline_timeout_ms c < t'' - t ->
  nd_state (tick_node c t'' (tick_node c t' n)) = Offline.
Proof.
  unfold healthy. intros [Hl Hs] Ht H1 H2. unfold tick_node at 2. destruct (nd_state n) eqn:E; try done.
  - rewrite (proj2 (Z.ltb_lt _ _)) by lia. unfold tick_node. cbn. by rewrite (proj2 (Z.ltb_lt _ _)) by lia.
  - destruct (Z.ltb_spec (offline_timeout_ms c) (t' - last_heartbeat_ms n)); [done|].
    unfold tick_node. rewrite E. by rewrite (proj2 (Z.ltb_lt _ _)) by lia.
  - unfold tick_node. by rewrite E.
Qed.

(** ** Routes *)

Definition no_colon (s : string) : bool := str_all (fun d => negb (Ascii.eqb d ":")) s.

Lemma split_route_key node service :
  no_colon node = true -> split_at ":" (route_key node service) = Some (node, service).
Proof. exact (split_at_app ":" node service). Qed.

Lemma parse_route_key node service :
  no_colon node = true -> node <> "" -> service <> "" ->
  parse_remote_target (route_key node service) = Some (node, service).
Proof.
  intros Hc Hn Hs. unfold parse_remote_target. rewrite split_route_key by done.
  by rewrite (proj2 (str_empty_false _) Hn), (proj2 (str_empty_false _) Hs).
Qed.

Lemma route_key_inj node node' service service' :
  no_colon node = true -> no_colon node' = true ->
  route_key node service = route_key node' service' -> node = node' /\ service = service'.
Proof.
  intros Hc Hc' E. pose proof (split_route_key node service Hc) as H1.
  rewrite E, split_route_key in H1 by done. by simplify_eq.
Qed.

(** A registered route is found, and no other one is touched, as long as node
    identifiers have no colon. *)
Lemma register_route_spec node service id s node' service' :
  no_colon node = true -> no_colon node' = true ->
  query_remote node' service' (register_route node service id s) =
  if bool_decide (node = node' /\ service = service') then id else query_remote node' service' s.
Proof.
  intros Hc Hc'. unfold query_remote, register_route. cbn. case_bool_decide as E.
  - destruct E as [-> ->]. by rewrite lookup_insert_eq.
  - rewrite lookup_insert_ne; [done|]. intros Ek. by apply E, route_key_inj.
Qed.

(** ** Properties *)

(** C24: the failure detector.  A node is reported as suspect or offline only if
    its last heartbeat is older than the limit; and since no operation of the
    manager records a heartbeat, a running manager reports every peer as offline
    after two ticks once both limits have passed. *)
Theorem peers_expire c t s :
  cluster_reachable c (t, s) ->
  (forall id, check_node_reachable id s = "node_suspect" ->
     exists n, find_node id s = Some n /\ suspect_timeout_ms c < t - last_heartbeat_ms n) /\
  (forall id, check_node_reachable id s = "node_offline" ->
     exists n, find_node id s = Some n /\ offline_timeout_ms c < t - last_heartbeat_ms n) /\
  (forall t' t'' id, cl_running s = true -> t <= t' <= t'' -> suspect_timeout_ms c < t' - t ->
     offline_timeout_ms c < t'' - t -> is_Some (find_node id s) ->
     check_node_reachable id (tick t'' (tick t' s).1).1 = "node_offline").
Proof.
  intros [Hc Hi]%cluster_reachable_inv. cbn in Hc, Hi. unfold check_node_reachable, find_node.
  assert (Hget : forall id n, cl_nodes s !! id = Some n -> nd_state n = Suspect \/ nd_state n = Offline ->
                 cl_running s = true /\ healthy c true t n).
  { intros id n Hn Hs. destruct (Hi id n Hn) as [_ Hh]. destruct (cl_running s); [done|].
    destruct Hh, Hs; congruence. }
  repeat split.
  - intros id Hid. destruct (cl_nodes s !! id) as [n|] eqn:Hn; [|done]. exists n. split; [done|].
    destruct (nd_state n) eqn:Es; try done. destruct (Hget id n Hn ltac:(by left)) as [_ [_ Hh]].
    by rewrite Es in Hh.
  - intros id Hid. destruct (cl_nodes s !! id) as [n|] eqn:Hn; [|done]. exists n. split; [done|].
    destruct (nd_state n) eqn:Es; try done. destruct (Hget id n Hn ltac:(by right)) as [_ [_ Hh]].
    by rewrite Es in Hh.
  - intros t' t'' id Hr Ht H1 H2 [n Hn]. destruct (Hi id n Hn) as [_ Hh]. rewrite Hr in Hh.
    unfold tick. rewrite Hr. cbn. rewrite Hr. cbn. rewrite !lookup_fmap, Hn, Hc. cbn.
    by rewrite (two_ticks_offline c t).
Qed.

Definition demo_cluster : ClusterConfig := mkClusterConfig true "n1" "0.0.0.0:9000" ["10.0.0.2:9000"] 5000 15000 30000.
Definition demo_started : ClusterManager := cluster_start (fun _ => 7) (cluster_make demo_cluster 42 (fun _ => 3)).

Lemma demo_started_reachable : cluster_reachable demo_cluster (10, demo_started).
Proof.
  exists 42, (fun _ => 3), 5. eapply rtc_l; [|apply rtc_refl]. apply step_start; [lia|]. intros _. lia.
Qed.

Lemma peers_expire_witness :
  check_node_reachable "10.0.0.2:9000" demo_started = "" /\
  check_node_reachable "10.0.0.2:9000" (tick 40000 (tick 20000 demo_started).1).1 = "node_offline".
Proof.
  split; [vm_compute; reflexivity|].
  destruct (peers_expire demo_cluster 10 demo_started demo_started_reachable) as (_ & _ & H).
  apply H; [reflexivity|lia|vm_compute; reflexivity|vm_compute; reflexivity|vm_compute; eexists; reflexivity].
Defined.

(** A peer is filed under its address, which has a colon: a target made of it is
    taken apart at the wrong one. *)
Example peer_target_misparsed :
  parse_remote_target (route_key "10.0.0.2:9000" "chat") = Some ("10.0.0.2", "9000:chat") /\
  check_node_reachable "10.0.0.2" demo_started = "node_not_found".
Proof. vm_compute. split; reflexivity. Qed.

(** The peers of a text, with blanks and empty items. *)
Example peers_text : split_peers " a:1 ,, b:2" "" [] = ["a:1"; "b:2"].
Proof. vm_compute. reflexivity. Qed.
