(* ===== verification/Matchmaking.v ===== *)
(** * Matchmaking: the ELO matchmaking plugin (plugins/matchmaking_elo)

    The queue of one instance and the functions of its table.  Ratings are
    doubles.  [std::sort] is an argument: what is known of its result is that it
    is a permutation in the order of the ratings.  Memory is assumed to be
    available; handles and texts that may be null are options. *)

From Stdlib Require Import Floats.SpecFloat Sorting.Permutation Sorting.Sorted.
From S2P Require Import Prelude Text.

(** ** Data *)

Record PlayerEntry := mkPlayer {
  player_id : string;
  rating : spec_float;
  party_id : string;
  region : string
}.

Record MatchConfig := mkMatchConfig {
  max_players_per_match : Z;
  match_timeout_seconds : Z;
  rating_tolerance : spec_float
}.

(** [matchmaking_instance] *)
Record Matchmaking := mkMatchmaking {
  mm_cfg : MatchConfig;
  queue : gmap string PlayerEntry;
  next_match_id : Z
}.

(** [shield_matchmaking_player] as the caller fills it, [shield_matchmaking_match]. *)
Record PlayerArg := mkPlayerArg {
  arg_player_id : option string;
  arg_rating : spec_float;
  arg_party_id : option string;
  arg_region : option string
}.
Record Match := mkMatch { match_id : string; players : list PlayerEntry }.

Definition set_queue (q : gmap string PlayerEntry) (s : Matchmaking) : Matchmaking :=
  mkMatchmaking (mm_cfg s) q (next_match_id s).

(** ** The queue *)

Definition enqueue (p : option PlayerArg) (s : Matchmaking) : Matchmaking * Z :=
  match p with
  | Some (mkPlayerArg (Some id) r party reg) =>
      (set_queue (<[id := mkPlayer id r (default "" party) (default "" reg)]> (queue s)) s, 0)
  | _ => (s, -1)
  end.

Definition dequeue (id : option string) (s : Matchmaking) : Matchmaking * Z :=
  match id with
  | None => (s, -1)
  | Some id => (set_queue (delete id (queue s)) s, if bool_decide (is_Some (queue s !! id)) then 0 else -1)
  end.

Definition is_queued (id : option string) (s : Matchmaking) : Z :=
  match id with
  | None => 0
  | Some id => if bool_decide (is_Some (queue s !! id)) then 1 else 0
  end.

Definition update_rating (id : option string) (r : spec_float) (s : Matchmaking) : Matchmaking * Z :=
  match id with
  | None => (s, -1)
  | Some id =>
      match queue s !! id with
      | None => (s, -1)
      | Some e => (set_queue (<[id := mkPlayer (player_id e) r (party_id e) (region e)]> (queue s)) s, 0)
      end
  end.

(** The code returned and what is left in [*out_rating]. *)
Definition get_rating (id : option string) (s : Matchmaking) : Z * option spec_float :=
  match id with
  | None => (-1, None)
  | Some id => match queue s !! id with
               | None => (-1, Some (S754_zero false))
               | Some e => (0, Some (rating e))
               end
  end.

Definition queue_size (s : Matchmaking) : Z := Z.of_nat (size (queue s)).

(** ** Matching *)

(** [std::abs(p->rating - front->rating) <= rating_tolerance] *)
Definition close (c : MatchConfig) (front p : PlayerEntry) : bool :=
  SFleb (SFabs (SFsub 53 1024 (rating p) (rating front))) (rating_tolerance c).

(** The inner loop: the players that join [front], [count] being in the group. *)
Fixpoint grow (c : MatchConfig) (front : PlayerEntry) (count : Z) (l : list PlayerEntry)
  : list PlayerEntry * list PlayerEntry :=
  match l with
  | [] => ([], [])
  | p :: rest =>
      if (count <? max_players_per_match c) && close c front p then
        let '(g, r) := grow c front (count + 1) rest in (p :: g, r)
      else ([], l)
  end.

(** The outer loop; every round moves on by a player at least. *)
Fixpoint groups (fuel : nat) (c : MatchConfig) (l : list PlayerEntry) : list (list PlayerEntry) :=
  match fuel, l with
  | S fuel, p :: rest =>
      let '(g, r) := grow c p 1 rest in
      if vsize (p :: g) =? max_players_per_match c then (p :: g) :: groups fuel c r else groups fuel c rest
  | _, _ => []
  end.

(** Numbering the matches. *)
Fixpoint number (id : Z) (gs : list (list PlayerEntry)) : list Match :=
  match gs with
  | [] => []
  | g :: gs => mkMatch ("match_" ++ to_string_u64 id) g :: number (u64 (id + 1)) gs
  end.

Definition remove_players (l : list PlayerEntry) (q : gmap string PlayerEntry) : gmap string PlayerEntry :=
  fold_left (fun q p => delete (player_id p) q) l q.

Section Sort.
Context (sort : list PlayerEntry -> list PlayerEntry).

Definition sorted_queue (s : Matchmaking) : list PlayerEntry := sort (map_to_list (queue s)).*2.

Definition try_match (s : Matchmaking) : list Match * Matchmaking :=
  let sorted := sorted_queue s in
  let gs := groups (length sorted) (mm_cfg s) sorted in
  (number (next_match_id s) gs,
   mkMatchmaking (mm_cfg s) (fold_left (fun q g => remove_players g q) gs (queue s))
     (fold_left (fun id _ => u64 (id + 1)) gs (next_match_id s))).

End Sort.

(** ** Reachable queues *)

Lemma remove_players_lookup l q id :
  remove_players l q !! id = if bool_decide (id ∈ map player_id l) then None else q !! id.
Proof.
  unfold remove_players. revert q. induction l as [|p l IH]; intros q; [done|].
  cbn [fold_left map]. rewrite IH. destruct (decide (id = player_id p)) as [->|Hne].
  - rewrite lookup_delete_eq, (bool_decide_true (_ ∈ _ :: _)) by (by left). by case_match.
  - rewrite lookup_delete_ne by done.
    by rewrite (bool_decide_ext (id ∈ player_id p :: _) (id ∈ map player_id l)) by set_solver.
Qed.

Lemma remove_groups gs q :
  fold_left (fun q g => remove_players g q) gs q = remove_players (concat gs) q.
Proof.
  revert q. induction gs as [|g gs IH]; intros q; [done|]. cbn [fold_left concat]. rewrite IH.
  unfold remove_players. by rewrite fold_left_app.
Qed.

Section Reachable.
Context (sort : list PlayerEntry -> list PlayerEntry) (c : MatchConfig).

Inductive mm_reachable : Matchmaking -> Prop :=
| mm_create : mm_reachable (mkMatchmaking c ∅ 1)
| mm_enqueue p s : mm_reachable s -> mm_reachable (enqueue p s).1
| mm_dequeue id s : mm_reachable s -> mm_reachable (dequeue id s).1
| mm_update id r s : mm_reachable s -> mm_reachable (update_rating id r s).1
| mm_match s : mm_reachable s -> mm_reachable (try_match sort s).2.

(** Players are filed under their identifier. *)
Definition filed (q : gmap string PlayerEntry) : Prop := forall id e, q !! id = Some e -> player_id e = id.

Lemma mm_reachable_filed s : mm_reachable s -> mm_cfg s = c /\ filed (queue s).
Proof.
  induction 1 as [|p s _ [Hc IH]|id s _ [Hc IH]|id r s _ [Hc IH]|s _ [Hc IH]].
  - split; [done|]. intros id e. cbn. by intros ?%lookup_empty_Some.
  - destruct p as [[[id|] r party reg]|]; try by split. split; [done|]. cbn.
    intros id' e [[<- <-]|[_ He]]%lookup_insert_Some; [done|by apply IH].
  - destruct id as [id|]; [|by split]. split; [done|]. cbn. intros id' e [_ He]%lookup_delete_Some. by apply IH.
  - destruct id as [id|]; [|by split]. cbn. destruct (queue s !! id) as [e|] eqn:He; [|by split].
    split; [done|]. cbn. intros id' e' [[<- <-]|[_ He']]%lookup_insert_Some; [exact (IH _ _ He)|exact (IH _ _ He')].
  - split; [done|]. cbn. rewrite remove_groups. intros id e. rewrite remove_players_lookup.
    case_bool_decide; [done|]. apply IH.
Qed.

(** ** Groups *)

Lemma grow_split p n l g r :
  grow c p n l = (g, r) -> l = g ++ r /\ Forall (fun q => close c p q = true) g.
Proof.
  revert n g r. induction l as [|q l IH]; intros n g r; cbn [grow]; [by intros [= <- <-]|].
  destruct ((n <? max_players_per_match c) && close c p q) eqn:E; [|by intros [= <- <-]].
  apply andb_true_iff in E as [_ E]. destruct (grow c p (n + 1) l) as [g' r'] eqn:Eg. intros [= <- <-].
  destruct (IH _ _ _ Eg) as [-> Hg]. split; [done|]. by constructor.
Qed.

(** As many close players as the group lacks all join it. *)
Lemma grow_full p n next after :
  Forall (fun q => close c p q = true) next -> n + vsize next = max_players_per_match c ->
  grow c p n (next ++ after) = (next, after).
Proof.
  revert n. induction next as [|q next IH]; intros n Hq Hn; cbn [app grow].
  - destruct after as [|a after]; [done|]. rewrite vsize_nil in Hn.
    cbn [grow]. by rewrite (proj2 (Z.ltb_ge n _)) by lia.
  - apply Forall_cons_iff in Hq as [Hq Hnext]. rewrite vsize_cons in Hn. pose proof (vsize_nonneg next).
    rewrite (proj2 (Z.ltb_lt n _)), Hq by lia. cbn [andb]. rewrite IH by (done || lia). done.
Qed.

(** What a match looks like. *)
Definition well_matched (g : list PlayerEntry) : Prop :=
  vsize g = max_players_per_match c /\
  exists p rest, g = p :: rest /\ Forall (fun q => close c p q = true) rest.

Lemma groups_matched fuel l : Forall well_matched (groups fuel c l).
Proof.
  revert l. induction fuel as [|fuel IH]; intros [|p l]; try by constructor. cbn [groups].
  destruct (grow c p 1 l) as [g r] eqn:Eg. destruct (Z.eqb_spec (vsize (p :: g)) (max_players_per_match c)); [|apply IH].
  constructor; [|apply IH]. split; [done|]. exists p, g. split; [done|]. by eapply grow_split.
Qed.

Lemma groups_sublist fuel l : concat (groups fuel c l) `sublist_of` l.
Proof.
  revert l. induction fuel as [|fuel IH]; intros [|p l]; try apply sublist_nil_l. cbn [groups].
  destruct (grow c p 1 l) as [g r] eqn:Eg. destruct (grow_split _ _ _ _ _ Eg) as [-> _].
  destruct (vsize (p :: g) =? _); cbn [concat]; [|by apply sublist_cons].
  apply sublist_skip. apply sublist_app; [done|apply IH].
Qed.

Lemma groups_complete fuel l before p next after :
  (length l <= fuel)%nat -> l = before ++ p :: next ++ after ->
  Forall (fun q => close c p q = true) next -> 1 + vsize next = max_players_per_match c ->
  p ∈ concat (groups fuel c l).
Proof.
  intros Hl El Hn Hmax. revert l before Hl El. induction fuel as [|fuel IH]; intros l before Hl El.
  - destruct before; subst; cbn in Hl; lia.
  - destruct before as [|a before]; cbn [app] in El; subst l; cbn [groups].
    + rewrite (grow_full p 1 next after) by done. rewrite vsize_cons, (proj2 (Z.eqb_eq _ _)) by done.
      cbn. by left.
    + destruct (grow c a 1 _) as [g r] eqn:Eg. destruct (grow_split _ _ _ _ _ Eg) as [E _].
      rewrite length_cons in Hl.
      destruct (vsize (a :: g) =? _); [|by apply (IH _ before); [lia|]]. cbn [concat].
      apply elem_of_app. destruct (decide (length g <= length before)%nat) as [Hle|Hlt].
      * right. assert (Er : r = drop (length g) before ++ p :: next ++ after).
        { apply (f_equal (drop (length g))) in E. rewrite drop_app_length in E. rewrite <- E.
          by rewrite drop_app_le. }
        apply (IH r (drop (length g) before)); [|done]. rewrite E, length_app in Hl. lia.
      * left. right. apply (f_equal (take (length g))) in E. rewrite take_app_length in E. rewrite <- E.
        rewrite take_app_ge by lia. apply elem_of_app. right.
        destruct (length g - length before)%nat eqn:El; [lia|]. cbn. by left.
Qed.
End Reachable.

(** The identifiers of a filed queue, each once. *)
Lemma filed_ids q : filed q -> map player_id (map_to_list q).*2 = (map_to_list q).*1.
Proof.
  intros Hq. change (map player_id) with (fmap player_id : list PlayerEntry -> list string).
  rewrite <- list_fmap_compose. apply list_fmap_ext. intros i [id e] Hi.
  apply Hq, elem_of_map_to_list. by eapply list_elem_of_lookup_2.
Qed.

Lemma number_players id gs : map players (number id gs) = gs.
Proof. revert id. induction gs as [|g gs IH]; intros id; cbn; [done|]. by rewrite IH. Qed.

(** [a] may come before [b] in the order of ratings. *)
Definition not_above (a b : PlayerEntry) : Prop := SFltb (rating b) (rating a) = false.

Lemma sublist_sorted (l k : list PlayerEntry) :
  l `sublist_of` k -> StronglySorted not_above k -> StronglySorted not_above l.
Proof.
  induction 1 as [|x l k Hs IH|x l k Hs IH]; intros Hk; [constructor|..]; apply StronglySorted_inv in Hk as [Hk Hx].
  - constructor; [by apply IH|]. apply List.Forall_forall. intros y Hy. rewrite List.Forall_forall in Hx.
    apply Hx, list_elem_of_In. apply list_elem_of_In in Hy. by eapply elem_of_sublist.
  - by apply IH.
Qed.

(** ** Properties *)

(** C25: matching takes groups of exactly the configured size out of the queue,
    all within the tolerance of the lowest rating in the group and in the order
    of ratings; no player is in two matches; exactly the matched players leave
    the queue; and no player stays behind who is followed, in the order of
    ratings, by enough players within the tolerance. *)
Theorem try_match_correct sort c s matches s' :
  mm_reachable sort c s ->
  Permutation (sorted_queue sort s) (map_to_list (queue s)).*2 ->
  StronglySorted not_above (sorted_queue sort s) ->
  try_match sort s = (matches, s') ->
  let matched := concat (map players matches) in
  Forall (fun m => well_matched c (players m)) matches /\
  StronglySorted not_above matched /\ NoDup (map player_id matched) /\
  Forall (fun p => queue s !! player_id p = Some p) matched /\
  (forall id, queue s' !! id = if bool_decide (id ∈ map player_id matched) then None else queue s !! id) /\
  (forall before p next after, sorted_queue sort s = before ++ p :: next ++ after ->
     1 + vsize next = max_players_per_match c -> Forall (fun q => close c p q = true) next ->
     queue s' !! player_id p = None).
Proof.
  intros Hr Hperm Hsort. apply mm_reachable_filed in Hr as [Hc Hq]. unfold try_match. intros [= <- <-].
  cbn. rewrite number_players, remove_groups, Hc. set (l := sorted_queue sort s) in *.
  pose proof (groups_sublist c (length l) l) as Hsub.
  assert (Hnd : NoDup (map player_id l)).
  { apply (NoDup_Permutation_proper _ _ (Permutation_map player_id Hperm)). rewrite filed_ids by done.
    apply NoDup_fst_map_to_list. }
  repeat split.
  - apply List.Forall_forall. intros m Hm. pose proof (groups_matched c (length l) l) as Hg.
    rewrite List.Forall_forall in Hg. apply Hg. rewrite <- (number_players (next_match_id s) (groups _ c l)). by apply in_map.
  - by eapply sublist_sorted.
  - eapply sublist_NoDup; [exact Hnd|]. by apply (fmap_sublist player_id).
  - apply List.Forall_forall. intros p Hp%list_elem_of_In. apply (elem_of_sublist _ _ _ Hp) in Hsub.
    rewrite Hperm in Hsub. apply list_elem_of_fmap in Hsub as ([id e] & -> & Hin%elem_of_map_to_list). cbn.
    by rewrite (Hq id e Hin).
  - intros id. apply remove_players_lookup.
  - intros before p next after El Hmax Hn. rewrite remove_players_lookup, bool_decide_true; [done|].
    apply (list_elem_of_fmap_2 player_id). by eapply groups_complete.
Qed.

(** Three players, two of them close to each other. *)
Definition demo_player (id : string) (r : Z) : PlayerArg :=
  mkPlayerArg (Some id) (binary_normalize 53 1024 r 0 false) None None.

(** Insertion by rating. *)
Fixpoint insert_player (p : PlayerEntry) (l : list PlayerEntry) : list PlayerEntry :=
  match l with
  | [] => [p]
  | q :: r => if SFltb (rating q) (rating p) then q :: insert_player p r else p :: l
  end.
Definition insertion_sort (l : list PlayerEntry) : list PlayerEntry := fold_right insert_player [] l.

Lemma insertion_sort_perm l : Permutation (insertion_sort l) l.
Proof.
  induction l as [|p l IH]; [done|]. cbn [insertion_sort fold_right]. fold (insertion_sort l).
  etransitivity; [|by apply Permutation_skip]. generalize (insertion_sort l) as k.
  induction k as [|q k IHk]; cbn [insert_player]; [done|]. case_match; [|done].
  rewrite IHk. apply Permutation_swap.
Qed.

Definition duel : MatchConfig := mkMatchConfig 2 30 (binary_normalize 53 1024 200 0 false).
Definition demo_queue : Matchmaking :=
  fold_left (fun s p => (enqueue (Some p) s).1)
    [demo_player "ann" 1500; demo_player "bob" 1900; demo_player "eve" 1650] (mkMatchmaking duel ∅ 1).

Lemma try_match_correct_witness :
  map (fun m => (match_id m, map player_id (players m))) (try_match insertion_sort demo_queue).1 =
    [("match_1", ["ann"; "eve"])] /\
  queue (try_match insertion_sort demo_queue).2 !! "ann" = None /\
  is_queued (Some "bob") (try_match insertion_sort demo_queue).2 = 1.
Proof.
  split; [vm_compute; reflexivity|]. split; [|vm_compute; reflexivity].
  assert (Hr : mm_reachable insertion_sort duel demo_queue) by (do 3 apply mm_enqueue; constructor).
  assert (Hp : Permutation (sorted_queue insertion_sort demo_queue) (map_to_list (queue demo_queue)).*2).
  { apply insertion_sort_perm. }
  assert (Hs : StronglySorted not_above (sorted_queue insertion_sort demo_queue)).
  { let l := eval vm_compute in (sorted_queue insertion_sort demo_queue) in
      replace (sorted_queue insertion_sort demo_queue) with l by (vm_compute; reflexivity).
    repeat first [apply SSorted_nil | apply List.Forall_nil | apply SSorted_cons | apply List.Forall_cons];
      unfold not_above; vm_compute; reflexivity. }
  pose proof (try_match_correct insertion_sort duel demo_queue _ _ Hr Hp Hs
                (surjective_pairing _)) as (_ & _ & _ & _ & Hq & _).
  rewrite Hq. vm_compute. reflexivity.
Defined.
