(* ===== verification/LuaPack.v ===== *)
(** * LuaPack: the binary form of Lua values (src/lua/lua_runtime.cpp)

    [LuaPackEncoder] and [LuaPackDecoder].  A table is the list of its entries in
    the order [pairs] visits them; a Lua float is its 64-bit pattern.  Encoding
    nested values stops at [max_nesting_depth], so the encoder recurses on what
    is left of it.  The decoder has no such limit: the calls that its stack has
    room for are an argument, a full stack is undefined behaviour, and its loops
    have a round per byte and one more, enough because every value takes a byte.
    Bytes read behind the end of the buffer are undefined behaviour. *)

From Stdlib Require Import Floats.SpecFloat.
From S2P Require Import Prelude Text Wire Json Schema.

Inductive lval :=
| VNil
| VBool (b : bool)
| VInt (z : Z)
| VNum (bits : Z)
| VStr (s : list byte)
| VTable (entries : list (lval * lval))
| VHandle (id : list byte)
| VOther.

Record PackConfig := mkPackConfig {
  max_nesting_depth : nat;
  max_string_length : Z;
  max_array_length : Z;
  max_map_entries : Z
}.

Definition default_pack : PackConfig := mkPackConfig 64 1048576 1000000 100000.

(** ** Numbers *)

(** The double with a given pattern, and the pattern of a double. *)
Definition double_of_bits (bits : Z) : spec_float :=
  let s := Z.testbit bits 63 in
  let e := Z.land (Z.shiftr bits 52) 0x7ff in
  let m := Z.land bits (2 ^ 52 - 1) in
  if e =? 0 then match m with Zpos p => S754_finite s p (-1074) | _ => S754_zero s end
  else if e =? 0x7ff then (if m =? 0 then S754_infinity s else S754_nan)
  else match m + 2 ^ 52 with Zpos p => S754_finite s p (e - 1075) | _ => S754_nan end.

Definition bits_of_double (d : spec_float) : Z :=
  let sign (s : bool) := if s then 2 ^ 63 else 0 in
  match d with
  | S754_zero s => sign s
  | S754_infinity s => sign s + Z.shiftl 0x7ff 52
  | S754_nan => Z.shiftl 0x7ff 52 + 2 ^ 51
  | S754_finite s m e =>
      sign s + (if Zpos m <? 2 ^ 52 then Zpos m else Z.shiftl (e + 1075) 52 + (Zpos m - 2 ^ 52))
  end.

(** The loops that push the low byte and shift. *)
Fixpoint push_le (n : nat) (val : Z) : list byte :=
  match n with
  | O => []
  | S n => byte.of_Z (Z.land val 0xff) :: push_le n (Z.shiftr val 8)
  end.

(** The loops that collect bytes from the low end. *)
Definition read_le (data : list byte) : Z := read_uint_little data 0 0.

Definition tag (z : Z) : byte := byte.of_Z z.

(** [static_cast<int64_t>] is undefined out of range. *)
Definition encode_number (d : spec_float) (bits : Z) : outcome (list byte) :=
  let! as_int := float_cast (- 2 ^ 63) (2 ^ 63 - 1) d in
  Ret (if SFeqb (double_of_Z as_int) d then tag 3 :: push_le 8 as_int else tag 4 :: push_le 8 bits).

Definition encode_string (c : PackConfig) (s : list byte) : string + list byte :=
  if 256 <=? vsize s then
    if max_string_length c <? vsize s then inl "string too long"
    else inr (tag 6 :: push_le 4 (u32 (vsize s)) ++ s)
  else inr (tag 5 :: byte.of_Z (vsize s) :: s).

(** ** Encoder *)

(** What [is<int>] and [as<int>] of sol2 make of a float key: whether floats
    count as integers depends on how sol2 is configured. *)
Class SolKeys := { float_key : Z -> option Z }.

Section Encoder.
Context `{SolKeys}.

(** A key as an [int]. *)
Definition key_int (k : lval) : option Z :=
  match k with VInt z => Some (signed32 z) | VNum bits => float_key bits | _ => None end.

(** The loop that looks for an array: whether it is one so far, the greatest
    index and the entries counted; a key that is no positive index ends it. *)
Fixpoint scan_table (entries : list (lval * lval)) (max_index entry_count : Z) : bool * Z * Z :=
  match entries with
  | [] => (true, max_index, entry_count)
  | (k, _) :: rest =>
      match key_int k with
      | Some index =>
          if index <=? 0 then (false, max_index, entry_count + 1)
          else scan_table rest (Z.max max_index index) (entry_count + 1)
      | None => (false, max_index, entry_count + 1)
      end
  end.

(** Raw equality of keys; a decoded table is a new one. *)
Definition key_eqb (a b : lval) : bool :=
  match a, b with
  | VInt x, VInt y => x =? y
  | VStr x, VStr y => String.eqb (string_of x) (string_of y)
  | VBool x, VBool y => Bool.eqb x y
  | VNum x, VNum y => SFeqb (double_of_bits x) (double_of_bits y)
  | _, _ => false
  end.

Fixpoint table_get (k : lval) (entries : list (lval * lval)) : lval :=
  match entries with
  | [] => VNil
  | (k', v) :: rest => if key_eqb k k' then v else table_get k rest
  end.

(** Encoding several values one after the other. *)
Fixpoint encode_all (f : lval -> outcome (string + list byte)) (l : list lval)
  : outcome (string + list byte) :=
  match l with
  | [] => Ret (inr [])
  | v :: l =>
      let! a := f v in
      match a with
      | inl e => Ret (inl e)
      | inr a => let! b := encode_all f l in Ret (let? b := b in inr (a ++ b))
      end
  end.

Definition is_map_key (k : lval) : bool :=
  match k with VStr _ => true | _ => bool_decide (is_Some (key_int k)) end.

Fixpoint encode_entries (f : lval -> outcome (string + list byte)) (l : list (lval * lval))
  : outcome (string + list byte) :=
  match l with
  | [] => Ret (inr [])
  | (k, v) :: l =>
      if is_map_key k then
        let! a := encode_all f [k; v] in
        match a with
        | inl e => Ret (inl e)
        | inr a => let! b := encode_entries f l in Ret (let? b := b in inr (a ++ b))
        end
      else Ret (inl "map keys must be string or integer")
  end.

Fixpoint encode_value (c : PackConfig) (budget : nat) (v : lval) : outcome (string + list byte) :=
  match budget with
  | O => Ret (inl "max nesting depth exceeded")
  | S budget =>
      match v with
      | VNil => Ret (inr [tag 0])
      | VBool b => Ret (inr [tag (if b then 2 else 1)])
      | VInt z =>
          let d := double_of_Z z in let! l := encode_number d (bits_of_double d) in Ret (inr l)
      | VNum bits => let! l := encode_number (double_of_bits bits) bits in Ret (inr l)
      | VStr s => Ret (encode_string c s)
      | VTable entries =>
          let '(array_like, max_index, entry_count) := scan_table entries 0 0 in
          if array_like && (max_index =? entry_count) && (max_index <=? max_array_length c) then
            let! body := encode_all (encode_value c budget)
                           (map (fun i => table_get (VInt i) entries) (seqZ 1 max_index)) in
            Ret (let? body := body in inr (tag 7 :: push_le 4 (u32 max_index) ++ body))
          else if max_map_entries c <? entry_count then Ret (inl "map has too many entries")
          else
            let! body := encode_entries (encode_value c budget) entries in
            Ret (let? body := body in inr (tag 8 :: push_le 4 (u32 entry_count) ++ body))
      | VHandle id =>
          let! body := encode_value c budget (VStr id) in
          Ret (let? body := body in inr (tag 16 :: body))
      | VOther => Ret (inl "unsupported type for LuaPack encoding")
      end
  end.

(** [depth > max_nesting_depth] fails: depths 0 to the maximum are allowed. *)
Definition encode_pack (c : PackConfig) (v : lval) : outcome (string + list byte) :=
  let! body := encode_value c (S (max_nesting_depth c)) v in
  Ret (let? body := body in inr ([tag 0x4c; tag 0x50; tag 1; tag 0] ++ body)).
End Encoder.

(** ** Decoder *)

(** [t[k] = v]: an integral float key is an integer key, nil removes, and nil
    and NaN keys raise. *)
Definition normal_key (k : lval) : outcome lval :=
  match k with
  | VNil => Throw (StdExn "table index is nil")
  | VNum bits =>
      match double_of_bits bits with
      | S754_nan => Throw (StdExn "table index is NaN")
      | d => match float_cast (- 2 ^ 63) (2 ^ 63 - 1) d with
             | Ret z => Ret (if SFeqb (double_of_Z z) d then VInt z else k)
             | _ => Ret k
             end
      end
  | _ => Ret k
  end.

Fixpoint table_put (k v : lval) (entries : list (lval * lval)) : list (lval * lval) :=
  match entries with
  | [] => [(k, v)]
  | (k', v') :: rest => if key_eqb k k' then (k', v) :: rest else (k', v') :: table_put k v rest
  end.

Definition table_set (k v : lval) (entries : list (lval * lval)) : outcome (list (lval * lval)) :=
  let! k := normal_key k in
  Ret (match v with
       | VNil => List.filter (fun '(k', _) => negb (key_eqb k k')) entries
       | _ => table_put k v entries
       end).

(** The value, or the text left in [error_]; and the bytes consumed. *)
Definition decoded : Type := (string + lval) * Z.
Definition fuel_out : exn := StdExn "fuel".

Section Loops.
Context (decode_value : list byte -> outcome decoded).

Fixpoint decode_elems (fuel : nat) (count i : Z) (data : list byte) (consumed : Z)
    (arr : list (lval * lval)) : outcome decoded :=
  match fuel with
  | O => Throw fuel_out
  | S fuel =>
      if i <? count then
        let! r := decode_value data in
        match r with
        | (inl e, _) => Ret (inl e, consumed)
        | (inr elem, n) =>
            let! arr := table_set (VInt (i + 1)) elem arr in
            decode_elems fuel count (i + 1) (drop (Z.to_nat n) data) (consumed + n) arr
        end
      else Ret (inr (VTable arr), consumed)
  end.

Fixpoint decode_entries (fuel : nat) (count i : Z) (data : list byte) (consumed : Z)
    (tbl : list (lval * lval)) : outcome decoded :=
  match fuel with
  | O => Throw fuel_out
  | S fuel =>
      if i <? count then
        let! r := decode_value data in
        match r with
        | (inl e, _) => Ret (inl e, consumed)
        | (inr key, n) =>
            let data := drop (Z.to_nat n) data in
            let! r := decode_value data in
            match r with
            | (inl e, _) => Ret (inl e, consumed + n)
            | (inr val, n') =>
                let! tbl := table_set key val tbl in
                decode_entries fuel count (i + 1) (drop (Z.to_nat n') data) (consumed + n + n') tbl
            end
        end
      else Ret (inr (VTable tbl), consumed)
  end.
End Loops.

(** [std::string str(data, len)] *)
Definition read_string (data : list byte) (len consumed : Z) : outcome decoded :=
  if vsize data <? len then Undef else Ret (inr (VStr (take (Z.to_nat len) data)), consumed).

(** [stack]: the nested calls for which there is room; one more overflows the
    stack.  A round of a loop takes a byte or ends it. *)
Fixpoint decode_value (stack : nat) (data : list byte) : outcome decoded :=
  match stack with
  | O => Undef
  | S stack =>
      match data with
      | [] => Ret (inl "unexpected end of data", 0)
      | t :: rest =>
          let size := vsize data in
          let t := byte.unsigned t in
          if t =? 0 then Ret (inr VNil, 1)
          else if t =? 1 then Ret (inr (VBool false), 1)
          else if t =? 2 then Ret (inr (VBool true), 1)
          else if t =? 3 then
            if size <? 9 then Ret (inl "truncated integer", 1)
            else Ret (inr (VInt (signed64 (read_le (take 8 rest)))), 9)
          else if t =? 4 then
            if size <? 9 then Ret (inl "truncated number", 1)
            else Ret (inr (VNum (read_le (take 8 rest))), 9)
          else if t =? 5 then
            match rest with
            | [] => Ret (inl "truncated short string", 1)
            | l :: body =>
                let len := byte.unsigned l in
                if size <? 2 + len then Ret (inl "truncated short string data", 1)
                else read_string body len (2 + len)
            end
          else if t =? 6 then
            if size <? 5 then Ret (inl "truncated string length", 1)
            else let len := read_le (take 4 rest) in
                 if size <? u32 (5 + len) then Ret (inl "truncated string data", 1)
                 else read_string (drop 4 rest) len (u32 (5 + len))
          else if t =? 7 then
            if size <? 5 then Ret (inl "truncated array length", 1)
            else decode_elems (decode_value stack) (S (length rest)) (read_le (take 4 rest)) 0 (drop 4 rest) 5 []
          else if t =? 8 then
            if size <? 5 then Ret (inl "truncated map count", 1)
            else decode_entries (decode_value stack) (S (length rest)) (read_le (take 4 rest)) 0 (drop 4 rest) 5 []
          else Ret (inl ("unknown type tag: " +:+ to_string_u64 t), 1)
      end
  end.

(** [decode_value] sets the count of consumed bytes anew, without the header. *)
Definition decode_pack_on (stack : nat) (bytes : list byte) : outcome decoded :=
  match bytes with
  | b0 :: b1 :: b2 :: b3 :: rest =>
      if negb (byte.unsigned b0 =? 0x4c) || negb (byte.unsigned b1 =? 0x50) then
        Ret (inl "invalid LuaPack magic bytes", 0)
      else if negb (byte.unsigned b2 =? 1) then Ret (inl "unsupported LuaPack version", 0)
      else decode_value stack rest
  | _ => Ret (inl "invalid LuaPack header: too short", 0)
  end.

(** On a stack that does not run out. *)
Definition decode_pack (bytes : list byte) : outcome decoded := decode_pack_on (length bytes) bytes.

(** ** Lemmas on numbers *)

Lemma push_le_split n val : push_le n val = le_split n val.
Proof.
  revert val. induction n as [|n IH]; intros val; [done|]. cbn [push_le].
  rewrite IH. unfold le_split; fold le_split. f_equal.
  apply byte.unsigned_inj. rewrite !byte.unsigned_of_Z. unfold byte.wrap.
  change 0xff with (Z.ones 8). rewrite Z.land_ones by lia. by rewrite Z.mod_mod by lia.
Qed.

Lemma push_le_length n val : length (push_le n val) = n.
Proof. by rewrite push_le_split, length_le_split. Qed.

Lemma read_push n val : (n <= 8)%nat -> read_le (push_le n val) = val `mod` 2 ^ (8 * Z.of_nat n).
Proof.
  intros Hn. unfold read_le. rewrite push_le_split, read_uint_little_spec.
  - cbn [Z.mul]. rewrite Z.shiftl_0_r, Z.lor_0_l, le_combine_split. f_equal. f_equal. lia.
  - lia.
  - unfold vsize. rewrite length_le_split. lia.
Qed.

#[local] Opaque push_le.

Lemma signed64_mod z : - 2 ^ 63 <= z < 2 ^ 63 -> signed64 (z `mod` 2 ^ 64) = z.
Proof.
  intros Hz. unfold signed64, cast. rewrite Z.mod_mod by lia.
  destruct (Z.ltb_spec (z `mod` 2 ^ 64) (2 ^ 63)); Z.to_euclidean_division_equations; lia.
Qed.

Lemma SFeqb_refl d : d <> S754_nan -> SFeqb d d = true.
Proof.
  intros Hd. unfold SFeqb, SFcompare. destruct d as [s|s| |s m e]; try destruct s; try done;
    rewrite Z.compare_refl; unfold Pos.compare; by rewrite Pos.compare_cont_refl.
Qed.

(** Reading a fixed-size field written before something else. *)
Lemma take_push n val rest : take n (push_le n val ++ rest) = push_le n val.
Proof. rewrite <- (push_le_length n val) at 1. apply take_app_length. Qed.
Lemma drop_push n val rest : drop n (push_le n val ++ rest) = rest.
Proof. rewrite <- (push_le_length n val) at 1. apply drop_app_length. Qed.

Lemma read_count n rest : 0 <= n < 2 ^ 32 -> read_le (take 4 (push_le 4 (u32 n) ++ rest)) = n.
Proof. intros Hn. rewrite take_push, read_push by lia. cbn. rewrite cast_small by lia. by apply Z.mod_small. Qed.

Lemma drop_vsize {A} (a b : list A) : drop (Z.to_nat (vsize a)) (a ++ b) = b.
Proof. unfold vsize. rewrite Nat2Z.id. apply drop_app_length. Qed.

(** ** Values that survive *)

Section Survival.
Context `{SolKeys}.

(** Keys that no conversion changes. *)
Definition plain_key (k : lval) : bool := match k with VStr _ | VInt _ => true | _ => false end.

(** Arrays are numbered in order. *)
Definition array_entries (start : Z) (vs : list lval) : list (lval * lval) :=
  zip (VInt <$> seqZ start (vsize vs)) vs.

(** The whole table was counted: no key but the last ended the scan. *)
Definition counted_as_map (entries : list (lval * lval)) : Prop :=
  let '(array_like, max_index, entry_count) := scan_table entries 0 0 in
  (array_like && (max_index =? entry_count)) = false /\ entry_count = vsize entries.

(** What the format represents: integers that a double holds exactly, floats
    that are no integers, arrays within the limit, and tables with string or
    integer keys that are counted in full.  A table holds no nil. *)
Inductive representable (c : PackConfig) : lval -> Prop :=
| rep_nil : representable c VNil
| rep_bool b : representable c (VBool b)
| rep_int z : - 2 ^ 63 <= z < 2 ^ 63 -> float_trunc (double_of_Z z) = Some z -> representable c (VInt z)
| rep_num bits z :
    0 <= bits < 2 ^ 64 -> float_cast (- 2 ^ 63) (2 ^ 63 - 1) (double_of_bits bits) = Ret z ->
    SFeqb (double_of_Z z) (double_of_bits bits) = false -> representable c (VNum bits)
| rep_str s : representable c (VStr s)
| rep_array vs :
    vsize vs <= max_array_length c -> Forall (fun v => representable c v /\ v <> VNil) vs ->
    representable c (VTable (array_entries 1 vs))
| rep_map entries :
    counted_as_map entries -> NoDup entries.*1 ->
    Forall (fun e => plain_key e.1 = true /\ representable c e.1 /\ representable c e.2 /\ e.2 <> VNil)
      entries ->
    representable c (VTable entries).

(** ** Lemmas on tables *)

Lemma key_eqb_eq k k' : plain_key k = true -> key_eqb k k' = true -> k = k'.
Proof.
  destruct k, k'; try done; cbn; intros _.
  - by intros ->%Z.eqb_eq.
  - intros E%String.eqb_eq. f_equal. by rewrite <- (bytes_of_string_of s), E, bytes_of_string_of.
Qed.

Lemma table_put_fresh k v t : (forall e, e ∈ t -> key_eqb k e.1 = false) -> table_put k v t = t ++ [(k, v)].
Proof.
  induction t as [|[k' v'] t IH]; intros Hk; cbn [table_put app]; [done|].
  rewrite (Hk (k', v') ltac:(by left) : key_eqb k k' = false). f_equal. apply IH. intros e He. apply Hk. by right.
Qed.

Lemma table_set_fresh k v t :
  plain_key k = true -> v <> VNil -> k ∉ t.*1 -> table_set k v t = Ret (t ++ [(k, v)]).
Proof.
  intros Hk Hv Hn. unfold table_set. destruct k; try done; cbn [normal_key obind];
    (f_equal; rewrite <- table_put_fresh; [by destruct v|]);
    (intros [k' v'] He; destruct (key_eqb _ _) eqn:E; [|done];
     apply key_eqb_eq in E; [|done]; subst; destruct Hn; apply list_elem_of_fmap; by eexists).
Qed.

Lemma array_entries_cons start v vs :
  array_entries start (v :: vs) = (VInt start, v) :: array_entries (start + 1) vs.
Proof.
  unfold array_entries. rewrite vsize_cons, seqZ_cons by (pose proof (vsize_nonneg vs); lia). cbn.
  replace (Z.pred (1 + vsize vs)) with (vsize vs) by lia. by replace (Z.succ start) with (start + 1) by lia.
Qed.

Lemma array_get start vs :
  map (fun i => table_get (VInt i) (array_entries start vs)) (seqZ start (vsize vs)) = vs.
Proof.
  revert start. induction vs as [|v vs IH]; intros start; [done|].
  rewrite array_entries_cons, vsize_cons, seqZ_cons by (pose proof (vsize_nonneg vs); lia).
  replace (Z.pred (1 + vsize vs)) with (vsize vs) by lia. replace (Z.succ start) with (start + 1) by lia.
  cbn [map table_get]. rewrite (proj2 (Z.eqb_eq start start) eq_refl : key_eqb (VInt start) (VInt start) = true).
  f_equal. rewrite <- (IH (start + 1)) at 2. apply map_ext_in. intros i Hi%list_elem_of_In%elem_of_seqZ.
  cbn. by rewrite (proj2 (Z.eqb_neq i start)) by lia.
Qed.

Lemma scan_array start vs m n :
  1 <= start -> start + vsize vs <= 2 ^ 31 -> m = start - 1 -> m = n ->
  scan_table (array_entries start vs) m n = (true, m + vsize vs, n + vsize vs).
Proof.
  revert start m n. induction vs as [|v vs IH]; intros start m n Hs Hb -> <-.
  - cbn. by rewrite (@vsize_nil lval), !Z.add_0_r.
  - rewrite array_entries_cons, vsize_cons in *. pose proof (vsize_nonneg vs). cbn [scan_table key_int].
    assert (E : signed32 start = start).
    { unfold signed32. rewrite cast_small by lia. by rewrite (proj2 (Z.ltb_lt _ _)) by lia. }
    rewrite E, (proj2 (Z.leb_gt _ _)) by lia.
    rewrite (IH (start + 1)); [|lia|lia|lia|lia]. f_equal; [f_equal|]; lia.
Qed.

Lemma array_keys start vs i : VInt i ∈ (array_entries start vs).*1 -> start <= i < start + vsize vs.
Proof.
  revert start. induction vs as [|v vs IH]; intros start; [by intros ?%elem_of_nil|].
  rewrite array_entries_cons, vsize_cons. cbn. pose proof (vsize_nonneg vs).
  intros [[= ->]|Hi]%elem_of_cons; [lia|]. apply IH in Hi. lia.
Qed.

Lemma array_entries_snoc start vs v :
  array_entries start (vs ++ [v]) = array_entries start vs ++ [(VInt (start + vsize vs), v)].
Proof.
  revert start. induction vs as [|w vs IH]; intros start.
  - cbn [app]. rewrite array_entries_cons, (@vsize_nil lval), Z.add_0_r. done.
  - cbn [app]. rewrite !array_entries_cons, IH, vsize_cons. cbn [app]. by rewrite Z.add_assoc.
Qed.

(** ** Round trip *)

Section Roundtrip.
Context (c : PackConfig).
Context (Hstr : max_string_length c < 2 ^ 32 - 5).
Context (Harr : max_array_length c < 2 ^ 31 - 1).
Context (Hmap : max_map_entries c < 2 ^ 32).

(** Decoding on a stack for a call per byte inverts encoding. *)
Definition inverts (f : lval -> outcome (string + list byte)) (v : lval) : Prop :=
  forall bytes, f v = Ret (inr bytes) ->
  1 <= vsize bytes /\
  forall fuel rest, (length bytes <= fuel)%nat ->
  decode_value fuel (bytes ++ rest) = Ret (inr v, vsize bytes).

(** What succeeds in encoding a list encodes its head and its tail. *)
Lemma encode_all_cons f v l bytes :
  encode_all f (v :: l) = Ret (inr bytes) ->
  exists a b, f v = Ret (inr a) /\ encode_all f l = Ret (inr b) /\ bytes = a ++ b.
Proof.
  cbn. intros E%obind_ret_inv. destruct E as ([e|a] & Ea & E); [done|].
  apply obind_ret_inv in E as ([e|b] & Eb & E); cbn in E; simplify_eq. eauto.
Qed.

Lemma encode_entries_cons f k v l bytes :
  encode_entries f ((k, v) :: l) = Ret (inr bytes) ->
  exists a b r, f k = Ret (inr a) /\ f v = Ret (inr b) /\ encode_entries f l = Ret (inr r) /\
                bytes = a ++ b ++ r.
Proof.
  cbn [encode_entries]. case_head; [|done]. intros E'%obind_ret_inv. destruct E' as ([e|ab] & Ea & E'); [done|].
  apply obind_ret_inv in E' as ([e|r] & Er & E'); cbn in E'; simplify_eq.
  apply encode_all_cons in Ea as (a & b & H1 & H2 & ->).
  apply encode_all_cons in H2 as (b' & e & H2 & H3 & ->). cbn in H3. simplify_eq.
  exists a, b', r. rewrite app_nil_r, <- app_assoc. done.
Qed.

Lemma decode_elems_inverts f fuel0 vs done_ body rest consumed fuel :
  Forall (fun v => inverts f v /\ v <> VNil) vs ->
  encode_all f vs = Ret (inr body) -> (length body <= fuel0)%nat -> (length vs < fuel)%nat ->
  decode_elems (decode_value fuel0) fuel (vsize done_ + vsize vs) (vsize done_) (body ++ rest) consumed
    (array_entries 1 done_) = Ret (inr (VTable (array_entries 1 (done_ ++ vs))), consumed + vsize body).
Proof.
  revert done_ body consumed fuel. induction vs as [|v vs IH]; intros done_ body consumed fuel Hvs He Hl Hf.
  - destruct fuel; [cbn in Hf; lia|]. cbn in He. simplify_eq. cbn [decode_elems].
    rewrite (@vsize_nil lval), (proj2 (Z.ltb_ge _ _)), app_nil_r by lia.
    by rewrite (@vsize_nil byte), Z.add_0_r.
  - destruct fuel as [|fuel]; [cbn in Hf; lia|]. apply encode_all_cons in He as (a & b & Ha & Hb & ->).
    apply Forall_cons_iff in Hvs as [[Hv Hnil] Hvs]. destruct (Hv a Ha) as [Hpos Hdec].
    rewrite length_app in Hl. cbn [decode_elems]. rewrite vsize_cons. pose proof (vsize_nonneg vs).
    rewrite (proj2 (Z.ltb_lt _ _)) by lia. rewrite <- app_assoc, Hdec by lia. cbn [obind].
    rewrite table_set_fresh; [|done|done|].
    2: { intros Hk%array_keys. lia. }
    cbn [obind]. rewrite drop_vsize.
    specialize (IH (done_ ++ [v]) b (consumed + vsize a) fuel Hvs Hb ltac:(lia) ltac:(cbn in Hf; lia)).
    rewrite array_entries_snoc, vsize_app, vsize_cons, (@vsize_nil lval) in IH.
    replace (1 + vsize done_) with (vsize done_ + 1) in IH by lia.
    replace (vsize done_ + (1 + vsize vs)) with (vsize done_ + (1 + 0) + vsize vs) by lia.
    replace (vsize done_ + 1) with (vsize done_ + (1 + 0)) in * by lia. rewrite IH.
    rewrite <- app_assoc, vsize_app. cbn [app]. by rewrite Z.add_assoc.
Qed.
Lemma decode_entries_inverts f fuel0 l done_ body rest consumed fuel :
  Forall (fun e => plain_key e.1 = true /\ inverts f e.1 /\ inverts f e.2 /\ e.2 <> VNil) l ->
  NoDup (done_ ++ l).*1 ->
  encode_entries f l = Ret (inr body) -> (length body <= fuel0)%nat -> (length l < fuel)%nat ->
  decode_entries (decode_value fuel0) fuel (vsize done_ + vsize l) (vsize done_) (body ++ rest) consumed
    done_ = Ret (inr (VTable (done_ ++ l)), consumed + vsize body).
Proof.
  revert done_ body consumed fuel.
  induction l as [|[k v] l IH]; intros done_ body consumed fuel Hl Hnd He Hb Hf.
  - destruct fuel; [cbn in Hf; lia|]. cbn in He. simplify_eq. cbn [decode_entries].
    rewrite (@vsize_nil (lval * lval)), (proj2 (Z.ltb_ge _ _)), app_nil_r by lia.
    by rewrite (@vsize_nil byte), Z.add_0_r.
  - destruct fuel as [|fuel]; [cbn in Hf; lia|].
    apply encode_entries_cons in He as (a & b & r & Ha & Hvb & Hr & ->).
    apply Forall_cons_iff in Hl as [(Hkey & Hk & Hv & Hnil) Hl]. cbn [fst snd] in *.
    destruct (Hk a Ha) as [Hpa Hda]. destruct (Hv b Hvb) as [Hpb Hdb].
    rewrite !length_app in Hb. cbn [decode_entries]. rewrite vsize_cons. pose proof (vsize_nonneg l).
    rewrite (proj2 (Z.ltb_lt _ _)) by lia. rewrite <- !app_assoc, Hda by lia. cbn [obind].
    rewrite drop_vsize, Hdb by lia. cbn [obind]. rewrite table_set_fresh; [|done|done|].
    2: { rewrite fmap_app in Hnd. apply list.NoDup_app in Hnd as (_ & Hnd & _). intros Hin.
         apply (Hnd k Hin). cbn. by left. }
    cbn [obind]. rewrite drop_vsize.
    specialize (IH (done_ ++ [(k, v)]) r (consumed + vsize a + vsize b) fuel Hl).
    rewrite <- app_assoc in IH. cbn [app] in IH.
    specialize (IH Hnd Hr ltac:(lia) ltac:(cbn in Hf; lia)).
    rewrite vsize_app, vsize_cons, (@vsize_nil (lval * lval)) in IH.
    replace (vsize done_ + (1 + vsize l)) with (vsize done_ + (1 + 0) + vsize l) by lia.
    replace (vsize done_ + 1) with (vsize done_ + (1 + 0)) by lia. rewrite IH.
    rewrite !vsize_app. do 2 f_equal. lia.
Qed.

(** The tags, decoded. *)
Lemma tag_unsigned z : 0 <= z < 256 -> byte.unsigned (tag z) = z.
Proof. intros Hz. unfold tag. rewrite byte.unsigned_of_Z. unfold byte.wrap. by apply Z.mod_small. Qed.

(** Take one step of the decoder at a known tag. *)
Ltac decode_tag :=
  match goal with
  | |- decode_value ?fuel ((tag ?t :: _) ++ _) = _ =>
      destruct fuel as [|fuel]; [cbn [length] in *; lia|]; cbn [app decode_value];
      rewrite (tag_unsigned t) by lia; cbn [Z.eqb Pos.eqb]
  end.

Lemma encode_number_whole z d bits :
  - 2 ^ 63 <= z < 2 ^ 63 -> float_trunc d = Some z -> d = double_of_Z z ->
  encode_number d bits = Ret (tag 3 :: push_le 8 z).
Proof.
  intros Hz Ht Hd. unfold encode_number, float_cast. rewrite Ht.
  rewrite (proj2 (Z.leb_le _ _)), (proj2 (Z.leb_le _ _)) by lia. cbn [andb obind]. f_equal.
  rewrite <- Hd, SFeqb_refl; [done|]. intros ->. done.
Qed.

(** A tag and eight bytes. *)
Lemma word_size t z rest : (vsize (tag t :: push_le 8 z ++ rest) <? 9) = false.
Proof.
  apply Z.ltb_ge. rewrite vsize_cons, vsize_app. unfold vsize at 1. rewrite push_le_length.
  pose proof (vsize_nonneg rest). lia.
Qed.

Lemma int_inverts z : - 2 ^ 63 <= z < 2 ^ 63 -> inverts (fun _ => Ret (inr (tag 3 :: push_le 8 z))) (VInt z).
Proof.
  intros Hz bytes [= <-]. split; [by rewrite vsize_cons|]. intros fuel rest Hl. decode_tag.
  rewrite word_size, take_push, read_push by lia. change (8 * Z.of_nat 8) with 64. rewrite (signed64_mod z) by lia.
  rewrite vsize_cons. unfold vsize. by rewrite push_le_length.
Qed.

Lemma num_inverts z : 0 <= z < 2 ^ 64 -> inverts (fun _ => Ret (inr (tag 4 :: push_le 8 z))) (VNum z).
Proof.
  intros Hz bytes [= <-]. split; [by rewrite vsize_cons|]. intros fuel rest Hl. decode_tag.
  rewrite word_size, take_push, read_push by lia. change (8 * Z.of_nat 8) with 64.
  rewrite (Z.mod_small z) by lia. rewrite vsize_cons. unfold vsize. by rewrite push_le_length.
Qed.

Lemma read_string_app s rest n : read_string (s ++ rest) (vsize s) n = Ret (inr (VStr s), n).
Proof.
  unfold read_string. pose proof (vsize_nonneg rest). rewrite vsize_app, (proj2 (Z.ltb_ge _ _)) by lia.
  unfold vsize. by rewrite Nat2Z.id, take_app_length.
Qed.

Lemma string_inverts s : inverts (fun _ => Ret (encode_string c s)) (VStr s).
Proof.
  intros bytes. unfold encode_string. pose proof (vsize_nonneg s) as Hn.
  destruct (Z.leb_spec 256 (vsize s)) as [Hlong|Hshort].
  - destruct (Z.ltb_spec (max_string_length c) (vsize s)) as [|Hmax]; [done|]. intros [= <-].
    split; [rewrite vsize_cons, vsize_app; pose proof (vsize_nonneg (push_le 4 (u32 (vsize s)))); lia|].
    intros fuel rest Hl. decode_tag. rewrite <- app_assoc, read_count by lia.
    rewrite (cast_small 32 (5 + vsize s)) by lia. rewrite vsize_cons, !vsize_app.
    assert (E4 : vsize (push_le 4 (u32 (vsize s))) = 4) by (unfold vsize; by rewrite push_le_length).
    rewrite E4. pose proof (vsize_nonneg rest). rewrite !(proj2 (Z.ltb_ge _ _)) by lia.
    rewrite drop_push, read_string_app, vsize_cons, vsize_app, E4. do 2 f_equal. lia.
  - intros [= <-]. split; [rewrite !vsize_cons; lia|]. intros fuel rest Hl. decode_tag.
    rewrite (tag_unsigned (vsize s) ltac:(lia) : byte.unsigned (byte.of_Z (vsize s)) = vsize s).
    rewrite !vsize_cons, vsize_app. pose proof (vsize_nonneg rest). rewrite (proj2 (Z.ltb_ge _ _)) by lia.
    rewrite read_string_app. do 2 f_equal. lia.
Qed.

(** A tag and a count before a body. *)
Lemma counted_size t n (body rest : list byte) :
  (vsize (tag t :: push_le 4 n ++ body ++ rest) <? 5) = false /\
  vsize (tag t :: push_le 4 n ++ body) = 5 + vsize body.
Proof.
  assert (E4 : vsize (push_le 4 n) = 4) by (unfold vsize; by rewrite push_le_length).
  rewrite !vsize_cons, !vsize_app, E4. pose proof (vsize_nonneg rest). pose proof (vsize_nonneg body). split; [apply Z.ltb_ge|]; lia.
Qed.

Lemma encode_all_length f vs body :
  Forall (inverts f) vs -> encode_all f vs = Ret (inr body) -> (length vs <= length body)%nat.
Proof.
  revert body. induction vs as [|v vs IH]; intros body Hv He; cbn; [lia|].
  apply encode_all_cons in He as (a & b & Ha & Hb & ->). apply Forall_cons_iff in Hv as [Hv Hvs].
  destruct (Hv a Ha) as [Hp _]. specialize (IH b Hvs Hb). rewrite length_app. unfold vsize in Hp. lia.
Qed.

Lemma encode_entries_length f l body :
  Forall (fun e => inverts f e.1) l -> encode_entries f l = Ret (inr body) -> (length l <= length body)%nat.
Proof.
  revert body. induction l as [|[k v] l IH]; intros body Hv He; cbn; [lia|].
  apply encode_entries_cons in He as (a & b & r & Ha & Hb & Hr & ->). apply Forall_cons_iff in Hv as [Hv Hvs].
  destruct (Hv a Ha) as [Hp _]. specialize (IH r Hvs Hr). rewrite !length_app. unfold vsize in Hp. lia.
Qed.

Lemma array_inverts f vs body :
  vsize vs < 2 ^ 32 -> Forall (fun v => inverts f v /\ v <> VNil) vs -> encode_all f vs = Ret (inr body) ->
  inverts (fun _ => Ret (inr (tag 7 :: push_le 4 (u32 (vsize vs)) ++ body))) (VTable (array_entries 1 vs)).
Proof.
  intros Hn Hvs He bytes [= <-]. destruct (counted_size 7 (u32 (vsize vs)) body []) as [_ Hsz].
  rewrite Hsz. pose proof (vsize_nonneg body). split; [lia|]. intros fuel rest Hl. decode_tag.
  rewrite <- app_assoc, (proj1 (counted_size 7 (u32 (vsize vs)) body rest)).
  rewrite read_count, drop_push by (pose proof (vsize_nonneg vs); lia).
  rewrite length_cons, length_app, push_le_length in Hl.
  assert (Hlen : (length vs <= length body)%nat).
  { apply (encode_all_length f); [|done]. eapply Forall_impl; [|exact Hvs]. naive_solver. }
  refine (decode_elems_inverts f fuel vs [] body rest 5 _ Hvs He ltac:(lia) _). rewrite !length_app. lia.
Qed.

Lemma map_inverts f l body :
  vsize l < 2 ^ 32 -> NoDup l.*1 ->
  Forall (fun e => plain_key e.1 = true /\ inverts f e.1 /\ inverts f e.2 /\ e.2 <> VNil) l ->
  encode_entries f l = Ret (inr body) ->
  inverts (fun _ => Ret (inr (tag 8 :: push_le 4 (u32 (vsize l)) ++ body))) (VTable l).
Proof.
  intros Hn Hnd Hvs He bytes [= <-]. destruct (counted_size 8 (u32 (vsize l)) body []) as [_ Hsz].
  rewrite Hsz. pose proof (vsize_nonneg body). split; [lia|]. intros fuel rest Hl. decode_tag.
  rewrite <- app_assoc, (proj1 (counted_size 8 (u32 (vsize l)) body rest)).
  rewrite read_count, drop_push by (pose proof (vsize_nonneg l); lia).
  rewrite length_cons, length_app, push_le_length in Hl.
  assert (Hlen : (length l <= length body)%nat).
  { apply (encode_entries_length f); [|done]. eapply Forall_impl; [|exact Hvs]. naive_solver. }
  refine (decode_entries_inverts f fuel l [] body rest 5 _ Hvs Hnd He ltac:(lia) _). rewrite !length_app. lia.
Qed.

Lemma encode_value_inverts b v : representable c v -> inverts (encode_value c b) v.
Proof.
  revert v. induction b as [|b IH]; intros v Hv; [intros bytes [=]|].
  destruct Hv as [|x|z Hz Ht|bits z Hb Hc Hne|s|vs Hlen Hvs|l Hcnt Hnd Hl]; cbn [encode_value].
  - intros bytes [= <-]. split; [done|]. intros fuel rest Hf. by decode_tag.
  - intros bytes [= <-]. split; [done|]. intros fuel rest Hf. destruct x; by decode_tag.
  - intros bytes. cbn zeta. rewrite (encode_number_whole z) by done. cbn [obind]. by apply (int_inverts z Hz).
  - intros bytes. unfold encode_number. rewrite Hc. cbn [obind]. rewrite Hne. by apply (num_inverts bits Hb).
  - apply string_inverts.
  - intros bytes. pose proof (vsize_nonneg vs).
    rewrite (scan_array 1 vs 0 0) by lia. rewrite Z.add_0_l, Z.eqb_refl, (proj2 (Z.leb_le _ _)), array_get by lia.
    cbn [andb]. intros E%obind_ret_inv. destruct E as ([e|body] & He & E); cbn in E; [done|].
    refine (array_inverts (encode_value c b) vs body _ _ He bytes E); [lia|].
    eapply Forall_impl; [|exact Hvs]. naive_solver.
  - intros bytes. unfold counted_as_map in Hcnt. destruct (scan_table l 0 0) as [[al mi] ec].
    destruct Hcnt as [E1 ->]. rewrite E1. cbn [andb]. pose proof (vsize_nonneg l).
    destruct (Z.ltb_spec (max_map_entries c) (vsize l)); [done|].
    intros E%obind_ret_inv. destruct E as ([e|body] & He & E); cbn in E; [done|].
    refine (map_inverts (encode_value c b) l body _ Hnd _ He bytes E); [lia|].
    eapply Forall_impl; [|exact Hl]. naive_solver.
Qed.
End Roundtrip.
End Survival.

(** ** Termination *)

(** Somewhere after the tag of a long string there is a length so great that
    adding the five bytes before the text wraps. *)
Fixpoint wrapped_length (data : list byte) : bool :=
  match data with
  | [] => false
  | t :: rest => (byte.unsigned t =? 6) && (2 ^ 32 - 5 <=? read_le (take 4 rest)) || wrapped_length rest
  end.

Lemma wrapped_drop n data : wrapped_length (drop n data) = true -> wrapped_length data = true.
Proof.
  revert n. induction data as [|t rest IH]; intros [|n]; cbn [drop wrapped_length]; try done.
  intros Hw%IH. by rewrite Hw, orb_true_r.
Qed.

(** How a run on [size] bytes may end: with a value of at least a byte or an error,
    inside the buffer; with the error that Lua raises for a key that is nil or no
    number; and undefined only if [wrapped].  It never runs out of rounds. *)
Definition within (wrapped : bool) (size : Z) (r : outcome decoded) : Prop :=
  match r with
  | Ret (inr _, n) => 1 <= n <= size
  | Ret (inl _, n) => 0 <= n <= size
  | Throw e => e = StdExn "table index is nil" \/ e = StdExn "table index is NaN"
  | Undef => wrapped = true
  end.

Lemma table_set_within k v t :
  match table_set k v t with
  | Ret _ => True
  | Throw e => e = StdExn "table index is nil" \/ e = StdExn "table index is NaN"
  | Undef => False
  end.
Proof.
  assert (Hk : match normal_key k with
               | Ret _ => True
               | Throw e => e = StdExn "table index is nil" \/ e = StdExn "table index is NaN"
               | Undef => False
               end).
  { unfold normal_key. generalize (float_cast (- 2 ^ 63) (2 ^ 63 - 1)), double_of_bits. intros f g.
    destruct k as [|b|z|bits|s|l|id|]; try exact I; [by left|].
    destruct (g bits) as [b|b| |b m e]; [destruct (f _)|destruct (f _)|by right|destruct (f _)]; exact I. }
  unfold table_set. destruct (normal_key k); [exact I|exact Hk|exact Hk].
Qed.

Lemma vsize_drop (n : Z) (data : list byte) : 0 <= n <= vsize data -> vsize (drop (Z.to_nat n) data) = vsize data - n.
Proof. unfold vsize. intros ?. rewrite length_drop. lia. Qed.

Section Total.
Context (dec : list byte -> outcome decoded) (limit : Z).
Context (Hdec : forall data, vsize data <= limit -> within (wrapped_length data) (vsize data) (dec data)).

Lemma decode_elems_within w fuel count i data consumed arr size :
  vsize data <= limit -> vsize data < Z.of_nat fuel -> 1 <= consumed -> consumed + vsize data = size ->
  (wrapped_length data = true -> w = true) ->
  within w size (decode_elems dec fuel count i data consumed arr).
Proof.
  revert i data consumed arr. induction fuel as [|fuel IH]; intros i data consumed arr Hl Hf Hc Hs Hw;
    pose proof (vsize_nonneg data); [lia|]. cbn [decode_elems]. destruct (i <? count); [|cbn; lia].
  pose proof (Hdec data Hl) as Hd. destruct (dec data) as [[[e|v] n]|e|]; cbn [within obind] in *; [lia| |exact Hd|by apply Hw].
  pose proof (table_set_within (VInt (i + 1)) v arr) as Ht.
  destruct (table_set _ v arr) as [arr'|e|]; cbn [within obind]; [|exact Ht|done].
  apply IH; rewrite ?vsize_drop; try lia. intros Hx%wrapped_drop. by apply Hw.
Qed.

Lemma decode_entries_within w fuel count i data consumed tbl size :
  vsize data <= limit -> vsize data < Z.of_nat fuel -> 1 <= consumed -> consumed + vsize data = size ->
  (wrapped_length data = true -> w = true) ->
  within w size (decode_entries dec fuel count i data consumed tbl).
Proof.
  revert i data consumed tbl. induction fuel as [|fuel IH]; intros i data consumed tbl Hl Hf Hc Hs Hw;
    pose proof (vsize_nonneg data); [lia|]. cbn [decode_entries]. destruct (i <? count); [|cbn; lia].
  pose proof (Hdec data Hl) as Hd. destruct (dec data) as [[[e|k] n]|e|]; cbn [within obind] in *; [lia| |exact Hd|by apply Hw].
  pose proof (vsize_drop n data ltac:(lia)) as En.
  pose proof (Hdec (drop (Z.to_nat n) data) ltac:(lia)) as Hd'.
  destruct (dec (drop _ data)) as [[[e|v] n']|e|]; cbn [within obind] in *; [lia| |exact Hd'|by eapply Hw, wrapped_drop].
  pose proof (table_set_within k v tbl) as Ht.
  destruct (table_set k v tbl) as [tbl'|e|]; cbn [within obind]; [|exact Ht|done].
  apply IH; rewrite ?vsize_drop; try lia. intros Hx%wrapped_drop%wrapped_drop. by apply Hw.
Qed.

(** The loops only ask for what lies behind where they are. *)
Context (dec' : list byte -> outcome decoded).
Context (Hsame : forall data, vsize data <= limit -> dec data = dec' data).

Lemma vsize_drop_le n (data : list byte) : vsize (drop n data) <= vsize data.
Proof. unfold vsize. rewrite length_drop. lia. Qed.

Lemma decode_elems_same fuel count i data consumed arr :
  vsize data <= limit ->
  decode_elems dec fuel count i data consumed arr = decode_elems dec' fuel count i data consumed arr.
Proof.
  revert i data consumed arr. induction fuel as [|fuel IH]; intros i data consumed arr Hl; [done|]. cbn [decode_elems].
  destruct (i <? count); [|done]. rewrite <- (Hsame data Hl). destruct (dec data) as [[[e|v] n]|e|]; cbn [obind]; try done.
  destruct (table_set _ v arr) as [arr'|e|]; cbn [obind]; try done. apply IH.
  pose proof (vsize_drop_le (Z.to_nat n) data). lia.
Qed.

Lemma decode_entries_same fuel count i data consumed tbl :
  vsize data <= limit ->
  decode_entries dec fuel count i data consumed tbl = decode_entries dec' fuel count i data consumed tbl.
Proof.
  revert i data consumed tbl. induction fuel as [|fuel IH]; intros i data consumed tbl Hl; [done|]. cbn [decode_entries].
  destruct (i <? count); [|done]. rewrite <- (Hsame data Hl). destruct (dec data) as [[[e|k] n]|e|]; cbn [obind]; try done.
  pose proof (vsize_drop_le (Z.to_nat n) data). rewrite <- Hsame by lia.
  destruct (dec (drop _ data)) as [[[e|v] n']|e|]; cbn [obind]; try done.
  destruct (table_set k v tbl) as [tbl'|e|]; cbn [obind]; try done. apply IH.
  pose proof (vsize_drop_le (Z.to_nat n') (drop (Z.to_nat n) data)). lia.
Qed.
End Total.

Lemma read_string_within w data len n size :
  1 <= n <= size -> len <= vsize data -> within w size (read_string data len n).
Proof. unfold read_string. intros Hn Hl. by rewrite (proj2 (Z.ltb_ge _ _)). Qed.

Lemma read_le_range data : (length data <= 4)%nat -> 0 <= read_le data < 2 ^ 32.
Proof.
  intros Hl. unfold read_le. rewrite read_uint_little_spec by (unfold vsize; lia).
  cbn [Z.mul]. rewrite Z.shiftl_0_r, Z.lor_0_l. pose proof (le_combine_bound data).
  assert (2 ^ (8 * Z.of_nat (length data)) <= 2 ^ 32) by (apply Z.pow_le_mono_r; lia). lia.
Qed.

Lemma read_string_wraps w data len :
  0 <= len < 2 ^ 32 -> vsize data + 5 < 2 ^ 32 -> u32 (5 + len) <= 5 + vsize data ->
  (2 ^ 32 - 5 <= len -> w = true) ->
  within w (5 + vsize data) (read_string data len (u32 (5 + len))).
Proof.
  intros Hl Hs Hu Hw. destruct (Z.le_gt_cases (2 ^ 32 - 5) len) as [Hlen|Hlen].
  - unfold read_string. rewrite (proj2 (Z.ltb_lt _ _)) by lia. by apply Hw.
  - rewrite cast_small in * by lia. apply read_string_within; lia.
Qed.

(** A value or a level of nesting is five bytes further, so that a stack for a call
    per five bytes is enough. *)
Lemma decode_value_within stack data :
  vsize data / 5 < Z.of_nat stack -> vsize data < 2 ^ 32 ->
  within (wrapped_length data) (vsize data) (decode_value stack data).
Proof.
  revert data. induction stack as [|stack IH]; intros data Hf Hs; pose proof (vsize_nonneg data).
  { pose proof (Z.div_pos (vsize data) 5). lia. }
  destruct data as [|t rest]; [cbn; lia|]. rewrite vsize_cons in *. pose proof (vsize_nonneg rest).
  cbn [decode_value]. rewrite vsize_cons. set (w := wrapped_length (t :: rest)).
  assert (Hone : forall e, within w (1 + vsize rest) (Ret (inl e, 1))) by (intros e; cbn; lia).
  assert (Hlen : (length (take 4 rest) <= 4)%nat) by (rewrite length_take; lia).
  assert (H4 : 0 <= read_le (take 4 rest) < 2 ^ 32) by (by apply read_le_range).
  assert (Hdrop : 4 <= vsize rest -> vsize (drop 4 rest) = vsize rest - 4) by (intros ?; apply (vsize_drop 4); lia).
  assert (Hin : forall n, wrapped_length (drop n rest) = true -> w = true)
    by (intros n; apply (wrapped_drop (S n) (t :: rest))).
  assert (Hw : byte.unsigned t = 6 -> 2 ^ 32 - 5 <= read_le (take 4 rest) -> w = true).
  { intros Ht Hr. unfold w. cbn [wrapped_length]. by rewrite Ht, (proj2 (Z.leb_le _ _) Hr). }
  assert (Hnest : 5 <= 1 + vsize rest -> forall data, vsize data <= vsize rest - 4 ->
    within (wrapped_length data) (vsize data) (decode_value stack data)).
  { intros H5 d Hd. apply IH; [|lia]. Z.to_euclidean_division_equations; lia. }
  repeat match goal with |- within _ _ (if (byte.unsigned t =? ?k) then _ else _) => destruct (Z.eqb_spec (byte.unsigned t) k) end;
    try (cbn; lia); try apply Hone.
  - destruct (Z.ltb_spec (1 + vsize rest) 9); [apply Hone|cbn; lia].
  - destruct (Z.ltb_spec (1 + vsize rest) 9); [apply Hone|cbn; lia].
  - destruct rest as [|l body]; [apply Hone|].
    destruct (Z.ltb_spec (1 + vsize (l :: body)) (2 + byte.unsigned l)); [apply Hone|].
    pose proof (byte.unsigned_range l). rewrite vsize_cons in *. apply read_string_within; lia.
  - destruct (Z.ltb_spec (1 + vsize rest) 5); [apply Hone|].
    destruct (Z.ltb_spec (1 + vsize rest) (u32 (5 + read_le (take 4 rest)))); [apply Hone|].
    replace (1 + vsize rest) with (5 + vsize (drop 4 rest)) in * by lia. apply read_string_wraps; try lia. auto.
  - destruct (Z.ltb_spec (1 + vsize rest) 5); [apply Hone|].
    apply (decode_elems_within _ (vsize rest - 4)); [by apply Hnest|try (unfold vsize in *; lia)..|by apply Hin].
  - destruct (Z.ltb_spec (1 + vsize rest) 5); [apply Hone|].
    apply (decode_entries_within _ (vsize rest - 4)); [by apply Hnest|try (unfold vsize in *; lia)..|by apply Hin].
Qed.

Lemma decode_value_stack n : forall m data,
  vsize data / 5 < Z.of_nat n -> vsize data / 5 < Z.of_nat m -> decode_value n data = decode_value m data.
Proof.
  induction n as [|n IH]; intros [|m] data Hn Hm; pose proof (vsize_nonneg data);
    try (pose proof (Z.div_pos (vsize data) 5); lia).
  destruct data as [|t rest]; [done|]. rewrite vsize_cons in Hn, Hm. cbn [decode_value]. rewrite !vsize_cons.
  assert (Hdrop : 4 <= vsize rest -> vsize (drop 4 rest) = vsize rest - 4) by (intros ?; apply (vsize_drop 4); lia).
  assert (Hnest : 5 <= 1 + vsize rest -> forall data, vsize data <= vsize rest - 4 -> decode_value n data = decode_value m data).
  { intros H5 d Hd. apply IH; Z.to_euclidean_division_equations; lia. }
  repeat match goal with |- (if ?b then _ else _) = _ => destruct b eqn:?; try done end;
    match goal with E : (1 + vsize rest <? 5) = false |- _ => apply Z.ltb_ge in E end.
  - apply (decode_elems_same _ (vsize rest - 4)); [by apply Hnest|lia].
  - apply (decode_entries_same _ (vsize rest - 4)); [by apply Hnest|lia].
Qed.

(** Arrays of one element inside one another, the innermost of which is cut off. *)
Definition nested (n : nat) : list byte := map byte.of_Z (concat (replicate n [7; 1; 0; 0; 0])).

Lemma nested_overflows n : decode_value n (nested n) = Undef.
Proof.
  induction n as [|n IH]; [done|]. unfold nested in *. cbn [replicate concat]. rewrite map_app.
  set (l := map byte.of_Z (concat (replicate n [7; 1; 0; 0; 0]))) in *. clearbody l.
  cbn [map app decode_value]. change (byte.unsigned (byte.of_Z 7)) with 7. cbn [Z.eqb Pos.eqb].
  rewrite !vsize_cons, (proj2 (Z.ltb_ge _ _)) by (pose proof (vsize_nonneg l); lia).
  cbn [take drop]. change (take 0 l) with (@nil byte); change (read_le [byte.of_Z 1; byte.of_Z 0; byte.of_Z 0; byte.of_Z 0]) with 1. change (drop 0 l) with l. cbn [length decode_elems]. change (0 <? 1) with true. cbn iota. by rewrite IH.
Qed.

(** ** Properties *)

(** C18: a representable value that the encoder accepts is decoded to itself
    from its bytes, whatever follows them; and nothing else is consumed.  The limits are assumed to fit the 32-bit counts of
    the format, which the default ones do. *)
Theorem luapack_roundtrip `{SolKeys} c v bytes rest :
  max_string_length c < 2 ^ 32 - 5 -> max_array_length c < 2 ^ 31 - 1 -> max_map_entries c < 2 ^ 32 ->
  representable c v -> encode_pack c v = Ret (inr bytes) ->
  decode_pack (bytes ++ rest) = Ret (inr v, vsize bytes - 4).
Proof.
  intros Hs Ha Hm Hv He. unfold encode_pack in He. apply obind_ret_inv in He as ([e|body] & He & E); [done|].
  cbn in E. simplify_eq. destruct (encode_value_inverts c Hs Ha Hm _ v Hv body He) as [_ Hd].
  unfold decode_pack. cbn [app decode_pack_on length]. rewrite !tag_unsigned by lia. cbn [Z.eqb Pos.eqb negb orb].
  rewrite Hd by (rewrite length_app; lia). do 2 f_equal. rewrite !vsize_cons. lia.
Qed.

(** Floats are no integers, as with the precision checks of sol2. *)
#[local] Instance exact_keys : SolKeys := {| float_key _ := None |}.

(** A record with a nested array, a string and a negative number. *)
Definition sample_value : lval :=
  VTable [(VStr (bytes_of "tags"),
           VTable (array_entries 1 [VStr (bytes_of "a"); VInt (-5); VNum (Z.shiftl 0x3ff8 48); VBool true]))].

Lemma sample_representable : representable default_pack sample_value.
Proof.
  apply rep_map; [by vm_compute|apply NoDup_singleton|].
  apply Forall_cons_iff. split; [|by constructor]. cbn [fst snd]. repeat split; try done; [apply rep_str|].
  apply rep_array; [vm_compute; by intros|]. rewrite !Forall_cons_iff. repeat split; try done.
  - apply rep_str.
  - apply rep_int; [lia|]. by vm_compute.
  - apply (rep_num _ _ 1); [by vm_compute|by vm_compute|by vm_compute].
  - apply rep_bool.
Qed.

Lemma luapack_roundtrip_witness : exists bytes,
  encode_pack default_pack sample_value = Ret (inr bytes) /\
  decode_pack (bytes ++ bytes_of "more") = Ret (inr sample_value, vsize bytes - 4).
Proof.
  eexists. split; [vm_compute; reflexivity|].
  refine (luapack_roundtrip default_pack sample_value _ _ _ _ _ sample_representable _);
    [by vm_compute..|]. vm_compute. reflexivity.
Defined.

(** C19: decoding ends.  On a buffer shorter than four gigabytes, however deep the
    nesting and whatever the counts in it say, a stack with room for one nested
    call per five bytes is enough; and unless the buffer holds a long string's
    length that wraps when it is checked, the decoder returns a value or an error
    inside of the buffer, or Lua raises the error for a key that is nil or NaN. *)
Theorem decode_terminates bytes stack :
  vsize bytes < 2 ^ 32 -> vsize bytes / 5 < Z.of_nat stack ->
  decode_pack_on stack bytes = decode_pack bytes /\
  within (wrapped_length bytes) (vsize bytes) (decode_pack_on stack bytes).
Proof.
  intros Hs Hst. pose proof (vsize_nonneg bytes). unfold decode_pack.
  destruct bytes as [|b0 [|b1 [|b2 [|b3 rest]]]]; try (split; [done|cbn; lia]).
  cbn [decode_pack_on]. do 2 (case_head; [split; [done|cbn; lia]|]). rewrite !vsize_cons in *.
  assert (Hd : vsize rest / 5 < Z.of_nat stack) by (pose proof (vsize_nonneg rest); Z.to_euclidean_division_equations; lia).
  split.
  - apply decode_value_stack; [done|]. pose proof (vsize_nonneg rest). cbn [length].
    unfold vsize in *. Z.to_euclidean_division_equations; lia.
  - pose proof (decode_value_within stack rest Hd ltac:(lia)) as Hw. pose proof (wrapped_drop 4 (b0 :: b1 :: b2 :: b3 :: rest)) as Hx.
    cbn [drop] in Hx. destruct (decode_value stack rest) as [[[e|v] n]|e|]; cbn [within] in *; [lia|lia|exact Hw|by apply Hx].
Qed.

Lemma decode_terminates_witness :
  within false 11 (decode_pack_on 3 (map byte.of_Z [0x4c; 0x50; 1; 0; 7; 0xff; 0xff; 0xff; 0xff; 8; 1])) /\
  decode_pack_on 3 (map byte.of_Z [0x4c; 0x50; 1; 0; 7; 0xff; 0xff; 0xff; 0xff; 8; 1]) = Ret (inl "truncated map count", 5).
Proof.
  destruct (decode_terminates (map byte.of_Z [0x4c; 0x50; 1; 0; 7; 0xff; 0xff; 0xff; 0xff; 8; 1]) 3) as [E Hw];
    [by vm_compute|by vm_compute|]. split; [exact Hw|]. rewrite E. vm_compute. reflexivity.
Defined.

(** ** What the format does not keep *)

Definition repack (v : lval) : outcome decoded :=
  let! e := encode_pack default_pack v in
  match e with inr bytes => decode_pack bytes | inl m => Ret (inl m, 0) end.

(** The count of a map is taken by the loop that looks for an array, which stops
    at the first string key: all entries are written but one is counted. *)
Example map_entries_lost :
  repack (VTable [(VStr (bytes_of "hp"), VInt 10); (VStr (bytes_of "mp"), VInt 20)]) =
  Ret (inr (VTable [(VStr (bytes_of "hp"), VInt 10)]), 18).
Proof. vm_compute. reflexivity. Qed.

(** What is written behind the miscounted map is taken for the next element. *)
Example map_miscount_shifts :
  let unit_ := VTable [(VStr (bytes_of "hp"), VInt 10); (VStr (bytes_of "mp"), VInt 20)] in
  repack (VTable (array_entries 1 [unit_; VBool true])) =
  Ret (inr (VTable (array_entries 1 [VTable [(VStr (bytes_of "hp"), VInt 10)]; VStr (bytes_of "mp")])), 27).
Proof. vm_compute. reflexivity. Qed.

(** An integer goes through a double. *)
Example integer_rounded : repack (VInt (2 ^ 53 + 1)) = Ret (inr (VInt (2 ^ 53)), 9).
Proof. vm_compute. reflexivity. Qed.

(** An integral float comes back as an integer. *)
Example integral_float_retyped : repack (VNum (Z.shiftl 0x3ff0 48)) = Ret (inr (VInt 1), 9).
Proof. vm_compute. reflexivity. Qed.

(** Converting infinity to an integer is undefined. *)
Example infinity_undefined : encode_pack default_pack (VNum (Z.shiftl 0x7ff0 48)) = Undef.
Proof. vm_compute. reflexivity. Qed.

(** The decoder does not know the tag of a service handle. *)
Example handle_not_decoded : repack (VHandle (bytes_of "svc")) = Ret (inl "unknown type tag: 16", 1).
Proof. vm_compute. reflexivity. Qed.

(** Less room than that overflows the stack: arrays inside arrays take a call for
    every five bytes, which nothing limits. *)
Lemma deep_nesting_overflows n :
  let bytes := map byte.of_Z [0x4c; 0x50; 1; 0] ++ nested n in
  vsize bytes / 5 = Z.of_nat n /\ decode_pack_on n bytes = Undef.
Proof.
  cbn zeta. split.
  - assert (E : vsize (nested n) = 5 * Z.of_nat n).
    { induction n as [|n IH]; [done|]. unfold nested in *. cbn [replicate concat]. rewrite map_app, vsize_app, IH. change (vsize (map byte.of_Z [7; 1; 0; 0; 0])) with 5. lia. }
    rewrite vsize_app, E. change (vsize (map byte.of_Z [0x4c; 0x50; 1; 0])) with 4. Z.to_euclidean_division_equations; lia.
  - apply nested_overflows.
Qed.

(** The length check of a long string wraps: a string longer than the buffer is
    read. *)
Example long_string_overreads :
  decode_pack (map byte.of_Z [0x4c; 0x50; 1; 0; 6; 0xff; 0xff; 0xff; 0xff]) = Undef.
Proof. vm_compute. reflexivity. Qed.
