(* ===== verification/LuaJson.v ===== *)
(** * LuaJson: Lua values as JSON and back (src/lua/lua_runtime.cpp, src/lua/lua_api.cpp)

    Messages between services, arguments and results cross from one VM to
    another as JSON: [lua_to_json] on one side, [json_to_lua] on the other.  Lua
    values are those of [LuaPack].  [lua_to_json] has no limit on nesting; it
    recurses on the height of the value. *)

From Stdlib Require Import Floats.SpecFloat Sorting.Sorted.
From S2P Require Import Prelude Text Json Schema LuaPack.

(** ** From Lua *)

(** The greatest number of tables inside one another. *)
Fixpoint height (v : lval) : nat :=
  match v with
  | VTable entries =>
      S ((fix go (l : list (lval * lval)) : nat :=
            match l with [] => O | (_, x) :: l => Nat.max (height x) (go l) end) entries)
  | _ => O
  end.

(** [*out] and what is returned. *)
Definition converted : Type := json * bool.

Definition unsupported : converted := (JStr "<unsupported>", false).

Definition number_to_json (d : spec_float) : outcome converted :=
  let! as_int := float_cast (- 2 ^ 63) (2 ^ 63 - 1) d in
  Ret (if SFeqb (double_of_Z as_int) d then JInt as_int else JFloat d, true).

Section FromLua.
Context `{SolKeys}.

Section Items.
Context (f : lval -> outcome converted).

(** The elements of an array; [None] when one is not supported. *)
Fixpoint items_to_json (l : list lval) : outcome (option (list json)) :=
  match l with
  | [] => Ret (Some [])
  | v :: l =>
      let! r := f v in
      if r.2 : bool then let! rest := items_to_json l in Ret (cons r.1 <$> rest) else Ret None
  end.

(** The name of a member; other keys are skipped. *)
Definition member_key (k : lval) : option string :=
  match k with
  | VStr s => Some (string_of s)
  | _ => to_string_i64 <$> key_int k
  end.

Fixpoint members_to_json (l : list (lval * lval)) (object : list (string * json))
  : outcome (option (list (string * json))) :=
  match l with
  | [] => Ret (Some object)
  | (k, v) :: l =>
      match member_key k with
      | None => members_to_json l object
      | Some key =>
          let! r := f v in
          if r.2 : bool then members_to_json l (obj_set key r.1 object) else Ret None
      end
  end.
End Items.

(** An unsupported value inside a table leaves [*out] null. *)
Fixpoint to_json_value (fuel : nat) (v : lval) : outcome converted :=
  match v with
  | VNil => Ret (JNull, true)
  | VBool b => Ret (JBool b, true)
  | VInt z => number_to_json (double_of_Z z)
  | VNum bits => number_to_json (double_of_bits bits)
  | VStr s => Ret (JStr (string_of s), true)
  | VHandle _ | VOther => Ret unsupported
  | VTable entries =>
      match fuel with
      | O => Throw fuel_out
      | S fuel =>
          let '(array_like, max_index, entry_count) := scan_table entries 0 0 in
          if array_like && (max_index =? entry_count) then
            let! r := items_to_json (to_json_value fuel)
                        (map (fun i => table_get (VInt i) entries) (seqZ 1 max_index)) in
            Ret (match r with Some l => (JArr l, true) | None => (JNull, false) end)
          else
            let! r := members_to_json (to_json_value fuel) entries [] in
            Ret (match r with Some o => (JObj o, true) | None => (JNull, false) end)
      end
  end.

Definition lua_to_json (v : lval) : outcome converted := to_json_value (height v) v.

(** The wrapper that returns the value. *)
Definition lua_to_json_value (v : lval) : outcome json :=
  let! r := lua_to_json v in Ret (if r.2 : bool then r.1 else JStr "<unsupported>").

(** The conversion of tables in lua_api.cpp: what is not supported inside the
    table becomes the text. *)
Definition lua_table_to_json (entries : list (lval * lval)) : outcome json :=
  let f v := let! j := lua_to_json_value v in Ret (j, true) in
  let '(array_like, max_index, entry_count) := scan_table entries 0 0 in
  if array_like && (max_index =? entry_count) then
    let! r := items_to_json f (map (fun i => table_get (VInt i) entries) (seqZ 1 max_index)) in
    Ret (JArr (default [] r))
  else let! r := members_to_json f entries [] in Ret (JObj (default [] r)).

Definition variadic_to_json_array (args : list lval) : outcome json :=
  let! l := fold_right (fun v k => let! x := lua_to_json_value v in let! l := k in Ret (x :: l)) (Ret []) args in
  Ret (JArr l).
End FromLua.

(** ** To Lua *)

Section ToLua.
Context `{JsonLib}.
(** [__shield_make_session_handle] of the VM, when it is there: the handle it
    returns, if it returns. *)
Context (make_handle : option (string -> string -> option lval)).

Definition marker : string := "__shield_session_handle".

(** The handle that an object stands for. *)
Definition session_handle (j : json) : outcome (option lval) :=
  match get marker j, make_handle with
  | Some (JBool true), Some make =>
      let! id := value get_string "id" "" j in
      let! addr := value get_string "remote_addr" "" j in
      Ret (make id addr)
  | _, _ => Ret None
  end.

Definition items_to_lua (f : json -> outcome lval) :=
  fix go (l : list json) (i : Z) (t : list (lval * lval)) {struct l} : outcome (list (lval * lval)) :=
    match l with
    | [] => Ret t
    | x :: l => let! v := f x in let! t := table_set (VInt i) v t in go l (i + 1) t
    end.

Definition members_to_lua (f : json -> outcome lval) :=
  fix go (l : list (string * json)) (t : list (lval * lval)) {struct l} : outcome (list (lval * lval)) :=
    match l with
    | [] => Ret t
    | (k, x) :: l => let! v := f x in let! t := table_set (VStr (bytes_of k)) v t in go l t
    end.

(** [is_number_integer] holds for unsigned numbers too. *)
Fixpoint json_to_lua (j : json) : outcome lval :=
  match j with
  | JNull => Ret VNil
  | JBool b => Ret (VBool b)
  | JInt z => Ret (VInt z)
  | JUInt z => Ret (VInt (signed64 z))
  | JFloat f => Ret (VNum (bits_of_double f))
  | JStr s => Ret (VStr (bytes_of s))
  | JArr l => let! t := items_to_lua json_to_lua l 1 [] in Ret (VTable t)
  | JObj l =>
      let! h := session_handle (JObj l) in
      match h with
      | Some handle => Ret handle
      | None => let! t := members_to_lua json_to_lua l [] in Ret (VTable t)
      end
  end.
End ToLua.

(** [extract_service_id] *)
Definition extract_service_id (v : lval) : string :=
  match v with VHandle id | VStr id => string_of id | _ => "" end.

(** ** Values that survive *)

(** A table with texts as keys, its entries in the order of the keys: the order
    is not observable in Lua. *)
Definition record (members : list (string * lval)) : list (lval * lval) :=
  map (fun e => (VStr (bytes_of e.1), e.2)) members.

Definition before (a b : string * lval) : Prop := String.compare a.1 b.1 = Lt.

Inductive portable : lval -> Prop :=
| port_nil : portable VNil
| port_bool b : portable (VBool b)
| port_int z : - 2 ^ 63 <= z < 2 ^ 63 -> float_trunc (double_of_Z z) = Some z -> portable (VInt z)
| port_num bits z :
    0 <= bits < 2 ^ 64 -> float_cast (- 2 ^ 63) (2 ^ 63 - 1) (double_of_bits bits) = Ret z ->
    SFeqb (double_of_Z z) (double_of_bits bits) = false -> portable (VNum bits)
| port_str s : portable (VStr s)
| port_array vs :
    vsize vs < 2 ^ 31 - 1 -> Forall (fun v => portable v /\ v <> VNil) vs -> portable (VTable (array_entries 1 vs))
| port_record members :
    members <> [] -> StronglySorted before members -> (marker, VBool true) ∉ members ->
    Forall (fun e => portable e.2 /\ e.2 <> VNil) members -> portable (VTable (record members)).

(** ** Lemmas *)

Lemma double_bits bits :
  0 <= bits < 2 ^ 64 -> double_of_bits bits <> S754_nan -> bits_of_double (double_of_bits bits) = bits.
Proof.
  intros Hb Hn. unfold double_of_bits in *.
  set (m := Z.land bits (2 ^ 52 - 1)) in *. set (e := Z.land (Z.shiftr bits 52) 0x7ff) in *.
  set (sg := Z.testbit bits 63) in *.
  assert (Em : m = bits `mod` 2 ^ 52).
  { subst m. change (2 ^ 52 - 1) with (Z.ones 52). by rewrite Z.land_ones by lia. }
  assert (Ee : e = (bits / 2 ^ 52) `mod` 2 ^ 11).
  { subst e. change 0x7ff with (Z.ones 11). by rewrite Z.land_ones, Z.shiftr_div_pow2 by lia. }
  assert (Es : (if sg then 2 ^ 63 else 0) = bits / 2 ^ 63 * 2 ^ 63).
  { subst sg. rewrite Z.testbit_odd, Z.shiftr_div_pow2 by lia.
    assert (0 <= bits / 2 ^ 63 < 2)
      by (split; [apply Z.div_pos|apply Z.div_lt_upper_bound]; lia).
    assert (bits / 2 ^ 63 = 0 \/ bits / 2 ^ 63 = 1) as [->| ->] by lia; done. }
  assert (Hall : bits = (if sg then 2 ^ 63 else 0) + e * 2 ^ 52 + m).
  { rewrite Es, Em, Ee. pose proof (Z.div_mod bits (2 ^ 52) ltac:(lia)) as H1.
    pose proof (Z.div_mod (bits / 2 ^ 52) (2 ^ 11) ltac:(lia)) as H2.
    rewrite Z.div_div in H2 by lia. change (2 ^ 52 * 2 ^ 11) with (2 ^ 63) in H2. lia. }
  assert (Hm : 0 <= m < 2 ^ 52) by (rewrite Em; apply Z.mod_pos_bound; lia).
  assert (He : 0 <= e < 2 ^ 11) by (rewrite Ee; apply Z.mod_pos_bound; lia).
  clearbody m e sg. clear Em Ee Es. rewrite Hall in *. clear Hall bits Hb.
  destruct (Z.eqb_spec e 0) as [->|He0].
  - destruct m as [|p|p]; [|cbn [bits_of_double]|lia]; [destruct sg; reflexivity|].
    rewrite (proj2 (Z.ltb_lt (Zpos p) _)) by lia. destruct sg; lia.
  - destruct (Z.eqb_spec e 0x7ff) as [->|He1].
    + destruct (Z.eqb_spec m 0) as [->|]; [|done]. destruct sg; reflexivity.
    + destruct (m + 2 ^ 52) as [|p|p] eqn:Ep; [lia| |lia]. cbn [bits_of_double].
      rewrite (proj2 (Z.ltb_ge (Zpos p) _)) by lia. rewrite Z.shiftl_mul_pow2 by lia. destruct sg; lia.
Qed.

Lemma height_value entries v : v ∈ entries.*2 -> (height v < height (VTable entries))%nat.
Proof.
  induction entries as [|[k x] entries IH]; cbn [fmap list_fmap snd]; [by intros ?%elem_of_nil|].
  intros [->|Hv]%elem_of_cons; [cbn; lia|]. specialize (IH Hv). cbn in *. lia.
Qed.

Lemma array_values start vs : (array_entries start vs).*2 = vs.
Proof.
  revert start. induction vs as [|v vs IH]; intros start; [done|]. rewrite array_entries_cons. cbn.
  f_equal. apply IH.
Qed.

Lemma obj_set_last k v l :
  Forall (fun e => String.compare e.1 k = Lt) l -> obj_set k v l = l ++ [(k, v)].
Proof.
  induction l as [|[k' v'] l IH]; [done|]. rewrite Forall_cons_iff. cbn [fst obj_set app]. intros [Hk Hl].
  rewrite String.compare_antisym, Hk. cbn. by rewrite IH.
Qed.

(** ** Round trip *)

Section Roundtrip.
Context `{SolKeys} `{JsonLib} (make_handle : option (string -> string -> option lval)).

(** Converting there and back gives the value. *)
Definition survives (f : lval -> outcome converted) (v : lval) : Prop :=
  exists j, f v = Ret (j, true) /\ json_to_lua make_handle j = Ret v.

Lemma items_survive f vs :
  Forall (survives f) vs ->
  exists js, items_to_json f vs = Ret (Some js) /\ Forall2 (fun j v => json_to_lua make_handle j = Ret v) js vs.
Proof.
  induction 1 as [|v vs (j & Ej & Hj) _ (js & Ejs & Hjs)]; [by exists []|].
  exists (j :: js). cbn. rewrite Ej. cbn. rewrite Ejs. cbn. by repeat constructor.
Qed.

Lemma items_to_lua_cons f x l i t :
  items_to_lua f (x :: l) i t =
  (let! v := f x in let! t := table_set (VInt i) v t in items_to_lua f l (i + 1) t).
Proof. reflexivity. Qed.

Lemma members_to_lua_cons f k x l t :
  members_to_lua f ((k, x) :: l) t =
  (let! v := f x in let! t := table_set (VStr (bytes_of k)) v t in members_to_lua f l t).
Proof. reflexivity. Qed.

Lemma items_to_lua_spec js vs done_ :
  Forall2 (fun j v => json_to_lua make_handle j = Ret v) js vs -> Forall (fun v => v <> VNil) vs ->
  items_to_lua (json_to_lua make_handle) js (1 + vsize done_) (array_entries 1 done_) =
  Ret (array_entries 1 (done_ ++ vs)).
Proof.
  intros Hjs. revert done_. induction Hjs as [|j v js vs Hj _ IH]; intros done_ Hn.
  - cbn. by rewrite app_nil_r.
  - apply Forall_cons_iff in Hn as [Hv Hn]. rewrite items_to_lua_cons, Hj. cbn [obind].
    rewrite table_set_fresh; [|done|done|intros Hk%array_keys; lia]. cbn [obind].
    rewrite <- array_entries_snoc. specialize (IH (done_ ++ [v]) Hn).
    rewrite vsize_app, vsize_cons, (@vsize_nil lval), <- app_assoc in IH. cbn [app] in IH.
    by rewrite Z.add_assoc in IH.
Qed.

(** The members in order, and none of them is the marker. *)
Lemma members_survive f members done_ :
  StronglySorted before members -> Forall (fun e => survives f e.2) members ->
  Forall (fun e => Forall (fun o : string * json => String.compare o.1 e.1 = Lt) done_) members ->
  exists js, members_to_json f (record members) done_ = Ret (Some (done_ ++ js)) /\
    Forall2 (fun j e => j.1 = e.1 /\ f e.2 = Ret (j.2, true) /\ json_to_lua make_handle j.2 = Ret e.2) js members.
Proof.
  revert done_. induction members as [|[k v] members IH]; intros done_ Hs Hv Hd.
  - exists []. cbn. by rewrite app_nil_r.
  - apply StronglySorted_inv in Hs as [Hs Hk]. apply Forall_cons_iff in Hv as [(j & Ej & Hj) Hv].
    apply Forall_cons_iff in Hd as [Hd0 Hd]. cbn [fst snd] in *.
    destruct (IH (done_ ++ [(k, j)]) Hs Hv) as (js & Ejs & Hjs).
    { apply List.Forall_forall. intros e He. apply Forall_app. rewrite List.Forall_forall in Hd, Hk.
      split; [by apply Hd|]. apply Forall_singleton. exact (Hk e He). }
    exists ((k, j) :: js). split; [|by constructor].
    cbn [record map members_to_json member_key fst snd]. rewrite string_of_bytes_of, Ej. cbn [obind fst snd].
    rewrite obj_set_last by done. rewrite <- app_assoc in Ejs. exact Ejs.
Qed.

Lemma members_to_lua_spec js members done_ :
  Forall2 (fun (j : string * json) e => j.1 = e.1 /\ json_to_lua make_handle j.2 = Ret e.2) js members ->
  Forall (fun e : string * lval => e.2 <> VNil) members -> NoDup (done_ ++ members).*1 ->
  members_to_lua (json_to_lua make_handle) js (record done_) = Ret (record (done_ ++ members)).
Proof.
  intros Hjs. revert done_. induction Hjs as [|[k j] [k' v] js members [Hk Hj] _ IH]; intros done_ Hn Hnd.
  - cbn. by rewrite app_nil_r.
  - cbn in Hk, Hj. subst k'. apply Forall_cons_iff in Hn as [Hv Hn]. rewrite members_to_lua_cons, Hj. cbn [obind].
    rewrite table_set_fresh; [|done|done|].
    2: { unfold record. intros Hin. apply list_elem_of_fmap in Hin as ([kk vv] & E & Hin). cbn in E. subst kk.
         apply list_elem_of_In, in_map_iff in Hin as ([k0 v0] & [= E _] & Hin%list_elem_of_In).
         apply (f_equal string_of) in E. rewrite !string_of_bytes_of in E. subst k0.
         rewrite fmap_app in Hnd. apply list.NoDup_app in Hnd as (_ & Hnd & _).
         apply (Hnd k); [apply list_elem_of_fmap; by exists (k, v0)|by left]. }
    cbn [obind]. specialize (IH (done_ ++ [(k, v)]) Hn). rewrite <- app_assoc in IH. specialize (IH Hnd).
    unfold record in *. rewrite !map_app in *. cbn in IH. exact IH.
Qed.

Lemma sorted_nodup members : StronglySorted before members -> NoDup members.*1.
Proof.
  induction 1 as [|e members _ IH He]; [constructor|]. cbn. apply list.NoDup_cons. split; [|done].
  intros (e' & E & Hin)%list_elem_of_fmap. rewrite List.Forall_forall in He.
  apply list_elem_of_In in Hin. specialize (He _ Hin). unfold before in He. rewrite E in He.
  pose proof (String.compare_antisym e'.1 e'.1) as Ha. by rewrite He in Ha.
Qed.

(** Only the value true becomes true. *)
Lemma number_not_true d : number_to_json d <> Ret (JBool true, true).
Proof. unfold number_to_json. intros (z & _ & E)%obind_ret_inv. by destruct (SFeqb _ _). Qed.

Lemma true_from_true fuel v : to_json_value fuel v = Ret (JBool true, true) -> v = VBool true.
Proof.
  destruct v as [|b|z|bits|s|entries|id|]; destruct fuel as [|fuel]; cbn [to_json_value];
    try discriminate; try (by intros [= ->]); try (by intros ?%number_not_true).
  destruct (scan_table _ 0 0) as [[al mi] ec]. intros E. case_in E;
    apply obind_ret_inv in E as ([r|] & _ & E); discriminate.
Qed.

Lemma members_not_marked fuel js members :
  Forall2 (fun (j : string * json) e => j.1 = e.1 /\ to_json_value fuel e.2 = Ret (j.2, true) /\
             json_to_lua make_handle j.2 = Ret e.2) js members ->
  (marker, VBool true) ∉ members -> session_handle make_handle (JObj js) = Ret None.
Proof.
  intros Hjs Hm. unfold session_handle. destruct (get marker (JObj js)) as [x|] eqn:E; [|done].
  destruct x as [|[|]| | | | | |]; try done. destruct make_handle as [make|] eqn:Emk; [|done]. exfalso. apply Hm.
  cbn in E. apply obj_find_elem in E. apply list_elem_of_lookup in E as [i Hi].
  destruct (Forall2_lookup_l _ _ _ _ _ Hjs Hi) as ([k v] & Hv & Hk & Hc & _). cbn in *. subst k.
  apply true_from_true in Hc as ->. by eapply list_elem_of_lookup_2.
Qed.
Lemma int_to_json z :
  - 2 ^ 63 <= z < 2 ^ 63 -> float_trunc (double_of_Z z) = Some z ->
  number_to_json (double_of_Z z) = Ret (JInt z, true).
Proof.
  intros Hz Ht. unfold number_to_json, float_cast. rewrite Ht.
  rewrite !(proj2 (Z.leb_le _ _)) by lia. cbn [andb obind]. rewrite SFeqb_refl; [done|].
  intros E. by rewrite E in Ht.
Qed.

Lemma num_to_json bits z :
  float_cast (- 2 ^ 63) (2 ^ 63 - 1) (double_of_bits bits) = Ret z ->
  SFeqb (double_of_Z z) (double_of_bits bits) = false ->
  number_to_json (double_of_bits bits) = Ret (JFloat (double_of_bits bits), true) /\
  double_of_bits bits <> S754_nan.
Proof.
  intros Hc Hne. unfold number_to_json. rewrite Hc. cbn [obind]. rewrite Hne. split; [done|].
  intros E. by rewrite E in Hc.
Qed.

Lemma value_survives fuel v :
  portable v -> (height v <= fuel)%nat -> survives (to_json_value fuel) v.
Proof.
  revert v. induction fuel as [|fuel IH]; intros v Hp Hh;
    destruct Hp as [|b|z Hz Ht|bits z Hb Hc Hne|s|vs Hlen Hvs|members Hnil Hs Hm Hall];
    try (by eexists; split; [reflexivity|]); try (cbn in Hh; lia).
  all: try (exists (JInt z); split; [by apply int_to_json|done]).
  all: try (destruct (num_to_json bits z Hc Hne) as [E Hn]; eexists; split; [exact E|]; cbn [json_to_lua];
            by rewrite double_bits).
  all: try (exists (JStr (string_of s)); split; [done|]; cbn [json_to_lua]; by rewrite bytes_of_string_of).
  - assert (Hsv : Forall (survives (to_json_value fuel)) vs).
    { apply List.Forall_forall. intros v Hv. rewrite List.Forall_forall in Hvs. apply IH; [by apply Hvs|].
      apply list_elem_of_In in Hv. pose proof (height_value (array_entries 1 vs) v) as Hhv.
      rewrite array_values in Hhv. specialize (Hhv Hv). lia. }
    destruct (items_survive _ _ Hsv) as (js & Ejs & Hjs). exists (JArr js). pose proof (vsize_nonneg vs). split.
    + cbn [to_json_value]. rewrite (scan_array 1 vs 0 0) by lia. rewrite Z.add_0_l, Z.eqb_refl. cbn [andb].
      rewrite array_get, Ejs. done.
    + cbn [json_to_lua]. pose proof (items_to_lua_spec js vs [] Hjs) as E.
      change (1 + vsize (@nil lval)) with 1 in E. change (array_entries 1 []) with (@nil (lval * lval)) in E.
      rewrite E; [done|]. eapply Forall_impl; [|exact Hvs]. naive_solver.
  - assert (Hsv : Forall (fun e => survives (to_json_value fuel) e.2) members).
    { apply List.Forall_forall. intros e He. rewrite List.Forall_forall in Hall. apply IH; [by apply Hall|].
      pose proof (height_value (record members) e.2) as Hhv. unfold record in Hhv at 1. rewrite <- list_fmap_compose in Hhv.
      specialize (Hhv ltac:(apply list_elem_of_fmap; exists e; split; [done|by apply list_elem_of_In])). lia. }
    destruct (members_survive _ members [] Hs Hsv) as (js & Ejs & Hjs).
    { apply List.Forall_forall. by constructor. }
    exists (JObj js). split.
    + cbn [to_json_value]. destruct members as [|[k v] members]; [done|]. cbn [record map scan_table key_int fst snd andb].
      unfold record in Ejs. cbn [map fst snd] in Ejs. rewrite Ejs. done.
    + cbn [json_to_lua]. rewrite (members_not_marked fuel js members Hjs Hm). cbn [obind].
      change (@nil (lval * lval)) with (record []).
      rewrite (members_to_lua_spec js members []); [done| | |by apply sorted_nodup].
      * eapply Forall2_impl; [|exact Hjs]. naive_solver.
      * eapply Forall_impl; [|exact Hall]. naive_solver.
Qed.
End Roundtrip.

(** ** Properties *)

(** C20: what one service sends is what another receives.  A portable value is
    converted to JSON, and the JSON back to the same value, in every VM. *)
Theorem lua_json_roundtrip `{SolKeys} `{JsonLib} make_handle v :
  portable v -> exists j, lua_to_json v = Ret (j, true) /\ json_to_lua make_handle j = Ret v.
Proof. intros Hv. exact (value_survives make_handle (height v) v Hv (le_n _)). Qed.

#[local] Instance integer_keys : SolKeys := {| float_key _ := None |}.

(** A message with a nested list. *)
Definition sample_message : lval :=
  VTable (record [("items", VTable (array_entries 1 [VStr (bytes_of "sword"); VInt (-5)])); ("name", VStr (bytes_of "ann"))]).

Lemma sample_portable : portable sample_message.
Proof.
  apply port_record; [done|repeat constructor| |].
  - intros Hm. repeat (apply elem_of_cons in Hm as [?|Hm]; [discriminate|]). by apply elem_of_nil in Hm.
  - repeat constructor; cbn [snd]; discriminate.
Qed.

Definition plain_json : JsonLib :=
  {| json_parse := fun _ => inr JNull; json_dump := fun _ => inr ""; json_error := fun _ _ _ => "type error" |}.

Lemma lua_json_roundtrip_witness :
  exists j, lua_to_json sample_message = Ret (j, true) /\ @json_to_lua plain_json None j = Ret sample_message.
Proof. exact (@lua_json_roundtrip _ plain_json None sample_message sample_portable). Defined.

(** ** What does not survive *)

Definition through (v : lval) : outcome lval :=
  let! r := lua_to_json v in @json_to_lua plain_json None r.1.

(** An integer goes through a double. *)
Example big_integer_rounded : through (VInt (2 ^ 53 + 1)) = Ret (VInt (2 ^ 53)).
Proof. vm_compute. reflexivity. Qed.

(** The keys of a sparse array become texts. *)
Example sparse_keys_become_texts :
  through (VTable [(VInt 2, VBool true)]) = Ret (VTable [(VStr (bytes_of "2"), VBool true)]).
Proof. vm_compute. reflexivity. Qed.

(** Unsigned numbers are taken for signed ones. *)
Example large_unsigned_negative : @json_to_lua plain_json None (JUInt (2 ^ 64 - 1)) = Ret (VInt (-1)).
Proof. vm_compute. reflexivity. Qed.

(** Converting infinity to an integer is undefined. *)
Example infinity_to_json_undefined : lua_to_json (VNum (Z.shiftl 0x7ff0 48)) = Undef.
Proof. vm_compute. reflexivity. Qed.
