(* ===== verification/ScriptCache.v ===== *)
(** * ScriptCache: the cache of Lua sources (src/lua/lua_runtime.cpp)

    [LuaRuntime::load_service_module] up to the source text it compiles: the
    lookup in the cache, the file read and the eviction.  The file system at one
    moment is a [snapshot]; the three moments at which a load looks at the file
    are separate arguments. *)

From S2P Require Import Prelude Config.

(** ** Data *)

Record ScriptCacheEntry := mkEntry { bytecode : string; mtime : Z; last_used : Z }.

Record LuaCacheConfig := mkCacheConfig { cache_enabled : bool; max_size : Z; ttl_seconds : Z }.

Abbreviation script_cache := (gmap string ScriptCacheEntry).

(** What a file holds, [None] when it cannot be opened, and what
    [get_file_mtime] returns, 0 when the time cannot be read. *)
Record snapshot := mkSnapshot { content : string -> option string; file_mtime : string -> Z }.

(** The members that [Impl::Impl] reads from the configuration. *)
Definition read_cache_config (c : Config) : outcome LuaCacheConfig :=
  let! size := get_int c "lua.cache.max_size" 100 in
  let! ttl := get_int c "lua.cache.ttl_seconds" 0 in
  Ret (mkCacheConfig (get_bool c "lua.cache.enabled" true) (u64 size) ttl).

(** ** Validity and eviction *)

Definition is_cache_valid (c : LuaCacheConfig) (now : Z) (e : ScriptCacheEntry) (current_mtime : Z) : bool :=
  if negb (mtime e =? current_mtime) then false
  else if 0 <? ttl_seconds c then negb (ttl_seconds c * 1000 <? now - last_used e) else true.

(** [std::pair<int64_t, std::string>] in lexicographic order. *)
Definition pair_le (a b : Z * string) : bool :=
  if a.1 <? b.1 then true else if b.1 <? a.1 then false
  else match String.compare a.2 b.2 with Gt => false | _ => true end.

Fixpoint insert_pair (p : Z * string) (l : list (Z * string)) : list (Z * string) :=
  match l with
  | [] => [p]
  | q :: r => if pair_le p q then p :: l else q :: insert_pair p r
  end.
Definition sort_pairs (l : list (Z * string)) : list (Z * string) := fold_right insert_pair [] l.

Definition evict_if_needed (c : LuaCacheConfig) (m : script_cache) : script_cache :=
  if Z.of_nat (size m) <=? max_size c then m
  else
    let overage := Z.of_nat (size m) - max_size c in
    let to_remove := Z.max 1 (overage / 10) in
    let entries := sort_pairs (map (fun p => (last_used p.2, p.1)) (map_to_list m)) in
    fold_left (fun m (p : Z * string) => delete p.2 m) (take (Z.to_nat to_remove) entries) m.

(** ** Loading *)

(** The lookup: a hit is marked as used now. *)
Definition cache_lookup (c : LuaCacheConfig) (now : Z) (s : snapshot) (path : string) (m : script_cache)
  : option string * script_cache :=
  if negb (cache_enabled c) then (None, m)
  else match m !! path with
       | None => (None, m)
       | Some e =>
           if is_cache_valid c now e (file_mtime s path)
           then (Some (bytecode e), <[path := mkEntry (bytecode e) (mtime e) now]> m)
           else (None, m)
       end.

Definition cache_store (c : LuaCacheConfig) (now : Z) (s : snapshot) (path source : string) (m : script_cache)
  : script_cache :=
  if negb (cache_enabled c) then m
  else <[path := mkEntry source (file_mtime s path) now]> (evict_if_needed c m).

(** The source or the error; [s1] is the moment of the lookup, [s2] of the read
    and [s3] of the entry. *)
Definition load_source (c : LuaCacheConfig) (now : Z) (s1 s2 s3 : snapshot) (path : string) (m : script_cache)
  : (string + string) * script_cache :=
  let '(hit, m) := cache_lookup c now s1 path m in
  match hit with
  | Some source => (inr source, m)
  | None =>
      match content s2 path with
      | None => (inl ("Failed to open file: " +:+ path), m)
      | Some source => (inr source, cache_store c now s3 path source m)
      end
  end.

Definition clear_cache (m : script_cache) : script_cache := ∅.
Definition cache_size (m : script_cache) : Z := Z.of_nat (size m).

(** ** Reachable caches

    Loads at moments of a history, during which the file does not change. *)

Section History.
Context (c : LuaCacheConfig) (history : snapshot -> Prop).

Inductive cache_reachable : script_cache -> Prop :=
| cache_empty : cache_reachable ∅
| cache_load now s path m :
    history s -> cache_reachable m -> cache_reachable (load_source c now s s s path m).2
| cache_clear m : cache_reachable m -> cache_reachable (clear_cache m).

(** Every entry is what its file held at some moment. *)
Definition genuine (m : script_cache) : Prop :=
  forall path e, m !! path = Some e ->
  exists s, history s /\ content s path = Some (bytecode e) /\ file_mtime s path = mtime e.

Lemma fold_delete_lookup l (m : script_cache) path e :
  fold_left (fun m (p : Z * string) => delete p.2 m) l m !! path = Some e -> m !! path = Some e.
Proof.
  revert m. induction l as [|[t p] l IH]; intros m; [done|]. cbn [fold_left]. intros Hl%IH.
  by apply lookup_delete_Some in Hl as [_ Hl].
Qed.

Lemma evict_lookup (m : script_cache) path e : evict_if_needed c m !! path = Some e -> m !! path = Some e.
Proof. unfold evict_if_needed. case_head; [done|]. apply fold_delete_lookup. Qed.

Lemma load_genuine now s path m : history s -> genuine m -> genuine (load_source c now s s s path m).2.
Proof.
  intros Hs Hg. unfold load_source, cache_lookup, cache_store.
  assert (Hput : forall m' source, genuine m' -> content s path = Some source ->
                 genuine (<[path := mkEntry source (file_mtime s path) now]> m')).
  { intros m' source Hm Hc p e [[<- <-]|[_ He]]%lookup_insert_Some; [by exists s|by apply Hm]. }
  assert (Hev : genuine (evict_if_needed c m)) by (intros p e He; by apply Hg, evict_lookup).
  destruct (cache_enabled c) eqn:Een; cbn [negb]; [|by destruct (content s path)].
  destruct (m !! path) as [e|] eqn:Em.
  - destruct (is_cache_valid _ _ _ _); cbn.
    + intros p e' [[<- <-]|[_ He]]%lookup_insert_Some; [|by apply Hg]. exact (Hg _ _ Em).
    + destruct (content s path) eqn:Ec; [|done]. by apply Hput.
  - destruct (content s path) eqn:Ec; [|done]. by apply Hput.
Qed.

Lemma cache_reachable_genuine m : cache_reachable m -> genuine m.
Proof.
  induction 1 as [|now s path m Hs _ IH|m _ _]; [|by apply load_genuine|]; intros p e;
    unfold clear_cache; by intros ?%lookup_empty_Some.
Qed.

(** ** Size *)

Lemma sort_pairs_perm l : Permutation (sort_pairs l) l.
Proof.
  induction l as [|p l IH]; [done|]. cbn [sort_pairs fold_right]. fold (sort_pairs l).
  etransitivity; [|by apply Permutation_skip]. generalize (sort_pairs l) as k.
  induction k as [|q k IHk]; cbn [insert_pair]; [done|]. case_match; [done|].
  rewrite IHk. apply Permutation_swap.
Qed.

Lemma fold_delete_size l (m : script_cache) : (size (fold_left (fun m (p : Z * string) => delete p.2 m) l m) <= size m)%nat.
Proof.
  revert m. induction l as [|[t p] l IH]; intros m; [done|]. cbn [fold_left]. etransitivity; [apply IH|].
  cbn [snd]. rewrite map_size_delete. destruct (m !! p); cbn; lia.
Qed.

(** A full cache loses an entry. *)
Lemma evict_size (m : script_cache) :
  0 <= max_size c -> Z.of_nat (size m) <= max_size c + 1 -> Z.of_nat (size (evict_if_needed c m)) <= max_size c.
Proof.
  intros Hc Hm. unfold evict_if_needed. destruct (Z.leb_spec (Z.of_nat (size m)) (max_size c)); [done|].
  set (l := map _ (map_to_list m)). pose proof (sort_pairs_perm l) as Hp.
  destruct (sort_pairs l) as [|[t p] rest] eqn:El.
  { apply Permutation_nil in Hp. subst l. apply map_eq_nil, map_to_list_empty_iff in Hp.
    subst m. rewrite map_size_empty in *. lia. }
  assert (Hin : (t, p) ∈ l) by (rewrite <- Hp; by left). subst l.
  apply list_elem_of_In, in_map_iff in Hin as ([k e] & [= _ <-] & Hin%list_elem_of_In%elem_of_map_to_list).
  generalize ((Z.of_nat (size m) - max_size c) / 10). intros tenth.
  destruct (Z.to_nat (Z.max 1 tenth)) as [|n] eqn:En; [lia|]. cbn [take fold_left snd].
  pose proof (fold_delete_size (take n rest) (delete k m)) as Hs.
  rewrite map_size_delete, Hin in Hs. cbn in Hs. lia.
Qed.

Lemma insert_size (m : script_cache) path e : Z.of_nat (size (<[path := e]> m)) <= Z.of_nat (size m) + 1.
Proof. rewrite map_size_insert. destruct (m !! path); cbn; lia. Qed.

Lemma cache_reachable_size m : 0 <= max_size c -> cache_reachable m -> Z.of_nat (size m) <= max_size c + 1.
Proof.
  intros Hc. induction 1 as [|now s path m Hs _ IH|m _ _]; [rewrite map_size_empty; lia| |unfold clear_cache; rewrite map_size_empty; lia].
  unfold load_source, cache_lookup, cache_store. pose proof (evict_size m Hc IH) as Hev.
  pose proof (insert_size (evict_if_needed c m) path) as Hin.
  assert (Hst : forall src, Z.of_nat (size (<[path := mkEntry src (file_mtime s path) now]> (evict_if_needed c m))) <= max_size c + 1)
    by (intros src; specialize (Hin (mkEntry src (file_mtime s path) now)); lia).
  destruct (cache_enabled c); cbn [negb]; [|by destruct (content s path)].
  destruct (m !! path) as [e|] eqn:Em; [destruct (is_cache_valid _ _ _ _); cbn [snd]|].
  - rewrite map_size_insert_Some by (by exists e). done.
  - destruct (content s path); [apply Hst|done].
  - destruct (content s path); [apply Hst|done].
Qed.
End History.

(** ** Properties *)

Lemma load_source_reads c history m now s path :
  (forall s1 s2 p, history s1 -> history s2 -> file_mtime s1 p = file_mtime s2 p -> content s1 p = content s2 p) ->
  cache_reachable c history m -> history s ->
  (load_source c now s s s path m).1 =
    match content s path with Some source => inr source | None => inl ("Failed to open file: " +:+ path) end.
Proof.
  intros Hid Hm Hs. apply cache_reachable_genuine in Hm. unfold load_source, cache_lookup.
  destruct (cache_enabled c); cbn [negb]; [|by destruct (content s path)].
  destruct (m !! path) as [e|] eqn:Em; [|by destruct (content s path)].
  destruct (is_cache_valid c now e (file_mtime s path)) eqn:Ev; [|by destruct (content s path)].
  destruct (Hm _ _ Em) as (s' & Hs' & Hc' & Ht'). unfold is_cache_valid in Ev.
  destruct (Z.eqb_spec (mtime e) (file_mtime s path)) as [Et|]; [|done].
  cbn [fst]. by rewrite <- (Hid s' s path Hs' Hs) by congruence; rewrite Hc'.
Qed.

(** The cache cannot be told from reading the file.  In a history in which
    the time of a file identifies its content, every load gives what the file
    holds, or the error when there is none; and the cache holds at most one
    script more than its limit. *)
Theorem script_cache_transparent c history m now s path :
  0 <= max_size c ->
  (forall s1 s2 p, history s1 -> history s2 -> file_mtime s1 p = file_mtime s2 p -> content s1 p = content s2 p) ->
  cache_reachable c history m -> history s ->
  (load_source c now s s s path m).1 =
    match content s path with Some source => inr source | None => inl ("Failed to open file: " +:+ path) end /\
  cache_size (load_source c now s s s path m).2 <= max_size c + 1.
Proof.
  intros Hc Hid Hm Hs. split; [by apply (load_source_reads c history)|].
  apply (cache_reachable_size c history); [done|]. by apply cache_load.
Qed.

(** Two versions of a script. *)
Definition version (t : Z) (text : string) : snapshot :=
  mkSnapshot (fun p => if String.eqb p "a.lua" then Some text else None)
    (fun p => if String.eqb p "a.lua" then t else 0).
Definition versions (s : snapshot) : Prop := s = version 1 "old" \/ s = version 2 "new".
Definition small_cache : LuaCacheConfig := mkCacheConfig true 1 0.

Lemma script_cache_transparent_witness :
  let m := (load_source small_cache 5 (version 1 "old") (version 1 "old") (version 1 "old") "a.lua" ∅).2 in
  (load_source small_cache 9 (version 2 "new") (version 2 "new") (version 2 "new") "a.lua" m).1 = inr "new" /\
  cache_size (load_source small_cache 9 (version 2 "new") (version 2 "new") (version 2 "new") "a.lua" m).2 <= 2.
Proof.
  refine (script_cache_transparent small_cache versions _ 9 (version 2 "new") "a.lua" _ _ _ _).
  - vm_compute. discriminate.
  - intros s1 s2 p [-> | ->] [-> | ->]; cbn; destruct (String.eqb p "a.lua"); try done; discriminate.
  - apply cache_load; [by left|apply cache_empty].
  - by right.
Defined.

(** ** What goes wrong *)

(** The limit is checked before the new entry is added. *)
Example cache_exceeds_limit :
  let s := mkSnapshot (fun p => Some p) (fun _ => 1) in
  let m := fold_left (fun m p => (load_source small_cache 5 s s s p m).2) ["a"; "b"; "c"] ∅ in
  cache_size m = 2.
Proof. vm_compute. reflexivity. Qed.

(** A file that changes between the read and the entry is stored with the old
    text and the new time: the old text is served until the next change. *)
Example change_during_load_sticks :
  let old := version 1 "old" in let new := version 2 "new" in
  let m := (load_source small_cache 5 old old new "a.lua" ∅).2 in
  (load_source small_cache 9 new new new "a.lua" m).1 = inr "old".
Proof. vm_compute. reflexivity. Qed.
