(* ===== verification/ServiceState.v ===== *)
(** * ServiceState: the data of [LuaServiceManager] (src/lua/lua_service.cpp)

    The members of [LuaServiceManager::Impl], grouped in records: the registry
    of services and names, the forked tasks, the timers, the calls in progress
    and the actors; and every operation on them that does not run Lua code.
    Each of those operations is one critical section of the code, or a sequence
    of them with no Lua code in between.

    What is outside of the repository appears as data.  A Lua function is a
    [script], a tree of calls to the [shield] table whose branches are chosen by
    the answers; a suspended coroutine is the function from what it is resumed
    with to the rest of its script.  CAF is a list of sent messages, of which
    the environment delivers any next ([Deliver]), and a set of timer actors,
    whose delayed message may arrive at any time ([Tick]): no order between
    messages and no real time is assumed.  The 64-bit counters of sessions,
    tasks and timers are taken without their wrap-around. *)

From S2P Require Import Prelude Text Json.

(** ** Lua values and scripts *)

(** What the functions of the [shield] table return to Lua. *)
Inductive lua_value :=
| LNil
| LBool (b : bool)
| LInt (z : Z)
| LStr (s : string)
| LHandle (service_id : string)
| LError (code message : string) (retryable : bool)
| LNames (names : list string)
| LJson (j : json).

(** The calls of the [shield] table that reach the service manager. *)
Inductive script :=
| Return (values : list json)
| Raise (message : option string)
| Api (a : api) (k : list lua_value -> script)
with api :=
| ASpawn (module : string) (opts : option json)
| AExit (reason : option string)
| ASelf
| ANames
| AQuery (name : string)
| ARegister (name : string)
| AUnregister (name : string)
| ASend (target method : string) (args : list json)
| ACall (target method : string) (args : list json)
| ACallTimeout (timeout_ms : Z) (target method : string) (args : list json)
| ANow
| ASender
| ATrace
| ADeadline
| ATimerOnce (delay_ms : Z) (callback : script)
| ATimer (interval_ms : Z) (callback : script)
| ACancelTimer (id : Z)
| ASleep (ms : Z)
| AFork (fn : script).

(** A member of a service's table, and the table itself; [vm_coroutines] is
    false when [__shield_run_handler] is missing or fails. *)
Inductive entry := NotFunction | Function (f : list json -> script).
Record LuaVM := mkVM { vm_table : string -> option entry; vm_coroutines : bool }.

(** Where a script runs: on the main thread of its VM, in a coroutine that
    [lua_resume] runs, or by [lua_pcall] on the state of a coroutine that is not
    being resumed, where a function created in that coroutine runs later. *)
Inductive lua_thread := MainThread | Coroutine (co : Z) | Detached (co : Z).

Definition detach (th : lua_thread) : lua_thread :=
  match th with MainThread => MainThread | Coroutine co | Detached co => Detached co end.

(** What [lua_resume] and [lua_pcall] report. *)
Inductive lua_status := LuaOk (values : list json) | LuaYield | LuaFails (message : option string).

(** ** Messages between actors (include/shield/core/service_message.hpp) *)

Inductive MessagePriority := High | Normal.

Record ServiceMessage := mkMessage {
  msg_sender : string;
  msg_method : string;
  msg_args : json;
  msg_trace_id : string;
  msg_deadline_ms : Z;
  msg_priority : MessagePriority;
  msg_timestamp_ms : Z;
  msg_call_session : Z
}.

Record SyncCallMessage := mkSyncCall {
  sync_session : Z;
  sync_sender : string;
  sync_method : string;
  sync_args : json;
  sync_trace_id : string;
  sync_deadline_ms : Z;
  sync_timestamp_ms : Z
}.

Inductive mail :=
| MService (m : ServiceMessage)
| MSync (m : SyncCallMessage)
| MTimerFire (timer_id : Z)
| MCallTimeout (session : Z)
| MForkTask (task_id : Z)
| MInitReady
| MExit.

(** ** The records of the manager *)

Record DispatchFrame := mkDispatch {
  service_id : string;
  sender_id : string;
  trace_id : string;
  deadline_ms : Z;
  in_exit : bool;
  exit_requested : bool;
  exit_reason : string
}.

Record DispatchMessage := mkDispatchMessage {
  dm_sender : string;
  dm_method : string;
  dm_args : json;
  dm_trace_id : string;
  dm_deadline_ms : Z;
  dm_high_priority : bool;
  dm_timestamp_ms : Z;
  dm_call_session : Z
}.

(** A task is a Lua function with the state it was created on, or a C++
    function, of which only whether it throws is kept. *)
Inductive task_fn := RawFn (fn : script) (th : lua_thread) | NativeFn (throws : option string).
Record ForkedTask := mkTask { task_id : Z; task_service : string; task_body : task_fn }.

Record PendingCall := mkPending {
  pc_session : Z;
  caller_co : Z;
  pc_deadline_ms : Z;
  caller_service : string
}.

(** The only native callback is the one of [_resume_after]: it resumes a
    coroutine. *)
Inductive timer_callback := RawCallback (fn : script) (th : lua_thread) | NativeResume (co : Z).
Record ActorTimerState := mkTimer {
  timer_id : Z;
  interval_ms : Z;
  repeating : bool;
  timer_service : string;
  timer_fn : timer_callback;
  timer_active : bool;
  timer_driver : option Z
}.

(** The object a blocked [call] waits on. *)
Record PendingSyncCall := mkSync {
  completed : bool;
  sync_ok : bool;
  sync_values : json;
  sync_error : string
}.

Record Registry := mkRegistry {
  services : gmap string LuaVM;
  published_names : gmap string string;
  owned_names : gmap string (gset string);
  service_order : list string;
  recently_exited : gset string;
  service_actors : gmap string Z
}.

Record Tasks := mkTasks {
  next_task_id : Z;
  pending_tasks : list ForkedTask;
  tasks_by_service : gmap string (gset Z)
}.

Record Timers := mkTimers {
  next_actor_timer_id : Z;
  actor_timers : gmap Z ActorTimerState;
  actor_timers_by_service : gmap string (gset Z)
}.

(** [pending_sync_calls] maps sessions to shared objects; the objects, which a
    blocked caller keeps alive, are in [sync_objects]. *)
Record Calls := mkCalls {
  next_call_session : Z;
  pending_calls : gmap Z PendingCall;
  handler_call_session : gmap Z Z;
  actor_call_timeouts : gmap Z Z;
  next_sync_call_session : Z;
  pending_sync_calls : gset Z;
  sync_objects : gmap Z PendingSyncCall
}.

(** A service actor: its service, whether it has installed its real behaviour,
    and the messages stashed before that; a timer actor ([driver]): where it
    sends what, and whether it rearms itself. *)
Record ServiceActor := mkActor { actor_service : string; actor_ready : bool; actor_stash : list mail }.
Record Driver := mkDriver { driver_target : Z; driver_mail : mail; driver_repeats : bool }.

(** The actors, the messages sent and not yet delivered, and the suspended
    coroutines by their [lua_State*]. *)
Record System := mkSystem {
  next_actor : Z;
  actors : gmap Z ServiceActor;
  drivers : gmap Z Driver;
  outbox : list (Z * mail);
  next_co : Z;
  coroutines : gmap Z (list lua_value -> script)
}.

(** What happened, for stating properties: calls of the lifecycle hooks,
    handlers started, coroutines and blocked callers given their answer. *)
Inductive log_event :=
| EvInit (id : string)
| EvExit (id reason : string)
| EvDispatch (id method : string)
| EvResume (session : Z) (co : Z) (ok : bool) (values : json)
| EvSync (session : Z) (ok : bool) (values : json)
| EvTask (id : Z)
| EvTimer (id : Z).

(** What the environment does next: deliver the [n]-th message sent, let the
    delayed message of a timer actor arrive, or let time pass. *)
Inductive event := Deliver (n : nat) | Tick (driver : Z) | Advance (ms : Z).

(** The clock that Lua code reads: the system's, or one that a test sets. *)
Inductive Clock := SystemClock | MockClock (now_ms : Z).

(** [dispatch_stack] is the stack of the running thread.  [schedule] holds, for
    each time the thread blocks, what the other threads do meanwhile. *)
Record State := mkState {
  registry : Registry;
  tasks : Tasks;
  timers : Timers;
  calls : Calls;
  system : System;
  stopping : bool;
  error_counts : gmap string Z;
  last_sender_per_service : gmap string string;
  module_scripts : gmap string string;
  dispatch_stack : list DispatchFrame;
  now : Z;
  schedule : list (list event);
  log : list log_event;
  clock : Clock
}.

Definition set_registry (v : Registry) (s : State) : State :=
  mkState v (tasks s) (timers s) (calls s) (system s) (stopping s) (error_counts s)
    (last_sender_per_service s) (module_scripts s) (dispatch_stack s) (now s) (schedule s) (log s) (clock s).
Definition set_tasks (v : Tasks) (s : State) : State :=
  mkState (registry s) v (timers s) (calls s) (system s) (stopping s) (error_counts s)
    (last_sender_per_service s) (module_scripts s) (dispatch_stack s) (now s) (schedule s) (log s) (clock s).
Definition set_timers (v : Timers) (s : State) : State :=
  mkState (registry s) (tasks s) v (calls s) (system s) (stopping s) (error_counts s)
    (last_sender_per_service s) (module_scripts s) (dispatch_stack s) (now s) (schedule s) (log s) (clock s).
Definition set_calls (v : Calls) (s : State) : State :=
  mkState (registry s) (tasks s) (timers s) v (system s) (stopping s) (error_counts s)
    (last_sender_per_service s) (module_scripts s) (dispatch_stack s) (now s) (schedule s) (log s) (clock s).
Definition set_system (v : System) (s : State) : State :=
  mkState (registry s) (tasks s) (timers s) (calls s) v (stopping s) (error_counts s)
    (last_sender_per_service s) (module_scripts s) (dispatch_stack s) (now s) (schedule s) (log s) (clock s).
Definition set_stopping (s : State) : State :=
  mkState (registry s) (tasks s) (timers s) (calls s) (system s) true (error_counts s)
    (last_sender_per_service s) (module_scripts s) (dispatch_stack s) (now s) (schedule s) (log s) (clock s).
Definition set_error_counts (v : gmap string Z) (s : State) : State :=
  mkState (registry s) (tasks s) (timers s) (calls s) (system s) (stopping s) v
    (last_sender_per_service s) (module_scripts s) (dispatch_stack s) (now s) (schedule s) (log s) (clock s).
Definition set_last_sender (v : gmap string string) (s : State) : State :=
  mkState (registry s) (tasks s) (timers s) (calls s) (system s) (stopping s) (error_counts s)
    v (module_scripts s) (dispatch_stack s) (now s) (schedule s) (log s) (clock s).
Definition set_stack (v : list DispatchFrame) (s : State) : State :=
  mkState (registry s) (tasks s) (timers s) (calls s) (system s) (stopping s) (error_counts s)
    (last_sender_per_service s) (module_scripts s) v (now s) (schedule s) (log s) (clock s).
Definition set_now (v : Z) (s : State) : State :=
  mkState (registry s) (tasks s) (timers s) (calls s) (system s) (stopping s) (error_counts s)
    (last_sender_per_service s) (module_scripts s) (dispatch_stack s) v (schedule s) (log s) (clock s).
Definition set_schedule (v : list (list event)) (s : State) : State :=
  mkState (registry s) (tasks s) (timers s) (calls s) (system s) (stopping s) (error_counts s)
    (last_sender_per_service s) (module_scripts s) (dispatch_stack s) (now s) v (log s) (clock s).
Definition add_log (e : log_event) (s : State) : State :=
  mkState (registry s) (tasks s) (timers s) (calls s) (system s) (stopping s) (error_counts s)
    (last_sender_per_service s) (module_scripts s) (dispatch_stack s) (now s) (schedule s)
    (log s ++ [e]) (clock s).

(** ** What is outside of the repository

    Loading a script, registering the API in a VM, [std::hash], whether
    [actor_system::spawn] throws for the actor of a given number, the permission
    hook, the text sol2 gives to an error object, the string sol2 converts a
    value to, the compiler of the console, and the wall-clock time at a time of
    the steady clock. *)
Class LuaWorld := {
  load_service_module : string -> string + LuaVM;
  register_api : option string;
  name_hash : string -> Z;
  caf_spawn_throws : Z -> option string;
  permission_check : option (string -> string -> string -> string);
  sol_error_what : option string -> string;
  sol_as_string : json -> exn + string;
  load_chunk : LuaVM -> string -> string + script;
  wall_clock : Z -> Z
}.

(** ** Sets indexed by a key, as [unordered_map<K, unordered_set<V>>] *)

Section Index.
Context {V : Type} `{Countable V}.
Implicit Types m : gmap string (gset V).

Definition idx_insert (k : string) (v : V) m : gmap string (gset V) :=
  <[k := {[v]} ∪ default ∅ (m !! k)]> m.

(** Erasing an element, and the set itself once it is empty. *)
Definition idx_remove (k : string) (v : V) m : gmap string (gset V) :=
  match m !! k with
  | Some s => let s' := s ∖ {[v]} in
              if bool_decide (s' = ∅) then delete k m else <[k := s']> m
  | None => m
  end.

(** Erasing an element and leaving the set, also if it is empty. *)
Definition idx_erase (k : string) (v : V) m : gmap string (gset V) :=
  match m !! k with Some s => <[k := s ∖ {[v]}]> m | None => m end.

(** [m[k].erase(v)], which creates the set if there is none. *)
Definition idx_erase_at (k : string) (v : V) m : gmap string (gset V) :=
  <[k := default ∅ (m !! k) ∖ {[v]}]> m.
End Index.

(** ** Names *)

Definition name_char (ch : Ascii.ascii) : bool :=
  isalnum ch || Ascii.eqb ch "_" || Ascii.eqb ch "." || Ascii.eqb ch "-".

Definition valid_name (name : string) : bool :=
  negb (str_empty name) && (slen name <=? 64) && negb (String.prefix "shield." name) &&
  str_all name_char name.

(** [haystack.find(needle) != npos] *)
Fixpoint str_contains (needle haystack : string) : bool :=
  String.prefix needle haystack ||
  match haystack with EmptyString => false | String _ s => str_contains needle s end.

Definition validate_message_method (method : string) (allow_reserved : bool) : option string :=
  if str_empty method || (128 <? slen method) then
    Some "invalid method name: length must be 1-128"
  else if negb allow_reserved && String.prefix "on_" method then
    Some "invalid method name: 'on_' prefix is reserved"
  else None.

Definition kMaxMessageSize : Z := 1024 * 1024.
Definition kDefaultMaxErrorsBeforePanic : Z := 10.
Definition kTimerLimit : Z := 10000.
Definition kForkLimit : Z := 1000.

(** The text of a string with its quotes. *)
Definition quoted (s : string) : string := String "034" s +:+ String "034" "".

(** [args.dump()] throws on strings that are not UTF-8. *)
Definition validate_message_payload `{JsonLib} (args : json) : exn + option string :=
  let? serialized := json_dump args in
  if kMaxMessageSize <? slen serialized then
    inr (Some ("message too large: " +:+ to_string_u64 (slen serialized) +:+ " bytes (max " +:+
               to_string_u64 kMaxMessageSize +:+ ")"))
  else if str_contains (quoted "<unsupported>") serialized then
    inr (Some "message contains unsupported value type")
  else inr None.

(** ** The dispatch stack *)

Definition top_frame (st : State) : option DispatchFrame := head (dispatch_stack st).
Definition current_service_id (st : State) : string := from_option service_id "" (top_frame st).
Definition current_sender_id (st : State) : string := from_option sender_id "" (top_frame st).
Definition current_trace_id (st : State) : string := from_option trace_id "" (top_frame st).
Definition current_deadline_ms (st : State) : Z := from_option deadline_ms 0 (top_frame st).
Definition is_in_exit (st : State) : bool := from_option in_exit false (top_frame st).

Definition is_exit_requested (st : State) : option (string * string) :=
  match top_frame st with
  | Some f => if exit_requested f then Some (service_id f, exit_reason f) else None
  | None => None
  end.

(** The constructor and the destructor of [DispatchScope]. *)
Definition push_scope (id sender : string) (in_exit : bool) (trace : string) (deadline : Z)
    (st : State) : State :=
  set_stack (mkDispatch id sender trace deadline in_exit false "normal" :: dispatch_stack st) st.

Definition pop_scope (st : State) : State :=
  match dispatch_stack st with
  | f :: rest =>
      let st := if str_empty (sender_id f) then st
                else set_last_sender (<[service_id f := sender_id f]> (last_sender_per_service st)) st in
      set_stack rest st
  | [] => st
  end.

Definition request_current_exit (reason : string) (st : State) : State :=
  match dispatch_stack st with
  | f :: rest =>
      if in_exit f then st
      else set_stack (mkDispatch (service_id f) (sender_id f) (trace_id f) (deadline_ms f) (in_exit f)
                        true (if str_empty reason then "normal" else reason) :: rest) st
  | [] => st
  end.

(** ** The clock of Lua code (include/shield/lua/clock.hpp) *)

Definition clock_now_ms `{LuaWorld} (st : State) : Z :=
  match clock st with SystemClock => wall_clock (now st) | MockClock ms => ms end.
Definition clock_now_seconds `{LuaWorld} (st : State) : Z := Z.quot (clock_now_ms st) 1000.

(** A null pointer is rejected. *)
Definition attach_clock (c : option Clock) (st : State) : State :=
  match c with
  | Some c =>
      mkState (registry st) (tasks st) (timers st) (calls st) (system st) (stopping st) (error_counts st)
        (last_sender_per_service st) (module_scripts st) (dispatch_stack st) (now st) (schedule st)
        (log st) c
  | None => st
  end.

(** ** CAF *)

Definition set_outbox (v : list (Z * mail)) (y : System) : System :=
  mkSystem (next_actor y) (actors y) (drivers y) v (next_co y) (coroutines y).
Definition set_actors (v : gmap Z ServiceActor) (y : System) : System :=
  mkSystem (next_actor y) v (drivers y) (outbox y) (next_co y) (coroutines y).
Definition set_drivers (v : gmap Z Driver) (y : System) : System :=
  mkSystem (next_actor y) (actors y) v (outbox y) (next_co y) (coroutines y).
Definition set_coroutines (v : gmap Z (list lua_value -> script)) (y : System) : System :=
  mkSystem (next_actor y) (actors y) (drivers y) (outbox y) (next_co y) v.

(** [anon_send] and [anon_send_exit]. *)
Definition anon_send (a : Z) (m : mail) (st : State) : State :=
  set_system (set_outbox (outbox (system st) ++ [(a, m)]) (system st)) st.
Definition anon_send_exit (a : Z) (st : State) : State := anon_send a MExit st.

(** [system.spawn]: the number of the next actor, or the exception. *)
Definition spawn_actor `{LuaWorld} (svc : string) (st : State) : string + (Z * State) :=
  let y := system st in
  match caf_spawn_throws (next_actor y) with
  | Some what => inl what
  | None =>
      inr (next_actor y,
           set_system (mkSystem (next_actor y + 1) (<[next_actor y := mkActor svc false []]> (actors y))
                         (drivers y) (outbox y) (next_co y) (coroutines y)) st)
  end.

Definition spawn_driver `{LuaWorld} (d : Driver) (st : State) : string + (Z * State) :=
  let y := system st in
  match caf_spawn_throws (next_actor y) with
  | Some what => inl what
  | None =>
      inr (next_actor y,
           set_system (mkSystem (next_actor y + 1) (actors y) (<[next_actor y := d]> (drivers y))
                         (outbox y) (next_co y) (coroutines y)) st)
  end.

(** A new coroutine thread, and the suspension of a running one. *)
Definition new_coroutine (st : State) : Z * State :=
  let y := system st in
  (next_co y,
   set_system (mkSystem (next_actor y) (actors y) (drivers y) (outbox y) (next_co y + 1)
                 (coroutines y)) st).
Definition yield_coroutine (co : Z) (k : list lua_value -> script) (st : State) : State :=
  set_system (set_coroutines (<[co := k]> (coroutines (system st))) (system st)) st.
Definition wake_coroutine (co : Z) (st : State) : State :=
  set_system (set_coroutines (delete co (coroutines (system st))) (system st)) st.

(** ** Services and names *)

Definition set_names (p : gmap string string) (o : gmap string (gset string)) (r : Registry) : Registry :=
  mkRegistry (services r) p o (service_order r) (recently_exited r) (service_actors r).
Definition set_service_actors (v : gmap string Z) (r : Registry) : Registry :=
  mkRegistry (services r) (published_names r) (owned_names r) (service_order r) (recently_exited r) v.

(** [query_service]: the empty string for an unknown name. *)
Definition query_name (name : string) (r : Registry) : string := default "" (published_names r !! name).
Definition query_service (name : string) (st : State) : string := query_name name (registry st).

Definition has_service_actor (id : string) (st : State) : bool :=
  bool_decide (is_Some (service_actors (registry st) !! id)).

(** The loop over [names_it->second] and the erasure of the set. *)
Definition release_names (id : string) (r : Registry) : Registry :=
  match owned_names r !! id with
  | Some names =>
      set_names (foldr delete (published_names r) (elements names)) (delete id (owned_names r)) r
  | None => r
  end.

Definition register_owner (owner name : string) (in_current_dispatch : bool) (r : Registry)
  : string + Registry :=
  if negb (bool_decide (is_Some (services r !! owner))) && negb in_current_dispatch then
    inl ("current service is not running: " +:+ owner)
  else match published_names r !! name with
  | Some o =>
      if String.eqb o owner then
        inr (set_names (<[name := owner]> (published_names r)) (idx_insert owner name (owned_names r)) r)
      else inl ("service name already exists: " +:+ name)
  | None =>
      inr (set_names (<[name := owner]> (published_names r)) (idx_insert owner name (owned_names r)) r)
  end.

Definition register_name (name : string) (st : State) : string + State :=
  let owner := current_service_id st in
  if str_empty owner then inl "register requires current service context" else
  let in_current_dispatch :=
    match top_frame st with Some f => String.eqb (service_id f) owner | None => false end in
  if negb (valid_name name) then inl ("invalid service name: " +:+ name) else
  let? r := register_owner owner name in_current_dispatch (registry st) in
  inr (set_registry r st).

Definition unregister_owner (owner name : string) (r : Registry) : string + Registry :=
  match published_names r !! name with
  | None => inl ("service name not found: " +:+ name)
  | Some o =>
      if String.eqb o owner then
        inr (set_names (delete name (published_names r)) (idx_erase owner name (owned_names r)) r)
      else inl ("service name is owned by another service: " +:+ name)
  end.

Definition unregister_name (name : string) (st : State) : string + State :=
  let owner := current_service_id st in
  if str_empty owner then inl "unregister requires current service context" else
  let? r := unregister_owner owner name (registry st) in
  inr (set_registry r st).

(** [list_services]: the published names in increasing order. *)
Fixpoint insert_sorted (n : string) (l : list string) : list string :=
  match l with
  | [] => [n]
  | x :: l' => match String.compare n x with Gt => x :: insert_sorted n l' | _ => n :: l end
  end.
Definition list_services (st : State) : list string :=
  foldr insert_sorted [] (map_to_list (published_names (registry st))).*1.

(** [service_actors.emplace]: an entry that exists is kept. *)
Definition emplace_actor (id : string) (a : Z) (r : Registry) : Registry :=
  match service_actors r !! id with
  | Some _ => r
  | None => set_service_actors (<[id := a]> (service_actors r)) r
  end.

(** What [spawn] undoes after a failed [on_init]. *)
Definition rollback_spawn (id : string) (r : Registry) : Registry :=
  release_names id (set_service_actors (delete id (service_actors r)) r).

(** The last section of [spawn]: publish the service unless its name has been
    taken meanwhile. *)
Definition publish_service (id : string) (vm : LuaVM) (r : Registry) : bool * Registry :=
  if bool_decide (is_Some (services r !! id)) || bool_decide (is_Some (published_names r !! id)) then
    (false, set_service_actors (delete id (service_actors r)) r)
  else
    (true, mkRegistry (<[id := vm]> (services r)) (<[id := id]> (published_names r))
             (idx_insert id id (owned_names r)) (service_order r ++ [id]) (recently_exited r)
             (service_actors r)).

(** The last section of [exit]. *)
Definition erase_service (id : string) (r : Registry) : option Z * Registry :=
  let r := release_names id r in
  (service_actors r !! id,
   mkRegistry (delete id (services r)) (published_names r) (owned_names r)
     (base.filter (fun x => x <> id) (service_order r)) ({[id]} ∪ recently_exited r)
     (delete id (service_actors r))).

Definition finish_exit (id : string) (st : State) : State :=
  let '(actor, r) := erase_service id (registry st) in
  let st := set_registry r st in
  match actor with Some a => anon_send_exit a st | None => st end.

Definition clear_order (st : State) : State :=
  let r := registry st in
  set_registry (mkRegistry (services r) (published_names r) (owned_names r) [] (recently_exited r)
                  (service_actors r)) st.

(** ** Forked tasks *)

Definition erase_task (id : Z) (t : Tasks) : Tasks :=
  mkTasks (next_task_id t) (base.filter (fun x => task_id x <> id) (pending_tasks t)) (tasks_by_service t).

Definition add_task (svc : string) (fn : task_fn) (t : Tasks) : Z * Tasks :=
  let id := next_task_id t in
  (id, mkTasks (id + 1) (pending_tasks t ++ [mkTask id svc fn])
         (idx_insert svc id (tasks_by_service t))).

Definition enqueue_forked_task (svc : string) (fn : task_fn) (st : State) : Z * State :=
  if str_empty svc then (0, st) else
  let '(id, t) := add_task svc fn (tasks st) in
  let st := set_tasks t st in
  match service_actors (registry st) !! svc with
  | Some a => (id, anon_send a (MForkTask id) st)
  | None =>
      (0, set_tasks (erase_task id (mkTasks (next_task_id t) (pending_tasks t)
                                      (idx_remove svc id (tasks_by_service t)))) st)
  end.

Definition cancel_forked_tasks_for_service (svc : string) (t : Tasks) : Tasks :=
  match tasks_by_service t !! svc with
  | Some ids =>
      mkTasks (next_task_id t) (base.filter (fun x => task_id x ∉ ids) (pending_tasks t))
        (delete svc (tasks_by_service t))
  | None => t
  end.

(** The critical section of [run_ready_fork_task]. *)
Definition take_task (id : Z) (t : Tasks) : option (ForkedTask * Tasks) :=
  match list_find (fun x => task_id x = id) (pending_tasks t) with
  | Some (i, x) =>
      Some (x, mkTasks (next_task_id t) (delete i (pending_tasks t))
                 (idx_remove (task_service x) (task_id x) (tasks_by_service t)))
  | None => None
  end.

Definition pending_task_count (svc : string) (st : State) : Z :=
  match tasks_by_service (tasks st) !! svc with Some ids => Z.of_nat (size ids) | None => 0 end.

(** ** Timers *)

Definition actor_timer (id interval : Z) (repeating : bool) (svc : string) (fn : timer_callback)
    (driver : option Z) : ActorTimerState :=
  mkTimer id interval repeating svc fn true driver.

(** The three [schedule_actor_timer_*] functions differ in [repeating] and in
    the callback.  The timer is entered, its driver spawned, and driver and
    index recorded; if the spawn throws the timer is removed again. *)
Definition schedule_actor_timer `{LuaWorld} (interval : Z) (repeating : bool) (fn : timer_callback)
    (svc : string) (st : State) : Z * State :=
  match service_actors (registry st) !! svc with
  | None => (0, st)
  | Some target =>
      let t := timers st in
      let id := next_actor_timer_id t in
      let entered := <[id := actor_timer id interval repeating svc fn None]> (actor_timers t) in
      let st := set_timers (mkTimers (id + 1) entered (actor_timers_by_service t)) st in
      match spawn_driver (mkDriver target (MTimerFire id) repeating) st with
      | inr (d, st) =>
          (id, set_timers (mkTimers (id + 1)
                             (<[id := actor_timer id interval repeating svc fn (Some d)]> entered)
                             (idx_insert svc id (actor_timers_by_service t))) st)
      | inl what =>
          (0, set_timers (mkTimers (id + 1) (delete id entered) (actor_timers_by_service t)) st)
      end
  end.
Definition schedule_actor_timer_once `{LuaWorld} (delay_ms : Z) (callback : script) (th : lua_thread)
    (svc : string) :=
  schedule_actor_timer delay_ms false (RawCallback callback th) svc.
Definition schedule_actor_timer_once_fn `{LuaWorld} (delay_ms : Z) (co : Z) (svc : string) :=
  schedule_actor_timer delay_ms false (NativeResume co) svc.
Definition schedule_actor_timer_fixed_delay `{LuaWorld} (interval_ms : Z) (callback : script)
    (th : lua_thread) (svc : string) :=
  schedule_actor_timer interval_ms true (RawCallback callback th) svc.

Definition cancel_actor_timer (id : Z) (st : State) : bool * State :=
  let t := timers st in
  match actor_timers t !! id with
  | None => (false, st)
  | Some x =>
      let st := match timer_driver x with Some d => anon_send_exit d st | None => st end in
      (true, set_timers (mkTimers (next_actor_timer_id t) (delete id (actor_timers t))
                           (idx_remove (timer_service x) id (actor_timers_by_service t))) st)
  end.

(** The timers of a service, cancelled one by one. *)
Definition cancel_timers_of (svc : string) (st : State) : State :=
  foldl (fun st id => snd (cancel_actor_timer id st)) st
    (elements (default ∅ (actor_timers_by_service (timers st) !! svc))).

(** The critical section of [fire_actor_timer]. *)
Definition take_timer (id : Z) (t : Timers) : option (ActorTimerState * Timers) :=
  match actor_timers t !! id with
  | Some x =>
      if timer_active x then
        Some (x, if repeating x then t
                 else mkTimers (next_actor_timer_id t) (delete id (actor_timers t))
                        (idx_erase_at (timer_service x) id (actor_timers_by_service t)))
      else None
  | None => None
  end.

Definition active_actor_timer_count (st : State) : Z := Z.of_nat (size (actor_timers (timers st))).

(** ** Calls *)

Definition set_pending_calls (v : gmap Z PendingCall) (c : Calls) : Calls :=
  mkCalls (next_call_session c) v (handler_call_session c) (actor_call_timeouts c)
    (next_sync_call_session c) (pending_sync_calls c) (sync_objects c).
Definition set_handler_sessions (v : gmap Z Z) (c : Calls) : Calls :=
  mkCalls (next_call_session c) (pending_calls c) v (actor_call_timeouts c)
    (next_sync_call_session c) (pending_sync_calls c) (sync_objects c).
Definition set_call_timeouts (v : gmap Z Z) (c : Calls) : Calls :=
  mkCalls (next_call_session c) (pending_calls c) (handler_call_session c) v
    (next_sync_call_session c) (pending_sync_calls c) (sync_objects c).
Definition set_sync (pending : gset Z) (objects : gmap Z PendingSyncCall) (c : Calls) : Calls :=
  mkCalls (next_call_session c) (pending_calls c) (handler_call_session c) (actor_call_timeouts c)
    (next_sync_call_session c) pending objects.

Definition kDefaultCallTimeoutMs : Z := 5000.
Definition effective_timeout (timeout_ms : Z) : Z :=
  if 0 <? timeout_ms then timeout_ms else kDefaultCallTimeoutMs.

Definition schedule_actor_call_timeout `{LuaWorld} (timeout_ms : Z) (svc : string) (session : Z)
    (st : State) : State :=
  if timeout_ms <=? 0 then st else
  match service_actors (registry st) !! svc with
  | None => st
  | Some target =>
      match spawn_driver (mkDriver target (MCallTimeout session) false) st with
      | inr (d, st) =>
          set_calls (set_call_timeouts (<[session := d]> (actor_call_timeouts (calls st))) (calls st)) st
      | inl what => st
      end
  end.

Definition cancel_actor_call_timeout (session : Z) (st : State) : bool * State :=
  match actor_call_timeouts (calls st) !! session with
  | None => (false, st)
  | Some d =>
      (true, set_calls (set_call_timeouts (delete session (actor_call_timeouts (calls st))) (calls st))
               (anon_send_exit d st))
  end.

(** The loop of [exit] over [actor_call_timeouts]. *)
Definition cancel_call_timeouts_of (svc : string) (st : State) : State :=
  foldl (fun st session =>
           match pending_calls (calls st) !! session with
           | Some pc => if String.eqb (caller_service pc) svc
                        then snd (cancel_actor_call_timeout session st) else st
           | None => st
           end) st (map_to_list (actor_call_timeouts (calls st))).*1.

(** The session is taken and entered; the coroutine is still running. *)
Definition suspend_for_call `{LuaWorld} (co : Z) (timeout_ms : Z) (st : State) : Z * State :=
  let c := calls st in
  let session := next_call_session c in
  let service := current_service_id st in
  let pc := mkPending session co (now st + effective_timeout timeout_ms) service in
  let st := set_calls (mkCalls (session + 1) (<[session := pc]> (pending_calls c)) (handler_call_session c)
                         (actor_call_timeouts c) (next_sync_call_session c) (pending_sync_calls c)
                         (sync_objects c)) st in
  (session,
   if str_empty service then st
   else schedule_actor_call_timeout (effective_timeout timeout_ms) service session st).

(** [co] is never null here. *)
Definition set_handler_call_session (co session : Z) (st : State) : State :=
  if session =? 0 then st
  else set_calls (set_handler_sessions (<[co := session]> (handler_call_session (calls st))) (calls st)) st.

(** [on_handler_completed] up to the call of [resume_caller]. *)
Definition take_handler_session (co : Z) (st : State) : option (Z * State) :=
  match handler_call_session (calls st) !! co with
  | None => None
  | Some session =>
      Some (session, set_calls (set_handler_sessions (delete co (handler_call_session (calls st)))
                                  (calls st)) st)
  end.

(** The first part of [resume_caller]: a blocked caller with this session gets
    the answer. *)
Definition complete_sync (session : Z) (ok : bool) (values : json) (st : State) : option State :=
  let c := calls st in
  if bool_decide (session ∈ pending_sync_calls c) then
    let old := default (mkSync false false JNull "") (sync_objects c !! session) in
    Some (add_log (EvSync session ok values)
            (set_calls (set_sync (pending_sync_calls c ∖ {[session]})
                          (<[session := mkSync true ok values (sync_error old)]> (sync_objects c)) c) st))
  else None.

(** Its second part up to the resumption: a suspended caller leaves the table. *)
Definition take_pending (session : Z) (ok : bool) (values : json) (st : State) : option (Z * State) :=
  let c := calls st in
  match pending_calls c !! session with
  | None => None
  | Some pc =>
      let st := set_calls (set_pending_calls (delete session (pending_calls c)) c) st in
      Some (caller_co pc,
            add_log (EvResume session (caller_co pc) ok values) (snd (cancel_actor_call_timeout session st)))
  end.

(** [call] before and after it blocks. *)
Definition new_sync_call (st : State) : Z * State :=
  let c := calls st in
  let session := next_sync_call_session c in
  (session,
   set_calls (mkCalls (next_call_session c) (pending_calls c) (handler_call_session c)
                (actor_call_timeouts c) (session + 1) ({[session]} ∪ pending_sync_calls c)
                (<[session := mkSync false false JNull ""]> (sync_objects c))) st).

Definition drop_sync_call (session : Z) (st : State) : State :=
  let c := calls st in
  set_calls (set_sync (pending_sync_calls c ∖ {[session]}) (sync_objects c) c) st.

(** ** Error counts *)

Definition count_error (id : string) (st : State) : Z * State :=
  let count := default 0 (error_counts st !! id) + 1 in
  (count, set_error_counts (<[id := count]> (error_counts st)) st).
Definition reset_error_count (id : string) (st : State) : State :=
  set_error_counts (delete id (error_counts st)) st.

(** ** Sending *)

(** The common tail of [send], [send_system] and [send_call_request]. *)
Definition find_actor (target : string) (st : State) : option Z :=
  service_actors (registry st) !! query_service target st.

Definition not_found (target : string) (st : State) : string :=
  if bool_decide (query_service target st ∈ recently_exited (registry st)) ||
     bool_decide (target ∈ recently_exited (registry st))
  then "service dead: " +:+ target else "service not found: " +:+ target.

(** The message with the context of the running handler. *)
Definition service_message (method : string) (args : json) (session : Z) (st : State) : mail :=
  MService (mkMessage (current_service_id st) method args (current_trace_id st)
              (current_deadline_ms st) Normal (now st) session).

Definition permitted `{LuaWorld} (target method : string) (st : State) : option string :=
  match permission_check with
  | Some hook =>
      let denial := hook (current_service_id st) target method in
      if str_empty denial then None else Some ("permission denied: " +:+ denial)
  | None => None
  end.

(** [inr (None, st)] is a return of true, [inr (Some error, st)] of false. *)
Definition send `{JsonLib, LuaWorld} (target method : string) (args : json) (st : State)
  : exn + (option string * State) :=
  if stopping st then inr (Some "runtime is stopping", st) else
  match validate_message_method method false with Some e => inr (Some e, st) | None =>
  match permitted target method st with Some e => inr (Some e, st) | None =>
  let? checked := validate_message_payload args in
  match checked with Some e => inr (Some e, st) | None =>
  match find_actor target st with
  | None => inr (Some (not_found target st), st)
  | Some a => inr (None, anon_send a (service_message method args 0 st) st)
  end end end end.

Definition send_system `{JsonLib, LuaWorld} (target method : string) (args : json) (st : State)
  : exn + (option string * State) :=
  if stopping st then inr (Some "runtime is stopping", st) else
  match validate_message_method method true with Some e => inr (Some e, st) | None =>
  let? checked := validate_message_payload args in
  match checked with Some e => inr (Some e, st) | None =>
  match find_actor target st with
  | None => inr (Some ("service not found: " +:+ target), st)
  | Some a => inr (None, anon_send a (MService (mkMessage "" method args "" 0 High (now st) 0)) st)
  end end end.

Definition send_call_request (target method : string) (args : json) (session : Z) (st : State)
  : option string * State :=
  match find_actor target st with
  | None => (Some ("service not found: " +:+ target), st)
  | Some a => (None, anon_send a (service_message method args session st) st)
  end.

(** ** Start *)

(** [resolve_script_path] and the constructor, which enters the configured
    actors; [emplace] keeps the first of two equal names. *)
Record RuntimeActorConfig := mkActorConfig { ac_name : string; ac_script : string; ac_source_dir : string }.

Definition path_div (dir file : string) : string :=
  if String.prefix "/" file then file
  else if str_empty dir then file
  else if String.eqb (String.substring (String.length dir - 1) 1 dir) "/" then dir +:+ file
  else dir +:+ "/" +:+ file.

Definition resolve_script_path (exists_ : string -> bool) (script_path : string) (a : RuntimeActorConfig)
  : string :=
  let script := ac_script a in
  if String.prefix "/" script || exists_ script then script
  else if negb (str_empty (ac_source_dir a)) && exists_ (path_div (ac_source_dir a) script)
  then path_div (ac_source_dir a) script
  else if exists_ (path_div script_path script) then path_div script_path script
  else script.

Definition add_module (exists_ : string -> bool) (script_path : string) (m : gmap string string)
    (a : RuntimeActorConfig) : gmap string string :=
  match m !! ac_name a with
  | Some _ => m
  | None => <[ac_name a := resolve_script_path exists_ script_path a]> m
  end.

Definition init_state (modules : gmap string string) : State :=
  mkState (mkRegistry ∅ ∅ ∅ [] ∅ ∅) (mkTasks 1 [] ∅) (mkTimers 1 ∅ ∅)
    (mkCalls 1 ∅ ∅ ∅ 1 ∅ ∅) (mkSystem 1 ∅ ∅ [] 1 ∅) false ∅ ∅ modules [] 0 [] [] SystemClock.

Definition new_manager (exists_ : string -> bool) (script_path : string)
    (runtime_actors : list RuntimeActorConfig) : State :=
  init_state (foldl (add_module exists_ script_path) ∅ runtime_actors).

Definition resolve_module (module : string) (st : State) : string :=
  default module (module_scripts st !! module).
