(* ===== verification/Services.v ===== *)
(** * Services: the operations of [LuaServiceManager] that run Lua code

    src/lua/lua_service.cpp, the entry points of src/lua/lua_runtime.cpp that it
    uses, and the functions of the [shield] table of src/lua/lua_api.cpp that
    reach the manager.

    Scripts call the manager and the manager runs scripts.  Every operation here
    is written with a parameter [run], the Lua interpreter, and [run] itself is
    defined at the end of the file from these operations; its argument [depth]
    bounds the nesting of manager operations started by scripts.  At depth zero
    a script fails, as a script does that exhausts the C stack; no theorem
    depends on the bound.

    A thread runs with its own dispatch stack ([on_thread]).  When [call] blocks,
    the other threads do what the next element of [schedule] says. *)

From S2P Require Import Prelude Text Json ServiceState.

Section Manager.
Context `{JsonLib, LuaWorld}.
Context (run : lua_thread -> script -> State -> lua_status * State).

(** ** lua_runtime.cpp *)

(** The second result as an error text, or the default. *)
Definition second_text (rest : list json) (d : string) : string :=
  match rest with
  | JNull :: _ | [] => d
  | v :: _ => match sol_as_string v with inr s => s | inl e => exn_what e end
  end.

(** [None] is a return of true, [Some error] of false. *)
Definition check_results (func_name : string) (values : list json) : option string :=
  match values with
  | JBool false :: rest => Some (second_text rest (func_name +:+ " returned false"))
  | JNull :: x :: rest => Some (second_text (x :: rest) (func_name +:+ " returned nil"))
  | _ => None
  end.

Definition call_service_function (vm : LuaVM) (func_name : string) (args : json) (st : State)
  : option string * State :=
  match vm_table vm func_name with
  | None => (None, st)
  | Some NotFunction => (Some (func_name +:+ " is not a function"), st)
  | Some (Function f) =>
      match run MainThread (f [args]) st with
      | (LuaOk values, st) => (check_results func_name values, st)
      | (LuaFails m, st) => (Some (sol_error_what m), st)
      | (LuaYield, st) => (Some (sol_error_what None), st)
      end
  end.

Definition call_service_method (vm : LuaVM) (method_name : string) (args : json) (st : State)
  : option string * State :=
  match vm_table vm method_name with
  | None => (Some ("method not found: " +:+ method_name), st)
  | Some NotFunction => (Some (method_name +:+ " is not a function"), st)
  | Some (Function f) =>
      match args with
      | JArr l =>
          match run MainThread (f l) st with
          | (LuaOk _, st) => (None, st)
          | (LuaFails m, st) => (Some (sol_error_what m), st)
          | (LuaYield, st) => (Some (sol_error_what None), st)
          end
      | _ => (Some "method args must be a JSON array", st)
      end
  end.

Definition invoke_hook (vm : LuaVM) (hook_name err_or_reason error_type method_name : string) (st : State)
  : State :=
  match vm_table vm hook_name with
  | Some (Function f) =>
      snd (run MainThread (f [JStr err_or_reason;
                              JObj [("method", JStr method_name); ("type", JStr error_type)]]) st)
  | _ => st
  end.

Definition exec_lua_vm (vm : LuaVM) (code : string) (st : State) : (string + list json) * State :=
  match load_chunk vm code with
  | inl e => (inl e, st)
  | inr body =>
      match run MainThread body st with
      | (LuaOk values, st) => (inr values, st)
      | (LuaFails m, st) => (inl (default "exec error" m), st)
      | (LuaYield, st) => (inl "exec error", st)
      end
  end.

(** ** Exit *)

Definition exit (id reason : string) (st : State) : State :=
  match services (registry st) !! id with
  | None => st
  | Some vm =>
      let st := push_scope id "" true "" 0 st in
      let '(_, st) := call_service_function vm "on_exit" (JStr reason) (add_log (EvExit id reason) st) in
      let st := set_tasks (cancel_forked_tasks_for_service id (tasks st)) st in
      let st := cancel_timers_of id st in
      let st := cancel_call_timeouts_of id st in
      pop_scope (finish_exit id st)
  end.

(** The body of the loop of [shutdown_all], with the set [seen]. *)
Definition shutdown_one (reason : string) (acc : State * gset string) (id : string)
  : State * gset string :=
  let '(st, seen) := acc in
  if bool_decide (id ∉ seen) && bool_decide (is_Some (services (registry st) !! id))
  then (exit id reason st, {[id]} ∪ seen)
  else (st, {[id]} ∪ seen).

(** Newest first; a service that an earlier exit took with it is skipped. *)
Definition shutdown_all (reason : string) (st : State) : State :=
  let st := set_stopping st in
  let '(st, _) :=
    foldl (shutdown_one reason) (st, ∅) (rev (service_order (registry st))) in
  clear_order st.

(** ** Errors *)

Definition invoke_error_hook (id error_type method_name error_message : string) (st : State) : State :=
  match services (registry st) !! id with
  | None => st
  | Some vm =>
      let '(count, st) := count_error id st in
      let st := invoke_hook vm "on_error" error_message error_type method_name st in
      if kDefaultMaxErrorsBeforePanic <=? default count (error_counts st !! id) then
        let st := invoke_hook vm "on_panic" "consecutive errors reached limit" error_type method_name st in
        exit id "panic" st
      else st
  end.

(** ** Answers *)

(** [push_json_to_stack]; an integer becomes a [lua_Integer] of 64 bits. *)
Definition push_json (v : json) : lua_value :=
  match v with
  | JNull => LNil
  | JBool b => LBool b
  | JInt z | JUInt z => LInt (signed64 z)
  | JStr s => LStr s
  | _ => LJson v
  end.

Definition resume_payload (ok : bool) (values : json) : list lua_value :=
  LBool ok :: match values with JArr l => map push_json l | JNull => [] | v => [push_json v] end.

(** [lua_resume] of a coroutine that is not suspended fails. *)
Definition resume_coroutine (co : Z) (payload : list lua_value) (st : State) : lua_status * State :=
  match coroutines (system st) !! co with
  | None => (LuaFails (Some "cannot resume non-suspended coroutine"), st)
  | Some k => run (Coroutine co) (k payload) (wake_coroutine co st)
  end.

Definition resume_caller (session : Z) (ok : bool) (values : json) (st : State) : State :=
  match complete_sync session ok values st with
  | Some st => st
  | None =>
      match take_pending session ok values st with
      | None => st
      | Some (co, st) => snd (resume_coroutine co (resume_payload ok values) st)
      end
  end.

Definition on_handler_completed (co : Z) (return_values : json) (st : State) : State :=
  match take_handler_session co st with
  | None => st
  | Some (session, st) => resume_caller session true return_values st
  end.

Definition timeout_err : json :=
  JArr [JObj [("code", JStr "timeout"); ("message", JStr "call timeout"); ("retryable", JBool true)]].

(** The expired sessions are collected first. *)
Definition expired_calls (now_ms : Z) (st : State) : list Z :=
  (base.filter (fun '(_, pc) => pc_deadline_ms pc <= now_ms) (map_to_list (pending_calls (calls st)))).*1.

Definition check_call_timeouts (now_ms : Z) (st : State) : Z * State :=
  let expired := expired_calls now_ms st in
  (Z.of_nat (length expired),
   foldl (fun st session => resume_caller session false timeout_err st) st expired).

(** ** Dispatch *)

Definition call_service_method_coroutine (vm : LuaVM) (method_name : string) (args : json)
    (call_session : Z) (id : string) (st : State) : option string * State :=
  match vm_table vm method_name with
  | None => (Some ("method not found: " +:+ method_name), st)
  | Some NotFunction => (Some (method_name +:+ " is not a function"), st)
  | Some (Function f) =>
      match args with
      | JArr l =>
          if negb (vm_coroutines vm) then call_service_method vm method_name args st else
          let '(co, st) := new_coroutine st in
          let st := set_handler_call_session co call_session st in
          match run (Coroutine co) (f l) st with
          | (LuaOk values, st) =>
              let st := if call_session =? 0 then st else on_handler_completed co (JArr values) st in
              (None, if str_empty id then st else reset_error_count id st)
          | (LuaYield, st) => (None, st)
          | (LuaFails m, st) =>
              let msg := default (method_name +:+ " raised an error") m in
              (Some msg, if str_empty id then st else invoke_error_hook id "handler" method_name msg st)
          end
      | _ => (Some "method args must be a JSON array", st)
      end
  end.

Definition dispatch_message (id : string) (msg : DispatchMessage) (st : State) : bool * State :=
  match services (registry st) !! id with
  | None => (false, st)
  | Some vm =>
      let st := push_scope id (dm_sender msg) false (dm_trace_id msg) (dm_deadline_ms msg) st in
      let '(_, st) := call_service_method_coroutine vm (dm_method msg) (dm_args msg) (dm_call_session msg)
                        id (add_log (EvDispatch id (dm_method msg)) st) in
      let st := match is_exit_requested st with
                | Some (exit_id, reason) => if String.eqb exit_id id then exit exit_id reason st else st
                | None => st
                end in
      (true, pop_scope st)
  end.

Definition dispatch_service_message (id : string) (m : ServiceMessage) (st : State) : State :=
  snd (dispatch_message id
         (mkDispatchMessage (msg_sender m) (msg_method m) (msg_args m) (msg_trace_id m) (msg_deadline_ms m)
            match msg_priority m with High => true | Normal => false end (msg_timestamp_ms m)
            (msg_call_session m)) st).

Definition dispatch_sync_call_message (id : string) (m : SyncCallMessage) (st : State) : State :=
  snd (dispatch_message id
         (mkDispatchMessage (sync_sender m) (sync_method m) (sync_args m) (sync_trace_id m)
            (sync_deadline_ms m) false (sync_timestamp_ms m) (sync_session m)) st).

Definition run_fork_task_now (task : ForkedTask) (st : State) : State :=
  let id := task_service task in
  let st := push_scope id "" false "" 0 (add_log (EvTask (task_id task)) st) in
  let st :=
    match task_body task with
    | RawFn fn th =>
        match run th fn st with
        | (LuaOk _, st) => st
        | (LuaFails m, st) => invoke_error_hook id "fork" "" (default "fork error" m) st
        | (LuaYield, st) => invoke_error_hook id "fork" "" "fork error" st
        end
    | NativeFn (Some what) => invoke_error_hook id "fork" "" what st
    | NativeFn None => st
    end in
  pop_scope st.

Definition run_ready_fork_task (id : Z) (st : State) : State :=
  match take_task id (tasks st) with
  | None => st
  | Some (task, t) => run_fork_task_now task (set_tasks t st)
  end.

Definition run_timer_callback_now (id : string) (fn : script) (th : lua_thread) (st : State) : State :=
  let st := push_scope id "" false "" 0 st in
  let st := match run th fn st with
            | (LuaOk _, st) => st
            | (LuaFails m, st) => invoke_error_hook id "timer" "" (default "timer error" m) st
            | (LuaYield, st) => invoke_error_hook id "timer" "" "timer error" st
            end in
  pop_scope st.

(** The callback of [_resume_after]. *)
Definition resume_fn (co : Z) (st : State) : State :=
  match resume_coroutine co [] st with
  | (LuaOk values, st) => on_handler_completed co (JArr values) st
  | (_, st) => st
  end.

Definition fire_actor_timer (id : string) (tid : Z) (st : State) : State :=
  match take_timer tid (timers st) with
  | None => st
  | Some (x, t) =>
      let st := add_log (EvTimer tid) (set_timers t st) in
      match timer_fn x with
      | NativeResume co => resume_fn co st
      | RawCallback fn th => run_timer_callback_now id fn th st
      end
  end.

(** The behaviour of a service actor after [init_ready_atom]. *)
Definition behaviour (svc : string) (m : mail) (st : State) : State :=
  match m with
  | MService msg => dispatch_service_message svc msg st
  | MSync req => dispatch_sync_call_message svc req st
  | MTimerFire tid => fire_actor_timer svc tid st
  | MCallTimeout session => resume_caller session false timeout_err (snd (cancel_actor_call_timeout session st))
  | MForkTask id => run_ready_fork_task id st
  | MInitReady | MExit => st
  end.

(** Running on a thread of its own. *)
Definition on_thread (f : State -> State) (st : State) : State :=
  set_stack (dispatch_stack st) (f (set_stack [] st)).

Definition set_actor (a : Z) (x : ServiceActor) (st : State) : State :=
  set_system (set_actors (<[a := x]> (actors (system st))) (system st)) st.

(** An actor receives a message.  Before [init_ready_atom] it stashes; the
    stashed messages then return to the mailbox. *)
Definition receive (a : Z) (m : mail) (st : State) : State :=
  let y := system st in
  match actors y !! a with
  | None =>
      match m with MExit => set_system (set_drivers (delete a (drivers y)) y) st | _ => st end
  | Some x =>
      match m with
      | MExit => set_system (set_actors (delete a (actors y)) y) st
      | MInitReady =>
          if actor_ready x then st
          else let st := set_actor a (mkActor (actor_service x) true []) st in
               set_system (set_outbox (map (pair a) (actor_stash x) ++ outbox (system st)) (system st)) st
      | _ =>
          if actor_ready x then on_thread (behaviour (actor_service x) m) st
          else set_actor a (mkActor (actor_service x) false (actor_stash x ++ [m])) st
      end
  end.

Definition env_step (st : State) (e : event) : State :=
  match e with
  | Deliver n =>
      match outbox (system st) !! n with
      | None => st
      | Some (a, m) =>
          receive a m (set_system (set_outbox (delete n (outbox (system st))) (system st)) st)
      end
  | Tick d =>
      match drivers (system st) !! d with
      | None => st
      | Some x =>
          let st := anon_send (driver_target x) (driver_mail x) st in
          if driver_repeats x then st
          else set_system (set_drivers (delete d (drivers (system st))) (system st)) st
      end
  | Advance ms => set_now (now st + Z.max 0 ms) st
  end.

(** ** Calls that block *)

Definition block (st : State) : State :=
  match schedule st with
  | [] => st
  | events :: rest => foldl env_step (set_schedule rest st) events
  end.

Definition call (target method : string) (args : json) (timeout_ms : Z) (st : State)
  : (string + json) * State :=
  if stopping st then (inl "runtime is stopping", st) else
  let id := query_service target st in
  match services (registry st) !! id with
  | None => (inl ("service not found: " +:+ target), st)
  | Some _ =>
  match service_actors (registry st) !! id with
  | None => (inl ("service not found: " +:+ target), st)
  | Some a =>
      if String.eqb (current_service_id st) id then (inl "self-call not supported", st) else
      let '(session, st) := new_sync_call st in
      let st := anon_send a (MSync (mkSyncCall session (current_service_id st) method args
                                      (current_trace_id st) (current_deadline_ms st) (now st))) st in
      let st := block st in
      let st := drop_sync_call session st in
      match sync_objects (calls st) !! session with
      | Some p =>
          if negb (completed p) then (inl "call timeout (actor dispatch exceeded limit)", st)
          else if sync_ok p then (inr (sync_values p), st)
          else (inl (sync_error p), st)
      | None => (inl "call timeout (actor dispatch exceeded limit)", st)
      end
  end end.

(** ** Spawn *)

Record SpawnOptions := mkOptions { opt_name : string; opt_args : json; opt_config : json }.

Definition spawn_options (opts : json) : outcome SpawnOptions :=
  let! name := value get_string "name" "" opts in
  let! args := value get_json "args" (JObj []) opts in
  let! config := value get_json "config" (JObj []) opts in
  Ret (mkOptions name args config).

Definition generated_name (module : string) : string :=
  module +:+ ":" +:+ to_string_u64 (name_hash module).

Definition init_args (name : string) (o : SpawnOptions) : json :=
  JObj [("args", opt_args o); ("config", opt_config o); ("id", JStr name); ("name", JStr name)].

(** The rest of [spawn] once the VM is loaded and the actor [a] is running. *)
Definition spawn_init (name : string) (vm : LuaVM) (o : SpawnOptions) (spawn_timeout_ms a : Z) (st : State)
  : (string + string) * State :=
  let st := set_registry (emplace_actor name a (registry st)) st in
  let init_start := now st in
  let st := push_scope name "" false "" 0 st in
  match call_service_function vm "on_init" (init_args name o) (add_log (EvInit name) st) with
  | (Some error, st) =>
      let init_ms := now st - init_start in
      if spawn_timeout_ms <=? init_ms then
        (inl ("spawn timeout: on_init took " +:+ to_string_i64 init_ms +:+ "ms (limit " +:+
              to_string_i64 spawn_timeout_ms +:+ "ms)"), pop_scope st)
      else (inl ("on_init failed for " +:+ name +:+ ": " +:+ error),
            pop_scope (set_registry (rollback_spawn name (registry st)) st))
  | (None, st) =>
      let exit_after_init :=
        match is_exit_requested st with
        | Some (exit_id, reason) => if String.eqb exit_id name then Some reason else None
        | None => None
        end in
      let st := pop_scope st in
      let '(published, r) := publish_service name vm (registry st) in
      let st := set_registry r st in
      if negb published then (inl ("service name already exists: " +:+ name), st) else
      let st := anon_send a MInitReady st in
      (inr name, match exit_after_init with Some reason => exit name reason st | None => st end)
  end.

(** The function-level [catch] turns an exception into an error; a value that
    [value] converts with undefined behaviour is treated alike. *)
Definition spawn (module opts_json : string) (st : State) : (string + string) * State :=
  if stopping st then (inl "runtime is stopping", st) else
  let parsed := let! opts := of_sum (json_parse (bytes_of opts_json)) in
                let! o := spawn_options opts in Ret (opts, o) in
  match parsed with
  | Throw e => (inl ("Spawn failed: " +:+ exn_what e), st)
  | Undef => (inl "Spawn failed: ", st)
  | Ret (opts, o) =>
      let name := if str_empty (opt_name o) then generated_name module else opt_name o in
      if bool_decide (is_Some (services (registry st) !! name)) then
        (inl ("service already exists: " +:+ name), st)
      else if bool_decide (is_Some (published_names (registry st) !! name)) then
        (inl ("service name already exists: " +:+ name), st)
      else if negb (valid_name name) then (inl ("invalid service name: " +:+ name), st) else
      let script_path := resolve_module module st in
      match register_api with
      | Some e => (inl ("Failed to register Lua API: " +:+ e), st)
      | None =>
      match load_service_module script_path with
      | inl e => (inl ("Failed to load module: " +:+ script_path +:+ ": " +:+ e), st)
      | inr vm =>
      match value get_int "timeout" 10000 opts with
      | Throw e => (inl ("Spawn failed: " +:+ exn_what e), st)
      | Undef => (inl "Spawn failed: ", st)
      | Ret spawn_timeout_ms =>
      match spawn_actor name st with
      | inl what => (inl ("Spawn failed: " +:+ what), st)
      | inr (a, st) => spawn_init name vm o spawn_timeout_ms a st
      end end end end
  end.

(** ** The console, and the end of the manager *)

Definition exec_lua (id code : string) (st : State) : (string + list json) * State :=
  match services (registry st) !! id with
  | None => (inl ("Service not found: " +:+ id), st)
  | Some vm => exec_lua_vm vm code st
  end.

Definition abandon_sync (objects : gmap Z PendingSyncCall) (session : Z) : gmap Z PendingSyncCall :=
  let old := default (mkSync false false JNull "") (objects !! session) in
  <[session := mkSync true false (sync_values old) "runtime is stopping"]> objects.

(** The destructor. *)
Definition destroy (st : State) : State :=
  let st := foldl (fun st id =>
              cancel_timers_of id (set_tasks (cancel_forked_tasks_for_service id (tasks st)) st))
              st (service_order (registry st)) in
  let st := foldl (fun st a => anon_send_exit a st) st
              (map_to_list (service_actors (registry st))).*2 in
  let st := set_registry (set_service_actors ∅ (registry st)) st in
  let st := foldl (fun st d => anon_send_exit d st) st
              (map_to_list (actor_call_timeouts (calls st))).*2 in
  let st := set_calls (set_call_timeouts ∅ (calls st)) st in
  let c := calls st in
  set_calls (set_sync ∅ (foldl abandon_sync (sync_objects c) (elements (pending_sync_calls c))) c) st.

(** ** The [shield] table (lua_api.cpp) *)

(** A function of the table returns, or it has arranged for the coroutine to be
    resumed and yields, with what the Lua wrapper makes of the values it is
    resumed with; or an exception becomes a Lua error. *)
Inductive api_result :=
| Responds (values : list lua_value) (st : State)
| Suspends (wrapper : list lua_value -> list lua_value) (st : State)
| Raises (message : string) (st : State).

Definition make_error (code message : string) : lua_value := LError code message false.

Definition spawn_error_code (message : string) : string :=
  if str_contains "timeout" message then "spawn_timeout"
  else if str_contains "on_init failed" message then "init_failed"
  else "spawn_failed".

Definition api_spawn (module : string) (opts : option json) (st : State) : api_result :=
  let options := match opts with Some (JObj l) => JObj l | _ => JObj [] end in
  match json_dump options with
  | inl e => Raises (exn_what e) st
  | inr text =>
      match spawn module text st with
      | (inl e, st) => Responds [LNil; make_error (spawn_error_code e) e] st
      | (inr id, st) => Responds [LHandle id; LNil] st
      end
  end.

Definition api_query (name : string) (st : State) : api_result :=
  let service := query_service name st in
  if str_empty service
  then Responds [LNil; make_error "service_not_found" ("service not found: " +:+ name)] st
  else Responds [LHandle service; LNil] st.

Definition api_register (name : string) (st : State) : api_result :=
  match register_name name st with
  | inl e => Responds [LBool false; make_error "register_failed" e] st
  | inr st => Responds [LBool true; LNil] st
  end.

Definition api_unregister (name : string) (st : State) : api_result :=
  match unregister_name name st with
  | inl e => Responds [LBool false; make_error "unregister_failed" e] st
  | inr st => Responds [LBool true; LNil] st
  end.

Definition send_error_code (e : string) : string * bool :=
  if str_contains "mailbox full" e then ("mailbox_full", true)
  else if str_contains "runtime is stopping" e then ("runtime_stopping", false)
  else if str_contains "message too large" e then ("message_too_large", false)
  else if str_contains "unsupported" e then ("encode_failed", false)
  else if str_contains "permission denied" e then ("permission_denied", false)
  else if str_contains "invalid method" e then ("invalid_method", false)
  else if str_contains "service dead" e then ("service_dead", false)
  else if str_contains "coroutine limit" e then ("coroutine_limit", false)
  else ("service_not_found", false).

Definition api_send (target method : string) (args : list json) (st : State) : api_result :=
  if str_empty target
  then Responds [LBool false; make_error "invalid_target" "target must be ServiceHandle or string"] st
  else match send target method (JArr args) st with
  | inl e => Raises (exn_what e) st
  | inr (Some e, st) =>
      let '(code, retryable) := send_error_code e in
      Responds [LBool false; LError code e retryable] st
  | inr (None, st) => Responds [LBool true; LNil] st
  end.

Definition call_error_code (msg : string) : string :=
  if str_contains "service not found" msg then "service_not_found"
  else if str_contains "service dead" msg then "service_dead"
  else if str_contains "method not found" msg then "method_not_found"
  else if str_contains "runtime is stopping" msg then "runtime_stopping"
  else if str_contains "invalid method" msg then "invalid_method"
  else if str_contains "coroutine limit" msg then "coroutine_limit"
  else "handler_error".

(** Iterating over a JSON value that is no container gives the value itself. *)
Definition json_items (j : json) : list json :=
  match j with JArr l => l | JObj l => l.*2 | JNull => [] | v => [v] end.

Definition call_with_timeout (timeout_ms : Z) (target method : string) (args : json) (st : State)
  : api_result :=
  match call target method args timeout_ms st with
  | (inl e, st) => Responds [LBool false; make_error (call_error_code e) e] st
  | (inr values, st) => Responds (LBool true :: map push_json (json_items values)) st
  end.

(** [_sync_call] and [_sync_call_timeout] *)
Definition api_sync_call (timeout_ms : Z) (target method : string) (args : list json) (st : State)
  : api_result :=
  if str_empty target
  then Responds [LBool false; make_error "invalid_target" "target must be ServiceHandle or string"] st
  else call_with_timeout timeout_ms target method (JArr args) st.

(** [_coro_call]: the session, 0 if the request could not be queued. *)
Definition coro_call (co : Z) (target method : string) (args : list json) (timeout_ms : Z) (st : State)
  : Z * State :=
  if str_empty target then (0, st) else
  let id := query_service target st in
  if str_empty id then (0, st) else
  let '(session, st) := suspend_for_call co timeout_ms st in
  match send_call_request id method (JArr args) session st with
  | (Some e, st) => (0, resume_caller session false (JArr [JStr e]) st)
  | (None, st) => (session, st)
  end.

(** What the wrapper returns from the values the coroutine is resumed with. *)
Definition call_reply (r : list lua_value) : list lua_value :=
  match r with
  | LBool true :: values => LBool true :: values
  | _ :: v :: _ => [LBool false; v]
  | _ => [LBool false; LNil]
  end.

(** [shield.call] and [shield.call_timeout] *)
Definition api_call_timeout (name : string) (th : lua_thread) (timeout_ms : Z) (target method : string)
    (args : list json) (st : State) : api_result :=
  if is_in_exit st then
    Responds [LBool false; make_error "api_not_allowed_in_exit" (name +:+ " is not allowed in on_exit")] st
  else match th with
  | MainThread => api_sync_call timeout_ms target method args st
  | Coroutine co | Detached co =>
      let '(session, st) := coro_call co target method args timeout_ms st in
      if session =? 0 then api_sync_call timeout_ms target method args st
      else Suspends call_reply st
  end.

Definition optional_string (s : string) : lua_value := if str_empty s then LNil else LStr s.

Definition api_timer (interval : Z) (repeating : bool) (callback : script) (th : lua_thread) (st : State)
  : api_result :=
  let id := current_service_id st in
  if kTimerLimit <=? active_actor_timer_count st
  then Responds [LNil; make_error "timer_limit" "timer limit reached"] st
  else
    let '(tid, st) :=
      if str_empty id then (0, st)
      else if repeating then schedule_actor_timer_fixed_delay interval callback (detach th) id st
      else schedule_actor_timer_once interval callback (detach th) id st in
    Responds [LInt tid] st.

Definition api_cancel_timer (id : Z) (st : State) : api_result :=
  let '(cancelled, st) := cancel_actor_timer id st in
  Responds [LBool cancelled;
            if cancelled then LNil
            else make_error "timer_not_found" "Timer not found or already completed"] st.

(** [_resume_after] *)
Definition resume_after (co : Z) (delay_ms : Z) (st : State) : State :=
  let id := current_service_id st in
  if str_empty id then st else snd (schedule_actor_timer_once_fn (Z.max 0 delay_ms) co id st).

(** [shield.sleep]: blocking on the main thread. *)
Definition api_sleep (th : lua_thread) (ms : Z) (st : State) : api_result :=
  match th with
  | MainThread => Responds [] (set_now (now st + Z.max 0 ms) (block st))
  | Coroutine co | Detached co => Suspends (fun _ => []) (resume_after co ms st)
  end.

Definition api_fork (fn : script) (th : lua_thread) (st : State) : api_result :=
  let id := current_service_id st in
  if kForkLimit <=? pending_task_count id st
  then Responds [LNil; make_error "fork_limit" "fork limit reached"] st
  else let '(tid, st) := enqueue_forked_task id (RawFn fn (detach th)) st in Responds [LInt tid] st.

Definition api_call (th : lua_thread) (a : api) (st : State) : api_result :=
  match a with
  | ASpawn module opts => api_spawn module opts st
  | AExit reason => Responds [] (request_current_exit (default "normal" reason) st)
  | ASelf => Responds [let id := current_service_id st in if str_empty id then LNil else LHandle id] st
  | ANames => Responds [LNames (list_services st)] st
  | AQuery name => api_query name st
  | ARegister name => api_register name st
  | AUnregister name => api_unregister name st
  | ASend target method args => api_send target method args st
  | ACall target method args => api_call_timeout "shield.call" th 5000 target method args st
  | ACallTimeout t target method args => api_call_timeout "shield.call_timeout" th t target method args st
  | ANow => Responds [LInt (clock_now_ms st)] st
  | ASender => Responds [optional_string (current_sender_id st)] st
  | ATrace => Responds [optional_string (current_trace_id st)] st
  | ADeadline => Responds [let dl := current_deadline_ms st in if dl <=? 0 then LNil else LInt dl] st
  | ATimerOnce delay callback => api_timer delay false callback th st
  | ATimer interval callback => api_timer interval true callback th st
  | ACancelTimer id => api_cancel_timer id st
  | ASleep ms => api_sleep th ms st
  | AFork fn => api_fork fn th st
  end.

End Manager.

(** ** The interpreter *)

Definition yield_error : string := "attempt to yield from outside a coroutine".

(** One script; [nested] runs the scripts that the manager starts for it. *)
Fixpoint interpret `{JsonLib, LuaWorld} (nested : lua_thread -> script -> State -> lua_status * State)
    (th : lua_thread) (s : script) (st : State) : lua_status * State :=
  match s with
  | Return values => (LuaOk values, st)
  | Raise m => (LuaFails m, st)
  | Api a k =>
      match api_call nested th a st with
      | Responds values st => interpret nested th (k values) st
      | Raises m st => (LuaFails (Some m), st)
      | Suspends wrapper st =>
          match th with
          | Coroutine co => (LuaYield, yield_coroutine co (fun r => k (wrapper r)) st)
          | _ => (LuaFails (Some yield_error), st)
          end
      end
  end.

Fixpoint run `{JsonLib, LuaWorld} (depth : nat) : lua_thread -> script -> State -> lua_status * State :=
  match depth with
  | O => fun _ _ st => (LuaFails (Some "C stack overflow"), st)
  | S d => interpret (run d)
  end.

(** ** The program around the manager

    Bootstrap, gateways, console and the actor system call the manager. *)
Inductive command :=
| CSpawn (module opts_json : string)
| CSend (target method : string) (args : json)
| CSendSystem (target method : string) (args : json)
| CCall (target method : string) (args : json) (timeout_ms : Z)
| CExit (id reason : string)
| CShutdown (reason : string)
| CExec (id code : string)
| CTimeouts (now_ms : Z)
| CFork (id : string) (fn : task_fn)
| CClock (c : option Clock)
| CSchedule (blocking : list (list event))
| CEvent (e : event).

Definition perform `{JsonLib, LuaWorld} (depth : nat) (c : command) (st : State) : State :=
  match c with
  | CSpawn module opts => snd (spawn (run depth) module opts st)
  | CSend target method args => match send target method args st with inl _ => st | inr (_, st) => st end
  | CSendSystem target method args =>
      match send_system target method args st with inl _ => st | inr (_, st) => st end
  | CCall target method args t => snd (call (run depth) target method args t st)
  | CExit id reason => exit (run depth) id reason st
  | CShutdown reason => shutdown_all (run depth) reason st
  | CExec id code => snd (exec_lua (run depth) id code st)
  | CTimeouts now_ms => snd (check_call_timeouts (run depth) now_ms st)
  | CFork id fn => snd (enqueue_forked_task id fn st)
  | CClock c => attach_clock c st
  | CSchedule blocking => set_schedule blocking st
  | CEvent e => env_step (run depth) st e
  end.

(** The states of a manager under a program that does anything. *)
Inductive reachable `{JsonLib, LuaWorld} (depth : nat) (modules : gmap string string) : State -> Prop :=
| reach_init : reachable depth modules (init_state modules)
| reach_step c st : reachable depth modules st -> reachable depth modules (perform depth c st).
