(* ===== verification/ServiceDemo.v ===== *)
(** * ServiceDemo: a concrete world for the service manager

    Two services with a few methods, a parser that reads a text as the name of
    the service to start, and the states of a manager that runs them; inputs for
    evaluating the model. *)

From S2P Require Import Prelude Text Json ServiceState Services.

(** [json_parse] makes the options [{"name": text}]; ["{}"] has no name. *)
#[export] Instance demo_json : JsonLib := {
  json_parse := fun b => let text := string_of b in
    inr (if String.eqb text "{}" then JObj [] else JObj [("name", JStr text)]);
  json_dump := fun _ => inr "[]";
  json_error := fun _ _ _ => "type error"
}.

Definition answer (values : list json) : list json -> script := fun _ => Return values.
Definition vm_of (l : list (string * (list json -> script))) : LuaVM :=
  mkVM (fun name => option_map Function (list_to_map (M := gmap string (list json -> script)) l !! name)) true.

(** A service that answers, fails, forks and sets a timer. *)
Definition echo_vm : LuaVM := vm_of
  [("ping", fun args => Return args);
   ("boom", fun _ => Raise (Some "boom"));
   ("work", fun _ => Api (AFork (Return [])) (fun _ => Api (ATimer 50 (Return [])) (fun _ => Return [])))].

(** A service whose handlers call [echo]: one answers with the reply, one then
    registers a name, one sleeps twice. *)
Definition front_vm : LuaVM := vm_of
  [("ask", fun args => Api (ACall "echo" "ping" args) (fun _ => Return [JStr "done"]));
   ("alias", fun args => Api (ACall "echo" "ping" args) (fun _ =>
               Api (ARegister "front.alias") (fun _ => Return [])));
   ("nap", fun _ => Api (ASleep 10) (fun _ => Api (ASleep 10) (fun _ => Return [])));
   ("on_exit", fun _ => Api (ASpawn "echo" None) (fun _ => Return []))].

(** [on_init] registers the service's own name, or takes too long and fails. *)
Definition eager_vm : LuaVM := vm_of
  [("on_init", fun _ => Api (ARegister "eager") (fun _ => Return []))].
Definition slow_vm : LuaVM := vm_of
  [("on_init", fun _ => Api (ARegister "slow.alias") (fun _ =>
                 Api (ASleep 20000) (fun _ => Return [JBool false])))].

#[export] Instance demo_world : LuaWorld := {
  load_service_module := fun m =>
    if String.eqb m "echo" then inr echo_vm else if String.eqb m "front" then inr front_vm
    else if String.eqb m "eager" then inr eager_vm else if String.eqb m "slow" then inr slow_vm
    else inl "no such module";
  register_api := None;
  name_hash := fun _ => 42;
  caf_spawn_throws := fun _ => None;
  permission_check := None;
  sol_error_what := fun m => default "error" m;
  sol_as_string := fun v => match v with JStr s => inr s | _ => inl (JsonExn "not a string") end;
  load_chunk := fun _ _ => inl "syntax error";
  wall_clock := fun ms => 1700000000000 + ms
}.

(** A sequence of commands from the start. *)
Definition after (cs : list command) : State :=
  foldl (fun st c => perform 4 c st) (init_state ∅) cs.

Lemma after_reachable cs : reachable 4 ∅ (after cs).
Proof.
  unfold after. induction cs as [|c cs IH] using rev_ind; [apply reach_init|].
  rewrite foldl_app. by apply reach_step.
Qed.

Definition start : list command :=
  [CSpawn "echo" "echo"; CSpawn "front" "front"; CEvent (Deliver 0); CEvent (Deliver 0)].

Definition msg (target method : string) : command := CSend target method (JArr [JInt 7]).
