(* ===== verification/ServiceSteps.v ===== *)
(** * ServiceSteps: what any Lua code can do to the service manager

    The state of the manager has four parts that change independently: the
    registry with the [stopping] flag, the tasks, the timers, and the calls with
    the actor system and the log.  A step relation for each lists the changes
    the critical sections make, and [evolves] relates two states whose parts are
    related by sequences of such steps.  The main lemma, [run_evolves], says that
    an arbitrary script, with everything the manager does on its behalf, makes
    the state evolve; an invariant then only has to be checked against the steps
    of one part. *)

From stdpp Require Import relations.
From S2P Require Import Prelude Text Json ServiceState Services.

(** ** Steps of the parts *)

Definition without_order (r : Registry) : Registry :=
  mkRegistry (services r) (published_names r) (owned_names r) [] (recently_exited r) (service_actors r).

(** [b] is the [stopping] flag, which only [shutdown_all] sets: a service is
    published only while it is clear, the order is cleared only when it is set. *)
Inductive reg_step (b : bool) : Registry -> Registry -> Prop :=
| rs_emplace r id a : reg_step b r (emplace_actor id a r)
| rs_rollback r id : reg_step b r (rollback_spawn id r)
| rs_publish r id vm : b = false -> valid_name id = true -> reg_step b r (snd (publish_service id vm r))
| rs_register r owner name d r' :
    valid_name name = true -> register_owner owner name d r = inr r' -> reg_step b r r'
| rs_unregister r owner name r' : unregister_owner owner name r = inr r' -> reg_step b r r'
| rs_erase r id : reg_step b r (snd (erase_service id r))
| rs_clear r : b = true -> reg_step b r (without_order r).

Inductive task_step : Tasks -> Tasks -> Prop :=
| ts_add t svc fn : task_step t (snd (add_task svc fn t))
| ts_rollback t svc : forall fn,
    let id := fst (add_task svc fn t) in let t' := snd (add_task svc fn t) in
    task_step t (erase_task id (mkTasks (next_task_id t') (pending_tasks t')
                                  (idx_remove svc id (tasks_by_service t'))))
| ts_cancel t svc : task_step t (cancel_forked_tasks_for_service svc t)
| ts_take t id x t' : take_task id t = Some (x, t') -> task_step t t'.

Definition add_timer (interval : Z) (repeating : bool) (svc : string) (fn : timer_callback) (d : Z)
    (t : Timers) : Timers :=
  let id := next_actor_timer_id t in
  mkTimers (id + 1)
    (<[id := actor_timer id interval repeating svc fn (Some d)]>
       (<[id := actor_timer id interval repeating svc fn None]> (actor_timers t)))
    (idx_insert svc id (actor_timers_by_service t)).

Definition drop_timer (id : Z) (x : ActorTimerState) (t : Timers) : Timers :=
  mkTimers (next_actor_timer_id t) (delete id (actor_timers t))
    (idx_remove (timer_service x) id (actor_timers_by_service t)).

Inductive timer_step : Timers -> Timers -> Prop :=
| ms_add t interval rep svc fn d : timer_step t (add_timer interval rep svc fn d t)
| ms_refused t x : let id := next_actor_timer_id t in
    timer_step t (mkTimers (id + 1) (delete id (<[id := x]> (actor_timers t))) (actor_timers_by_service t))
| ms_cancel t id x : actor_timers t !! id = Some x -> timer_step t (drop_timer id x t)
| ms_take t id x t' : take_timer id t = Some (x, t') -> timer_step t t'.

(** The actor system changes without a new driver. *)
Record sys_step (y y' : System) : Prop := {
  sys_next : next_actor y <= next_actor y';
  sys_drivers : drivers y' ⊆ drivers y
}.

Definition add_driver (d : Driver) (y : System) : System :=
  mkSystem (next_actor y + 1) (actors y) (<[next_actor y := d]> (drivers y)) (outbox y) (next_co y)
    (coroutines y).

Definition quiet (e : log_event) : bool :=
  match e with EvResume _ _ _ _ | EvSync _ _ _ => false | _ => true end.

Definition after_suspend (pc : PendingCall) (c : Calls) : Calls :=
  mkCalls (next_call_session c + 1) (<[next_call_session c := pc]> (pending_calls c))
    (handler_call_session c) (actor_call_timeouts c) (next_sync_call_session c) (pending_sync_calls c)
    (sync_objects c).

Record CallSide := mkCallSide { cs_calls : Calls; cs_system : System; cs_log : list log_event }.

Inductive call_step : CallSide -> CallSide -> Prop :=
| cs_sys c y y' l : sys_step y y' -> call_step (mkCallSide c y l) (mkCallSide c y' l)
| cs_driver c y l target mail rep :
    (forall s, mail <> MCallTimeout s) ->
    call_step (mkCallSide c y l) (mkCallSide c (add_driver (mkDriver target mail rep) y) l)
| cs_quiet c y l e : quiet e = true -> call_step (mkCallSide c y l) (mkCallSide c y (l ++ [e]))
| cs_suspend c y l pc : call_step (mkCallSide c y l) (mkCallSide (after_suspend pc c) y l)
| cs_timeout c y l target s :
    is_Some (pending_calls c !! s) ->
    call_step (mkCallSide c y l)
      (mkCallSide (set_call_timeouts (<[s := next_actor y]> (actor_call_timeouts c)) c)
         (add_driver (mkDriver target (MCallTimeout s) false) y) l)
| cs_cancel c y l s :
    call_step (mkCallSide c y l)
      (mkCallSide (set_call_timeouts (delete s (actor_call_timeouts c)) c) y l)
| cs_handlers c y l h : call_step (mkCallSide c y l) (mkCallSide (set_handler_sessions h c) y l)
| cs_complete c y l s ok v p :
    s ∈ pending_sync_calls c ->
    call_step (mkCallSide c y l)
      (mkCallSide (set_sync (pending_sync_calls c ∖ {[s]}) (<[s := p]> (sync_objects c)) c) y
         (l ++ [EvSync s ok v]))
| cs_resume c y l s pc ok v :
    pending_calls c !! s = Some pc ->
    call_step (mkCallSide c y l)
      (mkCallSide (set_call_timeouts (delete s (actor_call_timeouts c))
                     (set_pending_calls (delete s (pending_calls c)) c)) y
         (l ++ [EvResume s (caller_co pc) ok v]))
| cs_new_sync c y l :
    call_step (mkCallSide c y l)
      (mkCallSide (calls (snd (new_sync_call (set_calls c (init_state ∅))))) y l)
| cs_drop_sync c y l s :
    call_step (mkCallSide c y l)
      (mkCallSide (set_sync (pending_sync_calls c ∖ {[s]}) (sync_objects c) c) y l).

(** ** Evolution *)

Definition call_part (st : State) : CallSide := mkCallSide (calls st) (system st) (log st).

Record evolves (st st' : State) : Prop := {
  ev_stopping : stopping st' = stopping st;
  ev_reg : rtc (reg_step (stopping st)) (registry st) (registry st');
  ev_tasks : rtc task_step (tasks st) (tasks st');
  ev_timers : rtc timer_step (timers st) (timers st');
  ev_calls : rtc call_step (call_part st) (call_part st')
}.

#[export] Instance evolves_preorder : PreOrder evolves.
Proof.
  split.
  - intros st. split; reflexivity.
  - intros a b c [E1] [E2]. rewrite E1 in *. split; etrans; eauto.
Qed.

Lemma evolves_refl st : evolves st st.
Proof. reflexivity. Qed.
#[export] Hint Resolve evolves_refl : core.

(** A change of the fields that no step relation looks at. *)
Lemma evolves_context st st' :
  stopping st' = stopping st -> registry st' = registry st -> tasks st' = tasks st ->
  timers st' = timers st -> call_part st' = call_part st -> evolves st st'.
Proof. intros E0 E1 E2 E3 E4. split; rewrite ?E1, ?E2, ?E3, ?E4; try apply rtc_refl. done. Qed.

(** One step of the call side, the rest unchanged. *)
Lemma evolves_call st st' :
  stopping st' = stopping st -> registry st' = registry st -> tasks st' = tasks st ->
  timers st' = timers st -> call_step (call_part st) (call_part st') -> evolves st st'.
Proof.
  intros E0 E1 E2 E3 Hc. split; rewrite ?E1, ?E2, ?E3; try apply rtc_refl; [done|]. by apply rtc_once.
Qed.

Lemma evolves_reg r st : reg_step (stopping st) (registry st) r -> evolves st (set_registry r st).
Proof. intros Hr. split; try apply rtc_refl; [done|]. by apply rtc_once. Qed.

Lemma evolves_tasks t st : task_step (tasks st) t -> evolves st (set_tasks t st).
Proof. intros Ht. split; try apply rtc_refl; [done|]. by apply rtc_once. Qed.

Lemma evolves_timers t st : timer_step (timers st) t -> evolves st (set_timers t st).
Proof. intros Ht. split; try apply rtc_refl; [done|]. by apply rtc_once. Qed.

Lemma evolves_foldl {A} (f : State -> A -> State) l st :
  (forall st x, evolves st (f st x)) -> evolves st (foldl f st l).
Proof. intros Hf. revert st. induction l as [|x l IH]; intros st; cbn; [reflexivity|]. etrans; [apply Hf|apply IH]. Qed.

Create HintDb evolve.
#[export] Hint Extern 1 (quiet _ = true) => reflexivity : evolve.

(** Sections that touch nothing of interest. *)
Ltac context_step := apply evolves_context; reflexivity.

Lemma set_stack_evolves v st : evolves st (set_stack v st).
Proof. context_step. Qed.
Lemma set_now_evolves v st : evolves st (set_now v st).
Proof. context_step. Qed.
Lemma set_schedule_evolves v st : evolves st (set_schedule v st).
Proof. context_step. Qed.
Lemma attach_clock_evolves c st : evolves st (attach_clock c st).
Proof. destruct c; context_step. Qed.
Lemma count_error_evolves id st : evolves st (snd (count_error id st)).
Proof. context_step. Qed.
Lemma reset_error_count_evolves id st : evolves st (reset_error_count id st).
Proof. context_step. Qed.
Lemma push_scope_evolves id s e t d st : evolves st (push_scope id s e t d st).
Proof. context_step. Qed.
Lemma pop_scope_evolves st : evolves st (pop_scope st).
Proof.
  unfold pop_scope. destruct (dispatch_stack st); [reflexivity|]. case_head; context_step.
Qed.
Lemma request_current_exit_evolves r st : evolves st (request_current_exit r st).
Proof.
  unfold request_current_exit. destruct (dispatch_stack st); [reflexivity|].
  case_head; [reflexivity|context_step].
Qed.

Lemma sys_same y y' : next_actor y' = next_actor y -> drivers y' = drivers y -> sys_step y y'.
Proof. intros E1 E2. split; rewrite ?E1, ?E2; [lia|done]. Qed.

(** A change of the actor system with the drivers left alone. *)
Lemma set_system_evolves y st : sys_step (system st) y -> evolves st (set_system y st).
Proof. intros Hy. apply evolves_call; try done. by apply cs_sys. Qed.

Lemma anon_send_evolves a m st : evolves st (anon_send a m st).
Proof. apply set_system_evolves. by apply sys_same. Qed.
Lemma anon_send_exit_evolves a st : evolves st (anon_send_exit a st).
Proof. apply anon_send_evolves. Qed.
Lemma new_coroutine_evolves st : evolves st (snd (new_coroutine st)).
Proof. apply set_system_evolves. by apply sys_same. Qed.
Lemma yield_coroutine_evolves co k st : evolves st (yield_coroutine co k st).
Proof. apply set_system_evolves. by apply sys_same. Qed.
Lemma wake_coroutine_evolves co st : evolves st (wake_coroutine co st).
Proof. apply set_system_evolves. by apply sys_same. Qed.
Lemma spawn_actor_evolves `{LuaWorld} svc st a st' : spawn_actor svc st = inr (a, st') -> evolves st st'.
Proof.
  unfold spawn_actor. intros Hs. case_in Hs; [done|]. injection Hs as <- <-.
  apply set_system_evolves. split; cbn; [lia|done].
Qed.

Lemma add_log_evolves e st : quiet e = true -> evolves st (add_log e st).
Proof. intros He. apply evolves_call; try reflexivity. by apply cs_quiet. Qed.

#[export] Hint Resolve set_stack_evolves set_now_evolves set_schedule_evolves attach_clock_evolves count_error_evolves
  reset_error_count_evolves push_scope_evolves pop_scope_evolves request_current_exit_evolves
  anon_send_evolves anon_send_exit_evolves new_coroutine_evolves yield_coroutine_evolves
  wake_coroutine_evolves add_log_evolves spawn_actor_evolves : evolve.

(** ** The registry *)

Lemma emplace_evolves id a st : evolves st (set_registry (emplace_actor id a (registry st)) st).
Proof. apply evolves_reg, rs_emplace. Qed.
Lemma rollback_evolves id st : evolves st (set_registry (rollback_spawn id (registry st)) st).
Proof. apply evolves_reg, rs_rollback. Qed.
Lemma publish_evolves id vm st :
  stopping st = false -> valid_name id = true ->
  evolves st (set_registry (snd (publish_service id vm (registry st))) st).
Proof. intros Hs Hv. by apply evolves_reg, rs_publish. Qed.
Lemma register_name_evolves name st st' : register_name name st = inr st' -> evolves st st'.
Proof.
  unfold register_name. intros Hr. case_in Hr; [done|]. cbv zeta in Hr.
  match type of Hr with (if negb (valid_name name) then _ else _) = _ =>
    destruct (valid_name name) eqn:Hv; cbn [negb] in Hr; [|done] end.
  apply ebind_inr in Hr as (r & Hr & [= <-]). by eapply evolves_reg, rs_register.
Qed.
Lemma unregister_name_evolves name st st' : unregister_name name st = inr st' -> evolves st st'.
Proof.
  unfold unregister_name. intros Hr. case_in Hr; [done|].
  apply ebind_inr in Hr as (r & Hr & [= <-]). by eapply evolves_reg, rs_unregister.
Qed.
Lemma finish_exit_evolves id st : evolves st (finish_exit id st).
Proof.
  unfold finish_exit. pose proof (rs_erase (stopping st) (registry st) id) as Hs.
  destruct (erase_service id (registry st)) as [o r]; cbn in Hs.
  etrans; [by apply evolves_reg|]. destruct o; auto with evolve.
Qed.
Lemma clear_order_evolves st : stopping st = true -> evolves st (clear_order st).
Proof. intros Hs. by apply (evolves_reg (without_order (registry st))), rs_clear. Qed.

#[export] Hint Resolve emplace_evolves rollback_evolves publish_evolves register_name_evolves
  unregister_name_evolves finish_exit_evolves clear_order_evolves : evolve.

(** ** Tasks and timers *)

Lemma enqueue_evolves svc fn st : evolves st (snd (enqueue_forked_task svc fn st)).
Proof.
  unfold enqueue_forked_task. case_head; [reflexivity|]. cbn -[idx_insert idx_remove].
  case_head.
  - etrans; [|apply anon_send_evolves]. apply (evolves_tasks (snd (add_task svc fn (tasks st)))), ts_add.
  - split; try apply rtc_refl; [done|]. apply rtc_once. exact (ts_rollback (tasks st) svc fn).
Qed.
Lemma cancel_tasks_evolves svc st :
  evolves st (set_tasks (cancel_forked_tasks_for_service svc (tasks st)) st).
Proof. apply evolves_tasks, ts_cancel. Qed.
Lemma take_task_evolves id x t st : take_task id (tasks st) = Some (x, t) -> evolves st (set_tasks t st).
Proof. intros Ht. by eapply evolves_tasks, ts_take. Qed.

Lemma spawn_driver_inv `{LuaWorld} d st a st' :
  spawn_driver d st = inr (a, st') ->
  a = next_actor (system st) /\ st' = set_system (add_driver d (system st)) st.
Proof. unfold spawn_driver. intros Hs. case_in Hs; [done|]. by injection Hs as <- <-. Qed.

Lemma schedule_timer_evolves `{LuaWorld} i rep fn svc st :
  evolves st (snd (schedule_actor_timer i rep fn svc st)).
Proof.
  unfold schedule_actor_timer. case_head; [|reflexivity]. cbv zeta.
  case_head; [|].
  - split; try apply rtc_refl; [done|]. cbn. apply rtc_once, ms_refused.
  - destruct p as [d st']. apply spawn_driver_inv in E0 as [-> ->]. split; try apply rtc_refl; [done| |].
    + cbn. apply rtc_once. by apply ms_add.
    + apply rtc_once. by apply cs_driver.
Qed.
Lemma cancel_timer_evolves id st : evolves st (snd (cancel_actor_timer id st)).
Proof.
  unfold cancel_actor_timer. destruct (actor_timers (timers st) !! id) as [x|] eqn:E; [|reflexivity].
  cbn [snd]. transitivity (set_timers (drop_timer id x (timers st)) st).
  - by apply evolves_timers, ms_cancel.
  - destruct (timer_driver x); [|reflexivity].
    change (evolves (set_timers (drop_timer id x (timers st)) st)
              (anon_send_exit z (set_timers (drop_timer id x (timers st)) st))).
    apply anon_send_exit_evolves.
Qed.
Lemma cancel_timers_of_evolves svc st : evolves st (cancel_timers_of svc st).
Proof. apply evolves_foldl. intros. apply cancel_timer_evolves. Qed.
Lemma take_timer_evolves id x t st : take_timer id (timers st) = Some (x, t) -> evolves st (set_timers t st).
Proof. intros Ht. by eapply evolves_timers, ms_take. Qed.

#[export] Hint Resolve enqueue_evolves cancel_tasks_evolves take_task_evolves schedule_timer_evolves
  cancel_timer_evolves cancel_timers_of_evolves take_timer_evolves : evolve.

(** ** Calls *)

Lemma schedule_call_timeout_evolves `{LuaWorld} t svc s st :
  is_Some (pending_calls (calls st) !! s) -> evolves st (schedule_actor_call_timeout t svc s st).
Proof.
  intros Hs. unfold schedule_actor_call_timeout. case_head; [reflexivity|]. case_head; [|reflexivity].
  case_head; [reflexivity|]. destruct p as [d st']. apply spawn_driver_inv in E1 as [-> ->].
  apply evolves_call; try reflexivity. by apply cs_timeout.
Qed.
Lemma cancel_call_timeout_evolves s st : evolves st (snd (cancel_actor_call_timeout s st)).
Proof.
  unfold cancel_actor_call_timeout. case_head; [|reflexivity]. cbn [snd].
  etrans; [apply (anon_send_exit_evolves z)|]. apply evolves_call; try reflexivity.
  apply (cs_cancel _ _ _ s).
Qed.
Lemma cancel_call_timeouts_of_evolves svc st : evolves st (cancel_call_timeouts_of svc st).
Proof.
  apply evolves_foldl. intros st' s. case_head; [|reflexivity].
  case_head; [apply cancel_call_timeout_evolves|reflexivity].
Qed.
Lemma suspend_evolves `{LuaWorld} co t st : evolves st (snd (suspend_for_call co t st)).
Proof.
  unfold suspend_for_call. cbn [snd]. cbv zeta.
  match goal with |- context [set_calls ?c st] => transitivity (set_calls c st) end.
  - apply evolves_call; try reflexivity. apply cs_suspend.
  - case_head; [reflexivity|]. apply schedule_call_timeout_evolves. cbn. by rewrite lookup_insert_eq.
Qed.
Lemma set_handler_call_session_evolves co s st : evolves st (set_handler_call_session co s st).
Proof.
  unfold set_handler_call_session. case_head; [reflexivity|]. apply evolves_call; try reflexivity.
  apply cs_handlers.
Qed.
Lemma take_handler_evolves co st s st' : take_handler_session co st = Some (s, st') -> evolves st st'.
Proof.
  unfold take_handler_session. intros Ht. case_in Ht; [|done]. injection Ht as <- <-.
  apply evolves_call; try reflexivity. apply cs_handlers.
Qed.
Lemma complete_sync_evolves s ok v st st' : complete_sync s ok v st = Some st' -> evolves st st'.
Proof.
  unfold complete_sync. intros Hc. case_in Hc; [|done]. injection Hc as <-.
  apply bool_decide_eq_true in E. apply evolves_call; try reflexivity. by apply cs_complete.
Qed.
Lemma take_pending_evolves s ok v st co st' : take_pending s ok v st = Some (co, st') -> evolves st st'.
Proof.
  unfold take_pending. intros Ht. case_in Ht; [|done]. injection Ht as <- <-.
  unfold cancel_actor_call_timeout. cbn [calls set_calls set_pending_calls actor_call_timeouts].
  case_head; cbn [snd].
  - etrans; [apply (anon_send_exit_evolves z)|]. apply evolves_call; try reflexivity.
    by apply cs_resume.
  - apply evolves_call; try reflexivity.
    unfold call_part; cbn. replace (set_pending_calls (delete s (pending_calls (calls st))) (calls st))
      with (set_call_timeouts (delete s (actor_call_timeouts (calls st)))
              (set_pending_calls (delete s (pending_calls (calls st))) (calls st))).
    + by apply cs_resume.
    + unfold set_call_timeouts, set_pending_calls; cbn. rewrite (delete_id (actor_call_timeouts (calls st)) s); [reflexivity|done].
Qed.
Lemma new_sync_evolves st : evolves st (snd (new_sync_call st)).
Proof. apply evolves_call; try reflexivity. apply cs_new_sync. Qed.
Lemma drop_sync_evolves s st : evolves st (drop_sync_call s st).
Proof. apply evolves_call; try reflexivity. apply cs_drop_sync. Qed.

#[export] Hint Resolve cancel_call_timeout_evolves cancel_call_timeouts_of_evolves suspend_evolves
  set_handler_call_session_evolves take_handler_evolves complete_sync_evolves take_pending_evolves
  new_sync_evolves drop_sync_evolves : evolve.

(** ** Operations that run scripts *)

Section Running.
Context `{JsonLib, LuaWorld}.
Context (run : lua_thread -> script -> State -> lua_status * State).
Context (Hrun : forall th s st, evolves st (snd (run th s st))).

(** Name the result of an operation [f] that the goal takes apart, given that
    it evolves. *)
Ltac result_of lem :=
  let He := fresh "He" in
  pose proof lem as He;
  lazymatch type of He with
  | evolves _ (snd ?t) => let o := fresh "o" in let st := fresh "st" in
                          destruct t as [o st]; cbn [snd] in He
  end.
(** Split off the last operation applied to the state. *)
Ltac last := etrans; [|solve [eauto 2 with evolve nocore]].

Lemma call_service_function_evolves vm f args st :
  evolves st (snd (call_service_function run vm f args st)).
Proof.
  unfold call_service_function. destruct (vm_table vm f) as [[|g]|]; [reflexivity| |reflexivity].
  result_of (Hrun MainThread (g [args]) st). by destruct o.
Qed.

Lemma call_service_method_evolves vm f args st :
  evolves st (snd (call_service_method run vm f args st)).
Proof.
  unfold call_service_method. destruct (vm_table vm f) as [[|g]|]; [reflexivity| |reflexivity].
  destruct args; try reflexivity.
  result_of (Hrun MainThread (g l) st). by destruct o.
Qed.

Lemma invoke_hook_evolves vm h e t m st : evolves st (invoke_hook run vm h e t m st).
Proof. unfold invoke_hook. destruct (vm_table vm h) as [[|g]|]; try reflexivity. apply Hrun. Qed.

Lemma exec_lua_evolves id code st : evolves st (snd (exec_lua run id code st)).
Proof.
  unfold exec_lua, exec_lua_vm. case_head; [|reflexivity]. case_head; [reflexivity|].
  result_of (Hrun MainThread s st). by destruct o.
Qed.

Lemma exit_evolves id reason st : evolves st (exit run id reason st).
Proof.
  unfold exit. case_head; [|reflexivity].
  result_of (call_service_function_evolves l "on_exit" (JStr reason)
               (add_log (EvExit id reason) (push_scope id "" true "" 0 st))).
  do 5 last. etrans; [|exact He]. by do 2 last.
Qed.

Lemma invoke_error_hook_evolves id t m e st : evolves st (invoke_error_hook run id t m e st).
Proof.
  unfold invoke_error_hook. case_head; [|reflexivity]. result_of (count_error_evolves id st).
  etrans; [exact He|]. cbv zeta. case_head; [|apply invoke_hook_evolves].
  etrans; [apply invoke_hook_evolves|]. etrans; [apply invoke_hook_evolves|]. apply exit_evolves.
Qed.

Lemma resume_coroutine_evolves co p st : evolves st (snd (resume_coroutine run co p st)).
Proof.
  unfold resume_coroutine. case_head; [|reflexivity]. etrans; [|apply Hrun]. auto with evolve.
Qed.

Lemma resume_caller_evolves s ok v st : evolves st (resume_caller run s ok v st).
Proof.
  unfold resume_caller. case_head; [eauto with evolve|]. case_head; [|reflexivity].
  destruct p as [co st']. etrans; [|apply resume_coroutine_evolves]. eauto with evolve.
Qed.

Lemma on_handler_completed_evolves co v st : evolves st (on_handler_completed run co v st).
Proof.
  unfold on_handler_completed. case_head; [|reflexivity]. destruct p as [s st'].
  etrans; [|apply resume_caller_evolves]. eauto with evolve.
Qed.

Lemma check_call_timeouts_evolves n st : evolves st (snd (check_call_timeouts run n st)).
Proof. apply evolves_foldl. intros. apply resume_caller_evolves. Qed.

Lemma call_service_method_coroutine_evolves vm m args s id st :
  evolves st (snd (call_service_method_coroutine run vm m args s id st)).
Proof.
  unfold call_service_method_coroutine. destruct (vm_table vm m) as [[|g]|]; [reflexivity| |reflexivity].
  destruct args; try reflexivity. case_head; [apply call_service_method_evolves|].
  result_of (new_coroutine_evolves st). etrans; [exact He|].
  result_of (Hrun (Coroutine o) (g l) (set_handler_call_session o s st0)).
  etrans; [apply set_handler_call_session_evolves|]. etrans; [exact He0|].
  destruct o0; cbn [snd]; [| reflexivity |].
  - case_head; case_head; try reflexivity; auto with evolve; etrans;
      [apply on_handler_completed_evolves|reflexivity|apply on_handler_completed_evolves|auto with evolve].
  - case_head; [reflexivity|apply invoke_error_hook_evolves].
Qed.

Lemma dispatch_message_evolves id msg st : evolves st (snd (dispatch_message run id msg st)).
Proof.
  unfold dispatch_message. case_head; [|reflexivity].
  match goal with |- context [call_service_method_coroutine run ?vm ?m ?a ?s ?i ?st0] =>
    result_of (call_service_method_coroutine_evolves vm m a s i st0) end.
  cbn [snd]. last. case_head; [destruct p; case_head; [etrans; [|apply exit_evolves]|]|];
    (etrans; [|exact He]; by do 2 last).
Qed.

Lemma dispatch_service_message_evolves id m st : evolves st (dispatch_service_message run id m st).
Proof. apply dispatch_message_evolves. Qed.
Lemma dispatch_sync_call_message_evolves id m st : evolves st (dispatch_sync_call_message run id m st).
Proof. apply dispatch_message_evolves. Qed.

Lemma run_fork_task_now_evolves t st : evolves st (run_fork_task_now run t st).
Proof.
  unfold run_fork_task_now. last. etrans; [apply (add_log_evolves (EvTask (task_id t))); reflexivity|].
  etrans; [apply (push_scope_evolves (task_service t) "" false "" 0)|].
  destruct (task_body t) as [fn th|[w|]]; [|apply invoke_error_hook_evolves|reflexivity].
  match goal with |- context [run ?th ?fn ?s] => result_of (Hrun th fn s) end.
  etrans; [exact He|]. destruct o; [reflexivity| |]; apply invoke_error_hook_evolves.
Qed.

Lemma run_ready_fork_task_evolves id st : evolves st (run_ready_fork_task run id st).
Proof.
  unfold run_ready_fork_task. case_head; [|reflexivity]. destruct p as [t tl].
  etrans; [|apply run_fork_task_now_evolves]. eauto with evolve.
Qed.

Lemma run_timer_callback_now_evolves id fn th st : evolves st (run_timer_callback_now run id fn th st).
Proof.
  unfold run_timer_callback_now. last. etrans; [apply (push_scope_evolves id "" false "" 0)|].
  match goal with |- context [run ?th ?fn ?s] => result_of (Hrun th fn s) end.
  etrans; [exact He|]. destruct o; [reflexivity| |]; apply invoke_error_hook_evolves.
Qed.

Lemma resume_fn_evolves co st : evolves st (resume_fn run co st).
Proof.
  unfold resume_fn. result_of (resume_coroutine_evolves co [] st). etrans; [exact He|].
  destruct o; try reflexivity. apply on_handler_completed_evolves.
Qed.

Lemma fire_actor_timer_evolves id t st : evolves st (fire_actor_timer run id t st).
Proof.
  unfold fire_actor_timer. case_head; [|reflexivity]. destruct p as [x tm].
  etrans; [by eapply take_timer_evolves|]. etrans; [by apply (add_log_evolves (EvTimer t))|].
  case_head; [apply run_timer_callback_now_evolves|apply resume_fn_evolves].
Qed.

Lemma behaviour_evolves svc m st : evolves st (behaviour run svc m st).
Proof.
  destruct m; cbn; [apply dispatch_service_message_evolves|apply dispatch_sync_call_message_evolves|
    apply fire_actor_timer_evolves| |apply run_ready_fork_task_evolves|reflexivity|reflexivity].
  etrans; [|apply resume_caller_evolves]. auto with evolve.
Qed.

Lemma on_thread_evolves f st : (forall st, evolves st (f st)) -> evolves st (on_thread f st).
Proof. intros Hf. unfold on_thread. last. etrans; [|apply Hf]. auto with evolve. Qed.

Lemma receive_evolves a m st : evolves st (receive run a m st).
Proof.
  unfold receive. cbv zeta. destruct (actors (system st) !! a) as [x|].
  - destruct m; try (case_head; [apply on_thread_evolves; intros; apply behaviour_evolves|
      apply set_system_evolves; by apply sys_same]).
    + case_head; [reflexivity|]. etrans; apply set_system_evolves; by apply sys_same.
    + apply set_system_evolves. by apply sys_same.
  - destruct m; try reflexivity. apply set_system_evolves. split; cbn; [lia|]. apply delete_subseteq.
Qed.

Lemma env_step_evolves e st : evolves st (env_step run st e).
Proof.
  destruct e as [n|d|ms]; cbn; [| |auto with evolve].
  - case_head; [|reflexivity]. destruct p. etrans; [|apply receive_evolves].
    apply set_system_evolves. by apply sys_same.
  - case_head; [|reflexivity]. etrans; [apply (anon_send_evolves (driver_target d0) (driver_mail d0))|].
    case_head; [reflexivity|]. apply set_system_evolves. split; cbn; [lia|]. apply delete_subseteq.
Qed.

Lemma block_evolves st : evolves st (block run st).
Proof.
  unfold block. case_head; [reflexivity|]. etrans; [apply (set_schedule_evolves l0)|].
  apply evolves_foldl. intros. apply env_step_evolves.
Qed.

Lemma call_evolves t m a ms st : evolves st (snd (call run t m a ms st)).
Proof.
  unfold call. case_head; [reflexivity|]. cbv zeta. case_head; [|reflexivity].
  destruct (service_actors (registry st) !! query_service t st); [|reflexivity].
  case_head; [reflexivity|]. result_of (new_sync_evolves st). etrans; [exact He|].
  match goal with |- context [block run ?s] => transitivity (block run s) end.
  - etrans; [|apply block_evolves]. auto with evolve.
  - etrans; [apply (drop_sync_evolves o)|]. by repeat (case_head; cbn [snd]).
Qed.
Lemma spawn_init_evolves name vm o t a st :
  stopping st = false -> valid_name name = true -> evolves st (snd (spawn_init run name vm o t a st)).
Proof.
  intros Hs Hv. unfold spawn_init. cbv zeta.
  match goal with |- context [call_service_function run vm "on_init" ?x ?s] =>
    result_of (call_service_function_evolves vm "on_init" x s) end.
  etrans; [apply (emplace_evolves name a)|].
  etrans; [apply (push_scope_evolves name "" false "" 0)|].
  etrans; [by apply (add_log_evolves (EvInit name))|]. etrans; [exact He|].
  destruct o0 as [e|].
  - case_head; cbn [snd]; [auto with evolve|]. last. auto with evolve.
  - etrans; [apply pop_scope_evolves|].
    assert (Hs0 : stopping (pop_scope st0) = false).
    { rewrite (ev_stopping _ _ (pop_scope_evolves st0)), (ev_stopping _ _ He). exact Hs. }
    pose proof (publish_evolves name vm (pop_scope st0) Hs0 Hv) as Hp.
    destruct (publish_service name vm (registry (pop_scope st0))) as [b r]; cbn [snd] in Hp.
    etrans; [exact Hp|]. case_head; [reflexivity|]. cbn [snd].
    etrans; [apply (anon_send_evolves a MInitReady)|].
    repeat case_head; try reflexivity; apply exit_evolves.
Qed.

Lemma spawn_evolves m o st : evolves st (snd (spawn run m o st)).
Proof.
  unfold spawn. destruct (stopping st) eqn:Hs; [reflexivity|]. cbv zeta.
  destruct (obind _ _) as [[opts so]|e|]; [|reflexivity|reflexivity].
  destruct (bool_decide (is_Some (services (registry st) !! _))); [reflexivity|].
  destruct (bool_decide (is_Some (published_names (registry st) !! _))); [reflexivity|].
  destruct (valid_name _) eqn:Hv; cbn [negb]; [|reflexivity].
  destruct register_api; [reflexivity|]. destruct (load_service_module _); [reflexivity|].
  destruct (value _ _ _ _) as [t| |]; [|reflexivity|reflexivity].
  destruct (spawn_actor _ _) as [|[a st']] eqn:Ea; [reflexivity|].
  pose proof (spawn_actor_evolves _ _ _ _ Ea) as He. etrans; [exact He|].
  apply spawn_init_evolves; [|done]. by rewrite (ev_stopping _ _ He).
Qed.

Lemma coro_call_evolves co t m a ms st : evolves st (snd (coro_call run co t m a ms st)).
Proof.
  unfold coro_call. case_head; [reflexivity|]. cbv zeta. case_head; [reflexivity|].
  result_of (suspend_evolves co ms st). etrans; [exact He|]. unfold send_call_request.
  case_head; cbn [snd]; [auto with evolve|apply resume_caller_evolves].
Qed.

Lemma send_evolves t m a st o st' : send t m a st = inr (o, st') -> evolves st st'.
Proof.
  unfold send, ebind. intros Hs. repeat (case_in Hs; simplify_eq; auto with evolve).
Qed.

Lemma send_system_evolves t m a st o st' : send_system t m a st = inr (o, st') -> evolves st st'.
Proof.
  unfold send_system, ebind. intros Hs. repeat (case_in Hs; simplify_eq; auto with evolve).
Qed.

Definition result_state (r : api_result) : State :=
  match r with Responds _ st | Suspends _ st | Raises _ st => st end.

Lemma api_sync_call_evolves ms t m a st : evolves st (result_state (api_sync_call run ms t m a st)).
Proof.
  unfold api_sync_call, call_with_timeout. case_head; [reflexivity|].
  result_of (call_evolves t m (JArr a) ms st). by destruct o.
Qed.

Lemma api_call_timeout_evolves n th ms t m a st :
  evolves st (result_state (api_call_timeout run n th ms t m a st)).
Proof.
  unfold api_call_timeout. case_head; [reflexivity|].
  destruct th; [apply api_sync_call_evolves| |];
    (result_of (coro_call_evolves co t m a ms st); etrans; [exact He|];
     case_head; [apply api_sync_call_evolves|reflexivity]).
Qed.

Lemma api_timer_evolves i rep cb th st : evolves st (result_state (api_timer i rep cb th st)).
Proof.
  unfold api_timer. cbv zeta. case_head; [reflexivity|]. case_head; [reflexivity|].
  destruct rep; [unfold schedule_actor_timer_fixed_delay|unfold schedule_actor_timer_once];
    match goal with |- context [schedule_actor_timer ?a ?b ?c ?d ?e] =>
      result_of (schedule_timer_evolves a b c d e) end; exact He.
Qed.

Lemma api_call_evolves th a st : evolves st (result_state (api_call run th a st)).
Proof.
  destruct a; cbn [api_call]; try reflexivity; try apply api_call_timeout_evolves;
    try apply api_timer_evolves; cbn [result_state]; auto with evolve.
  - unfold api_spawn. cbv zeta. destruct (json_dump _) as [|s]; [reflexivity|].
    result_of (spawn_evolves module s st). by destruct o.
  - unfold api_query. by case_head.
  - unfold api_register. case_head; cbn; [reflexivity|eauto with evolve].
  - unfold api_unregister. case_head; cbn; [reflexivity|eauto with evolve].
  - unfold api_send. case_head; [reflexivity|].
    destruct (send target method (JArr args) st) as [|[[e|] st']] eqn:Es; [reflexivity| |];
      apply send_evolves in Es; [by destruct (send_error_code e)|done].
  - unfold api_cancel_timer. result_of (cancel_timer_evolves id st). exact He.
  - unfold api_sleep. destruct th; cbn [result_state]; [last; apply block_evolves| |];
      unfold resume_after; case_head; auto; apply schedule_timer_evolves.
  - unfold api_fork. case_head; [reflexivity|].
    match goal with |- context [enqueue_forked_task ?a ?b st] => result_of (enqueue_evolves a b st) end.
    exact He.
Qed.

End Running.

(** ** Everything *)

Lemma interpret_evolves `{JsonLib, LuaWorld} nested th s st :
  (forall th s st, evolves st (snd (nested th s st))) -> evolves st (snd (interpret nested th s st)).
Proof.
  intros Hn. revert th s st. fix go 2. intros th s st.
  destruct s as [vs|m|a k]; [reflexivity|reflexivity|].
  pose proof (api_call_evolves nested Hn th a st) as Ha. cbn [interpret].
  destruct (api_call nested th a st) as [vs st'|w st'|m st']; cbn [result_state] in Ha.
  - etrans; [exact Ha|]. exact (go th (k vs) st').
  - etrans; [exact Ha|]. destruct th; cbn [snd]; auto with evolve.
  - exact Ha.
Qed.

(** An arbitrary script, run on any thread, only makes the state evolve. *)
Lemma run_evolves `{JsonLib, LuaWorld} depth th s st : evolves st (snd (run depth th s st)).
Proof.
  revert th s st. induction depth as [|d IH]; [reflexivity|]. intros. by apply interpret_evolves.
Qed.

(** The loop of [shutdown_all]. *)
Lemma shutdown_loop_evolves `{JsonLib, LuaWorld} d reason l st seen :
  evolves st (fst (foldl (shutdown_one (run d) reason) (st, seen) l)).
Proof.
  revert st seen. induction l as [|x l IH]; intros st seen; cbn [foldl]; [done|].
  unfold shutdown_one at 2. case_head; [|apply IH]. etrans; [|apply IH].
  apply exit_evolves, run_evolves.
Qed.

Lemma shutdown_all_evolves `{JsonLib, LuaWorld} d reason st :
  evolves (set_stopping st) (shutdown_all (run d) reason st).
Proof.
  unfold shutdown_all.
  pose proof (shutdown_loop_evolves d reason (rev (service_order (registry (set_stopping st))))
                (set_stopping st) ∅) as He.
  destruct (foldl _ _ _) as [st' seen]; cbn [fst] in He. etrans; [exact He|].
  apply clear_order_evolves. by rewrite (ev_stopping _ _ He).
Qed.

(** Every command but a shutdown is an evolution. *)
Lemma command_evolves `{JsonLib, LuaWorld} d c st :
  (forall reason, c <> CShutdown reason) -> evolves st (perform d c st).
Proof.
  pose proof (run_evolves d) as Hr. intros Hc.
  destruct c; cbn [perform]; try (by destruct (Hc reason)); auto with evolve.
  - by apply spawn_evolves.
  - case_head; [done|]. destruct p as [o st']. by eapply send_evolves.
  - case_head; [done|]. destruct p as [o st']. by eapply send_system_evolves.
  - by apply call_evolves.
  - by apply exit_evolves.
  - by apply exec_lua_evolves.
  - by apply check_call_timeouts_evolves.
  - by apply env_step_evolves.
Qed.

(** Every command is an evolution, or one after [stopping] has been set. *)
Lemma perform_evolves `{JsonLib, LuaWorld} d c st :
  evolves st (perform d c st) \/ evolves (set_stopping st) (perform d c st).
Proof.
  destruct c; try (left; by apply command_evolves). right. apply shutdown_all_evolves.
Qed.

(** Induction for invariants of the reachable states. *)
Lemma reachable_invariant `{JsonLib, LuaWorld} (P : State -> Prop) d m :
  P (init_state m) ->
  (forall st st', evolves st st' -> P st -> P st') ->
  (forall st, P st -> P (set_stopping st)) ->
  forall st, reachable d m st -> P st.
Proof.
  intros Hi He Hs st Hr. induction Hr as [|c st Hr IH]; [done|].
  destruct (perform_evolves d c st) as [Hc|Hc]; eauto.
Qed.
