(* ===== verification/Registry.v ===== *)
(** * Registry: names and services in every state of the service manager

    [owned_names] is an index of [published_names] by owner, kept so that the
    names of a service can be withdrawn when it exits.  This file shows that the
    index is exact whatever the scripts do, that the pair implements a plain map
    from names to owners ([NameService]), and that the list of services, their
    table and the validity of names stay consistent. *)

From stdpp Require Import relations.
From S2P Require Import Prelude Text Json ServiceState Services ServiceDemo ServiceSteps.

(** ** Index lemmas *)

Section InIndex.
Context {V : Type} `{Countable V}.
Implicit Types m : gmap string (gset V).

Definition in_idx m (k : string) (v : V) : Prop := v ∈ default ∅ (m !! k).

Lemma in_idx_insert m k v k' v' :
  in_idx (idx_insert k v m) k' v' <-> (k' = k /\ v' = v) \/ in_idx m k' v'.
Proof.
  unfold in_idx, idx_insert. destruct (decide (k' = k)) as [->|].
  - rewrite lookup_insert_eq. cbn. set_solver.
  - rewrite lookup_insert_ne by done. set_solver.
Qed.

Lemma in_idx_erase_at m k v k' v' :
  in_idx (idx_erase_at k v m) k' v' <-> in_idx m k' v' /\ ~ (k' = k /\ v' = v).
Proof.
  unfold in_idx, idx_erase_at. destruct (decide (k' = k)) as [->|].
  - rewrite lookup_insert_eq. cbn. set_solver.
  - rewrite lookup_insert_ne by done. set_solver.
Qed.

Lemma in_idx_erase m k v k' v' :
  in_idx (idx_erase k v m) k' v' <-> in_idx m k' v' /\ ~ (k' = k /\ v' = v).
Proof.
  unfold idx_erase. destruct (m !! k) as [s|] eqn:E.
  - rewrite <- (in_idx_erase_at m k v). unfold idx_erase_at. by rewrite E.
  - unfold in_idx. split; [|naive_solver]. intros Hv. split; [done|]. intros [-> ->].
    rewrite E in Hv. set_solver.
Qed.

Lemma in_idx_remove m k v k' v' :
  in_idx (idx_remove k v m) k' v' <-> in_idx m k' v' /\ ~ (k' = k /\ v' = v).
Proof.
  rewrite <- in_idx_erase. unfold idx_remove, idx_erase. destruct (m !! k) as [s|] eqn:E; [|done].
  case_bool_decide as Hs; [|done]. unfold in_idx. destruct (decide (k' = k)) as [->|].
  - rewrite lookup_delete_eq, lookup_insert_eq. cbn. by rewrite Hs.
  - by rewrite lookup_delete_ne, lookup_insert_ne.
Qed.

Lemma in_idx_delete m k k' v : in_idx (delete k m) k' v <-> in_idx m k' v /\ k' <> k.
Proof.
  unfold in_idx. destruct (decide (k' = k)) as [->|].
  - rewrite lookup_delete_eq. cbn. set_solver.
  - rewrite lookup_delete_ne by done. set_solver.
Qed.
End InIndex.

Lemma lookup_foldr_delete {A} (m : gmap string A) l n :
  foldr delete m l !! n = if bool_decide (n ∈ l) then None else m !! n.
Proof.
  induction l as [|x l IH]; cbn; [done|]. destruct (decide (n = x)) as [->|].
  - rewrite lookup_delete_eq. by rewrite bool_decide_true by set_solver.
  - rewrite lookup_delete_ne, IH by done. repeat case_bool_decide; set_solver.
Qed.

(** ** The abstract name service *)

Module NameService.
(** A map from names to their owners. *)
Implicit Types m : gmap string string.

Definition claim (owner name : string) m : option (gmap string string) :=
  match m !! name with
  | Some o => if String.eqb o owner then Some (<[name := owner]> m) else None
  | None => Some (<[name := owner]> m)
  end.
Definition withdraw (owner name : string) m : option (gmap string string) :=
  match m !! name with
  | Some o => if String.eqb o owner then Some (delete name m) else None
  | None => None
  end.
Definition release (owner : string) m : gmap string string := base.filter (fun '(_, o) => o <> owner) m.
End NameService.

(** ** The invariant *)

Record consistent (p : bool * Registry) : Prop := {
  names_indexed : forall n o, published_names p.2 !! n = Some o <-> in_idx (owned_names p.2) o n;
  names_valid : forall n, is_Some (published_names p.2 !! n) -> valid_name n = true;
  ids_valid : forall s, is_Some (services p.2 !! s) -> valid_name s = true;
  order_unique : NoDup (service_order p.2);
  order_running : forall s, s ∈ service_order p.2 -> is_Some (services p.2 !! s);
  running_ordered : p.1 = false -> forall s, is_Some (services p.2 !! s) -> s ∈ service_order p.2
}.

(** Releasing through the index withdraws exactly the names of the owner. *)
Lemma release_names_published b r id :
  consistent (b, r) ->
  published_names (release_names id r) = NameService.release id (published_names r).
Proof.
  intros Hc. pose proof (names_indexed _ Hc) as Hi; cbn in Hi. apply map_eq. intros n.
  unfold NameService.release, release_names.
  assert (Hl : base.filter (fun '(_, o) => o <> id) (published_names r) !! n =
               if bool_decide (n ∈ default ∅ (owned_names r !! id)) then None else published_names r !! n).
  { case_bool_decide as Hn.
    - apply map_lookup_filter_None_2. right. intros o Ho Hne. pose proof (proj2 (Hi n id) Hn). congruence.
    - destruct (published_names r !! n) as [o|] eqn:Eo.
      + apply map_lookup_filter_Some_2; [done|]. intros ->. destruct Hn. by apply (Hi n id).
      + apply map_lookup_filter_None_2. by left. }
  etrans; [|symmetry; exact Hl]. unfold in_idx. destruct (owned_names r !! id) as [s|] eqn:Es; cbn.
  - rewrite lookup_foldr_delete. repeat case_bool_decide; set_solver.
  - by rewrite bool_decide_false by set_solver.
Qed.

Lemma release_names_owned id r o n :
  in_idx (owned_names (release_names id r)) o n <-> in_idx (owned_names r) o n /\ o <> id.
Proof.
  unfold release_names. destruct (owned_names r !! id) as [s|] eqn:Es; cbn; [apply in_idx_delete|].
  split; [|naive_solver]. intros Hn. split; [done|]. intros ->. unfold in_idx in Hn.
  rewrite Es in Hn. set_solver.
Qed.

Lemma release_names_rest id r :
  services (release_names id r) = services r /\ service_order (release_names id r) = service_order r /\
  service_actors (release_names id r) = service_actors r.
Proof. unfold release_names. by case_head. Qed.

(** A registry with the names changed consistently. *)
Lemma consistent_names b r r' :
  consistent (b, r) ->
  services r' = services r -> service_order r' = service_order r ->
  (forall n o, published_names r' !! n = Some o <-> in_idx (owned_names r') o n) ->
  (forall n, is_Some (published_names r' !! n) -> valid_name n = true) ->
  consistent (b, r').
Proof. intros [] E1 E2 Hi Hv. split; cbn; rewrite ?E1, ?E2; auto. Qed.

Lemma release_consistent b r id : consistent (b, r) -> consistent (b, release_names id r).
Proof.
  intros Hc. destruct (release_names_rest id r) as (E1 & E2 & _).
  apply (consistent_names b r); [done|done|done| |].
  - intros n o. rewrite release_names_owned, (release_names_published b) by done.
    unfold NameService.release. rewrite map_lookup_filter_Some, (names_indexed _ Hc). done.
  - intros n. rewrite (release_names_published b) by done. intros [o Ho].
    apply map_lookup_filter_Some in Ho as [Ho _]. apply (names_valid _ Hc). by exists o.
Qed.

(** The owner of one more name. *)
Lemma claim_consistent b r owner name :
  consistent (b, r) -> valid_name name = true ->
  (forall o, published_names r !! name = Some o -> o = owner) ->
  consistent (b, set_names (<[name := owner]> (published_names r))
                   (idx_insert owner name (owned_names r)) r).
Proof.
  intros Hc Hv Ho. apply (consistent_names b r); [done|done|done| |]; cbn.
  - intros n o. rewrite in_idx_insert, <- (names_indexed _ Hc n o); cbn.
    rewrite lookup_insert_Some. destruct (decide (n = name)) as [->|]; naive_solver.
  - intros n [o Hn]. apply lookup_insert_Some in Hn as [[<- _]|[_ Hn]]; [done|].
    apply (names_valid _ Hc). by exists o.
Qed.

Lemma register_inv owner name d r r' :
  register_owner owner name d r = inr r' ->
  (forall o, published_names r !! name = Some o -> o = owner) /\
  r' = set_names (<[name := owner]> (published_names r)) (idx_insert owner name (owned_names r)) r.
Proof.
  unfold register_owner. intros Hr. case_in Hr; [done|]. case_in Hr.
  - case_in Hr; [|done]. apply String.eqb_eq in E1 as ->. naive_solver.
  - naive_solver.
Qed.

Lemma unregister_inv owner name r r' :
  unregister_owner owner name r = inr r' ->
  published_names r !! name = Some owner /\
  r' = set_names (delete name (published_names r)) (idx_erase owner name (owned_names r)) r.
Proof.
  unfold unregister_owner. intros Hr. case_in Hr; [|done]. case_in Hr; [|done].
  apply String.eqb_eq in E0 as ->. naive_solver.
Qed.

Lemma withdraw_consistent b r owner name :
  consistent (b, r) -> published_names r !! name = Some owner ->
  consistent (b, set_names (delete name (published_names r)) (idx_erase owner name (owned_names r)) r).
Proof.
  intros Hc Ho. apply (consistent_names b r); [done|done|done| |]; cbn.
  - intros n o. rewrite in_idx_erase, <- (names_indexed _ Hc n o); cbn. rewrite lookup_delete_Some.
    destruct (decide (n = name)) as [->|]; naive_solver.
  - intros n [o Hn]. apply lookup_delete_Some in Hn as [_ Hn]. apply (names_valid _ Hc). by exists o.
Qed.

Lemma actors_consistent b r v : consistent (b, r) -> consistent (b, set_service_actors v r).
Proof. intros []. by split. Qed.

Lemma publish_consistent b r id vm :
  consistent (b, r) -> valid_name id = true -> consistent (b, snd (publish_service id vm r)).
Proof.
  intros Hc Hv. unfold publish_service. case_head; [by apply actors_consistent|]. cbn [snd].
  apply orb_false_iff in E as [E1%bool_decide_eq_false E2%bool_decide_eq_false].
  assert (Hn : consistent (b, set_names (<[id := id]> (published_names r))
                               (idx_insert id id (owned_names r)) r)).
  { apply claim_consistent; [done|done|]. intros o Ho. by destruct E2. }
  destruct Hn as [H1 H2 H3 H4 H5 H6]; cbn in *. split; cbn; try done.
  - intros s [x Hs]. apply lookup_insert_Some in Hs as [[<- _]|[_ Hs]]; eauto.
  - apply list.NoDup_app. repeat split; [done| |apply NoDup_singleton].
    intros s Hs ->%list_elem_of_singleton. by apply H5 in Hs.
  - intros s [Hs| ->%list_elem_of_singleton]%elem_of_app; rewrite lookup_insert_is_Some; [|by left].
    destruct (decide (id = s)); [by left|right; auto].
  - intros Eb s Hs. apply lookup_insert_is_Some in Hs. rewrite elem_of_app, list_elem_of_singleton.
    destruct Hs as [->|[_ Hs]]; auto.
Qed.

Lemma erase_consistent b r id : consistent (b, r) -> consistent (b, snd (erase_service id r)).
Proof.
  intros Hc%(release_consistent b r id). unfold erase_service. cbn [snd].
  destruct Hc as [H1 H2 H3 H4 H5 H6]; cbn in *. split; cbn; try done.
  - intros s [x Hs]. apply lookup_delete_Some in Hs as [_ Hs]. eauto.
  - by apply list.NoDup_filter.
  - intros s [Hne Hs]%list_elem_of_filter. rewrite lookup_delete_ne by done. auto.
  - intros Eb s Hs. apply lookup_delete_is_Some in Hs as [Hne Hs]. apply list_elem_of_filter. auto.
Qed.

Lemma reg_step_consistent b r r' : reg_step b r r' -> consistent (b, r) -> consistent (b, r').
Proof.
  intros Hs Hc. destruct Hs.
  - unfold emplace_actor. case_head; [done|by apply actors_consistent].
  - by apply release_consistent, actors_consistent.
  - by apply publish_consistent.
  - apply register_inv in H0 as [Ho ->]. by apply claim_consistent.
  - apply unregister_inv in H as [Ho ->]. by apply withdraw_consistent.
  - by apply erase_consistent.
  - subst b. destruct Hc. split; cbn in *; try done; [apply NoDup_nil_2|].
    intros s Hs%elem_of_nil. done.
Qed.

Lemma init_consistent m : consistent (false, registry (init_state m)).
Proof.
  split; [|intros n [? [=]]|intros n [? [=]]|apply NoDup_nil_2|intros s Hs%elem_of_nil; done|
    intros _ s [? [=]]].
  intros n o. split; [intros [=]|]. intros Hx. by apply (not_elem_of_empty (C := gset string) n) in Hx.
Qed.

Definition consistent_state (st : State) : Prop := consistent (stopping st, registry st).

Lemma evolves_consistent st st' : evolves st st' -> consistent_state st -> consistent_state st'.
Proof.
  intros [Es Hr _ _ _]. unfold consistent_state. rewrite Es. clear Es.
  induction Hr as [|r r' r'' Hs Hr IH]; [done|]. intros Hc. by apply IH, (reg_step_consistent _ r).
Qed.

Lemma reachable_consistent `{JsonLib, LuaWorld} d m st : reachable d m st -> consistent_state st.
Proof.
  apply (reachable_invariant consistent_state); [apply init_consistent|apply evolves_consistent|].
  intros st' []. by split.
Qed.

(** ** The names of a service that is being started *)

Section Starting.
Context `{JsonLib, LuaWorld}.

(** The state in which [on_init] runs. *)
Definition before_init (name : string) (a : Z) (st : State) : State :=
  add_log (EvInit name) (push_scope name "" false "" 0 (set_registry (emplace_actor name a (registry st)) st)).

Lemma init_run_consistent depth vm name o a st :
  consistent_state st ->
  consistent_state (snd (call_service_function (run depth) vm "on_init" (init_args name o) (before_init name a st))).
Proof.
  intros Hc. eapply evolves_consistent; [apply call_service_function_evolves; apply run_evolves|].
  apply (reg_step_consistent _ _ _ (rs_emplace (stopping st) (registry st) name a) Hc).
Qed.

Lemma registry_pop st : registry (pop_scope st) = registry st.
Proof. unfold pop_scope. destruct (dispatch_stack st); [done|]. by case_head. Qed.

(** What becomes of the names when [on_init] has run. *)
Lemma spawn_init_names depth name vm o limit a st :
  consistent_state st ->
  let '(error, st1) := call_service_function (run depth) vm "on_init" (init_args name o) (before_init name a st) in
  let '(result, st2) := spawn_init (run depth) name vm o limit a st in
  match error with
  | Some _ =>
      published_names (registry st2) =
        (if limit <=? now st1 - now st then published_names (registry st1)
         else NameService.release name (published_names (registry st1)))
  | None =>
      is_Some (services (registry st1) !! name) \/ is_Some (published_names (registry st1) !! name) ->
      result = inl ("service name already exists: " +:+ name) /\
      published_names (registry st2) = published_names (registry st1)
  end.
Proof.
  intros Hc. pose proof (init_run_consistent depth vm name o a st Hc) as H1. unfold spawn_init. fold (before_init name a st).
  destruct (call_service_function (run depth) vm "on_init" (init_args name o) (before_init name a st)) as [[e|] st1].
  - cbn [snd] in H1. change (now (set_registry (emplace_actor name a (registry st)) st)) with (now st).
    destruct (limit <=? now st1 - now st); rewrite registry_pop; [done|]. cbn [registry set_registry]. unfold rollback_spawn.
    by rewrite (release_names_published (stopping st1)) by by apply actors_consistent.
  - rewrite registry_pop. unfold publish_service.
    destruct (bool_decide (is_Some (services (registry st1) !! name)) || _) eqn:Et; cbn [negb]; [done|].
    apply orb_false_iff in Et as [E1%bool_decide_eq_false E2%bool_decide_eq_false]. by intros [].
Qed.
End Starting.

(** ** Properties *)

Section Properties.
Context `{JsonLib, LuaWorld}.

(** C12: in every state that a program and its scripts can bring the manager
    to, the index of names by owner is exact, every published name and every
    service identifier is valid, the start order lists running services without
    repetition, and lists all of them until shutdown begins. *)
Theorem registry_consistent depth modules st :
  reachable depth modules st -> consistent (stopping st, registry st).
Proof. apply reachable_consistent. Qed.

(** C13: the two maps of names implement a plain map from names to owners, the
    name service: registering for a service that runs or is being started, and
    unregistering, succeed when and only when the name service allows it, with
    its result; an exit withdraws exactly the owner's names; and a service is
    published under a name nobody has.  Of a start, [on_init] failing in time
    withdraws exactly the names of the service; when it fails past the limit, and
    when its name was taken meanwhile, all names stay as [on_init] left them. *)
Theorem names_refine b r :
  consistent (b, r) ->
  (forall owner name d, is_Some (services r !! owner) \/ d = true ->
     match register_owner owner name d r with
     | inr r' => NameService.claim owner name (published_names r) = Some (published_names r')
     | inl _ => NameService.claim owner name (published_names r) = None
     end) /\
  (forall owner name,
     match unregister_owner owner name r with
     | inr r' => NameService.withdraw owner name (published_names r) = Some (published_names r')
     | inl _ => NameService.withdraw owner name (published_names r) = None
     end) /\
  (forall id, published_names (rollback_spawn id r) = NameService.release id (published_names r)) /\
  (forall id, published_names (snd (erase_service id r)) = NameService.release id (published_names r)) /\
  (forall id vm, fst (publish_service id vm r) = true ->
     published_names r !! id = None /\
     NameService.claim id id (published_names r) = Some (published_names (snd (publish_service id vm r)))) /\
  (forall depth name vm o limit a st, consistent (stopping st, registry st) ->
     let '(error, st1) := call_service_function (run depth) vm "on_init" (init_args name o) (before_init name a st) in
     let '(result, st2) := spawn_init (run depth) name vm o limit a st in
     match error with
     | Some _ =>
         published_names (registry st2) =
           (if limit <=? now st1 - now st then published_names (registry st1)
            else NameService.release name (published_names (registry st1)))
     | None =>
         is_Some (services (registry st1) !! name) \/ is_Some (published_names (registry st1) !! name) ->
         result = inl ("service name already exists: " +:+ name) /\
         published_names (registry st2) = published_names (registry st1)
     end).
Proof.
  intros Hc. split_and!; [| | | | |intros; by apply spawn_init_names].
  - intros owner name d Hd. unfold register_owner, NameService.claim.
    replace (_ && _) with false
      by (destruct Hd as [Hd| ->]; [by rewrite bool_decide_true|by rewrite andb_false_r]).
    destruct (published_names r !! name) as [o|]; [destruct (String.eqb o owner)|]; reflexivity.
  - intros owner name. unfold unregister_owner, NameService.withdraw.
    destruct (published_names r !! name) as [o|]; [destruct (String.eqb o owner)|]; reflexivity.
  - intros id. unfold rollback_spawn.
    by rewrite (release_names_published b) by by apply actors_consistent.
  - intros id. unfold erase_service. cbn. by apply (release_names_published b).
  - intros id vm. unfold publish_service, NameService.claim. case_head; [done|]. intros _. cbn.
    apply orb_false_iff in E as [_ E%bool_decide_eq_false]. by apply eq_None_not_Some in E as ->.
Qed.
End Properties.

(** ** Witnesses *)

(** A handler of [front] has registered a name after a call. *)
Definition named : State := after (start ++ [msg "front" "alias"; CEvent (Deliver 0); CEvent (Deliver 0)]).

Lemma registry_consistent_witness :
  published_names (registry named) !! "front.alias" = Some "echo" /\
  consistent (stopping named, registry named).
Proof.
  split; [vm_compute; reflexivity|]. apply (registry_consistent 4 ∅ named). apply after_reachable.
Defined.

Lemma names_refine_witness :
  consistent (false, registry named) /\
  published_names (snd (erase_service "echo" (registry named))) =
    NameService.release "echo" (published_names (registry named)).
Proof.
  assert (Hc : consistent (false, registry named)).
  { exact (reachable_consistent 4 ∅ named (after_reachable _)). }
  split; [exact Hc|]. destruct (names_refine false (registry named) Hc) as (_ & _ & _ & He & _ & _).
  exact (He "echo").
Defined.

(** A service that registers a name and fails, in time and past a limit of nothing. *)
Definition failing_vm : LuaVM := vm_of [("on_init", fun _ => Api (ARegister "front.alias") (fun _ => Raise (Some "no")))].

Example failed_start_names :
  let start limit := spawn_init (run 4) "front" failing_vm (mkOptions "front" (JObj []) (JObj [])) limit 1 (init_state ∅) in
  published_names (registry (snd (start 10000))) !! "front.alias" = None /\
  published_names (registry (snd (start 0))) !! "front.alias" = Some "front".
Proof. vm_compute. split; reflexivity. Qed.
