(* ===== verification/CallSessions.v ===== *)
(** * CallSessions: calls between services

    A call is answered at most once, whatever the scripts and the actor system
    do; the timer actor of a call only exists while the call is pending, and
    when its message arrives the call is resolved. *)

From stdpp Require Import relations.
From S2P Require Import Prelude Text Json ServiceState Services ServiceDemo ServiceSteps.

(** ** The invariant *)

Definition resumed (l : list log_event) : list Z :=
  omap (fun e => match e with EvResume s _ _ _ => Some s | _ => None end) l.
Definition answered_sync (l : list log_event) : list Z :=
  omap (fun e => match e with EvSync s _ _ => Some s | _ => None end) l.

Lemma resumed_app l l' : resumed (l ++ l') = resumed l ++ resumed l'.
Proof. apply omap_app. Qed.
Lemma answered_app l l' : answered_sync (l ++ l') = answered_sync l ++ answered_sync l'.
Proof. apply omap_app. Qed.
#[local] Hint Rewrite resumed_app answered_app @app_nil_r : sessions.

Record call_inv (p : CallSide) : Prop := {
  pending_old : forall s, is_Some (pending_calls (cs_calls p) !! s) -> s < next_call_session (cs_calls p);
  resumed_old : forall s, s ∈ resumed (cs_log p) -> s < next_call_session (cs_calls p);
  resumed_done : forall s, s ∈ resumed (cs_log p) -> pending_calls (cs_calls p) !! s = None;
  resumed_once : NoDup (resumed (cs_log p));
  sync_old : forall s, s ∈ pending_sync_calls (cs_calls p) \/ s ∈ answered_sync (cs_log p) ->
             s < next_sync_call_session (cs_calls p);
  sync_done : forall s, s ∈ answered_sync (cs_log p) -> s ∉ pending_sync_calls (cs_calls p);
  sync_once : NoDup (answered_sync (cs_log p));
  driver_old : forall d, is_Some (drivers (cs_system p) !! d) -> d < next_actor (cs_system p);
  timeout_pending : forall s, is_Some (actor_call_timeouts (cs_calls p) !! s) ->
                    is_Some (pending_calls (cs_calls p) !! s);
  timeout_old : forall s d, actor_call_timeouts (cs_calls p) !! s = Some d -> d < next_actor (cs_system p);
  timeout_driver : forall s d x, actor_call_timeouts (cs_calls p) !! s = Some d ->
                   drivers (cs_system p) !! d = Some x ->
                   driver_mail x = MCallTimeout s /\ driver_repeats x = false
}.

(** Steps that change nothing but part of the bookkeeping. *)
Lemma call_inv_sys c y y' l :
  sys_step y y' -> call_inv (mkCallSide c y l) -> call_inv (mkCallSide c y' l).
Proof.
  intros [Hn Hd] []. split; cbn in *; try done.
  - intros d [x Hx]. apply (lookup_weaken _ (drivers y)) in Hx; [|done].
    assert (d < next_actor y) by eauto. lia.
  - intros s d Hs. apply timeout_old0 in Hs. lia.
  - intros s d x Hs Hx. eapply timeout_driver0; [done|]. by eapply lookup_weaken.
Qed.

Lemma call_inv_driver c y l target m rep :
  (forall s, m <> MCallTimeout s) -> call_inv (mkCallSide c y l) ->
  call_inv (mkCallSide c (add_driver (mkDriver target m rep) y) l).
Proof.
  intros Hm []. split; cbn in *; try done.
  - intros d [->|[_ Hd]]%lookup_insert_is_Some; [lia|]. apply driver_old0 in Hd. lia.
  - intros s d Hs. apply timeout_old0 in Hs. lia.
  - intros s d x Hs [[<- <-]|[Hne Hx]]%lookup_insert_Some; [|eauto].
    apply timeout_old0 in Hs. lia.
Qed.

Lemma call_inv_suspend c y l pc :
  call_inv (mkCallSide c y l) -> call_inv (mkCallSide (after_suspend pc c) y l).
Proof.
  intros []. split; cbn in *; try done.
  - intros s [<-|[_ Hs]]%lookup_insert_is_Some; [lia|]. apply pending_old0 in Hs. lia.
  - intros s Hs. apply resumed_old0 in Hs. lia.
  - intros s Hs. pose proof (resumed_old0 s Hs). rewrite lookup_insert_ne by lia. auto.
  - intros s Hs. apply lookup_insert_is_Some'. auto.
Qed.

Lemma call_inv_timeout c y l target s :
  is_Some (pending_calls c !! s) -> call_inv (mkCallSide c y l) ->
  call_inv (mkCallSide (set_call_timeouts (<[s := next_actor y]> (actor_call_timeouts c)) c)
              (add_driver (mkDriver target (MCallTimeout s) false) y) l).
Proof.
  intros Hp []. split; cbn in *; try done.
  - intros d [->|[_ Hd]]%lookup_insert_is_Some; [lia|]. apply driver_old0 in Hd. lia.
  - intros s' [<-|[_ Hs]]%lookup_insert_is_Some; auto.
  - intros s' d [[<- <-]|[_ Hs]]%lookup_insert_Some; [lia|]. apply timeout_old0 in Hs. lia.
  - intros s' d x [[<- <-]|[Hne Hs]]%lookup_insert_Some.
    + rewrite lookup_insert_eq. by intros [= <-].
    + pose proof (timeout_old0 _ _ Hs). rewrite lookup_insert_ne by lia. eauto.
Qed.

Lemma call_inv_cancel c y l s :
  call_inv (mkCallSide c y l) ->
  call_inv (mkCallSide (set_call_timeouts (delete s (actor_call_timeouts c)) c) y l).
Proof.
  intros []. split; cbn in *; try done.
  - intros s' [_ Hs]%lookup_delete_is_Some. auto.
  - intros s' d [_ Hs]%lookup_delete_Some. eauto.
  - intros s' d x [_ Hs]%lookup_delete_Some. eauto.
Qed.

Lemma call_inv_resume c y l s pc ok v :
  pending_calls c !! s = Some pc -> call_inv (mkCallSide c y l) ->
  call_inv (mkCallSide (set_call_timeouts (delete s (actor_call_timeouts c))
                          (set_pending_calls (delete s (pending_calls c)) c)) y
              (l ++ [EvResume s (caller_co pc) ok v])).
Proof.
  intros Hp []. split; cbn in *; autorewrite with sessions; cbn; autorewrite with sessions; try done.
  - intros s' [_ Hs]%lookup_delete_is_Some. auto.
  - intros s' [Hs| ->%list_elem_of_singleton]%elem_of_app; eauto.
  - intros s' [Hs| ->%list_elem_of_singleton]%elem_of_app; [|apply lookup_delete_eq].
    apply lookup_delete_None. auto.
  - apply list.NoDup_app. repeat split; [done| |apply NoDup_singleton].
    intros s' Hs ->%list_elem_of_singleton. apply resumed_done0 in Hs. congruence.
  - intros s' [Hne Hs]%lookup_delete_is_Some. apply lookup_delete_is_Some. auto.
  - intros s' d [_ Hs]%lookup_delete_Some. eauto.
  - intros s' d x [_ Hs]%lookup_delete_Some. eauto.
Qed.

Lemma call_inv_complete c y l s ok v p :
  s ∈ pending_sync_calls c -> call_inv (mkCallSide c y l) ->
  call_inv (mkCallSide (set_sync (pending_sync_calls c ∖ {[s]}) (<[s := p]> (sync_objects c)) c) y
              (l ++ [EvSync s ok v])).
Proof.
  intros Hs []. split; cbn in *; autorewrite with sessions; cbn; autorewrite with sessions; try done.
  - intros s' [Hs'|[Hs'| ->%list_elem_of_singleton]%elem_of_app]; [|auto|auto].
    apply sync_old0. set_solver.
  - intros s' [Hs'| ->%list_elem_of_singleton]%elem_of_app; [|set_solver].
    apply sync_done0 in Hs'. set_solver.
  - apply list.NoDup_app. repeat split; [done| |apply NoDup_singleton].
    intros s' Hs' ->%list_elem_of_singleton. by apply sync_done0 in Hs'.
Qed.

Lemma call_step_inv p q : call_step p q -> call_inv p -> call_inv q.
Proof.
  intros Hs. destruct Hs; intros Hi.
  - by eapply call_inv_sys.
  - by apply call_inv_driver.
  - destruct Hi. split; cbn in *; try done; destruct e; try done;
      autorewrite with sessions; cbn; autorewrite with sessions; done.
  - by apply call_inv_suspend.
  - by apply call_inv_timeout.
  - by apply call_inv_cancel.
  - destruct Hi. by split.
  - by apply call_inv_complete.
  - by apply call_inv_resume.
  - destruct Hi. split; cbn in *; try done.
    + intros s [Hs|Hs]; [|assert (s < next_sync_call_session c) by auto; lia].
      apply elem_of_union in Hs as [->%elem_of_singleton|Hs]; [lia|].
      assert (s < next_sync_call_session c) by auto. lia.
    + intros s Hs. pose proof (sync_done0 s Hs). assert (s < next_sync_call_session c) by auto.
      apply not_elem_of_union. split; [|done]. intros ->%elem_of_singleton. lia.
  - destruct Hi. split; cbn in *; try done.
    + intros s' [Hs|Hs]; apply sync_old0; set_solver.
    + intros s' Hs. apply sync_done0 in Hs. set_solver.
Qed.

Lemma init_call_inv m : call_inv (call_part (init_state m)).
Proof.
  split; cbn; try (intros ? [? [=]]); try (intros ? Hs; by apply elem_of_nil in Hs);
    try apply NoDup_nil_2; try done.
  intros s [Hs|Hs]; [set_solver|by apply elem_of_nil in Hs].
Qed.

Lemma evolves_call_inv st st' : evolves st st' -> call_inv (call_part st) -> call_inv (call_part st').
Proof.
  intros [_ _ _ _ Hr]. induction Hr as [|p q r Hs Hr IH]; [done|]. intros Hc.
  by apply IH, (call_step_inv p).
Qed.

Lemma reachable_call_inv `{JsonLib, LuaWorld} d m st : reachable d m st -> call_inv (call_part st).
Proof.
  by apply (reachable_invariant (fun st => call_inv (call_part st)));
    [apply init_call_inv|apply evolves_call_inv|].
Qed.

(** The log only grows. *)
Lemma evolves_log st st' e : evolves st st' -> e ∈ log st -> e ∈ log st'.
Proof.
  intros [_ _ _ _ Hr]. change (log st) with (cs_log (call_part st)). change (log st') with (cs_log (call_part st')).
  induction Hr as [|p q r Hs Hr IH]; [done|]. intros He. apply IH.
  destruct Hs; cbn in *; try done; apply elem_of_app; by left.
Qed.

(** ** A pending call is resolved by the message of its timer actor *)

Lemma take_pending_some s ok v st pc :
  pending_calls (calls st) !! s = Some pc ->
  exists st', take_pending s ok v st = Some (caller_co pc, st') /\ EvResume s (caller_co pc) ok v ∈ log st'.
Proof.
  intros Hp. unfold take_pending. rewrite Hp. eexists. split; [reflexivity|].
  cbn. apply elem_of_app. right. by left.
Qed.

Lemma cancel_call_timeout_keeps s st :
  pending_calls (calls (snd (cancel_actor_call_timeout s st))) = pending_calls (calls st) /\
  pending_sync_calls (calls (snd (cancel_actor_call_timeout s st))) = pending_sync_calls (calls st).
Proof. unfold cancel_actor_call_timeout. by case_head. Qed.

Section Timeout.
Context `{JsonLib, LuaWorld}.
Context (d : nat).

Lemma resume_caller_resumes s ok v st pc :
  s ∉ pending_sync_calls (calls st) -> pending_calls (calls st) !! s = Some pc ->
  EvResume s (caller_co pc) ok v ∈ log (resume_caller (run d) s ok v st).
Proof.
  intros Hs Hp. unfold resume_caller, complete_sync. rewrite bool_decide_false by done.
  destruct (take_pending_some s ok v st pc Hp) as (st' & -> & He).
  by eapply evolves_log, He; apply resume_coroutine_evolves, run_evolves.
Qed.

Lemma timeout_message_resumes svc s st pc :
  s ∉ pending_sync_calls (calls st) -> pending_calls (calls st) !! s = Some pc ->
  EvResume s (caller_co pc) false timeout_err ∈ log (behaviour (run d) svc (MCallTimeout s) st).
Proof.
  intros Hs Hp. cbn. destruct (cancel_call_timeout_keeps s st) as [E1 E2].
  apply resume_caller_resumes; congruence.
Qed.

Lemma deliver_last st a m x :
  actors (system st) !! a = Some x -> actor_ready x = true ->
  match m with MExit | MInitReady => False | _ => True end ->
  env_step (run d) (anon_send a m st) (Deliver (length (outbox (system st)))) =
  on_thread (behaviour (run d) (actor_service x) m)
    (set_system (set_outbox (outbox (system st)) (system st)) st).
Proof.
  intros Ha Hx Hm. cbn [env_step]. cbn.
  rewrite (lookup_app_r _ _ (length (outbox (system st)))) by lia.
  rewrite Nat.sub_diag. cbn. rewrite delete_middle, app_nil_r. unfold receive. cbn. rewrite Ha.
  by destruct m; rewrite ?Hx.
Qed.
End Timeout.

(** ** Properties *)

Section Properties.
Context `{JsonLib, LuaWorld}.

(** C14: no call is ever answered twice: in every reachable state each session
    of a suspended caller has been resumed at most once and each blocked caller
    has been signalled at most once, and what has been answered is no longer
    pending; and a timer actor is only registered for a call that is pending. *)
Theorem calls_answered_once depth modules st :
  reachable depth modules st ->
  NoDup (resumed (log st)) /\ NoDup (answered_sync (log st)) /\
  (forall s, s ∈ resumed (log st) -> pending_calls (calls st) !! s = None) /\
  (forall s, s ∈ answered_sync (log st) -> s ∉ pending_sync_calls (calls st)) /\
  (forall s, is_Some (actor_call_timeouts (calls st) !! s) -> is_Some (pending_calls (calls st) !! s)).
Proof. intros Hr%reachable_call_inv. destruct Hr. done. Qed.

(** A suspended call does not wait forever: whatever has happened before,
    if its timer actor is still armed and aimed at an actor that serves messages,
    then when the delay ends and the message is handled the caller is resumed
    with the timeout error and the call is no longer pending.  (No blocked caller
    may hold the same session number at that moment.) *)
Theorem call_timeout_resumes depth modules st s pc dr x a :
  reachable depth modules st ->
  pending_calls (calls st) !! s = Some pc ->
  actor_call_timeouts (calls st) !! s = Some dr ->
  drivers (system st) !! dr = Some x ->
  actors (system st) !! driver_target x = Some a -> actor_ready a = true ->
  s ∉ pending_sync_calls (calls st) ->
  let st' := perform depth (CEvent (Deliver (length (outbox (system st)))))
               (perform depth (CEvent (Tick dr)) st) in
  pending_calls (calls st') !! s = None /\ EvResume s (caller_co pc) false timeout_err ∈ log st'.
Proof.
  intros Hr Hp Ht Hx Ha Hready Hs st'.
  assert (Hl : EvResume s (caller_co pc) false timeout_err ∈ log st').
  { destruct (timeout_driver _ (reachable_call_inv _ _ _ Hr) s dr x Ht Hx) as [Hm Hrep].
    unfold st'. cbn [perform env_step]. rewrite Hx, Hrep, Hm.
    set (st1 := set_system (set_drivers (delete dr (drivers (system st))) (system st)) st).
    change (EvResume s (caller_co pc) false timeout_err ∈
            log (env_step (run depth) (anon_send (driver_target x) (MCallTimeout s) st1)
                   (Deliver (length (outbox (system st1)))))).
    rewrite (deliver_last depth st1 _ _ a); [|done|done|done].
    cbn [on_thread log set_stack]. by apply timeout_message_resumes. }
  split; [|exact Hl]. apply (resumed_done (call_part st')).
  - apply (reachable_call_inv depth modules). by do 2 apply reach_step.
  - apply list_elem_of_omap. by eexists.
Qed.
End Properties.

(** ** Witnesses *)

(** [front] is suspended in a call to [echo]; then [echo] has answered. *)
Definition asking : State := after (start ++ [msg "front" "ask"; CEvent (Deliver 0)]).
Definition answered : State := after (start ++ [msg "front" "ask"; CEvent (Deliver 0); CEvent (Deliver 0)]).

Lemma calls_answered_once_witness :
  resumed (log answered) = [1] /\ NoDup (resumed (log answered)).
Proof.
  split; [vm_compute; reflexivity|].
  exact (proj1 (calls_answered_once 4 ∅ answered (after_reachable _))).
Defined.

Lemma call_timeout_resumes_witness :
  EvResume 1 1 false timeout_err ∈
  log (perform 4 (CEvent (Deliver (length (outbox (system asking)))))
         (perform 4 (CEvent (Tick 3)) asking)).
Proof.
  refine (proj2 (call_timeout_resumes 4 ∅ asking 1 (mkPending 1 1 5000 "front") 3
    (mkDriver 2 (MCallTimeout 1) false) (mkActor "front" true []) (after_reachable _) _ _ _ _ _ _));
    [vm_compute; reflexivity..|]. apply (bool_decide_unpack _). vm_compute. exact I.
Defined.
