(* ===== verification/ServiceExit.v ===== *)
(** * ServiceExit: the end of services

    The queues of tasks and timers agree with their indexes by service in every
    state; therefore [exit], which withdraws what the indexes list, leaves
    nothing of the service behind.  [shutdown_all] ends every service, and what
    the hooks of the services do cannot keep it from ending. *)

From stdpp Require Import relations.
From S2P Require Import Prelude Text Json ServiceState Services ServiceDemo ServiceSteps Registry CallSessions.

Lemma NoDup_fmap_inj {A B} (f : A -> B) l x y :
  NoDup (f <$> l) -> x ∈ l -> y ∈ l -> f x = f y -> x = y.
Proof.
  induction l as [|z l IH]; cbn; [by intros _ ?%elem_of_nil|].
  intros [Hz Hl]%list.NoDup_cons. rewrite !elem_of_cons.
  intros [->|Hx] [->|Hy] E; [done| | |by apply IH].
  - destruct Hz. rewrite E. by apply list_elem_of_fmap_2.
  - destruct Hz. rewrite <- E. by apply list_elem_of_fmap_2.
Qed.

Lemma NoDup_fmap_filter {A B} (f : A -> B) (P : A -> Prop) `{!forall x, Decision (P x)} (l : list A) :
  NoDup (f <$> l) -> NoDup (f <$> base.filter P l).
Proof.
  induction l as [|x l IH]; [done|]. intros [Hx Hl]%list.NoDup_cons. rewrite filter_cons.
  case_decide; [|auto]. apply list.NoDup_cons. split; [|auto].
  intros (y & E & [_ Hy]%list_elem_of_filter)%list_elem_of_fmap. apply Hx. rewrite E.
  by apply list_elem_of_fmap_2.
Qed.

Lemma filter_all {A} (P : A -> Prop) `{!forall x, Decision (P x)} (l : list A) :
  (forall x, x ∈ l -> P x) -> base.filter P l = l.
Proof.
  induction l as [|x l IH]; [done|]. intros Hl. rewrite filter_cons, decide_True by (apply Hl; by left).
  f_equal. apply IH. intros y Hy. apply Hl. by right.
Qed.

Lemma filter_none {A} (P : A -> Prop) `{!forall x, Decision (P x)} (l : list A) :
  (forall x, x ∈ l -> ~ P x) -> base.filter P l = [].
Proof.
  induction l as [|x l IH]; [done|]. intros Hl. rewrite filter_cons, decide_False by (apply Hl; by left).
  apply IH. intros y Hy. apply Hl. by right.
Qed.

(** ** Tasks *)

Record task_inv (t : Tasks) : Prop := {
  task_unique : NoDup (task_id <$> pending_tasks t);
  task_old : forall x, x ∈ pending_tasks t -> task_id x < next_task_id t;
  task_indexed : forall svc id, in_idx (tasks_by_service t) svc id <->
    exists x, x ∈ pending_tasks t /\ task_id x = id /\ task_service x = svc
}.

Lemma add_task_inv svc fn t : task_inv t -> task_inv (snd (add_task svc fn t)).
Proof.
  intros [Hu Ho Hi]. split; cbn [add_task snd pending_tasks next_task_id tasks_by_service].
  - rewrite fmap_app. apply list.NoDup_app. repeat split; [done| |apply NoDup_singleton].
    intros i (x & E & Hx)%list_elem_of_fmap Hs%list_elem_of_singleton. cbn in Hs.
    apply Ho in Hx. lia.
  - intros x [Hx| ->%list_elem_of_singleton]%elem_of_app; cbn; [apply Ho in Hx; lia|lia].
  - intros s i. rewrite in_idx_insert, Hi. setoid_rewrite elem_of_app.
    setoid_rewrite list_elem_of_singleton. split.
    + intros [[-> ->]|(x & Hx & <- & <-)]; [eexists; split; [by right|done]|eauto 6].
    + intros (x & [Hx| ->] & <- & <-); [eauto 6|by left].
Qed.

Lemma rollback_task svc fn t :
  task_inv t ->
  let id := fst (add_task svc fn t) in let t' := snd (add_task svc fn t) in
  task_inv (erase_task id (mkTasks (next_task_id t') (pending_tasks t')
                             (idx_remove svc id (tasks_by_service t')))).
Proof.
  intros [Hu Ho Hi]. cbn -[idx_insert idx_remove].
  assert (Hp : base.filter (fun x => task_id x <> next_task_id t)
                 (pending_tasks t ++ [mkTask (next_task_id t) svc fn]) = pending_tasks t).
  { rewrite list.filter_app, (filter_none _ [_]), app_nil_r.
    - apply filter_all. intros x Hx. apply Ho in Hx. lia.
    - intros x ->%list_elem_of_singleton. cbn. tauto. }
  split; cbn -[idx_insert idx_remove]; unfold erase_task; cbn -[idx_insert idx_remove]; rewrite ?Hp; [done| |].
  - intros x Hx. apply Ho in Hx. lia.
  - intros s i. rewrite in_idx_remove, in_idx_insert, Hi. split; [naive_solver|].
    intros (x & Hx & <- & <-). split; [eauto 6|]. intros [_ E]. apply Ho in Hx. lia.
Qed.

Lemma cancel_tasks_pending svc t x :
  task_inv t -> x ∈ pending_tasks (cancel_forked_tasks_for_service svc t) <->
                x ∈ pending_tasks t /\ task_service x <> svc.
Proof.
  intros [Hu Ho Hi]. unfold cancel_forked_tasks_for_service.
  pose proof (Hi svc) as Hs. unfold in_idx in Hs. destruct (tasks_by_service t !! svc) as [ids|]; cbn in *.
  - rewrite list_elem_of_filter, Hs. split.
    + intros [Hn Hx]. split; [done|]. intros E. apply Hn. eauto.
    + intros [Hx Hn]. split; [|done]. intros (y & Hy & E & Es).
      by rewrite (NoDup_fmap_inj _ _ _ _ Hu Hy Hx E) in Es.
  - split; [|tauto]. intros Hx. split; [done|]. intros E.
    assert (task_id x ∈ (∅ : gset Z)) by (apply Hs; eauto). set_solver.
Qed.

Lemma cancel_tasks_inv svc t : task_inv t -> task_inv (cancel_forked_tasks_for_service svc t).
Proof.
  intros Ht. pose proof (fun x => cancel_tasks_pending svc t x Ht) as Hc. revert Hc. unfold cancel_forked_tasks_for_service.
  destruct (tasks_by_service t !! svc) as [ids|]; [|done]. intros Hc. cbn in Hc.
  destruct Ht as [Hu Ho Hi]. split; cbn.
  - by apply NoDup_fmap_filter.
  - intros x [Hx _]%Hc. by apply Ho.
  - intros s i. rewrite in_idx_delete, Hi. split.
    + intros [(x & Hx & <- & <-) Hne]. exists x. by rewrite Hc.
    + intros (x & Hx%Hc & <- & <-). naive_solver.
Qed.

Lemma take_task_spec id t x t' :
  take_task id t = Some (x, t') ->
  task_id x = id /\ pending_tasks t ≡ₚ x :: pending_tasks t' /\ next_task_id t' = next_task_id t /\
  tasks_by_service t' = idx_remove (task_service x) id (tasks_by_service t).
Proof.
  unfold take_task. intros Ht. destruct (list_find _ _) as [[i y]|] eqn:Ef; [|done].
  apply list_find_Some in Ef as (Hi & E & _). injection Ht as <- <-. cbn. rewrite E.
  split_and!; [done| |done|done]. by apply delete_Permutation.
Qed.

Lemma take_task_inv id t x t' : take_task id t = Some (x, t') -> task_inv t -> task_inv t'.
Proof.
  intros (Ex & Hp & En & Es)%take_task_spec [Hu Ho Hi]. pose proof Hu as Hu'. rewrite Hp in Hu'.
  apply list.NoDup_cons in Hu' as [Hx Hu']. split; [done| |].
  - intros y Hy. rewrite En. apply Ho. rewrite Hp. by right.
  - intros s i. rewrite Es, in_idx_remove, Hi. split.
    + intros [(y & Hy & <- & <-) Hne]. exists y. split; [|done]. rewrite Hp in Hy.
      apply elem_of_cons in Hy as [->|Hy]; [|done]. by destruct Hne.
    + intros (y & Hy & <- & <-). split; [exists y; rewrite Hp; by split; [right|]|].
      intros [_ E]. apply Hx. cbn. rewrite Ex, <- E. by apply list_elem_of_fmap_2.
Qed.

Lemma task_step_inv t t' : task_step t t' -> task_inv t -> task_inv t'.
Proof.
  destruct 1; intros Hi; [by apply add_task_inv|by apply rollback_task|by apply cancel_tasks_inv|].
  by eapply take_task_inv.
Qed.

(** ** Timers *)

Record timer_inv (t : Timers) : Prop := {
  timer_old : forall id, is_Some (actor_timers t !! id) -> id < next_actor_timer_id t;
  timer_indexed : forall svc id, in_idx (actor_timers_by_service t) svc id <->
    exists x, actor_timers t !! id = Some x /\ timer_service x = svc
}.

(** Removing a timer and its entry, with either way of erasing from the index. *)
Lemma remove_timer_inv id x t idx :
  actor_timers t !! id = Some x ->
  (forall svc i, in_idx idx svc i <->
     in_idx (actor_timers_by_service t) svc i /\ ~ (svc = timer_service x /\ i = id)) ->
  timer_inv t -> timer_inv (mkTimers (next_actor_timer_id t) (delete id (actor_timers t)) idx).
Proof.
  intros Hx Hidx [Ho Hi]. split; cbn.
  - intros i [_ Hs]%lookup_delete_is_Some. auto.
  - intros svc i. rewrite Hidx, Hi. setoid_rewrite lookup_delete_Some. split.
    + intros [(y & Hy & <-) Hne]. exists y. split_and!; [|done|done]. intros <-.
      apply Hne. split; [|done]. congruence.
    + intros (y & [Hne Hy] & <-). naive_solver.
Qed.

Lemma timer_step_inv t t' : timer_step t t' -> timer_inv t -> timer_inv t'.
Proof.
  destruct 1; intros Hv.
  - destruct Hv as [Ho Hi]. split; cbn -[idx_insert].
    + intros i Hs. rewrite !lookup_insert_is_Some in Hs.
      destruct Hs as [<-|[_ [<-|[_ Hs]]]]; [lia|lia|]. apply Ho in Hs. lia.
    + intros s i. rewrite in_idx_insert, Hi. split.
      * intros [[-> ->]|(x & Hx & <-)]; [rewrite lookup_insert_eq; by eexists|].
        assert (i < next_actor_timer_id t) by (apply Ho; by eexists).
        rewrite !lookup_insert_ne by lia. eauto.
      * intros (x & Hx & <-). rewrite !lookup_insert_Some in Hx.
        destruct Hx as [[<- <-]|[Hn [[<- _]|[_ Hx]]]]; [by left|done|eauto].
  - destruct Hv as [Ho Hi].
    assert (E : delete id (<[id:=x]> (actor_timers t)) = actor_timers t).
    { rewrite delete_insert_eq. apply delete_id. apply eq_None_not_Some. intros Hs. apply Ho in Hs.
      unfold id in Hs. lia. }
    rewrite E. split; cbn; [|done]. intros i Hs. apply Ho in Hs. unfold id. lia.
  - by apply (remove_timer_inv id x); [|intros; apply in_idx_remove|].
  - unfold take_timer in H. case_in H; [|done]. case_in H; [|done]. injection H as <- <-.
    case_head; [done|]. by apply (remove_timer_inv id a); [|intros; apply in_idx_erase_at|].
Qed.

(** ** All invariants together *)

Record manager_inv (st : State) : Prop := {
  inv_registry : consistent_state st;
  inv_tasks : task_inv (tasks st);
  inv_timers : timer_inv (timers st);
  inv_calls : call_inv (call_part st)
}.

Lemma evolves_inv st st' : evolves st st' -> manager_inv st -> manager_inv st'.
Proof.
  intros He [H1 H2 H3 H4]. split; [by eapply evolves_consistent| | |by eapply evolves_call_inv].
  - destruct He as [_ _ Ht _ _]. clear -H2 Ht. induction Ht; [done|]. eauto using task_step_inv.
  - destruct He as [_ _ _ Ht _]. clear -H3 Ht. induction Ht; [done|]. eauto using timer_step_inv.
Qed.

Lemma init_inv m : manager_inv (init_state m).
Proof.
  split; [apply init_consistent| | |apply init_call_inv]; split; cbn.
  - apply NoDup_nil_2.
  - by intros x ?%elem_of_nil.
  - intros s i. split; [|by intros (x & ?%elem_of_nil & _)]. intros Hx.
    by apply (not_elem_of_empty (C := gset Z) i) in Hx.
  - intros i [? [=]].
  - intros s i. split; [|intros (x & [=] & _)]. intros Hx.
    by apply (not_elem_of_empty (C := gset Z) i) in Hx.
Qed.

Lemma manager_inv_reachable `{JsonLib, LuaWorld} d m st : reachable d m st -> manager_inv st.
Proof.
  apply (reachable_invariant manager_inv); [apply init_inv|apply evolves_inv|].
  intros st' [H1 H2 H3 H4]. split; try done. destruct H1. by split.
Qed.

(** ** What the parts of [exit] leave alone *)

Lemma pop_scope_keeps st :
  registry (pop_scope st) = registry st /\ tasks (pop_scope st) = tasks st /\
  timers (pop_scope st) = timers st /\ calls (pop_scope st) = calls st /\
  schedule (pop_scope st) = schedule st /\ log (pop_scope st) = log st.
Proof. unfold pop_scope. destruct (dispatch_stack st); [done|]. by case_head. Qed.

Lemma finish_exit_keeps id st :
  registry (finish_exit id st) = snd (erase_service id (registry st)) /\
  tasks (finish_exit id st) = tasks st /\ timers (finish_exit id st) = timers st /\
  calls (finish_exit id st) = calls st /\ schedule (finish_exit id st) = schedule st /\
  dispatch_stack (finish_exit id st) = dispatch_stack st /\ log (finish_exit id st) = log st.
Proof. unfold finish_exit. destruct (erase_service id (registry st)) as [[] ?]; done. Qed.

Lemma cancel_timer_keeps id st :
  registry (snd (cancel_actor_timer id st)) = registry st /\
  tasks (snd (cancel_actor_timer id st)) = tasks st /\ calls (snd (cancel_actor_timer id st)) = calls st /\
  stopping (snd (cancel_actor_timer id st)) = stopping st /\
  schedule (snd (cancel_actor_timer id st)) = schedule st /\
  dispatch_stack (snd (cancel_actor_timer id st)) = dispatch_stack st /\
  log (snd (cancel_actor_timer id st)) = log st.
Proof. unfold cancel_actor_timer. case_head; [|done]. by destruct (timer_driver a). Qed.

Lemma cancel_timer_lookup id st i :
  actor_timers (timers (snd (cancel_actor_timer id st))) !! i =
  if decide (i = id) then None else actor_timers (timers st) !! i.
Proof.
  unfold cancel_actor_timer. destruct (actor_timers (timers st) !! id) as [x|] eqn:E; cbn.
  - case_decide as Hi; [subst; apply lookup_delete_eq|by rewrite lookup_delete_ne].
  - case_decide; [by subst|done].
Qed.

Lemma cancel_timers_fold l st :
  let st' := foldl (fun st id => snd (cancel_actor_timer id st)) st l in
  registry st' = registry st /\ tasks st' = tasks st /\ calls st' = calls st /\
  schedule st' = schedule st /\ dispatch_stack st' = dispatch_stack st /\ log st' = log st /\
  forall i, actor_timers (timers st') !! i =
            if bool_decide (i ∈ l) then None else actor_timers (timers st) !! i.
Proof.
  revert st. induction l as [|x l IH]; intros st; cbn [foldl]; [done|].
  specialize (IH (snd (cancel_actor_timer x st))) as (E1 & E2 & E3 & E4 & E5 & E6 & E7).
  destruct (cancel_timer_keeps x st) as (F1 & F2 & F3 & _ & F4 & F5 & F6).
  split_and!; [congruence..|]. intros i. rewrite E7, cancel_timer_lookup.
  case_decide as Hi; [subst; rewrite (bool_decide_true (x ∈ x :: l)) by (by left); by case_bool_decide|].
  repeat case_bool_decide; set_solver.
Qed.

Lemma cancel_call_timeout_fields s st :
  registry (snd (cancel_actor_call_timeout s st)) = registry st /\
  tasks (snd (cancel_actor_call_timeout s st)) = tasks st /\
  timers (snd (cancel_actor_call_timeout s st)) = timers st /\
  schedule (snd (cancel_actor_call_timeout s st)) = schedule st /\
  dispatch_stack (snd (cancel_actor_call_timeout s st)) = dispatch_stack st /\
  log (snd (cancel_actor_call_timeout s st)) = log st /\
  forall i, actor_call_timeouts (calls (snd (cancel_actor_call_timeout s st))) !! i =
            if decide (i = s) then None else actor_call_timeouts (calls st) !! i.
Proof.
  unfold cancel_actor_call_timeout. destruct (actor_call_timeouts (calls st) !! s) as [x|] eqn:E; cbn;
    (split_and!; [done..|]); intros i; case_decide as Hi.
  - subst. apply lookup_delete_eq.
  - by rewrite lookup_delete_ne.
  - by subst.
  - done.
Qed.

Definition cancel_one (svc : string) (st : State) (s : Z) : State :=
  match pending_calls (calls st) !! s with
  | Some pc => if String.eqb (caller_service pc) svc then snd (cancel_actor_call_timeout s st) else st
  | None => st
  end.

Lemma cancel_call_timeouts_fold svc l st :
  let st' := foldl (cancel_one svc) st l in
  registry st' = registry st /\ tasks st' = tasks st /\ timers st' = timers st /\
  schedule st' = schedule st /\ dispatch_stack st' = dispatch_stack st /\ log st' = log st /\
  pending_calls (calls st') = pending_calls (calls st) /\
  forall s d pc, actor_call_timeouts (calls st') !! s = Some d ->
    actor_call_timeouts (calls st) !! s = Some d /\
    (s ∈ l -> pending_calls (calls st) !! s = Some pc -> caller_service pc <> svc).
Proof.
  revert st. induction l as [|x l IH]; intros st; cbn [foldl].
  { split_and!; try done. intros s d pc Hs. split; [done|]. by intros ?%elem_of_nil. }
  specialize (IH (cancel_one svc st x)) as (E1 & E2 & E3 & E4 & E5 & E6 & E7 & E8).
  assert (F : registry (cancel_one svc st x) = registry st /\ tasks (cancel_one svc st x) = tasks st /\
    timers (cancel_one svc st x) = timers st /\ schedule (cancel_one svc st x) = schedule st /\
    dispatch_stack (cancel_one svc st x) = dispatch_stack st /\ log (cancel_one svc st x) = log st /\
    pending_calls (calls (cancel_one svc st x)) = pending_calls (calls st) /\
    forall s d, actor_call_timeouts (calls (cancel_one svc st x)) !! s = Some d ->
      actor_call_timeouts (calls st) !! s = Some d /\
      (s = x -> forall pc, pending_calls (calls st) !! s = Some pc -> caller_service pc <> svc)).
  { unfold cancel_one. destruct (pending_calls (calls st) !! x) as [pc|] eqn:Ep.
    - destruct (String.eqb_spec (caller_service pc) svc) as [Ec|Ec].
      + destruct (cancel_call_timeout_fields x st) as (G1 & G2 & G3 & G4 & G5 & G6 & G7).
        destruct (cancel_call_timeout_keeps x st) as [G8 _]. split_and!; try done.
        intros s d. rewrite G7. by case_decide.
      + split_and!; try done. intros s d Hs. split; [done|]. intros ->. congruence.
    - split_and!; try done. intros s d Hs. split; [done|]. intros ->. congruence. }
  destruct F as (F1 & F2 & F3 & F4 & F5 & F6 & F7 & F8). split_and!; [congruence..|].
  intros s d pc Hs. destruct (E8 s d pc Hs) as [Ht Hl]. apply F8 in Ht as [Ht Hx]. split; [done|].
  intros [->|Hin]%elem_of_cons Hp; [eauto|]. apply Hl; [done|]. by rewrite F7.
Qed.

(** [exit] after [on_exit] has returned. *)
Definition exit_rest (id : string) (st : State) : State :=
  pop_scope (finish_exit id (cancel_call_timeouts_of id (cancel_timers_of id
    (set_tasks (cancel_forked_tasks_for_service id (tasks st)) st)))).

Lemma exit_unfold `{LuaWorld} run id reason st vm :
  services (registry st) !! id = Some vm ->
  exit run id reason st =
  exit_rest id (snd (call_service_function run vm "on_exit" (JStr reason)
                       (add_log (EvExit id reason) (push_scope id "" true "" 0 st)))).
Proof. intros Hs. unfold exit. rewrite Hs. by destruct (call_service_function _ _ _ _ _). Qed.

(** What the second half of [exit] does, field by field. *)
Lemma exit_rest_fields id st :
  registry (exit_rest id st) = snd (erase_service id (registry st)) /\
  tasks (exit_rest id st) = cancel_forked_tasks_for_service id (tasks st) /\
  schedule (exit_rest id st) = schedule st /\ log (exit_rest id st) = log st /\
  (forall i, actor_timers (timers (exit_rest id st)) !! i =
     if bool_decide (i ∈ default ∅ (actor_timers_by_service (timers st) !! id)) then None
     else actor_timers (timers st) !! i) /\
  pending_calls (calls (exit_rest id st)) = pending_calls (calls st) /\
  (forall s d pc, actor_call_timeouts (calls (exit_rest id st)) !! s = Some d ->
     pending_calls (calls st) !! s = Some pc -> caller_service pc <> id).
Proof.
  unfold exit_rest. set (st1 := set_tasks _ st).
  pose proof (cancel_timers_fold (elements (default ∅ (actor_timers_by_service (timers st1) !! id))) st1)
    as (A1 & A2 & A3 & A4 & _ & A6 & A7).
  change (foldl _ st1 _) with (cancel_timers_of id st1) in *. set (st2 := cancel_timers_of id st1) in *.
  pose proof (cancel_call_timeouts_fold id (map_to_list (actor_call_timeouts (calls st2))).*1 st2)
    as (B1 & B2 & B3 & B4 & _ & B6 & B7 & B8).
  change (foldl _ st2 _) with (cancel_call_timeouts_of id st2) in *.
  set (st3 := cancel_call_timeouts_of id st2) in *.
  destruct (finish_exit_keeps id st3) as (C1 & C2 & C3 & C4 & C5 & _ & C7).
  destruct (pop_scope_keeps (finish_exit id st3)) as (D1 & D2 & D3 & D4 & D5 & D6).
  rewrite D1, D2, D3, D4, D5, D6, C1, C2, C3, C4, C5, C7, B1, B2, B3, B4, B6, A1, A2, A4, A6.
  split_and!; try done.
  - intros i. rewrite A7. by rewrite (bool_decide_ext _ _ (elem_of_elements _ i)).
  - by rewrite B7, A3.
  - intros s d pc Hs Hp. destruct (B8 s d pc Hs) as [Ht Hl]. apply Hl.
    + apply list_elem_of_fmap. exists (s, d). split; [done|]. by apply elem_of_map_to_list.
    + by rewrite A3.
Qed.

Lemma exit_services `{LuaWorld} run id reason st :
  services (registry (exit run id reason st)) !! id = None.
Proof.
  destruct (services (registry st) !! id) as [vm|] eqn:E.
  - rewrite (exit_unfold _ _ _ _ _ E).
    destruct (exit_rest_fields id (snd (call_service_function run vm "on_exit" (JStr reason)
      (add_log (EvExit id reason) (push_scope id "" true "" 0 st))))) as [-> _].
    cbn. apply lookup_delete_eq.
  - unfold exit. by rewrite E.
Qed.

Lemma erase_service_published b r id n :
  consistent (b, r) -> published_names (snd (erase_service id r)) !! n <> Some id.
Proof.
  intros Hc. unfold erase_service. cbn. rewrite (release_names_published b) by done.
  intros [_ Hn]%map_lookup_filter_Some. done.
Qed.

(** ** Shutdown *)

(** Once [stopping] is set no service is added. *)
Lemma stopping_services st st' id :
  stopping st = true -> evolves st st' -> services (registry st) !! id = None ->
  services (registry st') !! id = None.
Proof.
  intros Hs [_ Hr _ _ _]. rewrite Hs in Hr. clear Hs. induction Hr as [|r r' r'' Hst Hr IH]; [done|].
  intros Hn. apply IH. destruct Hst; subst; try done.
  - unfold emplace_actor. by case_head.
  - unfold rollback_spawn. by rewrite (proj1 (release_names_rest id0 _)).
  - by apply register_inv in H0 as [_ ->].
  - by apply unregister_inv in H as [_ ->].
  - cbn. rewrite lookup_delete_None. right. by rewrite (proj1 (release_names_rest id0 _)).
Qed.

Section Shutdown.
Context `{JsonLib, LuaWorld}.

Lemma shutdown_loop_services d reason l st seen :
  stopping st = true -> (forall x, x ∈ seen -> services (registry st) !! x = None) ->
  forall x, x ∈ seen \/ x ∈ l ->
  services (registry (fst (foldl (shutdown_one (run d) reason) (st, seen) l))) !! x = None.
Proof.
  revert st seen. induction l as [|y l IH]; intros st seen Hs Hseen x Hx; cbn [foldl].
  { destruct Hx as [Hx|Hx%elem_of_nil]; [auto|done]. }
  assert (E : exists st', shutdown_one (run d) reason (st, seen) y = (st', {[y]} ∪ seen) /\
    stopping st' = true /\ forall z, z ∈ {[y]} ∪ seen -> services (registry st') !! z = None).
  { unfold shutdown_one. case_head.
    - pose proof (exit_evolves (run d) (run_evolves d) y reason st) as He.
      eexists. split; [done|]. split; [by rewrite (ev_stopping _ _ He)|].
      intros z [->%elem_of_singleton|Hz]%elem_of_union; [apply exit_services|].
      eapply stopping_services; eauto.
    - eexists. split; [done|]. split; [done|].
      intros z [->%elem_of_singleton|Hz]%elem_of_union; [|auto].
      apply andb_false_iff in E as [E%bool_decide_eq_false|E%bool_decide_eq_false].
      + apply Hseen. destruct (decide (y ∈ seen)); [done|tauto].
      + by apply eq_None_not_Some. }
  destruct E as (st' & -> & Hs' & Hseen'). apply IH; [done|done|].
  apply elem_of_cons in Hx || destruct Hx as [Hx|[->|Hx]%elem_of_cons]; set_solver.
Qed.

(** A script on the main thread inside [on_exit], during shutdown and with no
    other thread interfering: it starts no operation that runs another script. *)
Record calm (st : State) : Prop := {
  calm_stopping : stopping st = true;
  calm_schedule : schedule st = [];
  calm_exit : is_in_exit st = true
}.

Record undisturbed (st st' : State) : Prop := {
  same_stopping : stopping st' = stopping st;
  same_schedule : schedule st' = schedule st;
  same_stack : dispatch_stack st' = dispatch_stack st;
  same_log : log st' = log st;
  same_services : services (registry st') = services (registry st);
  same_order : service_order (registry st') = service_order (registry st)
}.

#[export] Instance undisturbed_preorder : PreOrder undisturbed.
Proof. split; [by intros st; split|]. intros a b c [] []. split; congruence. Qed.

Lemma undisturbed_refl st : undisturbed st st.
Proof. reflexivity. Qed.

Lemma undisturbed_calm st st' : undisturbed st st' -> calm st -> calm st'.
Proof.
  intros [E1 E2 E3 _ _ _] [H1 H2 H3]. split; [congruence|congruence|].
  unfold is_in_exit, top_frame in *. by rewrite E3.
Qed.

Lemma schedule_timer_undisturbed i rep fn svc st :
  undisturbed st (snd (schedule_actor_timer i rep fn svc st)).
Proof.
  unfold schedule_actor_timer. case_head; [|reflexivity]. cbv zeta. case_head; [by split|].
  destruct p as [dr st']. apply spawn_driver_inv in E0 as [-> ->]. by split.
Qed.

Lemma send_undisturbed t m a st o st' : send t m a st = inr (o, st') -> undisturbed st st'.
Proof. unfold send, ebind. intros Hs. repeat (case_in Hs; simplify_eq; try by split). Qed.

Lemma enqueue_undisturbed svc fn st : undisturbed st (snd (enqueue_forked_task svc fn st)).
Proof.
  unfold enqueue_forked_task. case_head; [reflexivity|]. cbn -[idx_insert idx_remove].
  by case_head; split.
Qed.

Lemma api_call_calm r a st : calm st -> undisturbed st (result_state (api_call r MainThread a st)).
Proof.
  intros [Hs Hsch Hex]. destruct a; cbn [api_call]; try reflexivity.
  - unfold api_spawn, spawn. rewrite Hs. by destruct (json_dump _).
  - cbn. unfold request_current_exit, is_in_exit, top_frame in *.
    destruct (dispatch_stack st); cbn in *; [reflexivity|]. by rewrite Hex.
  - unfold api_query. by case_head.
  - unfold api_register. destruct (register_name name st) as [|st'] eqn:E; [reflexivity|].
    unfold register_name in E. case_in E; [done|]. cbv zeta in E.
    destruct (negb (valid_name name)); [done|]. apply ebind_inr in E as (r' & Hr & [= <-]).
    apply register_inv in Hr as [_ ->]. by split.
  - unfold api_unregister. destruct (unregister_name name st) as [|st'] eqn:E; [reflexivity|].
    unfold unregister_name in E. case_in E; [done|]. apply ebind_inr in E as (r' & Hr & [= <-]).
    apply unregister_inv in Hr as [_ ->]. by split.
  - unfold api_send. case_head; [reflexivity|].
    destruct (send target method (JArr args) st) as [|[[e|] st']] eqn:Es; [reflexivity| |];
      apply send_undisturbed in Es; [by destruct (send_error_code e)|done].
  - unfold api_call_timeout. by rewrite Hex.
  - unfold api_call_timeout. by rewrite Hex.
  - unfold api_timer. cbv zeta. case_head; [reflexivity|]. case_head; [reflexivity|].
    pose proof (schedule_timer_undisturbed delay_ms false (RawCallback callback MainThread)
      (current_service_id st) st) as Hu. unfold schedule_actor_timer_once. cbn [detach].
    by destruct (schedule_actor_timer _ _ _ _ _).
  - unfold api_timer. cbv zeta. case_head; [reflexivity|]. case_head; [reflexivity|].
    pose proof (schedule_timer_undisturbed interval_ms true (RawCallback callback MainThread)
      (current_service_id st) st) as Hu. unfold schedule_actor_timer_fixed_delay. cbn [detach].
    by destruct (schedule_actor_timer _ _ _ _ _).
  - unfold api_cancel_timer. destruct (cancel_timer_keeps id st) as (E1 & _ & _ & E2 & E3 & E4 & E5).
    destruct (cancel_actor_timer id st); cbn in *. split; congruence.
  - unfold api_sleep, block. rewrite Hsch. by split.
  - unfold api_fork. case_head; [reflexivity|]. cbn [detach].
    pose proof (enqueue_undisturbed (current_service_id st) (RawFn fn MainThread) st) as Hu.
    by destruct (enqueue_forked_task _ _ _).
Qed.

Lemma api_call_same r r' a st : calm st -> api_call r MainThread a st = api_call r' MainThread a st.
Proof.
  intros [Hs Hsch Hex].
  assert (Hcall : forall n t tgt m args, api_call_timeout r n MainThread t tgt m args st =
                                         api_call_timeout r' n MainThread t tgt m args st).
  { intros. unfold api_call_timeout. by rewrite Hex. }
  destruct a; cbn [api_call];
    lazymatch goal with
    | |- api_spawn _ _ _ _ = _ => unfold api_spawn, spawn; by rewrite Hs
    | |- api_call_timeout _ _ _ _ _ _ _ _ = _ => apply Hcall
    | |- api_sleep _ _ _ _ = _ => unfold api_sleep, block; by rewrite Hsch
    | |- _ => reflexivity
    end.
Qed.

(** The script runs to the same end with any interpreter for nested scripts. *)
Lemma interpret_calm r r' s st :
  calm st -> undisturbed st (snd (interpret r MainThread s st)) /\
             interpret r MainThread s st = interpret r' MainThread s st.
Proof.
  revert s st. fix go 1. intros s st Hc. destruct s as [vs|m|a k]; [done|done|].
  pose proof (api_call_calm r a st Hc) as Ha. cbn [interpret].
  rewrite <- (api_call_same r r' a st Hc).
  destruct (api_call r MainThread a st) as [vs st'|w st'|m st']; cbn [result_state] in Ha; [|done..].
  destruct (go (k vs) st') as [H1 H2]; [by eapply undisturbed_calm|]. split; [by etrans|exact H2].
Qed.

Lemma call_service_function_calm r r' vm f args st :
  calm st ->
  undisturbed st (snd (call_service_function (interpret r) vm f args st)) /\
  call_service_function (interpret r) vm f args st = call_service_function (interpret r') vm f args st.
Proof.
  intros Hc. unfold call_service_function. destruct (vm_table vm f) as [[|g]|]; [done| |done].
  destruct (interpret_calm r r' (g [args]) st Hc) as [Hu <-].
  split; [|done]. by destruct (interpret r MainThread (g [args]) st) as [[] ?].
Qed.

Lemma exit_calm d id reason st vm :
  stopping st = true -> schedule st = [] -> services (registry st) !! id = Some vm ->
  exit (run (S d)) id reason st = exit (run 1) id reason st /\
  schedule (exit (run (S d)) id reason st) = [] /\
  log (exit (run (S d)) id reason st) = log st ++ [EvExit id reason] /\
  services (registry (exit (run (S d)) id reason st)) = delete id (services (registry st)).
Proof.
  intros Hs Hsch Hvm. rewrite !(exit_unfold _ _ _ _ _ Hvm).
  set (st0 := add_log (EvExit id reason) (push_scope id "" true "" 0 st)).
  assert (Hc : calm st0) by by split.
  destruct (call_service_function_calm (run d) (run 0) vm "on_exit" (JStr reason) st0 Hc) as [Hu E].
  change (interpret (run d)) with (run (S d)) in *. change (interpret (run 0)) with (run 1) in *.
  rewrite <- E. set (st1 := snd _) in *.
  destruct (exit_rest_fields id st1) as (E1 & _ & E3 & E4 & _).
  split; [done|]. rewrite E1, E3, E4. destruct Hu as [_ U2 _ U4 U5 _]. split; [by rewrite U2|].
  split; [by rewrite U4|]. cbn. by rewrite (proj1 (release_names_rest id _)), U5.
Qed.

Lemma shutdown_loop_calm d reason l st seen :
  stopping st = true -> schedule st = [] -> NoDup l ->
  (forall x, x ∈ l -> (x ∉ seen) /\ is_Some (services (registry st) !! x)) ->
  foldl (shutdown_one (run (S d)) reason) (st, seen) l = foldl (shutdown_one (run 1) reason) (st, seen) l /\
  log (fst (foldl (shutdown_one (run (S d)) reason) (st, seen) l)) =
    log st ++ map (fun id => EvExit id reason) l.
Proof.
  revert st seen. induction l as [|y l IH]; intros st seen Hs Hsch Hnd Hl; cbn [foldl map].
  { by rewrite app_nil_r. }
  apply list.NoDup_cons in Hnd as [Hy Hnd]. destruct (Hl y) as [Hseen [vm Hvm]]; [by left|].
  destruct (exit_calm d y reason st vm Hs Hsch Hvm) as (E1 & E2 & E3 & E4).
  assert (Eo : forall r, shutdown_one r reason (st, seen) y = (exit r y reason st, {[y]} ∪ seen)).
  { intros r. unfold shutdown_one. by rewrite !bool_decide_true by done. }
  rewrite !Eo, <- E1. destruct (IH (exit (run (S d)) y reason st) ({[y]} ∪ seen)) as [H1 H2]; [|done|done| |].
  - by rewrite (ev_stopping _ _ (exit_evolves (run (S d)) (run_evolves (S d)) y reason st)).
  - intros x Hx. assert (x <> y) by (intros ->; done). destruct (Hl x) as [Hx1 Hx2]; [by right|].
    split; [set_solver|]. rewrite E4. by rewrite lookup_delete_ne.
  - split; [done|]. rewrite H2, E3, <- app_assoc. done.
Qed.
End Shutdown.

(** ** Properties *)

Section Properties.
Context `{JsonLib, LuaWorld}.

(** C15: when a running service exits, whatever its [on_exit] does, nothing of
    it is left: neither its table entry nor its actor, its place in the order or
    any name it owned, no forked task and no timer of it, and no timer actor of a
    call it made; and it is remembered as exited. *)
Theorem exit_releases_everything depth modules st id reason vm :
  reachable depth modules st -> services (registry st) !! id = Some vm ->
  let st' := exit (run depth) id reason st in
  services (registry st') !! id = None /\ service_actors (registry st') !! id = None /\
  (id ∉ service_order (registry st')) /\ (forall n, published_names (registry st') !! n <> Some id) /\
  (forall x, x ∈ pending_tasks (tasks st') -> task_service x <> id) /\
  (forall t x, actor_timers (timers st') !! t = Some x -> timer_service x <> id) /\
  (forall s d pc, actor_call_timeouts (calls st') !! s = Some d ->
     pending_calls (calls st') !! s = Some pc -> caller_service pc <> id) /\
  id ∈ recently_exited (registry st').
Proof.
  intros Hr Hvm st'. unfold st'. rewrite (exit_unfold _ _ _ _ _ Hvm). set (st1 := snd _).
  assert (Hi : manager_inv st1).
  { eapply evolves_inv; [|by eapply manager_inv_reachable]. unfold st1.
    etrans; [|apply call_service_function_evolves, run_evolves].
    etrans; [|by apply add_log_evolves]. apply push_scope_evolves. }
  destruct (exit_rest_fields id st1) as (-> & -> & _ & _ & E5 & -> & E7). destruct Hi as [Hc Ht Hm _].
  split_and!; cbn.
  - apply lookup_delete_eq.
  - apply lookup_delete_eq.
  - by intros [? _]%list_elem_of_filter.
  - intros n. by apply (erase_service_published (stopping st1)).
  - intros x Hx%cancel_tasks_pending; [|done]. tauto.
  - intros t x. rewrite E5. case_bool_decide as Hn; [done|]. intros Hx Ex. apply Hn.
    apply (timer_indexed _ Hm). eauto.
  - exact E7.
  - by apply elem_of_union_l, elem_of_singleton.
Qed.

Lemma shutdown_all_unfold d reason st :
  shutdown_all (run d) reason st =
  clear_order (fst (foldl (shutdown_one (run d) reason) (set_stopping st, ∅)
                      (rev (service_order (registry st))))).
Proof.
  unfold shutdown_all. cbv zeta. change (registry (set_stopping st)) with (registry st).
  match goal with |- context [foldl ?f ?a ?l] => destruct (foldl f a l) end. reflexivity.
Qed.

(** Nothing runs after a shutdown. *)
Lemma shutdown_no_service depth modules st reason d :
  reachable depth modules st -> stopping st = false ->
  services (registry (shutdown_all (run d) reason st)) = ∅ /\
  service_order (registry (shutdown_all (run d) reason st)) = [].
Proof.
  intros Hr Hs. destruct (reachable_consistent _ _ _ Hr) as [_ _ _ Hnd Hrun Hord]; cbn in Hnd, Hrun, Hord.
  rewrite shutdown_all_unfold. split; [|done].
  cbn [clear_order registry set_registry services]. apply map_empty. intros x.
  destruct (services (registry st) !! x) as [vm|] eqn:Ex.
  - apply (shutdown_loop_services d reason (rev (service_order (registry st))) (set_stopping st) ∅);
      [done|set_solver|]. right. rewrite <- Permutation_rev. apply Hord; [done|by eexists].
  - eapply stopping_services; [|apply (shutdown_loop_evolves d reason _ (set_stopping st) ∅)|]; done.
Qed.

(** C16: shutdown ends all services, and it ends: no service runs afterwards and
    the order is empty, whatever the scripts do; and as long as no other thread
    interferes while a hook blocks, every service is told to exit exactly once,
    the newest first, and nothing else happens, independently of how deeply
    scripts may nest, since a hook that runs during shutdown cannot start
    another script. *)
Theorem shutdown_ends_services depth modules st reason d :
  reachable depth modules st -> stopping st = false ->
  let st' := shutdown_all (run (S d)) reason st in
  services (registry st') = ∅ /\ service_order (registry st') = [] /\
  (schedule st = [] ->
   log st' = log st ++ map (fun id => EvExit id reason) (rev (service_order (registry st))) /\
   forall d', shutdown_all (run (S d')) reason st = st').
Proof.
  intros Hr Hs st'. destruct (reachable_consistent _ _ _ Hr) as [_ _ _ Hnd Hrun Hord]; cbn in Hnd, Hrun, Hord.
  assert (Hcalm : forall d, schedule st = [] ->
    foldl (shutdown_one (run (S d)) reason) (set_stopping st, ∅) (rev (service_order (registry st))) =
    foldl (shutdown_one (run 1) reason) (set_stopping st, ∅) (rev (service_order (registry st))) /\
    log (fst (foldl (shutdown_one (run (S d)) reason) (set_stopping st, ∅)
                (rev (service_order (registry st))))) =
      log st ++ map (fun id => EvExit id reason) (rev (service_order (registry st)))).
  { intros d0 Hsch. refine (shutdown_loop_calm d0 reason _ (set_stopping st) ∅ eq_refl Hsch _ _).
    - by rewrite <- Permutation_rev.
    - intros x Hx. rewrite <- Permutation_rev in Hx. split; [set_solver|by apply Hrun]. }
  unfold st'. destruct (shutdown_no_service depth modules st reason (S d) Hr Hs) as [E1 E2].
  split_and!; [done|done|]. intros Hsch. destruct (Hcalm d Hsch) as [Ed Hl].
  split; [by rewrite shutdown_all_unfold|]. intros d'.
  by rewrite !shutdown_all_unfold, (proj1 (Hcalm d' Hsch)), Ed.
Qed.
End Properties.

(** ** Witnesses *)

(** [echo] has a forked task and a timer, [front] is suspended in a call. *)
Definition busy : State :=
  after (start ++ [msg "echo" "work"; CEvent (Deliver 0); msg "front" "ask"; CEvent (Deliver 1)]).

Lemma exit_releases_everything_witness :
  size (actor_timers (timers busy)) = 1%nat /\ length (pending_tasks (tasks busy)) = 1%nat /\
  (forall x, x ∈ pending_tasks (tasks (exit (run 4) "echo" "bye" busy)) -> task_service x <> "echo") /\
  (forall t x, actor_timers (timers (exit (run 4) "echo" "bye" busy)) !! t = Some x ->
     timer_service x <> "echo").
Proof.
  split; [vm_compute; reflexivity|]. split; [vm_compute; reflexivity|].
  destruct (exit_releases_everything 4 ∅ busy "echo" "bye" echo_vm (after_reachable _)) as
    (_ & _ & _ & _ & Ht & Hm & _); [vm_compute; reflexivity|]. split; [exact Ht|exact Hm].
Defined.

Lemma shutdown_ends_services_witness :
  service_order (registry busy) = ["echo"; "front"] /\
  services (registry (shutdown_all (run 3) "stop" busy)) = ∅ /\
  log (shutdown_all (run 3) "stop" busy) = log busy ++ [EvExit "front" "stop"; EvExit "echo" "stop"].
Proof.
  split; [vm_compute; reflexivity|].
  destruct (shutdown_ends_services 4 ∅ busy "stop" 2 (after_reachable _)) as (Hs & _ & Hl);
    [vm_compute; reflexivity|].
  split; [exact Hs|]. destruct Hl as [Hl _]; [vm_compute; reflexivity|exact Hl].
Defined.
