(* ===== verification/ServiceDefects.v ===== *)
(** * ServiceDefects: where the service manager does not do what it means to

    The documentation makes the name of a service optional, but no service can be
    started without one.  The examples run the manager into situations its
    comments and documents promise to handle. *)

From S2P Require Import Prelude Text Json ServiceState Services ServiceDemo.

(** A generated name contains a colon, which [valid_name] rejects. *)
Lemma generated_name_invalid `{LuaWorld} module : valid_name (generated_name module) = false.
Proof.
  unfold valid_name, generated_name. rewrite !str_all_app. cbn. by rewrite !andb_false_r.
Qed.

(** A service that is spawned without a name is never started: whatever
    the options, module and state, [spawn] returns an error and leaves the state
    as it was, since the name it generates is not valid. *)
Theorem unnamed_spawn_fails `{JsonLib, LuaWorld} run module opts_json st j :
  json_parse (bytes_of opts_json) = inr j ->
  value get_string "name" "" j = Ret "" ->
  exists e, spawn run module opts_json st = (inl e, st).
Proof.
  intros Hj Hn. unfold spawn. destruct (stopping st); [by eexists|]. rewrite Hj. cbn [of_sum obind].
  unfold spawn_options. rewrite Hn. cbn [obind].
  destruct (value get_json "args" _ j) as [args|e|]; cbn [obind]; [|by eexists..].
  destruct (value get_json "config" _ j) as [config|e|]; cbn [obind]; [|by eexists..].
  cbn [opt_name str_empty]. rewrite generated_name_invalid. cbn [negb].
  destruct (bool_decide _); [by eexists|]. destruct (bool_decide _); by eexists.
Qed.

Lemma unnamed_spawn_fails_witness :
  exists e, spawn (run 4) "echo" "{}" (init_state ∅) = (inl e, init_state ∅).
Proof.
  apply (unnamed_spawn_fails (run 4) "echo" "{}" (init_state ∅) (JObj [])); vm_compute; reflexivity.
Defined.

(** ** Calls *)

(** A handler that itself calls a service never answers its own caller: the
    handler of [front] is resumed with the reply of [echo] and returns, but
    [resume_caller] drops what it returns and the caller runs into the timeout. *)
Example nested_call_never_answers :
  let st := after (start ++ [CSchedule [[Deliver 0]; [Deliver 0; Deliver 0]]; CCall "echo" "ping" (JArr []) 0]) in
  let '(result, st) := call (run 4) "front" "ask" (JArr [JInt 1]) 0 st in
  result = inl "call timeout (actor dispatch exceeded limit)" /\
  EvResume 1 2 true (JArr [JInt 1]) ∈ log st /\ coroutines (system st) !! 2 = None.
Proof. vm_compute. repeat split. do 6 right. left. Qed.

(** Sessions of blocked callers and of suspended coroutines are numbered
    separately, both from 1, and [resume_caller] looks for a blocked caller
    first: the reply of [echo] to [front] is given to the caller of [front], and
    [front] stays suspended. *)
Example session_numbers_collide :
  let st := after (start ++ [CSchedule [[Deliver 0; Deliver 0]]]) in
  let '(result, st) := call (run 4) "front" "ask" (JArr [JInt 1]) 0 st in
  result = inr (JArr [JInt 1]) /\ size (pending_calls (calls st)) = 1%nat /\
  size (coroutines (system st)) = 1%nat.
Proof. vm_compute. repeat split. Qed.

(** After a call the handler runs inside the dispatch of the service it called:
    the name that [front] registers then belongs to [echo]. *)
Example resumed_as_callee :
  let st := after (start ++ [msg "front" "alias"; CEvent (Deliver 0); CEvent (Deliver 0)]) in
  published_names (registry st) !! "front.alias" = Some "echo".
Proof. vm_compute. reflexivity. Qed.

(** The callback that ends a sleep runs outside of any dispatch, so that a second
    sleep schedules no timer: the coroutine is suspended and nothing will resume
    it. *)
Example second_sleep_hangs :
  let st := after (start ++ [msg "front" "nap"; CEvent (Deliver 0); CEvent (Tick 3); CEvent (Deliver 0)]) in
  EvTimer 1 ∈ log st /\ size (coroutines (system st)) = 1%nat /\ actor_timers (timers st) = ∅ /\
  drivers (system st) = ∅ /\ outbox (system st) = [].
Proof. vm_compute. repeat split. do 3 right. left. Qed.

(** [exit] leaves the calls of the service in [pending_calls]: a reply that
    arrives later resumes a coroutine of the VM that has been destroyed. *)
Example reply_after_exit :
  let st := after (start ++ [msg "front" "ask"; CEvent (Deliver 0); CExit "front" "bye"; CEvent (Deliver 0)]) in
  log st = [EvInit "echo"; EvInit "front"; EvDispatch "front" "ask"; EvExit "front" "bye";
            EvDispatch "echo" "ping"; EvResume 1 1 true (JArr [JInt 7])].
Proof. vm_compute. reflexivity. Qed.

(** ** Starting *)

(** A service that registers its own name in [on_init] cannot be published, and
    the name stays taken although no service runs. *)
Example own_name_in_init :
  let st := after [CSpawn "eager" "eager"] in
  published_names (registry st) !! "eager" = Some "eager" /\ services (registry st) = ∅ /\
  fst (spawn (run 4) "echo" "eager" st) = inl "service name already exists: eager".
Proof. vm_compute. repeat split. Qed.

(** When [on_init] fails after the time limit nothing is rolled back: the names
    it registered and the actor remain. *)
Example spawn_timeout_leaves_names :
  let st := after [CSpawn "slow" "slow"] in
  fst (spawn (run 4) "slow" "slow" (init_state ∅)) =
    inl "spawn timeout: on_init took 20000ms (limit 10000ms)" /\
  published_names (registry st) !! "slow.alias" = Some "slow" /\
  service_actors (registry st) !! "slow" = Some 1 /\ services (registry st) = ∅.
Proof. vm_compute. repeat split. Qed.

(** ** Errors *)

Definition fail_once : list command := [msg "echo" "boom"; CEvent (Deliver 0)].
Definition fail_times (n : nat) : list command := concat (repeat fail_once n).

(** The count of consecutive errors survives the exit: after a panic a service
    of the same name panics at its first error. *)
Example panic_count_survives :
  let st := after (start ++ fail_times 10) in
  let st' := after (start ++ fail_times 10 ++
                    [CEvent (Deliver 0); CSpawn "echo" "echo"; CEvent (Deliver 0)] ++ fail_once) in
  EvExit "echo" "panic" ∈ log st /\ services (registry st) !! "echo" = None /\
  base.filter (fun e => e = "echo") (omap (fun e => match e with EvExit id _ => Some id | _ => None end) (log st'))
    = ["echo"; "echo"].
Proof. vm_compute. repeat split. do 12 right. left. Qed.
