(* ===== verification/Gateway.v ===== *)
(** * Gateway: from a client's bytes to a service (src/lua/lua_gateway_bridge.cpp)

    [LuaGatewayBridge] admits the packets of a session's pipeline and sends them
    to the service the session is bound to.  The model joins [Pipeline], what a
    session does with its results (src/net/session.cpp), the bindings of the
    session (include/shield/net/session.hpp), the registry of session handles
    (src/lua/lua_api.cpp) and the service manager of [ServiceState]/[Services].
    A JSON exception that leaves a callback ends the network thread; it is the
    left of a sum. *)

From S2P Require Import Prelude Text Index Stream Wire Envelope Routes Json Codec Pipeline ServiceState Services ServiceDemo.

(** ** Bindings of a session *)

Record SessionData := mkSessionData {
  user_data_ : gmap string string;
  target_service_ : string;
  player_id_ : string;
  epoch_ : Z;
  remote_addr_ : string;
  pipeline_ : ProtocolPipeline
}.

Definition set_user_data (key v : string) (d : SessionData) : SessionData :=
  mkSessionData (<[key := v]> (user_data_ d)) (target_service_ d) (player_id_ d) (epoch_ d) (remote_addr_ d)
    (pipeline_ d).
Definition get_user_data (key : string) (d : SessionData) : string := default "" (user_data_ d !! key).
Definition set_target_service (name : string) (d : SessionData) : SessionData :=
  mkSessionData (user_data_ d) name (player_id_ d) (epoch_ d) (remote_addr_ d) (pipeline_ d).
Definition set_player_id (id : string) (d : SessionData) : SessionData :=
  mkSessionData (user_data_ d) (target_service_ d) id (epoch_ d) (remote_addr_ d) (pipeline_ d).
Definition set_epoch (e : Z) (d : SessionData) : SessionData :=
  mkSessionData (user_data_ d) (target_service_ d) (player_id_ d) (u32 e) (remote_addr_ d) (pipeline_ d).
Definition set_pipeline (p : ProtocolPipeline) (d : SessionData) : SessionData :=
  mkSessionData (user_data_ d) (target_service_ d) (player_id_ d) (epoch_ d) (remote_addr_ d) p.

(** A session as the listener makes it. *)
Definition new_session (remote : string) (p : ProtocolPipeline) : SessionData :=
  mkSessionData ∅ "" "" 0 remote p.

(** The live sessions, the registry of handles with weak pointers to them, the
    count of its lookups, and the service manager. *)
Record GatewayState := mkGateway {
  sessions : gmap Z SessionData;
  handles : gmap string Z;
  resolve_count : Z;
  manager : State
}.

Definition put_session (sid : Z) (d : SessionData) (g : GatewayState) : GatewayState :=
  mkGateway (<[sid := d]> (sessions g)) (handles g) (resolve_count g) (manager g).
Definition drop_session (sid : Z) (g : GatewayState) : GatewayState :=
  mkGateway (delete sid (sessions g)) (handles g) (resolve_count g) (manager g).
Definition set_handles (h : gmap string Z) (g : GatewayState) : GatewayState :=
  mkGateway (sessions g) h (resolve_count g) (manager g).
Definition set_manager (st : State) (g : GatewayState) : GatewayState :=
  mkGateway (sessions g) (handles g) (resolve_count g) st.

(** ** Session handles *)

Definition kSessionCleanupInterval : Z := 100.

Definition remember_session_handle (sid : Z) (g : GatewayState) : GatewayState :=
  set_handles (<[to_string_u64 sid := sid]> (handles g)) g.

(** A weak pointer has expired when its session is gone. *)
Definition cleanup_expired_session_handles (g : GatewayState) : GatewayState :=
  set_handles (base.filter (fun p => is_Some (sessions g !! p.2)) (handles g)) g.

Definition resolve_session_handle (id : string) (g : GatewayState) : option Z * GatewayState :=
  let count := u64 (resolve_count g + 1) in
  let g := mkGateway (sessions g) (handles g) count (manager g) in
  let g := if count `mod` kSessionCleanupInterval =? 0 then cleanup_expired_session_handles g else g in
  match handles g !! id with
  | None => (None, g)
  | Some sid =>
      if bool_decide (is_Some (sessions g !! sid)) then (Some sid, g)
      else (None, set_handles (delete id (handles g)) g)
  end.

Definition session_handle_json (sid : Z) (d : SessionData) : json :=
  JObj [("__shield_session_handle", JBool true); ("id", JStr (to_string_u64 sid));
        ("remote_addr", JStr (remote_addr_ d))].

Definition make_session_handle_json (sid : Z) (d : SessionData) (g : GatewayState) : json * GatewayState :=
  (session_handle_json sid d, remember_session_handle sid g).

(** ** The bridge *)

Section Bridge.
Context `{JsonLib, LuaWorld}.
Context (auth_service_name : string).

(** A failed [send_system] is logged. *)
Definition notify (target method : string) (args : json) (g : GatewayState) : exn + GatewayState :=
  let? r := send_system target method args (manager g) in inr (set_manager r.2 g).

Definition on_connect (sid : Z) (g : GatewayState) : exn + GatewayState :=
  match sessions g !! sid with
  | None => inr g
  | Some d =>
      let d := set_epoch 0 (set_target_service auth_service_name d) in
      let '(info, g) := make_session_handle_json sid d (put_session sid d g) in
      notify auth_service_name "on_connect" (JArr [info]) g
  end.

Record ClientIngress := mkIngress {
  gateway_service_name : string;
  session_id : Z;
  session_epoch : Z;
  in_player_id : string;
  in_route_id : Z;
  body_bytes : list byte
}.

Definition client_context (i : ClientIngress) : json :=
  JObj [("gateway_service", JStr (gateway_service_name i)); ("player_id", JStr (in_player_id i));
        ("session_epoch", JUInt (session_epoch i)); ("session_id", JUInt (session_id i))].

Definition ingress_args (i : ClientIngress) : json :=
  JArr [JUInt (in_route_id i); client_context i; JStr (string_of (body_bytes i))].

Definition send_client_ingress (target : string) (i : ClientIngress) (g : GatewayState)
  : exn + GatewayState :=
  notify target "on_client_message" (ingress_args i) g.

Definition make_ingress (sid : Z) (d : SessionData) (r : DispatchResult) : ClientIngress :=
  mkIngress auth_service_name sid (epoch_ d) (player_id_ d) (pk_route_id (dr_packet r))
    (match dr_decoded_body r with Some b => db_bytes b | None => pk_body (dr_packet r) end).

Definition on_packet (sid : Z) (r : DispatchResult) (g : GatewayState) : exn + GatewayState :=
  match sessions g !! sid with
  | None => inr g
  | Some d =>
      if negb (ok r) || should_drop r || should_forward_raw r then inr g
      else match dr_route r with
           | None => inr g
           | Some route =>
               if bool_decide (re_direction route = ServerToClient) then inr g
               else if re_requires_auth route && str_empty (player_id_ d) then inr g
               else if str_empty (target_service_ d) then inr g
               else send_client_ingress (target_service_ d) (make_ingress sid d r) g
           end
  end.

Definition on_disconnect (sid : Z) (reason : string) (g : GatewayState) : exn + GatewayState :=
  match sessions g !! sid with
  | None => inr g
  | Some d =>
      let '(info, g) := make_session_handle_json sid d g in
      let target := if str_empty (target_service_ d) then auth_service_name else target_service_ d in
      notify target "on_disconnect" (JArr [info; JStr reason]) g
  end.

(** ** A session's bytes (src/net/session.cpp)

    An error ends the session: the owner is told and the object released. *)

Definition end_session (sid : Z) (reason : string) (g : GatewayState) : exn + GatewayState :=
  let? g := on_disconnect sid reason g in inr (drop_session sid g).

Fixpoint deliver (sid : Z) (p : ProtocolPipeline) (results : list DispatchResult) (g : GatewayState)
  : exn + GatewayState :=
  match results with
  | [] => inr g
  | r :: results =>
      if negb (ok r) then end_session sid ("protocol dispatch error: " +:+ dr_error r) g
      else if should_drop r then deliver sid p results g
      else
        let '(good, r) := if bool_decide (dr_action r = DecodeLocal) then materialize_decode p r else (true, r) in
        if negb good then end_session sid ("protocol decode error: " +:+ dr_error r) g
        else let? g := on_packet sid r g in deliver sid p results g
  end.

Definition on_bytes (sid : Z) (chunk : list byte) (g : GatewayState) : exn + GatewayState :=
  match sessions g !! sid with
  | None => inr g
  | Some d =>
      let '(results, p) := Pipeline.feed (pipeline_ d) (Data chunk) in
      let g := put_session sid (set_pipeline p d) g in
      if negb (str_empty (pl_error p)) then end_session sid ("protocol decode error: " +:+ pl_error p) g
      else deliver sid p results g
  end.

End Bridge.

(** ** Runs

    Clients connect, send bytes and go; handles are looked up; and the rest of
    the program uses the manager.  Identifiers of sessions come from a counter
    that all listeners share, so that a new session has a new one. *)

Inductive gw_event :=
| GConnect (sid : Z) (remote : string)
| GBytes (sid : Z) (chunk : list byte)
| GDisconnect (sid : Z) (reason : string)
| GUserData (sid : Z) (key v : string)
| GResolve (id : string)
| GCommand (c : command).

Section Runs.
Context `{JsonLib, LuaWorld}.
Context (auth_service_name : string) (p0 : ProtocolPipeline) (depth : nat).

Definition gw_step (e : gw_event) (g : GatewayState) : exn + GatewayState :=
  match e with
  | GConnect sid remote =>
      match sessions g !! sid with
      | Some _ => inr g
      | None => on_connect auth_service_name sid (put_session sid (new_session remote p0) g)
      end
  | GBytes sid chunk => on_bytes auth_service_name sid chunk g
  | GDisconnect sid reason => end_session auth_service_name sid reason g
  | GUserData sid key v =>
      inr (match sessions g !! sid with Some d => put_session sid (set_user_data key v d) g | None => g end)
  | GResolve id => inr (resolve_session_handle id g).2
  | GCommand c => inr (set_manager (perform depth c (manager g)) g)
  end.

Inductive gw_reachable (modules : gmap string string) : GatewayState -> Prop :=
| gw_init : gw_reachable modules (mkGateway ∅ ∅ 0 (init_state modules))
| gw_next e g g' : gw_reachable modules g -> gw_step e g = inr g' -> gw_reachable modules g'.

(** ** What is known of the sessions *)

Definition bound (d : SessionData) : Prop :=
  player_id_ d = "" /\ target_service_ d = auth_service_name /\ pl_routes (pipeline_ d) = pl_routes p0.
Definition all_bound (m : gmap Z SessionData) : Prop := forall sid d, m !! sid = Some d -> bound d.

Lemma all_bound_insert m sid d : all_bound m -> bound d -> all_bound (<[sid := d]> m).
Proof. intros Hm Hd sid' d' [[_ <-]|[_ Hd']]%lookup_insert_Some; [done|by eapply Hm]. Qed.

Lemma all_bound_delete m sid : all_bound m -> all_bound (delete sid m).
Proof. intros Hm sid' d' [_ Hd']%lookup_delete_Some. by eapply Hm. Qed.

(** ** What a client's bytes cause *)

(** A message of a client on a route that is open to it. *)
Definition admitted (sid : Z) (m : mail) : Prop :=
  exists e i t, m = MService (mkMessage "" "on_client_message" (ingress_args i) "" 0 High t 0) /\
    session_id i = sid /\ in_player_id i = "" /\
    RouteTable.find (pl_routes p0) (in_route_id i) = Some e /\
    re_direction e <> ServerToClient /\ re_requires_auth e = false.

(** The notice that the session has ended. *)
Definition farewell (m : mail) : Prop :=
  exists args t, m = MService (mkMessage "" "on_disconnect" args "" 0 High t 0).

(** From [g] to [g'] the manager received such messages only, addressed to the
    service that the gateway is bound to. *)
Definition receives (sid : Z) (g g' : GatewayState) : Prop :=
  registry (manager g') = registry (manager g) /\
  exists msgs, outbox (system (manager g')) = outbox (system (manager g)) ++ msgs /\
    Forall (fun x => find_actor auth_service_name (manager g) = Some x.1 /\
                     (admitted sid x.2 \/ farewell x.2)) msgs.

Lemma receives_refl sid g : receives sid g g.
Proof. split; [done|]. exists []. by rewrite app_nil_r. Qed.

Lemma receives_trans sid g1 g2 g3 : receives sid g1 g2 -> receives sid g2 g3 -> receives sid g1 g3.
Proof.
  intros (R1 & m1 & E1 & F1) (R2 & m2 & E2 & F2). split; [congruence|]. exists (m1 ++ m2).
  rewrite E2, E1, app_assoc. split; [done|]. apply Forall_app. split; [done|].
  eapply Forall_impl; [|exact F2]. unfold find_actor, query_service. rewrite R1. done.
Qed.

Lemma receives_same sid g g' : manager g' = manager g -> receives sid g g'.
Proof. intros E. unfold receives. rewrite E. apply receives_refl. Qed.

Lemma notify_receives sid method args g g' :
  (forall t, admitted sid (MService (mkMessage "" method args "" 0 High t 0)) \/
             farewell (MService (mkMessage "" method args "" 0 High t 0))) ->
  notify auth_service_name method args g = inr g' -> sessions g' = sessions g /\ receives sid g g'.
Proof.
  intros Hm. unfold notify. intros ([o st] & E & [= <-])%ebind_inr. split; [done|].
  unfold send_system in E. case_in E; [simplify_eq; by apply receives_same|].
  case_in E; [simplify_eq; by apply receives_same|].
  apply ebind_inr in E as (checked & _ & E). case_in E; [simplify_eq; by apply receives_same|].
  case_in E; [|simplify_eq; by apply receives_same]. simplify_eq. split; [done|]. eexists. split; [done|].
  apply Forall_singleton. split; [done|apply Hm].
Qed.

Lemma on_disconnect_receives sid reason g g' :
  all_bound (sessions g) -> on_disconnect auth_service_name sid reason g = inr g' ->
  sessions g' = sessions g /\ receives sid g g'.
Proof.
  intros Hb. unfold on_disconnect. destruct (sessions g !! sid) as [d|] eqn:Ed.
  2: { intros [= <-]. split; [done|apply receives_refl]. }
  destruct (Hb _ _ Ed) as (_ & Ht & _). cbn [make_session_handle_json]. rewrite Ht.
  replace (if str_empty auth_service_name then auth_service_name else auth_service_name)
    with auth_service_name by (by destruct (str_empty _)).
  intros E. destruct (notify_receives sid _ _ _ _ ltac:(right; unfold farewell; eauto) E) as [Es Hr].
  split; [exact Es|]. eapply receives_trans; [|exact Hr]. by apply receives_same.
Qed.

Lemma end_session_receives sid reason g g' :
  all_bound (sessions g) -> end_session auth_service_name sid reason g = inr g' ->
  all_bound (sessions g') /\ receives sid g g'.
Proof.
  intros Hb. unfold end_session. intros (g1 & E & [= <-])%ebind_inr.
  destruct (on_disconnect_receives _ _ _ _ Hb E) as [Es Hr]. split.
  - cbn. apply all_bound_delete. by rewrite Es.
  - eapply receives_trans; [exact Hr|]. by apply receives_same.
Qed.

(** A result whose route is the one the table has for its number. *)
Definition from_table (r : DispatchResult) : Prop :=
  forall e, dr_route r = Some e -> RouteTable.find (pl_routes p0) (pk_route_id (dr_packet r)) = Some e.

Lemma dispatch_from_table p packet :
  table_sound (pl_routes p0) -> pl_routes p = pl_routes p0 -> from_table (dispatch p packet).
Proof.
  intros Ht Hp e. unfold dispatch. rewrite <- Hp in *.
  destruct (resolve_route p packet) as [[packet' err] route] eqn:Er. destruct route as [r|].
  - destruct (resolve_route_sound _ _ _ _ _ Ht Er) as (-> & Hf & _). cbn [str_empty negb].
    repeat case_head; cbn; intros He; by simplify_eq.
  - case_head; done.
Qed.

Lemma materialize_from_table p r good r' :
  materialize_decode p r = (good, r') -> from_table r -> from_table r'.
Proof.
  unfold materialize_decode. intros E Hr. repeat case_in E; simplify_eq; try done; intros e He; cbn in *; by apply Hr.
Qed.

Lemma feed_from_table p d results p' :
  table_sound (pl_routes p0) -> pl_routes p = pl_routes p0 -> Pipeline.feed p d = (results, p') ->
  pl_routes p' = pl_routes p0 /\ Forall from_table results.
Proof.
  intros Ht Hp. unfold Pipeline.feed. destruct (envelope_ p) as [o|]; [|intros [= <- <-]; split; [done|]; by repeat constructor].
  destruct (env_feed o d) as [packets o']. case_head; intros [= <- <-]; (split; [done|]).
  - by repeat constructor.
  - apply List.Forall_map, List.Forall_forall. intros packet _. by apply dispatch_from_table.
Qed.

Lemma on_packet_receives sid r g g' :
  all_bound (sessions g) -> from_table r -> on_packet auth_service_name sid r g = inr g' ->
  sessions g' = sessions g /\ receives sid g g'.
Proof.
  intros Hb Hr. unfold on_packet. assert (Hsame : sessions g = sessions g /\ receives sid g g)
    by (split; [done|apply receives_refl]).
  destruct (sessions g !! sid) as [d|] eqn:Ed; [|by intros [= <-]].
  destruct (Hb _ _ Ed) as (Hp & Ht & _). rewrite Hp, Ht.
  case_head; [by intros [= <-]|]. destruct (dr_route r) as [e|] eqn:Er; [|by intros [= <-]].
  case_bool_decide as Hd; [by intros [= <-]|]. destruct (re_requires_auth e) eqn:Ea; cbn [andb str_empty]; [by intros [= <-]|].
  case_head; [by intros [= <-]|]. apply notify_receives. intros t. left.
  exists e, (make_ingress auth_service_name sid d r), t. cbn. repeat split; try done. by apply Hr.
Qed.

Lemma deliver_receives sid p results g g' :
  all_bound (sessions g) -> Forall from_table results -> deliver auth_service_name sid p results g = inr g' ->
  all_bound (sessions g') /\ receives sid g g'.
Proof.
  revert g. induction results as [|r results IH]; intros g Hb Hr; cbn [deliver].
  - intros [= <-]. split; [done|apply receives_refl].
  - apply Forall_cons_iff in Hr as [Hr Hrs]. destruct (negb (ok r)); [by apply end_session_receives|].
    destruct (should_drop r); [by apply IH|].
    destruct (if bool_decide _ then _ else _) as [good r'] eqn:Em.
    assert (Hr' : from_table r') by (case_bool_decide; [by eapply materialize_from_table|by simplify_eq]).
    destruct (negb good); [by apply end_session_receives|]. intros (g1 & E1 & E)%ebind_inr.
    destruct (on_packet_receives _ _ _ _ Hb Hr' E1) as [Es R1].
    destruct (IH g1 ltac:(by rewrite Es) Hrs E) as [Hb' R2]. split; [done|]. by eapply receives_trans.
Qed.

Lemma on_bytes_receives sid chunk g g' :
  table_sound (pl_routes p0) -> all_bound (sessions g) -> on_bytes auth_service_name sid chunk g = inr g' ->
  all_bound (sessions g') /\ receives sid g g'.
Proof.
  intros Ht Hb. unfold on_bytes. destruct (sessions g !! sid) as [d|] eqn:Ed.
  2: { intros [= <-]. split; [done|apply receives_refl]. }
  destruct (Hb _ _ Ed) as (Hp & Hta & Hrt). destruct (Pipeline.feed _ _) as [results p] eqn:Ef.
  destruct (feed_from_table _ _ _ _ Ht Hrt Ef) as [Hrt' Hrs].
  set (g1 := put_session _ _ g). assert (Hb1 : all_bound (sessions g1)).
  { apply all_bound_insert; [done|]. by repeat split. }
  assert (Hr1 : receives sid g g1) by by apply receives_same.
  intros E. assert (Hx : all_bound (sessions g') /\ receives sid g1 g').
  { revert E. destruct (negb (str_empty (pl_error p))); intros E; [by eapply end_session_receives|by eapply deliver_receives]. }
  destruct Hx as [Hb' Hx]. split; [done|]. exact (receives_trans _ _ _ _ Hr1 Hx).
Qed.

Lemma notify_sessions target method args g g' : notify target method args g = inr g' -> sessions g' = sessions g.
Proof. unfold notify. by intros (r & _ & [= <-])%ebind_inr. Qed.

Lemma gw_reachable_bound modules g :
  table_sound (pl_routes p0) -> gw_reachable modules g -> all_bound (sessions g).
Proof.
  intros Ht. induction 1 as [|e g g' _ IH E]; [intros sid d; cbn; by intros ?%lookup_empty_Some|].
  destruct e as [sid remote|sid chunk|sid reason|sid key v|id|c]; cbn [gw_step] in E.
  - destruct (sessions g !! sid); [by simplify_eq|]. unfold on_connect in E. cbn [sessions put_session] in E.
    rewrite lookup_insert_eq in E. cbn [make_session_handle_json] in E. apply notify_sessions in E as ->.
    cbn. rewrite insert_insert_eq. apply all_bound_insert; [done|]. by repeat split.
  - by eapply on_bytes_receives.
  - by eapply end_session_receives.
  - destruct (sessions g !! sid) as [d|] eqn:Ed; simplify_eq; [|done]. apply all_bound_insert; [done|]. exact (IH _ _ Ed).
  - simplify_eq. unfold resolve_session_handle. repeat case_head; done.
  - by simplify_eq.
Qed.

(** ** Properties *)

(** C17: whatever a client sends, and whatever happened before, a service
    receives from it only messages on routes of the table that are open to
    clients and need no authentication, addressed to the service that the
    gateway is bound to, and the notice of its end.  Routes that need an
    authenticated player are closed to every client: nothing in the program
    gives a session its player. *)
Theorem client_messages_admitted modules g sid chunk g' :
  table_sound (pl_routes p0) -> gw_reachable modules g -> gw_step (GBytes sid chunk) g = inr g' ->
  receives sid g g'.
Proof.
  intros Ht Hg E. apply (on_bytes_receives sid chunk g g' Ht); [|done]. by eapply gw_reachable_bound.
Qed.

End Runs.

(** ** A gateway with a route for everybody and one for players *)

Definition open_route : RouteEntry := mkRoute 1 ClientToServer false 1 0 Message "login" default_policy.
Definition player_route : RouteEntry := mkRoute 2 ClientToServer true 1 0 Message "move" default_policy.

Definition gate_routes : RouteTable := (RouteTable.add (RouteTable.upsert table_empty open_route) player_route).2.

Lemma gate_routes_sound : table_sound gate_routes.
Proof.
  apply reachable_ok. apply (Routes.reach_add _ player_route), Routes.reach_upsert; [apply Routes.reach_empty|].
  intros id H. vm_compute in H. discriminate.
Qed.

Definition gate_pipeline : ProtocolPipeline :=
  pipeline_make (mkProfile "gate" IdLen default_config 1 SourceHeader Drop false false) gate_routes
    (BodyCodecRegistry.add registry_empty 1 (Some RawBodyCodec)).2.

Definition client_frame (route : Z) (body : string) : list byte :=
  (Pipeline.encode gate_pipeline (mkPacket route 0 0 0 (bytes_of body) [])).1.

(** A run of events; exceptions end it. *)
Fixpoint gw_run (evs : list gw_event) (g : GatewayState) : exn + GatewayState :=
  match evs with
  | [] => inr g
  | e :: evs => let? g := gw_step "echo" gate_pipeline 4 e g in gw_run evs g
  end.

Lemma gw_run_reachable evs g g' :
  gw_reachable "echo" gate_pipeline 4 ∅ g -> gw_run evs g = inr g' -> gw_reachable "echo" gate_pipeline 4 ∅ g'.
Proof.
  revert g. induction evs as [|e evs IH]; intros g Hg; cbn [gw_run]; [by intros [= <-]|].
  intros (g1 & E1 & E)%ebind_inr. apply (IH g1); [by eapply gw_next|done].
Qed.

Definition gate_start : GatewayState := mkGateway ∅ ∅ 0 (init_state ∅).
Definition gate_open : list gw_event := [GCommand (CSpawn "echo" "echo"); GConnect 1 "10.0.0.9:4000"].
Definition mixed_bytes : list byte := client_frame 1 "hi" ++ client_frame 2 "go".

(** Both frames arrive; the one for players is not passed on. *)
Lemma client_messages_admitted_witness :
  match gw_run gate_open gate_start with
  | inr g => match gw_step "echo" gate_pipeline 4 (GBytes 1 mixed_bytes) g with
             | inr g' => receives "echo" gate_pipeline 1 g g' /\
                         vsize (outbox (system (manager g'))) = vsize (outbox (system (manager g))) + 1
             | inl _ => False
             end
  | inl _ => False
  end.
Proof.
  destruct (gw_run gate_open gate_start) as [e|g] eqn:Eg; [vm_compute in Eg; discriminate Eg|].
  pose proof (gw_run_reachable _ _ _ (gw_init _ _ _ _) Eg) as Hr.
  destruct (gw_step "echo" gate_pipeline 4 (GBytes 1 mixed_bytes) g) as [e|g'] eqn:E.
  - assert (X : (let? g := gw_run gate_open gate_start in gw_step "echo" gate_pipeline 4 (GBytes 1 mixed_bytes) g) = inl e)
      by (rewrite Eg; exact E). vm_compute in X. discriminate X.
  - split; [exact (client_messages_admitted "echo" gate_pipeline 4 ∅ g 1 mixed_bytes g' gate_routes_sound Hr E)|].
    assert (X : match gw_run gate_open gate_start with
                | inr g => match gw_step "echo" gate_pipeline 4 (GBytes 1 mixed_bytes) g with
                           | inr g' => vsize (outbox (system (manager g'))) =? vsize (outbox (system (manager g))) + 1
                           | inl _ => false end
                | inl _ => false end = true) by (vm_compute; reflexivity).
    rewrite Eg, E in X. by apply Z.eqb_eq.
Defined.

(** A body that is not UTF-8 cannot be printed: the exception of [dump] leaves
    the callback on the network thread. *)
Example binary_body_escapes :
  let strict : JsonLib := {| json_parse := fun _ => inr JNull;
                             json_dump := fun j => match j with
                               | JArr [JUInt _; _; _] => inl (JsonExn "invalid UTF-8 byte")
                               | _ => inr "[]" end;
                             json_error := fun _ _ _ => "type error" |} in
  (let? g := @gw_step strict demo_world "echo" gate_pipeline 4 (GConnect 1 "10.0.0.9:4000") gate_start in
   @gw_step strict demo_world "echo" gate_pipeline 4 (GBytes 1 (client_frame 1 "hi")) g) =
  inl (JsonExn "invalid UTF-8 byte").
Proof. vm_compute. reflexivity. Qed.
