(* ===== verification/Bootstrap.v ===== *)
(** * Bootstrap: the server put together (src/bootstrap/bootstrap.cpp, src/bootstrap/starter.cpp)

    [initialize] and [shutdown] over the components they compose: configuration,
    plugins, cluster, services, gateways and network threads.  A stage of
    [initialize] returns true to go on and false where the code cleans up and
    returns false; an exception leaves the process as it is. *)

From Stdlib Require Import Sorting.Sorted.
From S2P Require Import Prelude Text Json Codec Manifest Schema Build Config RuntimeConfig ScriptCache Cluster Listener PluginHost Lifecycle ServiceState Services ServiceSteps Registry ServiceExit.

(** ** Starters *)

Inductive Phase := PRE_INIT | POST_SYSTEM_INIT | POST_CONFIG | POST_START | PRE_SHUTDOWN | POST_SHUTDOWN.

Record Starter := mkStarter { starter_name : string; starter_order : Z; should_run : Phase -> bool }.

Definition phase_calls : Type := list (string * Phase).

(** [Starter::execute]; the answer may depend on all calls before. *)
Class Starters := { execute : phase_calls -> string -> Phase -> outcome bool }.

(** [register_starter]: [std::sort] leaves the order of equal keys open. *)
Definition register_starter (s : Starter) (l l' : list Starter) : Prop :=
  Permutation l' (l ++ [s]) /\ Sorted (fun a b => starter_order a <= starter_order b) l'.

Fixpoint run_starters `{Starters} (phase : Phase) (l : list Starter) (t : phase_calls)
  : phase_calls * outcome bool :=
  match l with
  | [] => (t, Ret true)
  | s :: l =>
      if negb (should_run s phase) then run_starters phase l t
      else match execute t (starter_name s) phase with
           | Ret true => run_starters phase l (t ++ [(starter_name s, phase)])
           | r => (t ++ [(starter_name s, phase)], r)
           end
  end.

(** ** State *)

Inductive Level := Debug | Info | Warning | Error.

Definition parse_log_level (v : string) : Level :=
  if String.eqb v "debug" then Debug else if String.eqb v "warn" then Warning
  else if String.eqb v "error" then Error else Info.

(** [bootstrap::RuntimeConfig], the members that are read. *)
Record BootConfig := mkBoot {
  boot_log_level : string;
  config_file : string;
  config_files : list string;
  boot_node_id : string
}.

(** A gateway: its bridge, its listener with the limits, and what its sessions'
    pipelines are built from. *)
Record Gate := mkGate {
  gate_target : string;
  gate_port : Z;
  gate_limits : Limits;
  gate_frame_size : Z;
  gate_send_queue : Z;
  gate_idle_ms : Z;
  gate_protocol : option (string * ProtocolBuildOptions);
  gate_listener : Listener.State
}.

(** [GlobalState]; [spawned] are the services logged as spawned. *)
Record GlobalState := mkGlobal {
  caf : bool;
  lua_cache : option LuaCacheConfig;
  lua_services : option ServiceState.State;
  spawned : list string;
  gates : list Gate;
  net_threads : Z;
  console_socket : option string;
  cluster_manager : option ClusterManager;
  initialized : bool
}.

Definition global_make : GlobalState := mkGlobal false None None [] [] 0 None None false.

(** What lives as long as the process, and what has ended: the managers and
    gateways that were destroyed, as they were in the end. *)
Record Process := mkProcess {
  g_state : option GlobalState;
  global_config : Config;
  global_host : Host;
  starter_calls : phase_calls;
  logger : option Level;
  global_cluster : bool;
  ended_managers : list ServiceState.State;
  ended_gates : list Gate
}.

Definition process_make : Process := mkProcess None config_make host_make [] None false [] [].

Definition set_g_state (g : option GlobalState) (p : Process) : Process :=
  mkProcess g (global_config p) (global_host p) (starter_calls p) (logger p) (global_cluster p)
    (ended_managers p) (ended_gates p).
Definition set_global_config (c : Config) (p : Process) : Process :=
  mkProcess (g_state p) c (global_host p) (starter_calls p) (logger p) (global_cluster p)
    (ended_managers p) (ended_gates p).
Definition set_global_host (h : Host) (p : Process) : Process :=
  mkProcess (g_state p) (global_config p) h (starter_calls p) (logger p) (global_cluster p)
    (ended_managers p) (ended_gates p).
Definition set_starter_calls (t : phase_calls) (p : Process) : Process :=
  mkProcess (g_state p) (global_config p) (global_host p) t (logger p) (global_cluster p)
    (ended_managers p) (ended_gates p).
Definition set_logger (l : option Level) (p : Process) : Process :=
  mkProcess (g_state p) (global_config p) (global_host p) (starter_calls p) l (global_cluster p)
    (ended_managers p) (ended_gates p).
Definition set_global_cluster (b : bool) (p : Process) : Process :=
  mkProcess (g_state p) (global_config p) (global_host p) (starter_calls p) (logger p) b
    (ended_managers p) (ended_gates p).
Definition add_ended (ms : list ServiceState.State) (gs : list Gate) (p : Process) : Process :=
  mkProcess (g_state p) (global_config p) (global_host p) (starter_calls p) (logger p) (global_cluster p)
    (ended_managers p ++ ms) (ended_gates p ++ gs).

Definition set_listener (l : Listener.State) (g : Gate) : Gate :=
  mkGate (gate_target g) (gate_port g) (gate_limits g) (gate_frame_size g) (gate_send_queue g)
    (gate_idle_ms g) (gate_protocol g) l.

Definition set_caf (g : GlobalState) : GlobalState :=
  mkGlobal true (lua_cache g) (lua_services g) (spawned g) (gates g) (net_threads g) (console_socket g)
    (cluster_manager g) (initialized g).
Definition set_lua (c : LuaCacheConfig) (st : ServiceState.State) (g : GlobalState) : GlobalState :=
  mkGlobal (caf g) (Some c) (Some st) (spawned g) (gates g) (net_threads g) (console_socket g)
    (cluster_manager g) (initialized g).
Definition set_services (st : ServiceState.State) (ids : list string) (g : GlobalState) : GlobalState :=
  mkGlobal (caf g) (lua_cache g) (Some st) (spawned g ++ ids) (gates g) (net_threads g) (console_socket g)
    (cluster_manager g) (initialized g).
Definition set_gates (l : list Gate) (g : GlobalState) : GlobalState :=
  mkGlobal (caf g) (lua_cache g) (lua_services g) (spawned g) l (net_threads g) (console_socket g)
    (cluster_manager g) (initialized g).
Definition set_net_threads (n : Z) (g : GlobalState) : GlobalState :=
  mkGlobal (caf g) (lua_cache g) (lua_services g) (spawned g) (gates g) n (console_socket g)
    (cluster_manager g) (initialized g).
Definition set_console (s : string) (g : GlobalState) : GlobalState :=
  mkGlobal (caf g) (lua_cache g) (lua_services g) (spawned g) (gates g) (net_threads g) (Some s)
    (cluster_manager g) (initialized g).
Definition set_cluster_manager (c : ClusterManager) (g : GlobalState) : GlobalState :=
  mkGlobal (caf g) (lua_cache g) (lua_services g) (spawned g) (gates g) (net_threads g) (console_socket g)
    (Some c) (initialized g).
Definition set_initialized (g : GlobalState) : GlobalState :=
  mkGlobal (caf g) (lua_cache g) (lua_services g) (spawned g) (gates g) (net_threads g) (console_socket g)
    (cluster_manager g) true.

Definition on_state (f : GlobalState -> GlobalState) (p : Process) : Process :=
  set_g_state (f <$> g_state p) p.

(** ** Stages *)

Definition boot : Type := Process -> Process * outcome bool.

Definition go_on (p : Process) : Process * outcome bool := (p, Ret true).
Definition give_up_with (p : Process) : Process * outcome bool := (p, Ret false).

(** A computation that may throw, before the rest of a stage. *)
Definition guard {A} (m : outcome A) (k : A -> boot) : boot := fun p =>
  match m with Ret a => k a p | Throw e => (p, Throw e) | Undef => (p, Undef) end.

(** The stages one after the other, until one does not return true. *)
Fixpoint run_boot (l : list boot) : boot := fun p =>
  match l with
  | [] => go_on p
  | f :: l => match f p with (p, Ret true) => run_boot l p | r => r end
  end.

(** The build and the machine the server runs on: the platform, the starters
    that were registered, whether the cluster is compiled in; the text of a file
    and whether it exists; whether a port can be bound when the given ones are;
    the codec behind the interface pointer of a plugin; the epoch of a cluster
    manager and its clock readings; and how deeply scripts may nest. *)
Class Machine := {
  platform : Platform;
  starters : list Starter;
  cluster_enabled : bool;
  read_file : string -> option string;
  exists_ : string -> bool;
  port_free : list Z -> Z -> bool;
  codec_table : Z -> CodecVtable;
  new_epoch : Z;
  clock_ : string -> Z;
  depth : nat
}.

Section Boot.
Context `{JsonLib} `{YamlLib} `{Plugins} `{FileSystem} `{LuaWorld} `{Starters} `{Machine}.

Definition starters_stage (phase : Phase) : boot := fun p =>
  let '(t, r) := run_starters phase starters (starter_calls p) in
  let p := set_starter_calls t p in
  match r with Ret _ => go_on p | Throw e => (p, Throw e) | Undef => (p, Undef) end.

(** *** Configuration *)

Definition files_of (c : BootConfig) : list string :=
  match config_files c with
  | [] => if str_empty (config_file c) then [] else [config_file c]
  | l => l
  end.

Fixpoint load_files (l : list string) : boot := fun p =>
  match l with
  | [] => go_on p
  | f :: l =>
      if str_empty f then load_files l p
      else let '(c, ok) := load_yaml read_file f (global_config p) in
           if ok : bool then load_files l (set_global_config c p) else give_up_with (set_global_config c p)
  end.

Definition config_stage (c : BootConfig) : boot := fun p =>
  load_files (files_of c) (set_global_config config_make p).

Definition node_id_stage (c : BootConfig) : boot := fun p =>
  let p := if str_empty (boot_node_id c) then p
           else set_global_config (Config.set "cluster.node_id" (SString (boot_node_id c)) (global_config p)) p in
  go_on (set_logger (Some (parse_log_level (Config.get_string (global_config p) "log.level" (boot_log_level c)))) p).

Definition validation_options : RuntimeValidationOptions :=
  RuntimeConfig.mkOptions cluster_enabled false false false false true.

Definition validate_stage : boot := fun p =>
  guard (validate_runtime_config (fun f => Ret (exists_ f)) (global_config p) validation_options)
    (fun error => match error with None => go_on | Some _ => give_up_with end) p.

(** *** Plugins and cluster *)

Definition plugin_stage : boot := fun p =>
  guard (parse_plugin_config (global_config p))
    (fun cfg p =>
       let '(h, r) := startup platform cfg (global_host p) in
       guard r (fun error => match error with None => go_on | Some _ => give_up_with end) (set_global_host h p)) p.

Definition cluster_stage : boot := fun p =>
  if negb cluster_enabled then go_on p
  else guard (parse_cluster_config (global_config p))
         (fun c p =>
            if negb (cl_enabled c) then go_on p
            else if str_empty (cl_node_id c) then give_up_with p
            else go_on (set_global_cluster true
                          (on_state (set_cluster_manager (cluster_start clock_ (cluster_make c new_epoch clock_))) p))) p.

(** *** Services *)

Definition caf_stage : boot := fun p => go_on (on_state set_caf p).

(** The part of a declaration that the manager reads. *)
Definition actor_config (a : RuntimeConfig.RuntimeActorConfig) : ServiceState.RuntimeActorConfig :=
  mkActorConfig (ra_name a) (ra_script a) (ra_source_dir a).

Definition script_dir (p : Process) : string := Config.get_string (global_config p) "lua.script_path" "scripts".

Definition lua_stage : boot := fun p =>
  guard (read_cache_config (global_config p))
    (fun cache => guard (runtime_actors (global_config p))
       (fun actors p => go_on (on_state (set_lua cache (new_manager exists_ (script_dir p) (map actor_config actors))) p))) p.

(** One name per instance, numbered when there are several. *)
Definition instance_names (a : RuntimeConfig.RuntimeActorConfig) : list string :=
  let n := if ra_instances a <? 0 then 0 else ra_instances a in
  map (fun i => if 1 <? n then ra_name a +:+ "." +:+ to_string_i64 (i + 1) else ra_name a) (seqZ 0 n).

Definition actor_options (a : RuntimeConfig.RuntimeActorConfig) (service_name : string) : json :=
  let config := match json_parse (bytes_of (options_json a)) with inr j => j | inl _ => JObj [] end in
  JObj [("args", JObj []); ("config", config); ("name", JStr service_name)].

Definition resolve_script_path_with_lua_path (a : RuntimeConfig.RuntimeActorConfig) (p : Process) : string :=
  resolve_script_path exists_ (script_dir p) (actor_config a).

Definition spawn_instance (a : RuntimeConfig.RuntimeActorConfig) (service_name : string) : boot := fun p =>
  match g_state p ≫= lua_services with
  | None => go_on p
  | Some st =>
      guard (of_sum (json_dump (actor_options a service_name)))
        (fun opts p =>
           let '(result, st) := spawn (run depth) (resolve_script_path_with_lua_path a p) opts st in
           match result with
           | inr id => go_on (on_state (set_services st [id]) p)
           | inl _ => (if ra_required a then give_up_with else go_on) (on_state (set_services st []) p)
           end) p
  end.

(** Every actor with each of its instances. *)
Definition declared (actors : list RuntimeConfig.RuntimeActorConfig) : list (RuntimeConfig.RuntimeActorConfig * string) :=
  flat_map (fun a => map (pair a) (instance_names a)) actors.

Definition spawn_stage : boot := fun p =>
  guard (runtime_actors (global_config p))
    (fun actors => run_boot (map (fun x => spawn_instance x.1 x.2) (declared actors))) p.

(** *** Gateways *)

(** [make_protocol_codec_resolver]: the answer of the host as it is now.  The
    call of the plugin is not recorded. *)
Definition codec_resolver (h : Host) (provider codec : string) : option CodecVtable * string :=
  let what := "protocol codec provider '" +:+ provider +:+ "' " in
  match (get_binding_vtable provider "shield.protocol.codec.v1" h).2 with
  | None => (None, what +:+ "is not configured or does not provide shield.protocol.codec.v1")
  | Some ptr =>
      let v := codec_table ptr in
      if negb (bool_decide (cv_codec_name v = Some codec)) then
        (None, what +:+ "does not serve codec '" +:+ codec +:+ "'")
      else match cv_decode v, cv_encode v with
           | Some _, Some _ => (Some v, "")
           | _, _ => (None, what +:+ "has incomplete vtable")
           end
  end.

Definition protocol_build_options (h : Host) (a : RuntimeConfig.RuntimeActorConfig) : ProtocolBuildOptions :=
  mkBuildOptions (ra_source_dir a) (RuntimeConfig.max_frame_size a) (Some (codec_resolver h)).

(** The probe of the protocol configuration. *)
Definition probe (h : Host) (a : RuntimeConfig.RuntimeActorConfig) : outcome bool :=
  if network_protocol_enabled a then
    let! r := build_protocol_pipeline_from_json read_file (network_protocol_json a) (protocol_build_options h a) in
    Ret (match r with inr _ => true | inl _ => false end)
  else Ret true.

Definition new_gate (h : Host) (a : RuntimeConfig.RuntimeActorConfig) (port : Z) : Gate :=
  mkGate (ra_name a) port (mkLimits (max_connections a) (max_connections_per_ip a))
    (RuntimeConfig.max_frame_size a) (max_session_send_queue a) (read_idle_timeout_ms a)
    (if network_protocol_enabled a
     then Some (network_protocol_json a, protocol_build_options h a) else None)
    (Listener.start listener_make).

Definition open_gate (a : RuntimeConfig.RuntimeActorConfig) : boot := fun p =>
  if str_empty (network_tcp a) || (ra_instances a =? 0) then go_on p
  else match parse_endpoint (network_tcp a) with
       | None => give_up_with p
       | Some ep =>
           guard (probe (global_host p) a)
             (fun ok p =>
                if negb ok then give_up_with p
                else match g_state p with
                     | None => go_on p
                     | Some g =>
                         if negb (port_free (map gate_port (gates g)) (ep_port ep)) then give_up_with p
                         else go_on (set_g_state
                                (Some (set_gates (gates g ++ [new_gate (global_host p) a (ep_port ep)]) g)) p)
                     end) p
       end.

Definition gates_stage : boot := fun p =>
  guard (runtime_actors (global_config p)) (fun actors => run_boot (map open_gate actors)) p.

(** The network threads, at least one when there is a gateway. *)
Definition threads_stage : boot := fun p =>
  match g_state p with
  | Some g =>
      match gates g with
      | [] => go_on p
      | _ => guard (runtime_net_threads (global_config p))
               (fun n p => go_on (on_state (set_net_threads (if 0 <? n then n else 1)) p)) p
      end
  | None => go_on p
  end.

(** A console that cannot be opened is logged; the server object stays. *)
Definition console_stage : boot := fun p =>
  let path := Config.get_string (global_config p) "console.socket_path" "/tmp/shield-console.sock" in
  go_on (if String.eqb (Config.get_string (global_config p) "console.enabled" "false") "true"
         then on_state (set_console path) p else p).

(** *** Cleaning up *)

(** Joining the network threads: a handler that is running comes to its end. *)
Definition finish_handler (c : Limits) (s : Listener.State) : Listener.State :=
  Nat.iter 4 (fun s => default s (step c LContinue s)) s.

Definition stop_gate (g : Gate) : Gate :=
  set_listener (finish_handler (gate_limits g) (Listener.stop (gate_listener g))) g.

(** [shutdown_all] and the destructor. *)
Definition end_manager (reason : string) (st : ServiceState.State) : ServiceState.State :=
  destroy (shutdown_all (run depth) reason st).

Definition end_state (reason : string) (g : GlobalState) (p : Process) : Process :=
  add_ended (option_list (end_manager reason <$> lua_services g)) (map stop_gate (gates g)) p.

(** The end of the state, of the logger and of the pointer to the cluster
    manager, which is stopped and destroyed. *)
Definition forget (p : Process) : Process := set_g_state None (set_logger None p).

Definition cleanup_failed_initialize (p : Process) : Process :=
  match g_state p with
  | None => forget p
  | Some g =>
      let p := end_state "startup_failed" g p in
      forget (set_global_cluster false (set_global_host (PluginHost.shutdown (global_host p)) p))
  end.

(** *** The whole *)

Definition stages (c : BootConfig) : list boot :=
  [starters_stage PRE_INIT; config_stage c; node_id_stage c; validate_stage; starters_stage POST_CONFIG;
   plugin_stage; cluster_stage; caf_stage; starters_stage POST_SYSTEM_INIT; lua_stage; spawn_stage;
   gates_stage; threads_stage; starters_stage POST_START; console_stage].

Definition is_initialized (p : Process) : bool :=
  match g_state p with Some g => initialized g | None => false end.

(** A state that an exception left behind is replaced: destroying joinable
    threads ends the process. *)
Definition fresh_state (p : Process) : outcome Process :=
  match g_state p with
  | None => Ret (set_g_state (Some global_make) p)
  | Some g =>
      if 0 <? net_threads g then Undef
      else Ret (set_g_state (Some global_make)
                  (add_ended (option_list (destroy <$> lua_services g)) (map stop_gate (gates g)) p))
  end.

Definition initialize (c : BootConfig) : boot := fun p =>
  if is_initialized p then (p, Ret true)
  else match fresh_state p with
       | Ret p =>
           match run_boot (stages c) (set_logger (Some (parse_log_level (boot_log_level c))) p) with
           | (p, Ret true) => (on_state set_initialized p, Ret true)
           | (p, Ret false) => (cleanup_failed_initialize p, Ret false)
           | r => r
           end
       | Throw e => (p, Throw e)
       | Undef => (p, Undef)
       end.

Definition shutdown : Process -> Process * outcome unit := fun p =>
  match g_state p with
  | Some g =>
      if negb (initialized g) then (p, Ret tt)
      else
        let '(p, r) := starters_stage PRE_SHUTDOWN p in
        match r with
        | Ret _ =>
            let p := set_global_cluster false (set_g_state (Some (mkGlobal false None None (spawned g) [] 0 None None true))
                       (end_state "stopping" g p)) in
            let '(p, r) := starters_stage POST_SHUTDOWN p in
            match r with
            | Ret _ => (forget (set_global_host (PluginHost.shutdown (global_host p)) p), Ret tt)
            | Throw e => (p, Throw e)
            | Undef => (p, Undef)
            end
        | Throw e => (p, Throw e)
        | Undef => (p, Undef)
        end
  | None => (p, Ret tt)
  end.
End Boot.
