(* ===== verification/Server.v ===== *)
(** * Server: the program (src/shield.cpp)

    The command line and [run], with everything that happens to a server between
    its start and its end, and the properties of start and end. *)

From S2P Require Import Prelude Text Json Codec Manifest Schema Build Config RuntimeConfig ScriptCache Cluster Listener PluginHost Lifecycle ServiceState Services ServiceSteps Registry ServiceExit ServiceDefects Bootstrap.

(** ** The command line *)

Record CliOptions := mkCli {
  cli_files : list string;
  cli_log_level : string;
  cli_workers : Z;
  show_help : bool;
  show_version : bool;
  check_config : bool;
  cli_node_id : option string;
  parse_error : option string
}.

Definition cli_default : CliOptions := mkCli ["config/app.yaml"] "info" 0 false false false None None.

Definition cli_fail (e : string) (o : CliOptions) : CliOptions :=
  mkCli (cli_files o) (cli_log_level o) (cli_workers o) (show_help o) (show_version o) (check_config o)
    (cli_node_id o) (Some e).
Definition with_files (l : list string) (o : CliOptions) : CliOptions :=
  mkCli l (cli_log_level o) (cli_workers o) (show_help o) (show_version o) (check_config o) (cli_node_id o)
    (parse_error o).
Definition with_level (v : string) (o : CliOptions) : CliOptions :=
  mkCli (cli_files o) v (cli_workers o) (show_help o) (show_version o) (check_config o) (cli_node_id o)
    (parse_error o).
Definition with_workers (n : Z) (o : CliOptions) : CliOptions :=
  mkCli (cli_files o) (cli_log_level o) n (show_help o) (show_version o) (check_config o) (cli_node_id o)
    (parse_error o).
Definition with_node (v : string) (o : CliOptions) : CliOptions :=
  mkCli (cli_files o) (cli_log_level o) (cli_workers o) (show_help o) (show_version o) (check_config o)
    (Some v) (parse_error o).
Definition with_flags (help version check : bool) (o : CliOptions) : CliOptions :=
  mkCli (cli_files o) (cli_log_level o) (cli_workers o) (help || show_help o) (version || show_version o)
    (check || check_config o) (cli_node_id o) (parse_error o).

(** The loop over the arguments, and whether it came to its end: the last check
    is not made after an early return. *)
Fixpoint cli_loop (args : list string) (saw_config : bool) (o : CliOptions) {struct args} : CliOptions * bool :=
  match args with
  | [] => (o, true)
  | arg :: rest =>
      let missing (name : string) := (cli_fail ("missing value for " +:+ name) o, false) in
      if str_in arg ["--help"; "-h"] then (with_flags true false false o, false)
      else if str_in arg ["--version"; "-v"] then (with_flags false true false o, false)
      else if str_in arg ["--config"; "-c"] then
        match rest with
        | [] => missing arg
        | v :: rest => cli_loop rest true (with_files ((if saw_config then cli_files o else []) ++ [v]) o)
        end
      else if String.eqb arg "--log-level" then
        match rest with [] => missing arg | v :: rest => cli_loop rest saw_config (with_level v o) end
      else if String.eqb arg "--workers" then
        match rest with
        | [] => missing arg
        | v :: rest =>
            match stoi v with
            | None => (cli_fail "invalid integer for --workers" o, false)
            | Some n =>
                if n <? 0 then (cli_fail "--workers must be >= 0" (with_workers n o), false)
                else cli_loop rest saw_config (with_workers n o)
            end
        end
      else if String.eqb arg "--node-id" then
        match rest with [] => missing arg | v :: rest => cli_loop rest saw_config (with_node v o) end
      else if String.eqb arg "--check-config" then cli_loop rest saw_config (with_flags false false true o)
      else (cli_fail ("unknown argument: " +:+ arg) o, false)
  end.

Definition parse_cli (cluster_enabled : bool) (args : list string) : CliOptions :=
  let '(o, at_end) := cli_loop args false cli_default in
  if at_end && negb cluster_enabled && bool_decide (is_Some (cli_node_id o))
  then cli_fail "--node-id requires shield_cluster, which is not enabled" o else o.

(** The configuration that [run] hands to [initialize]. *)
Definition boot_config (o : CliOptions) : BootConfig :=
  mkBoot (cli_log_level o) (default "" (head (cli_files o))) (cli_files o) (default "" (cli_node_id o)).

(** ** Running *)

Section Server.
Context `{JsonLib} `{YamlLib} `{Plugins} `{FileSystem} `{LuaWorld} `{Starters} `{Machine}.

(** What happens while the server runs: anything is done with the services
    except shutting them down, listeners take their steps, time passes for the
    cluster manager, plugins are asked for interfaces and register with a VM. *)
Inductive live : Process -> Process -> Prop :=
| live_services p g st c :
    g_state p = Some g -> lua_services g = Some st -> (forall reason, c <> Services.CShutdown reason) ->
    live p (set_g_state (Some (set_services (perform depth c st) [] g)) p)
| live_gate p g i gate l s :
    g_state p = Some g -> gates g !! i = Some gate ->
    step (gate_limits gate) l (gate_listener gate) = Some s ->
    live p (set_g_state (Some (set_gates (<[i := set_listener s gate]> (gates g)) g)) p)
| live_cluster p g m t t' m' :
    g_state p = Some g -> cluster_manager g = Some m -> cluster_step (t, m) (t', m') ->
    live p (set_g_state (Some (set_cluster_manager m' g)) p)
| live_query p name iface :
    live p (set_global_host (get_binding_vtable name iface (global_host p)).1 p)
| live_register p : live p (set_global_host (register_lua_all (global_host p)).1 p).

(** [run] of a new process, with the exit code it returns. *)
Inductive server_run (args : list string) : Process -> Z -> Prop :=
| run_information :
    let o := parse_cli cluster_enabled args in
    show_help o || show_version o = true -> server_run args process_make 0
| run_usage e :
    let o := parse_cli cluster_enabled args in
    show_help o || show_version o = false -> parse_error o = Some e -> server_run args process_make 1
| run_not_started p :
    let o := parse_cli cluster_enabled args in
    show_help o || show_version o = false -> parse_error o = None ->
    initialize (boot_config o) process_make = (p, Ret false) -> server_run args p 1
| run_served p1 p2 p :
    let o := parse_cli cluster_enabled args in
    show_help o || show_version o = false -> parse_error o = None ->
    initialize (boot_config o) process_make = (p1, Ret true) ->
    (if check_config o then p2 = p1 else rtc live p1 p2) ->
    shutdown p2 = (p, Ret tt) -> server_run args p 0
| run_start_throws p e :
    let o := parse_cli cluster_enabled args in
    show_help o || show_version o = false -> parse_error o = None ->
    initialize (boot_config o) process_make = (p, Throw e) -> server_run args p 2
| run_end_throws p1 p2 p e :
    let o := parse_cli cluster_enabled args in
    show_help o || show_version o = false -> parse_error o = None ->
    initialize (boot_config o) process_make = (p1, Ret true) ->
    (if check_config o then p2 = p1 else rtc live p1 p2) ->
    shutdown p2 = (p, Throw e) -> server_run args p 2.

(** ** Stages *)

(** A manager that a program has reached and that is not being shut down. *)
Definition steady (st : ServiceState.State) : Prop :=
  (exists modules, Services.reachable depth modules st) /\ stopping st = false.

Lemma guard_ret {A} (m : outcome A) k p p' b :
  guard m k p = (p', Ret b) -> exists a, m = Ret a /\ k a p = (p', Ret b).
Proof. unfold guard. destruct m; [eauto|done..]. Qed.

Lemma starters_ret phase p p' b :
  starters_stage phase p = (p', Ret b) -> b = true /\ exists t, p' = set_starter_calls t p.
Proof.
  unfold starters_stage. destruct (run_starters _ _ _) as [t [x| |]]; intros [= <- <-]; eauto.
Qed.

Lemma load_files_ret l p p' b : load_files l p = (p', Ret b) -> exists c, p' = set_global_config c p.
Proof.
  revert p. induction l as [|f l IH]; intros p; cbn [load_files].
  - intros [= <- _]. exists (global_config p). by destruct p.
  - destruct (str_empty f); [apply IH|]. destruct (load_yaml _ _ _) as [c [|]].
    + intros [c' ->]%IH. by exists c'.
    + intros [= <- _]. by exists c.
Qed.

Lemma perform_steady c st :
  steady st -> (forall reason, c <> Services.CShutdown reason) -> steady (perform depth c st).
Proof.
  intros [[m Hr] Hs] Hc. split; [exists m; by apply reach_step|].
  by rewrite (ev_stopping _ _ (command_evolves depth c st Hc)).
Qed.

Lemma new_manager_steady e d l : steady (new_manager e d l).
Proof. split; [eexists; apply reach_init|done]. Qed.

(** The name of a service survives being printed and parsed. *)
Definition keeps_names : Prop := forall j text v,
  json_dump j = inr text -> get "name" j = Some (JStr v) ->
  exists j', json_parse (bytes_of text) = inr j' /\ get "name" j' = Some (JStr v).

(** A service that is started has the name it was given. *)
Lemma spawn_named runs module text st id st' j name :
  json_parse (bytes_of text) = inr j -> get "name" j = Some (JStr name) ->
  spawn runs module text st = (inr id, st') -> id = name.
Proof.
  intros Hj Hn. unfold spawn. destruct (stopping st); [done|]. rewrite Hj. cbn [of_sum obind].
  unfold spawn_options, value at 1. destruct j as [| | | | | | |l]; try done. cbn [get] in Hn. rewrite Hn. cbn [obind Json.get_string].
  destruct (value get_json "args" _ _); try done. cbn [obind].
  destruct (value get_json "config" _ _); try done. cbn [obind opt_name]. cbv zeta.
  set (n := if str_empty name then _ else _).
  assert (Hv : valid_name n = true -> n = name).
  { subst n. destruct (str_empty name); [|done]. by rewrite generated_name_invalid. }
  clearbody n. case_head; [done|]. case_head; [done|]. destruct (valid_name n); [|done]. cbn [negb].
  rewrite (Hv eq_refl) in *. destruct register_api; [done|].
  destruct (load_service_module _); [done|]. destruct (value Json.get_int _ _ _); try done.
  destruct (spawn_actor _ _) as [|[act st1]]; [done|]. unfold spawn_init. cbv zeta.
  destruct (call_service_function _ _ _ _ _) as [[e|] st2]; [by case_head|].
  destruct (publish_service _ _ _) as [[|] r]; cbn [negb]; [|done]. by intros [= -> _].
Qed.

Lemma spawn_steady module text st : steady st -> steady (spawn (run depth) module text st).2.
Proof. intros Hs. by apply (perform_steady (CSpawn module text) st Hs). Qed.

Lemma spawn_all l p p' b g st :
  run_boot (map (fun x => spawn_instance x.1 x.2) l) p = (p', Ret b) ->
  g_state p = Some g -> lua_services g = Some st -> steady st ->
  exists st' ids, p' = set_g_state (Some (set_services st' ids g)) p /\ steady st' /\
    (keeps_names -> b = true -> forall a n, (a, n) ∈ l -> ra_required a = true -> n ∈ ids).
Proof.
  revert p g st. induction l as [|[a n] l IH]; intros p g st E Hg Hst Hs; cbn [map run_boot] in E.
  { injection E as <- <-. exists st, []. split; [|split; [done|]].
    - destruct p, g. cbn in Hg, Hst. subst. unfold set_g_state, set_services. cbn. by rewrite app_nil_r.
    - intros _ _ a n []%elem_of_nil. }
  unfold spawn_instance at 1 in E. cbn [fst snd] in E. rewrite Hg in E. cbn in E. rewrite Hst in E.
  unfold guard in E. destruct (json_dump (actor_options a n)) as [e|text] eqn:Ed; [done|]. cbn [of_sum] in E.
  pose proof (spawn_steady (resolve_script_path_with_lua_path a p) text st Hs) as Hs'.
  destruct (spawn _ _ _ st) as [[e|id] st1] eqn:Esp; cbn [snd] in Hs'.
  - destruct (ra_required a) eqn:Er.
    + injection E as <- <-. exists st1, []. split; [|by split]. unfold on_state. by rewrite Hg.
    + cbn [go_on] in E. unfold on_state in E. rewrite Hg in E. cbn [fmap option_fmap option_map] in E.
      destruct (IH _ _ st1 E eq_refl eq_refl Hs') as (st' & ids & -> & Hst' & Hall).
      exists st', ids. split; [|split; [done|]].
      * unfold set_g_state, set_services. cbn. by rewrite app_nil_r.
      * intros Hk Hb a' n' [[= -> ->]|Hin]%elem_of_cons Hr; [congruence|by eapply Hall].
  - cbn [go_on] in E. unfold on_state in E. rewrite Hg in E. cbn [fmap option_fmap option_map] in E.
    destruct (IH _ _ st1 E eq_refl eq_refl Hs') as (st' & ids & -> & Hst' & Hall).
    exists st', (id :: ids). split; [|split; [done|]].
    + unfold set_g_state, set_services. cbn. by rewrite <- app_assoc.
    + intros Hk Hb a' n' [[= -> ->]|Hin]%elem_of_cons Hr; [|right; by eapply Hall].
      destruct (Hk _ _ n Ed eq_refl) as (j' & Hj & Hn).
      rewrite (spawn_named _ _ _ _ _ _ _ _ Hj Hn Esp). by left.
Qed.

(** The actors that have a gateway, and the gateway of one. *)
Definition is_gateway (a : RuntimeConfig.RuntimeActorConfig) : bool :=
  negb (str_empty (network_tcp a) || (ra_instances a =? 0)).

Definition opened (h : Host) (a : RuntimeConfig.RuntimeActorConfig) (gate : Gate) : Prop :=
  exists ep, parse_endpoint (network_tcp a) = Some ep /\ probe h a = Ret true /\ gate = new_gate h a (ep_port ep).

Lemma open_all l p p' b g :
  run_boot (map open_gate l) p = (p', Ret b) -> g_state p = Some g ->
  exists gs, p' = set_g_state (Some (set_gates (gates g ++ gs) g)) p /\
    (b = true -> Forall2 (opened (global_host p)) (List.filter is_gateway l) gs).
Proof.
  assert (Hnil : forall p g, g_state p = Some g -> p = set_g_state (Some (set_gates (gates g ++ []) g)) p).
  { intros p0 g0 Hg0. destruct p0, g0. cbn in Hg0. subst. unfold set_g_state, set_gates. cbn. by rewrite app_nil_r. }
  revert p g. induction l as [|a l IH]; intros p g E Hg; cbn [map run_boot] in E.
  { injection E as <- <-. exists []. split; [by apply Hnil|]. by constructor. }
  cbn [List.filter]. rewrite (eq_refl : is_gateway a = negb (str_empty (network_tcp a) || (ra_instances a =? 0))).
  unfold open_gate at 1 in E.
  destruct (str_empty (network_tcp a) || (ra_instances a =? 0)); cbn [negb go_on] in *; [by apply IH|].
  assert (Hend : (p, Ret false) = (p', Ret b) -> exists gs, p' = set_g_state (Some (set_gates (gates g ++ gs) g)) p /\
    (b = true -> Forall2 (opened (global_host p)) (a :: List.filter is_gateway l) gs)).
  { intros [= <- <-]. exists []. split; [by apply Hnil|done]. }
  destruct (parse_endpoint (network_tcp a)) as [ep|] eqn:Ee; [|by apply Hend].
  unfold guard in E. destruct (probe (global_host p) a) as [[|]|e|] eqn:Ep; cbn [negb] in E; try done; [|by apply Hend].
  rewrite Hg in E. destruct (port_free _ _); cbn [negb go_on] in E; [|by apply Hend].
  destruct (IH _ _ E eq_refl) as (gs & -> & Hgs). eexists (_ :: gs). split.
  - unfold set_g_state, set_gates. cbn. by rewrite <- app_assoc.
  - intros Hb. constructor; [by exists ep|by apply Hgs].
Qed.

(** ** What holds from the start *)

(** The host can be shut down and the manager, if there is one, is steady. *)
Definition sound (p : Process) : Prop :=
  stoppable (global_host p) /\
  match g_state p with
  | Some g => match lua_services g with Some st => steady st | None => True end
  | None => True
  end.

(** What has ended before stays as it is, and the state stays. *)
Definition keeps (p p' : Process) : Prop :=
  ended_managers p' = ended_managers p /\ ended_gates p' = ended_gates p /\
  is_Some (g_state p') /\ (is_initialized p' = is_initialized p).

Definition stage_ok (f : boot) : Prop := forall p p' b,
  f p = (p', Ret b) -> sound p -> is_Some (g_state p) -> sound p' /\ keeps p p'.

Lemma run_boot_ok l : Forall stage_ok l -> stage_ok (run_boot l).
Proof.
  induction 1 as [|f l Hf _ IH]; intros p p' b E Hs Hg; cbn [run_boot] in E.
  - injection E as <- _. split; [done|]. by repeat split.
  - destruct (f p) as [p1 [[|]|e|]] eqn:Ef; try done.
    + destruct (Hf _ _ _ Ef Hs Hg) as [Hs1 (K1 & K2 & K3 & K4)].
      destruct (IH _ _ _ E Hs1 K3) as [Hs2 (L1 & L2 & L3 & L4)]. split; [done|].
      split_and!; [congruence|congruence|done|congruence].
    + injection E as <- <-. by eapply Hf.
Qed.

(** A stage that changes neither the host nor the state. *)
Lemma frame_ok f :
  (forall p p' b, f p = (p', Ret b) ->
     global_host p' = global_host p /\ g_state p' = g_state p /\
     ended_managers p' = ended_managers p /\ ended_gates p' = ended_gates p) -> stage_ok f.
Proof.
  intros Hf p p' b E [Hh Hs] Hg. destruct (Hf _ _ _ E) as (E1 & E2 & E3 & E4).
  unfold sound, keeps, is_initialized. by rewrite E1, E2, E3, E4.
Qed.

(** A stage that changes the state, but not the manager. *)
Lemma state_ok f :
  (forall p p' b, f p = (p', Ret b) ->
     exists F c, p' = set_global_cluster c (on_state F p) /\
       forall g, lua_services (F g) = lua_services g /\ initialized (F g) = initialized g) -> stage_ok f.
Proof.
  intros Hf p p' b E [Hh Hs] [g Hg]. destruct (Hf _ _ _ E) as (F & c & -> & HF).
  destruct (HF g) as [E1 E2]. unfold sound, keeps, is_initialized, on_state in *. cbn. rewrite Hg in *. cbn.
  by rewrite E1, E2.
Qed.

Lemma startup_stoppable cfg h h' r :
  startup platform cfg h = (h', Ret r) -> stoppable h'.
Proof.
  intros E. destruct (startup_ends _ _ _ _ _ E) as [_ Hr]. destruct r as [e|].
  - destruct Hr as (hf & -> & Hf). by apply shutdown_spec.
  - destruct Hr as (hm & pre & tr & Hr & Hi & Hp & _). eapply start_inv_stoppable; [|exact Hi|exact Hp]. apply Hr.
Qed.

Lemma plugin_stage_ok : stage_ok plugin_stage.
Proof.
  intros p p' b (cfg & _ & E)%guard_ret [_ Hs] Hg. destruct (startup _ _ _) as [h r] eqn:Es.
  apply guard_ret in E as (e & -> & E). apply startup_stoppable in Es.
  destruct e; injection E as <- _; (split; [by split|by repeat split]).
Qed.

Lemma lua_stage_ok : stage_ok lua_stage.
Proof.
  intros p p' b (c & _ & E)%guard_ret [Hh Hs] [g Hg]. apply guard_ret in E as (l & _ & E).
  injection E as <- _. unfold sound, keeps, is_initialized, on_state. cbn. rewrite Hg. cbn.
  split; [split; [done|apply new_manager_steady]|]. by repeat split.
Qed.

Lemma spawn_stage_ok : stage_ok spawn_stage.
Proof.
  intros p p' b (l & _ & E)%guard_ret [Hh Hs] [g Hg]. rewrite Hg in Hs.
  destruct (lua_services g) as [st|] eqn:El.
  - destruct (spawn_all _ _ _ _ _ _ E Hg El Hs) as (st' & ids & -> & Hst & _).
    unfold sound, keeps, is_initialized. cbn. rewrite Hg. split; [exact (conj Hh Hst)|by repeat split].
  - assert (p' = p) as ->.
    { revert E. generalize (declared l). intros k. induction k as [|[a n] k IH]; cbn [map run_boot]; [by intros [= <- _]|].
      unfold spawn_instance at 1. rewrite Hg. cbn. rewrite El. exact IH. }
    unfold sound, keeps. rewrite Hg, El. split; [done|]. by repeat split.
Qed.

Lemma gates_stage_ok : stage_ok gates_stage.
Proof.
  intros p p' b (l & _ & E)%guard_ret [Hh Hs] [g Hg].
  destruct (open_all _ _ _ _ _ E Hg) as (gs & -> & _). rewrite Hg in Hs.
  unfold sound, keeps, is_initialized. cbn. rewrite Hg. split; [exact (conj Hh Hs)|by repeat split].
Qed.

Lemma same_state p : p = set_global_cluster (global_cluster p) (on_state (fun g => g) p).
Proof. destruct p as [[g|]]; done. Qed.

Lemma stages_ok c : Forall stage_ok (stages c).
Proof.
  assert (Hst : forall ph, stage_ok (starters_stage ph)).
  { intros ph. apply frame_ok. by intros p p' b [_ [t ->]]%starters_ret. }
  repeat (apply Forall_cons_iff; split); try apply Hst; try apply plugin_stage_ok; try apply lua_stage_ok;
    try apply spawn_stage_ok; try apply gates_stage_ok; try (by constructor).
  - apply frame_ok. by intros p p' b [c' ->]%load_files_ret.
  - apply frame_ok. intros p p' b [= <- _]. by destruct (str_empty _).
  - apply frame_ok. intros p p' b ([e|] & _ & E)%guard_ret; by injection E as <- _.
  - apply state_ok. intros p p' b. unfold cluster_stage. destruct cluster_enabled; cbn [negb].
    + intros (cc & _ & E)%guard_ret. destruct (cl_enabled cc); cbn [negb] in E; [|injection E as <- _].
      * destruct (str_empty _); injection E as <- _; [|by eexists _, true].
        exists (fun g => g), (global_cluster p). split; [apply same_state|done].
      * exists (fun g => g), (global_cluster p). split; [apply same_state|done].
    + intros [= <- _]. exists (fun g => g), (global_cluster p). split; [apply same_state|done].
  - apply state_ok. intros p p' b [= <- _]. by exists set_caf, (global_cluster p).
  - apply state_ok. intros p p' b. unfold threads_stage. destruct (g_state p) as [g|] eqn:Hg.
    + destruct (gates g).
      * intros [= <- _]. exists (fun g => g), (global_cluster p). split; [apply same_state|done].
      * intros (n & _ & E)%guard_ret. injection E as <- _. by eexists _, (global_cluster p).
    + intros [= <- _]. exists (fun g => g), (global_cluster p). split; [apply same_state|done].
  - apply state_ok. intros p p' b [= <- _]. destruct (String.eqb _ _).
    + by eexists _, (global_cluster p).
    + exists (fun g => g), (global_cluster p). split; [apply same_state|done].
Qed.

(** ** The end *)

(** A destroyed manager runs nothing, and nobody waits for it. *)
Definition manager_ended (st : ServiceState.State) : Prop :=
  services (registry st) = ∅ /\ service_order (registry st) = [] /\ service_actors (registry st) = ∅ /\
  actor_call_timeouts (ServiceState.calls st) = ∅ /\ pending_sync_calls (ServiceState.calls st) = ∅.

(** A destroyed gateway accepts no connection any more. *)
Definition gate_closed (g : Gate) : Prop :=
  listening_ (gate_listener g) = false /\ accept_pc (gate_listener g) = Ended.

Lemma foldl_registry {A} (f : ServiceState.State -> A -> ServiceState.State) l st :
  (forall st x, registry (f st x) = registry st) -> registry (foldl f st l) = registry st.
Proof. intros Hf. revert st. induction l as [|x l IH]; intros st; cbn; [done|]. by rewrite IH, Hf. Qed.

Lemma cancel_timers_registry svc st : registry (cancel_timers_of svc st) = registry st.
Proof.
  unfold cancel_timers_of. apply foldl_registry. intros st0 x. unfold cancel_actor_timer.
  destruct (actor_timers (timers st0) !! x) as [y|]; [by destruct (timer_driver y)|done].
Qed.

Lemma destroy_registry st : registry (destroy st) = set_service_actors ∅ (registry st).
Proof.
  unfold destroy. cbn. rewrite foldl_registry by done. cbn. rewrite foldl_registry by done. f_equal.
  apply foldl_registry. intros st0 x. by rewrite cancel_timers_registry.
Qed.

Lemma destroy_calls st :
  actor_call_timeouts (ServiceState.calls (destroy st)) = ∅ /\ pending_sync_calls (ServiceState.calls (destroy st)) = ∅.
Proof. by split. Qed.

Lemma end_manager_ended reason st : steady st -> manager_ended (end_manager reason st).
Proof.
  intros [[m Hr] Hs]. destruct (shutdown_no_service depth m st reason depth Hr Hs) as [E1 E2].
  unfold manager_ended, end_manager. rewrite destroy_registry. destruct (destroy_calls (shutdown_all (run depth) reason st)).
  by split_and!.
Qed.

(** The steps that are left to a handler of a stopped listener. *)
Definition left_to_do (s : Listener.State) : option nat :=
  match accept_pc s with
  | Waiting => None
  | LimitChecked _ => Some 4%nat
  | IpChecked _ => Some 3%nat
  | Created _ _ => Some 2%nat
  | Stored _ => Some 1%nat
  | Ended => Some 0%nat
  end.

Lemma continue_stopped c s n :
  listening_ s = false -> left_to_do s = Some n ->
  let s' := default s (step c LContinue s) in
  listening_ s' = false /\ exists m, left_to_do s' = Some m /\ (m <= n - 1)%nat.
Proof.
  intros Hl. unfold left_to_do, step. destruct (accept_pc s) eqn:Ep; intros [= <-]; cbn [default];
    unfold check_ip, create_session, store_session, start_session, rearm; rewrite ?Hl; cbn.
  - case_head; cbn; rewrite ?Hl; (split; [done|]); eexists; (split; [done|lia]).
  - split; [done|]. eexists. split; [done|lia].
  - split; [done|]. eexists. split; [done|lia].
  - split; [done|]. eexists. split; [done|lia].
  - rewrite Ep. split; [done|]. eexists. split; [done|lia].
Qed.

Lemma stop_gate_closed g : gate_closed (stop_gate g).
Proof.
  unfold gate_closed, stop_gate. cbn [set_listener gate_listener].
  generalize (gate_limits g), (gate_listener g). intros c s.
  assert (Hn : exists n, left_to_do (Listener.stop s) = Some n /\ (n <= 4)%nat).
  { unfold left_to_do. cbn. destruct (accept_pc s); eexists; (split; [done|lia]). }
  assert (Hl : listening_ (Listener.stop s) = false) by done. revert Hn Hl. generalize (Listener.stop s). clear s.
  unfold finish_handler. intros s Hn Hl.
  assert (Hk : forall k, let s' := Nat.iter k (fun s => default s (step c LContinue s)) s in
    listening_ s' = false /\ exists n, left_to_do s' = Some n /\ (n <= 4 - k)%nat).
  { intros k. induction k as [|k (Hl' & n & En & Hle)]; cbn [Nat.iter]; [split; [done|]; destruct Hn as (n & ? & ?); exists n; split; [done|lia]|].
    destruct (continue_stopped c _ n Hl' En) as (Hl2 & m & Em & Hm). split; [done|]. exists m. split; [done|lia]. }
  destruct (Hk 4%nat) as (Hl' & n & En & Hle). split; [done|].
  unfold left_to_do in En. destruct (accept_pc _); simplify_eq; try lia. done.
Qed.

(** ** Everything is released *)

Record released (p : Process) : Prop := {
  rel_state : g_state p = None;
  rel_logger : logger p = None;
  rel_cluster : global_cluster p = false;
  rel_plugins : idle (instances (global_host p)) /\ contexts (global_host p) = [];
  rel_managers : Forall manager_ended (ended_managers p);
  rel_gates : Forall gate_closed (ended_gates p)
}.

Definition tidy (p : Process) : Prop :=
  Forall manager_ended (ended_managers p) /\ Forall gate_closed (ended_gates p).

Lemma end_state_tidy reason g p :
  tidy p -> match lua_services g with Some st => steady st | None => True end -> tidy (end_state reason g p).
Proof.
  intros [Hm Hg] Hs. split; cbn; apply Forall_app; (split; [done|]).
  - destruct (lua_services g) as [st|]; cbn; [|done]. apply Forall_singleton. by apply end_manager_ended.
  - apply List.Forall_forall. intros x (y & <- & _)%in_map_iff. apply stop_gate_closed.
Qed.

Lemma cleanup_releases p :
  sound p -> tidy p -> is_Some (g_state p) -> released (cleanup_failed_initialize p).
Proof.
  intros [Hh Hs] Ht [g Hg]. rewrite Hg in Hs. destruct (end_state_tidy "startup_failed" g p Ht Hs) as [T1 T2].
  unfold cleanup_failed_initialize. rewrite Hg. destruct (shutdown_spec _ Hh) as (_ & Hi & _). by split.
Qed.

Lemma start_sound : sound (set_g_state (Some global_make) process_make) /\ tidy process_make.
Proof.
  split; [|split; by constructor]. split; [|done]. apply idle_stoppable; cbn; [constructor..|].
  intros i []%elem_of_nil.
Qed.

(** How the start ends, unless it throws. *)
Lemma initialize_ends c p b :
  initialize c process_make = (p, Ret b) ->
  if b then sound p /\ tidy p /\ is_initialized p = true else released p.
Proof.
  unfold initialize. cbn [is_initialized g_state process_make fresh_state].
  set (p0 := set_logger _ _). intros E.
  pose proof (proj1 start_sound : sound p0) as Hs. pose proof (proj2 start_sound : tidy p0) as Ht.
  destruct (run_boot (stages c) p0) as [p1 [x| |]] eqn:E1; [|done..].
  destruct (run_boot_ok _ (stages_ok c) _ _ _ E1 Hs ltac:(by eexists)) as [Hs1 (K1 & K2 & [g Hg] & _)].
  assert (Ht1 : tidy p1) by (unfold tidy; by rewrite K1, K2).
  destruct x; injection E as <- <-; [|by apply cleanup_releases].
  destruct Hs1 as [Hh Hm]. rewrite Hg in Hm. unfold sound, is_initialized, on_state. rewrite Hg.
  split; [exact (conj Hh Hm)|]. split; [exact Ht1|done].
Qed.

(** *** While it runs *)

Definition same_plugin (i i' : Instance_) : Prop := id i' = id i /\ state i' = state i /\ handle i' = handle i.

Lemma same_stoppable h h' :
  start_ids h' = start_ids h -> Forall2 same_plugin (instances h) (instances h') -> stoppable h -> stoppable h'.
Proof.
  intros Ho HF [A1 A2 A3]. constructor; [by rewrite Ho| |].
  - assert (map id (instances h') = map id (instances h)) as ->; [|done]. clear -HF.
    induction HF as [|i i' l l' (E & _) _ IH]; [done|]. cbn. by rewrite E, IH.
  - intros i' Hi Hst. apply list_elem_of_lookup in Hi as [n Hn].
    destruct (Forall2_lookup_r _ _ _ _ _ HF Hn) as (i & Hi & E1 & E2 & E3).
    rewrite Ho, E1, E3. apply A3; [by eapply list_elem_of_lookup_2|by rewrite <- E2].
Qed.

Lemma same_plugins_refl l : Forall2 same_plugin l l.
Proof. induction l; constructor; try done. Qed.

Lemma update_error_same n msg l : Forall2 same_plugin l (update_instance n (set_last_error msg) l).
Proof.
  induction l as [|i l IH]; [constructor|]. cbn [update_instance]. case_head; constructor; try done. apply same_plugins_refl.
Qed.

Lemma same_plugins_trans a b c : Forall2 same_plugin a b -> Forall2 same_plugin b c -> Forall2 same_plugin a c.
Proof.
  intros Hab. revert c. induction Hab as [|x y a b (E1 & E2 & E3) _ IH]; intros c Hbc; inversion Hbc as [|? z ? c' (F1 & F2 & F3) Hc]; subst; constructor; [|by apply IH].
  unfold same_plugin. by rewrite F1, F2, F3.
Qed.

Lemma register_same order h :
  start_ids (register_loop order h).1 = start_ids h /\
  Forall2 same_plugin (instances h) (instances (register_loop order h).1).
Proof.
  revert h. induction order as [|n order IH]; intros h; cbn [register_loop]; [split; [done|apply same_plugins_refl]|].
  destruct (find_instance n (instances h)) as [i|]; [|apply IH]. destruct (handle i) as [hd|]; [|apply IH].
  case_head; [|apply IH]. destruct (register_lua _ _) as [rc e]. case_head; [apply (IH (PluginHost.set_calls _ h))|].
  set (h1 := set_instances _ _). assert (Hu : Forall2 same_plugin (instances h) (instances h1)) by apply update_error_same.
  case_head; [by split|]. destruct (IH h1) as [I1 I2]. split; [by rewrite I1|by eapply same_plugins_trans].
Qed.

Lemma query_same name iface h :
  start_ids (get_binding_vtable name iface h).1 = start_ids h /\
  instances (get_binding_vtable name iface h).1 = instances h.
Proof.
  unfold get_binding_vtable, ask_interface. destruct (find_binding name h); [|done].
  destruct (find_instance _ _) as [i|]; [|done]. destruct (handle i); [|done]. by case_head.
Qed.

Lemma live_keeps p p' :
  live p p' -> sound p /\ tidy p /\ is_initialized p = true -> sound p' /\ tidy p' /\ is_initialized p' = true.
Proof.
  intros Hl ([Hh Hs] & Ht & Hi). unfold sound, is_initialized in *.
  destruct Hl as [p g st c Hg Est Hc|p g i gate l s Hg Ei Es|p g m t t' m' Hg Em Es|p name iface|p]; cbn;
    try (rewrite Hg in Hs, Hi); split_and!; try done.
  - rewrite Est in Hs. by apply perform_steady.
  - eapply same_stoppable; [apply query_same| |exact Hh]. rewrite (proj2 (query_same _ _ _)). apply same_plugins_refl.
  - by eapply same_stoppable; [apply register_same|apply register_same|].
Qed.

Lemma shutdown_releases p p' :
  sound p -> tidy p -> is_initialized p = true -> shutdown p = (p', Ret tt) -> released p'.
Proof.
  intros [Hh Hs] Ht Hi. unfold shutdown, is_initialized in *. destruct (g_state p) as [g|] eqn:Hg; [|done].
  rewrite Hi. cbn [negb]. destruct (starters_stage PRE_SHUTDOWN p) as [p1 [b1| |]] eqn:E1; [|done..].
  apply starters_ret in E1 as (_ & t & ->). set (p2 := set_global_cluster _ _).
  destruct (starters_stage POST_SHUTDOWN p2) as [p3 [b3| |]] eqn:E3; [|done..].
  apply starters_ret in E3 as (_ & t' & ->). intros [= <-].
  destruct (end_state_tidy "stopping" g (set_starter_calls t p) Ht Hs) as [T1 T2].
  destruct (shutdown_spec _ Hh) as (_ & Hidle & _). by split.
Qed.

(** ** A start that succeeds *)

(** What a server that has started consists of. *)
Record serving (p : Process) (g : GlobalState) (actors : list RuntimeConfig.RuntimeActorConfig) : Prop := {
  sv_valid : validate_runtime_config (fun f => Ret (exists_ f)) (global_config p) validation_options = accept;
  sv_actors : runtime_actors (global_config p) = Ret actors;
  sv_plugins : forall i, i ∈ instances (global_host p) -> required (decl i) = true -> state i = started;
  sv_services : exists st, lua_services g = Some st /\ steady st;
  sv_spawned : keeps_names -> forall a n, a ∈ actors -> ra_required a = true -> n ∈ instance_names a -> n ∈ spawned g;
  sv_gates : Forall2 (opened (global_host p)) (List.filter is_gateway actors) (gates g);
  sv_threads : gates g <> [] -> 0 < net_threads g
}.

Lemma run_boot_cons f l p p' :
  run_boot (f :: l) p = (p', Ret true) -> exists p1, f p = (p1, Ret true) /\ run_boot l p1 = (p', Ret true).
Proof. cbn [run_boot]. destruct (f p) as [p1 [[|]|e|]]; [eauto|done..]. Qed.

Lemma initialize_stages c p :
  initialize c process_make = (p, Ret true) ->
  exists p1, run_boot (stages c) (set_logger (Some (parse_log_level (boot_log_level c)))
                                    (set_g_state (Some global_make) process_make)) = (p1, Ret true) /\
             p = on_state set_initialized p1.
Proof.
  unfold initialize. cbn [is_initialized g_state process_make fresh_state].
  destruct (run_boot _ _) as [p1 [[|]|e|]]; intros [= <-]. by exists p1.
Qed.

(** The stages up to the plugins. *)
Lemma first_stages c l p p' g :
  run_boot ([starters_stage PRE_INIT; config_stage c; node_id_stage c; validate_stage; starters_stage POST_CONFIG;
             plugin_stage] ++ l) p = (p', Ret true) ->
  g_state p = Some g ->
  exists p1, run_boot l p1 = (p', Ret true) /\ g_state p1 = Some g /\
    validate_runtime_config (fun f => Ret (exists_ f)) (global_config p1) validation_options = accept /\
    (forall i, i ∈ instances (global_host p1) -> required (decl i) = true -> state i = started).
Proof.
  intros E Hg. cbn [app] in E.
  apply run_boot_cons in E as (p1 & (_ & t1 & ->)%starters_ret & E).
  apply run_boot_cons in E as (p2 & (c2 & ->)%load_files_ret & E).
  apply run_boot_cons in E as (p3 & [= <-] & E).
  apply run_boot_cons in E as (p4 & ([e|] & Ev & E4)%guard_ret & E); [done|]. injection E4 as <-.
  apply run_boot_cons in E as (p5 & (_ & t5 & ->)%starters_ret & E).
  apply run_boot_cons in E as (p6 & (cfg & _ & E6)%guard_ret & E).
  destruct (startup _ _ _) as [h r] eqn:Es. apply guard_ret in E6 as ([e|] & -> & E6); [done|].
  injection E6 as <-. eexists. split; [exact E|]. split; [by destruct (str_empty _)|]. split; [exact Ev|].
  destruct (startup_ends _ _ _ _ _ Es) as [_ (hm & pre & tr & _ & _ & _ & Hreq)]. exact Hreq.
Qed.

Lemma cluster_ret p p' g :
  cluster_stage p = (p', Ret true) -> g_state p = Some g ->
  exists g', g_state p' = Some g' /\ gates g' = gates g /\ spawned g' = spawned g /\
    global_config p' = global_config p /\ global_host p' = global_host p.
Proof.
  unfold cluster_stage. intros E Hg. destruct cluster_enabled; cbn [negb] in E.
  - apply guard_ret in E as (cc & _ & E). destruct (cl_enabled cc); cbn [negb] in E; [|injection E as <-; by exists g].
    destruct (str_empty _); [done|]. injection E as <-. unfold on_state. rewrite Hg. by eexists.
  - injection E as <-. by exists g.
Qed.

Lemma threads_ret p p' g :
  threads_stage p = (p', Ret true) -> g_state p = Some g ->
  exists n, p' = on_state (set_net_threads n) p /\ (gates g <> [] -> 0 < n).
Proof.
  unfold threads_stage. intros E Hg. rewrite Hg in E. destruct (gates g) as [|x l] eqn:Eg.
  - injection E as <-. exists (net_threads g). split; [|done]. destruct p, g. cbn in Hg. by subst.
  - apply guard_ret in E as (n & _ & E). injection E as <-. eexists. split; [done|]. intros _.
    destruct (Z.ltb_spec 0 n); lia.
Qed.

(** The stages after the plugins. *)
Lemma last_stages p p' g :
  run_boot [cluster_stage; caf_stage; starters_stage POST_SYSTEM_INIT; lua_stage; spawn_stage;
            gates_stage; threads_stage; starters_stage POST_START; console_stage] p = (p', Ret true) ->
  g_state p = Some g -> gates g = [] ->
  exists g' actors, g_state p' = Some g' /\ global_config p' = global_config p /\ global_host p' = global_host p /\
    runtime_actors (global_config p) = Ret actors /\
    (exists st, lua_services g' = Some st /\ steady st) /\
    (keeps_names -> forall a n, a ∈ actors -> ra_required a = true -> n ∈ instance_names a -> n ∈ spawned g') /\
    Forall2 (opened (global_host p)) (List.filter is_gateway actors) (gates g') /\
    (gates g' <> [] -> 0 < net_threads g').
Proof.
  intros E Hg Hempty.
  apply run_boot_cons in E as (p1 & (g1 & Hg1 & E1 & _ & C1 & H1')%(fun E => cluster_ret _ _ _ E Hg) & E).
  apply run_boot_cons in E as (p2 & [= <-] & E).
  apply run_boot_cons in E as (p3 & (_ & t3 & ->)%starters_ret & E).
  apply run_boot_cons in E as (p4 & (cache & _ & E4)%guard_ret & E).
  apply guard_ret in E4 as (actors4 & _ & E4). injection E4 as <-.
  apply run_boot_cons in E as (p5 & (actors & Ea & E5)%guard_ret & E).
  cbn in Ea. unfold on_state in E5. cbn in E5. rewrite Hg1 in E5. cbn [fmap option_fmap option_map] in E5.
  destruct (spawn_all _ _ _ _ _ _ E5 eq_refl eq_refl (new_manager_steady _ _ _)) as (st & ids & -> & Hst & Hids).
  apply run_boot_cons in E as (p6 & (actors' & Ea' & E6)%guard_ret & E). cbn in Ea'.
  assert (actors' = actors) as -> by congruence.
  destruct (open_all _ _ _ _ _ E6 eq_refl) as (gs & -> & Hgs).
  apply run_boot_cons in E as (p7 & E7 & E). destruct (threads_ret _ _ _ E7 eq_refl) as (n & -> & Hn).
  apply run_boot_cons in E as (p8 & (_ & t8 & ->)%starters_ret & E).
  apply run_boot_cons in E as (p9 & [= <-] & E). injection E as <-.
  cbn in Hgs, Hn. rewrite H1' in Hgs. rewrite E1, Hempty in Hn. cbn [app] in Hn. rewrite C1 in Ea.
  assert (Hin : keeps_names -> forall a n, a ∈ actors -> ra_required a = true -> n ∈ instance_names a -> n ∈ spawned g1 ++ ids).
  { intros Hk a k Ha Hr Hn'. apply elem_of_app. right. apply (Hids Hk eq_refl a k); [|done].
    apply list_elem_of_In, in_flat_map. exists a. split; [by apply list_elem_of_In|].
    by apply in_map, list_elem_of_In. }
  destruct (String.eqb _ _); eexists _, actors; (split; [reflexivity|]); cbn; rewrite E1, Hempty; cbn [app];
    (split_and!; [exact C1|exact H1'|exact Ea|by exists st|exact Hin|by apply Hgs|exact Hn]).
Qed.

(** ** Properties *)

(** C22: nothing outlives the server.  Whatever the arguments, the files, the
    plugins and the scripts do, and whatever happens while it serves, a run that
    ends without an exception leaves no plugin started and no plugin context,
    every service manager destroyed with no service, actor or waiting caller,
    every gateway closed to connections, the cluster pointer reset and the logger
    shut down. *)
Theorem server_run_releases args p code : server_run args p code -> code <> 2 -> released p.
Proof.
  assert (Hnew : released process_make).
  { split; try done; [|constructor..]. split; [|done]. intros i []%elem_of_nil. }
  intros Hr Hc. destruct Hr as [o _|e o _ _|p o _ _ E|p1 p2 p o _ _ E Hl Hd|p e o _ _ E|p1 p2 p e o _ _ E Hl Hd];
    try done.
  - exact (initialize_ends _ _ _ E).
  - apply initialize_ends in E.
    assert (Hp2 : sound p2 /\ tidy p2 /\ is_initialized p2 = true).
    { destruct (check_config o); [by subst|]. clear -E Hl.
      induction Hl as [p|p p' p'' Hl _ IH]; [done|]. apply IH. by apply (live_keeps p). }
    destruct Hp2 as (H1' & H2' & H3'). by eapply shutdown_releases.
Qed.

(** C23: a server that says it has started has: the configuration is valid, every
    required plugin is started, every instance of a required actor was spawned
    under its name, and every actor with an address has a gateway on its port,
    with its limits and a protocol that can be built, and threads to serve it. *)
Theorem started_server_serves c p :
  initialize c process_make = (p, Ret true) ->
  exists g actors, g_state p = Some g /\ initialized g = true /\ serving p g actors.
Proof.
  intros (p1 & E & ->)%initialize_stages.
  destruct (first_stages c _ _ _ global_make E eq_refl) as (p2 & E2 & Hg2 & Hv & Hpl).
  destruct (last_stages _ _ _ E2 Hg2 eq_refl) as (g & actors & Hg & C1 & C2 & Ea & Hst & Hsp & Hgs & Hn).
  exists (set_initialized g), actors. unfold on_state. rewrite Hg. split; [done|]. split; [done|].
  split; cbn; by rewrite ?C1, ?C2.
Qed.
End Server.

(** ** A small server

    A gateway and four worlds.  A text stands for the object with that name. *)

#[local] Instance small_json : JsonLib := {
  json_parse := fun b => inr (JObj [("name", JStr (string_of b))]);
  json_dump := fun j => match get "name" j with Some (JStr n) => inr n | _ => inr "" end;
  json_error := fun _ _ _ => "type error"
}.

Definition small_doc : ynode := runtime_doc [gateway_actor; world_actor].

Definition small_yaml (doc : ynode) : YamlLib :=
  {| yaml_load := fun _ => inr doc; as_bool := @as_bool runtime_yaml; as_int64 := @as_int64 runtime_yaml;
     as_double := @as_double runtime_yaml; as_string := @as_string runtime_yaml |}.

#[local] Instance no_plugins : Plugins := demo_plugins "".
#[local] Instance no_files : FileSystem :=
  {| fs_exists := fun _ => inr false; fs_is_directory := fun _ => inr false; fs_list := fun _ => ([], None);
     fs_read := fun _ => None |}.

(** Scripts of any name; those of [gateway.lua] fail to load when [broken]. *)
Definition small_world (broken : bool) : LuaWorld := {|
  load_service_module := fun m =>
    if broken && String.eqb m "scripts/gateway.lua" then inl "syntax error" else inr (mkVM (fun _ => None) true);
  register_api := None;
  name_hash := fun _ => 42;
  caf_spawn_throws := fun _ => None;
  permission_check := None;
  sol_error_what := fun m => default "error" m;
  sol_as_string := fun v => match v with JStr s => inr s | _ => inl (JsonExn "not a string") end;
  load_chunk := fun _ _ => inl "syntax error";
  wall_clock := fun ms => ms
|}.

#[local] Instance small_starters : Starters := {| execute := fun _ _ _ => Ret true |}.

#[local] Instance small_machine : Machine := {|
  platform := OtherPlatform;
  starters := [mkStarter "metrics" 100 (fun _ => true)];
  cluster_enabled := false;
  read_file := fun f => if String.eqb f "config/app.yaml" then Some "doc" else None;
  exists_ := fun f => str_in f ["scripts/gateway.lua"; "config/world.lua"];
  port_free := fun ports p => negb (bool_decide (p ∈ ports));
  codec_table := fun _ => mkVtable None None None false false;
  new_epoch := 0;
  clock_ := fun _ => 0;
  depth := 3
|}.

Definition small_start (doc : ynode) (broken : bool) : Process * outcome bool :=
  @initialize small_json (small_yaml doc) no_plugins no_files (small_world broken) small_starters small_machine
    (boot_config cli_default) process_make.

Definition small_summary (r : Process * outcome bool) : outcome bool * option (list string * list Z * Z) :=
  (r.2, (fun g => (spawned g, map gate_port (gates g), net_threads g)) <$> g_state r.1).

Example small_starts :
  small_summary (small_start small_doc false) =
  (Ret true, Some (["gateway"; "world.1"; "world.2"; "world.3"; "world.4"], [7000], 1)).
Proof. vm_compute. reflexivity. Qed.

Definition small_running : Process := (small_start small_doc false).1.

Lemma small_started : small_start small_doc false = (small_running, Ret true).
Proof.
  assert (E : (small_start small_doc false).2 = Ret true) by (vm_compute; reflexivity).
  unfold small_running. rewrite <- E. apply surjective_pairing.
Qed.

Lemma small_keeps_names : keeps_names.
Proof.
  intros j text v Hd Hg. cbn in Hd. rewrite Hg in Hd. injection Hd as <-.
  eexists. split; [reflexivity|]. cbn. by rewrite string_of_bytes_of.
Qed.

Lemma started_server_serves_witness : exists g actors,
  g_state small_running = Some g /\ initialized g = true /\
  (forall a n, a ∈ actors -> ra_required a = true -> n ∈ instance_names a -> n ∈ spawned g) /\
  runtime_actors (H := small_yaml small_doc) (global_config small_running) = Ret actors.
Proof.
  destruct (@started_server_serves small_json (small_yaml small_doc) no_plugins no_files (small_world false)
    small_starters small_machine (boot_config cli_default) small_running small_started)
    as (g & actors & Hg & Hi & [_ Ha _ _ Hsp _ _]).
  exists g, actors. split; [exact Hg|]. split; [exact Hi|]. split; [exact (Hsp small_keeps_names)|exact Ha].
Defined.

(** The server is started, checked and shut down. *)
Definition small_stopped : Process * outcome unit :=
  @shutdown small_json (small_world false) small_starters small_machine small_running.

Lemma small_stops : small_stopped = (small_stopped.1, Ret tt).
Proof.
  assert (E : small_stopped.2 = Ret tt) by (vm_compute; reflexivity).
  rewrite <- E. apply surjective_pairing.
Qed.

Lemma server_run_releases_witness :
  length (ended_managers small_stopped.1) = 1%nat /\ length (ended_gates small_stopped.1) = 1%nat /\
  released small_stopped.1.
Proof.
  split; [vm_compute; reflexivity|]. split; [vm_compute; reflexivity|].
  refine (@server_run_releases small_json (small_yaml small_doc) no_plugins no_files (small_world false)
            small_starters small_machine ["--check-config"] small_stopped.1 0 _ _); [|discriminate].
  refine (@run_served small_json (small_yaml small_doc) no_plugins no_files (small_world false)
            small_starters small_machine ["--check-config"] small_running small_running small_stopped.1 _ _ _ _ small_stops);
    [vm_compute; reflexivity|vm_compute; reflexivity|exact small_started|vm_compute; reflexivity].
Defined.

(** A required actor whose script does not load ends the start, and the services
    started before it. *)
Example small_fails :
  let '(p, r) := small_start (runtime_doc [world_actor; gateway_actor]) true in
  r = Ret false /\ g_state p = None /\
  map (fun st => (size (services (registry st)), length (log st))) (ended_managers p) = [(0%nat, 8%nat)].
Proof. vm_compute. repeat split. Qed.

(** ** What goes wrong *)

(** An exception leaves everything as it is: options that cannot be printed make
    [runtime_actors] throw once the actor system runs. *)
Example throwing_start_cleans_nothing :
  let actor := dict [("name", text_node "world"); ("script", text_node "world.lua");
                     ("options", YMap [(YSequence [], YNull)])] in
  let '(p, r) := small_start (runtime_doc [actor]) false in
  (exists e, r = Throw e) /\ (caf <$> g_state p) = Some true /\ ended_managers p = [].
Proof. vm_compute. split; [by eexists|done]. Qed.

(** The result of a starter is not looked at. *)
Example failed_starters_ignored :
  (@initialize small_json (small_yaml small_doc) no_plugins no_files (small_world false)
     {| execute := fun _ _ _ => Ret false |} small_machine (boot_config cli_default) process_make).2 = Ret true.
Proof. vm_compute. reflexivity. Qed.

(** Without a gateway no thread serves the console. *)
Example console_not_served :
  let doc := dict [("app", dict [("name", text_node "game")]); ("lua", dict [("script_path", text_node "scripts")]);
                   ("console", dict [("enabled", text_node "true")]); ("actors", YSequence [world_actor])] in
  let '(p, r) := small_start doc false in
  r = Ret true /\ (net_threads <$> g_state p) = Some 0 /\
  (g_state p ≫= console_socket) = Some "/tmp/shield-console.sock".
Proof. vm_compute. repeat split. Qed.

(** Options after [--help] are not read, and the last value of an option counts. *)
Example cli_reads :
  parse_cli false ["-c"; "a.yaml"; "--workers"; "2"; "-c"; "b.yaml"; "--workers"; "4"; "--help"; "--bad"] =
  mkCli ["a.yaml"; "b.yaml"] "info" 4 true false false None None.
Proof. vm_compute. reflexivity. Qed.
