(* ===== verification/Console.v ===== *)
(** * Console: the diagnostic console (src/console, src/net/console_session.cpp)

    A session's lines, the dispatcher, the root commands and the Lua commands,
    over the components they look at.  The handlers are those of living command
    objects. *)

From S2P Require Import Prelude Text Json Config PluginHost Cluster ServiceState Services ServiceDemo Bootstrap.

(** ** Sessions *)

(** [ConsoleSession]: the service it is attached to, the input that is not yet
    complete, and the lines sent. *)
Record ConsoleSession := mkConsole {
  attached_service : string;
  multiline_buf : string;
  sent : list string
}.

Definition console_make : ConsoleSession := mkConsole "" "" [].

Definition set_attached_service (v : string) (s : ConsoleSession) : ConsoleSession :=
  mkConsole v (multiline_buf s) (sent s).
Definition append_multiline (v : string) (s : ConsoleSession) : ConsoleSession :=
  mkConsole (attached_service s) (multiline_buf s +:+ v) (sent s).
Definition clear_multiline (s : ConsoleSession) : ConsoleSession := mkConsole (attached_service s) "" (sent s).
Definition send_line (v : string) (s : ConsoleSession) : ConsoleSession :=
  mkConsole (attached_service s) (multiline_buf s) (sent s ++ [v]).
Definition is_attached (s : ConsoleSession) : bool := negb (str_empty (attached_service s)).

(** The completed reads: a line ends at a newline, and one carriage return
    before it is dropped; the rest stays in the buffer. *)
Definition strip_cr (s : string) : string :=
  let n := (String.length s - 1)%nat in
  if negb (str_empty s) && String.eqb (String.substring n 1 s) (String "013" "") then String.substring 0 n s else s.

Fixpoint read_lines (s line : string) : list string * string :=
  match s with
  | EmptyString => ([], line)
  | String c s =>
      if Ascii.eqb c "010" then let '(l, rest) := read_lines s "" in (strip_cr line :: l, rest)
      else read_lines s (line +:+ String c "")
  end.

(** The chunks of a connection. *)
Fixpoint read_chunks (chunks : list string) (line : string) : list string * string :=
  match chunks with
  | [] => ([], line)
  | c :: chunks =>
      let '(l, line) := read_lines c line in
      let '(l', line) := read_chunks chunks line in (l ++ l', line)
  end.

(** ** What the commands look at *)

Record Backend := mkBackend {
  bk_services : ServiceState.State;
  bk_host : Host;
  bk_config : Config;
  bk_cluster : option ClusterManager;
  bk_level : Level
}.

Definition set_bk_services (st : ServiceState.State) (b : Backend) : Backend :=
  mkBackend st (bk_host b) (bk_config b) (bk_cluster b) (bk_level b).
Definition set_bk_level (l : Level) (b : Backend) : Backend :=
  mkBackend (bk_services b) (bk_host b) (bk_config b) (bk_cluster b) l.

(** The first command is found by the name; a handler answers. *)
Definition handled : Type := outcome (ConsoleSession * Backend).

Section Console.
Context `{JsonLib} `{LuaWorld} `{Machine}.
(** What [luaL_loadbuffer] says about a text, and the VM of [eval]. *)
Context (syntax_error : string -> option string) (eval_vm : LuaVM).

(** [send_line(resp.dump())] *)
Definition respond (members : list (string * json)) (s : ConsoleSession) (b : Backend) : handled :=
  let! text := of_sum (json_dump (JObj members)) in Ret (send_line text s, b).

Definition result (data : json) : list (string * json) := [("data", data); ("type", JStr "result")].
Definition error_ (message : string) : list (string * json) := [("message", JStr message); ("type", JStr "error")].

(** A task for the worker, and the wait for its promise: a task without a number
    was not queued, and the promise is never kept. *)
Definition ask {A} (task : ServiceState.State -> A * ServiceState.State) (b : Backend) : option A * Backend :=
  let '(id, st) := enqueue_forked_task "" (NativeFn None) (bk_services b) in
  if id =? 0 then (None, set_bk_services st b)
  else let '(a, st) := task st in (Some a, set_bk_services st b).

Definition strings (l : list string) : json := JArr (map JStr l).

(** ** Root commands *)

Definition command_list : list (string * string) :=
  [("help", "List all available commands"); ("root.status", "Overview of services, plugins, cluster");
   ("root.services", "List all Lua services"); ("root.service", "Show details for a specific service");
   ("root.plugins", "List all plugin packages and instances");
   ("root.plugin", "Show details for a specific plugin"); ("root.config", "Show config (root.config [key])");
   ("root.cluster", "Show cluster node status");
   ("root.log.level", "Get or set log level (root.log.level [debug|info|warn|error])");
   ("attach", "Enter interactive Lua REPL for a service (attach <service>)");
   ("eval", "Execute Lua code in a sandbox (eval <code>)")].

Definition cmd_help (s : ConsoleSession) (b : Backend) : handled :=
  let lines := map (fun c => c.1 +:+ "  - " +:+ c.2) command_list ++
    ["attach <service>  - Enter interactive Lua REPL for a service";
     "detach            - Exit Lua REPL back to command mode";
     "eval <code>       - Execute Lua code in a sandbox";
     "exit / quit       - Disconnect"] in
  respond [("lines", strings lines); ("type", JStr "result")] s b.

Definition instance_json (i : InstanceInfo) : json :=
  JObj [("id", JStr (info_id i)); ("package", JStr (info_package i)); ("required", JBool (info_required i));
        ("state", JStr (info_state i))].

(** The nodes of an unordered map, in the order of this one. *)
Definition cluster_json (heartbeat : bool) (m : ClusterManager) : json :=
  let node (n : NodeInfo) :=
    JObj ([("address", JStr (nd_address n)); ("epoch", JUInt (nd_epoch n))] ++
          (if heartbeat then [("last_heartbeat_ms", JInt (last_heartbeat_ms n))] else []) ++
          [("node_id", JStr (nd_node_id n)); ("state", JStr (node_state_name (nd_state n)))]) in
  JObj [("node_epoch", JUInt (node_epoch m)); ("node_id", JStr (cl_node_id (cl_config m)));
        ("nodes", JArr (map node (map_to_list (cl_nodes m)).*2))].

Definition ask_services : Backend -> option json * Backend :=
  ask (fun st => (strings (list_services st), st)).

Definition cmd_status (s : ConsoleSession) (b : Backend) : handled :=
  let '(names, b) := ask_services b in
  let cluster := match bk_cluster b with
                 | Some m => if cluster_enabled then [("cluster", cluster_json false m)] else []
                 | None => []
                 end in
  respond (result (JObj (cluster ++ [("plugins", JArr (map instance_json (list_instances (bk_host b))));
                                     ("services", default (JStr "timeout") names)]))) s b.

Definition cmd_services (s : ConsoleSession) (b : Backend) : handled :=
  let '(names, b) := ask_services b in
  respond (match names with Some l => result l | None => error_ "timeout querying services" end) s b.

Definition cmd_service (args : list string) (s : ConsoleSession) (b : Backend) : handled :=
  match args with
  | [] => respond (error_ "Usage: root.service <name>") s b
  | name :: _ =>
      let '(data, b) := ask (fun st =>
        let id := query_service name st in
        (JObj (("exists", JBool (negb (str_empty id))) ::
               (if str_empty id then [] else [("id", JStr id)]) ++ [("name", JStr name)]), st)) b in
      respond (match data with Some d => result d | None => error_ "timeout querying service" end) s b
  end.

Definition package_json (p : PackageInfo) : json :=
  JObj [("id", JStr (pinfo_id p)); ("kind", JStr (pinfo_kind p)); ("provides", strings (pinfo_provides p));
        ("version", JStr (pinfo_version p))].

Definition cmd_plugins (s : ConsoleSession) (b : Backend) : handled :=
  respond (result (JObj [("instances", JArr (map instance_json (list_instances (bk_host b))));
                         ("packages", JArr (map package_json (list_packages (bk_host b))))])) s b.

Definition cmd_plugin (args : list string) (s : ConsoleSession) (b : Backend) : handled :=
  match args with
  | [] => respond (error_ "Usage: root.plugin <id>") s b
  | name :: _ =>
      match find_instance name (instances (bk_host b)) with
      | None => respond (error_ ("Plugin instance not found: " +:+ name)) s b
      | Some i =>
          respond (result (JObj
            [("dependencies", strings (dep_ids i)); ("id", JStr (id i)); ("last_error", JStr (last_error i));
             ("package", JStr (match package i with Some p => Manifest.manifest_id (manifest p) | None => "" end));
             ("state", JStr (state_name (state i)))])) s b
      end
  end.

Definition config_json (v : StorageValue) : json :=
  match v with SArray l => strings l | _ => default JNull (scalar_json v) end.

Definition cmd_config (args : list string) (s : ConsoleSession) (b : Backend) : handled :=
  match args with
  | [] =>
      let! text := of_sum (to_json (bk_config b)) in
      let! data := of_sum (json_parse (bytes_of text)) in
      respond (result data) s b
  | key :: _ =>
      if negb (has (bk_config b) key) then respond (error_ ("Config key not found: " +:+ key)) s b
      else match get_value (bk_config b) key with
           | None => respond (error_ ("Config key has no value: " +:+ key)) s b
           | Some v => respond (result (config_json v)) s b
           end
  end.

Definition cmd_cluster (s : ConsoleSession) (b : Backend) : handled :=
  if cluster_enabled then
    match bk_cluster b with
    | None => respond (error_ "Cluster not enabled") s b
    | Some m => respond (result (cluster_json true m)) s b
    end
  else respond (error_ "Cluster not compiled") s b.

Definition console_level (v : string) : option Level :=
  if String.eqb v "debug" then Some Debug else if String.eqb v "info" then Some Info
  else if str_in v ["warn"; "warning"] then Some Warning
  else if String.eqb v "error" then Some Error else None.

Definition cmd_log_level (args : list string) (s : ConsoleSession) (b : Backend) : handled :=
  match args with
  | [] => respond (result (JStr "Use: root.log.level [debug|info|warn|error]")) s b
  | v :: _ =>
      match console_level v with
      | None => respond (error_ "Invalid level. Use: debug, info, warn, error") s b
      | Some l => respond (result (JStr ("Log level set to " +:+ v))) s (set_bk_level l b)
      end
  end.

(** ** Lua commands *)

(** The values of a chunk; without values the result stays null. *)
Definition exec_data (values : list json) : json := match values with [] => JNull | _ => JArr values end.

Definition result_data (data : json) : json :=
  match data with JArr [] => JNull | JArr [v] => v | _ => data end.

Definition exec_response (r : option (string + list json)) : list (string * json) :=
  match r with
  | None => error_ "execution timeout (5s)"
  | Some (inr values) => result (result_data (exec_data values))
  | Some (inl e) => error_ e
  end.

Definition cmd_attach (args : list string) (s : ConsoleSession) (b : Backend) : handled :=
  match args with
  | [] => respond (error_ "Usage: attach <service>") s b
  | name :: _ =>
      let '(found, b) := ask (fun st => (negb (str_empty (query_service name st)), st)) b in
      match found with
      | None => respond (error_ "timeout verifying service") s b
      | Some false => respond (error_ ("Service not found: " +:+ name)) s b
      | Some true =>
          respond [("service", JStr name); ("type", JStr "attached")]
            (clear_multiline (set_attached_service name s)) b
      end
  end.

(** Whether the code was complete; a syntax error at the end of the text asks
    for more. *)
Definition try_execute (service code : string) (s : ConsoleSession) (b : Backend)
  : outcome (bool * (ConsoleSession * Backend)) :=
  match syntax_error code with
  | Some message =>
      if str_contains "<eof>" message || str_contains "eof" message then Ret (false, (s, b))
      else let! r := respond (error_ message) s b in Ret (true, r)
  | None =>
      let '(r, b) := ask (exec_lua (run depth) service code) b in
      let! r := respond (exec_response r) s b in Ret (true, r)
  end.

Definition handle_lua_line (line : string) (s : ConsoleSession) (b : Backend) : handled :=
  let service := attached_service s in
  let more (s : ConsoleSession) (b : Backend) := respond [("type", JStr "continue")] s b in
  if negb (str_empty (multiline_buf s)) then
    let s := append_multiline (String "010" line) s in
    let! r := try_execute service (multiline_buf s) s b in
    let '(complete, (s, b)) := r in
    if complete : bool then Ret (clear_multiline s, b) else more s b
  else
    let! r := try_execute service line s b in
    let '(complete, (s, b)) := r in
    if complete : bool then Ret (s, b) else more (append_multiline line s) b.

Definition cmd_eval (args : list string) (s : ConsoleSession) (b : Backend) : handled :=
  match args with
  | [] => respond (error_ "Usage: eval <lua code>") s b
  | _ =>
      let '(r, b) := ask (exec_lua_vm (run depth) eval_vm (String.concat " " args)) b in
      respond (exec_response r) s b
  end.

(** ** The dispatcher *)

Definition is_blank_char (c : Ascii.ascii) : bool := str_in (String c "") [" "; String "009" ""; String "013" ""].

Fixpoint drop_blank (s : string) : string :=
  match s with
  | EmptyString => ""
  | String c r => if is_blank_char c then drop_blank r else s
  end.
Fixpoint chop_blank (s : string) : string :=
  match s with
  | EmptyString => ""
  | String c r => let r := chop_blank r in if is_blank_char c && str_empty r then "" else String c r
  end.

(** The words that [>>] reads: a word ends at a space of the C locale. *)
Definition is_space (c : Ascii.ascii) : bool :=
  let n := Z.of_N (Ascii.N_of_ascii c) in (n =? 32) || ((9 <=? n) && (n <=? 13)).

Fixpoint words (s current : string) : list string :=
  match s with
  | EmptyString => if str_empty current then [] else [current]
  | String c s =>
      if is_space c then (if str_empty current then words s "" else current :: words s "")
      else words s (current +:+ String c "")
  end.

Definition run_command (cmd : string) (args : list string) (s : ConsoleSession) (b : Backend) : handled :=
  if String.eqb cmd "help" then cmd_help s b
  else if String.eqb cmd "root.status" then cmd_status s b
  else if String.eqb cmd "root.services" then cmd_services s b
  else if String.eqb cmd "root.service" then cmd_service args s b
  else if String.eqb cmd "root.plugins" then cmd_plugins s b
  else if String.eqb cmd "root.plugin" then cmd_plugin args s b
  else if String.eqb cmd "root.config" then cmd_config args s b
  else if String.eqb cmd "root.cluster" then cmd_cluster s b
  else if String.eqb cmd "root.log.level" then cmd_log_level args s b
  else if String.eqb cmd "attach" then cmd_attach args s b
  else if String.eqb cmd "eval" then cmd_eval args s b
  else respond (error_ ("Unknown command: " +:+ cmd +:+ ". Type 'help' for available commands.")) s b.

Definition dispatch (line : string) (s : ConsoleSession) (b : Backend) : handled :=
  let trimmed := chop_blank (drop_blank line) in
  if str_empty trimmed then Ret (s, b)
  else if is_attached s then
    if str_in trimmed ["detach"; "exit"]
    then respond [("type", JStr "detached")] (clear_multiline (set_attached_service "" s)) b
    else handle_lua_line trimmed s b
  else match words trimmed "" with
       | [] => run_command "" [] s b
       | cmd :: args => run_command cmd args s b
       end.

(** The lines of a session, one after the other. *)
Fixpoint converse (lines : list string) (s : ConsoleSession) (b : Backend) : handled :=
  match lines with
  | [] => Ret (s, b)
  | line :: lines => let! r := dispatch line s b in converse lines r.1 r.2
  end.

(** ** Lemmas *)

Lemma ask_none {A} (task : ServiceState.State -> A * ServiceState.State) b : ask task b = (None, b).
Proof. by destruct b. Qed.

(** A command answers once and changes nothing but the level. *)
Definition answers (s : ConsoleSession) (b : Backend) (h : handled) : Prop :=
  forall s' b', h = Ret (s', b') ->
  attached_service s' = attached_service s /\ multiline_buf s' = multiline_buf s /\
  length (sent s') = S (length (sent s)) /\ exists l, b' = set_bk_level l b.

Lemma respond_answers members s b l : answers s b (respond members s (set_bk_level l b)).
Proof.
  intros s' b' (text & _ & E)%obind_ret_inv. injection E as <- <-. cbn. rewrite length_app. cbn.
  split_and!; [done..|lia|by exists l].
Qed.

Lemma respond_answers_same members s b : answers s b (respond members s b).
Proof. pose proof (respond_answers members s b (bk_level b)) as E. by destruct b. Qed.

Lemma guarded_answers {A} (m : outcome A) k s b :
  (forall a, answers s b (k a)) -> answers s b (obind m k).
Proof. intros Hk s' b' (a & _ & E)%obind_ret_inv. by eapply Hk. Qed.

(** Every branch of a command responds once. *)
Ltac one_answer :=
  repeat match goal with
  | |- answers _ _ (match ask _ _ with _ => _ end) => rewrite ask_none
  | |- answers _ _ (respond _ _ _) => first [apply respond_answers_same | apply respond_answers]
  | |- answers _ _ (obind _ _) => apply guarded_answers; intros ?
  | |- answers _ _ (match ?x with _ => _ end) => destruct x
  end; try done.

Lemma run_command_answers cmd args s b : answers s b (run_command cmd args s b).
Proof.
  unfold run_command.
  repeat match goal with |- answers _ _ (if String.eqb cmd ?c then _ else _) => destruct (String.eqb cmd c) end;
    unfold cmd_help, cmd_status, cmd_services, cmd_service, cmd_plugins, cmd_plugin, cmd_config, cmd_cluster,
      cmd_log_level, cmd_attach, cmd_eval, ask_services; one_answer.
Qed.

(** Lines that are not blank. *)
Definition spoken (line : string) : bool := negb (str_empty (chop_blank (drop_blank line))).

Lemma dispatch_answers line s b s' b' :
  attached_service s = "" -> dispatch line s b = Ret (s', b') ->
  attached_service s' = "" /\ multiline_buf s' = multiline_buf s /\
  length (sent s') = (length (sent s) + (if spoken line then 1 else 0))%nat /\ exists l, b' = set_bk_level l b.
Proof.
  intros Ha. unfold dispatch, spoken. destruct (str_empty _); cbn [negb].
  - intros [= <- <-]. split_and!; [done|done|lia|]. exists (bk_level b). by destruct b.
  - unfold is_attached. rewrite Ha. cbn [str_empty negb].
    assert (Hc : forall cmd args, run_command cmd args s b = Ret (s', b') ->
      attached_service s' = "" /\ multiline_buf s' = multiline_buf s /\
      length (sent s') = (length (sent s) + 1)%nat /\ exists l, b' = set_bk_level l b).
    { intros cmd args E. destruct (run_command_answers cmd args s b s' b' E) as (E1 & E2 & E3 & E4).
      split_and!; [congruence|done|lia|done]. }
    destruct (words _ _); apply Hc.
Qed.

Lemma converse_answers lines s b s' b' :
  attached_service s = "" -> converse lines s b = Ret (s', b') ->
  attached_service s' = "" /\ multiline_buf s' = multiline_buf s /\
  length (sent s') = (length (sent s) + length (List.filter spoken lines))%nat /\ exists l, b' = set_bk_level l b.
Proof.
  revert s b. induction lines as [|line lines IH]; intros s b Ha; cbn [converse].
  - intros [= <- <-]. split_and!; [done|done|cbn; lia|]. exists (bk_level b). by destruct b.
  - intros ([s1 b1] & E1 & E)%obind_ret_inv. apply dispatch_answers in E1 as (A1 & A2 & A3 & [l ->]); [|done].
    apply (IH _ _ A1) in E as (B1 & B2 & B3 & [l' ->]). cbn [List.filter].
    split_and!; [done|congruence| |by exists l']. destruct (spoken line); cbn [length]; lia.
Qed.

Lemma read_lines_app a b line :
  read_lines (a +:+ b) line =
  (let '(l, rest) := read_lines a line in let '(l', rest) := read_lines b rest in (l ++ l', rest)).
Proof.
  revert line. induction a as [|c a IH]; intros line.
  - change ("" +:+ b) with b. cbn [read_lines]. by destruct (read_lines b line).
  - change (String c a +:+ b) with (String c (a +:+ b)). cbn [read_lines].
    destruct (Ascii.eqb c "010"); [|apply IH]. rewrite IH.
    destruct (read_lines a "") as [l rest], (read_lines b rest) as [l' rest']. done.
Qed.

Lemma read_chunks_concat chunks line : read_chunks chunks line = read_lines (foldr String.append "" chunks) line.
Proof.
  revert line. induction chunks as [|c chunks IH]; intros line; cbn [read_chunks foldr]; [done|].
  rewrite (read_lines_app c). destruct (read_lines c line) as [l rest]. by rewrite IH.
Qed.

(** ** Properties *)

(** The console only observes.  However the input of a connection is cut
    into chunks, its lines are those of the whole; every line that is not blank
    is answered once; and after any conversation the services, plugins,
    configuration and cluster are as before, only the log level may have changed,
    and the session is not attached to a service. *)
Theorem console_only_observes chunks b s b' :
  converse (read_chunks chunks "").1 console_make b = Ret (s, b') ->
  read_chunks chunks "" = read_lines (foldr String.append "" chunks) "" /\
  length (sent s) = length (List.filter spoken (read_lines (foldr String.append "" chunks) "").1) /\
  attached_service s = "" /\ multiline_buf s = "" /\
  bk_services b' = bk_services b /\ bk_host b' = bk_host b /\ bk_config b' = bk_config b /\
  bk_cluster b' = bk_cluster b.
Proof.
  rewrite !read_chunks_concat. intros (E1 & E2 & E3 & [l ->])%converse_answers; [|done]. by split_and!.
Qed.
End Console.

(** ** A conversation

    Responses are printed as their message, or as their type. *)

#[local] Instance console_json : JsonLib := {
  json_parse := fun _ => inr JNull;
  json_dump := fun j => match get "message" j, get "type" j with
                        | Some (JStr m), _ => inr m | _, Some (JStr t) => inr t | _, _ => inr "" end;
  json_error := fun _ _ _ => "type error"
}.

#[local] Instance console_machine : Machine := {|
  platform := Manifest.OtherPlatform; starters := []; cluster_enabled := false; read_file := fun _ => None;
  exists_ := fun _ => false; port_free := fun _ _ => true;
  codec_table := fun _ => Codec.mkVtable None None None false false; new_epoch := 0; clock_ := fun _ => 0; depth := 3
|}.

(** Two services are running. *)
Definition observed : Backend := mkBackend (after start) host_make config_make None Info.

Definition talk (chunks : list string) : handled :=
  @converse console_json demo_world console_machine (fun _ => None) echo_vm (read_chunks chunks "").1
    console_make observed.

Definition newline : string := String "010" "".

Lemma console_only_observes_witness :
  exists s b, talk ["root.log.le"; "vel debug" +:+ newline +:+ " " +:+ newline; "he"; "lp" +:+ newline] = Ret (s, b) /\
    sent s = ["result"; "result"] /\ bk_level b = Debug /\ bk_services b = bk_services observed.
Proof.
  assert (E : exists s b, talk ["root.log.le"; "vel debug" +:+ newline +:+ " " +:+ newline; "he"; "lp" +:+ newline] =
    Ret (s, b) /\ sent s = ["result"; "result"] /\ bk_level b = Debug) by (vm_compute; eauto).
  destruct E as (s & b & E & Es & El). exists s, b. split; [exact E|]. split; [exact Es|]. split; [exact El|].
  unfold talk in E.
  destruct (@console_only_observes console_json demo_world console_machine (fun _ => None) echo_vm _ _ _ _ E)
    as (_ & _ & _ & _ & Hs & _). exact Hs.
Defined.

(** ** What goes wrong *)

(** Tasks for no service are not queued: every question about a service times
    out, although the service is running, and no session is ever attached. *)
Example service_commands_time_out :
  (let! r := talk ["root.services" +:+ newline; "root.service echo" +:+ newline; "attach echo" +:+ newline;
                   "eval return 1" +:+ newline] in Ret (sent r.1)) =
  Ret ["timeout querying services"; "timeout querying service"; "timeout verifying service";
       "execution timeout (5s)"] /\
  query_service "echo" (bk_services observed) = "echo".
Proof. vm_compute. split; reflexivity. Qed.

(** The help names commands that do not exist. *)
Example exit_is_unknown :
  (let! r := talk ["exit" +:+ newline; "quit" +:+ newline; "detach" +:+ newline] in Ret (sent r.1)) =
  Ret ["Unknown command: exit. Type 'help' for available commands.";
       "Unknown command: quit. Type 'help' for available commands.";
       "Unknown command: detach. Type 'help' for available commands."].
Proof. vm_compute. reflexivity. Qed.

(** An error message that mentions eof in a name asks for more input. *)
Example typo_waits_forever :
  let syntax := fun _ : string => Some "unexpected symbol near 'geofence'" in
  let s := mkConsole "echo" "" [] in
  (let! r := @dispatch console_json demo_world console_machine syntax echo_vm "x = = geofence" s observed in
   Ret (sent r.1, multiline_buf r.1)) = Ret (["continue"], "x = = geofence").
Proof. vm_compute. reflexivity. Qed.
