(* ===== verification/MiniJson.v ===== *)
(** * MiniJson: the small JSON helpers of the plugins

    The authentication, health and metrics plugins carry the same hand-written
    functions that escape texts and pull single members out of a JSON text
    (plugins/auth_jwt, plugins/health_http, plugins/metric_prometheus); the
    matchmaking plugin has a variant with [std::stoi].  A position in a text is
    the text from there on. *)

From S2P Require Import Prelude Text.

(** The characters that cannot be written in the literals below. *)
Abbreviation dq := "034"%char.
Abbreviation backslash := "\"%char.
Definition in_quotes (s : string) : string := String dq (s +:+ String dq "").

(** What follows [needle] at the start of [s]. *)
Fixpoint strip (needle s : string) : option string :=
  match needle, s with
  | EmptyString, _ => Some s
  | String a needle, String b s => if Ascii.eqb a b then strip needle s else None
  | String _ _, EmptyString => None
  end.

(** [s.find(needle)]: what follows the first occurrence. *)
Fixpoint after (needle s : string) : option string :=
  match strip needle s with
  | Some r => Some r
  | None => match s with String _ s => after needle s | EmptyString => None end
  end.

(** The blanks that are skipped before a value. *)
Definition blank (c : Ascii.ascii) : bool := Ascii.eqb c " " || Ascii.eqb c "009".

(** The text behind the colon of the member [key]. *)
Definition member (j key : string) : option string :=
  match after (in_quotes key) j with
  | None => None
  | Some r => match split_at ":" r with Some (_, r) => Some (skip blank r) | None => None end
  end.

(** The characters of a string up to its closing quote: a backslash stands for
    the character that follows it. *)
Fixpoint unquote (s : string) : string :=
  match s with
  | EmptyString => ""
  | String c r =>
      if Ascii.eqb c dq then ""
      else if Ascii.eqb c backslash then
        match r with
        | EmptyString => String c ""
        | String d r => String d (unquote r)
        end
      else String c (unquote r)
  end.

Definition json_get_string (j key : string) : string :=
  match member j key with
  | Some (String c r) => if Ascii.eqb c dq then unquote r else ""
  | _ => ""
  end.

Definition is_digit (c : Ascii.ascii) : bool := between "0" "9" c.
Definition digit_of (c : Ascii.ascii) : Z := Z.of_N (Ascii.N_of_ascii c) - 48.

(** The digits of a number of an integer type whose largest value is [hi];
    arithmetic beyond it is undefined. *)
Fixpoint read_digits (hi v : Z) (any : bool) (s : string) : outcome (option Z) :=
  match s with
  | String c r =>
      if is_digit c
      then let v := v * 10 + digit_of c in if v <=? hi then read_digits hi v true r else Undef
      else Ret (if any then Some v else None)
  | EmptyString => Ret (if any then Some v else None)
  end.

Definition json_int (hi : Z) (j key : string) (def : Z) : outcome Z :=
  match member j key with
  | None => Ret def
  | Some r =>
      let neg := match r with String c _ => Ascii.eqb c "-" | EmptyString => false end in
      let r := match r with String _ r' => if neg then r' else r | EmptyString => r end in
      let! v := read_digits hi 0 false r in
      Ret (match v with Some v => if neg then - v else v | None => def end)
  end.

(** ** Escaping *)

Definition hex_digit (d : Z) : Ascii.ascii :=
  Ascii.ascii_of_N (Z.to_N (if d <? 10 then 48 + d else 87 + d)).

(** The characters that have a short escape, and the letter of it; the health
    plugin leaves out [b] and [f]. *)
Definition short_escapes : list (Ascii.ascii * Ascii.ascii) :=
  [(dq, dq); (backslash, backslash); ("008", "b"); ("012", "f"); ("010", "n"); ("013", "r"); ("009", "t")]%char.

Fixpoint escape_letter (l : list (Ascii.ascii * Ascii.ascii)) (c : Ascii.ascii) : option Ascii.ascii :=
  match l with
  | [] => None
  | (a, e) :: l => if Ascii.eqb a c then Some e else escape_letter l c
  end.

Definition escape_char (short : list (Ascii.ascii * Ascii.ascii)) (c : Ascii.ascii) : string :=
  match escape_letter short c with
  | Some e => String backslash (String e "")
  | None =>
      let n := Z.of_N (Ascii.N_of_ascii c) in
      if n <? 32 then "\u00" +:+ String (hex_digit (n / 16)) (String (hex_digit (n `mod` 16)) "")
      else String c ""
  end.

Fixpoint escape_with (short : list (Ascii.ascii * Ascii.ascii)) (s : string) : string :=
  match s with EmptyString => "" | String c s => escape_char short c +:+ escape_with short s end.

Definition json_escape : string -> string := escape_with short_escapes.

(** ** Lemmas *)

(** Control characters have no escape that [unquote] understands. *)
Definition printing (c : Ascii.ascii) : bool := 32 <=? Z.of_N (Ascii.N_of_ascii c).

(** How a character other than a control character is escaped. *)
Lemma escape_char_cases c : printing c = true ->
  (c = dq \/ c = backslash) /\ escape_char short_escapes c = String backslash (String c "") \/
  c <> dq /\ c <> backslash /\ escape_char short_escapes c = String c "".
Proof.
  destruct c as [[] [] [] [] [] [] [] []]; intros Hp;
    first [discriminate Hp | left; split; [by (left + right)|reflexivity]
          | right; split_and!; [discriminate|discriminate|reflexivity]].
Qed.

(** No escape starts with a quote, and quotes follow a backslash. *)
Lemma escape_char_quote c :
  escape_char short_escapes c = String backslash (String dq "") /\ c = dq \/
  str_all (fun d => negb (Ascii.eqb d dq)) (escape_char short_escapes c) = true /\
  escape_char short_escapes c <> "".
Proof.
  destruct c as [[] [] [] [] [] [] [] []];
    first [left; split; reflexivity | right; split; [reflexivity|discriminate]].
Qed.

Lemma unquote_escape u rest :
  str_all printing u = true -> unquote (json_escape u +:+ String dq rest) = u.
Proof.
  induction u as [|c u IH]; [done|]. cbn [str_all]. intros [Hc Hu]%andb_true_iff.
  change (json_escape (String c u)) with (escape_char short_escapes c +:+ json_escape u).
  destruct (escape_char_cases c Hc) as [[Hcc ->]|(H1 & H2 & ->)].
  - change (unquote (String backslash (String c (json_escape u +:+ String dq rest))) = String c u).
    cbn [unquote]. change (Ascii.eqb backslash dq) with false. cbn. by rewrite IH.
  - change (unquote (String c (json_escape u +:+ String dq rest)) = String c u). cbn [unquote].
    destruct (Ascii.eqb_spec c dq); [done|]. destruct (Ascii.eqb_spec c backslash); [done|]. by rewrite IH.
Qed.

Lemma after_skip needle c s : strip needle (String c s) = None -> after needle (String c s) = after needle s.
Proof. intros E. cbn [after]. by rewrite E. Qed.

Lemma after_skip_all k p s :
  str_all (fun d => negb (Ascii.eqb d dq)) p = true -> after (String dq k) (p +:+ s) = after (String dq k) s.
Proof.
  induction p as [|c p IH]; [done|]. cbn [str_all]. intros [Hc Hp]%andb_true_iff.
  change (String c p +:+ s) with (String c (p +:+ s)). rewrite after_skip; [by apply IH|].
  cbn [strip]. rewrite (Ascii.eqb_sym dq c). by destruct (Ascii.eqb c dq).
Qed.

(** A key is a text without quotes, backslashes and control characters. *)
Definition key_char (c : Ascii.ascii) : bool := printing c && negb (Ascii.eqb c dq) && negb (Ascii.eqb c backslash).

(** An escaped text is taken for the key only when it is the key. *)
Lemma strip_escape k u rest :
  str_all key_char k = true -> u <> k ->
  strip (k +:+ String dq "") (json_escape u +:+ String dq rest) = None.
Proof.
  revert u. induction k as [|a k IH]; intros u Hk Hne.
  - destruct u as [|c u]; [done|]. change ("" +:+ String dq "") with (String dq "").
    change (json_escape (String c u)) with (escape_char short_escapes c +:+ json_escape u).
    destruct (escape_char_quote c) as [[-> ->]|[Hq Hn]]; [done|].
    destruct (escape_char short_escapes c) as [|d r]; [done|]. cbn [str_all] in Hq.
    change ((String d r +:+ json_escape u) +:+ String dq rest)
      with (String d ((r +:+ json_escape u) +:+ String dq rest)).
    cbn [strip]. rewrite Ascii.eqb_sym. by destruct (Ascii.eqb d dq).
  - cbn [str_all] in Hk. unfold key_char in Hk at 1. bools.
    assert (Ha1 : a <> dq) by (intros ->; done). assert (Ha2 : a <> backslash) by (intros ->; done).
    change (String a k +:+ String dq "") with (String a (k +:+ String dq "")).
    destruct u as [|c u].
    { change (json_escape "" +:+ String dq rest) with (String dq rest). cbn [strip].
      by destruct (Ascii.eqb_spec a dq). }
    change (json_escape (String c u)) with (escape_char short_escapes c +:+ json_escape u).
    rewrite <-app_assoc_str. destruct (printing c) eqn:Hp.
    + destruct (escape_char_cases c Hp) as [[Hcc ->]|(Hq & Hb & ->)]; rewrite str_app_cons; cbn [strip];
        [by destruct (Ascii.eqb_spec a backslash)|].
      destruct (Ascii.eqb_spec a c) as [->|]; [|done]. apply IH; [done|congruence].
    + assert (E : exists r, escape_char short_escapes c = String backslash r).
      { destruct c as [[] [] [] [] [] [] [] []]; try discriminate Hp; by eexists. }
      destruct E as [r ->]. rewrite str_app_cons. cbn [strip]. by destruct (Ascii.eqb_spec a backslash).
Qed.

(** Whether [u] ends in the key behind a quote. *)
Fixpoint hides (k u : string) : bool :=
  match u with
  | EmptyString => false
  | String c r => (Ascii.eqb c dq && String.eqb r k) || hides k r
  end.

(** The search for a key passes over an escaped text. *)
Lemma after_escape k u c rest :
  str_all key_char k = true -> hides k u = false -> strip k (String c rest) = None ->
  after (in_quotes k) (json_escape u +:+ String dq (String c rest)) = after (in_quotes k) (String c rest).
Proof.
  intros Hk Hu Hc. unfold in_quotes. induction u as [|d u IH].
  - change (json_escape "" +:+ String dq (String c rest)) with (String dq (String c rest)).
    apply after_skip. cbn [strip]. change (Ascii.eqb dq dq) with true. cbn iota.
    clear -Hc. revert Hc. generalize (String c rest). induction k as [|a k IH]; intros [|b s]; cbn [strip]; try done.
    rewrite str_app_cons. cbn [strip]. destruct (Ascii.eqb a b); [apply IH|done].
  - cbn [hides] in Hu. apply orb_false_iff in Hu as [Hd Hu].
    change (json_escape (String d u)) with (escape_char short_escapes d +:+ json_escape u).
    rewrite <-app_assoc_str. rewrite <-IH by done.
    destruct (escape_char_quote d) as [[-> ->]|[Hq _]]; [|by apply after_skip_all].
    change (String backslash (String dq "") +:+ ?s) with (String backslash (String dq s)).
    rewrite after_skip by done. apply after_skip. cbn [strip]. change (Ascii.eqb dq dq) with true. cbn iota.
    apply strip_escape; [done|]. intros ->. change (Ascii.eqb dq dq) with true in Hd.
    by rewrite String.eqb_refl in Hd.
Qed.

(** A printed number is read back. *)
Lemma read_digits_printed hi fuel z acc :
  0 <= z < 10 ^ Z.of_nat fuel -> (0 < fuel)%nat -> z <= hi ->
  read_digits hi 0 false (dec_digits fuel z acc) = read_digits hi z true acc.
Proof.
  revert z acc. induction fuel as [|fuel IH]; intros z acc Hz Hf Hh; [lia|].
  cbn [dec_digits]. fold (digit (z `mod` 10)).
  pose proof (Z.mod_pos_bound z 10 ltac:(lia)) as Hm. pose proof (Z.div_mod z 10 ltac:(lia)) as Hdm.
  assert (Hd : is_digit (digit (z `mod` 10)) = true /\ digit_of (digit (z `mod` 10)) = z `mod` 10).
  { revert Hm. generalize (z `mod` 10). intros d Hd.
    assert (Hin : d ∈ [0;1;2;3;4;5;6;7;8;9]) by (rewrite !elem_of_cons; lia).
    repeat (apply elem_of_cons in Hin as [->|Hin]; [done|]). by apply not_elem_of_nil in Hin. }
  destruct Hd as [Hd1 Hd2]. destruct (z / 10 =? 0) eqn:E; bools.
  - cbn [read_digits]. rewrite Hd1, Hd2. replace (0 * 10 + z `mod` 10) with z by lia.
    by destruct (Z.leb_spec z hi); [|lia].
  - rewrite IH.
    + cbn [read_digits]. rewrite Hd1, Hd2. replace (z / 10 * 10 + z `mod` 10) with z by lia.
      by destruct (Z.leb_spec z hi); [|lia].
    + rewrite Nat2Z.inj_succ, Z.pow_succ_r in Hz by lia. lia.
    + destruct fuel; [cbn in Hz; lia|lia].
    + lia.
Qed.

Lemma dec_digits_app fuel z acc rest : dec_digits fuel z acc +:+ rest = dec_digits fuel z (acc +:+ rest).
Proof.
  revert z acc. induction fuel as [|fuel IH]; intros z acc; cbn [dec_digits]; [done|].
  destruct (_ =? 0); [done|]. by rewrite IH.
Qed.

Lemma digit_not_blank d : 0 <= d < 10 -> blank (digit d) = false /\ Ascii.eqb (digit d) "-" = false.
Proof.
  intros Hd. destruct (digit_spec d Hd) as (_ & Hw & _ & _ & Hm & _). split; [|by apply Ascii.eqb_neq].
  unfold blank. apply orb_false_iff. split; apply Ascii.eqb_neq; intros E; by rewrite E in Hw.
Qed.

(** A member that holds a printed number, or an escaped text. *)
Lemma int_member hi j k def z c rest :
  after (in_quotes k) j = Some (String ":" (to_string_i64 z +:+ String c rest)) ->
  0 <= z <= hi -> z < 10 ^ 20 -> is_digit c = false -> json_int hi j k def = Ret z.
Proof.
  intros E Hz Hb Hc. unfold json_int, member. rewrite E. cbn [split_at]. change (Ascii.eqb ":" ":") with true. cbn iota.
  unfold to_string_i64. destruct (Z.ltb_spec z 0); [lia|]. unfold to_string_u64. rewrite dec_digits_app, str_app_nil.
  pose proof (read_digits_printed hi 20 z (String c rest) ltac:(lia) ltac:(lia) ltac:(lia)) as Hr.
  destruct (dec_digits_head 20 z (String c rest) ltac:(lia) ltac:(lia)) as (d & r & Hd & Hd' & _).
  rewrite Hd in Hr |- *. destruct (digit_not_blank d Hd') as [Hd1 Hd2]. cbn [skip]. rewrite Hd1, Hd2, Hr.
  cbn [read_digits]. rewrite Hc. done.
Qed.

Lemma string_member j k u rest :
  after (in_quotes k) j = Some (String ":" (in_quotes (json_escape u) +:+ rest)) ->
  str_all printing u = true -> json_get_string j k = u.
Proof.
  intros E Hu. unfold json_get_string, member. rewrite E. cbn [split_at]. change (Ascii.eqb ":" ":") with true. cbn iota.
  unfold in_quotes. rewrite str_app_cons, <-app_assoc_str. cbn [skip]. change (blank dq) with false. cbn iota.
  change (Ascii.eqb dq dq) with true. cbn iota. by apply unquote_escape.
Qed.

Lemma number_quoteless z : 0 <= z -> str_all (fun d => negb (Ascii.eqb d dq)) (to_string_i64 z) = true.
Proof.
  intros Hz. unfold to_string_i64. destruct (Z.ltb_spec z 0); [lia|]. apply dec_digits_solid; [|done|done].
  intros d Hd. assert (Hn : digit d <> dq); [|by apply negb_true_iff, Ascii.eqb_neq].
  destruct (digit_spec d Hd) as (_ & _ & _ & Ha & _). by intros E; rewrite E in Ha.
Qed.
