(* ===== verification/Auth.v ===== *)
(** * Auth: the JWT plugin (plugins/auth_jwt/shield_auth_jwt.cpp)

    Base64url, the tokens that an instance issues and verifies, the functions of
    its table with the list of revoked tokens, and its configuration.  HMAC is a
    parameter; [None] is a failure of the library.  The readings of the clock are
    arguments, and memory is assumed to be available. *)

From S2P Require Import Prelude Text MiniJson.

#[local] Instance byte_eq_decision : EqDecision byte := Byte.byte_eq_dec.

(** The conversion to [int], and the range of [int64_t]. *)
Definition i32 (z : Z) : Z := (z + 2 ^ 31) `mod` 2 ^ 32 - 2 ^ 31.
Definition i64_max : Z := 2 ^ 63 - 1.
Definition i64_add (a b : Z) : outcome Z :=
  if (- 2 ^ 63 <=? a + b) && (a + b <=? i64_max) then Ret (a + b) else Undef.

(** ** Base64url *)

Definition alphabet : string := "ABCDEFGHIJKLMNOPQRSTUVWXYZabcdefghijklmnopqrstuvwxyz0123456789-_".
Definition table (i : Z) : Ascii.ascii := default "A"%char (String.get (Z.to_nat i) alphabet).

(** [while (valb >= 0)]: [valb] is at most 7, so that two rounds are enough. *)
Fixpoint emit (fuel : nat) (val valb : Z) : string * Z :=
  match fuel with
  | O => ("", valb)
  | S fuel =>
      if 0 <=? valb
      then let '(out, valb') := emit fuel val (valb - 6) in
           (String (table (Z.land (Z.shiftr val valb) 63)) out, valb')
      else ("", valb)
  end.

Fixpoint encode_loop (data : list byte) (val valb : Z) : string :=
  match data with
  | [] =>
      if -6 <? valb
      then String (table (Z.land (Z.shiftr (i32 (Z.shiftl val 8)) (valb + 8)) 63)) "" else ""
  | b :: data =>
      let val := Z.lor (i32 (Z.shiftl val 8)) (byte.unsigned b) in
      let '(out, valb) := emit 2 val (valb + 8) in
      out +:+ encode_loop data val valb
  end.

Definition b64url_encode (data : list byte) : string := encode_loop data 0 (-6).

Definition b64url_val (c : Ascii.ascii) : Z :=
  let n := Z.of_N (Ascii.N_of_ascii c) in
  if between "A" "Z" c then n - 65
  else if between "a" "z" c then n - 97 + 26
  else if between "0" "9" c then n - 48 + 52
  else if Ascii.eqb c "-" then 62
  else if Ascii.eqb c "_" then 63
  else -1.

Fixpoint decode_loop (s : string) (val valb : Z) : list byte :=
  match s with
  | EmptyString => []
  | String c s =>
      let d := b64url_val c in
      if d <? 0 then decode_loop s val valb
      else
        let val := Z.lor (i32 (Z.shiftl val 6)) d in
        let valb := valb + 6 in
        if 0 <=? valb then byte.of_Z (Z.land (Z.shiftr val valb) 255) :: decode_loop s val (valb - 8)
        else decode_loop s val valb
  end.

Definition b64url_decode (s : string) : list byte := decode_loop s 0 (-8).

(** ** Configuration *)

Record auth_config := mkAuthConfig {
  secret : string;
  issuer : string;
  audience : string;
  token_ttl_seconds : Z;
  leeway_seconds : Z
}.

Definition auth_defaults : auth_config := mkAuthConfig "" "" "" 3600 60.

(** [json_get_int] of this plugin: 64 bits, and 0 when there is no number. *)
Definition json_get_int64 (j key : string) : outcome Z := json_int i64_max j key 0.

Definition parse_auth_config (config_json : option string) : outcome auth_config :=
  match config_json with
  | None => Ret auth_defaults
  | Some s =>
      let get_int (key : string) (def : Z) : outcome Z :=
        let! v := json_get_int64 s key in Ret (if v =? 0 then def else i32 v) in
      let! ttl := get_int "token_ttl_seconds" (token_ttl_seconds auth_defaults) in
      let! leeway := get_int "leeway_seconds" (leeway_seconds auth_defaults) in
      Ret (mkAuthConfig (json_get_string s "secret") (json_get_string s "issuer") (json_get_string s "audience")
             ttl leeway)
  end.

(** ** Tokens *)

(** [HMAC(EVP_sha256(), key, msg)] *)
Class Hmac := { hmac : string -> string -> option (list byte) }.

Section Auth.
Context `{Hmac}.

Definition hmac_sha256 (key msg : string) : list byte := default [] (hmac key msg).

Definition ct_equal (a b : list byte) : bool :=
  (vsize a =? vsize b) && bool_decide (a = b).

Definition header_json : string :=
  "{" +:+ in_quotes "alg" +:+ ":" +:+ in_quotes "HS256" +:+ "," +:+ in_quotes "typ" +:+ ":" +:+ in_quotes "JWT" +:+ "}".

(** A member with a text, behind another one. *)
Definition text_member (key value : string) : string :=
  if str_empty value then "" else "," +:+ in_quotes key +:+ ":" +:+ in_quotes (json_escape value).

Definition payload_json (cfg : auth_config) (user_id : string) (now : Z) : outcome string :=
  let! exp := i64_add now (token_ttl_seconds cfg) in
  Ret ("{" +:+ in_quotes "sub" +:+ ":" +:+ in_quotes (json_escape user_id) +:+
       "," +:+ in_quotes "iat" +:+ ":" +:+ to_string_i64 now +:+
       "," +:+ in_quotes "exp" +:+ ":" +:+ to_string_i64 exp +:+
       text_member "iss" (issuer cfg) +:+ text_member "aud" (audience cfg) +:+ "}").

Definition create_jwt (cfg : auth_config) (user_id : string) (now : Z) : outcome string :=
  let! payload := payload_json cfg user_id now in
  let signing_input := b64url_encode (bytes_of header_json) +:+ "." +:+ b64url_encode (bytes_of payload) in
  Ret (signing_input +:+ "." +:+ b64url_encode (hmac_sha256 (secret cfg) signing_input)).

(** The claims of a payload: the subject, or the error. *)
Definition check_claims (cfg : auth_config) (now : Z) (payload : string) : outcome (string + string) :=
  let! exp := json_get_int64 payload "exp" in
  let! late := (if exp =? 0 then Ret false else let! t := i64_add exp (leeway_seconds cfg) in Ret (t <? now)) in
  if late then Ret (inl "token_expired") else
  let! iat := json_get_int64 payload "iat" in
  let! early := (if iat =? 0 then Ret false else let! t := i64_add now (leeway_seconds cfg) in Ret (t <? iat)) in
  if early then Ret (inl "token_not_yet_valid") else
  if negb (str_empty (issuer cfg)) && negb (String.eqb (json_get_string payload "iss") (issuer cfg))
  then Ret (inl "invalid_issuer")
  else if negb (str_empty (audience cfg)) && negb (String.eqb (json_get_string payload "aud") (audience cfg))
  then Ret (inl "invalid_audience")
  else let user := json_get_string payload "sub" in
       Ret (if str_empty user then inl "missing_subject" else inr user).

Definition verify_jwt (cfg : auth_config) (token : string) (now : Z) : outcome (string + string) :=
  match split_at "." token with
  | None => Ret (inl "invalid_token_format")
  | Some (header, r) =>
      match split_at "." r with
      | None => Ret (inl "invalid_token_format")
      | Some (payload_b64, sig_b64) =>
          let signing_input := header +:+ "." +:+ payload_b64 in
          if ct_equal (hmac_sha256 (secret cfg) signing_input) (b64url_decode sig_b64)
          then check_claims cfg now (string_of (b64url_decode payload_b64))
          else Ret (inl "invalid_signature")
      end
  end.

(** ** The table *)

(** [auth_instance] and [shield_auth_result]; texts that may be null are
    options. *)
Record AuthInstance := mkAuth {
  auth_id : string;
  cfg_ : auth_config;
  blacklist : gset string
}.

Record auth_result := mkAuthResult {
  success : Z;
  error_code : option string;
  error_msg : option string;
  res_user_id : option string;
  res_token : option string;
  token_expiry_ms : Z;
  roles_json : option string;
  extra_json : option string
}.

(** [dup_cstr(s)]: a C string ends at its first null character. *)
Fixpoint c_str (s : string) : string :=
  match s with
  | EmptyString => ""
  | String c s => if Ascii.eqb c "000" then "" else String c (c_str s)
  end.

Definition auth_connect : option AuthInstance := None.

Definition authenticate (session : option AuthInstance) (token : option string) (out : option auth_result) (now : Z)
  : outcome (Z * option auth_result) :=
  match session, token, out with
  | Some inst, Some token, Some out =>
      if bool_decide (token ∈ blacklist inst)
      then Ret (-1, Some (mkAuthResult 0 (Some "token_revoked") (Some "token has been invalidated")
                            (res_user_id out) (res_token out) (token_expiry_ms out) (roles_json out) (extra_json out)))
      else
        let! r := verify_jwt (cfg_ inst) token now in
        match r with
        | inr user => Ret (0, Some (mkAuthResult 1 None None (Some (c_str user)) None 0 None None))
        | inl e => Ret (-1, Some (mkAuthResult 0 (Some e) (Some e) None None 0 None None))
        end
  | _, _, _ => Ret (-1, out)
  end.

(** [authorize]: the answer and [out->allowed]. *)
Definition authorize (out : bool) : Z * option Z := if out then (0, Some 1) else (-1, None).

(** [refresh_token] reads the clock three times. *)
Definition refresh_token (session : option AuthInstance) (token : option string) (out : option auth_result)
    (now now' now'' : Z) : outcome (Z * option auth_result) :=
  match session, token, out with
  | Some inst, Some token, Some out =>
      let! r := verify_jwt (cfg_ inst) token now in
      match r with
      | inl e =>
          Ret (-1, Some (mkAuthResult 0 (Some e) (Some e) (res_user_id out) (res_token out) (token_expiry_ms out)
                           (roles_json out) (extra_json out)))
      | inr user =>
          let! new_token := create_jwt (cfg_ inst) user now' in
          let! expiry := i64_add now'' (token_ttl_seconds (cfg_ inst)) in
          let ms := expiry * 1000 in
          if (- 2 ^ 63 <=? ms) && (ms <=? i64_max)
          then Ret (0, Some (mkAuthResult 1 None None (Some (c_str user)) (Some (c_str new_token)) ms None None))
          else Undef
      end
  | _, _, _ => Ret (-1, out)
  end.

Definition invalidate (session : option AuthInstance) (token : option string) : Z * option AuthInstance :=
  match session, token with
  | Some inst, Some token => (0, Some (mkAuth (auth_id inst) (cfg_ inst) ({[ token ]} ∪ blacklist inst)))
  | _, _ => (-1, session)
  end.

(** [auth_create]: the code and message of the error, or the instance. *)
Definition auth_create (instance_id config_json : option string) : outcome (string * string + AuthInstance) :=
  let! cfg := parse_auth_config config_json in
  Ret (if str_empty (secret cfg) then inl ("plugin.config.invalid", "auth.jwt: 'secret' is required")
       else inr (mkAuth (default "" instance_id) cfg ∅)).

(** The calls of a program on one instance, each with its readings of the clock;
    [None] stands for the undefined ones. *)
Inductive auth_call :=
| Authenticate (token : string) (now : Z)
| Refresh (token : string) (now now' now'' : Z)
| Invalidate (token : string).

Definition no_result : auth_result := mkAuthResult 0 None None None None 0 None None.

Definition auth_step (c : auth_call) (inst : AuthInstance) : outcome ((Z * option auth_result) * AuthInstance) :=
  match c with
  | Authenticate t now => let! r := authenticate (Some inst) (Some t) (Some no_result) now in Ret (r, inst)
  | Refresh t now now' now'' =>
      let! r := refresh_token (Some inst) (Some t) (Some no_result) now now' now'' in Ret (r, inst)
  | Invalidate t =>
      let '(rc, i) := invalidate (Some inst) (Some t) in Ret ((rc, None), default inst i)
  end.

Fixpoint auth_run (cs : list auth_call) (inst : AuthInstance) : outcome AuthInstance :=
  match cs with
  | [] => Ret inst
  | c :: cs => let! r := auth_step c inst in auth_run cs r.2
  end.
End Auth.

(** ** Base64url is inverted *)

(** The accumulators only matter modulo [2 ^ 24]. *)
Lemma shift_in w v d : w = 6 \/ w = 8 -> 0 <= d < 2 ^ w ->
  (Z.lor (i32 (Z.shiftl v w)) d) `mod` 2 ^ 24 = ((v `mod` 2 ^ (24 - w)) * 2 ^ w + d) `mod` 2 ^ 24.
Proof.
  intros Hw Hd.
  assert (E : exists q, i32 (Z.shiftl v w) = (v + q * 2 ^ (32 - w)) * 2 ^ w).
  { exists (- ((v * 2 ^ w + 2 ^ 31) / 2 ^ 32)). unfold i32. rewrite Z.shiftl_mul_pow2 by lia.
    rewrite Z.mod_eq by lia. replace (2 ^ 32) with (2 ^ (32 - w) * 2 ^ w) at 1 by (rewrite <-Z.pow_add_r by lia; f_equal; lia).
    lia. }
  destruct E as [q ->]. pose proof (land_shifted w (v + q * 2 ^ (32 - w)) d ltac:(lia) Hd) as Hl.
  pose proof (Z.add_lor_land ((v + q * 2 ^ (32 - w)) * 2 ^ w) d) as Hs. rewrite Hl in Hs.
  replace (Z.lor ((v + q * 2 ^ (32 - w)) * 2 ^ w) d) with ((v + q * 2 ^ (32 - w)) * 2 ^ w + d) by lia.
  destruct Hw as [-> | ->]; cbn in *; Z.to_euclidean_division_equations; lia.
Qed.

Lemma take_bits n k x : 0 <= k -> 0 <= n -> k + n <= 24 ->
  Z.land (Z.shiftr x k) (Z.ones n) = ((x `mod` 2 ^ 24) / 2 ^ k) `mod` 2 ^ n.
Proof.
  intros Hk Hn Hs. rewrite Z.land_ones, Z.shiftr_div_pow2 by done.
  apply Z.bits_inj'. intros i Hi. rewrite <-!Z.shiftr_div_pow2 by done.
  destruct (Z.ltb_spec i n).
  - rewrite !Z.mod_pow2_bits_low, !Z.shiftr_spec by lia. rewrite Z.mod_pow2_bits_low by lia. done.
  - by rewrite !Z.mod_pow2_bits_high by lia.
Qed.

Lemma table_val i : 0 <= i < 64 -> b64url_val (table i) = i.
Proof.
  intros Hi. assert (E : forallb (fun n => b64url_val (table (Z.of_nat n)) =? Z.of_nat n) (seq 0 64) = true)
    by (vm_compute; reflexivity).
  rewrite forallb_forall in E. specialize (E (Z.to_nat i)). rewrite Z2Nat.id in E by lia.
  apply Z.eqb_eq, E, in_seq. lia.
Qed.

(** One byte is written: the bits that are pending, and the characters that are
    complete. *)
Definition acc_in (w v d v' : Z) : Prop := v' `mod` 2 ^ 24 = ((v `mod` 2 ^ (24 - w)) * 2 ^ w + d) `mod` 2 ^ 24.

Definition bits (n k v : Z) : Z := ((v `mod` 2 ^ 24) / 2 ^ k) `mod` 2 ^ n.

Lemma encode_byte b data v :
  exists v', acc_in 8 v (byte.unsigned b) v' /\
  encode_loop (b :: data) v (-6) = String (table (bits 6 2 v')) (encode_loop data v' (-4)) /\
  encode_loop (b :: data) v (-4) = String (table (bits 6 4 v')) (encode_loop data v' (-2)) /\
  encode_loop (b :: data) v (-2) =
    String (table (bits 6 6 v')) (String (table (bits 6 0 v')) (encode_loop data v' (-6))).
Proof.
  exists (Z.lor (i32 (Z.shiftl v 8)) (byte.unsigned b)).
  split; [apply shift_in; [by right|apply byte.unsigned_range]|].
  unfold bits. rewrite <-!take_bits by lia. change (Z.ones 6) with 63. done.
Qed.

Lemma encode_end v :
  exists v', acc_in 8 v 0 v' /\ encode_loop [] v (-6) = "" /\
  encode_loop [] v (-4) = String (table (bits 6 4 v')) "" /\
  encode_loop [] v (-2) = String (table (bits 6 6 v')) "".
Proof.
  exists (Z.lor (i32 (Z.shiftl v 8)) 0). split; [apply shift_in; [by right|lia]|].
  unfold bits. rewrite <-!take_bits by lia. change (Z.ones 6) with 63. by rewrite Z.lor_0_r.
Qed.

(** One character is read. *)
Lemma decode_char i s v : 0 <= i < 64 ->
  exists v', acc_in 6 v i v' /\
  decode_loop (String (table i) s) v (-8) = decode_loop s v' (-2) /\
  decode_loop (String (table i) s) v (-2) = byte.of_Z (bits 8 4 v') :: decode_loop s v' (-4) /\
  decode_loop (String (table i) s) v (-4) = byte.of_Z (bits 8 2 v') :: decode_loop s v' (-6) /\
  decode_loop (String (table i) s) v (-6) = byte.of_Z (bits 8 0 v') :: decode_loop s v' (-8).
Proof.
  intros Hi. exists (Z.lor (i32 (Z.shiftl v 6)) i). split; [apply shift_in; [by left|done]|].
  unfold bits. rewrite <-!take_bits by lia. change (Z.ones 8) with 255.
  cbn [decode_loop]. rewrite table_val by done. destruct (Z.ltb_spec i 0); [lia|]. done.
Qed.

Lemma bits_range n k v : 0 <= n -> 0 <= bits n k v < 2 ^ n.
Proof. intros. apply Z.mod_pos_bound. lia. Qed.

(** What the next characters and bytes are, by arithmetic modulo [2 ^ 24]. *)
Lemma written v b v' : acc_in 8 v b v' -> 0 <= b < 256 ->
  bits 6 2 v' = b / 4 /\ bits 6 4 v' = (v `mod` 16) `mod` 4 * 16 + b / 16 /\
  bits 6 6 v' = (v `mod` 16) * 4 + b / 64 /\ bits 6 0 v' = b `mod` 64 /\ v' `mod` 16 = b `mod` 16.
Proof.
  unfold acc_in, bits. change (2 ^ 24) with 16777216. change (2 ^ (24 - 8)) with 65536. change (2 ^ 8) with 256.
  change (2 ^ 6) with 64. change (2 ^ 4) with 16. change (2 ^ 2) with 4. change (2 ^ 0) with 1.
  intros E Hb. rewrite E. split_and!; [| | | |assert (v' `mod` 16 = (v' `mod` 16777216) `mod` 16)];
    Z.to_euclidean_division_equations; lia.
Qed.

Lemma read_back v i v' : acc_in 6 v i v' -> 0 <= i < 64 ->
  bits 8 4 v' = (v `mod` 64) * 4 + i / 16 /\ bits 8 2 v' = (v `mod` 64) `mod` 16 * 16 + i / 4 /\
  bits 8 0 v' = (v `mod` 64) `mod` 4 * 64 + i /\ v' `mod` 64 = i.
Proof.
  unfold acc_in, bits. change (2 ^ 24) with 16777216. change (2 ^ (24 - 6)) with 262144. change (2 ^ 8) with 256.
  change (2 ^ 6) with 64. change (2 ^ 4) with 16. change (2 ^ 2) with 4. change (2 ^ 0) with 1.
  intros E Hb. rewrite E. split_and!; [| | |assert (v' `mod` 64 = (v' `mod` 16777216) `mod` 64)];
    Z.to_euclidean_division_equations; lia.
Qed.

Lemma of_Z_eq b z : z = byte.unsigned b -> byte.of_Z z = b.
Proof. intros ->. apply byte.of_Z_unsigned. Qed.

(** Reading what was written, by arithmetic on the accumulators. *)
Ltac read_char i s v :=
  let v' := fresh "w" in let A := fresh "A" in let E1 := fresh "E" in let E2 := fresh "E" in
  let E3 := fresh "E" in let E4 := fresh "E" in
  destruct (decode_char i s v) as (v' & A & E1 & E2 & E3 & E4); [by apply bits_range|];
  rewrite ?E1, ?E2, ?E3, ?E4; clear E1 E2 E3 E4.
Ltac read_chars :=
  repeat match goal with |- context [decode_loop (String (table ?i) ?s) ?v _] => read_char i s v end.
Ltac same_bytes :=
  repeat match goal with b : Init.Byte.byte |- _ => lazymatch goal with
    | _ : 0 <= byte.unsigned b < 2 ^ 8 |- _ => fail | _ => pose proof (byte.unsigned_range b) end end;
  change (2 ^ 8) with 256 in *;
  repeat match goal with
  | A : acc_in 8 _ _ _ |- _ => apply written in A as (? & ? & ? & ? & ?); [|lia]
  | A : acc_in 6 _ (bits ?n ?k ?v) _ |- _ =>
      apply read_back in A as (? & ? & ? & ?); [|apply (bits_range 6); lia]
  end;
  repeat (apply (f_equal2 cons); [|]); try done; apply of_Z_eq;
  repeat match goal with
  | E : bits ?n ?k ?v = _ |- context [bits ?n ?k ?v] => rewrite E
  | E : ?v `mod` _ = _ |- context [?v `mod` _] => rewrite E
  end;
  repeat match goal with E : bits _ _ _ = _ |- _ => clear E | E : _ `mod` _ = _ |- _ => clear E end;
  Z.to_euclidean_division_equations; lia.

Lemma decode_encode_three b1 b2 b3 data v w :
  (forall v w, decode_loop (encode_loop data v (-6)) w (-8) = data) ->
  decode_loop (encode_loop (b1 :: b2 :: b3 :: data) v (-6)) w (-8) = b1 :: b2 :: b3 :: data.
Proof.
  intros IH.
  destruct (encode_byte b1 (b2 :: b3 :: data) v) as (v1 & H1 & -> & _).
  destruct (encode_byte b2 (b3 :: data) v1) as (v2 & H2 & _ & -> & _).
  destruct (encode_byte b3 data v2) as (v3 & H3 & _ & _ & ->).
  read_chars. rewrite IH. same_bytes.
Qed.

Lemma decode_encode_two b1 b2 v w : decode_loop (encode_loop [b1; b2] v (-6)) w (-8) = [b1; b2].
Proof.
  destruct (encode_byte b1 [b2] v) as (v1 & H1 & -> & _).
  destruct (encode_byte b2 [] v1) as (v2 & H2 & _ & -> & _).
  destruct (encode_end v2) as (v3 & H3 & _ & _ & ->).
  read_chars. cbn [decode_loop]. same_bytes.
Qed.

Lemma decode_encode_one b v w : decode_loop (encode_loop [b] v (-6)) w (-8) = [b].
Proof.
  destruct (encode_byte b [] v) as (v1 & H1 & -> & _).
  destruct (encode_end v1) as (v2 & H2 & _ & -> & _).
  read_chars. cbn [decode_loop]. same_bytes.
Qed.

Lemma decode_encode data : forall v w, decode_loop (encode_loop data v (-6)) w (-8) = data.
Proof.
  induction data as [data IH] using (induction_ltof1 _ (@length Init.Byte.byte)). unfold ltof in IH. intros v w.
  destruct data as [|b1 [|b2 [|b3 data]]].
  - by destruct (encode_end v) as (v' & _ & -> & _).
  - apply decode_encode_one.
  - apply decode_encode_two.
  - apply decode_encode_three. apply IH. cbn. lia.
Qed.

Lemma base64_roundtrip data : b64url_decode (b64url_encode data) = data.
Proof. apply decode_encode. Qed.

Definition dotless (c : Ascii.ascii) : bool := negb (Ascii.eqb c ".").

Lemma table_dotless i : dotless (table i) = true.
Proof. unfold table. generalize (Z.to_nat i). intros n. do 64 (destruct n as [|n]; [done|]). done. Qed.

Lemma emit_dotless fuel v valb : str_all dotless (emit fuel v valb).1 = true.
Proof.
  revert valb. induction fuel as [|fuel IH]; intros valb; cbn [emit]; [done|]. destruct (0 <=? valb); [|done].
  specialize (IH (valb - 6)). destruct (emit fuel v (valb - 6)). cbn [fst str_all] in *. by rewrite table_dotless.
Qed.

Lemma encode_dotless data : str_all dotless (b64url_encode data) = true.
Proof.
  unfold b64url_encode. generalize 0, (-6). induction data as [|b data IH]; intros v valb; cbn [encode_loop].
  - destruct (_ <? _); [|done]. cbn [str_all]. by rewrite table_dotless.
  - set (v' := Z.lor _ _). pose proof (emit_dotless 2 v' (valb + 8)) as He. destruct (emit 2 v' (valb + 8)) as [out valb'].
    by rewrite str_all_app, IH, andb_true_r.
Qed.

(** ** The claims of an issued token *)

(** A text that is not taken for a key of the payload. *)
Definition clear_of (keys : list string) (u : string) : bool :=
  str_all printing u && forallb (fun k => negb (String.eqb u k) && negb (hides k u)) keys.

Lemma clear_of_key keys u k : clear_of keys u = true -> k ∈ keys -> u <> k /\ hides k u = false.
Proof.
  intros [_ Hf]%andb_true_iff Hk. rewrite forallb_forall in Hf. specialize (Hf k).
  rewrite list_elem_of_In in Hk. apply Hf in Hk. bools. by split; [apply String.eqb_neq|].
Qed.

(** The search for [k] passes over a member with a text. *)
Lemma after_text k u c rest :
  str_all key_char k = true -> u <> k -> hides k u = false -> strip k (String c rest) = None ->
  after (in_quotes k) (in_quotes (json_escape u) +:+ String c rest) = after (in_quotes k) (String c rest).
Proof.
  intros Hk Hne Hh Hs. rewrite <-(after_escape k u c rest) by done. unfold in_quotes.
  rewrite str_app_cons, <-app_assoc_str. apply after_skip. cbn [strip]. change (Ascii.eqb dq dq) with true. cbn iota.
  by apply strip_escape.
Qed.

(** The members up to the expiry. *)
Definition payload_text (u : string) (now exp : Z) (tail : string) : string :=
  "{" +:+ in_quotes "sub" +:+ ":" +:+ in_quotes (json_escape u) +:+
  "," +:+ in_quotes "iat" +:+ ":" +:+ to_string_i64 now +:+
  "," +:+ in_quotes "exp" +:+ ":" +:+ to_string_i64 exp +:+ tail.

(** Move the search to the next place where the key may be. *)
Ltac seek :=
  rewrite ?str_app_cons, ?str_app_nil; unfold in_quotes at 2; rewrite ?str_app_cons, ?str_app_nil;
  repeat first [rewrite str_app_cons | rewrite str_app_nil | rewrite after_skip by reflexivity].

Definition claim_keys : list string := ["iat"; "exp"; "iss"; "aud"].

Lemma after_head k u now exp tail : k ∈ claim_keys -> clear_of claim_keys u = true ->
  after (in_quotes k) (payload_text u now exp tail) =
  after (in_quotes k) ("," +:+ in_quotes "iat" +:+ ":" +:+ to_string_i64 now +:+
                       "," +:+ in_quotes "exp" +:+ ":" +:+ to_string_i64 exp +:+ tail).
Proof.
  intros Hk Hu. destruct (clear_of_key _ _ _ Hu Hk) as [Hne Hh].
  assert (Hc : str_all key_char k = true /\
    forall s, after (in_quotes k) (payload_text u now exp tail) =
      after (in_quotes k) (in_quotes (json_escape u) +:+ ("," +:+ in_quotes "iat" +:+ ":" +:+ to_string_i64 now +:+
                       "," +:+ in_quotes "exp" +:+ ":" +:+ to_string_i64 exp +:+ tail)) /\ strip k (String "," s) = None).
  { unfold payload_text. repeat (apply elem_of_cons in Hk as [->|Hk]; [split; [reflexivity|intros s; split; [by seek|reflexivity]]|]).
    by apply elem_of_nil in Hk. }
  destruct Hc as [Hc Hs]. destruct (Hs "") as [-> _].
  rewrite str_app_cons, str_app_nil. apply after_text; [done|done|done|]. apply Hs.
Qed.

Lemma after_number k z s : 0 <= z ->
  after (in_quotes k) (to_string_i64 z +:+ s) = after (in_quotes k) s.
Proof. intros Hz. apply after_skip_all. by apply number_quoteless. Qed.

Section Issued.
Context (u : string) (now exp : Z) (tail : string) (Hu : clear_of claim_keys u = true).
Context (Hnow : 0 <= now) (Hexp : 0 <= exp <= i64_max).

Lemma issued_subject : json_get_string (payload_text u now exp tail) "sub" = u.
Proof. eapply string_member; [reflexivity|]. by apply andb_true_iff in Hu as [? _]. Qed.

Lemma issued_iat : now <= i64_max -> json_get_int64 (payload_text u now exp tail) "iat" = Ret now.
Proof.
  intros Hm. unfold i64_max in Hm.
  eapply int_member; [rewrite after_head; [reflexivity|set_solver|done]|unfold i64_max; lia|lia|reflexivity].
Qed.

Lemma issued_exp c rest : tail = String c rest -> is_digit c = false ->
  json_get_int64 (payload_text u now exp tail) "exp" = Ret exp.
Proof.
  intros Ht Hc. eapply int_member; [|done|unfold i64_max in Hexp; lia|exact Hc].
  rewrite after_head by (done || set_solver). seek. rewrite after_number by done. by rewrite Ht.
Qed.

Lemma issued_tail k : k ∈ ["iss"; "aud"] ->
  after (in_quotes k) (payload_text u now exp tail) = after (in_quotes k) tail.
Proof.
  intros Hk. rewrite after_head by (done || set_solver).
  repeat (apply elem_of_cons in Hk as [->|Hk]; [seek; rewrite after_number by done; seek; rewrite after_number by lia; done|]).
  by apply elem_of_nil in Hk.
Qed.
End Issued.

(** The texts an issuer may use: the audience is looked up behind the issuer. *)
Definition issuable (cfg : auth_config) (u : string) : Prop :=
  u <> "" /\ clear_of claim_keys u = true /\ clear_of ["aud"] (issuer cfg) = true /\
  str_all printing (audience cfg) = true.

Lemma claims_tail cfg c rest :
  text_member "iss" (issuer cfg) +:+ text_member "aud" (audience cfg) +:+ "}" = String c rest -> is_digit c = false.
Proof.
  unfold text_member. destruct (str_empty (issuer cfg)), (str_empty (audience cfg));
    rewrite ?str_app_nil, ?str_app_cons; by intros [= <- _].
Qed.

Lemma issued_issuer cfg u now exp :
  clear_of claim_keys u = true -> clear_of ["aud"] (issuer cfg) = true -> 0 <= now -> 0 <= exp <= i64_max ->
  issuer cfg <> "" ->
  json_get_string (payload_text u now exp (text_member "iss" (issuer cfg) +:+ text_member "aud" (audience cfg) +:+ "}"))
    "iss" = issuer cfg.
Proof.
  intros Hu Hi Hn He Hne. eapply string_member; [|by apply andb_true_iff in Hi as [? _]].
  rewrite issued_tail by (done || set_solver). unfold text_member at 1. rewrite (proj2 (str_empty_false _) Hne).
  rewrite <-!app_assoc_str. reflexivity.
Qed.

Lemma issued_audience cfg u now exp :
  clear_of claim_keys u = true -> clear_of ["aud"] (issuer cfg) = true -> str_all printing (audience cfg) = true ->
  0 <= now -> 0 <= exp <= i64_max -> audience cfg <> "" ->
  json_get_string (payload_text u now exp (text_member "iss" (issuer cfg) +:+ text_member "aud" (audience cfg) +:+ "}"))
    "aud" = audience cfg.
Proof.
  intros Hu Hi Ha Hn He Hne. eapply string_member; [|done].
  rewrite issued_tail by (done || set_solver). unfold text_member. rewrite (proj2 (str_empty_false _) Hne).
  destruct (str_empty (issuer cfg)) eqn:E; [reflexivity|].
  destruct (clear_of_key _ _ "aud" Hi) as [H1 H2]; [set_solver|].
  rewrite <-!app_assoc_str. seek. rewrite after_text by done. reflexivity.
Qed.

Section Theorems.
Context `{Hmac}.

Lemma ct_equal_eq a b : ct_equal a b = true <-> a = b.
Proof.
  unfold ct_equal. rewrite andb_true_iff, Z.eqb_eq, bool_decide_eq_true. split; [tauto|]. by intros ->.
Qed.

(** The three parts of a token. *)
Lemma verify_parts cfg header payload sig now :
  str_all dotless header = true -> str_all dotless payload = true ->
  verify_jwt cfg (header +:+ "." +:+ payload +:+ "." +:+ sig) now =
  if ct_equal (hmac_sha256 (secret cfg) (header +:+ "." +:+ payload)) (b64url_decode sig)
  then check_claims cfg now (string_of (b64url_decode payload)) else Ret (inl "invalid_signature").
Proof.
  intros Hh Hp. unfold verify_jwt. rewrite !str_app_cons, !str_app_nil.
  by rewrite (split_at_app "." header), (split_at_app "." payload) by done.
Qed.

Lemma check_issued cfg u now now' :
  issuable cfg u -> 0 < now -> 0 < now + token_ttl_seconds cfg ->
  now + token_ttl_seconds cfg <= i64_max -> 0 <= leeway_seconds cfg -> 0 <= now' ->
  now + token_ttl_seconds cfg + leeway_seconds cfg <= i64_max -> now' + leeway_seconds cfg <= i64_max ->
  now <= i64_max ->
  check_claims cfg now'
    (payload_text u now (now + token_ttl_seconds cfg)
       (text_member "iss" (issuer cfg) +:+ text_member "aud" (audience cfg) +:+ "}")) =
  Ret (if now + token_ttl_seconds cfg + leeway_seconds cfg <? now' then inl "token_expired"
       else if now' + leeway_seconds cfg <? now then inl "token_not_yet_valid" else inr u).
Proof.
  intros (Hu & Hc & Hi & Ha) Hn He Hm Hl Hn' Hm1 Hm2 Hm3. unfold check_claims.
  assert (Ht : exists c rest, text_member "iss" (issuer cfg) +:+ text_member "aud" (audience cfg) +:+ "}" = String c rest).
  { unfold text_member. destruct (str_empty (issuer cfg)), (str_empty (audience cfg)); by repeat eexists. }
  destruct Ht as (c & rest & Ht).
  assert (Hcd := claims_tail cfg c rest Ht).
  rewrite (issued_exp u now (now + token_ttl_seconds cfg) _ Hc) with (c := c) (rest := rest) by (done || lia).
  rewrite (issued_iat u now (now + token_ttl_seconds cfg)) by (done || lia). cbn [obind].
  destruct (Z.eqb_spec (now + token_ttl_seconds cfg) 0); [lia|]. destruct (Z.eqb_spec now 0); [lia|].
  unfold i64_add, i64_max in *.
  destruct (Z.leb_spec (- 2 ^ 63) (now + token_ttl_seconds cfg + leeway_seconds cfg)); [|lia].
  destruct (Z.leb_spec (now + token_ttl_seconds cfg + leeway_seconds cfg) (2 ^ 63 - 1)); [|lia].
  destruct (Z.leb_spec (- 2 ^ 63) (now' + leeway_seconds cfg)); [|lia].
  destruct (Z.leb_spec (now' + leeway_seconds cfg) (2 ^ 63 - 1)); [|lia]. cbn [andb obind].
  destruct (_ <? now'); [done|]. destruct (_ <? now); [done|].
  assert (E1 : negb (str_empty (issuer cfg)) && negb (String.eqb (json_get_string (payload_text u now
      (now + token_ttl_seconds cfg) (text_member "iss" (issuer cfg) +:+ text_member "aud" (audience cfg) +:+ "}")) "iss")
      (issuer cfg)) = false).
  { destruct (str_empty (issuer cfg)) eqn:E; [done|]. apply str_empty_false in E.
    rewrite issued_issuer by (done || unfold i64_max; lia). by rewrite String.eqb_refl. }
  assert (E2 : negb (str_empty (audience cfg)) && negb (String.eqb (json_get_string (payload_text u now
      (now + token_ttl_seconds cfg) (text_member "iss" (issuer cfg) +:+ text_member "aud" (audience cfg) +:+ "}")) "aud")
      (audience cfg)) = false).
  { destruct (str_empty (audience cfg)) eqn:E; [done|]. apply str_empty_false in E.
    rewrite issued_audience by (done || unfold i64_max; lia). by rewrite String.eqb_refl. }
  rewrite E1, E2, issued_subject by done. by rewrite (proj2 (str_empty_false u) Hu).
Qed.

(** C26: what an instance issues it accepts.  A token issued for a user at [now]
    is accepted as that user's until its lifetime and the leeway have passed, and
    is rejected as expired afterwards, whatever HMAC computes.  User, issuer and
    audience hold no control characters and are not mistaken for a key. *)
Theorem issued_token_accepted cfg u now now' :
  issuable cfg u -> 0 < now -> 0 <= token_ttl_seconds cfg -> 0 <= leeway_seconds cfg -> 0 <= now' ->
  now + token_ttl_seconds cfg + leeway_seconds cfg <= i64_max -> now' + leeway_seconds cfg <= i64_max ->
  exists token, create_jwt cfg u now = Ret token /\
  verify_jwt cfg token now' =
  Ret (if now + token_ttl_seconds cfg + leeway_seconds cfg <? now' then inl "token_expired"
       else if now' + leeway_seconds cfg <? now then inl "token_not_yet_valid" else inr u).
Proof.
  intros Hi Hn Ht Hl Hn' Hm1 Hm2.
  assert (Ep : payload_json cfg u now = Ret (payload_text u now (now + token_ttl_seconds cfg)
       (text_member "iss" (issuer cfg) +:+ text_member "aud" (audience cfg) +:+ "}"))).
  { unfold payload_json, i64_add. destruct (Z.leb_spec (- 2 ^ 63) (now + token_ttl_seconds cfg)); [|lia].
    by destruct (Z.leb_spec (now + token_ttl_seconds cfg) i64_max); [|lia]. }
  eexists. split; [unfold create_jwt; rewrite Ep; reflexivity|]. rewrite <-!app_assoc_str.
  rewrite verify_parts by apply encode_dotless. rewrite !base64_roundtrip, string_of_bytes_of.
  rewrite (proj2 (ct_equal_eq _ _) eq_refl). apply check_issued; try done; lia.
Qed.
(** ** What is accepted *)

(** A token that is signed with the secret and whose claims hold at [now]. *)
Definition valid_token (cfg : auth_config) (now : Z) (token user : string) : Prop :=
  exists header payload sig,
    token = header +:+ "." +:+ payload +:+ "." +:+ sig /\
    str_all dotless header = true /\ str_all dotless payload = true /\
    hmac_sha256 (secret cfg) (header +:+ "." +:+ payload) = b64url_decode sig /\
    let p := string_of (b64url_decode payload) in
    (exists exp, json_get_int64 p "exp" = Ret exp /\
       (exp = 0 \/ exists t, i64_add exp (leeway_seconds cfg) = Ret t /\ now <= t)) /\
    (exists iat, json_get_int64 p "iat" = Ret iat /\
       (iat = 0 \/ exists t, i64_add now (leeway_seconds cfg) = Ret t /\ iat <= t)) /\
    (issuer cfg = "" \/ json_get_string p "iss" = issuer cfg) /\
    (audience cfg = "" \/ json_get_string p "aud" = audience cfg) /\
    json_get_string p "sub" = user /\ user <> "".

(** A reading that is skipped when the claim is absent. *)
Lemma claim_time (z : Z) (less : Z -> bool) (m : outcome Z) (k : bool -> outcome (string + string)) e u :
  k true = Ret (inl e) ->
  ((let! late := (if z =? 0 then Ret false else let! t := m in Ret (less t)) in k late) = Ret (inr u) <->
   (z = 0 \/ exists t, m = Ret t /\ less t = false) /\ k false = Ret (inr u)).
Proof.
  intros Hk. destruct (Z.eqb_spec z 0) as [->|Hz]; cbn [obind]; [tauto|].
  destruct m as [t|?|]; cbn [obind].
  - destruct (less t) eqn:E; [|naive_solver]. rewrite Hk. split; [done|]. intros [[?|(t' & [= <-] & ?)] _]; congruence.
  - split; [done|]. intros [[?|(t' & [=] & ?)] _]; congruence.
  - split; [done|]. intros [[?|(t' & [=] & ?)] _]; congruence.
Qed.

Lemma claim_text (want have : string) :
  negb (str_empty want) && negb (String.eqb have want) = false <-> want = "" \/ have = want.
Proof.
  rewrite andb_false_iff, !negb_false_iff, str_empty_true, String.eqb_eq. done.
Qed.

Lemma obind_ret_iff {A B} (m : outcome A) (k : A -> outcome B) b :
  obind m k = Ret b <-> exists a, m = Ret a /\ k a = Ret b.
Proof. split; [apply obind_ret_inv|]. by intros (a & -> & E). Qed.

Lemma check_claims_accepts cfg now p user :
  check_claims cfg now p = Ret (inr user) <->
  (exists exp, json_get_int64 p "exp" = Ret exp /\
     (exp = 0 \/ exists t, i64_add exp (leeway_seconds cfg) = Ret t /\ now <= t)) /\
  (exists iat, json_get_int64 p "iat" = Ret iat /\
     (iat = 0 \/ exists t, i64_add now (leeway_seconds cfg) = Ret t /\ iat <= t)) /\
  (issuer cfg = "" \/ json_get_string p "iss" = issuer cfg) /\
  (audience cfg = "" \/ json_get_string p "aud" = audience cfg) /\
  json_get_string p "sub" = user /\ user <> "".
Proof.
  rewrite <-!claim_text. unfold check_claims. rewrite obind_ret_iff.
  assert (Hlt : forall a b, (a <? b) = false <-> b <= a) by (intros; apply Z.ltb_ge).
  setoid_rewrite (claim_time _ _ _ _ "token_expired"); [|done].
  setoid_rewrite obind_ret_iff. setoid_rewrite (claim_time _ _ _ _ "token_not_yet_valid"); [|done].
  setoid_rewrite Hlt.
  assert (Hs : Ret (if str_empty (json_get_string p "sub") then inl "missing_subject" else inr (json_get_string p "sub")) =
      Ret (inr user) <-> json_get_string p "sub" = user /\ user <> "").
  { destruct (str_empty _) eqn:E; [apply str_empty_true in E|apply str_empty_false in E]; rewrite ?E; naive_solver. }
  rewrite <-Hs. destruct (negb (str_empty (issuer cfg)) && _), (negb (str_empty (audience cfg)) && _); naive_solver.
Qed.

Lemma split_at_inv c s a b : split_at c s = Some (a, b) ->
  s = a +:+ String c b /\ str_all (fun d => negb (Ascii.eqb d c)) a = true.
Proof.
  revert a b. induction s as [|d s IH]; intros a b; cbn [split_at]; [done|].
  destruct (Ascii.eqb_spec d c) as [->|Hd]; [by intros [= <- <-]|].
  destruct (split_at c s) as [[a' b']|]; [|done]. intros [= <- <-]. destruct (IH _ _ eq_refl) as [-> Ha].
  split; [done|]. cbn [str_all]. rewrite Ha. by destruct (Ascii.eqb_spec d c).
Qed.

Lemma verify_accepts cfg token now user :
  verify_jwt cfg token now = Ret (inr user) <-> valid_token cfg now token user.
Proof.
  unfold valid_token. split.
  - unfold verify_jwt. destruct (split_at "." token) as [[h r]|] eqn:E1; [|done].
    destruct (split_at "." r) as [[p g]|] eqn:E2; [|done]. apply split_at_inv in E1 as [-> Hh], E2 as [-> Hp].
    destruct (ct_equal _ _) eqn:Ec; [|done]. apply ct_equal_eq in Ec. intros Hc%check_claims_accepts.
    exists h, p, g. split; [reflexivity|]. split; [exact Hh|]. split; [exact Hp|]. split; [exact Ec|exact Hc].
  - intros (h & p & g & -> & Hh & Hp & Hs & Hc). rewrite verify_parts by done. rewrite (proj2 (ct_equal_eq _ _) Hs).
    by apply check_claims_accepts.
Qed.

Lemma run_blacklist cs inst inst' : auth_run cs inst = Ret inst' ->
  cfg_ inst' = cfg_ inst /\ forall t, t ∈ blacklist inst' <-> t ∈ blacklist inst \/ Invalidate t ∈ cs.
Proof.
  revert inst. induction cs as [|c cs IH]; intros inst; cbn [auth_run].
  - intros [= <-]. split; [done|]. intros t. rewrite elem_of_nil. tauto.
  - intros ([r i] & E1 & E2)%obind_ret_inv. apply IH in E2 as [Hc Hb]. cbn [snd] in *.
    assert (Hi : cfg_ i = cfg_ inst /\ forall t, t ∈ blacklist i <-> t ∈ blacklist inst \/ c = Invalidate t).
    { destruct c; cbn in E1.
      - apply obind_ret_inv in E1 as (? & _ & [= _ <-]). split; [done|]. intros t. split; [tauto|by intros [?|]].
      - apply obind_ret_inv in E1 as (? & _ & [= _ <-]). split; [done|]. intros t. split; [tauto|by intros [?|]].
      - injection E1 as <- <-. split; [done|]. intros t. cbn. rewrite elem_of_union, elem_of_singleton.
        split; [intros [->|?]; [by right|by left]|]. intros [?|[= ->]]; [by right|by left]. }
    destruct Hi as [Hi1 Hi2]. split; [congruence|]. intros t. rewrite Hb, Hi2, elem_of_cons. naive_solver.
Qed.

(** C27: who is authenticated.  After any calls on an instance that started
    without revoked tokens, a token is accepted exactly when it was never
    invalidated, carries the signature of its text under the secret of the
    instance, is inside its time, names the configured issuer and audience and
    has a subject; the answer names that subject. *)
Theorem authenticate_decides cs inst0 inst token out now r :
  blacklist inst0 = ∅ -> auth_run cs inst0 = Ret inst ->
  (authenticate (Some inst) (Some token) (Some out) now = Ret (0, r) <->
   Invalidate token ∉ cs /\
   exists user, valid_token (cfg_ inst0) now token user /\
     r = Some (mkAuthResult 1 None None (Some (c_str user)) None 0 None None)).
Proof.
  intros Hb (Hc & Hr)%run_blacklist. specialize (Hr token). rewrite Hb in Hr. setoid_rewrite <-verify_accepts.
  rewrite <-Hc. cbn [authenticate]. case_bool_decide as Hin.
  - split; [done|]. set_solver.
  - assert (Hn : Invalidate token ∉ cs) by set_solver. rewrite obind_ret_iff. split.
    + intros ([e|user] & E & [=]). split; [done|]. exists user. by split.
    + intros (_ & user & E & ->). exists (inr user). by split.
Qed.
End Theorems.

(** ** Tokens of a test instance

    The authentication code is the key with the length and the last characters
    of the message. *)

#[local] Instance test_hmac : Hmac := {
  hmac := fun key msg =>
    Some (bytes_of (key +:+ to_string_u64 (slen msg) +:+ String.substring (String.length msg - 20) 20 msg))
}.

Definition test_config : auth_config := mkAuthConfig "k3y" "shield" "game" 3600 60.
Definition test_instance : AuthInstance := mkAuth "auth" test_config ∅.
Definition quoted_user : string := "al" +:+ String dq "ice".

Definition issue (u : string) (now : Z) : string :=
  match create_jwt test_config u now with Ret t => t | _ => "" end.

Lemma issued_token_accepted_witness :
  exists token, create_jwt test_config quoted_user 1000 = Ret token /\
    verify_jwt test_config token 4660 = Ret (inr quoted_user).
Proof.
  exact (@issued_token_accepted test_hmac test_config quoted_user 1000 4660
    ltac:(split; [discriminate|split; [vm_compute; reflexivity|split; vm_compute; reflexivity]])
    ltac:(lia) ltac:(cbn; lia) ltac:(cbn; lia) ltac:(lia) ltac:(vm_compute; discriminate)
    ltac:(vm_compute; discriminate)).
Defined.

Lemma authenticate_decides_witness :
  exists inst, auth_run [Invalidate (issue "bob" 1000)] test_instance = Ret inst /\
    exists user, valid_token test_config 1200 (issue "eve" 1000) user /\ c_str user = "eve".
Proof.
  eexists. split; [reflexivity|].
  destruct (proj1 (@authenticate_decides test_hmac [Invalidate (issue "bob" 1000)] test_instance _ (issue "eve" 1000)
    no_result 1200 (Some (mkAuthResult 1 None None (Some "eve") None 0 None None)) eq_refl eq_refl)
    ltac:(vm_compute; reflexivity)) as (_ & user & Hv & [= E]).
  exists user. split; [exact Hv|]. by rewrite <-E.
Defined.

(** ** What goes wrong *)

Definition answer_of (r : outcome (Z * option auth_result)) : option (Z * option string) :=
  match r with Ret (rc, Some r) => Some (rc, res_user_id r) | _ => None end.

(** The answers for a token that was revoked, for what a refresh of it gives,
    and for the token with padding. *)
Definition after_revocation (t : string) (now : Z) : outcome (list (option (Z * option string))) :=
  let! inst := auth_run [Invalidate t] test_instance in
  let! r := refresh_token (Some inst) (Some t) (Some no_result) now now now in
  let ask token := answer_of (authenticate (Some inst) token (Some no_result) now) in
  Ret [ask (Some t); ask (match r.2 with Some r => res_token r | None => None end); ask (Some (t +:+ "="))].

(** A revoked token is refused, but it still buys a fresh one, and it is accepted
    with padding behind it, since characters outside of the alphabet are
    skipped. *)
Example revoked_token_lives :
  after_revocation (issue "bob" 1000) 1100 = Ret [Some (-1, None); Some (0, Some "bob"); Some (0, Some "bob")].
Proof. vm_compute. reflexivity. Qed.

(** The keys are searched in the text: the name of a user is taken for one. *)
Example user_named_exp :
  verify_jwt test_config (issue "exp" 1000) 1100 = Ret (inl "token_expired") /\
  verify_jwt test_config (issue "iss" 1000) 1000 = Ret (inl "invalid_issuer").
Proof. vm_compute. split; reflexivity. Qed.

(** A user whose name holds a line break is authenticated as somebody else. *)
Example control_characters_change_user :
  verify_jwt test_config (issue ("a" +:+ String "010" "b") 1000) 1000 = Ret (inr "anb").
Proof. vm_compute. reflexivity. Qed.

(** When HMAC fails, a token without a signature is accepted. *)
Example failed_hmac_accepts :
  let broken := {| hmac := fun _ _ => None |} in
  let forged := "x." +:+ b64url_encode (bytes_of ("{" +:+ in_quotes "sub" +:+ ":" +:+ in_quotes "admin" +:+ "}")) +:+ "." in
  @verify_jwt broken (mkAuthConfig "k3y" "" "" 3600 60) forged 1000 = Ret (inr "admin").
Proof. vm_compute. reflexivity. Qed.

(** The handle that [connect] returns authenticates nobody. *)
Example connect_gives_nothing token out now :
  authenticate auth_connect (Some token) (Some out) now = Ret (-1, Some out).
Proof. reflexivity. Qed.
