(* ===== verification/Doubles.v ===== *)
(** * Doubles: integers that a double holds exactly

    The conversion of an integer below [2 ^ 53] to a double loses nothing and
    keeps the order.  The components that carry integers in doubles use these
    lemmas. *)

From Stdlib Require Import Floats.SpecFloat.
From S2P Require Import Prelude Text Json Schema.

(** ** Digits *)

Lemma digits_bounds p : 2 ^ (Zpos (digits2_pos p) - 1) <= Zpos p < 2 ^ Zpos (digits2_pos p).
Proof.
  induction p as [p IH|p IH|]; cbn [digits2_pos]; [| |done];
    rewrite Pos2Z.inj_succ; replace (Z.succ (Zpos (digits2_pos p)) - 1) with (Z.succ (Zpos (digits2_pos p) - 1)) by lia;
    rewrite !Z.pow_succ_r by lia; lia.
Qed.

Lemma digits_unique p d : 0 < d -> 2 ^ (d - 1) <= Zpos p < 2 ^ d -> Zpos (digits2_pos p) = d.
Proof.
  intros Hd Hp. pose proof (digits_bounds p) as Hb.
  destruct (Z.lt_trichotomy (Zpos (digits2_pos p)) d) as [Hlt|[?|Hgt]]; [|done|].
  - pose proof (Z.pow_le_mono_r 2 (Zpos (digits2_pos p)) (d - 1)). lia.
  - pose proof (Z.pow_le_mono_r 2 d (Zpos (digits2_pos p) - 1)). lia.
Qed.

Lemma iter_xO p n : Zpos (Pos.iter xO p n) = Zpos p * 2 ^ Zpos n.
Proof.
  induction n as [|n IH] using Pos.peano_ind; [cbn; lia|].
  rewrite Pos.iter_succ, Pos2Z.inj_succ, Z.pow_succ_r by lia. change (Zpos (Pos.iter xO p n)~0) with (2 * Zpos (Pos.iter xO p n)).
  rewrite IH. lia.
Qed.

(** ** Conversion *)

(** A mantissa of 53 digits is not rounded. *)
Lemma round_aux_exact s m e :
  Zpos (digits2_pos m) = 53 -> -1074 <= e <= 971 ->
  binary_round_aux 53 1024 s (Zpos m) e loc_Exact = S754_finite s m e.
Proof.
  intros Hd He. unfold binary_round_aux, shr_fexp. cbn [Zdigits2 shr_record_of_loc]. rewrite Hd.
  unfold fexp, emin. replace (Z.max (53 + e - 53) (3 - 1024 - 53) - e) with 0 by lia.
  cbn [shr shr_m loc_of_shr_record round_nearest_even Zdigits2 shr_record_of_loc]. rewrite Hd.
  replace (Z.max (53 + e - 53) (3 - 1024 - 53) - e) with 0 by lia. cbn [shr shr_m].
  destruct (Z.leb_spec e (1024 - 53)); [done|lia].
Qed.

Lemma double_of_pos p : Zpos p < 2 ^ 53 ->
  exists m, double_of_Z (Zpos p) = S754_finite false m (Zpos (digits2_pos p) - 53) /\
    Zpos m = Zpos p * 2 ^ (53 - Zpos (digits2_pos p)) /\ Zpos (digits2_pos p) <= 53.
Proof.
  intros Hp. pose proof (digits_bounds p) as Hb. set (d := Zpos (digits2_pos p)) in *.
  assert (Hd : d <= 53).
  { destruct (Z.le_gt_cases d 53); [done|]. pose proof (Z.pow_le_mono_r 2 53 (d - 1)). lia. }
  unfold double_of_Z, binary_normalize, binary_round, shl_align. fold d. unfold fexp, emin.
  replace (Z.max (d + 0 - 53) (3 - 1024 - 53) - 0) with (- (53 - d)) by lia.
  destruct (53 - d) as [|k|k] eqn:Ek; [| |lia].
  - exists p. change (- 0) with 0. cbn iota beta. rewrite round_aux_exact by (fold d; lia). split_and!; [f_equal; lia|lia|done].
  - exists (Pos.iter xO p k). change (- Zpos k) with (Zneg k). cbn iota beta. replace (Z.max (d + 0 - 53) (3 - 1024 - 53)) with (d - 53) by lia.
    rewrite round_aux_exact; [split_and!; [done| |done]| |lia].
    + by rewrite iter_xO.
    + apply digits_unique; [lia|]. rewrite iter_xO. rewrite <-Ek.
      replace (53 - 1) with (d - 1 + (53 - d)) by lia. replace (2 ^ 53) with (2 ^ (d + (53 - d))) by (f_equal; lia).
      rewrite !Z.pow_add_r by lia. nia.
Qed.

Lemma double_exact z : 0 <= z < 2 ^ 53 -> float_trunc (double_of_Z z) = Some z.
Proof.
  intros Hz. destruct z as [|p|p]; [done| |lia]. destruct (double_of_pos p ltac:(lia)) as (m & -> & Hm & Hd).
  cbn [float_trunc]. f_equal. rewrite Hm. replace (Zpos (digits2_pos p) - 53) with (- (53 - Zpos (digits2_pos p))) by lia.
  rewrite Z.shiftl_opp_r, <-Z.shiftl_mul_pow2, Z.shiftr_shiftl_l by lia. by rewrite Z.sub_diag.
Qed.

Lemma double_compare a b : 0 <= a < 2 ^ 53 -> 0 <= b < 2 ^ 53 ->
  SFcompare (double_of_Z a) (double_of_Z b) = Some (a ?= b).
Proof.
  intros Ha Hb. destruct a as [|p|p]; [| |lia]; (destruct b as [|q|q]; [| |lia]); [done| | |].
  - by destruct (double_of_pos q ltac:(lia)) as (m & -> & _).
  - by destruct (double_of_pos p ltac:(lia)) as (m & -> & _).
  - destruct (double_of_pos p ltac:(lia)) as (m & -> & Hm & Hd), (double_of_pos q ltac:(lia)) as (n & -> & Hn & He).
    cbn [SFcompare]. pose proof (digits_bounds p) as Bp. pose proof (digits_bounds q) as Bq.
    set (d := Zpos (digits2_pos p)) in *. set (e := Zpos (digits2_pos q)) in *.
    destruct (Z.compare_spec (d - 53) (e - 53)) as [E|E|E]; f_equal; symmetry.
    + assert (E' : d = e) by lia. rewrite E' in *. change (Pos.compare_cont Eq m n) with (Zpos m ?= Zpos n).
      rewrite Hm, Hn. apply Zmult_compare_compat_r. lia.
    + apply Z.compare_lt_iff. pose proof (Z.pow_le_mono_r 2 d (e - 1)). lia.
    + apply Z.compare_gt_iff. pose proof (Z.pow_le_mono_r 2 e (d - 1)). lia.
Qed.

(** A conversion back to an integer type. *)
Lemma float_cast_exact lo hi z : 0 <= z < 2 ^ 53 -> lo <= z <= hi -> float_cast lo hi (double_of_Z z) = Ret z.
Proof.
  intros Hz Hr. unfold float_cast. rewrite double_exact by done.
  destruct (Z.leb_spec lo z), (Z.leb_spec z hi); cbn; (done || lia).
Qed.
