(* ===== verification/Leaderboard.v ===== *)
(** * Leaderboard: the Redis leaderboard plugin (plugins/leaderboard.redis)

    The composite scores of boards with several fields, the functions of the
    plugin's table over a connection, and the functions of the Lua proxy over an
    instance.  Redis is a parameter: an abstract database with the commands the
    plugin uses, each of which may throw; [redis_laws] is what its documentation
    says of sorted sets.  Field names are values, and memory is assumed to be
    available. *)

From Stdlib Require Import Floats.SpecFloat Sorting.Sorted.
From stdpp Require Import sorting.
From S2P Require Import Prelude Text Json Schema LuaPack Doubles.

(** ** Boards *)

Inductive sort_direction := SHIELD_SORT_DESC | SHIELD_SORT_ASC.

#[export] Instance sort_direction_eq_dec : EqDecision sort_direction.
Proof. solve_decision. Defined.

Record field_def := mkField { fd_name : option string; fd_dir : sort_direction }.

Record BoardConfig := mkBoard {
  field_defs : list field_def;
  field_bits : list Z;
  primary_desc : bool
}.

Definition kDefaultFieldBits : Z := 16.
Definition kMaxFieldBits : Z := 64.

(** The board of a name that was never created. *)
Definition default_board : BoardConfig :=
  mkBoard [mkField (Some "score") SHIELD_SORT_DESC] [kDefaultFieldBits] true.

Definition is_desc (d : sort_direction) : bool := bool_decide (d = SHIELD_SORT_DESC).

(** [materialize_board]: the fields as the caller passed them. *)
Definition materialize_board (defs : list field_def) : BoardConfig :=
  match defs with
  | [] => default_board
  | d :: _ => mkBoard defs (map (fun _ => kDefaultFieldBits) defs) (is_desc (fd_dir d))
  end.

(** ** Composite scores *)

(** The values in the order of the board: the last one of a field wins, fields
    that are missing count 0. *)
Fixpoint field_index (defs : list field_def) (name : string) : option nat :=
  match defs with
  | [] => None
  | d :: defs =>
      if bool_decide (fd_name d = Some name) then Some O
      else match field_index defs name with Some j => Some (S j) | None => None end
  end.

Definition place (defs : list field_def) (ordered : list spec_float) (f : option string * spec_float) : list spec_float :=
  match f.1 with
  | None => ordered
  | Some name => match field_index defs name with Some j => <[j := f.2]> ordered | None => ordered end
  end.

Definition order_fields (defs : list field_def) (fields : list (option string * spec_float)) : list spec_float :=
  foldl (place defs) (map (fun _ => S754_zero false) defs) fields.

Definition sum_bits (bits : list Z) : Z := foldr Z.add 0 bits.

(** [1ULL << n], [v << n] and [v >> n] are undefined for 64 and more. *)
Definition shl64 (v n : Z) : outcome Z :=
  if (0 <=? n) && (n <? 64) then Ret (u64 (Z.shiftl v n)) else Undef.
Definition shr64 (v n : Z) : outcome Z :=
  if (0 <=? n) && (n <? 64) then Ret (Z.shiftr v n) else Undef.
Definition mask_of (bits : Z) : outcome Z := let! m := shl64 1 bits in Ret (u64 (m - 1)).

(** [static_cast<uint64_t>] of a double. *)
Definition to_uint64 (d : spec_float) : outcome Z := float_cast 0 (2 ^ 64 - 1) d.

Fixpoint pack (ordered : list spec_float) (bits : list Z) (shift composite : Z) : outcome Z :=
  match ordered, bits with
  | [], _ => Ret composite
  | _ :: _, [] => Undef
  | v :: ordered, b :: bits =>
      let shift := shift - b in
      if shift <? 0 then Ret composite
      else
        let! mask := mask_of b in
        let! v := to_uint64 v in
        let! v := shl64 (Z.land v mask) shift in
        pack ordered bits shift (Z.lor composite v)
  end.

Definition encode_composite (bc : BoardConfig) (fields : list (option string * spec_float)) : outcome spec_float :=
  let total_bits := sum_bits (field_bits bc) in
  let total_bits := if kMaxFieldBits <? total_bits then kMaxFieldBits else total_bits in
  let! composite := pack (order_fields (field_defs bc) fields) (field_bits bc) total_bits 0 in
  Ret (double_of_Z composite).

(** The values that the loop reaches; the rest stays 0. *)
Fixpoint unpack (n : nat) (bits : list Z) (shift val : Z) : outcome (list spec_float) :=
  match n, bits with
  | O, _ => Ret []
  | S _, [] => Undef
  | S n, b :: bits =>
      let shift := shift - b in
      if shift <? 0 then Ret (replicate (S n) (S754_zero false))
      else
        let! mask := mask_of b in
        let! v := shr64 val shift in
        let! rest := unpack n bits shift val in
        Ret (double_of_Z (Z.land v mask) :: rest)
  end.

Definition decode_composite (bc : BoardConfig) (composite : spec_float) : outcome (list spec_float) :=
  let! val := to_uint64 composite in
  unpack (length (field_defs bc)) (field_bits bc) (sum_bits (field_bits bc)) val.

(** ** Redis *)

(** [sw::redis::ConnectionOptions] *)
Record RedisOptions := mkRedisOptions {
  opt_host : string;
  opt_port : Z;
  opt_password : option string;
  opt_db : Z;
  connect_timeout : Z;
  socket_timeout : Z
}.

(** The commands: a text on the left is what the exception says.  A command that
    changes the database may have done so although it throws, when only its answer
    was lost. *)
Class Redis := {
  database : Type;
  redis_ping : RedisOptions -> option string;
  zadd : string -> string -> spec_float -> database -> (string + unit) * database;
  zrem : string -> string -> database -> (string + unit) * database;
  redis_del : string -> database -> (string + unit) * database;
  zscore : string -> string -> database -> string + option spec_float;
  zrank : string -> string -> database -> string + option Z;
  zrange : string -> Z -> Z -> database -> string + list (string * spec_float);
  zrevrange : string -> Z -> Z -> database -> string + list (string * spec_float)
}.

(** A value above zero, or the default. *)
Definition positive_or (z def : Z) : Z := if 0 <? z then z else def.

Record ConnectArgs := mkConnectArgs {
  arg_host : option string;
  arg_port : Z;
  arg_password : option string;
  arg_db : Z;
  arg_connect_timeout_ms : Z;
  arg_command_timeout_ms : Z
}.

Definition nonempty (s : option string) : option string :=
  match s with Some s => if str_empty s then None else Some s | None => None end.

Definition connect_options (a : ConnectArgs) : RedisOptions :=
  mkRedisOptions (default "localhost" (nonempty (arg_host a))) (positive_or (arg_port a) 6379)
    (nonempty (arg_password a)) (positive_or (arg_db a) 0) (positive_or (arg_connect_timeout_ms a) 5000)
    (positive_or (arg_command_timeout_ms a) 5000).

(** A connection: the boards it knows.  The database is shared. *)
Abbreviation Boards := (gmap string BoardConfig).

(** A table of fields in Lua. *)
Abbreviation Fields := (gmap string spec_float).

Section Board.
Context `{Redis}.

(** ** The table *)

Record Entry := mkEntry { entry_player : option string; entry_fields : list (option string * spec_float); entry_rank : Z }.

Definition lb_connect (args : option ConnectArgs) : string + option Boards :=
  match args with
  | None => inr None
  | Some a => match redis_ping (connect_options a) with Some e => inl e | None => inr (Some ∅) end
  end.

Definition create_board (c : option Boards) (name : option string) (defs : list field_def) : Z * option Boards :=
  match c, name with
  | Some boards, Some name => (0, Some (<[name := materialize_board defs]> boards))
  | _, _ => (-1, c)
  end.

Definition delete_board (c : option Boards) (name : option string) (db : database) : Z * option Boards * database :=
  match c, name with
  | Some boards, Some name =>
      match redis_del name db with
      | (inr _, db) => (0, Some (delete name boards), db)
      | (inl _, db) => (-1, c, db)
      end
  | _, _ => (-1, c, db)
  end.

Definition board_of (boards : Boards) (name : string) : BoardConfig := default default_board (boards !! name).

Definition set_entry (c : option Boards) (name player : option string) (fields : list (option string * spec_float))
    (db : database) : outcome (Z * database) :=
  match c, name, player with
  | Some boards, Some name, Some player =>
      let! score := encode_composite (board_of boards name) fields in
      Ret (match zadd name player score db with (inr _, db) => (0, db) | (inl _, db) => (-1, db) end)
  | _, _, _ => Ret (-1, db)
  end.

Definition remove_entry (c : option Boards) (name player : option string) (db : database) : Z * database :=
  match c, name, player with
  | Some _, Some name, Some player => match zrem name player db with (inr _, db) => (0, db) | (inl _, db) => (-1, db) end
  | _, _, _ => (-1, db)
  end.

(** What [get_entry] fills in; [None]: [out] is left as it is. *)
Definition get_entry (c : option Boards) (name player : option string) (db : database) : outcome (Z * option Entry) :=
  match c, name, player with
  | Some boards, Some name, Some player =>
      match zscore name player db with
      | inl _ => Ret (-1, None)
      | inr None => Ret (-1, Some (mkEntry None [] 0))
      | inr (Some score) =>
          let bc := match boards !! name with Some bc => bc | None => mkBoard [] [] true end in
          let bc := match field_defs bc with [] => default_board | _ => bc end in
          let! values := decode_composite bc score in
          Ret (0, Some (mkEntry (Some player) (zip (map fd_name (field_defs bc)) values) 0))
      end
  | _, _, _ => Ret (-1, None)
  end.

Definition get_rank (c : option Boards) (name player : option string) (db : database) : Z * option Z :=
  match c, name, player with
  | Some _, Some name, Some player =>
      match zrank name player db with
      | inl _ | inr None => (-1, Some 0)
      | inr (Some r) => (0, Some (r + 1))
      end
  | _, _, _ => (-1, None)
  end.

(** [shield_leaderboard_result]: success, the error code and message, and the
    entries. *)
Record TopResult := mkTop { top_success : Z; top_code : string; top_msg : string; top_entries : list Entry }.

Definition ranked (rows : list (string * spec_float)) : list Entry :=
  imap (fun i r => mkEntry (Some r.1) [] (Z.of_nat i + 1)) rows.

Definition top_n (c : option Boards) (name : option string) (n : Z) (db : database) : Z * TopResult :=
  match c, name with
  | Some boards, Some name =>
      if n <=? 0 then (-1, mkTop 0 "invalid_args" "" [])
      else
        let desc := match boards !! name with Some bc => primary_desc bc | None => true end in
        match (if desc then zrevrange name 0 (n - 1) db else zrange name 0 (n - 1) db) with
        | inl e => (-1, mkTop 0 "lb_query_failed" e [])
        | inr rows => (0, mkTop 1 "" "" (ranked rows))
        end
  | _, _ => (-1, mkTop 0 "invalid_args" "" [])
  end.

(** ** The Lua proxy *)

Record LbInstance := mkLb {
  li_id : string;
  li_host : string;
  li_port : Z;
  li_db : Z;
  li_password : string;
  li_connect_timeout_ms : Z;
  li_command_timeout_ms : Z;
  li_boards : Boards
}.

Definition set_boards (b : Boards) (i : LbInstance) : LbInstance :=
  mkLb (li_id i) (li_host i) (li_port i) (li_db i) (li_password i) (li_connect_timeout_ms i)
    (li_command_timeout_ms i) b.

(** The members of the configuration that are used, when they have the type. *)
Definition text_or (key : string) (j : json) (def : string) : string :=
  match get key j with Some (JStr s) => s | _ => def end.
Definition int_or (key : string) (j : json) (def : Z) : Z :=
  match get key j with Some (JInt z) | Some (JUInt z) => signed32 z | _ => def end.

Definition parse_instance_config `{JsonLib} (config_json : option string) (i : LbInstance) : LbInstance :=
  match nonempty config_json with
  | None => i
  | Some text =>
      match json_parse (bytes_of text) with
      | inl _ => i
      | inr j =>
          mkLb (li_id i) (text_or "host" j (li_host i)) (int_or "port" j (li_port i)) (int_or "db" j (li_db i))
            (text_or "password" j (li_password i)) (int_or "connect_timeout_ms" j (li_connect_timeout_ms i))
            (int_or "command_timeout_ms" j (li_command_timeout_ms i)) (li_boards i)
      end
  end.

Definition lb_create `{JsonLib} (instance_id config_json : option string) : LbInstance :=
  parse_instance_config config_json (mkLb (default "" instance_id) "127.0.0.1" 6379 0 "" 5000 5000 ∅).

Definition instance_options (i : LbInstance) : RedisOptions :=
  mkRedisOptions (if str_empty (li_host i) then "localhost" else li_host i) (positive_or (li_port i) 6379)
    (if str_empty (li_password i) then None else Some (li_password i)) (positive_or (li_db i) 0)
    (positive_or (li_connect_timeout_ms i) 5000) (positive_or (li_command_timeout_ms i) 5000).

(** The error of [open_redis], if any. *)
Definition open_redis (i : LbInstance) : option string := redis_ping (instance_options i).

(** What a function of the proxy returns. *)
Inductive reply :=
| Failed (code message : string)
| Done
| NoEntry
| GotEntry (player : string) (fields : Fields)
| GotRank (rank : Z)
| GotRows (rows : list (string * Z * Fields)).

(** The table given to [create_board]: each entry of its fields that is a table
    has the name and the order that [get_or] finds. *)
Record BoardDef := mkDef { def_fields : option (list (option (option string * option string))); def_sort : option string }.

Definition direction_of (order : string) : sort_direction :=
  if String.eqb order "asc" then SHIELD_SORT_ASC else SHIELD_SORT_DESC.

Fixpoint parse_fields (l : list (option (option string * option string))) : list (string * sort_direction) :=
  match l with
  | [] => []
  | None :: l => parse_fields l
  | Some (name, order) :: l =>
      let name := default "" name in
      if str_empty name then parse_fields l
      else (name, direction_of (default "desc" order)) :: parse_fields l
  end.

Definition override_sort (sort : option string) (parsed : list (string * sort_direction)) : list (string * sort_direction) :=
  match nonempty sort, parsed with
  | Some order, (name, _) :: rest => (name, direction_of order) :: rest
  | _, _ => parsed
  end.

Definition parse_def (d : BoardDef) : list (string * sort_direction) :=
  override_sort (def_sort d)
    (match parse_fields (default [] (def_fields d)) with [] => [("score", SHIELD_SORT_DESC)] | l => l end).

Definition board_of_def (d : BoardDef) : BoardConfig :=
  let parsed := parse_def d in
  mkBoard (map (fun p => mkField (Some p.1) p.2) parsed) (map (fun _ => kDefaultFieldBits) parsed)
    (match parsed with (_, dir) :: _ => is_desc dir | [] => true end).

Definition lua_create_board (name : string) (d : BoardDef) (i : LbInstance) : reply * LbInstance :=
  (Done, set_boards (<[name := board_of_def d]> (li_boards i)) i).

(** Every other function opens a connection first. *)
Definition with_redis {A} (i : LbInstance) (s : A) (k : outcome (reply * A)) : outcome (reply * A) :=
  match open_redis i with Some e => Ret (Failed "connection_failed" e, s) | None => k end.

Definition lua_delete_board (name : string) (i : LbInstance) (db : database) : outcome (reply * (LbInstance * database)) :=
  with_redis i (i, db) (Ret (match redis_del name db with
    | (inl e, db) => (Failed "lb_query_failed" e, (i, db))
    | (inr _, db) => (Done, (set_boards (delete name (li_boards i)) i, db))
    end)).

(** The entries of a Lua table that are fields: text keys with numbers or
    booleans. *)
Fixpoint lua_fields (t : list (lval * lval)) : list (option string * spec_float) :=
  match t with
  | [] => []
  | (VStr k, v) :: t =>
      match v with
      | VBool b => (Some (string_of k), double_of_Z (Z.b2z b)) :: lua_fields t
      | VInt z => (Some (string_of k), double_of_Z z) :: lua_fields t
      | VNum bits => (Some (string_of k), double_of_bits bits) :: lua_fields t
      | _ => lua_fields t
      end
  | _ :: t => lua_fields t
  end.

Definition lua_set_entry (name player : string) (t : list (lval * lval)) (i : LbInstance) (db : database)
  : outcome (reply * database) :=
  with_redis i db (
    let! score := encode_composite (board_of (li_boards i) name) (lua_fields t) in
    Ret (match zadd name player score db with (inl e, db) => (Failed "lb_query_failed" e, db) | (inr _, db) => (Done, db) end)).

Definition lua_remove_entry (name player : string) (i : LbInstance) (db : database) : outcome (reply * database) :=
  with_redis i db (Ret (match zrem name player db with
    | (inl e, db) => (Failed "lb_query_failed" e, db)
    | (inr _, db) => (Done, db)
    end)).

(** [fields[name] = value] for the fields that have a name. *)
Definition fields_table (bc : BoardConfig) (values : list spec_float) : Fields :=
  foldl (fun m p => match p.1 with Some name => <[name := p.2]> m | None => m end) ∅
    (zip (map fd_name (field_defs bc)) values).

Definition lua_get_entry (name player : string) (i : LbInstance) (db : database) : outcome (reply * database) :=
  with_redis i db (
    match zscore name player db with
    | inl e => Ret (Failed "lb_query_failed" e, db)
    | inr None => Ret (NoEntry, db)
    | inr (Some score) =>
        let bc := board_of (li_boards i) name in
        let! values := decode_composite bc score in
        Ret (GotEntry player (fields_table bc values), db)
    end).

Definition lua_get_rank (name player : string) (i : LbInstance) (db : database) : outcome (reply * database) :=
  with_redis i db (Ret (match zrank name player db with
    | inl e => (Failed "lb_query_failed" e, db)
    | inr None => (GotRank 0, db)
    | inr (Some r) => (GotRank (r + 1), db)
    end)).

Fixpoint lua_rows (bc : BoardConfig) (idx : Z) (rows : list (string * spec_float)) : outcome (list (string * Z * Fields)) :=
  match rows with
  | [] => Ret []
  | (member, score) :: rows =>
      let! values := decode_composite bc score in
      let! rest := lua_rows bc (idx + 1) rows in
      Ret ((member, idx, fields_table bc values) :: rest)
  end.

Definition lua_top_n (name : string) (n : Z) (i : LbInstance) (db : database) : outcome (reply * database) :=
  with_redis i db (
    if n <=? 0 then Ret (Failed "invalid_args" "n must be positive", db)
    else
      let bc := board_of (li_boards i) name in
      match (if primary_desc bc then zrevrange name 0 (n - 1) db else zrange name 0 (n - 1) db) with
      | inl e => Ret (Failed "lb_query_failed" e, db)
      | inr rows => let! rows := lua_rows bc 1 rows in Ret (GotRows rows, db)
      end).
End Board.

(** ** Composite scores are exact and ordered *)

(** Values that fit the widths of their fields, and the number they make. *)
Definition fits : list Z -> list Z -> Prop := Forall2 (fun v b => 0 < b /\ 0 <= v < 2 ^ b).

Fixpoint weigh (vs bits : list Z) : Z :=
  match vs, bits with
  | v :: vs, b :: bits => v * 2 ^ sum_bits bits + weigh vs bits
  | _, _ => 0
  end.

(** The order of the boards: the first field that differs decides. *)
Fixpoint lex (a b : list Z) : comparison :=
  match a, b with
  | x :: a, y :: b => match x ?= y with Eq => lex a b | c => c end
  | [], [] => Eq
  | [], _ => Lt
  | _, [] => Gt
  end.

Lemma sum_bits_nonneg vs bits : fits vs bits -> 0 <= sum_bits bits.
Proof. induction 1 as [|v b vs bits [Hb _] _ IH]; unfold sum_bits in *; cbn; lia. Qed.

Lemma weigh_range vs bits : fits vs bits -> 0 <= weigh vs bits < 2 ^ sum_bits bits.
Proof.
  induction 1 as [|v b vs bits [Hb Hv] Hf IH]; [done|]. cbn [weigh sum_bits foldr].
  fold (sum_bits bits). pose proof (sum_bits_nonneg _ _ Hf). rewrite Z.pow_add_r by lia. nia.
Qed.

Lemma weigh_lex a b bits : fits a bits -> fits b bits -> (weigh a bits ?= weigh b bits) = lex a b.
Proof.
  intros Ha. revert b. induction Ha as [|v w vs bits [Hw Hv] Hf IH]; intros b Hb; inversion Hb as [|v' w' vs' bits' [_ Hv'] Hf']; subst.
  - done.
  - cbn [weigh lex]. pose proof (weigh_range _ _ Hf). pose proof (weigh_range _ _ Hf'). rewrite <-(IH _ Hf').
    destruct (Z.compare_spec v v') as [->|?|?].
    + destruct (Z.compare_spec (weigh vs bits) (weigh vs' bits));
        [apply Z.compare_eq_iff|apply Z.compare_lt_iff|apply Z.compare_gt_iff]; lia.
    + apply Z.compare_lt_iff. nia.
    + apply Z.compare_gt_iff. nia.
Qed.

Lemma shl64_small v n k : 0 <= v < 2 ^ k -> 0 <= n -> 0 <= k -> n + k < 64 -> shl64 v n = Ret (v * 2 ^ n).
Proof.
  intros Hv Hn Hk Hs. unfold shl64. destruct (Z.leb_spec 0 n); [|lia]. destruct (Z.ltb_spec n 64); [|lia].
  cbn [andb]. rewrite Z.shiftl_mul_pow2 by done. rewrite cast_small; [done|]. split; [nia|].
  apply Z.lt_le_trans with (2 ^ (k + n)); [rewrite Z.pow_add_r by lia; nia|apply Z.pow_le_mono_r; lia].
Qed.

Lemma mask_of_small b : 0 < b < 63 -> mask_of b = Ret (Z.ones b).
Proof.
  intros Hb. unfold mask_of. rewrite (shl64_small 1 b 1) by lia. cbn [obind]. rewrite Z.ones_equiv.
  replace (1 * 2 ^ b - 1) with (Z.pred (2 ^ b)) by lia. rewrite cast_small; [done|].
  assert (0 < 2 ^ b < 2 ^ 64) by (split; [lia|apply Z.pow_lt_mono_r; lia]). lia.
Qed.

Lemma pack_weigh vs bits q : fits vs bits -> sum_bits bits <= 53 -> 0 <= q ->
  pack (map double_of_Z vs) bits (sum_bits bits) (q * 2 ^ sum_bits bits) =
  Ret (q * 2 ^ sum_bits bits + weigh vs bits).
Proof.
  intros Hf. revert q. induction Hf as [|v b vs bits [Hb Hv] Hf IH]; intros q Hs Hq.
  - cbn. f_equal. lia.
  - cbn [map pack sum_bits foldr weigh] in *. fold (sum_bits bits) in *. pose proof (sum_bits_nonneg _ _ Hf).
    replace (b + sum_bits bits - b) with (sum_bits bits) by lia. destruct (Z.ltb_spec (sum_bits bits) 0); [lia|].
    assert (Hv53 : 2 ^ b <= 2 ^ 53) by (apply Z.pow_le_mono_r; lia).
    rewrite mask_of_small by lia. cbn [obind]. unfold to_uint64. rewrite float_cast_exact by lia. cbn [obind].
    rewrite Z.land_ones, Z.mod_small by lia. rewrite (shl64_small v (sum_bits bits) b) by (done || lia). cbn [obind].
    rewrite lor_shifted; [|lia|rewrite Z.pow_add_r by lia; nia].
    replace (q * 2 ^ (b + sum_bits bits) + v * 2 ^ sum_bits bits) with ((q * 2 ^ b + v) * 2 ^ sum_bits bits)
      by (rewrite Z.pow_add_r by lia; lia).
    rewrite IH by nia. f_equal. rewrite Z.pow_add_r by lia. lia.
Qed.

Lemma unpack_weigh vs bits q : fits vs bits -> sum_bits bits <= 53 -> 0 <= q ->
  unpack (length vs) bits (sum_bits bits) (q * 2 ^ sum_bits bits + weigh vs bits) = Ret (map double_of_Z vs).
Proof.
  intros Hf. revert q. induction Hf as [|v b vs bits [Hb Hv] Hf IH]; intros q Hs Hq; [done|].
  cbn [map length unpack sum_bits foldr weigh] in *. fold (sum_bits bits) in *.
  pose proof (sum_bits_nonneg _ _ Hf). pose proof (weigh_range _ _ Hf).
  replace (b + sum_bits bits - b) with (sum_bits bits) by lia. destruct (Z.ltb_spec (sum_bits bits) 0); [lia|].
  rewrite mask_of_small by lia. cbn [obind]. unfold shr64.
  destruct (Z.leb_spec 0 (sum_bits bits)); [|lia]. destruct (Z.ltb_spec (sum_bits bits) 64); [|lia]. cbn [andb obind].
  replace (q * 2 ^ (b + sum_bits bits) + (v * 2 ^ sum_bits bits + weigh vs bits))
    with ((q * 2 ^ b + v) * 2 ^ sum_bits bits + weigh vs bits) by (rewrite Z.pow_add_r by lia; lia).
  rewrite IH by nia. cbn [obind]. rewrite Z.shiftr_div_pow2, Z.div_add_l, Z.div_small, Z.add_0_r by lia.
  rewrite Z.land_ones, Z.add_comm, Z.mod_add, Z.mod_small by lia. done.
Qed.

(** ** The fields of a board *)

(** Boards whose scores are exact: distinct names, and no more bits than a double
    holds. *)
Record board_ok (bc : BoardConfig) : Prop := {
  ok_nonempty : field_defs bc <> [];
  ok_lengths : length (field_bits bc) = length (field_defs bc);
  ok_names : forall d, d ∈ field_defs bc -> fd_name d <> None;
  ok_distinct : NoDup (map fd_name (field_defs bc));
  ok_widths : Forall (fun b => 0 < b) (field_bits bc);
  ok_total : sum_bits (field_bits bc) <= 53
}.

(** The fields of an entry, in the order of the board. *)
Definition named (bc : BoardConfig) (vs : list Z) : list (option string * spec_float) :=
  zip (map fd_name (field_defs bc)) (map double_of_Z vs).

Lemma field_index_lookup defs j name : NoDup (map fd_name defs) ->
  (field_index defs name = Some j <-> map fd_name defs !! j = Some (Some name)).
Proof.
  revert j. induction defs as [|d defs IH]; intros j Hd; [done|]. cbn [field_index map] in *.
  apply list.NoDup_cons in Hd as [Hn Hd]. case_bool_decide as E.
  - destruct j; cbn; [rewrite E; naive_solver|]. split; [done|]. intros Hj. exfalso. apply Hn. rewrite E.
    by eapply list_elem_of_lookup_2.
  - destruct j; cbn.
    + destruct (field_index defs name); split; [done| |done|]; congruence.
    + rewrite <-(IH j Hd). destruct (field_index defs name); split; congruence.
Qed.

Lemma place_lookup defs o f j name : NoDup (map fd_name defs) -> length o = length defs ->
  map fd_name defs !! j = Some (Some name) ->
  place defs o f !! j = if bool_decide (f.1 = Some name) then Some f.2 else o !! j.
Proof.
  intros Hd Hl Hj. destruct f as [[n|] v]; cbn [place fst snd]; [|done].
  assert (Hjl : (j < length o)%nat) by (rewrite Hl, <-(length_map fd_name); by eapply lookup_lt_Some).
  unfold place. cbn [fst snd]. case_bool_decide as E.
  - injection E as ->. rewrite (proj2 (field_index_lookup _ j _ Hd) Hj). by apply list_lookup_insert_eq.
  - destruct (field_index defs n) as [j'|] eqn:En; [|done]. apply field_index_lookup in En; [|done].
    apply list_lookup_insert_ne. intros ->. congruence.
Qed.

Lemma place_length defs o f : length (place defs o f) = length o.
Proof. unfold place. destruct f.1; [|done]. destruct (field_index _ _); [apply length_insert|done]. Qed.

(** Whatever order the caller gives the fields in. *)
Lemma order_fields_perm bc vs fields : board_ok bc -> length vs = length (field_defs bc) ->
  fields ≡ₚ named bc vs -> order_fields (field_defs bc) fields = map double_of_Z vs.
Proof.
  intros [_ _ Hn Hd _ _] Hl Hp.
  assert (Hfst : NoDup fields.*1).
  { rewrite Hp. unfold named. rewrite fst_zip; [done|]. rewrite !length_map. lia. }
  assert (Hin : forall f, f ∈ fields <-> f ∈ named bc vs) by (intros f; by rewrite Hp). clear Hp.
  assert (Hgen : forall o, length o = length (field_defs bc) ->
    length (foldl (place (field_defs bc)) o fields) = length o /\
    forall j name, map fd_name (field_defs bc) !! j = Some (Some name) ->
      (forall v, (Some name, v) ∈ fields -> foldl (place (field_defs bc)) o fields !! j = Some v) /\
      (Some name ∉ fields.*1 -> foldl (place (field_defs bc)) o fields !! j = o !! j)).
  { clear Hin. induction fields as [|f fields IH]; intros o Ho.
    - split; [done|]. intros j name Hj. split; [|done]. intros v Hv. by apply elem_of_nil in Hv.
    - cbn [foldl fmap list_fmap] in *. apply list.NoDup_cons in Hfst as [Hf Hfst].
      destruct (IH Hfst (place (field_defs bc) o f)) as [IHl IHj]; [by rewrite place_length|].
      split; [by rewrite IHl, place_length|]. intros j name Hj. destruct (IHj j name Hj) as [IH1 IH2]. split.
      + intros v [<-|Hv]%elem_of_cons; [|by apply IH1].
        rewrite IH2 by done. rewrite (place_lookup _ _ _ _ name) by done. by rewrite bool_decide_true.
      + intros [Hne Hni]%not_elem_of_cons. rewrite IH2 by done. rewrite (place_lookup _ _ _ _ name) by done.
        rewrite bool_decide_false by congruence. done. }
  destruct (Hgen (map (fun _ => S754_zero false) (field_defs bc))) as [Hlen Hat]; [by rewrite length_map|].
  apply list_eq_same_length with (length (field_defs bc)); [by rewrite length_map|unfold order_fields; by rewrite Hlen, length_map|].
  intros j x y Hj Hx Hy. destruct (lookup_lt_is_Some_2 (map fd_name (field_defs bc)) j) as [nm Hnm]; [by rewrite length_map|].
  destruct nm as [name|].
  - destruct (Hat j name Hnm) as [Hv _]. unfold order_fields in Hx. rewrite (Hv y) in Hx; [congruence|].
    apply Hin. unfold named. apply list_elem_of_lookup. exists j. by rewrite lookup_zip_with, Hnm; cbn; rewrite Hy.
  - exfalso. apply list_lookup_fmap_Some in Hnm as (d & Hdn & Hd'). eapply Hn; [|by rewrite <-Hdn].
    by eapply list_elem_of_lookup_2.
Qed.

Lemma fits_length vs bits : fits vs bits -> length vs = length bits.
Proof. apply Forall2_length. Qed.

(** The score of an entry, and its fields back. *)
Lemma encode_entry bc vs fields : board_ok bc -> fits vs (field_bits bc) -> fields ≡ₚ named bc vs ->
  encode_composite bc fields = Ret (double_of_Z (weigh vs (field_bits bc))).
Proof.
  intros Hok Hf Hp. pose proof (fits_length _ _ Hf) as Hl. pose proof Hok as [_ Hlen _ _ _ Ht].
  unfold encode_composite. rewrite (order_fields_perm bc vs) by (done || lia).
  assert (E : (kMaxFieldBits <? sum_bits (field_bits bc)) = false) by (apply Z.ltb_ge; unfold kMaxFieldBits; lia).
  rewrite E. pose proof (pack_weigh vs (field_bits bc) 0 Hf Ht ltac:(lia)) as Hw. rewrite Z.mul_0_l, Z.add_0_l in Hw.
  by rewrite Hw.
Qed.

Lemma weigh_double bc vs : board_ok bc -> fits vs (field_bits bc) -> 0 <= weigh vs (field_bits bc) < 2 ^ 53.
Proof.
  intros [_ _ _ _ _ Ht] Hf. pose proof (weigh_range _ _ Hf). pose proof (sum_bits_nonneg _ _ Hf).
  pose proof (Z.pow_le_mono_r 2 (sum_bits (field_bits bc)) 53). lia.
Qed.

Lemma decode_entry bc vs : board_ok bc -> fits vs (field_bits bc) ->
  decode_composite bc (double_of_Z (weigh vs (field_bits bc))) = Ret (map double_of_Z vs).
Proof.
  intros Hok Hf. pose proof (fits_length _ _ Hf) as Hl. pose proof (weigh_double _ _ Hok Hf) as Hw.
  destruct Hok as [_ Hlen _ _ _ Ht]. unfold decode_composite, to_uint64. rewrite float_cast_exact by lia. cbn [obind].
  rewrite <-Hlen, <-Hl. pose proof (unpack_weigh vs (field_bits bc) 0 Hf Ht ltac:(lia)) as Hu.
  by rewrite Z.mul_0_l, Z.add_0_l in Hu.
Qed.

(** ** What Redis promises *)

Section Laws.
Context `{Redis}.

(** The first [n + 1] members of a sorted set, in an order of the scores. *)
Definition leading (le : spec_float -> spec_float -> bool) (k : string) (n : Z) (d : database)
    (rows : list (string * spec_float)) : Prop :=
  NoDup rows.*1 /\ vsize rows <= n + 1 /\
  (forall m s, (m, s) ∈ rows -> zscore k m d = inr (Some s)) /\
  StronglySorted (fun a b => le a.2 b.2 = true) rows /\
  (forall m s, zscore k m d = inr (Some s) -> m ∉ rows.*1 ->
     vsize rows = n + 1 /\ forall r, r ∈ rows -> le r.2 s = true).

(** The scores of [d'] are those of [d] with one changed. *)
Definition score_set (k m : string) (v : option spec_float) (d d' : database) : Prop :=
  forall k' m', zscore k' m' d' = if bool_decide (k' = k /\ m' = m) then inr v else zscore k' m' d.
Definition scores_kept (d d' : database) : Prop := forall k m, zscore k m d' = zscore k m d.

(** A command that fails was executed or not. *)
Class redis_laws : Prop := {
  zadd_score k m s d d' : zadd k m s d = (inr tt, d') -> score_set k m (Some s) d d';
  zadd_failed k m s d e d' : zadd k m s d = (inl e, d') -> scores_kept d d' \/ score_set k m (Some s) d d';
  zrem_score k m d d' : zrem k m d = (inr tt, d') -> score_set k m None d d';
  zrem_failed k m d e d' : zrem k m d = (inl e, d') -> scores_kept d d' \/ score_set k m None d d';
  zrange_leading k n d rows : 0 <= n -> zrange k 0 n d = inr rows -> leading SFleb k n d rows;
  zrevrange_leading k n d rows : 0 <= n -> zrevrange k 0 n d = inr rows -> leading (fun a b => SFleb b a) k n d rows
}.

(** ** The abstract board

    A map from players to their values. *)

Abbreviation Standings := (gmap string (list Z)).

Inductive board_op :=
| PutEntry (player : string) (vs : list Z) (fields : list (option string * spec_float))
| RemoveEntry (player : string).

Definition board_step (boards : Boards) (board : string) (op : board_op) (db : database) : outcome (Z * database) :=
  match op with
  | PutEntry player _ fields => set_entry (Some boards) (Some board) (Some player) fields db
  | RemoveEntry player => Ret (remove_entry (Some boards) (Some board) (Some player) db)
  end.

(** What an operation does to the standings. *)
Definition standing (op : board_op) (m : Standings) : Standings :=
  match op with PutEntry p vs _ => <[p := vs]> m | RemoveEntry p => delete p m end.

(** The operations with the codes that they were answered with. *)
Fixpoint board_run (boards : Boards) (board : string) (ops : list board_op) (db : database)
  : outcome (list (board_op * Z) * database) :=
  match ops with
  | [] => Ret ([], db)
  | op :: ops =>
      let! r := board_step boards board op db in
      let! rest := board_run boards board ops r.2 in
      Ret ((op, r.1) :: rest.1, rest.2)
  end.

(** What is answered with 0 was done; what is answered with -1 was done or not. *)
Inductive came_of : list (board_op * Z) -> Standings -> Standings -> Prop :=
| came_nil m : came_of [] m m
| came_done op l m m' : came_of l (standing op m) m' -> came_of ((op, 0) :: l) m m'
| came_failed op l m m' : came_of l m m' \/ came_of l (standing op m) m' -> came_of ((op, -1) :: l) m m'.

(** The fields of an operation are the values, in any order. *)
Definition op_ok (bc : BoardConfig) (op : board_op) : Prop :=
  match op with
  | PutEntry _ vs fields => fits vs (field_bits bc) /\ fields ≡ₚ named bc vs
  | RemoveEntry _ => True
  end.

Definition score_of (bc : BoardConfig) (vs : list Z) : spec_float := double_of_Z (weigh vs (field_bits bc)).

Definition tracks (bc : BoardConfig) (board : string) (m : Standings) (db : database) : Prop :=
  (forall p, zscore board p db = inr (score_of bc <$> m !! p)) /\ map_Forall (fun _ vs => fits vs (field_bits bc)) m.

(** The order of a board. *)
Definition better (desc : bool) (a b : list Z) : Prop := if desc then lex a b <> Lt else lex a b <> Gt.

Context `{!redis_laws}.

Lemma tracks_kept bc board m d d' : tracks bc board m d -> scores_kept d d' -> tracks bc board m d'.
Proof. intros [Ht Hm] Hk. split; [intros p; by rewrite Hk|done]. Qed.

Lemma tracks_put bc board p vs m d d' :
  fits vs (field_bits bc) -> tracks bc board m d -> score_set board p (Some (score_of bc vs)) d d' ->
  tracks bc board (<[p := vs]> m) d'.
Proof.
  intros Hf [Ht Hm] Hs. split; [|by apply map_Forall_insert_2]. intros p'. rewrite (Hs board p').
  destruct (decide (p' = p)) as [->|Hne].
  - rewrite bool_decide_true by done. by rewrite lookup_insert_eq.
  - rewrite bool_decide_false by naive_solver. by rewrite lookup_insert_ne.
Qed.

Lemma tracks_remove bc board p m d d' :
  tracks bc board m d -> score_set board p None d d' -> tracks bc board (delete p m) d'.
Proof.
  intros [Ht Hm] Hs. split; [|by apply map_Forall_delete]. intros p'. rewrite (Hs board p').
  destruct (decide (p' = p)) as [->|Hne].
  - rewrite bool_decide_true by done. by rewrite lookup_delete_eq.
  - rewrite bool_decide_false by naive_solver. by rewrite lookup_delete_ne.
Qed.

Lemma step_tracks bc boards board op m db :
  boards !! board = Some bc -> board_ok bc -> op_ok bc op -> tracks bc board m db ->
  exists rc db', board_step boards board op db = Ret (rc, db') /\
    ((rc = 0 /\ tracks bc board (standing op m) db') \/
     (rc = -1 /\ (tracks bc board m db' \/ tracks bc board (standing op m) db'))).
Proof.
  intros Hb Hok Ho Ht. destruct op as [p vs fields|p]; cbn [board_step op_ok standing] in *.
  - destruct Ho as [Hf Hp]. cbn [set_entry]. unfold board_of. rewrite Hb. cbn [default].
    rewrite (encode_entry bc vs) by done. cbn [obind]. destruct (zadd _ _ _ db) as [[e|[]] db'] eqn:E; eexists _, db'; (split; [done|]).
    + right. split; [done|]. destruct (zadd_failed _ _ _ _ _ _ E) as [Hk|Hs]; [left; by eapply tracks_kept|right; by eapply tracks_put].
    + left. split; [done|]. by eapply tracks_put, zadd_score.
  - cbn [remove_entry]. destruct (zrem _ _ db) as [[e|[]] db'] eqn:E; eexists _, db'; (split; [done|]).
    + right. split; [done|]. destruct (zrem_failed _ _ _ _ _ E) as [Hk|Hs]; [left; by eapply tracks_kept|right; by eapply tracks_remove].
    + left. split; [done|]. by eapply tracks_remove, zrem_score.
Qed.

Lemma run_tracks bc boards board ops m db :
  boards !! board = Some bc -> board_ok bc -> Forall (op_ok bc) ops -> tracks bc board m db ->
  exists l m' db', board_run boards board ops db = Ret (l, db') /\ map fst l = ops /\ came_of l m m' /\ tracks bc board m' db'.
Proof.
  intros Hb Hok Ho. revert m db. induction Ho as [|op ops Hop Ho IH]; intros m db Ht.
  { exists [], m, db. split_and!; [done..|constructor|exact Ht]. }
  cbn [board_run]. destruct (step_tracks bc boards board op m db) as (rc & db1 & -> & Hrc); [done..|]. cbn [obind fst snd].
  assert (Hm : exists m1, tracks bc board m1 db1 /\ forall l m', came_of l m1 m' -> came_of ((op, rc) :: l) m m').
  { destruct Hrc as [[-> H1]|[-> [H1|H1]]]; [exists (standing op m)|exists m|exists (standing op m)]; (split; [exact H1|]); constructor; auto. }
  destruct Hm as (m1 & H1 & Hc). destruct (IH m1 db1 H1) as (l & m' & db' & -> & E & Hl & Ht'). cbn [obind fst snd].
  exists ((op, rc) :: l), m', db'. cbn. rewrite E. auto.
Qed.

(** Scores and values have the same order. *)
Lemma score_order bc a b : board_ok bc -> fits a (field_bits bc) -> fits b (field_bits bc) ->
  SFleb (score_of bc a) (score_of bc b) = match lex a b with Gt => false | _ => true end.
Proof.
  intros Hok Ha Hb. unfold SFleb, score_of. rewrite double_compare by (by apply weigh_double).
  rewrite weigh_lex by done. by destruct (lex a b).
Qed.

Lemma lex_antisym a b : lex b a = CompOpp (lex a b).
Proof.
  revert b. induction a as [|x a IH]; intros [|y b]; cbn [lex]; try done. rewrite (Z.compare_antisym x y).
  destruct (x ?= y); [apply IH|done|done].
Qed.

Lemma score_better bc (desc : bool) a b : board_ok bc -> fits a (field_bits bc) -> fits b (field_bits bc) ->
  (if desc then SFleb (score_of bc b) (score_of bc a) else SFleb (score_of bc a) (score_of bc b)) = true <->
  better desc a b.
Proof.
  intros Hok Ha Hb. unfold better. destruct desc; rewrite score_order by done; [rewrite (lex_antisym a b)|];
    destruct (lex a b); cbn; split; congruence.
Qed.

(** The first [n] players of the abstract board. *)
Definition leaders (desc : bool) (n : Z) (m : Standings) (rows : list (string * list Z)) : Prop :=
  NoDup rows.*1 /\ vsize rows <= n /\ (forall p vs, (p, vs) ∈ rows -> m !! p = Some vs) /\
  StronglySorted (fun a b => better desc a.2 b.2) rows /\
  (forall p vs, m !! p = Some vs -> p ∉ rows.*1 -> vsize rows = n /\ forall r, r ∈ rows -> better desc r.2 vs).

Definition scored (bc : BoardConfig) (rows : list (string * list Z)) : list (string * spec_float) :=
  map (fun r => (r.1, score_of bc r.2)) rows.

Lemma scored_fst bc rows : (scored bc rows).*1 = rows.*1.
Proof. unfold scored. rewrite <-list_fmap_compose. done. Qed.

(** Rows of a board that tracks [m] are scored rows of [m]. *)
Lemma rows_scored bc board m db rows : tracks bc board m db ->
  (forall p s, (p, s) ∈ rows -> zscore board p db = inr (Some s)) ->
  exists rows', rows = scored bc rows' /\ forall p vs, (p, vs) ∈ rows' -> m !! p = Some vs.
Proof.
  intros [Ht _]. induction rows as [|[p s] rows IH]; intros Hr.
  - exists []. split; [done|]. intros p vs Hin. by apply elem_of_nil in Hin.
  - destruct IH as (rows' & -> & Hm); [intros; apply Hr; by right|].
    pose proof (Hr p s ltac:(left)) as Hp. rewrite Ht in Hp. injection Hp as Hp.
    apply fmap_Some in Hp as (vs & Hvs & ->). exists ((p, vs) :: rows'). split; [done|].
    intros p' vs' [[= -> ->]|Hin]%elem_of_cons; [done|by apply Hm].
Qed.

Lemma sorted_scored bc (desc : bool) (m : Standings) rows : board_ok bc -> map_Forall (fun _ vs => fits vs (field_bits bc)) m ->
  (forall p vs, (p, vs) ∈ rows -> m !! p = Some vs) ->
  StronglySorted (fun a b => (if desc then SFleb b.2 a.2 else SFleb a.2 b.2) = true) (scored bc rows) ->
  StronglySorted (fun a b => better desc a.2 b.2) rows.
Proof.
  intros Hok Hm. induction rows as [|[p vs] rows IH]; intros Hin Hs; [constructor|].
  cbn [scored map fst snd] in Hs. fold (scored bc rows) in Hs. apply StronglySorted_inv in Hs as [Hs Hf].
  constructor; [apply IH; [intros; apply Hin; by right|done]|].
  rewrite List.Forall_forall in Hf |- *. intros [p' vs'] Hi. cbn [snd].
  apply (score_better bc); [done|apply (Hm p), Hin; by left|apply (Hm p'), Hin; right; by apply list_elem_of_In|].
  specialize (Hf (p', score_of bc vs')). cbn [snd] in Hf. apply Hf. unfold scored.
  apply in_map_iff. by exists (p', vs').
Qed.

Lemma leading_leaders bc board (desc : bool) n m db rows :
  board_ok bc -> tracks bc board m db ->
  leading (fun a b => if desc then SFleb b a else SFleb a b) board n db rows ->
  exists rows', rows = scored bc rows' /\ leaders desc (n + 1) m rows'.
Proof.
  intros Hok Ht (Hd & Hl & Hr & Hs & Hrest). destruct (rows_scored bc board m db rows) as (rows' & -> & Hm); [done..|].
  exists rows'. split; [done|]. rewrite scored_fst in *.
  assert (Hv : vsize (scored bc rows') = vsize rows') by (unfold vsize, scored; by rewrite length_map).
  destruct Ht as [Ht Hf]. split_and!; [done|lia|done|by eapply sorted_scored|].
  intros p vs Hp Hni. destruct (Hrest p (score_of bc vs)) as [Hlen Hle]; [by rewrite Ht, Hp|done|].
  split; [lia|]. intros [p' vs'] Hin. cbn [snd]. apply (score_better bc); [done| |by apply (Hf p)|].
  - apply (Hf p'). by apply Hm.
  - apply (Hle (p', score_of bc vs')). apply list_elem_of_In, in_map_iff. exists (p', vs'). split; [done|].
    by apply list_elem_of_In.
Qed.

(** The rows that the Lua proxy gives for players with their values. *)
Definition lua_ranked (bc : BoardConfig) (idx : Z) (rows : list (string * list Z)) : list (string * Z * Fields) :=
  imap (fun i r => (r.1, Z.of_nat i + idx, fields_table bc (map double_of_Z r.2))) rows.

Lemma lua_rows_scored bc idx rows : board_ok bc -> (forall p vs, (p, vs) ∈ rows -> fits vs (field_bits bc)) ->
  lua_rows bc idx (scored bc rows) = Ret (lua_ranked bc idx rows).
Proof.
  intros Hok. revert idx. induction rows as [|[p vs] rows IH]; intros idx Hf; [done|].
  cbn [scored map lua_rows fst snd]. fold (scored bc rows). unfold score_of.
  rewrite decode_entry by (done || (eapply Hf; by left)). cbn [obind].
  rewrite IH by (intros; eapply Hf; by right). cbn [obind]. unfold lua_ranked. rewrite imap_cons. cbn [fst snd].
  f_equal. f_equal. apply imap_ext. intros i [p' vs'] _. cbn [fst snd compose].
  by replace (Z.of_nat i + (idx + 1)) with (Z.of_nat (S i) + idx) by lia.
Qed.

Definition proxy_of (boards : Boards) (i : LbInstance) : Prop := li_boards i = boards /\ open_redis i = None.

(** C28: the board is the abstract board.  On a board whose fields fit a double,
    after any sequence of entries written and removed, with the fields in any
    order, the standings are those that the operations answered with 0 make, and of
    the others those whose answer alone was lost: an entry is read back with
    exactly the values written last, and the first [n] players are the [n] best,
    compared field by field in the direction of the first field, in order and with
    their ranks.  The functions of the Lua proxy give the same players with their
    values. *)
Theorem leaderboard_refines boards board bc ops db0 :
  boards !! board = Some bc -> board_ok bc -> Forall (op_ok bc) ops -> (forall p, zscore board p db0 = inr None) ->
  exists answers m db, board_run boards board ops db0 = Ret (answers, db) /\ map fst answers = ops /\ came_of answers ∅ m /\
  (forall p, get_entry (Some boards) (Some board) (Some p) db =
     Ret (match m !! p with
          | Some vs => (0, Some (mkEntry (Some p) (named bc vs) 0))
          | None => (-1, Some (mkEntry None [] 0))
          end)) /\
  (forall i p, proxy_of boards i -> lua_get_entry board p i db =
     Ret (match m !! p with Some vs => GotEntry p (fields_table bc (map double_of_Z vs)) | None => NoEntry end, db)) /\
  (forall n res, 0 < n -> top_n (Some boards) (Some board) n db = (0, res) ->
     exists rows, top_entries res = ranked (scored bc rows) /\ leaders (primary_desc bc) n m rows /\
       forall i, proxy_of boards i -> lua_top_n board n i db = Ret (GotRows (lua_ranked bc 1 rows), db)).
Proof.
  intros Hb Hok Ho Hz. destruct (run_tracks bc boards board ops ∅ db0) as (l & m & db & E & El & Hl & Ht); [done..| |].
  { split; [intros p; by rewrite Hz, lookup_empty|by intros ? ? []%lookup_empty_Some]. }
  exists l, m, db. split; [exact E|]. split; [exact El|]. split; [exact Hl|]. split; [|split].
  - intros p. cbn [get_entry]. rewrite (proj1 Ht). destruct (m !! p) as [vs|] eqn:Em; cbn [fmap option_fmap option_map]; [|done].
    rewrite Hb. destruct (field_defs bc) as [|d defs] eqn:Ed; [by destruct (ok_nonempty _ Hok)|].
    unfold score_of. rewrite decode_entry by (done || by apply (proj2 Ht p)). done.
  - intros i p [Hi Hr]. unfold lua_get_entry, with_redis, board_of. rewrite Hr, Hi, Hb, (proj1 Ht).
    destruct (m !! p) as [vs|] eqn:Em; cbn [fmap option_fmap option_map default]; [|done].
    unfold score_of. rewrite decode_entry by (done || by apply (proj2 Ht p)). done.
  - intros n res Hn. unfold top_n, lua_top_n, with_redis, board_of. destruct (Z.leb_spec n 0); [lia|]. rewrite Hb.
    destruct (if primary_desc bc then _ else _) as [e|rows] eqn:Er; [done|]. intros [= <-]. cbn [top_entries].
    destruct (leading_leaders bc board (primary_desc bc) (n - 1) m db rows Hok Ht) as (rows' & -> & Hld).
    { destruct (primary_desc bc); [apply zrevrange_leading|apply zrange_leading]; (done || lia). }
    exists rows'. rewrite Z.sub_add in Hld. split; [done|]. split; [done|]. intros i [Hi Hr].
    rewrite Hr, Hi, Hb. change (default default_board (Some bc)) with bc. rewrite Er, lua_rows_scored; [done|done|].
    intros p vs Hin. apply (proj2 Ht p). by apply Hld.
Qed.
End Laws.

(** Boards of at most three fields with distinct names are exact. *)
Lemma small_boards_ok defs : (length defs <= 3)%nat -> (forall d, d ∈ defs -> fd_name d <> None) ->
  NoDup (map fd_name defs) -> board_ok (materialize_board defs).
Proof.
  intros Hl Hn Hd. destruct defs as [|d defs]; cbn [materialize_board].
  { constructor; cbn; [done|done| |by repeat constructor; set_solver|by repeat constructor|done].
    intros d Hd'. apply list_elem_of_singleton in Hd' as ->. done. }
  constructor; cbn [field_defs field_bits]; [done|by rewrite length_map|done|done| |].
  - apply List.Forall_forall. intros b Hb. apply in_map_iff in Hb as (? & <- & _). done.
  - destruct defs as [|d1 [|d2 [|d3 defs]]]; cbn in *; first [lia|done].
Qed.

(** ** A small Redis

    Sorted sets of scores that are integers a double holds; other scores are
    refused. *)

Abbreviation sets := (gmap string (gmap string Z)).
Definition set_at (k : string) (d : sets) : gmap string Z := default ∅ (d !! k).
Definition clip (z : Z) : Z := Z.max 0 (Z.min z (2 ^ 53 - 1)).
Definition score_at (z : Z) : spec_float := double_of_Z (clip z).

#[local] Instance spec_float_eq_dec : EqDecision spec_float.
Proof. solve_decision. Defined.

(** The order of the rows, one way or the other. *)
Definition ahead (desc : bool) (a b : string * Z) : Prop := if desc then b.2 <= a.2 else a.2 <= b.2.
#[local] Instance ahead_dec desc : RelDecision (ahead desc).
Proof. intros a b. destruct desc; apply Z_le_dec. Defined.
#[local] Instance ahead_total desc : Total (ahead desc).
Proof. intros a b. unfold ahead. destruct desc; lia. Qed.
#[local] Instance ahead_trans desc : Transitive (ahead desc).
Proof. intros a b c. unfold ahead. destruct desc; lia. Qed.

Definition all_rows (desc : bool) (k : string) (d : sets) : list (string * Z) :=
  merge_sort (ahead desc) (map_to_list (set_at k d)).

Definition first_rows (desc : bool) (k : string) (n : Z) (d : sets) : list (string * spec_float) :=
  map (fun r => (r.1, score_at r.2)) (take (Z.to_nat (n + 1)) (all_rows desc k d)).

#[local] Instance small_redis : Redis := {
  database := sets;
  redis_ping := fun _ => None;
  zadd := fun k m s d =>
    match float_trunc s with
    | Some z => if bool_decide (s = score_at z) then (inr tt, <[k := <[m := z]> (set_at k d)]> d) else (inl "ERR", d)
    | None => (inl "ERR value is not a valid float", d)
    end;
  zrem := fun k m d => (inr tt, <[k := delete m (set_at k d)]> d);
  redis_del := fun k d => (inr tt, delete k d);
  zscore := fun k m d => inr (score_at <$> set_at k d !! m);
  zrank := fun k m d => inr ((fun r => Z.of_nat r.1) <$> list_find (fun r => r.1 = m) (all_rows false k d));
  zrange := fun k _ n d => inr (first_rows false k n d);
  zrevrange := fun k _ n d => inr (first_rows true k n d)
}.

Lemma set_at_insert k s d k' : set_at k' (<[k := s]> d) = if bool_decide (k' = k) then s else set_at k' d.
Proof.
  unfold set_at. case_bool_decide as E; [subst; by rewrite lookup_insert_eq|]. by rewrite lookup_insert_ne.
Qed.

Lemma score_at_le a b : a <= b -> SFleb (score_at a) (score_at b) = true.
Proof.
  intros Hab. unfold SFleb, score_at. rewrite double_compare by (unfold clip; lia).
  destruct (Z.compare_spec (clip a) (clip b)); [done|done|]. unfold clip in *. lia.
Qed.

Lemma ahead_score (desc : bool) a b : ahead desc a b ->
  (if desc then SFleb (score_at b.2) (score_at a.2) else SFleb (score_at a.2) (score_at b.2)) = true.
Proof. unfold ahead. destruct desc; apply score_at_le. Qed.

Lemma all_rows_elem desc k d m z : (m, z) ∈ all_rows desc k d <-> set_at k d !! m = Some z.
Proof. unfold all_rows. rewrite merge_sort_Permutation. apply elem_of_map_to_list. Qed.

Lemma first_rows_leading (desc : bool) k n d : 0 <= n ->
  leading (fun a b => if desc then SFleb b a else SFleb a b) k n d (first_rows desc k n d).
Proof.
  intros Hn. unfold leading, first_rows. set (i := Z.to_nat (n + 1)).
  assert (Hfst : NoDup (all_rows desc k d).*1).
  { unfold all_rows. rewrite merge_sort_Permutation. apply NoDup_fst_map_to_list. }
  assert (Hss : StronglySorted (ahead desc) (all_rows desc k d)) by (apply StronglySorted_merge_sort; apply _).
  assert (Hm : forall m z, (m, z) ∈ all_rows desc k d <-> set_at k d !! m = Some z) by (intros; apply all_rows_elem).
  rewrite <-(take_drop i (all_rows desc k d)) in Hfst, Hss, Hm.
  assert (Hlen : length (take i (all_rows desc k d)) = i \/ drop i (all_rows desc k d) = []).
  { destruct (Nat.le_ge_cases i (length (all_rows desc k d))); [left; rewrite length_take; lia|right; by apply drop_ge]. }
  assert (Hle : (length (take i (all_rows desc k d)) <= i)%nat) by (rewrite length_take; lia).
  revert Hfst Hss Hm Hlen Hle. generalize (take i (all_rows desc k d)) (drop i (all_rows desc k d)). intros l r Hfst Hss Hm Hlen Hle.
  rewrite fmap_app in Hfst. apply list.NoDup_app in Hfst as (Hl & Hlr & _).
  assert (E : (map (fun r => (r.1, score_at r.2)) l).*1 = l.*1) by (rewrite <-list_fmap_compose; done).
  assert (Ev : vsize (map (fun r => (r.1, score_at r.2)) l) = vsize l) by (unfold vsize; by rewrite length_map).
  rewrite E, Ev. unfold vsize. split_and!; [done|lia| | |].
  - intros m s ([m' z] & [= -> ->] & Hin)%list_elem_of_fmap. cbn.
    rewrite (proj1 (Hm m' z)) by (apply elem_of_app; by left). done.
  - clear -Hss. apply StronglySorted_app in Hss as (_ & Hss & _). induction Hss as [|a l Hs IH Hf]; [constructor|].
    cbn [map]. constructor; [done|]. rewrite List.Forall_forall in Hf |- *. intros b (x & <- & Hx)%in_map_iff.
    by apply ahead_score, Hf.
  - intros m s [= Hs]. apply fmap_Some in Hs as (z & Hz & ->). intros Hni. apply Hm in Hz as [Hz|Hz]%elem_of_app.
    { exfalso. apply Hni. apply list_elem_of_fmap. by exists (m, z). }
    destruct Hlen as [Hlen|Hnil]; [|rewrite Hnil in Hz; by apply elem_of_nil in Hz]. split; [lia|].
    intros x (y & -> & Hy)%list_elem_of_fmap. cbn [snd]. apply (ahead_score desc y (m, z)).
    apply StronglySorted_app in Hss as (Hc & _). by apply Hc.
Qed.

#[local] Instance small_redis_laws : redis_laws.
Proof.
  constructor.
  - intros k m s d d' E k' m'. cbn in E |- *. destruct (float_trunc s) as [z|]; [|done].
    case_bool_decide as Es; [|done]. injection E as <-. rewrite set_at_insert.
    destruct (decide (k' = k)) as [->|Hk]; [rewrite bool_decide_true by done|by rewrite !bool_decide_false by naive_solver].
    destruct (decide (m' = m)) as [->|Hm]; [rewrite bool_decide_true, lookup_insert_eq by done; by rewrite Es|].
    by rewrite bool_decide_false, lookup_insert_ne by naive_solver.
  - intros k m s d e d' E. left. cbn in E. destruct (float_trunc s) as [z|]; [|by simplify_eq]. case_bool_decide; by simplify_eq.
  - intros k m d d' [= <-] k' m'. cbn. rewrite set_at_insert.
    destruct (decide (k' = k)) as [->|Hk]; [rewrite bool_decide_true by done|by rewrite !bool_decide_false by naive_solver].
    destruct (decide (m' = m)) as [->|Hm]; [by rewrite bool_decide_true, lookup_delete_eq by done|].
    by rewrite bool_decide_false, lookup_delete_ne by naive_solver.
  - done.
  - intros k n d rows Hn [= <-]. by apply (first_rows_leading false).
  - intros k n d rows Hn [= <-]. by apply (first_rows_leading true).
Qed.

(** ** A board with two fields *)

Definition arena_fields : list field_def :=
  [mkField (Some "level") SHIELD_SORT_DESC; mkField (Some "coins") SHIELD_SORT_DESC].
Definition arena : BoardConfig := materialize_board arena_fields.
Definition arena_boards : Boards := {[ "arena" := arena ]}.

Definition coins_first (level coins : Z) : list (option string * spec_float) :=
  [(Some "coins", double_of_Z coins); (Some "level", double_of_Z level)].

Definition season : list board_op :=
  [PutEntry "ann" [3; 9] (named arena [3; 9]); PutEntry "bob" [4; 1] (coins_first 4 1);
   PutEntry "cy" [9; 9] (named arena [9; 9]); RemoveEntry "cy"].

Lemma leaderboard_refines_witness :
  exists answers m db, board_run arena_boards "arena" season (∅ : sets) = Ret (answers, db) /\ came_of answers ∅ m /\
    m !! "bob" = Some [4; 1] /\
    exists rows, top_entries (top_n (Some arena_boards) (Some "arena") 2 db).2 = ranked (scored arena rows) /\
      leaders true 2 m rows /\ forall i, proxy_of arena_boards i ->
        lua_top_n "arena" 2 i db = Ret (GotRows (lua_ranked arena 1 rows), db).
Proof.
  destruct (@leaderboard_refines small_redis small_redis_laws arena_boards "arena" arena season (∅ : sets)) as
    (l & m & db & E & _ & Hl & _ & _ & Ht).
  - apply lookup_singleton_eq.
  - apply small_boards_ok; [cbn; lia| |repeat constructor; set_solver].
    intros d Hd. repeat (apply elem_of_cons in Hd as [->|Hd]; [discriminate|]). by apply elem_of_nil in Hd.
  - repeat constructor; try lia.
  - intros p. reflexivity.
  - exists l, m, db. split; [exact E|]. split; [exact Hl|]. split; [|exact (Ht 2 _ ltac:(lia) eq_refl)].
    assert (E' : board_run arena_boards "arena" season (∅ : sets) =
      Ret (map (fun op => (op, 0)) season, {["arena" := {["ann" := 3 * 2 ^ 16 + 9; "bob" := 4 * 2 ^ 16 + 1]}]}))
      by (vm_compute; reflexivity).
    rewrite E in E'. injection E' as -> _. cbn [map season] in Hl.
    do 4 (inversion Hl as [|op l m1 m2 Hl' e1 e2|]; subst; clear Hl; rename Hl' into Hl).
    inversion Hl; subst. reflexivity.
Defined.

(** ** What goes wrong *)

(** The standings of players on a board, and the ranks of the players. *)
Definition table_of (bc : BoardConfig) (entries : list (string * list Z)) : outcome (list (option string) * list (Z * option Z)) :=
  let boards := ({[ "b" := bc ]} : Boards) in
  let! r := board_run boards "b" (map (fun e => PutEntry e.1 e.2 (named bc e.2)) entries) (∅ : sets) in
  let top := (top_n (Some boards) (Some "b") 10 r.2).2 in
  Ret (map entry_player (top_entries top), map (fun e => get_rank (Some boards) (Some "b") (Some e.1) r.2) entries).

(** [get_rank] counts from the lowest score whatever the direction of the board:
    the leader of two has rank 2. *)
Example rank_counts_from_below :
  table_of arena [("ann", [3; 9]); ("bob", [4; 1])] = Ret ([Some "bob"; Some "ann"], [(0, Some 1); (0, Some 2)]).
Proof. vm_compute. reflexivity. Qed.

(** The directions of the fields behind the first one are ignored: more deaths
    are better. *)
Example second_direction_ignored :
  let duel := materialize_board [mkField (Some "kills") SHIELD_SORT_DESC; mkField (Some "deaths") SHIELD_SORT_ASC] in
  table_of duel [("ann", [5; 0]); ("bob", [5; 9])] = Ret ([Some "bob"; Some "ann"], [(0, Some 1); (0, Some 2)]).
Proof. vm_compute. reflexivity. Qed.

Definition wide (n : nat) : BoardConfig :=
  materialize_board (map (fun i => mkField (Some (to_string_u64 (Z.of_nat i))) SHIELD_SORT_DESC) (seq 0 n)).

(** Four fields take 64 bits, more than a double holds: different entries have the
    same score, and the greatest one cannot be read back. *)
Example four_fields_collide :
  encode_composite (wide 4) (named (wide 4) [65535; 0; 0; 1]) = encode_composite (wide 4) (named (wide 4) [65535; 0; 0; 0]) /\
  (let! s := encode_composite (wide 4) (named (wide 4) [65535; 65535; 65535; 65535]) in decode_composite (wide 4) s) = Undef.
Proof. vm_compute. split; reflexivity. Qed.

(** Five fields are encoded within 64 bits, but decoding shifts by 64 bits. *)
Example five_fields_undefined :
  (let! s := encode_composite (wide 5) (named (wide 5) [1; 2; 3; 4; 5]) in decode_composite (wide 5) s) = Undef.
Proof. vm_compute. reflexivity. Qed.

(** Values wrap around at 65536, and negative ones are undefined. *)
Example values_wrap :
  encode_composite default_board [(Some "score", double_of_Z 65536)] = Ret (double_of_Z 0) /\
  encode_composite default_board [(Some "score", double_of_Z (-1))] = Undef.
Proof. vm_compute. split; reflexivity. Qed.
