(* ===== verification/Health.v ===== *)
(** * Health: the HTTP health plugin (plugins/health_http)

    The registered checks of an instance, the answer to a request, and the
    functions of the plugin's table.  A check is foreign code: a function of the
    time and of the result it is given to fill in.  The readings of the clock are
    an argument.  The listener is that of [PluginHttp]. *)

From S2P Require Import Prelude Text MiniJson.

Inductive health_status := SHIELD_HEALTH_OK | SHIELD_HEALTH_DEGRADED | SHIELD_HEALTH_FAIL.

#[export] Instance health_status_eq_dec : EqDecision health_status.
Proof. solve_decision. Defined.

Record check_result := mkCheck {
  ck_status : health_status;
  check_name : option string;
  ck_message : option string;
  latency_ms : Z
}.

(** [shield_health_check_result r{}] *)
Definition zero_result : check_result := mkCheck SHIELD_HEALTH_OK None None 0.

Record CheckEntry := mkCheckEntry {
  ce_name : string;
  ce_check : Z -> check_result -> Z * check_result
}.

Record health_config := mkHealthConfig {
  bind_address : string;
  hc_port : Z;
  liveness_path : string;
  readiness_path : string
}.

Definition health_defaults : health_config := mkHealthConfig "0.0.0.0" 8086 "/health" "/ready".

(** The escapes of this plugin: no short forms of backspace and form feed. *)
Definition health_escapes : list (Ascii.ascii * Ascii.ascii) :=
  [(dq, dq); (backslash, backslash); ("010", "n"); ("013", "r"); ("009", "t")]%char.
Definition health_escape : string -> string := escape_with health_escapes.

(** [json_get_int] of this plugin: 32 bits and a default. *)
Definition json_get_int32 (j key : string) (def : Z) : outcome Z := json_int (2 ^ 31 - 1) j key def.

Definition text_or_default (j key def : string) : string :=
  let s := json_get_string j key in if str_empty s then def else s.

Definition parse_health_config (config_json : option string) : outcome health_config :=
  match config_json with
  | None => Ret health_defaults
  | Some s =>
      let! port := json_get_int32 s "port" (hc_port health_defaults) in
      Ret (mkHealthConfig (text_or_default s "bind_address" (bind_address health_defaults)) port
             (text_or_default s "liveness_path" (liveness_path health_defaults))
             (text_or_default s "readiness_path" (readiness_path health_defaults)))
  end.

Record HealthInstance := mkHealth {
  hi_cfg : health_config;
  checks : list CheckEntry;
  aggregated_status : health_status
}.

Definition set_aggregated (s : health_status) (i : HealthInstance) : HealthInstance :=
  mkHealth (hi_cfg i) (checks i) s.

Definition health_create (config_json : option string) : outcome HealthInstance :=
  let! cfg := parse_health_config config_json in Ret (mkHealth cfg [] SHIELD_HEALTH_OK).

(** ** Requests *)

Record http_request := mkRequest { is_get : bool; target : string }.
Record http_response := mkResponse { code : Z; body : string }.

Definition status_text (s : health_status) : string :=
  match s with SHIELD_HEALTH_OK => "ok" | SHIELD_HEALTH_DEGRADED => "degraded" | SHIELD_HEALTH_FAIL => "fail" end.

(** How a check moves the status of the whole, and the status that is printed for
    it. *)
Definition fold_status (agg : health_status) (rc : Z) (r : check_result) : health_status * string :=
  if negb (rc =? 0) || bool_decide (ck_status r = SHIELD_HEALTH_FAIL) then (SHIELD_HEALTH_FAIL, "fail")
  else if bool_decide (ck_status r = SHIELD_HEALTH_DEGRADED) && negb (bool_decide (agg = SHIELD_HEALTH_FAIL))
  then (SHIELD_HEALTH_DEGRADED, "degraded")
  else (agg, "ok").

Definition check_item (name status_str : string) (latency : Z) (message : option string) : string :=
  "{" +:+ in_quotes "name" +:+ ":" +:+ in_quotes (health_escape name) +:+ "," +:+
  in_quotes "status" +:+ ":" +:+ in_quotes status_str +:+ "," +:+
  in_quotes "latency_ms" +:+ ":" +:+ to_string_i64 latency +:+
  (match message with Some m => "," +:+ in_quotes "message" +:+ ":" +:+ in_quotes (health_escape m) | None => "" end) +:+
  "}".

(** The checks one after the other, with two readings of the clock each. *)
Fixpoint run_checks (clock : nat -> Z) (i : nat) (l : list CheckEntry) (agg : health_status)
  : health_status * list string :=
  match l with
  | [] => (agg, [])
  | e :: l =>
      let t0 := clock i in
      let '(rc, r) := ce_check e t0 zero_result in
      let t1 := clock (S i) in
      let '(agg, status_str) := fold_status agg rc r in
      let item := check_item (ce_name e) status_str (t1 - t0) (ck_message r) in
      let '(agg, items) := run_checks clock (S (S i)) l agg in
      (agg, item :: items)
  end.

Definition health_body (agg : health_status) (items : list string) : string :=
  "{" +:+ in_quotes "status" +:+ ":" +:+ in_quotes (status_text agg) +:+ "," +:+
  String dq "checks:[" +:+ String.concat "," items +:+ "]}".

Definition not_found_response : http_response :=
  mkResponse 404 ("{" +:+ in_quotes "error" +:+ ":" +:+ in_quotes "not_found" +:+ "}").

Definition handle_session (clock : nat -> Z) (req : http_request) (inst : HealthInstance)
  : http_response * HealthInstance :=
  if is_get req && (String.eqb (target req) (liveness_path (hi_cfg inst)) ||
                    String.eqb (target req) (readiness_path (hi_cfg inst)))
  then
    let '(agg, items) := run_checks clock 0 (checks inst) SHIELD_HEALTH_OK in
    (mkResponse (if bool_decide (agg = SHIELD_HEALTH_FAIL) then 503 else 200) (health_body agg items),
     set_aggregated agg inst)
  else (not_found_response, inst).

(** ** The table *)

Definition health_connect : option HealthInstance := None.

Definition register_check (session : option HealthInstance) (name : option string)
    (check : option (Z -> check_result -> Z * check_result)) : Z * option HealthInstance :=
  match session, name, check with
  | Some inst, Some name, Some check =>
      (0, Some (mkHealth (hi_cfg inst) (checks inst ++ [mkCheckEntry name check]) (aggregated_status inst)))
  | _, _, _ => (-1, session)
  end.

(** The first [max_results] checks with the results they leave. *)
Fixpoint check_loop (clock : nat -> Z) (i : nat) (max_results : Z) (l : list CheckEntry) : list check_result :=
  match l with
  | [] => []
  | e :: l =>
      if max_results <=? Z.of_nat i then []
      else (ce_check e (clock i) (mkCheck SHIELD_HEALTH_OK (Some (ce_name e)) (Some "") 0)).2
           :: check_loop clock (S i) max_results l
  end.

Definition check_all (clock : nat -> Z) (session : option HealthInstance) (max_results : Z)
  : Z * option (list check_result) :=
  match session with
  | None => (-1, None)
  | Some inst => (0, Some (check_loop clock 0 max_results (checks inst)))
  end.

Definition get_status (session : option HealthInstance) : health_status :=
  match session with None => SHIELD_HEALTH_FAIL | Some inst => aggregated_status inst end.

(** ** Theorems *)

Definition severity (s : health_status) : Z :=
  match s with SHIELD_HEALTH_OK => 0 | SHIELD_HEALTH_DEGRADED => 1 | SHIELD_HEALTH_FAIL => 2 end.

(** What a check reports: a code other than 0 is a failure. *)
Definition reported (e : CheckEntry) (t : Z) : health_status :=
  let '(rc, r) := ce_check e t zero_result in if rc =? 0 then ck_status r else SHIELD_HEALTH_FAIL.

Definition worse (a b : health_status) : health_status := if severity a <? severity b then b else a.

(** The worst of what the checks report. *)
Fixpoint worst (clock : nat -> Z) (i : nat) (l : list CheckEntry) : health_status :=
  match l with
  | [] => SHIELD_HEALTH_OK
  | e :: l => worse (reported e (clock i)) (worst clock (S (S i)) l)
  end.

Lemma worse_assoc a b c : worse a (worse b c) = worse (worse a b) c.
Proof. by destruct a, b, c. Qed.

Lemma fold_status_worse agg e t :
  (fold_status agg (ce_check e t zero_result).1 (ce_check e t zero_result).2).1 = worse agg (reported e t).
Proof.
  unfold reported, fold_status. destruct (ce_check e t zero_result) as [rc r]. cbn [fst snd].
  destruct (rc =? 0); cbn [negb orb]; [|by destruct agg].
  destruct (ck_status r), agg; done.
Qed.

Lemma run_checks_worst clock i l agg : (run_checks clock i l agg).1 = worse agg (worst clock i l).
Proof.
  revert i agg. induction l as [|e l IH]; intros i agg; cbn [run_checks worst]; [by destruct agg|].
  pose proof (fold_status_worse agg e (clock i)) as Hf.
  destruct (ce_check e (clock i) zero_result) as [rc r]. cbn [fst snd] in Hf.
  destruct (fold_status agg rc r) as [agg' s]. cbn [fst] in Hf. subst agg'.
  specialize (IH (S (S i)) (worse agg (reported e (clock i)))).
  destruct (run_checks clock (S (S i)) l (worse agg (reported e (clock i)))) as [a items]. cbn [fst] in *.
  by rewrite IH, worse_assoc.
Qed.

Lemma run_checks_items clock i l agg : length (run_checks clock i l agg).2 = length l.
Proof.
  revert i agg. induction l as [|e l IH]; intros i agg; cbn [run_checks]; [done|].
  destruct (ce_check e (clock i) zero_result) as [rc r], (fold_status agg rc r) as [agg' s].
  specialize (IH (S (S i)) agg'). destruct (run_checks clock (S (S i)) l agg') as [a items]. cbn. by rewrite <-IH.
Qed.

Lemma worst_fail clock i l :
  worst clock i l = SHIELD_HEALTH_FAIL <->
  exists j e, l !! j = Some e /\ reported e (clock (i + 2 * j)%nat) = SHIELD_HEALTH_FAIL.
Proof.
  revert i. induction l as [|e l IH]; intros i; cbn [worst].
  - split; [done|]. by intros (j & e & [=] & _).
  - assert (Hw : worse (reported e (clock i)) (worst clock (S (S i)) l) = SHIELD_HEALTH_FAIL <->
      reported e (clock i) = SHIELD_HEALTH_FAIL \/ worst clock (S (S i)) l = SHIELD_HEALTH_FAIL)
      by (destruct (reported e (clock i)), (worst clock (S (S i)) l); cbn; naive_solver).
    rewrite Hw, IH. split.
    + intros [Hr|(j & e' & Hj & Hr)]; [exists 0%nat, e|exists (S j), e']; (split; [done|]).
      * by replace (i + 2 * 0)%nat with i by lia.
      * by replace (i + 2 * S j)%nat with (S (S i) + 2 * j)%nat by lia.
    + intros ([|j] & e' & Hj & Hr); [left|right].
      * injection Hj as ->. by replace (i + 2 * 0)%nat with i in Hr by lia.
      * exists j, e'. split; [done|]. by replace (i + 2 * S j)%nat with (S (S i) + 2 * j)%nat in Hr by lia.
Qed.

(** What a probe sees.  A GET on one of the two paths runs every check once
    and answers 503 exactly when one of them fails, by its code or by its status;
    the status is the worst that any check reports, and it is what [get_status]
    returns until the next probe.  Every other request is answered 404 and changes
    nothing. *)
Theorem health_reports_worst clock req inst :
  let '(res, inst') := handle_session clock req inst in
  if is_get req && (String.eqb (target req) (liveness_path (hi_cfg inst)) ||
                    String.eqb (target req) (readiness_path (hi_cfg inst)))
  then get_status (Some inst') = worst clock 0 (checks inst) /\
       (code res = 503 <-> exists j e, checks inst !! j = Some e /\ reported e (clock (2 * j)%nat) = SHIELD_HEALTH_FAIL) /\
       (code res = 503 \/ code res = 200) /\
       (exists items, body res = health_body (worst clock 0 (checks inst)) items /\ length items = length (checks inst)) /\
       checks inst' = checks inst /\ hi_cfg inst' = hi_cfg inst
  else res = not_found_response /\ inst' = inst.
Proof.
  unfold handle_session. destruct (is_get req && _); [|done].
  pose proof (run_checks_worst clock 0 (checks inst) SHIELD_HEALTH_OK) as Hw.
  pose proof (run_checks_items clock 0 (checks inst) SHIELD_HEALTH_OK) as Hi.
  destruct (run_checks clock 0 (checks inst) SHIELD_HEALTH_OK) as [agg items]. cbn [fst snd] in *.
  assert (Ha : agg = worst clock 0 (checks inst)) by (rewrite Hw; by destruct (worst clock 0 (checks inst))).
  pose proof (worst_fail clock 0 (checks inst)) as Hf. cbn [Nat.add] in Hf. cbn [code body get_status aggregated_status set_aggregated checks hi_cfg].
  rewrite <-Hf, <-Ha. split_and!; [done| | |by exists items|done|done].
  - case_bool_decide; naive_solver.
  - case_bool_decide; tauto.
Qed.

(** ** What goes wrong *)

Definition answers_ (s : health_status) : Z -> check_result -> Z * check_result :=
  fun _ r => (0, mkCheck s (check_name r) None 0).

Definition probe_health (l : list CheckEntry) : http_response :=
  (handle_session (fun _ => 0) (mkRequest true "/health") (mkHealth health_defaults l SHIELD_HEALTH_OK)).1.

(** The quote behind the key [checks] is missing, so that no answer is JSON. *)
Example body_is_not_json :
  body (probe_health []) = "{" +:+ in_quotes "status" +:+ ":" +:+ in_quotes "ok" +:+ "," +:+ String dq "checks:[]}".
Proof. vm_compute. reflexivity. Qed.

(** A degraded check behind one that fails is printed as ok. *)
Example degraded_printed_ok :
  (run_checks (fun _ => 0) 0 [mkCheckEntry "db" (answers_ SHIELD_HEALTH_FAIL); mkCheckEntry "cache" (answers_ SHIELD_HEALTH_DEGRADED)]
     SHIELD_HEALTH_OK).2 =
  [check_item "db" "fail" 0 None; check_item "cache" "ok" 0 None].
Proof. vm_compute. reflexivity. Qed.
