(* ===== verification/Metrics.v ===== *)
(** * Metrics: the Prometheus plugin (plugins/metric_prometheus)

    The series of an instance, the functions of the plugin's table, and the text
    that is served.  The three maps are finite maps, printed in the order of
    [SeriesKey].  The listener is that of [PluginHttp]. *)

From Stdlib Require Import Floats.SpecFloat.
From stdpp Require Import sorting lexico.
From S2P Require Import Prelude Text Json Schema Config MiniJson Health.

Definition LabelVec : Type := list (string * string).

(** [operator<] of texts compares their bytes. *)
Fixpoint codes (s : string) : list Z :=
  match s with EmptyString => [] | String c s => Z.of_N (Ascii.N_of_ascii c) :: codes s end.

Definition label_code (p : string * string) : list Z * list Z := (codes p.1, codes p.2).
Definition series_code (k : string * LabelVec) : list Z * list (list Z * list Z) := (codes k.1, map label_code k.2).

(** Not greater, by a code that tells the values apart. *)
Definition not_after {A B} `{Lexico B} (code : A -> B) (a b : A) : Prop := code a = code b \/ lexico (code a) (code b).

#[export] Instance not_after_dec {A B} `{Lexico B, !StrictOrder (@lexico B _), !TrichotomyT (@lexico B _)} (code : A -> B) :
  RelDecision (not_after code).
Proof.
  refine (fun a b => match trichotomyT lexico (code a) (code b) with
                     | inleft (left Hl) => left (or_intror Hl)
                     | inleft (right He) => left (or_introl He)
                     | inright Hg => right _
                     end).
  intros [E|Hl]; [rewrite E in Hg; by apply (StrictOrder_Irreflexive (code b))|].
  apply (StrictOrder_Irreflexive (code a)). by transitivity (code b).
Defined.
#[export] Instance not_after_total {A B} `{Lexico B, !TrichotomyT (@lexico B _)} (code : A -> B) : Total (not_after code).
Proof. intros a b. unfold not_after. destruct (trichotomyT lexico (code a) (code b)) as [[?|?]|?]; auto. Qed.
#[export] Instance not_after_trans {A B} `{Lexico B, !StrictOrder (@lexico B _)} (code : A -> B) :
  Transitive (not_after code).
Proof.
  intros a b c. unfold not_after. intros [E|Hab] [E'|Hbc]; rewrite ?E, <-?E'; auto. right. by transitivity (code b).
Qed.

(** [normalize_labels]: the pairs with both texts, sorted. *)
Definition both (p : option string * option string) : option (string * string) :=
  match p with (Some k, Some v) => Some (k, v) | _ => None end.
Definition normalize_labels (labels : list (option string * option string)) : LabelVec :=
  merge_sort (not_after label_code) (omap both labels).

Definition format_label (l : string * string) : string := l.1 +:+ "=" +:+ in_quotes l.2.
Definition format_labels (labels : LabelVec) : string :=
  match labels with [] => "" | _ => "{" +:+ String.concat "," (map format_label labels) +:+ "}" end.

(** ** Instances *)

Record metrics_config := mkMetricsConfig { mc_bind_address : string; mc_port : Z; mc_path : string }.

Definition metrics_defaults : metrics_config := mkMetricsConfig "0.0.0.0" 8087 "/metrics".

Definition parse_metrics_config (config_json : option string) : outcome metrics_config :=
  match config_json with
  | None => Ret metrics_defaults
  | Some s =>
      let! port := json_get_int32 s "port" (mc_port metrics_defaults) in
      Ret (mkMetricsConfig (text_or_default s "bind_address" (mc_bind_address metrics_defaults)) port
             (text_or_default s "path" (mc_path metrics_defaults)))
  end.

Abbreviation SeriesKey := (string * list (string * string))%type.

Record MetricInstance := mkMetrics {
  me_cfg : metrics_config;
  counters : gmap SeriesKey spec_float;
  gauges : gmap SeriesKey spec_float;
  histograms : gmap SeriesKey (spec_float * Z)
}.

Definition metric_create (config_json : option string) : outcome MetricInstance :=
  let! cfg := parse_metrics_config config_json in Ret (mkMetrics cfg ∅ ∅ ∅).

Inductive metric_type := SHIELD_METRIC_COUNTER | SHIELD_METRIC_GAUGE | SHIELD_METRIC_HISTOGRAM | SHIELD_METRIC_TIMER.

Record metric_point := mkPoint {
  pt_name : option string;
  pt_type : metric_type;
  pt_value : spec_float;
  pt_labels : list (option string * option string)
}.

Definition dadd (a b : spec_float) : spec_float := SFadd 53 1024 a b.
Definition dzero : spec_float := S754_zero false.

(** [counters[k] += value], [gauges[k] = value], and the entry of a histogram. *)
Definition add_counter (k : SeriesKey) (v : spec_float) (i : MetricInstance) : MetricInstance :=
  mkMetrics (me_cfg i) (<[k := dadd (default dzero (counters i !! k)) v]> (counters i)) (gauges i) (histograms i).
Definition set_gauge (k : SeriesKey) (v : spec_float) (i : MetricInstance) : MetricInstance :=
  mkMetrics (me_cfg i) (counters i) (<[k := v]> (gauges i)) (histograms i).
Definition observe (k : SeriesKey) (v : spec_float) (i : MetricInstance) : MetricInstance :=
  let '(sum, count) := default (dzero, 0) (histograms i !! k) in
  mkMetrics (me_cfg i) (counters i) (gauges i) (<[k := (dadd sum v, u64 (count + 1))]> (histograms i)).

Definition record_key (t : metric_type) (k : SeriesKey) (v : spec_float) (i : MetricInstance) : MetricInstance :=
  match t with
  | SHIELD_METRIC_COUNTER => add_counter k v i
  | SHIELD_METRIC_GAUGE => set_gauge k v i
  | SHIELD_METRIC_HISTOGRAM | SHIELD_METRIC_TIMER => observe k v i
  end.

(** ** The table *)

Definition record_point (session : option MetricInstance) (point : option metric_point) : Z * option MetricInstance :=
  match session, point with
  | Some i, Some p =>
      match pt_name p with
      | Some name => (0, Some (record_key (pt_type p) (name, normalize_labels (pt_labels p)) (pt_value p) i))
      | None => (-1, session)
      end
  | _, _ => (-1, session)
  end.

Fixpoint batch (points : list metric_point) (i : MetricInstance) : MetricInstance :=
  match points with
  | [] => i
  | p :: points =>
      match pt_name p with
      | None => batch points i
      | Some name => batch points (record_key (pt_type p) (name, normalize_labels (pt_labels p)) (pt_value p) i)
      end
  end.

Definition record_batch (session : option MetricInstance) (points : option (list metric_point)) : Z * option MetricInstance :=
  match session, points with
  | Some i, Some points => (0, Some (batch points i))
  | _, _ => (-1, session)
  end.

Definition with_name (f : SeriesKey -> spec_float -> MetricInstance -> MetricInstance) (session : option MetricInstance)
    (name : option string) (v : spec_float) (labels : list (option string * option string)) : Z * option MetricInstance :=
  match session, name with
  | Some i, Some name => (0, Some (f (name, normalize_labels labels) v i))
  | _, _ => (-1, session)
  end.

Definition counter_inc := with_name add_counter.
Definition gauge_set := with_name set_gauge.
Definition histogram_observe := with_name observe.

(** ** The text that is served *)

(** [std::ostream] prints a double like [%g]: six significant digits without
    trailing zeros, with an exponent when it is below -4 or at least 6.  [ratio]
    is the value over [10 ^ x]. *)
Definition ratio (num den x : Z) : Z * Z := if 0 <=? x then (num, den * 10 ^ x) else (num * 10 ^ (- x), den).

(** The decimal exponent of a positive number below [10 ^ (x + 1)]. *)
Fixpoint decimal_exponent (fuel : nat) (num den x : Z) : Z :=
  match fuel with
  | O => x
  | S fuel => let '(n, d) := ratio num den x in if d <=? n then x else decimal_exponent fuel num den (x - 1)
  end.

Fixpoint strip_zeros (fuel : nat) (digits count : Z) : Z * Z :=
  match fuel with
  | O => (digits, count)
  | S fuel => if (1 <? count) && (digits `mod` 10 =? 0) then strip_zeros fuel (digits / 10) (count - 1) else (digits, count)
  end.

Definition padded (width : nat) (z : Z) : string :=
  let s := digits_of z in zeros (width - String.length s) +:+ s.

Definition print_g (num den : Z) : string :=
  let x := decimal_exponent 700 num den 308 in
  let '(n, d) := ratio num den (x - 5) in
  let r := round_div n d in
  let '(r, x) := if r =? 10 ^ 6 then (10 ^ 5, x + 1) else (r, x) in
  let '(r, count) := strip_zeros 6 r 6 in
  if (x <? -4) || (6 <=? x) then
    let rest := Z.to_nat (count - 1) in
    digits_of (r / 10 ^ (count - 1)) +:+
    (if 1 <? count then "." +:+ padded rest (r `mod` 10 ^ (count - 1)) else "") +:+
    "e" +:+ (if x <? 0 then "-" else "+") +:+ padded 2 (Z.abs x)
  else if x <? 0 then "0." +:+ zeros (Z.to_nat (- x - 1)) +:+ digits_of r
  else
    let frac := Z.max 0 (count - 1 - x) in
    let r := if frac =? 0 then r * 10 ^ (x + 1 - count) else r in
    digits_of (r / 10 ^ frac) +:+ (if 0 <? frac then "." +:+ padded (Z.to_nat frac) (r `mod` 10 ^ frac) else "").

Definition print_double (f : spec_float) : string :=
  match f with
  | S754_zero s => if s then "-0" else "0"
  | S754_infinity s => if s then "-inf" else "inf"
  | S754_nan => "nan"
  | S754_finite s m e =>
      (if s then "-" else "") +:+ (if 0 <=? e then print_g (Zpos m * 2 ^ e) 1 else print_g (Zpos m) (2 ^ (- e)))
  end.

(** A map in the order of its keys. *)
Definition in_key_order {A} (m : gmap SeriesKey A) : list (SeriesKey * A) :=
  merge_sort (not_after (fun p => series_code p.1)) (map_to_list m).

Definition newline_ : string := String "010" "".

(** The lines of one map: the first series of a name is preceded by its type. *)
Fixpoint render_map {A} (kind : string) (lines : string -> LabelVec -> A -> list string) (l : list (SeriesKey * A))
    (seen : gset string) : list string * gset string :=
  match l with
  | [] => ([], seen)
  | ((name, labels), v) :: l =>
      let header := if bool_decide (name ∈ seen) then [] else ["# TYPE " +:+ name +:+ " " +:+ kind] in
      let '(rest, seen) := render_map kind lines l ({[ name ]} ∪ seen) in
      (header ++ lines name labels v ++ rest, seen)
  end.

Definition value_line (name : string) (labels : LabelVec) (v : spec_float) : list string :=
  [name +:+ format_labels labels +:+ " " +:+ print_double v].
Definition histogram_lines (name : string) (labels : LabelVec) (p : spec_float * Z) : list string :=
  [name +:+ "_sum" +:+ format_labels labels +:+ " " +:+ print_double p.1;
   name +:+ "_count" +:+ format_labels labels +:+ " " +:+ to_string_u64 p.2].

Definition render (i : MetricInstance) : list string :=
  let '(a, seen) := render_map "counter" value_line (in_key_order (counters i)) ∅ in
  let '(b, seen) := render_map "gauge" value_line (in_key_order (gauges i)) seen in
  let '(c, _) := render_map "histogram" histogram_lines (in_key_order (histograms i)) seen in
  a ++ b ++ c.

Definition render_text (i : MetricInstance) : string := foldr (fun l r => l +:+ newline_ +:+ r) "" (render i).

Definition metrics_session (req : http_request) (i : MetricInstance) : http_response :=
  if is_get req && String.eqb (target req) (mc_path (me_cfg i)) then mkResponse 200 (render_text i)
  else mkResponse 404 ("not found" +:+ newline_).

(** ** What the series hold *)

Inductive metric_call :=
| Record (p : metric_point)
| RecordBatch (ps : list metric_point)
| CounterInc (name : string) (v : spec_float) (labels : list (option string * option string))
| GaugeSet (name : string) (v : spec_float) (labels : list (option string * option string))
| HistogramObserve (name : string) (v : spec_float) (labels : list (option string * option string)).

Definition call_metrics (c : metric_call) (i : MetricInstance) : MetricInstance :=
  default i (match c with
    | Record p => record_point (Some i) (Some p)
    | RecordBatch ps => record_batch (Some i) (Some ps)
    | CounterInc n v l => counter_inc (Some i) (Some n) v l
    | GaugeSet n v l => gauge_set (Some i) (Some n) v l
    | HistogramObserve n v l => histogram_observe (Some i) (Some n) v l
    end).2.

(** The observations of a call: the kind of series, its key and the value. *)
Abbreviation event := (metric_type * SeriesKey * spec_float)%type.

Definition point_events (p : metric_point) : list event :=
  match pt_name p with
  | Some name => [(pt_type p, (name, normalize_labels (pt_labels p)), pt_value p)]
  | None => []
  end.

Definition events (c : metric_call) : list event :=
  match c with
  | Record p => point_events p
  | RecordBatch ps => flat_map point_events ps
  | CounterInc n v l => [(SHIELD_METRIC_COUNTER, (n, normalize_labels l), v)]
  | GaugeSet n v l => [(SHIELD_METRIC_GAUGE, (n, normalize_labels l), v)]
  | HistogramObserve n v l => [(SHIELD_METRIC_HISTOGRAM, (n, normalize_labels l), v)]
  end.

Definition apply_event (i : MetricInstance) (e : event) : MetricInstance := record_key e.1.1 e.1.2 e.2 i.

Lemma batch_events ps i : batch ps i = foldl apply_event i (flat_map point_events ps).
Proof.
  revert i. induction ps as [|p ps IH]; intros i; cbn [batch flat_map]; [done|].
  unfold point_events at 1. destruct (pt_name p); cbn [app foldl]; apply IH.
Qed.

Lemma call_events c i : call_metrics c i = foldl apply_event i (events c).
Proof.
  destruct c as [p|ps|n v l|n v l|n v l]; cbn; [|apply batch_events|done..].
  unfold call_metrics, record_point, point_events. by destruct (pt_name p).
Qed.

(** The values of a series, oldest first. *)
Definition is_histogram (t : metric_type) : bool :=
  match t with SHIELD_METRIC_HISTOGRAM | SHIELD_METRIC_TIMER => true | _ => false end.
Definition is_counter (t : metric_type) : bool := match t with SHIELD_METRIC_COUNTER => true | _ => false end.
Definition is_gauge (t : metric_type) : bool := match t with SHIELD_METRIC_GAUGE => true | _ => false end.

Fixpoint values (kind : metric_type -> bool) (k : SeriesKey) (l : list event) : list spec_float :=
  match l with
  | [] => []
  | (t, k', v) :: l => if kind t && bool_decide (k' = k) then v :: values kind k l else values kind k l
  end.

(** A sum, a last value, and a sum with a count, of what was there and new
    values. *)
Definition summed (o : option spec_float) (vs : list spec_float) : option spec_float :=
  match vs with [] => o | _ => Some (foldl dadd (default dzero o) vs) end.
Definition latest (o : option spec_float) (vs : list spec_float) : option spec_float := foldl (fun _ v => Some v) o vs.
Definition tally (o : option (spec_float * Z)) (vs : list spec_float) : option (spec_float * Z) :=
  foldl (fun o v => let '(s, n) := default (dzero, 0) o in Some (dadd s v, u64 (n + 1))) o vs.

Lemma summed_cons o v vs : summed (Some (dadd (default dzero o) v)) vs = summed o (v :: vs).
Proof. by destruct vs. Qed.

Lemma series_after l i k :
  counters (foldl apply_event i l) !! k = summed (counters i !! k) (values is_counter k l) /\
  gauges (foldl apply_event i l) !! k = latest (gauges i !! k) (values is_gauge k l) /\
  histograms (foldl apply_event i l) !! k = tally (histograms i !! k) (values is_histogram k l).
Proof.
  revert i. induction l as [|[[t k'] v] l IH]; intros i; cbn [foldl values]; [done|].
  destruct (IH (apply_event i (t, k', v))) as (-> & -> & ->). clear IH. unfold apply_event. cbn [fst snd].
  assert (Ho : histograms (observe k' v i) !! k =
    if bool_decide (k' = k) then tally (histograms i !! k) [v] else histograms i !! k).
  { unfold observe. destruct (default (dzero, 0) (histograms i !! k')) as [s n] eqn:E. cbn [histograms].
    case_bool_decide as Hk; [subst; rewrite lookup_insert_eq; cbn; by rewrite E|by rewrite lookup_insert_ne]. }
  assert (Hc : counters (observe k' v i) = counters i /\ gauges (observe k' v i) = gauges i)
    by (unfold observe; by destruct (default _ _)).
  destruct Hc as [Hc Hg].
  destruct t; cbn [record_key is_counter is_gauge is_histogram andb]; rewrite ?Ho, ?Hc, ?Hg; cbn [add_counter set_gauge counters gauges histograms];
    (case_bool_decide as Hk; [subst k'|]); rewrite ?lookup_insert_eq, ?lookup_insert_ne, ?summed_cons by done; done.
Qed.

Lemma codes_inj a b : codes a = codes b -> a = b.
Proof.
  revert b. induction a as [|x a IH]; intros [|y b]; cbn; try done. intros [= Hx Hs].
  f_equal; [|by apply IH]. rewrite <-(Ascii.ascii_N_embedding x), <-(Ascii.ascii_N_embedding y). f_equal. lia.
Qed.

#[local] Instance label_order_antisym : AntiSymm (=) (not_after label_code).
Proof.
  intros [a b] [c d] H1 H2. assert (E : label_code (a, b) = label_code (c, d)).
  { destruct H1 as [?|H1]; [done|]. destruct H2 as [?|H2]; [done|].
    exfalso. apply (StrictOrder_Irreflexive (label_code (a, b))). by transitivity (label_code (c, d)). }
  injection E as E1 E2. f_equal; by apply codes_inj.
Qed.

(** The order in which labels are given does not matter. *)
Lemma normalize_labels_perm l l' : l ≡ₚ l' -> normalize_labels l = normalize_labels l'.
Proof.
  intros Hp. unfold normalize_labels. apply (StronglySorted_unique (not_after label_code)).
  - apply StronglySorted_merge_sort; apply _.
  - apply StronglySorted_merge_sort; apply _.
  - rewrite !merge_sort_Permutation. by rewrite Hp.
Qed.

(** What the series hold.  After any calls, one by one or in batches, a
    counter holds the sum of its increments in their order, a gauge its last value
    and a histogram the sum and the number of its observations; a series without
    observations does not exist, and the labels of a series may come in any
    order. *)
Theorem metrics_accumulate cs cfg k :
  let i := foldl (fun i c => call_metrics c i) (mkMetrics cfg ∅ ∅ ∅) cs in
  let evs := flat_map events cs in
  counters i !! k = summed None (values is_counter k evs) /\
  gauges i !! k = latest None (values is_gauge k evs) /\
  histograms i !! k = tally None (values is_histogram k evs) /\
  (forall name t v l l', l ≡ₚ l' -> events (Record (mkPoint (Some name) t v l)) = events (Record (mkPoint (Some name) t v l'))).
Proof.
  cbv zeta. assert (E : forall i, foldl (fun i c => call_metrics c i) i cs = foldl apply_event i (flat_map events cs)).
  { induction cs as [|c cs IH]; intros i; cbn [foldl flat_map]; [done|]. by rewrite IH, foldl_app, call_events. }
  rewrite E. destruct (series_after (flat_map events cs) (mkMetrics cfg ∅ ∅ ∅) k) as (-> & -> & ->).
  split_and!; [done..|]. intros name t v l l' Hp. cbn [events point_events pt_name pt_labels pt_type pt_value].
  by rewrite (normalize_labels_perm l l').
Qed.

(** ** What goes wrong *)

Definition served (cs : list metric_call) : list string :=
  render (foldl (fun i c => call_metrics c i) (mkMetrics metrics_defaults ∅ ∅ ∅) cs).

(** Large counts are printed with six digits. *)
Example counter_loses_digits :
  served [CounterInc "hits" (double_of_Z 1234567) []] = ["# TYPE hits counter"; "hits 1.23457e+06"].
Proof. vm_compute. reflexivity. Qed.

(** Label values are not escaped: a quote ends the value, and a line break the
    line. *)
Example labels_not_escaped :
  served [CounterInc "hits" (double_of_Z 1) [(Some "path", Some (String dq (newline_ +:+ "admin 1")))]] =
  ["# TYPE hits counter";
   "hits{path=" +:+ String dq (String dq (newline_ +:+ "admin 1" +:+ String dq "} 1"))].
Proof. vm_compute. reflexivity. Qed.

(** A name used for a counter and a gauge is announced once and printed twice. *)
Example name_used_twice :
  served [CounterInc "load" (double_of_Z 1) []; GaugeSet "load" (double_of_Z 2) []] =
  ["# TYPE load counter"; "load 1"; "load 2"].
Proof. vm_compute. reflexivity. Qed.
