(* ===== verification/DbMapper.v ===== *)
(** * DbMapper: statements with named parameters (plugins/_shared/shield_db_mapper.hpp)

    The script that every SQL plugin attaches to its proxies: statements whose
    text names its parameters, and entities, whose statements are built from the
    names of their fields.  A call gives the text and the values that are handed
    to the proxy, or an error.  Parameters and rows are Lua values; a definition
    is what the script reads of its table.  The fields of an entity are a list of
    names; tables that mix positions and names are not modelled. *)

From S2P Require Import Prelude Text LuaPack.

(** ** Parameters *)

Definition is_name (c : Ascii.ascii) : bool := isalnum c || Ascii.eqb c "_".
(** The characters of [[%w_%.]+]. *)
Definition path_char (c : Ascii.ascii) : bool := is_name c || Ascii.eqb c ".".

(** The parts of a path: [gmatch("[^.]+")]. *)
Fixpoint path_parts (s part : string) : list string :=
  match s with
  | EmptyString => if str_empty part then [] else [part]
  | String c s =>
      if Ascii.eqb c "." then (if str_empty part then path_parts s "" else part :: path_parts s "")
      else path_parts s (part +:+ String c "")
  end.

Definition index_of (t : lval) (key : string) : lval :=
  match t with VTable entries => table_get (VStr (bytes_of key)) entries | _ => VNil end.

Fixpoint resolve_parts (current : lval) (parts : list string) : lval :=
  match parts with
  | [] => current
  | part :: parts => match current with VTable _ => resolve_parts (index_of current part) parts | _ => VNil end
  end.

Definition resolve_path (params : lval) (path : string) : lval := resolve_parts params (path_parts path "").

(** [push_value]: nil is stored as an empty text. *)
Definition pushed (v : lval) : lval := match v with VNil => VStr [] | _ => v end.

(** ** Statements *)

(** What follows a parameter that starts here: its path and the rest. *)
Definition param_at (s : string) : option (string * string) :=
  match s with
  | String a (String b r) =>
      if Ascii.eqb a "#" && Ascii.eqb b "{" then
        match span path_char r with
        | (path, String c rest) => if negb (str_empty path) && Ascii.eqb c "}" then Some (path, rest) else None
        | _ => None
        end
      else None
  | _ => None
  end.

(** [gsub]: the text with question marks and the paths, in order.  A parameter is
    replaced at once, every other character is copied; the fuel is the length of
    the text. *)
Fixpoint substitute (fuel : nat) (s : string) : string * list string :=
  match fuel with
  | O => (s, [])
  | S fuel =>
      match param_at s with
      | Some (path, rest) => let '(t, ps) := substitute fuel rest in (String "?" t, path :: ps)
      | None =>
          match s with
          | EmptyString => ("", [])
          | String c s => let '(t, ps) := substitute fuel s in (String c t, ps)
          end
      end
  end.

Fixpoint has_text (needle s : string) : bool :=
  String.prefix needle s || match s with EmptyString => false | String _ s => has_text needle s end.

Definition mapper_error : Type := string * string.

Definition compile_sql (sql : string) (params : lval) : mapper_error + (string * list lval) :=
  let params := match params with VNil | VBool false => VTable [] | _ => params end in
  let '(compiled, paths) := substitute (String.length sql) sql in
  if has_text "${" compiled then inl ("mapper_unsafe_sql", "raw SQL substitution is not supported")
  else if has_text ";" compiled then inl ("mapper_unsafe_sql", "mapper statement must contain one SQL statement")
  else inr (compiled, map (fun p => pushed (resolve_path params p)) paths).

(** A statement of a mapper as it was defined, and as it is kept. *)
Inductive statement_def :=
| StText (sql : string)
| StTable (type kind sql : option string) (one : bool) (result transaction : option string)
| StOther.

Record statement := mkStatement {
  st_type : string;
  st_sql : string;
  st_one : bool;
  st_result : option string;
  st_transaction : option string
}.

(** A text on the left is the message of [error]. *)
Definition normalize_statement (name : string) (d : statement_def) : string + statement :=
  match d with
  | StText sql => inr (mkStatement "select" sql false None None)
  | StTable type kind (Some sql) one result transaction =>
      inr (mkStatement (default (default "select" kind) type) sql one result transaction)
  | StTable _ _ None _ _ _ => inl ("mapper statement " +:+ name +:+ " requires sql")
  | StOther => inl ("mapper statement " +:+ name +:+ " must be table or string")
  end.

(** The function of the proxy that is called, with its text and values. *)
Inductive proxy_call :=
| CallQuery (sql : string) (values : list lval)
| CallQueryOne (sql : string) (values : list lval)
| CallExecute (sql : string) (values : list lval).

Definition execute_statement (st : statement) (params : lval) : mapper_error + proxy_call :=
  let? r := compile_sql (st_sql st) params in
  let '(sql, values) := r in
  let kind := st_type st in
  if String.eqb kind "select" then
    inr (if st_one st || bool_decide (st_result st = Some "one") then CallQueryOne sql values else CallQuery sql values)
  else if str_in kind ["insert"; "update"; "delete"; "execute"] then inr (CallExecute sql values)
  else inl ("mapper_invalid_statement", "unsupported mapper statement type: " +:+ kind).

(** An argument of a mapper function: a transaction is a table that has the
    functions of a proxy. *)
Inductive mapper_arg := TxArg (tx : lval) | ValueArg (v : lval).

(** Where the call goes: to the proxy, to the transaction that was given, or to
    one that is opened for it, which is rolled back on an error. *)
Inductive mapper_target := OnProxy | OnTransaction | OnNewTransaction.

Definition arg_value (a : mapper_arg) : lval := match a with ValueArg v | TxArg v => v end.

Definition mapper_call (st : statement) (first second : mapper_arg) : mapper_target * (mapper_error + proxy_call) :=
  let '(tx, params) := match first with TxArg _ => (true, arg_value second) | ValueArg v => (false, v) end in
  let required := bool_decide (st_transaction st = Some "required") in
  (if tx then OnTransaction else if required then OnNewTransaction else OnProxy, execute_statement st params).

(** The functions of a mapper; the members [name] and [namespace] are not
    statements. *)
Fixpoint build_mapper (definition : list (string * statement_def)) : string + list (string * statement) :=
  match definition with
  | [] => inr []
  | (name, d) :: definition =>
      if str_in name ["name"; "namespace"] then build_mapper definition
      else
        let? st := normalize_statement name d in
        let? rest := build_mapper definition in
        inr ((name, st) :: rest)
  end.

(** ** Entities *)

Definition is_letter (c : Ascii.ascii) : bool := between "A" "Z" c || between "a" "z" c.

(** [^[A-Za-z_][A-Za-z0-9_]*$] *)
Definition is_identifier (s : string) : bool :=
  match s with
  | EmptyString => false
  | String c r => (is_letter c || Ascii.eqb c "_") && str_all is_name r
  end.

Definition identifier (name : string) : string + string :=
  if is_identifier name then inr name else inl ("invalid SQL identifier: " +:+ name).

Fixpoint identifiers (names : list string) : string + list string :=
  match names with
  | [] => inr []
  | n :: names => let? n := identifier n in let? rest := identifiers names in inr (n :: rest)
  end.

Record entity := mkEntity { en_table : string; en_fields : list string; en_primary_key : list string }.

(** [def.table or def.name], the fields, and [def.primary_key or def.id]. *)
Definition make_entity (table name : option string) (fields : list string) (primary_key : option (list string)) : string + entity :=
  let? t := match table, name with
            | Some t, _ | None, Some t => identifier t
            | None, None => inl "invalid SQL identifier: nil"
            end in
  match fields with
  | [] => inl "entity requires ordered fields"
  | f :: _ => inr (mkEntity t fields (default [f] primary_key))
  end.

(** A row: the values of its members. *)
Abbreviation Row := (gmap string lval).
Definition cell (row : Row) (field : string) : lval := default VNil (row !! field).

(** The fields of the entity that the row has. *)
Definition present (row : Row) (field : string) : bool := match cell row field with VNil => false | _ => true end.

Definition join (sep : string) (l : list string) : string := String.concat sep l.

Definition assignments (names : list string) : list string := map (fun c => c +:+ " = ?") names.

Definition where_by_pk (e : entity) (row : Row) : string + (string * list lval) :=
  let? cols := identifiers (en_primary_key e) in
  inr (join " AND " (assignments cols), map (fun f => pushed (cell row f)) (en_primary_key e)).

(** An error that is raised, one that is returned, or the call. *)
Inductive entity_result := Raises (message : string) | Refuses (e : mapper_error) | Calls (c : proxy_call).

Definition raised (r : string + entity_result) : entity_result := match r with inl m => Raises m | inr r => r end.

Definition entity_insert (e : entity) (row : Row) : entity_result :=
  let keys := List.filter (present row) (en_fields e) in
  match keys with
  | [] => Refuses ("entity_invalid_row", "insert requires at least one field")
  | _ => raised (
      let? cols := identifiers keys in
      inr (Calls (CallExecute ("INSERT INTO " +:+ en_table e +:+ " (" +:+ join ", " cols +:+ ") VALUES (" +:+
                               join ", " (map (fun _ => "?") cols) +:+ ")")
                    (map (fun f => pushed (cell row f)) keys))))
  end.

Definition entity_update (e : entity) (row : Row) : entity_result :=
  let keys := List.filter (fun f => negb (str_in f (en_primary_key e)) && present row f) (en_fields e) in
  raised (
    let? cols := identifiers keys in
    match cols with
    | [] => inr (Refuses ("entity_invalid_row", "update requires non-primary-key fields"))
    | _ =>
        let? w := where_by_pk e row in
        inr (Calls (CallExecute ("UPDATE " +:+ en_table e +:+ " SET " +:+ join ", " (assignments cols) +:+
                                 " WHERE " +:+ w.1)
                      (map (fun f => pushed (cell row f)) keys ++ w.2)))
    end).

(** A key is a row, or the value of the first field of the primary key. *)
Definition key_row (e : entity) (key : Row + lval) : Row :=
  match key with
  | inl row => row
  | inr v => match en_primary_key e with f :: _ => {[ f := v ]} | [] => ∅ end
  end.

Definition entity_delete (e : entity) (key : Row + lval) : entity_result :=
  raised (let? w := where_by_pk e (key_row e key) in
          inr (Calls (CallExecute ("DELETE FROM " +:+ en_table e +:+ " WHERE " +:+ w.1) w.2))).

Definition entity_find (e : entity) (key : Row + lval) : entity_result :=
  raised (let? w := where_by_pk e (key_row e key) in
          inr (Calls (CallQueryOne ("SELECT * FROM " +:+ en_table e +:+ " WHERE " +:+ w.1) w.2))).

(** ** Attaching the functions *)

(** A proxy by the names of its functions.  The script is a chunk that returns the
    function which attaches the others to its argument. *)
Inductive lua_function := MapperChunk | MapperInstaller.

Definition call_function (f : lua_function) (proxy : list string) : option lua_function * list string :=
  match f with
  | MapperChunk => (Some MapperInstaller, proxy)
  | MapperInstaller => (None, proxy ++ ["mapper"; "register_mapper"; "entity"])
  end.

(** [cached] is what the registry of the VM holds; loading the script gives the
    chunk. *)
Definition apply_db_mapper_api (cached : option lua_function) (proxy : list string)
  : bool * option lua_function * list string :=
  let apply_fn := default MapperChunk cached in
  (true, Some apply_fn, (call_function apply_fn proxy).2).

(** ** Lemmas *)

Fixpoint count (c : Ascii.ascii) (s : string) : Z :=
  match s with EmptyString => 0 | String d s => (if Ascii.eqb d c then 1 else 0) + count c s end.

Lemma length_str_app a b : String.length (a +:+ b) = (String.length a + String.length b)%nat.
Proof. pose proof (slen_app a b) as E. unfold slen in E. lia. Qed.

Lemma count_app c a b : count c (a +:+ b) = count c a + count c b.
Proof. induction a as [|d a IH]; [done|]. rewrite str_app_cons. cbn [count]. rewrite IH. lia. Qed.

Lemma count_none c s : str_all (fun d => negb (Ascii.eqb d c)) s = true -> count c s = 0.
Proof.
  induction s as [|d s IH]; [done|]. cbn [str_all count]. intros [Hd Hs]%andb_true_iff. rewrite IH by done.
  by destruct (Ascii.eqb d c).
Qed.

Lemma str_all_weaken (p q : Ascii.ascii -> bool) s :
  (forall c, p c = true -> q c = true) -> str_all p s = true -> str_all q s = true.
Proof. intros Hpq. induction s as [|c s IH]; [done|]. cbn [str_all]. intros [Hc Hs]%andb_true_iff. by rewrite Hpq, IH. Qed.

Lemma span_app p s a b : span p s = (a, b) -> s = a +:+ b /\ str_all p a = true.
Proof.
  revert a b. induction s as [|c s IH]; intros a b; cbn [span]; [by intros [= <- <-]|].
  destruct (p c) eqn:Hc; [|by intros [= <- <-]]. destruct (span p s) as [a' b'].
  intros [= <- <-]. destruct (IH _ _ eq_refl) as [-> Ha]. split; [done|]. cbn [str_all]. by rewrite Hc.
Qed.

Lemma path_char_plain c : path_char c = true -> Ascii.eqb c "?" = false.
Proof. destruct c as [[] [] [] [] [] [] [] []]; done. Qed.

(** A parameter that is found: the text that it replaces. *)
Lemma param_at_spec s path rest : param_at s = Some (path, rest) ->
  s = "#{" +:+ path +:+ "}" +:+ rest /\ path <> "" /\ str_all path_char path = true.
Proof.
  unfold param_at. destruct s as [|a [|b r]]; [done|done|].
  destruct (Ascii.eqb_spec a "#") as [->|]; [|done]. destruct (Ascii.eqb_spec b "{") as [->|]; [|done]. cbn [andb].
  destruct (span path_char r) as [p [|c r']] eqn:E; [done|]. apply span_app in E as [-> Hp].
  destruct (str_empty p) eqn:Ep; [done|]. cbn [negb andb]. destruct (Ascii.eqb_spec c "}") as [->|]; [|done].
  intros [= -> ->]. split; [done|]. split; [by apply str_empty_false|done].
Qed.

Lemma substitute_count fuel s :
  count "?" (substitute fuel s).1 = count "?" s + vsize (substitute fuel s).2.
Proof.
  revert s. induction fuel as [|fuel IH]; intros s; cbn [substitute]; [cbn [fst snd]; rewrite vsize_nil; lia|].
  destruct (param_at s) as [[path rest]|] eqn:E.
  - apply param_at_spec in E as (-> & _ & Hp). specialize (IH rest). destruct (substitute fuel rest) as [t ps].
    cbn [fst snd] in *. rewrite !count_app, vsize_cons. cbn [count]. rewrite IH.
    rewrite (count_none _ path); [cbn; lia|]. eapply str_all_weaken; [|done].
    intros c Hc. by rewrite path_char_plain.
  - destruct s as [|c s]; [done|]. specialize (IH s). destruct (substitute fuel s) as [t ps]. cbn [fst snd count] in *. lia.
Qed.

Lemma compile_inv sql params t vs : compile_sql sql params = inr (t, vs) ->
  t = (substitute (String.length sql) sql).1 /\
  length vs = length (substitute (String.length sql) sql).2 /\ has_text ";" t = false /\ has_text "${" t = false.
Proof.
  unfold compile_sql. destruct (substitute (String.length sql) sql) as [c ps]. cbn [fst snd].
  destruct (has_text "${" c) eqn:E1; [done|]. destruct (has_text ";" c) eqn:E2; [done|].
  intros [= <- <-]. by rewrite length_map.
Qed.

Lemma compile_total sql params params' t vs : compile_sql sql params = inr (t, vs) ->
  exists vs', compile_sql sql params' = inr (t, vs').
Proof.
  unfold compile_sql. destruct (substitute (String.length sql) sql) as [c ps].
  destruct (has_text "${" c); [done|]. destruct (has_text ";" c); [done|]. intros [= <- <-]. by eexists.
Qed.

(** *** Templates *)

(** A statement written as literals with parameters between them. *)
Fixpoint template (parts : list (string * string)) (last : string) : string :=
  match parts with [] => last | (lit, path) :: parts => lit +:+ "#{" +:+ path +:+ "}" +:+ template parts last end.
Fixpoint question_marks (parts : list (string * string)) (last : string) : string :=
  match parts with [] => last | (lit, _) :: parts => lit +:+ "?" +:+ question_marks parts last end.

Definition literal (s : string) : bool := str_all (fun c => negb (Ascii.eqb c "#")) s.
Definition path_ok (s : string) : bool := negb (str_empty s) && str_all path_char s.

Lemma param_at_literal c s : Ascii.eqb c "#" = false -> param_at (String c s) = None.
Proof. intros Hc. cbn [param_at]. destruct s; [done|]. by rewrite Hc. Qed.

Lemma substitute_literal lit fuel s : literal lit = true ->
  substitute (String.length lit + fuel) (lit +:+ s) =
  (lit +:+ (substitute fuel s).1, (substitute fuel s).2).
Proof.
  induction lit as [|c lit IH]; cbn [literal str_all]; [intros _; rewrite !str_app_nil; cbn [String.length Nat.add]; by destruct (substitute fuel s)|].
  intros [Hc Hl]%andb_true_iff. rewrite !str_app_cons. cbn [String.length Nat.add substitute].
  rewrite param_at_literal by (by apply negb_true_iff). by rewrite IH.
Qed.

Lemma param_at_param path s : path_ok path = true -> param_at ("#{" +:+ path +:+ "}" +:+ s) = Some (path, s).
Proof.
  intros [Hp Ha]%andb_true_iff. rewrite !str_app_cons, !str_app_nil. cbn [param_at].
  change (Ascii.eqb "#" "#" && Ascii.eqb "{" "{") with true. cbn iota.
  rewrite span_all by done. by rewrite Hp.
Qed.

(** Fuel beyond the length changes nothing. *)
Lemma substitute_S fuel s : (String.length s <= fuel)%nat -> substitute (S fuel) s = substitute fuel s.
Proof.
  revert s. induction fuel as [|fuel IH]; intros s Hl; [destruct s; [done|cbn in Hl; lia]|].
  cbn [substitute] in *. destruct (param_at s) as [[path rest]|] eqn:E.
  - apply param_at_spec in E as (-> & _). rewrite IH; [done|].
    rewrite !length_str_app in Hl. cbn [String.length] in Hl. lia.
  - destruct s as [|c s]; [done|]. rewrite IH; [done|]. cbn in Hl. lia.
Qed.

Lemma substitute_more fuel s : (String.length s <= fuel)%nat -> substitute fuel s = substitute (String.length s) s.
Proof. induction 1 as [|fuel Hl IH]; [done|]. by rewrite substitute_S. Qed.

Lemma substitute_template parts last : Forall (fun p => literal p.1 = true /\ path_ok p.2 = true) parts ->
  literal last = true ->
  substitute (String.length (template parts last)) (template parts last) = (question_marks parts last, map snd parts).
Proof.
  intros Hp Hl. induction Hp as [|[lit path] parts [Hlit Hpath] Hp IH]; cbn [template question_marks map fst snd] in *.
  - pose proof (substitute_literal last 0 "" Hl) as E. rewrite app_empty_r, Nat.add_0_r in E. rewrite E. cbn. by rewrite app_empty_r.
  - set (rest := template parts last) in *.
    rewrite length_str_app, substitute_literal by done.
    destruct (String.length ("#{" +:+ path +:+ "}" +:+ rest)) as [|n] eqn:En; [done|].
    cbn [substitute]. rewrite param_at_param by done. rewrite substitute_more.
    + rewrite IH. done.
    + rewrite !length_str_app in En. cbn [String.length] in En. lia.
Qed.

(** *** The statements of entities *)

(** Names, blanks, parentheses, commas, equal signs, stars and placeholders. *)
Definition safe_char (c : Ascii.ascii) : bool :=
  is_name c || str_in (String c "") [" "; "("; ")"; ","; "="; "?"; "*"].

Definition call_text (c : proxy_call) : string :=
  match c with CallQuery s _ | CallQueryOne s _ | CallExecute s _ => s end.
Definition call_values (c : proxy_call) : list lval :=
  match c with CallQuery _ v | CallQueryOne _ v | CallExecute _ v => v end.

(** A text of safe characters with [n] placeholders. *)
Definition safe_text (n : Z) (s : string) : Prop := str_all safe_char s = true /\ count "?" s = n.

Lemma safe_text_app n m a b : safe_text n a -> safe_text m b -> safe_text (n + m) (a +:+ b).
Proof. intros [Ha Hn] [Hb Hm]. split; [by rewrite str_all_app, Ha, Hb|]. rewrite count_app. lia. Qed.

Lemma is_name_safe c : is_name c = true -> safe_char c = true /\ Ascii.eqb c "?" = false.
Proof. destruct c as [[] [] [] [] [] [] [] []]; done. Qed.

Lemma identifier_safe s : is_identifier s = true -> safe_text 0 s.
Proof.
  intros Hs. assert (Hn : str_all is_name s = true).
  { destruct s as [|c r]; [done|]. cbn in Hs |- *. apply andb_true_iff in Hs as [Hc Hr]. rewrite Hr, andb_true_r.
    clear -Hc. by destruct c as [[] [] [] [] [] [] [] []]. }
  split.
  - eapply str_all_weaken; [|exact Hn]. intros c Hc. by apply is_name_safe.
  - apply count_none. eapply str_all_weaken; [|exact Hn]. intros c Hc. apply is_name_safe in Hc as [_ Hc]. by rewrite Hc.
Qed.

Lemma join_safe sep l : safe_text 0 sep -> Forall (safe_text 1) l -> safe_text (vsize l) (join sep l).
Proof.
  intros Hsep Hl. unfold join. induction Hl as [|x l Hx Hl IH]; [by split|].
  destruct l as [|y l]; [exact Hx|]. rewrite vsize_cons. cbn [String.concat].
  apply safe_text_app; [done|]. rewrite <-(Z.add_0_l (vsize (y :: l))). by apply safe_text_app.
Qed.

Lemma join_names_safe sep l : safe_text 0 sep -> Forall (safe_text 0) l -> safe_text 0 (join sep l).
Proof.
  intros Hsep Hl. unfold join. induction Hl as [|x l Hx Hl IH]; [by split|].
  destruct l as [|y l]; [exact Hx|]. cbn [String.concat].
  apply (safe_text_app 0 0); [done|]. by apply (safe_text_app 0 0).
Qed.

Lemma identifiers_inv names cols : identifiers names = inr cols -> cols = names /\ Forall (safe_text 0) names.
Proof.
  revert cols. induction names as [|n names IH]; intros cols; cbn [identifiers]; [intros [= <-]; by split|].
  intros (x & Hx & (rest & Hr & [= <-])%ebind_inr)%ebind_inr. destruct (IH _ Hr) as [-> Hf].
  unfold identifier in Hx. destruct (is_identifier n) eqn:En; [|done]. injection Hx as <-.
  split; [done|]. constructor; [by apply identifier_safe|done].
Qed.

Lemma assignments_safe names : Forall (safe_text 0) names -> Forall (safe_text 1) (assignments names).
Proof.
  intros Hf. unfold assignments. apply Forall_fmap. eapply Forall_impl; [|exact Hf]. intros c Hc.
  apply (safe_text_app 0 1); [done|by split].
Qed.

Lemma where_safe e row w : where_by_pk e row = inr w -> safe_text (vsize w.2) w.1.
Proof.
  unfold where_by_pk. intros (cols & (-> & Hf)%identifiers_inv & [= <-])%ebind_inr. cbn [fst snd].
  replace (vsize (map _ (en_primary_key e))) with (vsize (assignments (en_primary_key e)))
    by (unfold vsize, assignments; by rewrite !length_map).
  apply join_safe; [by split|by apply assignments_safe].
Qed.

Lemma table_safe table name fields pk e : make_entity table name fields pk = inr e -> safe_text 0 (en_table e).
Proof.
  unfold make_entity. intros (t & Ht & He)%ebind_inr. destruct fields; [done|]. injection He as <-. cbn [en_table].
  assert (Hi : forall s, identifier s = inr t -> safe_text 0 t).
  { intros x. unfold identifier. destruct (is_identifier x) eqn:Ex; [|done]. intros [= <-]. by apply identifier_safe. }
  destruct table as [x|], name as [y|]; [by apply (Hi x)|by apply (Hi x)|by apply (Hi y)|done].
Qed.

Lemma safe_before n a b : safe_text 0 a -> safe_text n b -> safe_text n (a +:+ b).
Proof. apply (safe_text_app 0). Qed.
Lemma safe_behind n a b : safe_text n a -> safe_text 0 b -> safe_text n (a +:+ b).
Proof. intros Ha Hb. rewrite <-(Z.add_0_r n). by apply safe_text_app. Qed.

(** Pass over the parts of a text without placeholders. *)
Ltac pass := repeat (apply safe_before; [first [assumption | by split]|]).

Lemma insert_safe e row c : safe_text 0 (en_table e) -> entity_insert e row = Calls c ->
  safe_text (vsize (call_values c)) (call_text c).
Proof.
  intros Ht. unfold entity_insert. destruct (List.filter _ _) as [|k keys] eqn:Ek; [done|]. rewrite <-Ek. clear Ek.
  destruct (identifiers _) as [m|cols] eqn:Ec; [done|]. intros [= <-]. cbn [call_text call_values].
  apply identifiers_inv in Ec as [-> Hf]. set (ks := List.filter _ _) in *.
  pass. apply safe_before; [apply join_names_safe; [by split|done]|]. pass. apply safe_behind; [|by split].
  replace (vsize (map _ ks)) with (vsize (map (fun _ => "?") ks)) by (unfold vsize; by rewrite !length_map).
  apply join_safe; [by split|]. apply Forall_fmap, Forall_true. intros x. by split.
Qed.

Lemma update_safe e row c : safe_text 0 (en_table e) -> entity_update e row = Calls c ->
  safe_text (vsize (call_values c)) (call_text c).
Proof.
  intros Ht. unfold entity_update. set (ks := List.filter _ _).
  destruct (identifiers ks) as [m|cols] eqn:Ec; [done|]. apply identifiers_inv in Ec as [-> Hf]. cbn [ebind raised].
  destruct ks as [|k keys] eqn:Ek; [done|]. rewrite <-Ek in *. destruct (where_by_pk e row) as [m|w] eqn:Ew; [done|].
  cbn [ebind raised]. intros [= <-]. cbn [call_text call_values]. rewrite vsize_app. pass.
  apply safe_text_app; [|apply safe_before; [by split|by eapply where_safe]].
  replace (vsize (map _ ks)) with (vsize (assignments ks)) by (unfold vsize, assignments; by rewrite !length_map).
  apply join_safe; [by split|by apply assignments_safe].
Qed.

Lemma delete_safe e key c : safe_text 0 (en_table e) -> entity_delete e key = Calls c ->
  safe_text (vsize (call_values c)) (call_text c).
Proof.
  intros Ht. unfold entity_delete. destruct (where_by_pk _ _) as [m|w] eqn:Ew; [done|]. intros [= <-].
  cbn [call_text call_values]. pass. by eapply where_safe.
Qed.

Lemma find_safe e key c : safe_text 0 (en_table e) -> entity_find e key = Calls c ->
  safe_text (vsize (call_values c)) (call_text c).
Proof.
  intros Ht. unfold entity_find. destruct (where_by_pk _ _) as [m|w] eqn:Ew; [done|]. intros [= <-].
  cbn [call_text call_values]. pass. by eapply where_safe.
Qed.

(** ** Properties *)

(** C29: values never become SQL.  The text of a statement is the same for all
    parameters, has a placeholder for each value and holds no second statement;
    each parameter of a template is replaced by a placeholder and its value handed
    over in its place.  The statements of an entity consist of names and
    punctuation with a placeholder for each value. *)
Theorem values_never_become_sql :
  (forall sql params t vs, compile_sql sql params = inr (t, vs) ->
     (forall params', exists vs', compile_sql sql params' = inr (t, vs')) /\
     count "?" t = count "?" sql + vsize vs /\ has_text ";" t = false /\ has_text "${" t = false) /\
  (forall parts last entries, Forall (fun p => literal p.1 = true /\ path_ok p.2 = true) parts -> literal last = true ->
     has_text ";" (question_marks parts last) = false -> has_text "${" (question_marks parts last) = false ->
     compile_sql (template parts last) (VTable entries) =
     inr (question_marks parts last, map (fun p => pushed (resolve_path (VTable entries) p.2)) parts)) /\
  (forall table name fields pk e row key c, make_entity table name fields pk = inr e ->
     Calls c ∈ [entity_insert e row; entity_update e row; entity_delete e key; entity_find e key] ->
     safe_text (vsize (call_values c)) (call_text c)).
Proof.
  split_and!.
  - intros sql params t vs E. pose proof (compile_inv _ _ _ _ E) as (Ht & Hl & H1 & H2).
    split_and!; [intros params'; by eapply compile_total| |done|done].
    pose proof (substitute_count (String.length sql) sql) as Hc. rewrite <-Ht in Hc. unfold vsize in *. lia.
  - intros parts last entries Hp Hl H1 H2. unfold compile_sql. rewrite substitute_template, H1, H2 by done.
    by rewrite map_map.
  - intros table name fields pk e row key c He Hin. apply table_safe in He.
    repeat (apply elem_of_cons in Hin as [Hc|Hin];
      [symmetry in Hc; first [by eapply insert_safe|by eapply update_safe|by eapply delete_safe|by eapply find_safe]|]).
    by apply elem_of_nil in Hin.
Qed.

(** ** Statements in use, and what goes wrong *)

Definition user_table : lval :=
  VTable [(VStr (bytes_of "user"), VTable [(VStr (bytes_of "id"), VInt 7)]); (VStr (bytes_of "name"), VStr (bytes_of "x' OR 1"))].

Example statement_compiled :
  compile_sql "SELECT * FROM t WHERE id = #{user.id} AND name = #{name}" user_table =
  inr ("SELECT * FROM t WHERE id = ? AND name = ?", [VInt 7; VStr (bytes_of "x' OR 1")]).
Proof. vm_compute. reflexivity. Qed.

(** A parameter that is missing is an empty text, not a null, and so is the key of
    a row without one. *)
Example missing_is_empty_text :
  compile_sql "UPDATE t SET a = #{a}" (VTable []) = inr ("UPDATE t SET a = ?", [VStr []]) /\
  entity_update (mkEntity "t" ["id"; "a"] ["id"]) {["a" := VInt 1]} =
  Calls (CallExecute "UPDATE t SET a = ? WHERE id = ?" [VInt 1; VStr []]).
Proof. vm_compute. split; reflexivity. Qed.

(** A semicolon or parameter inside of a literal of the statement is not told
    apart. *)
Example literals_not_recognised :
  compile_sql "SELECT ';'" VNil = inl ("mapper_unsafe_sql", "mapper statement must contain one SQL statement") /\
  compile_sql "SELECT '#{a}'" VNil = inr ("SELECT '?'", [VStr []]).
Proof. vm_compute. split; reflexivity. Qed.

(** The chunk is called in place of the function it returns: nothing is ever
    attached to a proxy. *)
Example mapper_never_attached proxy :
  let '(ok, cached, proxy') := apply_db_mapper_api None proxy in
  ok = true /\ proxy' = proxy /\ (apply_db_mapper_api cached proxy).2 = proxy.
Proof. cbn. split; [reflexivity|split; reflexivity]. Qed.
