(* ===== verification/SqlPool.v ===== *)
(** * SqlPool: what the connection pools of the SQL plugins have in common

    The two SQL plugins that talk to a server keep their connections in a pool
    shared by every thread that runs a script.  [MysqlPool] and [PgsqlPool] are
    transition systems; here are the lemmas on counting that both use.  A state holds the pool and, for
    each thread, where it stands; a step is what one thread does while it has the
    mutex, or one call of the driver between two such blocks.  The label of a step
    says which thread runs, what the driver answers and which sleeper
    [notify_one] wakes.  A thread that waits may be woken by a notification, by
    its timeout or for no reason.  Connections are numbered in the order they are
    opened. *)

From S2P Require Import Prelude.

(** ** Counting threads *)

Section Threads.
Context {T : Type}.

Lemma tally_insert (f : T -> nat) l i x y : l !! i = Some x ->
  (sum_list_with f (<[i := y]> l) + f x = sum_list_with f l + f y)%nat.
Proof.
  revert i. induction l as [|z l IH]; intros [|i] Hi; [done|done| |].
  - injection Hi as ->. simpl. lia.
  - simpl in *. apply IH in Hi. lia.
Qed.

Lemma tally_pos (f : T -> nat) l : (0 < sum_list_with f l)%nat ->
  exists i x, l !! i = Some x /\ (0 < f x)%nat.
Proof.
  induction l as [|x l IH]; cbn; [lia|]. intros Hs. destruct (f x) eqn:E.
  - destruct IH as (i & y & Hi & Hy); [lia|]. by exists (S i), y.
  - exists O, x. cbn. split; [done|lia].
Qed.

Lemma tally_elem (f : T -> nat) l i x : l !! i = Some x -> (f x <= sum_list_with f l)%nat.
Proof.
  revert i. induction l as [|y l IH]; intros [|i] Hi; [done|done| |]; cbn in *.
  - injection Hi as ->. lia.
  - apply IH in Hi. lia.
Qed.

Lemma gather_unique {B} (f : T -> list B) l i j x y b :
  NoDup (l ≫= f) -> l !! i = Some x -> l !! j = Some y -> b ∈ f x -> b ∈ f y -> i = j.
Proof.
  revert i j. induction l as [|z l IH]; intros i j Hn Hi Hj Hx Hy; [done|].
  rewrite bind_cons in Hn. apply list.NoDup_app in Hn as (_ & Hd & Hn).
  assert (Hrest : forall k w, l !! k = Some w -> b ∈ f w -> b ∈ l ≫= f).
  { intros k w Hk Hw. apply list_elem_of_bind. exists w. split; [done|by eapply list_elem_of_lookup_2]. }
  destruct i as [|i], j as [|j]; cbn in Hi, Hj; simplify_eq; [done| | |].
  - exfalso. eapply Hd; eauto.
  - exfalso. eapply Hd; eauto.
  - f_equal. by eapply IH.
Qed.

(** What both pools keep account of: the size counts the free connections and the
    slots of the threads, it has a limit, and a connection that was opened is in
    one place: free, in the hands of one thread, or closed. *)
Record accounts (slots : T -> nat) (conns : T -> list nat) (limit : Z)
    (free : list nat) (size : Z) (threads : list T) (opened : nat) (closed : list nat) : Prop := {
  acc_count : size = vsize free + Z.of_nat (sum_list_with slots threads);
  acc_bound : size <= Z.max 0 limit;
  acc_conns : free ++ (threads ≫= conns) ++ closed ≡ₚ seq 0 opened
}.

Context (slots : T -> nat) (conns : T -> list nat) (limit : Z).

Lemma accounts_new (n : nat) x : slots x = O -> conns x = [] -> accounts slots conns limit [] 0 (replicate n x) 0 [].
Proof.
  intros Hs Hc. split; [|lia|].
  - induction n; cbn in *; [done|]. lia.
  - rewrite app_nil_r. induction n; [done|]. cbn. by rewrite Hc.
Qed.

(** A thread moves from [x] to [y]: what it takes along is accounted for. *)
Lemma accounts_move free size threads opened closed i x y free' size' opened' closed' :
  accounts slots conns limit free size threads opened closed -> threads !! i = Some x ->
  size' = size + vsize free' - vsize free + Z.of_nat (slots y) - Z.of_nat (slots x) ->
  size' <= Z.max 0 limit ->
  (forall rest, free ++ (conns x ++ rest) ++ closed ≡ₚ seq 0 opened ->
     free' ++ (conns y ++ rest) ++ closed' ≡ₚ seq 0 opened') ->
  accounts slots conns limit free' size' (<[i := y]> threads) opened' closed'.
Proof.
  intros [Hc Hb Hs] Hi Hsize Hbound Hperm.
  pose proof (tally_insert slots _ _ _ y Hi) as Ht. split; [lia|done|].
  apply list_elem_of_split_length in Hi as (l1 & l2 & El & Hlen). subst threads i.
  rewrite insert_app_r_alt by done. rewrite Nat.sub_diag. cbn. rewrite !bind_app, !bind_cons in *.
  set (rest := (l1 ≫= conns) ++ (l2 ≫= conns)).
  assert (Hx : forall z, (l1 ≫= conns) ++ conns z ++ (l2 ≫= conns) ≡ₚ conns z ++ rest).
  { intros z. unfold rest. rewrite !(assoc (++)). by rewrite (Permutation_app_comm (conns z)). }
  rewrite Hx in *. by apply Hperm.
Qed.

Lemma accounts_nodup free size threads opened closed :
  accounts slots conns limit free size threads opened closed -> NoDup (free ++ (threads ≫= conns) ++ closed).
Proof. intros [_ _ ->]. apply NoDup_seq. Qed.

Lemma accounts_limit free size threads opened closed :
  (forall x, length (conns x) <= slots x)%nat -> accounts slots conns limit free size threads opened closed ->
  vsize free + vsize (threads ≫= conns) <= Z.max 0 limit.
Proof.
  intros Hle [Hc Hb _]. enough (length (threads ≫= conns) <= sum_list_with slots threads)%nat.
  { change (vsize (threads ≫= conns)) with (Z.of_nat (length (threads ≫= conns))). lia. }
  clear Hc. induction threads as [|c l IH]; [done|]. rewrite bind_cons, length_app. cbn [sum_list_with].
  pose proof (Hle c). lia.
Qed.

Lemma accounts_exclusive free size threads opened closed i j x y c :
  accounts slots conns limit free size threads opened closed ->
  threads !! i = Some x -> threads !! j = Some y -> c ∈ conns x -> c ∈ conns y -> i = j.
Proof.
  intros Hn%accounts_nodup. apply list.NoDup_app in Hn as (_ & _ & Hn).
  apply list.NoDup_app in Hn as (Hn & _). by apply gather_unique.
Qed.
End Threads.
