(* ===== verification/MysqlPool.v ===== *)
(** * MysqlPool: the session pool (plugins/mysql/shield_db_mysql.cpp)

    [acquire_session], the guard that gives a session back, and [drain_pool], as a
    transition system of the threads that use them; see [SqlPool]. *)

From S2P Require Import Prelude SqlPool.

(** Where a thread stands in [acquire_session] and the life of its guard. *)
Inductive caller :=
| Idle (failure : option string)
| Awake (timed_out : bool)
| Asleep
| Opening
| OpenFailed (error : string)
| Holding (session : nat)
| Dropping.

Record Pool := mkPool {
  free_list : list nat;
  current_size : Z;
  pool_size : Z;
  callers : list caller;
  opened : nat;
  closed : list nat
}.

Definition new_pool (size : Z) (threads : nat) : Pool :=
  mkPool [] 0 size (replicate threads (Idle None)) 0 [].

Definition move (i : nat) (c : caller) (p : Pool) : Pool :=
  mkPool (free_list p) (current_size p) (pool_size p) (<[i := c]> (callers p)) (opened p) (closed p).
Definition set_free (l : list nat) (p : Pool) : Pool :=
  mkPool l (current_size p) (pool_size p) (callers p) (opened p) (closed p).
Definition set_size (n : Z) (p : Pool) : Pool :=
  mkPool (free_list p) n (pool_size p) (callers p) (opened p) (closed p).
Definition set_closed (l : list nat) (p : Pool) : Pool :=
  mkPool (free_list p) (current_size p) (pool_size p) (callers p) (opened p) l.
Definition open_next (p : Pool) : Pool :=
  mkPool (free_list p) (current_size p) (pool_size p) (callers p) (S (opened p)) (closed p).

(** A free session, or a slot that is reserved before the lock is given up. *)
Definition take_or_reserve (i : nat) (p : Pool) : option Pool :=
  match free_list p with
  | s :: rest => Some (move i (Holding s) (set_free rest p))
  | [] =>
      if current_size p <? pool_size p then Some (move i Opening (set_size (current_size p + 1) p))
      else None
  end.

(** The first block of [acquire_session]. *)
Definition probe (i : nat) (p : Pool) : Pool := default (move i (Awake false) p) (take_or_reserve i p).

(** One round of [wait_for]: the predicate, and what follows it. *)
Definition exhausted : string := "mysql: connection pool exhausted (acquire timeout)".

Definition wait_ready (p : Pool) : bool :=
  negb (bool_decide (free_list p = [])) || (current_size p <? pool_size p).

Definition wait_round (i : nat) (timed_out : bool) (p : Pool) : Pool :=
  if wait_ready p then default p (take_or_reserve i p)
  else if timed_out then move i (Idle (Some exhausted)) p else move i Asleep p.

Definition is_asleep (c : caller) : bool := match c with Asleep => true | _ => false end.

(** [notify_one] wakes some thread that sleeps, when there is one. *)
Definition notify_one (woken : option nat) (p : Pool) : option Pool :=
  match woken with
  | Some j => match callers p !! j with Some Asleep => Some (move j (Awake false) p) | _ => None end
  | None => if existsb is_asleep (callers p) then None else Some p
  end.

(** The slot of a session that is not, or no longer, there. *)
Definition release_slot (i : nat) (failure : option string) (woken : option nat) (p : Pool) : option Pool :=
  notify_one woken (move i (Idle failure) (set_size (current_size p - 1) p)).

(** [~pool_guard] of a session that works. *)
Definition give_back (i s : nat) (woken : option nat) (p : Pool) : option Pool :=
  notify_one woken (move i (Idle None) (set_free (free_list p ++ [s]) p)).

(** What the constructor of the session did. *)
Inductive opening := Opened | Threw (what : string) | ThrewUnknown.

Definition connect_error (r : opening) : string :=
  match r with
  | Threw what => "mysql connect: " +:+ what
  | _ => "mysql connect: unknown error"
  end.

Definition open_session (i : nat) (r : opening) (p : Pool) : Pool :=
  match r with
  | Opened => move i (Holding (opened p)) (open_next p)
  | _ => move i (OpenFailed (connect_error r)) p
  end.

Inductive label :=
| Acquire (i : nat)
| Wake (i : nat) (timed_out : bool)
| Round (i : nat)
| Open (i : nat) (r : opening)
| Unreserve (i : nat) (woken : option nat)
| Release (i : nat) (woken : option nat)
| Discard (i : nat)
| Discarded (i : nat) (woken : option nat).

Definition thread_of (l : label) : nat :=
  match l with
  | Acquire i | Wake i _ | Round i | Open i _ | Unreserve i _ | Release i _ | Discard i | Discarded i _ => i
  end.

Definition step (l : label) (p : Pool) : option Pool :=
  match l, callers p !! thread_of l with
  | Acquire i, Some (Idle _) => Some (probe i p)
  | Wake i timed_out, Some Asleep => Some (move i (Awake timed_out) p)
  | Round i, Some (Awake timed_out) => Some (wait_round i timed_out p)
  | Open i r, Some Opening => Some (open_session i r p)
  | Unreserve i woken, Some (OpenFailed e) => release_slot i (Some e) woken p
  | Release i woken, Some (Holding s) => give_back i s woken p
  | Discard i, Some (Holding s) => Some (move i Dropping (set_closed (closed p ++ [s]) p))
  | Discarded i woken, Some Dropping => release_slot i None woken p
  | _, _ => None
  end.

Inductive reachable (size : Z) (threads : nat) : Pool -> Prop :=
| reach_new : reachable size threads (new_pool size threads)
| reach_step l p p' : reachable size threads p -> step l p = Some p' -> reachable size threads p'.

(** [drain_pool] closes what is free. *)
Definition drain_pool (p : Pool) : Pool := set_size 0 (set_free [] (set_closed (closed p ++ free_list p) p)).

(** ** What the pool keeps *)

Definition slots (c : caller) : nat :=
  match c with Opening | OpenFailed _ | Holding _ | Dropping => 1 | _ => 0 end%nat.
Definition sessions (c : caller) : list nat := match c with Holding s => [s] | _ => [] end.
Definition awake (c : caller) : nat := match c with Awake _ => 1 | _ => 0 end%nat.

Definition held (p : Pool) : list nat := callers p ≫= sessions.

(** What a thread could get: free sessions and slots that are not reserved. *)
Definition available (p : Pool) : Z := vsize (free_list p) + (pool_size p - current_size p).

Record pool_ok (size : Z) (p : Pool) : Prop := {
  ok_size : pool_size p = size;
  ok_accounts : accounts slots sessions size (free_list p) (current_size p) (callers p) (opened p) (closed p)
}.

(** When a thread sleeps, the threads that are about to look at the pool are as
    many as what they can find there, but for [debt] that a notification is still
    to make up for. *)
Definition wake_debt (debt : Z) (p : Pool) : Prop :=
  forall i, callers p !! i = Some Asleep ->
  available p <= Z.of_nat (sum_list_with awake (callers p)) + debt.

Ltac pool_arith :=
  unfold available in *; cbn -[vsize Z.add Z.sub Z.max] in *;
  rewrite ?vsize_app, ?vsize_cons, ?vsize_nil in *; lia.

Lemma new_pool_ok size n : pool_ok size (new_pool size n) /\ wake_debt 0 (new_pool size n).
Proof.
  split; [split; [done|by apply accounts_new]|].
  intros i Hi. cbn in Hi. apply lookup_replicate in Hi as [? _]. congruence.
Qed.

Lemma ok_bound size p : pool_ok size p -> current_size p <= Z.max 0 size.
Proof. intros [_ Ha]. apply Ha. Qed.

Lemma move_ok size p i x free size' closed' opened' y :
  pool_ok size p -> callers p !! i = Some x ->
  size' = current_size p + vsize free - vsize (free_list p) + Z.of_nat (slots y) - Z.of_nat (slots x) ->
  size' <= Z.max 0 size ->
  (forall rest, free_list p ++ (sessions x ++ rest) ++ closed p ≡ₚ seq 0 (opened p) ->
     free ++ (sessions y ++ rest) ++ closed' ≡ₚ seq 0 opened') ->
  pool_ok size (mkPool free size' (pool_size p) (<[i := y]> (callers p)) opened' closed').
Proof. intros [Hsz Ha] Hi Hsize Hbound Hperm. split; [done|]. by eapply accounts_move. Qed.

Lemma notify_ok size woken p p' :
  pool_ok size p -> wake_debt 1 p -> notify_one woken p = Some p' -> pool_ok size p' /\ wake_debt 0 p'.
Proof.
  intros Hok Hd Hn. unfold notify_one in Hn. destruct woken as [j|].
  - destruct (callers p !! j) as [c|] eqn:Hj; [|done]. destruct c; try done. injection Hn as <-. split.
    + eapply (move_ok _ p j Asleep); [done|done|cbn; lia|by apply (ok_bound _ p)|done].
    + intros k Hk. pose proof (Hd j Hj). pose proof (tally_insert awake _ _ _ (Awake false) Hj) as Ht.
      unfold available in *. cbn in *. lia.
  - destruct (existsb is_asleep (callers p)) eqn:E; [done|]. injection Hn as <-. split; [done|].
    intros k Hk. exfalso. apply not_true_iff_false in E. apply E. apply existsb_exists. exists Asleep.
    split; [|done]. apply list_elem_of_In. by eapply list_elem_of_lookup_2.
Qed.

(** The thread leaves [x] for [y] and takes [available] with it. *)
Lemma move_debt debt debt' p i x y free size' opened' closed' :
  wake_debt debt p -> callers p !! i = Some x -> y <> Asleep ->
  vsize free + (pool_size p - size') - Z.of_nat (awake y)
    <= available p - Z.of_nat (awake x) + debt' - debt ->
  wake_debt debt' (mkPool free size' (pool_size p) (<[i := y]> (callers p)) opened' closed').
Proof.
  intros Hd Hi Hy Hle k Hk. unfold available in *. cbn in *.
  pose proof (tally_insert awake _ _ _ y Hi).
  destruct (decide (k = i)) as [->|Hne].
  - rewrite list_lookup_insert_eq in Hk by (by eapply lookup_lt_Some). congruence.
  - rewrite list_lookup_insert_ne in Hk by done. pose proof (Hd k Hk) as Ha. unfold available in Ha. lia.
Qed.

Lemma take_or_reserve_ok size i x p p' :
  pool_ok size p -> wake_debt 0 p -> callers p !! i = Some x -> slots x = O -> sessions x = [] ->
  take_or_reserve i p = Some p' -> pool_ok size p' /\ wake_debt 0 p'.
Proof.
  intros Hok Hd Hi Hx Hsx Ht. unfold take_or_reserve in Ht. pose proof (acc_count _ _ _ _ _ _ _ _ (ok_accounts _ _ Hok)).
  assert (awake x <= 1)%nat by (destruct x; cbn; lia).
  destruct (free_list p) as [|s rest] eqn:Ef.
  - destruct (current_size p <? pool_size p) eqn:E; [|done]. injection Ht as <-. bools.
    rewrite (ok_size _ _ Hok) in E. split.
    + eapply (move_ok _ p i x); [done|done|rewrite Hx; pool_arith|pool_arith|]. by rewrite Hsx.
    + eapply (move_debt 0 _ p); [done|done|done|]. pool_arith.
  - injection Ht as <-. split.
    + eapply (move_ok _ p i x); [done|done|rewrite Ef, Hx; pool_arith|by apply (ok_bound _ p)|].
      intros rest' Hp. rewrite Ef, Hsx in Hp. rewrite <-Hp. cbn. symmetry. apply Permutation_middle.
    + eapply (move_debt 0 _ p); [done|done|done|]. unfold available. rewrite Ef. pool_arith.
Qed.

Lemma take_or_reserve_ready i p : wait_ready p = bool_decide (is_Some (take_or_reserve i p)).
Proof.
  unfold wait_ready, take_or_reserve. destruct (free_list p); [|rewrite bool_decide_false by done; by rewrite bool_decide_true by (by eexists)].
  rewrite bool_decide_true by done. cbn. by destruct (current_size p <? pool_size p).
Qed.

(** A thread that has nothing moves to where it has nothing. *)
Lemma settle_ok size i x y p :
  pool_ok size p -> callers p !! i = Some x -> slots x = slots y -> sessions x = sessions y -> pool_ok size (move i y p).
Proof.
  intros Hok Hi Hsl Hse. eapply (move_ok _ p i x); [done|done|lia|by apply (ok_bound _ p)|]. by rewrite Hse.
Qed.

Lemma probe_ok size i f p :
  pool_ok size p -> wake_debt 0 p -> callers p !! i = Some (Idle f) ->
  pool_ok size (probe i p) /\ wake_debt 0 (probe i p).
Proof.
  intros Hok Hd Hi. unfold probe. destruct (take_or_reserve i p) as [p'|] eqn:E; cbn [default].
  - by eapply take_or_reserve_ok.
  - split; [by eapply settle_ok|]. eapply (move_debt 0 _ p); [done|done|done|]. pool_arith.
Qed.

Lemma wait_round_ok size i t p :
  pool_ok size p -> wake_debt 0 p -> callers p !! i = Some (Awake t) ->
  pool_ok size (wait_round i t p) /\ wake_debt 0 (wait_round i t p).
Proof.
  intros Hok Hd Hi. unfold wait_round. rewrite (take_or_reserve_ready i).
  destruct (take_or_reserve i p) as [p'|] eqn:E.
  { rewrite bool_decide_true by done. by eapply take_or_reserve_ok. }
  rewrite bool_decide_false by (by intros [? ?]). unfold take_or_reserve in E.
  destruct (free_list p) eqn:Ef; [|done]. destruct (current_size p <? pool_size p) eqn:Ec; [done|]. bools.
  destruct t; (split; [by eapply settle_ok|]); intros k Hk; unfold available; cbn -[Z.add Z.sub]; rewrite Ef; pool_arith.
Qed.

Lemma release_slot_ok size i x f w p p' :
  pool_ok size p -> wake_debt 0 p -> callers p !! i = Some x -> slots x = 1%nat -> sessions x = [] -> awake x = O ->
  release_slot i f w p = Some p' -> pool_ok size p' /\ wake_debt 0 p'.
Proof.
  intros Hok Hd Hi Hsl Hse Ha. apply notify_ok.
  - eapply (move_ok _ p i x); [done|done|rewrite Hsl; pool_arith|pose proof (ok_bound _ _ Hok); pool_arith|].
    by rewrite Hse.
  - eapply (move_debt 0 _ p); [done|done|done|]. rewrite Ha. pool_arith.
Qed.

Lemma give_back_ok size i s w p p' :
  pool_ok size p -> wake_debt 0 p -> callers p !! i = Some (Holding s) ->
  give_back i s w p = Some p' -> pool_ok size p' /\ wake_debt 0 p'.
Proof.
  intros Hok Hd Hi. apply notify_ok.
  - eapply (move_ok _ p i (Holding s)); [done|done|pool_arith|by apply (ok_bound _ p)|].
    intros rest Hp. rewrite <-Hp. cbn. rewrite <-!(assoc (++)). done.
  - eapply (move_debt 0 _ p); [done|done|done|]. pool_arith.
Qed.

Lemma open_session_ok size i r p :
  pool_ok size p -> wake_debt 0 p -> callers p !! i = Some Opening ->
  pool_ok size (open_session i r p) /\ wake_debt 0 (open_session i r p).
Proof.
  intros Hok Hd Hi. unfold open_session.
  assert (He : forall y, y <> Asleep -> awake y = O -> wake_debt 0 (move i y p)).
  { intros y Hy Ha. eapply (move_debt 0 _ p); [done|done|done|]. rewrite Ha. pool_arith. }
  destruct r; [|split; [by eapply settle_ok|by apply He]..]. split.
  - eapply (move_ok _ p i Opening); [done|done|pool_arith|by apply (ok_bound _ p)|].
    intros rest Hp. cbn in Hp. cbn [open_next opened closed free_list sessions].
    rewrite seq_S, Nat.add_0_l, <-Hp. cbn. rewrite <-!(assoc (++)). f_equiv.
    rewrite (assoc (++)). apply Permutation_cons_append.
  - eapply (move_debt 0 _ p); [done|done|done|]. pool_arith.
Qed.

Lemma discard_ok size i s p :
  pool_ok size p -> wake_debt 0 p -> callers p !! i = Some (Holding s) ->
  let p' := move i Dropping (set_closed (closed p ++ [s]) p) in pool_ok size p' /\ wake_debt 0 p'.
Proof.
  intros Hok Hd Hi. split.
  - eapply (move_ok _ p i (Holding s)); [done|done|pool_arith|by apply (ok_bound _ p)|].
    intros rest Hp. rewrite <-Hp. cbn. f_equiv. rewrite (assoc (++)). symmetry. apply Permutation_cons_append.
  - eapply (move_debt 0 _ p); [done|done|done|]. pool_arith.
Qed.

Lemma step_ok size l p p' :
  pool_ok size p /\ wake_debt 0 p -> step l p = Some p' -> pool_ok size p' /\ wake_debt 0 p'.
Proof.
  intros [Hok Hd] Hs. unfold step in Hs.
  destruct l as [i|i t|i|i r|i w|i w|i|i w]; cbn [thread_of] in Hs;
    destruct (callers p !! i) as [c|] eqn:Hi; try done; destruct c; try done; try injection Hs as <-.
  - by eapply probe_ok.
  - split; [by eapply settle_ok|]. eapply (move_debt 0 _ p); [done|done|done|]. pool_arith.
  - by apply wait_round_ok.
  - by apply open_session_ok.
  - by eapply release_slot_ok.
  - by eapply give_back_ok.
  - by apply discard_ok.
  - by eapply release_slot_ok.
Qed.

Lemma pool_reachable_ok size n p : reachable size n p -> pool_ok size p /\ wake_debt 0 p.
Proof. induction 1 as [|l p p' _ IH Hs]; [apply new_pool_ok|by eapply step_ok]. Qed.

Definition is_idle (c : caller) : Prop := exists f, c = Idle f.

Lemma idle_nothing l : Forall is_idle l -> sum_list_with slots l = O /\ l ≫= sessions = [].
Proof. induction 1 as [|c l [f ->] _ [IH1 IH2]]; cbn; [done|]. by rewrite IH1. Qed.

Lemma round_serves p i t : callers p !! i = Some (Awake t) -> wait_ready p = true ->
  exists p', step (Round i) p = Some p' /\
    (callers p' !! i = Some Opening \/ exists s, callers p' !! i = Some (Holding s)).
Proof.
  intros Hi Hr. unfold step. cbn [thread_of]. rewrite Hi. unfold wait_round. rewrite Hr.
  rewrite (take_or_reserve_ready i) in Hr. apply bool_decide_eq_true in Hr as [p' Hp].
  rewrite Hp. exists p'. split; [done|]. apply lookup_lt_Some in Hi.
  unfold take_or_reserve in Hp. destruct (free_list p) as [|s rest].
  - destruct (current_size p <? pool_size p); [|done]. injection Hp as <-. left. by apply list_lookup_insert_eq.
  - injection Hp as <-. right. exists s. by apply list_lookup_insert_eq.
Qed.

Lemma ready_available p : wait_ready p = true -> current_size p <= pool_size p -> 0 < available p.
Proof.
  intros Hr Hc. unfold wait_ready, available in *. destruct (free_list p) as [|s l].
  - rewrite bool_decide_true in Hr by done. destruct (current_size p <? pool_size p) eqn:E; [|done]. bools. pose proof (vsize_nonneg (@nil nat)). lia.
  - rewrite vsize_cons. pose proof (vsize_nonneg l). lia.
Qed.

(** C30: however the threads of the program interleave, and whatever the server
    does, the MySQL pool never has more than [pool_size] sessions; no session is
    used by two threads, is free while it is used, or is used after it was closed;
    a thread that sleeps while a session or a slot is to be had is not forgotten:
    another one has been woken and gets it when it runs; and when every thread is
    done, [drain_pool] has closed every session that was ever opened, once. *)
Theorem mysql_pool_sound size n p :
  0 <= size -> reachable size n p ->
  NoDup (free_list p ++ held p ++ closed p) /\
  vsize (free_list p) + vsize (held p) <= size /\
  (forall i j s, callers p !! i = Some (Holding s) -> callers p !! j = Some (Holding s) -> i = j) /\
  (forall i, callers p !! i = Some Asleep -> wait_ready p = true ->
     exists j t p', callers p !! j = Some (Awake t) /\ step (Round j) p = Some p' /\
       (callers p' !! j = Some Opening \/ exists s, callers p' !! j = Some (Holding s))) /\
  (Forall is_idle (callers p) ->
     current_size p = vsize (free_list p) /\ closed (drain_pool p) ≡ₚ seq 0 (opened p)).
Proof.
  intros Hs [[Hsz Hacc] Hd]%pool_reachable_ok. split; [by eapply accounts_nodup|]. split; [|split; [|split]].
  - rewrite <-(Z.max_r 0 size) by done. eapply accounts_limit; [|exact Hacc]. intros []; cbn; lia.
  - intros i j s Hi Hj. eapply (accounts_exclusive _ _ _ _ _ _ _ _ i j _ _ s Hacc Hi Hj); by left.
  - intros i Hi Hr. pose proof (Hd i Hi) as Ha. pose proof (acc_bound _ _ _ _ _ _ _ _ Hacc).
    pose proof (ready_available p Hr).
    destruct (tally_pos awake (callers p)) as (j & x & Hj & Hx); [lia|].
    destruct x as [|t| | | | |]; cbn in Hx; try lia. exists j, t.
    destruct (round_serves p j t Hj Hr) as (p' & Hst & Hp'). by exists p'.
  - intros [H1 H2]%idle_nothing. destruct Hacc as [Hc _ Hp]. split; [lia|]. cbn. rewrite H2 in Hp.
    by rewrite Permutation_app_comm.
Qed.

(** Three threads and two slots: two sessions are opened, the third thread sleeps
    until one of them is given back. *)
Definition run (ls : list label) (p : Pool) : option Pool := foldl (fun o l => o ≫= step l) (Some p) ls.

Definition busy_run : list label :=
  [Acquire 0; Acquire 1; Open 0 Opened; Acquire 2; Round 2; Open 1 Opened; Release 0 (Some 2%nat)].

Lemma pool_run_reachable size n ls p p' :
  reachable size n p -> run ls p = Some p' -> reachable size n p'.
Proof.
  unfold run. revert p. induction ls as [|l ls IH]; intros p Hp Hr; cbn in Hr; [by injection Hr as <-|].
  destruct (step l p) as [p1|] eqn:E; cbn in Hr.
  - eapply IH; [|exact Hr]. by eapply reach_step.
  - exfalso. clear -Hr. induction ls as [|l ls IH]; [done|]. by apply IH.
Qed.

Lemma mysql_pool_sound_witness :
  exists p, run busy_run (new_pool 2 3) = Some p /\ vsize (free_list p) + vsize (held p) <= 2.
Proof.
  eexists. split; [vm_compute; reflexivity|].
  refine (proj1 (proj2 (mysql_pool_sound 2 3 _ _ _))); [lia|].
  eapply (pool_run_reachable 2 3 busy_run (new_pool 2 3)); [apply reach_new|]. vm_compute. reflexivity.
Defined.
