(* ===== verification/PgsqlPool.v ===== *)
(** * PgsqlPool: the connection pool (plugins/postgresql/shield_db_pgsql.cpp)

    A connection that is taken from the free list is asked for its status before
    it is used.  When it is dead, the thread takes the mutex, corrects the count
    and calls [acquire_conn] again while it still has the mutex, which is not
    recursive: [Relocking] is where it then waits for itself. *)

From S2P Require Import Prelude SqlPool.

Inductive caller :=
| Idle (failure : option string)
| Awake (timed_out : bool)
| Asleep
| Opening
| OpenFailed (error : string)
| Checking (conn : nat)
| FoundDead
| Relocking
| Holding (conn : nat)
| Dropping.

Record Pool := mkPool {
  free_list : list nat;
  current_size : Z;
  pool_size : Z;
  callers : list caller;
  opened : nat;
  closed : list nat;
  mutex : option nat
}.

(** [pg_create] replaces a size below one. *)
Definition new_pool (size : Z) (threads : nat) : Pool :=
  mkPool [] 0 (if size <? 1 then 4 else size) (replicate threads (Idle None)) 0 [] None.

Definition move (i : nat) (c : caller) (p : Pool) : Pool :=
  mkPool (free_list p) (current_size p) (pool_size p) (<[i := c]> (callers p)) (opened p) (closed p) (mutex p).
Definition set_free (l : list nat) (p : Pool) : Pool :=
  mkPool l (current_size p) (pool_size p) (callers p) (opened p) (closed p) (mutex p).
Definition set_size (n : Z) (p : Pool) : Pool :=
  mkPool (free_list p) n (pool_size p) (callers p) (opened p) (closed p) (mutex p).
Definition finish (c : nat) (p : Pool) : Pool :=
  mkPool (free_list p) (current_size p) (pool_size p) (callers p) (opened p) (closed p ++ [c]) (mutex p).
Definition open_next (p : Pool) : Pool :=
  mkPool (free_list p) (current_size p) (pool_size p) (callers p) (S (opened p)) (closed p) (mutex p).
Definition lock_forever (i : nat) (p : Pool) : Pool :=
  mkPool (free_list p) (current_size p) (pool_size p) (callers p) (opened p) (closed p) (Some i).

(** [if (inst->current_size > 0) --inst->current_size] *)
Definition less_one (n : Z) : Z := if 0 <? n then n - 1 else n.

Definition exhausted : string := "postgresql: connection pool exhausted (acquire timeout)".

(** One round of [wait_for]; its predicate looks at the free list only. *)
Definition wait_round (i : nat) (timed_out : bool) (p : Pool) : Pool :=
  match free_list p with
  | c :: rest => move i (Checking c) (set_free rest p)
  | [] => if timed_out then move i (Idle (Some exhausted)) p else move i Asleep p
  end.

(** [acquire_conn] up to where it gives up the mutex. *)
Definition acquire_conn (i : nat) (p : Pool) : Pool :=
  if bool_decide (free_list p = []) && (current_size p <? pool_size p)
  then move i Opening (set_size (current_size p + 1) p)
  else wait_round i false p.

Definition is_asleep (c : caller) : bool := match c with Asleep => true | _ => false end.

Definition notify_one (woken : option nat) (p : Pool) : option Pool :=
  match woken with
  | Some j => match callers p !! j with Some Asleep => Some (move j (Awake false) p) | _ => None end
  | None => if existsb is_asleep (callers p) then None else Some p
  end.

Definition release_slot (i : nat) (c : caller) (woken : option nat) (p : Pool) : option Pool :=
  notify_one woken (move i c (set_size (less_one (current_size p)) p)).

(** [release] of a connection that works. *)
Definition give_back (i c : nat) (woken : option nat) (p : Pool) : option Pool :=
  notify_one woken (move i (Idle None) (set_free (free_list p ++ [c]) p)).

(** [open_pg_conn]: the connection, or the error text. *)
Definition open_pg_conn (i : nat) (error : option string) (p : Pool) : Pool :=
  match error with
  | None => move i (Holding (opened p)) (open_next p)
  | Some e => move i (OpenFailed e) p
  end.

(** The status of a connection that was taken. *)
Definition health_check (i c : nat) (ok : bool) (p : Pool) : Pool :=
  if ok then move i (Holding c) p else move i FoundDead (finish c p).

Inductive label :=
| Acquire (i : nat)
| Wake (i : nat) (timed_out : bool)
| Round (i : nat)
| Health (i : nat) (ok : bool)
| Recurse (i : nat) (woken : option nat)
| Open (i : nat) (error : option string)
| Unreserve (i : nat) (woken : option nat)
| Release (i : nat) (woken : option nat)
| Discard (i : nat)
| Discarded (i : nat) (woken : option nat).

Definition thread_of (l : label) : nat :=
  match l with
  | Acquire i | Wake i _ | Round i | Health i _ | Recurse i _ | Open i _ | Unreserve i _ | Release i _
  | Discard i | Discarded i _ => i
  end.

(** The steps that need the mutex. *)
Definition locks (l : label) : bool :=
  match l with
  | Acquire _ | Round _ | Recurse _ _ | Unreserve _ _ | Release _ _ | Discarded _ _ => true
  | _ => false
  end.

Definition free_to_run (l : label) (p : Pool) : bool := negb (locks l) || bool_decide (mutex p = None).

Definition step (l : label) (p : Pool) : option Pool :=
  if free_to_run l p then
    match l, callers p !! thread_of l with
    | Acquire i, Some (Idle _) => Some (acquire_conn i p)
    | Wake i timed_out, Some Asleep => Some (move i (Awake timed_out) p)
    | Round i, Some (Awake timed_out) => Some (wait_round i timed_out p)
    | Health i ok, Some (Checking c) => Some (health_check i c ok p)
    | Recurse i woken, Some FoundDead => option_map (lock_forever i) (release_slot i Relocking woken p)
    | Open i error, Some Opening => Some (open_pg_conn i error p)
    | Unreserve i woken, Some (OpenFailed e) => release_slot i (Idle (Some e)) woken p
    | Release i woken, Some (Holding c) => give_back i c woken p
    | Discard i, Some (Holding c) => Some (move i Dropping (finish c p))
    | Discarded i woken, Some Dropping => release_slot i (Idle None) woken p
    | _, _ => None
    end
  else None.

Inductive reachable (size : Z) (threads : nat) : Pool -> Prop :=
| reach_new : reachable size threads (new_pool size threads)
| reach_step l p p' : reachable size threads p -> step l p = Some p' -> reachable size threads p'.

Definition run (ls : list label) (p : Pool) : option Pool := foldl (fun o l => o ≫= step l) (Some p) ls.

(** [drain_pool] *)
Definition drain_pool (p : Pool) : Pool :=
  set_size (foldl (fun n _ => less_one n) (current_size p) (free_list p))
    (set_free [] (foldl (fun p c => finish c p) p (free_list p))).

(** ** What the pool keeps *)

Definition slots (c : caller) : nat :=
  match c with
  | Opening | OpenFailed _ | Checking _ | FoundDead | Holding _ | Dropping => 1
  | _ => 0
  end%nat.
Definition conns (c : caller) : list nat := match c with Checking c | Holding c => [c] | _ => [] end.

Definition limit (size : Z) : Z := if size <? 1 then 4 else size.

Record pool_ok (size : Z) (p : Pool) : Prop := {
  ok_size : pool_size p = limit size;
  ok_accounts : accounts slots conns (limit size) (free_list p) (current_size p) (callers p) (opened p) (closed p)
}.

Lemma pg_move_ok size p i x free size' closed' opened' y m :
  pool_ok size p -> callers p !! i = Some x ->
  size' = current_size p + vsize free - vsize (free_list p) + Z.of_nat (slots y) - Z.of_nat (slots x) ->
  size' <= Z.max 0 (limit size) ->
  (forall rest, free_list p ++ (conns x ++ rest) ++ closed p ≡ₚ seq 0 (opened p) ->
     free ++ (conns y ++ rest) ++ closed' ≡ₚ seq 0 opened') ->
  pool_ok size (mkPool free size' (pool_size p) (<[i := y]> (callers p)) opened' closed' m).
Proof. intros [Hsz Ha] Hi Hsize Hbound Hperm. split; [done|]. by eapply accounts_move. Qed.

Lemma pg_ok_bound size p : pool_ok size p -> current_size p <= Z.max 0 (limit size).
Proof. intros [_ Ha]. apply Ha. Qed.

(** A thread that has nothing moves to where it has nothing. *)
Lemma pg_settle_ok size i x y p :
  pool_ok size p -> callers p !! i = Some x -> slots x = slots y -> conns x = conns y -> pool_ok size (move i y p).
Proof.
  intros Hok Hi Hsl Hse. eapply (pg_move_ok _ p i x); [done|done|lia|by apply (pg_ok_bound _ p)|]. by rewrite Hse.
Qed.

Lemma pg_notify_ok size woken p p' : pool_ok size p -> notify_one woken p = Some p' -> pool_ok size p'.
Proof.
  intros Hok Hn. unfold notify_one in Hn. destruct woken as [j|].
  - destruct (callers p !! j) as [c|] eqn:Hj; [|done]. destruct c; try done. injection Hn as <-.
    by eapply pg_settle_ok.
  - destruct (existsb is_asleep (callers p)); [done|]. by injection Hn as <-.
Qed.

Ltac pool_arith :=
  cbn -[vsize Z.add Z.sub Z.max] in *; rewrite ?vsize_app, ?vsize_cons, ?vsize_nil in *; lia.

(** The count is never zero while a thread has a slot, so the test before it is
    decremented always succeeds. *)
Lemma slot_counted size p i x : pool_ok size p -> callers p !! i = Some x -> slots x = 1%nat ->
  less_one (current_size p) = current_size p - 1.
Proof.
  intros [_ [Hc _ _]] Hi Hx. pose proof (tally_elem slots _ _ _ Hi) as Ht.
  pose proof (vsize_nonneg (free_list p)). unfold less_one.
  destruct (Z.ltb_spec 0 (current_size p)); lia.
Qed.

Lemma pg_release_slot_ok size i x y w p p' :
  pool_ok size p -> callers p !! i = Some x -> slots x = 1%nat -> conns x = [] -> slots y = O -> conns y = [] ->
  release_slot i y w p = Some p' -> pool_ok size p'.
Proof.
  intros Hok Hi Hsx Hcx Hsy Hcy. apply pg_notify_ok. rewrite (slot_counted size p i x) by done.
  pose proof (pg_ok_bound _ _ Hok).
  eapply (pg_move_ok _ p i x); [done|done|rewrite Hsx, Hsy; pool_arith|pool_arith|]. by rewrite Hcx, Hcy.
Qed.

Lemma take_ok size i x c rest p :
  pool_ok size p -> callers p !! i = Some x -> slots x = O -> conns x = [] -> free_list p = c :: rest ->
  pool_ok size (move i (Checking c) (set_free rest p)).
Proof.
  intros Hok Hi Hsx Hcx Hf.
  eapply (pg_move_ok _ p i x); [done|done|rewrite Hf, Hsx; pool_arith|by apply (pg_ok_bound _ p)|].
  intros rest' Hp. rewrite Hf, Hcx in Hp. rewrite <-Hp. cbn. symmetry. apply Permutation_middle.
Qed.

Lemma pg_wait_round_ok size i x t p :
  pool_ok size p -> callers p !! i = Some x -> slots x = O -> conns x = [] -> pool_ok size (wait_round i t p).
Proof.
  intros Hok Hi Hsx Hcx. unfold wait_round. destruct (free_list p) as [|c rest] eqn:E; [|by eapply take_ok].
  destruct t; by eapply pg_settle_ok.
Qed.

Lemma acquire_conn_ok size i f p :
  pool_ok size p -> callers p !! i = Some (Idle f) -> pool_ok size (acquire_conn i p).
Proof.
  intros Hok Hi. unfold acquire_conn. case_match eqn:E; [|by eapply pg_wait_round_ok].
  bools. rewrite (ok_size _ _ Hok) in *.
  eapply (pg_move_ok _ p i (Idle f)); [done|done|pool_arith|pool_arith|done].
Qed.

Lemma finish_ok size i x y c p :
  pool_ok size p -> callers p !! i = Some x -> conns x = [c] -> slots x = 1%nat -> conns y = [] -> slots y = 1%nat ->
  pool_ok size (move i y (finish c p)).
Proof.
  intros Hok Hi Hcx Hsx Hcy Hsy.
  eapply (pg_move_ok _ p i x); [done|done|rewrite Hsx, Hsy; pool_arith|by apply (pg_ok_bound _ p)|].
  intros rest Hp. rewrite Hcx in Hp. rewrite Hcy, <-Hp. cbn. f_equiv. rewrite (assoc (++)).
  symmetry. apply Permutation_cons_append.
Qed.

Lemma pg_give_back_ok size i c w p p' :
  pool_ok size p -> callers p !! i = Some (Holding c) -> give_back i c w p = Some p' -> pool_ok size p'.
Proof.
  intros Hok Hi. apply pg_notify_ok.
  eapply (pg_move_ok _ p i (Holding c)); [done|done|pool_arith|by apply (pg_ok_bound _ p)|].
  intros rest Hp. rewrite <-Hp. cbn. rewrite <-!(assoc (++)). done.
Qed.

Lemma open_pg_conn_ok size i e p :
  pool_ok size p -> callers p !! i = Some Opening -> pool_ok size (open_pg_conn i e p).
Proof.
  intros Hok Hi. unfold open_pg_conn. destruct e; [by eapply pg_settle_ok|].
  eapply (pg_move_ok _ p i Opening); [done|done|pool_arith|by apply (pg_ok_bound _ p)|].
  intros rest Hp. cbn in Hp. cbn [open_next opened closed free_list conns].
  rewrite seq_S, Nat.add_0_l, <-Hp. cbn. rewrite <-!(assoc (++)). f_equiv.
  rewrite (assoc (++)). apply Permutation_cons_append.
Qed.

Lemma pg_step_ok size l p p' : pool_ok size p -> step l p = Some p' -> pool_ok size p'.
Proof.
  intros Hok Hs. unfold step in Hs. destruct (free_to_run l p); [|done].
  destruct l as [i|i t|i|i ok|i w|i e|i w|i w|i|i w]; cbn [thread_of] in Hs;
    destruct (callers p !! i) as [c|] eqn:Hi; try done; destruct c; try done; try injection Hs as <-.
  - by eapply acquire_conn_ok.
  - by eapply pg_settle_ok.
  - by eapply pg_wait_round_ok.
  - unfold health_check. destruct ok; [by eapply pg_settle_ok|by eapply finish_ok].
  - destruct (release_slot i Relocking w p) as [q|] eqn:Hr; [|done]. injection Hs as <-.
    enough (pool_ok size q) as [? ?] by (by split). by eapply (pg_release_slot_ok _ i FoundDead Relocking w p).
  - by apply open_pg_conn_ok.
  - by eapply (pg_release_slot_ok _ i (OpenFailed error) (Idle (Some error)) w p).
  - by eapply pg_give_back_ok.
  - by eapply finish_ok.
  - by eapply (pg_release_slot_ok _ i Dropping (Idle None) w p).
Qed.

Lemma pg_reachable_ok size n p : reachable size n p -> pool_ok size p.
Proof.
  induction 1 as [|l p p' _ IH Hs]; [split; [done|by apply accounts_new]|by eapply pg_step_ok].
Qed.

Lemma drain_closed l p : closed (foldl (fun p c => finish c p) p l) = closed p ++ l.
Proof. revert p. induction l as [|c l IH]; intros p; cbn; [by rewrite app_nil_r|]. rewrite IH. cbn. by rewrite <-app_assoc. Qed.

Lemma drain_size (l : list nat) n : vsize l <= n -> foldl (fun n _ => less_one n) n l = n - vsize l.
Proof.
  revert n. induction l as [|c l IH]; intros n Hn; [unfold vsize; cbn; lia|]. rewrite vsize_cons in *.
  pose proof (vsize_nonneg l). cbn [foldl]. unfold less_one at 2.
  destruct (Z.ltb_spec 0 n); [|lia]. rewrite IH; lia.
Qed.

(** The PostgreSQL pool never has more than [pool_size] connections and
    never gives one to two threads, to a thread while it is free, or after it was
    finished; [drain_pool] finishes the free ones and leaves the count at those
    that threads still have. *)
Theorem pgsql_pool_sound size n p :
  reachable size n p ->
  NoDup (free_list p ++ (callers p ≫= conns) ++ closed p) /\
  vsize (free_list p) + vsize (callers p ≫= conns) <= limit size /\
  (forall i j c, callers p !! i = Some (Holding c) -> callers p !! j = Some (Holding c) -> i = j) /\
  closed (drain_pool p) = closed p ++ free_list p /\
  current_size (drain_pool p) = Z.of_nat (sum_list_with slots (callers p)).
Proof.
  intros [_ Hacc]%pg_reachable_ok. split; [by eapply accounts_nodup|]. split; [|split; [|split]].
  - rewrite <-(Z.max_r 0 (limit size)) by (unfold limit; destruct (Z.ltb_spec size 1); lia).
    eapply accounts_limit; [|exact Hacc]. intros []; cbn; lia.
  - intros i j c Hi Hj. eapply (accounts_exclusive _ _ _ _ _ _ _ _ i j _ _ c Hacc Hi Hj); by left.
  - apply drain_closed.
  - destruct Hacc as [Hc _ _]. cbn -[Z.of_nat]. rewrite drain_size; lia.
Qed.

Lemma pg_run_reachable size n ls p p' : reachable size n p -> run ls p = Some p' -> reachable size n p'.
Proof.
  unfold run. revert p. induction ls as [|l ls IH]; intros p Hp Hr; cbn in Hr; [by injection Hr as <-|].
  destruct (step l p) as [p1|] eqn:E; cbn in Hr.
  - eapply IH; [|exact Hr]. by eapply reach_step.
  - exfalso. clear -Hr. induction ls as [|l ls IH]; [done|]. by apply IH.
Qed.

Definition busy_run : list label :=
  [Acquire 0; Open 0 None; Acquire 1; Release 0 (Some 1%nat); Round 1; Health 1 true].

Lemma pgsql_pool_sound_witness :
  exists p, run busy_run (new_pool 1 2) = Some p /\ vsize (free_list p) + vsize (callers p ≫= conns) <= 1.
Proof.
  eexists. split; [vm_compute; reflexivity|].
  refine (proj1 (proj2 (pgsql_pool_sound 1 2 _ _))).
  eapply (pg_run_reachable 1 2 busy_run (new_pool 1 2)); [apply reach_new|]. vm_compute. reflexivity.
Defined.

(** *** Where it fails *)

(** After a dead connection was found in the free list the thread waits for a
    mutex that it holds: from then on nobody is given a connection from the pool
    or can give one back. *)
Definition without_conn (c : caller) : bool :=
  match c with Opening | Checking _ | Holding _ => false | _ => true end.

Lemma wedged_step l i p p' :
  mutex p = Some i -> step l p = Some p' ->
  mutex p' = Some i /\ free_list p' = free_list p /\ current_size p' = current_size p /\
  forall j c, callers p !! j = Some c -> without_conn c = true ->
    exists c', callers p' !! j = Some c' /\ without_conn c' = true.
Proof.
  intros Hm Hs. unfold step, free_to_run in Hs. rewrite Hm in Hs.
  assert (Hmove : forall k x y, callers p !! k = Some x -> (without_conn x = true -> without_conn y = true) ->
    forall j c, callers p !! j = Some c -> without_conn c = true ->
    exists c', <[k := y]> (callers p) !! j = Some c' /\ without_conn c' = true).
  { intros k x y Hk Hxy j c Hj Hc. destruct (decide (j = k)) as [->|Hne].
    - exists y. rewrite list_lookup_insert_eq by (by eapply lookup_lt_Some). split; [done|]. apply Hxy. congruence.
    - exists c. by rewrite list_lookup_insert_ne. }
  destruct l as [k|k t|k|k ok|k w|k e|k w|k w|k|k w]; cbn in Hs; try done;
    destruct (callers p !! k) as [x|] eqn:Hk; try done; destruct x; try done; injection Hs as <-;
    unfold health_check, open_pg_conn; try case_match; cbn; split_and!; try done; by eapply Hmove.
Qed.

Lemma dead_connection_wedges ls i p p' :
  mutex p = Some i -> run ls p = Some p' ->
  mutex p' = Some i /\ free_list p' = free_list p /\ current_size p' = current_size p /\
  forall j c, callers p !! j = Some c -> without_conn c = true ->
    exists c', callers p' !! j = Some c' /\ without_conn c' = true.
Proof.
  unfold run. revert p. induction ls as [|l ls IH]; intros p Hm Hr; cbn in Hr.
  - injection Hr as <-. split_and!; try done. intros j c Hj Hc. by exists c.
  - destruct (step l p) as [p1|] eqn:E; cbn in Hr.
    + destruct (wedged_step l i p p1 Hm E) as (H1 & H2 & H3 & H4).
      destruct (IH p1 H1 Hr) as (G1 & G2 & G3 & G4). split_and!; [done|congruence|congruence|].
      intros j c Hj Hc. destruct (H4 j c Hj Hc) as (c' & Hc' & Hw). by eapply G4.
    + exfalso. clear -Hr. induction ls as [|l ls IH]; [done|]. by apply IH.
Qed.

(** One connection that the server dropped while it was free is enough. *)
Example pool_wedges :
  option_map mutex (run [Acquire 0; Open 0 None; Release 0 None; Acquire 0; Health 0 false; Recurse 0 None] (new_pool 4 2))
  = Some (Some O).
Proof. vm_compute. reflexivity. Qed.

(** A thread that waits does not see that a slot became free: it goes back to
    sleep, and a thread that comes later is served. *)
Example waiter_misses_slot :
  option_map callers (run [Acquire 0; Open 0 None; Acquire 1; Discard 0; Discarded 0 (Some 1%nat); Round 1; Acquire 0]
    (new_pool 1 2)) = Some [Opening; Asleep].
Proof. vm_compute. reflexivity. Qed.
