(* ===== verification/SqlPlugin.v ===== *)
(** * SqlPlugin: what the SQL plugins share

    The namespaces of the plugins find their instance by a binding
    (plugins/_shared/shield_lua_plugin_binding.hpp) in a map from instance ids that
    every plugin keeps; statements answer with a flag and a value or an error
    table; a transaction runs a function of the script with a proxy of its own.
    Such a function is what it does to proxies: it calls one and goes on with the
    answer, returns values, or raises an error. *)

From S2P Require Import Prelude Text LuaPack Json.

(** ** Stateful calls *)

Definition st (W A : Type) : Type := W -> A * W.
Definition sret {W A} (a : A) : st W A := fun w => (a, w).
Definition sbind {W A B} (m : st W A) (k : A -> st W B) : st W B := fun w => let '(a, w) := m w in k a w.
Definition sget {W A} (f : W -> A) : st W A := fun w => (f w, w).

Notation "'let*' x := m 'in' k" := (sbind m (fun x => k))
  (at level 10, x name, m at level 100, k at level 200) : cpp_scope.

Lemma sbind_eq {W A B} (m : st W A) (k : A -> st W B) w a w' : m w = (a, w') -> sbind m k w = k a w'.
Proof. unfold sbind. by intros ->. Qed.

(** ** Lua values *)

Definition text (s : string) : lval := VStr (bytes_of s).

Definition error_table (code message : string) : lval :=
  VTable [(text "code", text code); (text "message", text message)].

(** [t[name] = v]: nil removes the field. *)
Definition set_field (name : string) (v : lval) (t : list (lval * lval)) : list (lval * lval) :=
  match v with
  | VNil => List.filter (fun e => negb (key_eqb (text name) e.1)) t
  | _ => table_put (text name) v t
  end.

(** A table of rows: positions from one. *)
Fixpoint sequence_from (i : Z) (l : list lval) : list (lval * lval) :=
  match l with [] => [] | v :: l => (VInt i, v) :: sequence_from (i + 1) l end.
Definition sequence (l : list lval) : lval := VTable (sequence_from 1 l).

(** What a statement gives back: [ok] with the value, or the error table. *)
Definition answer (r : (string * string) + lval) : list lval :=
  match r with
  | inr v => [VBool true; v]
  | inl (code, message) => [VBool false; error_table code message]
  end.

Definition failed (code message : string) : list lval := answer (inl (code, message)).

Inductive mode := Query | QueryOne | Execute.

(** What other plugins get (include/shield/plugin/database.h); a cell that is null
    has no text. *)
Record shield_db_result := mkDbResult {
  success : Z;
  error_msg : option string;
  error_code : option string;
  affected_rows : Z;
  last_insert_id : Z;
  row_count : Z;
  col_count : Z;
  cells : list (option (list byte))
}.

(** [clear_result] *)
Definition clear_result (r : shield_db_result) : shield_db_result :=
  mkDbResult (success r) None None (affected_rows r) (last_insert_id r) 0 0 [].

Definition no_result : shield_db_result := mkDbResult 0 None None 0 0 0 0 [].

(** The fields of an error; the others keep their values. *)
Definition error_result (message code : string) (out : shield_db_result) : shield_db_result :=
  mkDbResult 0 (Some message) (Some code) (affected_rows out) (last_insert_id out) (row_count out) (col_count out) (cells out).

(** ** Functions of scripts *)

Inductive script :=
| Returns (values : list lval)
| Raises
| OnTx (level : nat) (m : mode) (sql : string) (params : option (list (lval * lval))) (k : list lval -> script)
| OnProxy (m : mode) (sql : string) (params : option (list (lval * lval))) (k : list lval -> script)
| Transaction (callback : script) (k : list lval -> script).

(** How a function ended: [cb_res]. *)
Definition result : Type := option (list lval).

(** [first && !*first] of the first value. *)
Definition user_abort (values : list lval) : bool := match values with VBool false :: _ => true | _ => false end.

Definition commits (r : result) : bool := match r with Some values => negb (user_abort values) | None => false end.

Definition rolled_back (why : string) : list lval := failed "transaction_rolled_back" why.

(** The answer once the transaction has ended without an error. *)
Definition settled (r : result) : list lval :=
  match r with
  | None => rolled_back "callback raised an error"
  | Some values => if user_abort values then rolled_back "callback returned false" else VBool true :: values
  end.

Lemma settled_commits r : commits r = true -> exists values, r = Some values /\ settled r = VBool true :: values.
Proof. unfold settled, commits. destruct r as [vs|]; [|done]. destruct (user_abort vs); [done|]. eauto. Qed.

(** A C string ends at its first null character. *)
Fixpoint c_text (t : list byte) : list byte :=
  match t with
  | [] => []
  | b :: t => if Byte.eqb b Byte.x00 then [] else b :: c_text t
  end.
Definition c_string (s : string) : string := string_of (c_text (bytes_of s)).

(** ** Instances *)

Section Instances.
Context {I : Type}.

Definition register_instance (id : string) (i : I) (m : gmap string I) : gmap string I := <[id := i]> m.
Definition unregister_instance (id : string) (m : gmap string I) : gmap string I := delete id m.
Definition find_by_id (id : string) (m : gmap string I) : option I := m !! id.

(** [resolve_lua_binding]: [host] is the function of the host's table, when both
    are there; it gives the instance of a binding. *)
Definition resolve_lua_binding (host : option (string -> option string)) (binding : string) (m : gmap string I) : option I :=
  match host with
  | Some binding_instance_id =>
      if str_empty binding then None
      else match binding_instance_id binding with
           | Some id => if str_empty id then None else find_by_id id m
           | None => None
           end
  | None => None
  end.

Definition push_module_unavailable (binding : string) : list lval :=
  [VNil; VTable [(text "code", text "module_unavailable"); (text "message", text "plugin binding is unavailable");
                 (text "binding", text binding)]].

(** [__call] of a namespace: the instance whose proxy is made. *)
Definition namespace_call (host : option (string -> option string)) (binding : option string) (m : gmap string I)
  : list lval + I :=
  let logical := default "" binding in
  match resolve_lua_binding host logical m with
  | Some i => inr i
  | None => inl (push_module_unavailable logical)
  end.
End Instances.

(** ** Configuration *)

(** [j.contains(key) && j[key].is_...()] *)
Definition string_field (key : string) (j : json) (dflt : string) : string :=
  match get key j with Some (JStr s) => s | _ => dflt end.
Definition int_field (key : string) (j : json) (dflt : Z) : Z :=
  match get key j with Some (JInt z) | Some (JUInt z) => signed32 z | _ => dflt end.

(** ** Sessions

    What happens to a session of a pool: it is taken, commands of the plugin and
    statements of scripts are executed on it, a command succeeds or not, and it is
    given back to be used again or to be dropped. *)

Inductive event :=
| Acquired (s : nat)
| Command (s : nat) (sql : string) (ok : bool)
| Statement (s : nat) (sql : string)
| Released (s : nat) (dropped : bool).

(** What happened to one session, statements aside. *)
Definition about (s : nat) (e : event) : bool :=
  match e with
  | Acquired s' | Command s' _ _ | Released s' _ => (s' =? s)%nat
  | Statement _ _ => false
  end.
Definition history (s : nat) (es : list event) : list event := List.filter (about s) es.

Definition without (s : nat) (l : list nat) : list nat := List.filter (fun s' => negb (s' =? s)%nat) l.

Lemma history_app s a b : history s (a ++ b) = history s a ++ history s b.
Proof. apply List.filter_app. Qed.

Lemma history_self s es : Forall (fun e => about s e = true) es -> history s es = es.
Proof. induction 1 as [|e es He _ IH]; [done|]. cbn. rewrite He. by rewrite <-IH at 2. Qed.

Lemma history_none s es : Forall (fun e => about s e = false) es -> history s es = [].
Proof. induction 1 as [|e es He _ IH]; [done|]. cbn. by rewrite He. Qed.

Lemma without_head s l : s ∉ l -> without s (s :: l) = l.
Proof.
  intros Hs. unfold without. cbn. rewrite Nat.eqb_refl. cbn. induction l as [|x l IH]; [done|].
  apply not_elem_of_cons in Hs as [Hx Hl]. cbn. destruct (Nat.eqb_spec x s); [congruence|]. cbn. by rewrite IH.
Qed.

Section Foreign.
Context {W : Type} (used : W -> list nat) (log : W -> list event).

(** A function that gives back what it takes, and does nothing but statements to
    the sessions that are used. *)
Definition foreign {A} (m : st W A) : Prop :=
  forall w, exists es, log (m w).2 = log w ++ es /\ used (m w).2 = used w /\
    forall s, s ∈ used w -> history s es = [].

Lemma foreign_ret {A} (a : A) : foreign (sret a).
Proof. intros w. exists []. by rewrite app_nil_r. Qed.

Lemma foreign_get {A} (f : W -> A) : foreign (sget f).
Proof. intros w. exists []. by rewrite app_nil_r. Qed.

Lemma foreign_bind {A B} (m : st W A) (k : A -> st W B) :
  foreign m -> (forall a, foreign (k a)) -> foreign (let* a := m in k a).
Proof.
  intros Hm Hk w. unfold sbind. destruct (Hm w) as (e1 & L1 & U1 & X1). destruct (m w) as [a w1]. cbn in *.
  destruct (Hk a w1) as (e2 & L2 & U2 & X2). exists (e1 ++ e2). rewrite L2, L1, <-app_assoc. split; [done|].
  split; [congruence|]. intros s Hs. rewrite history_app, X1, X2 by congruence. done.
Qed.
End Foreign.
