(* ===== verification/Sqlite.v ===== *)
(** * Sqlite: the SQLite plugin (plugins/sqlite/shield_db_sqlite.cpp)

    sqlite3 is the library behind the plugin: the class [Sqlite3] holds its
    functions on a state of its own.  Handles are numbered as they are given out,
    and the model writes down every call that is made with one, so that the
    theorems can speak of the order of these calls.  [rows_left] bounds the rows
    that a statement will still give; it is the fuel of the loops over them. *)

From S2P Require Import Prelude Text LuaPack Json Config SqlPlugin.

(** ** The library *)

Definition SQLITE_OK : Z := 0.
Definition SQLITE_PERM : Z := 3.
Definition SQLITE_BUSY : Z := 5.
Definition SQLITE_NOMEM : Z := 7.
Definition SQLITE_READONLY : Z := 8.
Definition SQLITE_CONSTRAINT : Z := 19.
Definition SQLITE_MISMATCH : Z := 20.
Definition SQLITE_ROW : Z := 100.
Definition SQLITE_DONE : Z := 101.

(** Values of columns and parameters. *)
Inductive sql_value :=
| SqlNull
| SqlInteger (z : Z)
| SqlFloat (bits : Z)
| SqlText (t : list byte)
| SqlBlob (b : list byte).

(** Statements may be null: preparing a text without a statement gives none. *)
Class Sqlite3 := {
  lib : Type;
  lib_open : string -> lib -> (Z * bool) * lib;
  lib_busy_timeout : nat -> Z -> lib -> lib;
  lib_prepare : nat -> string -> lib -> (Z * bool) * lib;
  lib_bind : option nat -> Z -> sql_value -> lib -> Z * lib;
  lib_step : option nat -> lib -> Z * lib;
  lib_row : option nat -> lib -> list (string * sql_value);
  lib_column_count : option nat -> lib -> nat;
  lib_column_text : option nat -> nat -> lib -> option (list byte);
  lib_exec : nat -> string -> lib -> (Z * option string) * lib;
  lib_finalize : option nat -> lib -> lib;
  lib_close : nat -> lib -> lib;
  lib_changes : nat -> lib -> Z;
  lib_last_insert_rowid : nat -> lib -> Z;
  lib_errmsg : nat -> lib -> string;
  lib_readonly : nat -> lib -> Z;
  rows_left : option nat -> lib -> nat
}.

(** A row that is given is one less to come. *)
Class finite_rows `{Sqlite3} : Prop :=
  rows_left_step : forall s l l', lib_step s l = (SQLITE_ROW, l') -> (rows_left s l' < rows_left s l)%nat.

(** A call, with what it returned. *)
Inductive call :=
| COpen (path : string) (db : option nat) (rc : Z)
| CTimeout (db : nat) (ms : Z)
| CPrepare (db : nat) (sql : string) (stmt : option nat) (rc : Z)
| CBind (stmt : option nat) (index : Z) (v : sql_value) (rc : Z)
| CStep (stmt : option nat) (rc : Z)
| CExec (db : nat) (sql : string) (rc : Z)
| CFinalize (stmt : option nat)
| CClose (db : nat).

(** [map_sqlite_error] *)
Definition map_sqlite_error (rc : Z) : string :=
  if rc =? SQLITE_BUSY then "connection_timeout"
  else if rc =? SQLITE_CONSTRAINT then "constraint_violation"
  else if rc =? SQLITE_MISMATCH then "syntax_error"
  else if (rc =? SQLITE_READONLY) || (rc =? SQLITE_PERM) then "auth_failed"
  else if rc =? SQLITE_NOMEM then "pool_exhausted"
  else "db_query_failed".

(** What sol2 makes of a Lua float when it is asked for an integer. *)
Class SolNumbers := { float_as_integer : Z -> option Z }.

(** ** Instances *)

Record sqlite_instance := mkSqlite { database_path : string; query_timeout_ms : Z }.

Definition sqlite_defaults : sqlite_instance := mkSqlite ":memory:" 5000.

Definition parse_instance_config `{JsonLib} (config_json : option string) : sqlite_instance :=
  match config_json with
  | None | Some "" => sqlite_defaults
  | Some s =>
      match json_parse (bytes_of s) with
      | inr j => mkSqlite (string_field "database" j (database_path sqlite_defaults))
                   (int_field "query_timeout_ms" j (query_timeout_ms sqlite_defaults))
      | inl _ => sqlite_defaults
      end
  end.

Definition sqlite_create `{JsonLib} (id config_json : option string) (m : gmap string sqlite_instance)
  : gmap string sqlite_instance := register_instance (default "" id) (parse_instance_config config_json) m.
Definition sqlite_shutdown (id : string) (m : gmap string sqlite_instance) : gmap string sqlite_instance :=
  unregister_instance id m.
Definition sqlite_namespace (host : option (string -> option string)) (binding : option string)
    (m : gmap string sqlite_instance) : list lval + sqlite_instance := namespace_call host binding m.

Section Sqlite.
Context `{Sqlite3, SolNumbers}.

Record world := mkWorld { state : lib; next : nat; calls : list call }.

Definition log (c : call) (w : world) : world := mkWorld (state w) (next w) (calls w ++ [c]).
Definition set_lib (l : lib) (w : world) : world := mkWorld l (next w) (calls w).

(** A handle, when the library gave one. *)
Definition new_handle (given : bool) (w : world) : option nat * world :=
  if given then (Some (next w), mkWorld (state w) (S (next w)) (calls w)) else (None, w).

Definition sqlite3_open_v2 (path : string) : st world (Z * option nat) := fun w =>
  let '((rc, given), l) := lib_open (c_string path) (state w) in
  let '(h, w) := new_handle given (set_lib l w) in
  ((rc, h), log (COpen path h rc) w).

Definition sqlite3_busy_timeout (db : nat) (ms : Z) : st world unit := fun w =>
  (tt, log (CTimeout db ms) (set_lib (lib_busy_timeout db ms (state w)) w)).

Definition sqlite3_prepare_v2 (db : nat) (sql : string) : st world (Z * option nat) := fun w =>
  let '((rc, given), l) := lib_prepare db (c_string sql) (state w) in
  let '(h, w) := new_handle ((rc =? SQLITE_OK) && given) (set_lib l w) in
  ((rc, h), log (CPrepare db sql h rc) w).

Definition sqlite3_bind (stmt : option nat) (index : Z) (v : sql_value) : st world Z := fun w =>
  let '(rc, l) := lib_bind stmt index v (state w) in (rc, log (CBind stmt index v rc) (set_lib l w)).

Definition sqlite3_step (stmt : option nat) : st world Z := fun w =>
  let '(rc, l) := lib_step stmt (state w) in (rc, log (CStep stmt rc) (set_lib l w)).

Definition sqlite3_exec (db : nat) (sql : string) : st world (Z * option string) := fun w =>
  let '((rc, msg), l) := lib_exec db sql (state w) in ((rc, msg), log (CExec db sql rc) (set_lib l w)).

Definition sqlite3_finalize (stmt : option nat) : st world unit := fun w =>
  (tt, log (CFinalize stmt) (set_lib (lib_finalize stmt (state w)) w)).

Definition sqlite3_close (db : nat) : st world unit := fun w =>
  (tt, log (CClose db) (set_lib (lib_close db (state w)) w)).

Definition sqlite3_errmsg (db : nat) : st world string := sget (fun w => lib_errmsg db (state w)).

(** ** The functions of the plugin *)

Definition open_connection (inst : sqlite_instance) : st world (string + nat) :=
  let* r := sqlite3_open_v2 (database_path inst) in
  if negb (r.1 =? SQLITE_OK) then
    match r.2 with
    | Some db =>
        let* m := sqlite3_errmsg db in
        let* _ := sqlite3_close db in
        sret (inl m)
    | None => sret (inl "sqlite open failed")
    end
  else match r.2 with
       | Some db => let* _ := sqlite3_busy_timeout db (query_timeout_ms inst) in sret (inr db)
       | None => sret (inl "")
       end.

(** The value that is bound, and the warning of [*err_msg]. *)
Definition bound_value (index : Z) (v : lval) : sql_value * string :=
  match v with
  | VNil => (SqlNull, "")
  | VBool b => (SqlInteger (Z.b2z b), "")
  | VInt z => (SqlInteger z, "")
  | VNum bits => (match float_as_integer bits with Some z => SqlInteger z | None => SqlFloat bits end, "")
  | VStr s => (SqlText s, "")
  | _ => (SqlNull, "unsupported parameter type at index " +:+ to_string_i64 index +:+ "; bound as NULL")
  end.

Definition bind_lua_param (stmt : option nat) (index : Z) (v : lval) : st world (Z * string) :=
  let '(value, warning) := bound_value index v in
  let* rc := sqlite3_bind stmt index value in sret (rc, warning).

(** The value of a column; an empty blob has no bytes to point to. *)
Definition column_value (v : sql_value) : lval :=
  match v with
  | SqlNull => VNil
  | SqlInteger z => VInt z
  | SqlFloat bits => VNum bits
  | SqlText t => VStr (c_text t)
  | SqlBlob [] => VNil
  | SqlBlob b => VStr b
  end.

Definition row_to_lua (stmt : option nat) : st world lval :=
  sget (fun w => VTable (foldl (fun t c => set_field c.1 (column_value c.2) t) [] (lib_row stmt (state w)))).

(** The positional values: every value with a number for a key, as [pairs] meets
    them. *)
Definition is_number_key (k : lval) : bool := match k with VInt _ | VNum _ => true | _ => false end.
Definition positional (params : option (list (lval * lval))) : list lval :=
  map snd (List.filter (fun e => is_number_key e.1) (default [] params)).

Fixpoint bind_all (stmt : option nat) (index : Z) (values : list lval) : st world (option (Z * string)) :=
  match values with
  | [] => sret None
  | v :: values =>
      let* r := bind_lua_param stmt index v in
      if negb (r.1 =? SQLITE_OK) then sret (Some r) else bind_all stmt (index + 1) values
  end.

(** The statement fails: it is finalized, and then the message is asked for. *)
Definition abandon (db : nat) (stmt : option nat) (rc : Z) (message : string) : st world ((string * string) + lval) :=
  let* _ := sqlite3_finalize stmt in
  let* m := sqlite3_errmsg db in
  sret (inl (map_sqlite_error rc, if str_empty message then m else message)).

(** The loop over the rows; [None] when the statement fails, with its code. *)
Fixpoint all_rows (fuel : nat) (stmt : option nat) (rows : list lval) : st world (Z + list lval) :=
  match fuel with
  | O => sret (inl (-1))
  | S fuel =>
      let* rc := sqlite3_step stmt in
      if rc =? SQLITE_ROW then let* row := row_to_lua stmt in all_rows fuel stmt (rows ++ [row])
      else if rc =? SQLITE_DONE then sret (inr rows)
      else sret (inl rc)
  end.

Definition finished (stmt : option nat) (v : lval) : st world ((string * string) + lval) :=
  let* _ := sqlite3_finalize stmt in sret (inr v).

Definition step_fuel (stmt : option nat) (w : world) : nat := S (rows_left stmt (state w)).

(** The modes of [run_statement] once the parameters are bound. *)
Definition run_mode (db : nat) (stmt : option nat) (m : mode) : st world ((string * string) + lval) :=
  match m with
  | Execute =>
      let* rc := sqlite3_step stmt in
      if negb (rc =? SQLITE_DONE) && negb (rc =? SQLITE_ROW) then abandon db stmt rc ""
      else
        let* affected := sget (fun w => lib_changes db (state w)) in
        let* id := sget (fun w => lib_last_insert_rowid db (state w)) in
        finished stmt (VTable [(text "affected", VInt affected); (text "last_insert_id", VInt id)])
  | QueryOne =>
      let* rc := sqlite3_step stmt in
      if rc =? SQLITE_ROW then let* row := row_to_lua stmt in finished stmt row
      else if rc =? SQLITE_DONE then finished stmt VNil
      else abandon db stmt rc ""
  | Query =>
      let* fuel := sget (step_fuel stmt) in
      let* r := all_rows fuel stmt [] in
      match r with
      | inr rows => finished stmt (sequence rows)
      | inl rc => abandon db stmt rc ""
      end
  end.

Definition run_statement (db : nat) (sql : string) (params : option (list (lval * lval))) (m : mode)
  : st world ((string * string) + lval) :=
  let* p := sqlite3_prepare_v2 db sql in
  if negb (p.1 =? SQLITE_OK) then
    let* msg := sqlite3_errmsg db in sret (inl (map_sqlite_error p.1, msg))
  else
    let* b := bind_all p.2 1 (positional params) in
    match b with
    | Some (rc, warning) => abandon db p.2 rc warning
    | None => run_mode db p.2 m
    end.

(** A method of the instance's proxy: a connection of its own for each call. *)
Definition proxy_statement (inst : sqlite_instance) (m : mode) (sql : string) (params : option (list (lval * lval)))
  : st world (list lval) :=
  let* c := open_connection inst in
  match c with
  | inl e => sret (failed "connection_failed" e)
  | inr db =>
      let* r := run_statement db sql params m in
      let* _ := sqlite3_close db in
      sret (answer r)
  end.

(** A method of the proxy of a transaction. *)
Definition handle_statement (db : nat) (m : mode) (sql : string) (params : option (list (lval * lval)))
  : st world (list lval) :=
  let* r := run_statement db sql params m in sret (answer r).

(** ** The interface for other plugins *)

Definition fill_sqlite_error (db : nat) (rc : Z) (out : shield_db_result) : st world (Z * shield_db_result) :=
  let* msg := sqlite3_errmsg db in
  sret (0, error_result msg (map_sqlite_error rc) out).

Definition text_value (p : option string) : sql_value :=
  match p with Some s => SqlText (c_text (bytes_of s)) | None => SqlNull end.

Fixpoint bind_texts (stmt : option nat) (index : Z) (params : list (option string)) : st world (option Z) :=
  match params with
  | [] => sret None
  | p :: params =>
      let* rc := sqlite3_bind stmt index (text_value p) in
      if negb (rc =? SQLITE_OK) then sret (Some rc) else bind_texts stmt (index + 1) params
  end.

Definition row_texts (stmt : option nat) (w : world) : list (option (list byte)) :=
  map (fun c => option_map c_text (lib_column_text stmt c (state w))) (seq 0 (lib_column_count stmt (state w))).

(** The cells of the rows so far, their number and, at the end, the code. *)
Fixpoint collect_cells (fuel : nat) (stmt : option nat) (acc : list (option (list byte))) (rows : Z)
  : st world (Z * list (option (list byte)) * Z) :=
  match fuel with
  | O => sret (-1, acc, rows)
  | S fuel =>
      let* rc := sqlite3_step stmt in
      if rc =? SQLITE_ROW
      then let* row := sget (row_texts stmt) in collect_cells fuel stmt (acc ++ row) (rows + 1)
      else sret (rc, acc, rows)
  end.

Definition run_prepared (db : nat) (sql : string) (params : list (option string)) (out : shield_db_result)
  : st world (Z * shield_db_result) :=
  let* p := sqlite3_prepare_v2 db sql in
  if negb (p.1 =? SQLITE_OK) then fill_sqlite_error db p.1 out
  else
    let* b := bind_texts p.2 1 params in
    match b with
    | Some rc => let* _ := sqlite3_finalize p.2 in fill_sqlite_error db rc out
    | None =>
        let* col_count := sget (fun w => Z.of_nat (lib_column_count p.2 (state w))) in
        let* fuel := sget (step_fuel p.2) in
        let* r := collect_cells fuel p.2 [] 0 in
        let '(rc, acc, rows) := r in
        let* affected := sget (fun w => lib_changes db (state w)) in
        let* _ := sqlite3_finalize p.2 in
        if negb (rc =? SQLITE_DONE) then fill_sqlite_error db rc out
        else
          let* id := sget (fun w => lib_last_insert_rowid db (state w)) in
          sret (0, mkDbResult 1 None None affected id rows col_count acc)
    end.

(** [connect]: the path of the arguments, when both are there, and the timeout. *)
Definition vt_connect (database : option string) (timeout_ms : Z) : st world (string + nat) :=
  match database with
  | None => sret (inl "sqlite connect: missing database path")
  | Some path => open_connection (mkSqlite path (if timeout_ms =? 0 then 5000 else timeout_ms))
  end.

Definition vt_disconnect (c : option nat) : st world unit :=
  match c with Some db => sqlite3_close db | None => sret tt end.

Definition vt_ping (c : option nat) : st world Z :=
  match c with Some db => sget (fun w => Z.b2z (-1 <=? lib_readonly db (state w))) | None => sret 0 end.

(** [query] and [execute] are the same. *)
Definition vt_query (c : option nat) (sql : option string) (params : list (option string)) (out : shield_db_result)
  : st world (Z * shield_db_result) :=
  match c, sql with
  | Some db, Some sql => run_prepared db sql params out
  | _, _ => sret (1, error_result "sqlite: invalid arguments" "db_query_failed" out)
  end.

(** [begin], [commit] and [rollback] *)
Definition vt_simple (sql : string) (c : option nat) (out : shield_db_result) : st world (Z * shield_db_result) :=
  match c with Some db => run_prepared db sql [] out | None => sret (1, out) end.

(** ** Transactions *)

(** [transaction], with the callback as what is run on the new connection. *)
Definition transaction_with (inst : sqlite_instance) (callback : nat -> st world result) : st world (list lval) :=
  let* c := open_connection inst in
  match c with
  | inl e => sret (failed "connection_failed" e)
  | inr db =>
      let* b := sqlite3_exec db "BEGIN" in
      if negb (b.1 =? SQLITE_OK) then
        let* _ := sqlite3_close db in sret (failed "db_query_failed" (default "BEGIN failed" b.2))
      else
        let* cb_res := callback db in
        let tx_sql := if commits cb_res then "COMMIT" else "ROLLBACK" in
        let* t := sqlite3_exec db tx_sql in
        let tx_msg := default "" t.2 in
        let* _ := sqlite3_close db in
        if negb (t.1 =? SQLITE_OK)
        then sret (failed (map_sqlite_error t.1) (if str_empty tx_msg then tx_sql +:+ " failed" else tx_msg))
        else sret (settled cb_res)
  end.

(** A function of a script, inside the transactions whose connections are [txs]. *)
Fixpoint run_script (inst : sqlite_instance) (s : script) (txs : list nat) : st world result :=
  match s with
  | Returns values => sret (Some values)
  | Raises => sret None
  | OnTx level m sql params k =>
      match txs !! level with
      | Some db => let* r := handle_statement db m sql params in run_script inst (k r) txs
      | None => sret None
      end
  | OnProxy m sql params k =>
      let* r := proxy_statement inst m sql params in run_script inst (k r) txs
  | Transaction callback k =>
      let* r := transaction_with inst (fun db => run_script inst callback (db :: txs)) in run_script inst (k r) txs
  end.

Definition transaction (inst : sqlite_instance) (callback : script) : st world (list lval) :=
  transaction_with inst (fun db => run_script inst callback [db]).

End Sqlite.

(** ** The order of the calls *)

(** The connections and statements that are open, these with their connection. *)
Record tracker := mkTracker { dbs : list nat; stmts : list (nat * nat) }.

Definition live (s : nat) (t : tracker) : bool := bool_decide (s ∈ (stmts t).*1).
Definition idle (db : nat) (t : tracker) : bool := forallb (fun p => negb (p.2 =? db)%nat) (stmts t).
Definition when {A} (b : bool) (a : A) : option A := if b then Some a else None.

(** What a call needs, and what is open after it.  A call with a null statement is
    answered with an error by the library, and a null statement may be finalized. *)
Definition track (t : tracker) (c : call) : option tracker :=
  match c with
  | COpen _ None _ => Some t
  | COpen _ (Some h) _ => when (negb (bool_decide (h ∈ dbs t))) (mkTracker (h :: dbs t) (stmts t))
  | CTimeout db _ | CExec db _ _ => when (bool_decide (db ∈ dbs t)) t
  | CPrepare db _ None _ => when (bool_decide (db ∈ dbs t)) t
  | CPrepare db _ (Some s) _ =>
      when (bool_decide (db ∈ dbs t) && negb (live s t)) (mkTracker (dbs t) ((s, db) :: stmts t))
  | CBind None _ _ _ | CStep None _ | CFinalize None => Some t
  | CBind (Some s) _ _ _ | CStep (Some s) _ => when (live s t) t
  | CFinalize (Some s) => when (live s t) (mkTracker (dbs t) (List.filter (fun p => negb (p.1 =? s)%nat) (stmts t)))
  | CClose db =>
      when (bool_decide (db ∈ dbs t) && idle db t) (mkTracker (List.filter (fun d => negb (d =? db)%nat) (dbs t)) (stmts t))
  end.

Definition tracks (t : tracker) (cs : list call) : option tracker := foldl (fun o c => o ≫= fun t => track t c) (Some t) cs.

(** The commands that were executed on a connection, with their codes. *)
Definition executed (db : nat) (cs : list call) : list (string * Z) :=
  omap (fun c => match c with CExec d sql rc => if (d =? db)%nat then Some (sql, rc) else None | _ => None end) cs.

Lemma tracks_snoc t cs c : tracks t (cs ++ [c]) = tracks t cs ≫= fun t => track t c.
Proof. unfold tracks. by rewrite foldl_app. Qed.

Section Discipline.
Context `{Sqlite3, SolNumbers}.

(** The calls of [w] were in order and left [t] open; handles to come are new. *)
Record tracked (t : tracker) (w : world) : Prop := {
  tr_calls : tracks (mkTracker [] []) (calls w) = Some t;
  tr_dbs : Forall (fun d => d < next w)%nat (dbs t);
  tr_stmts : Forall (fun p => p.1 < next w /\ p.2 < next w)%nat (stmts t)
}.

(** A stateful function that takes [t] to [t' a], where [a] is its result. *)
Definition moves {A} (t : tracker) (m : st world A) (t' : A -> tracker) : Prop :=
  forall w, tracked t w -> tracked (t' (m w).1) (m w).2.

Lemma moves_bind {A B} t (m : st world A) t1 (k : A -> st world B) t2 :
  moves t m t1 -> (forall a, moves (t1 a) (k a) t2) -> moves t (let* a := m in k a) t2.
Proof.
  intros Hm Hk w Hw. unfold sbind. pose proof (Hm w Hw) as H1. destruct (m w) as [a w1] eqn:E. by apply Hk.
Qed.

Lemma moves_ret {A} t (a : A) t' : t' a = t -> moves t (sret a) t'.
Proof. intros Ht w Hw. cbn. by rewrite Ht. Qed.

Lemma moves_get {A} t (f : world -> A) : moves t (sget f) (fun _ => t).
Proof. by intros w Hw. Qed.

(** A call without a new handle. *)
Lemma tracked_log t c l w t' : tracked t w -> track t c = Some t' ->
  Forall (fun d => d < next w)%nat (dbs t') -> Forall (fun p => p.1 < next w /\ p.2 < next w)%nat (stmts t') ->
  tracked t' (log c (set_lib l w)).
Proof. intros [Hc _ _] Ht Hd Hs. split; [|done|done]. change (calls _) with (calls w ++ [c]). by rewrite tracks_snoc, Hc. Qed.

Lemma moves_call {A} t (m : st world A) :
  (forall w, exists c l, (m w).2 = log c (set_lib l w) /\ track t c = Some t) -> moves t m (fun _ => t).
Proof. intros Hm w Hw. destruct (Hm w) as (c & l & -> & Ht). eapply tracked_log; [done|done|apply Hw|apply Hw]. Qed.

Definition stmt_live (s : option nat) (t : tracker) : Prop := match s with Some s => live s t = true | None => True end.

Lemma moves_bind_value t s i v : stmt_live s t -> moves t (sqlite3_bind s i v) (fun _ => t).
Proof.
  intros Hs. apply moves_call. intros w. unfold sqlite3_bind. destruct (lib_bind s i v (state w)) as [rc l].
  exists (CBind s i v rc), l. split; [done|]. destruct s; cbn in *; [by rewrite Hs|done].
Qed.

Lemma moves_step t s : stmt_live s t -> moves t (sqlite3_step s) (fun _ => t).
Proof.
  intros Hs. apply moves_call. intros w. unfold sqlite3_step. destruct (lib_step s (state w)) as [rc l].
  exists (CStep s rc), l. split; [done|]. destruct s; cbn in *; [by rewrite Hs|done].
Qed.

Lemma moves_exec t db sql : db ∈ dbs t -> moves t (sqlite3_exec db sql) (fun _ => t).
Proof.
  intros Hd. apply moves_call. intros w. unfold sqlite3_exec. destruct (lib_exec db sql (state w)) as [[rc m] l].
  exists (CExec db sql rc), l. split; [done|]. cbn. by rewrite bool_decide_true.
Qed.

Lemma moves_timeout t db ms : db ∈ dbs t -> moves t (sqlite3_busy_timeout db ms) (fun _ => t).
Proof.
  intros Hd. apply moves_call. intros w. exists (CTimeout db ms), (lib_busy_timeout db ms (state w)).
  split; [done|]. cbn. by rewrite bool_decide_true.
Qed.

(** A statement that was prepared, and a connection that was opened, is new. *)
Definition with_stmt (db : nat) (s : option nat) (t : tracker) : tracker :=
  match s with Some s => mkTracker (dbs t) ((s, db) :: stmts t) | None => t end.
Definition with_db (db : nat) (t : tracker) : tracker := mkTracker (db :: dbs t) (stmts t).

Definition fresh_stmt (s : option nat) (t : tracker) : Prop := forall n, s = Some n -> n ∉ ((stmts t).*1).
Definition fresh_db (db : nat) (t : tracker) : Prop := (db ∉ dbs t) /\ idle db t = true.

Lemma filter_fresh {A} (f : A -> nat) n (l : list A) :
  n ∉ (f <$> l) -> List.filter (fun a => negb (f a =? n)%nat) l = l.
Proof.
  induction l as [|a l IH]; [done|]. cbn. intros Hn. apply not_elem_of_cons in Hn as [Ha Hl].
  destruct (Nat.eqb_spec (f a) n); [congruence|]. cbn. by rewrite IH.
Qed.

Lemma below_fresh {A} (f : A -> nat) n (l : list A) : Forall (fun a => f a < n)%nat l -> n ∉ (f <$> l).
Proof. intros Hl (a & -> & Ha)%list_elem_of_fmap. rewrite List.Forall_forall in Hl. apply list_elem_of_In, Hl in Ha. lia. Qed.

Lemma tracked_fresh t w : tracked t w -> fresh_stmt (Some (next w)) t /\ fresh_db (next w) t.
Proof.
  intros [_ Hd Hs]. split; [|split].
  - intros n [= <-]. apply (below_fresh fst). eapply Forall_impl; [|exact Hs]. by intros ? [? _].
  - rewrite <-(list_fmap_id (dbs t)). by apply (below_fresh id).
  - apply forallb_forall. intros p Hp. rewrite List.Forall_forall in Hs. pose proof (Hs p Hp) as [_ Hlt].
    destruct (Nat.eqb_spec p.2 (next w)); [lia|done].
Qed.

Lemma moves_prepare {B} t db sql (k : Z * option nat -> st world B) t2 :
  db ∈ dbs t ->
  (forall rc s, fresh_stmt s t -> (rc <> SQLITE_OK -> s = None) -> moves (with_stmt db s t) (k (rc, s)) t2) ->
  moves t (let* p := sqlite3_prepare_v2 db sql in k p) t2.
Proof.
  intros Hdb Hk w Hw. unfold sbind, sqlite3_prepare_v2.
  destruct (lib_prepare db (c_string sql) (state w)) as [[rc given] l].
  destruct (tracked_fresh t w Hw) as [Hf _]. pose proof (tr_dbs _ _ Hw) as Hd. pose proof (tr_stmts _ _ Hw) as Hs.
  destruct ((rc =? SQLITE_OK) && given) eqn:E; cbn [new_handle].
  - apply Hk; [done|intros; bools; lia|]. split; cbn [with_stmt calls log next dbs stmts].
    + rewrite tracks_snoc. change (calls _) with (calls w). rewrite (tr_calls _ _ Hw). cbn.
      rewrite bool_decide_true by done. unfold live. rewrite bool_decide_false by (by apply Hf). done.
    + eapply Forall_impl; [|exact Hd]. cbn. lia.
    + constructor; cbn.
      * rewrite List.Forall_forall in Hd. apply list_elem_of_In, Hd in Hdb. lia.
      * eapply Forall_impl; [|exact Hs]. cbn. lia.
  - apply Hk; [done|done|]. eapply tracked_log; [done| |done|done]. cbn. by rewrite bool_decide_true.
Qed.

Lemma moves_finalize t db s : fresh_stmt s t -> moves (with_stmt db s t) (sqlite3_finalize s) (fun _ => t).
Proof.
  intros Hf w Hw. destruct s as [s|].
  - unfold sqlite3_finalize. cbn [fst snd]. eapply tracked_log; [exact Hw| |exact (tr_dbs _ _ Hw)|].
    + cbn. unfold live. cbn. rewrite bool_decide_true by left. cbn. rewrite Nat.eqb_refl. cbn.
      rewrite (filter_fresh fst) by (by apply Hf). by destruct t.
    + pose proof (tr_stmts _ _ Hw) as Hs. by inversion Hs.
  - eapply tracked_log; [exact Hw|done|apply Hw|apply Hw].
Qed.

Lemma moves_close t db : fresh_db db t -> moves (with_db db t) (sqlite3_close db) (fun _ => t).
Proof.
  intros [Hf Hi] w Hw. unfold sqlite3_close. cbn [fst snd]. eapply tracked_log; [exact Hw| | |apply Hw].
  - cbn. rewrite bool_decide_true by left. unfold idle in *. cbn. rewrite Hi. cbn. rewrite Nat.eqb_refl. cbn.
    rewrite (filter_fresh id) by (by rewrite list_fmap_id). by destruct t.
  - pose proof (tr_dbs _ _ Hw) as Hs. by inversion Hs.
Qed.

Lemma live_with db s t : stmt_live s (with_stmt db s t).
Proof. destruct s as [s|]; [|done]. cbn. unfold live. cbn. by rewrite bool_decide_true by left. Qed.

(** *** The functions of the plugin leave open what was open *)

Definition stays {A} (t : tracker) (m : st world A) : Prop := moves t m (fun _ => t).

Lemma stays_then {A B} t (m : st world A) (k : A -> st world B) t2 :
  stays t m -> (forall a, moves t (k a) t2) -> moves t (let* a := m in k a) t2.
Proof. intros Hm Hk. by eapply moves_bind. Qed.

Lemma stays_bind_all t stmt i vs : stmt_live stmt t -> stays t (bind_all stmt i vs).
Proof.
  intros Hs. revert i. induction vs as [|v vs IH]; intros i; cbn [bind_all]; [by apply moves_ret|].
  apply stays_then.
  - unfold bind_lua_param. destruct (bound_value i v) as [value warning].
    apply stays_then; [by apply moves_bind_value|]. intros rc. by apply moves_ret.
  - intros r. destruct (negb (r.1 =? SQLITE_OK)); [by apply moves_ret|apply IH].
Qed.

Lemma stays_bind_texts t stmt i ps : stmt_live stmt t -> stays t (bind_texts stmt i ps).
Proof.
  intros Hs. revert i. induction ps as [|q ps IH]; intros i; cbn [bind_texts]; [by apply moves_ret|].
  apply stays_then; [by apply moves_bind_value|]. intros rc. destruct (negb (rc =? SQLITE_OK)); [by apply moves_ret|apply IH].
Qed.

Lemma stays_all_rows t fuel stmt rows : stmt_live stmt t -> stays t (all_rows fuel stmt rows).
Proof.
  intros Hs. revert rows. induction fuel as [|fuel IH]; intros rows; cbn [all_rows]; [by apply moves_ret|].
  apply stays_then; [by apply moves_step|]. intros rc. destruct (rc =? SQLITE_ROW).
  - apply stays_then; [apply moves_get|]. intros row. apply IH.
  - destruct (rc =? SQLITE_DONE); by apply moves_ret.
Qed.

Lemma stays_collect_cells t fuel stmt acc n : stmt_live stmt t -> stays t (collect_cells fuel stmt acc n).
Proof.
  intros Hs. revert acc n. induction fuel as [|fuel IH]; intros acc n; cbn [collect_cells]; [by apply moves_ret|].
  apply stays_then; [by apply moves_step|]. intros rc. destruct (rc =? SQLITE_ROW); [|by apply moves_ret].
  apply stays_then; [apply moves_get|]. intros row. apply IH.
Qed.

Lemma ends_abandon t db d stmt rc m : fresh_stmt stmt t -> moves (with_stmt d stmt t) (abandon db stmt rc m) (fun _ => t).
Proof.
  intros Hf. eapply moves_bind; [by apply moves_finalize|]. intros []. apply stays_then; [apply moves_get|].
  intros m'. by apply moves_ret.
Qed.

Lemma ends_finished t d stmt v : fresh_stmt stmt t -> moves (with_stmt d stmt t) (finished stmt v) (fun _ => t).
Proof. intros Hf. eapply moves_bind; [by apply moves_finalize|]. intros []. by apply moves_ret. Qed.

Lemma ends_run_mode t db d stmt m : fresh_stmt stmt t -> moves (with_stmt d stmt t) (run_mode db stmt m) (fun _ => t).
Proof.
  intros Hf. pose proof (live_with d stmt t) as Hl. destruct m; cbn [run_mode].
  - apply stays_then; [apply moves_get|]. intros fuel. apply stays_then; [by apply stays_all_rows|].
    intros [rc|rows]; [by apply ends_abandon|by apply ends_finished].
  - apply stays_then; [by apply moves_step|]. intros rc. destruct (rc =? SQLITE_ROW).
    + apply stays_then; [apply moves_get|]. intros row. by apply ends_finished.
    + destruct (rc =? SQLITE_DONE); [by apply ends_finished|by apply ends_abandon].
  - apply stays_then; [by apply moves_step|]. intros rc. case_match; [by apply ends_abandon|].
    apply stays_then; [apply moves_get|]. intros n. apply stays_then; [apply moves_get|].
    intros id. by apply ends_finished.
Qed.

Lemma stays_run_statement t db sql params m : db ∈ dbs t -> stays t (run_statement db sql params m).
Proof.
  intros Hdb. apply moves_prepare; [done|]. intros rc s Hf Hnone. cbn [fst snd].
  destruct (rc =? SQLITE_OK) eqn:E; cbn [negb].
  - apply stays_then; [apply stays_bind_all, live_with|]. intros [[brc warning]|]; [by apply ends_abandon|by apply ends_run_mode].
  - rewrite Hnone by (bools; done). apply stays_then; [apply moves_get|]. intros msg. by apply moves_ret.
Qed.

Lemma stays_fill t db rc out : stays t (fill_sqlite_error db rc out).
Proof. apply stays_then; [apply moves_get|]. intros msg. by apply moves_ret. Qed.

Lemma stays_run_prepared t db sql params out : db ∈ dbs t -> stays t (run_prepared db sql params out).
Proof.
  intros Hdb. apply moves_prepare; [done|]. intros rc s Hf Hnone. cbn [fst snd].
  destruct (rc =? SQLITE_OK) eqn:E; cbn [negb]; [|rewrite Hnone by (bools; done); apply stays_fill].
  apply stays_then; [apply stays_bind_texts, live_with|]. intros [brc|].
  - eapply moves_bind; [by apply moves_finalize|]. intros []. apply stays_fill.
  - apply stays_then; [apply moves_get|]. intros cols. apply stays_then; [apply moves_get|]. intros fuel.
    apply stays_then; [apply stays_collect_cells, live_with|]. intros [[rc' acc] rows].
    apply stays_then; [apply moves_get|]. intros affected.
    eapply moves_bind; [by apply moves_finalize|]. intros []. case_match; [apply stays_fill|].
    apply stays_then; [apply moves_get|]. intros id. by apply moves_ret.
Qed.

(** A connection is opened for what follows; it must be closed there. *)
Lemma moves_open {B} t inst (k : string + nat -> st world B) t2 :
  (forall e, moves t (k (inl e)) t2) -> (forall db, fresh_db db t -> moves (with_db db t) (k (inr db)) t2) ->
  moves t (let* c := open_connection inst in k c) t2.
Proof.
  intros He Hk w Hw. unfold open_connection, sbind, sqlite3_open_v2.
  destruct (lib_open (c_string (database_path inst)) (state w)) as [[rc given] l].
  destruct (tracked_fresh t w Hw) as [_ Hf]. destruct given; cbn [new_handle fst snd].
  - set (w1 := log _ _). assert (Hw1 : tracked (with_db (next w) t) w1).
    { destruct Hw as [Hc Hd Hs]. split; cbn [with_db dbs stmts w1 log next calls].
      - rewrite tracks_snoc. change (calls _) with (calls w). rewrite Hc. cbn.
        by rewrite bool_decide_false by apply Hf.
      - constructor; [cbn; lia|]. eapply Forall_impl; [|exact Hd]. cbn. lia.
      - eapply Forall_impl; [|exact Hs]. cbn. lia. }
    change (next (set_lib l w)) with (next w). destruct (rc =? SQLITE_OK); cbn [negb].
    + apply Hk; [done|]. eapply (moves_timeout _ (next w) (query_timeout_ms inst)); [|exact Hw1]. left.
    + apply He. exact (moves_close t _ Hf w1 Hw1).
  - destruct (rc =? SQLITE_OK); cbn [negb]; apply He; (eapply tracked_log; [exact Hw|done|apply Hw|apply Hw]).
Qed.

Lemma stays_proxy_statement t inst m sql params : stays t (proxy_statement inst m sql params).
Proof.
  apply moves_open; [intros e; by apply moves_ret|]. intros db Hf.
  apply stays_then; [apply stays_run_statement; left|]. intros r.
  eapply moves_bind; [by apply moves_close|]. intros []. by apply moves_ret.
Qed.

Lemma stays_transaction_with t inst callback :
  (forall db, fresh_db db t -> stays (with_db db t) (callback db)) -> stays t (transaction_with inst callback).
Proof.
  intros Hcb. apply moves_open; [intros e; by apply moves_ret|]. intros db Hf.
  apply stays_then; [apply moves_exec; left|]. intros b. case_match.
  - eapply moves_bind; [by apply moves_close|]. intros []. by apply moves_ret.
  - apply stays_then; [by apply Hcb|]. intros cb_res. apply stays_then; [apply moves_exec; left|]. intros r.
    eapply moves_bind; [by apply moves_close|]. intros []. case_match; by apply moves_ret.
Qed.

Lemma stays_run_script inst s : forall t txs, (forall db, db ∈ txs -> db ∈ dbs t) -> stays t (run_script inst s txs).
Proof.
  induction s as [values| |level m sql params k IH|m sql params k IH|callback IHc k IH]; intros t txs Htx; cbn [run_script].
  - by apply moves_ret.
  - by apply moves_ret.
  - destruct (txs !! level) as [db|] eqn:E; [|by apply moves_ret].
    apply stays_then; [|intros r; by apply IH]. apply stays_then; [|intros r; by apply moves_ret].
    apply stays_run_statement, Htx. by eapply list_elem_of_lookup_2.
  - apply stays_then; [apply stays_proxy_statement|]. intros r. by apply IH.
  - apply stays_then; [|intros r; by apply IH]. apply stays_transaction_with. intros db Hf. apply IHc.
    intros d [->|Hd]%elem_of_cons; [left|right; by apply Htx].
Qed.

(** *** The commands of a transaction *)

(** A function adds calls to the log, and executes nothing on a connection that
    was there before. *)
Definition quiet {A} (m : st world A) : Prop :=
  forall w, exists cs, calls (m w).2 = calls w ++ cs /\ (next w <= next (m w).2)%nat /\
    forall db, (db < next w)%nat -> executed db cs = [].

Lemma executed_app db a b : executed db (a ++ b) = executed db a ++ executed db b.
Proof. apply omap_app. Qed.

Lemma quiet_ret {A} (a : A) : quiet (sret a).
Proof. intros w. exists []. rewrite app_nil_r. by repeat split. Qed.

Lemma quiet_get {A} (f : world -> A) : quiet (sget f).
Proof. intros w. exists []. rewrite app_nil_r. by repeat split. Qed.

Lemma quiet_bind {A B} (m : st world A) (k : A -> st world B) :
  quiet m -> (forall a, quiet (k a)) -> quiet (let* a := m in k a).
Proof.
  intros Hm Hk w. unfold sbind. destruct (Hm w) as (c1 & E1 & N1 & X1). destruct (m w) as [a w1]. cbn in *.
  destruct (Hk a w1) as (c2 & E2 & N2 & X2). exists (c1 ++ c2).
  rewrite E2, E1, (assoc (++)). split; [done|]. split; [lia|].
  intros db Hdb. rewrite executed_app, X1, X2 by lia. done.
Qed.

Lemma quiet_call {A} (m : st world A) :
  (forall w, exists c, calls (m w).2 = calls w ++ [c] /\ (next w <= next (m w).2)%nat /\
     forall db, (db < next w)%nat -> executed db [c] = []) -> quiet m.
Proof. intros Hm w. destruct (Hm w) as (c & ? & ? & ?). by exists [c]. Qed.

Ltac one_call := apply quiet_call; intros w.

Lemma quiet_prepare db sql : quiet (sqlite3_prepare_v2 db sql).
Proof.
  one_call. unfold sqlite3_prepare_v2. destruct (lib_prepare _ _ _) as [[rc g] l].
  destruct (_ && g); cbn; eexists; (split; [reflexivity|]); split; try lia; done.
Qed.

Lemma quiet_bind_value s i v : quiet (sqlite3_bind s i v).
Proof. one_call. unfold sqlite3_bind. destruct (lib_bind _ _ _ _). cbn. eexists. by repeat split. Qed.

Lemma quiet_step s : quiet (sqlite3_step s).
Proof. one_call. unfold sqlite3_step. destruct (lib_step _ _). cbn. eexists. by repeat split. Qed.

Lemma quiet_finalize s : quiet (sqlite3_finalize s).
Proof. one_call. cbn. eexists. by repeat split. Qed.

Lemma quiet_close db : quiet (sqlite3_close db).
Proof. one_call. cbn. eexists. by repeat split. Qed.

Lemma quiet_bind_all stmt i vs : quiet (bind_all stmt i vs).
Proof.
  revert i. induction vs as [|v vs IH]; intros i; cbn [bind_all]; [apply quiet_ret|].
  apply quiet_bind; [|intros r; case_match; [apply quiet_ret|apply IH]].
  unfold bind_lua_param. destruct (bound_value i v). apply quiet_bind; [apply quiet_bind_value|]. intros rc. apply quiet_ret.
Qed.

Lemma quiet_all_rows fuel stmt rows : quiet (all_rows fuel stmt rows).
Proof.
  revert rows. induction fuel as [|fuel IH]; intros rows; cbn [all_rows]; [apply quiet_ret|].
  apply quiet_bind; [apply quiet_step|]. intros rc. case_match.
  - apply quiet_bind; [apply quiet_get|]. intros row. apply IH.
  - case_match; apply quiet_ret.
Qed.

Lemma quiet_statement db sql params m : quiet (run_statement db sql params m).
Proof.
  assert (Hg : forall stmt rc msg, quiet (abandon db stmt rc msg)).
  { intros stmt rc msg. unfold abandon, sqlite3_errmsg. apply quiet_bind; [apply quiet_finalize|]. intros _.
    apply quiet_bind; [apply quiet_get|]. intros m'. apply quiet_ret. }
  assert (Hf : forall stmt v, quiet (finished stmt v)).
  { intros stmt v. apply quiet_bind; [apply quiet_finalize|]. intros _. apply quiet_ret. }
  apply quiet_bind; [apply quiet_prepare|]. intros [rc stmt]. cbn [fst snd]. case_match.
  { apply quiet_bind; [apply quiet_get|]. intros msg. apply quiet_ret. }
  apply quiet_bind; [apply quiet_bind_all|]. intros [[brc warning]|]; [apply Hg|]. destruct m; cbn [run_mode].
  - apply quiet_bind; [apply quiet_get|]. intros fuel. apply quiet_bind; [apply quiet_all_rows|].
    intros [e|rows]; [apply Hg|apply Hf].
  - apply quiet_bind; [apply quiet_step|]. intros r. case_match.
    + apply quiet_bind; [apply quiet_get|]. intros row. apply Hf.
    + case_match; [apply Hf|apply Hg].
  - apply quiet_bind; [apply quiet_step|]. intros r. case_match; [apply Hg|].
    apply quiet_bind; [apply quiet_get|]. intros n. apply quiet_bind; [apply quiet_get|]. intros id. apply Hf.
Qed.

Lemma open_spec inst w :
  exists cs, calls (open_connection inst w).2 = calls w ++ cs /\ (next w <= next (open_connection inst w).2)%nat /\
    (forall d, executed d cs = []) /\
    (forall db, (open_connection inst w).1 = inr db -> (next w <= db < next (open_connection inst w).2)%nat).
Proof.
  unfold open_connection, sbind, sqlite3_open_v2.
  destruct (lib_open (c_string (database_path inst)) (state w)) as [[rc given] l].
  destruct given; destruct (rc =? SQLITE_OK) eqn:E; cbn -[c_string]; rewrite ?E; cbn -[c_string].
  - eexists. rewrite <-app_assoc. split; [reflexivity|]. split; [lia|]. split; [done|]. intros db [= <-]. lia.
  - eexists. rewrite <-app_assoc. split; [reflexivity|]. split; [lia|]. by split.
  - eexists. split; [reflexivity|]. split; [lia|]. by split.
  - eexists. split; [reflexivity|]. split; [lia|]. by split.
Qed.

(** What a transaction answers, and what it executed on its connection. *)
Inductive tx_outcome (callback : nat -> st world result) (reply : list lval) (cs : list call) : Prop :=
| NotOpened e : reply = failed "connection_failed" e -> (forall d, executed d cs = []) -> tx_outcome callback reply cs
| NotBegun db rc msg : rc <> SQLITE_OK -> executed db cs = [("BEGIN", rc)] ->
    reply = failed "db_query_failed" msg -> tx_outcome callback reply cs
| Ended db w1 r w2 rc msg : callback db w1 = (r, w2) ->
    executed db cs = [("BEGIN", SQLITE_OK); (if commits r then "COMMIT" else "ROLLBACK", rc)] ->
    reply = (if rc =? SQLITE_OK then settled r else failed (map_sqlite_error rc) msg) ->
    tx_outcome callback reply cs.

Lemma executed_exec_other d db sql rc : d <> db -> executed d [CExec db sql rc] = [].
Proof. intros Hne. cbn. by destruct (Nat.eqb_spec db d). Qed.

Lemma executed_exec db sql rc : executed db [CExec db sql rc] = [(sql, rc)].
Proof. cbn. by rewrite Nat.eqb_refl. Qed.

Lemma executed_close d db : executed d [CClose db] = [].
Proof. done. Qed.

Lemma exec_eq db sql w : exists rc msg l, sqlite3_exec db sql w = ((rc, msg), log (CExec db sql rc) (set_lib l w)).
Proof. unfold sqlite3_exec. destruct (lib_exec db sql (state w)) as [[rc msg] l]. by exists rc, msg, l. Qed.

Lemma close_eq {B} db (k : unit -> st world B) w :
  sbind (sqlite3_close db) k w = k tt (log (CClose db) (set_lib (lib_close db (state w)) w)).
Proof. done. Qed.

Lemma transaction_spec inst callback w reply w' :
  (forall db, quiet (callback db)) -> transaction_with inst callback w = (reply, w') ->
  exists cs, calls w' = calls w ++ cs /\ (next w <= next w')%nat /\
    (forall d, (d < next w)%nat -> executed d cs = []) /\ tx_outcome callback reply cs.
Proof.
  intros Hq Ht. destruct (open_spec inst w) as (c1 & E1 & N1 & X1 & D1). unfold transaction_with in Ht.
  destruct (open_connection inst w) as [c w1] eqn:Eo. rewrite (sbind_eq _ _ _ _ _ Eo) in Ht. cbn [fst snd] in *.
  destruct c as [e|db].
  { injection Ht as <- <-. exists c1. split; [done|]. split; [done|]. split; [intros; apply X1|]. by eapply NotOpened. }
  specialize (D1 db eq_refl). destruct (exec_eq db "BEGIN" w1) as (rc0 & m0 & l0 & Eb).
  rewrite (sbind_eq _ _ _ _ _ Eb) in Ht. cbn [fst snd] in Ht. set (w2 := log (CExec db "BEGIN" rc0) (set_lib l0 w1)) in *.
  assert (E2 : calls w2 = calls w ++ c1 ++ [CExec db "BEGIN" rc0]) by (cbn; by rewrite E1, <-app_assoc).
  destruct (rc0 =? SQLITE_OK) eqn:E0; cbn [negb] in Ht.
  2: { rewrite close_eq in Ht. injection Ht as <- <-. exists (c1 ++ [CExec db "BEGIN" rc0] ++ [CClose db]).
    split; [cbn [log calls set_lib]; by rewrite E2, <-!app_assoc|]. split; [cbn; lia|]. split.
    - intros d Hd. rewrite !executed_app, X1, executed_close, executed_exec_other by lia. done.
    - eapply NotBegun; [bools; exact E0| |done]. by rewrite !executed_app, X1, executed_close, executed_exec. }
  destruct (Hq db w2) as (c2 & E3 & N3 & X3). destruct (callback db w2) as [r w3] eqn:Ecb.
  rewrite (sbind_eq _ _ _ _ _ Ecb) in Ht. cbn [fst snd] in *. cbv zeta in Ht.
  set (tx_sql := if commits r then "COMMIT" else "ROLLBACK") in *.
  destruct (exec_eq db tx_sql w3) as (rc & m & l & Ee). rewrite (sbind_eq _ _ _ _ _ Ee), close_eq in Ht.
  cbn [fst snd] in Ht. set (w4 := log (CExec db tx_sql rc) (set_lib l w3)) in *.
  set (cs := (c1 ++ [CExec db "BEGIN" rc0]) ++ c2 ++ [CExec db tx_sql rc; CClose db]).
  assert (Hw' : calls w' = calls w ++ cs /\ (next w <= next w')%nat).
  { assert (E4 : calls w4 ++ [CClose db] = calls w ++ cs) by (unfold cs; cbn; by rewrite E3, E2, <-!app_assoc).
    case_match; injection Ht as _ <-; (split; [exact E4|cbn in *; lia]). }
  exists cs. split; [apply Hw'|]. split; [apply Hw'|]. split.
  - intros d Hd. unfold cs. rewrite !executed_app, X1, X3, executed_exec_other by (cbn; lia).
    cbn. by destruct (Nat.eqb_spec db d); [lia|].
  - assert (rc0 = SQLITE_OK) as -> by (by bools).
    assert (X5 : executed db cs = [("BEGIN", SQLITE_OK); (tx_sql, rc)]).
    { unfold cs. rewrite !executed_app, X1, X3, executed_exec by (cbn; lia). cbn. by rewrite Nat.eqb_refl. }
    destruct (rc =? SQLITE_OK) eqn:Erc; injection Ht as <- _.
    + eapply (Ended _ _ _ db w2 r w3 rc ""); [done|done|]. by rewrite Erc.
    + eapply (Ended _ _ _ db w2 r w3 rc); [done|done|]. by rewrite Erc.
Qed.

Lemma quiet_proxy_statement inst m sql params : quiet (proxy_statement inst m sql params).
Proof.
  intros w. destruct (open_spec inst w) as (c1 & E1 & N1 & X1 & D1). unfold proxy_statement.
  destruct (open_connection inst w) as [c w1] eqn:Eo. rewrite (sbind_eq _ _ _ _ _ Eo). cbn [fst snd] in *.
  destruct c as [e|db]; [by exists c1|].
  assert (Hq : quiet (let* r := run_statement db sql params m in let* _ := sqlite3_close db in sret (answer r))).
  { apply quiet_bind; [apply quiet_statement|]. intros r. apply quiet_bind; [apply quiet_close|]. intros []. apply quiet_ret. }
  destruct (Hq w1) as (c2 & E2 & N2 & X2). exists (c1 ++ c2). rewrite E2, E1, <-app_assoc. split; [done|].
  split; [lia|]. intros d Hd. rewrite executed_app, X1, X2 by lia. done.
Qed.

Lemma quiet_run_script inst s : forall txs, quiet (run_script inst s txs).
Proof.
  induction s as [values| |level m sql params k IH|m sql params k IH|callback IHc k IH]; intros txs; cbn [run_script].
  - apply quiet_ret.
  - apply quiet_ret.
  - destruct (txs !! level) as [db|]; [|apply quiet_ret]. apply quiet_bind; [|intros r; apply IH].
    apply quiet_bind; [apply quiet_statement|]. intros r. apply quiet_ret.
  - apply quiet_bind; [apply quiet_proxy_statement|]. intros r. apply IH.
  - apply quiet_bind; [|intros r; apply IH]. intros w.
    destruct (transaction_with inst (fun db => run_script inst callback (db :: txs)) w) as [reply w'] eqn:E.
    destruct (transaction_spec _ _ _ _ _ (fun db => IHc (db :: txs)) E) as (cs & ? & ? & ? & _). by exists cs.
Qed.

(** *** Rows *)

(** More fuel makes no difference: the rows end before it does. *)
Lemma all_rows_enough `{!finite_rows} stmt k : forall w rows fuel, (rows_left stmt (state w) < fuel)%nat ->
  all_rows (fuel + k) stmt rows w = all_rows fuel stmt rows w.
Proof.
  intros w rows fuel. revert w rows. induction fuel as [|fuel IH]; intros w rows Hf; [lia|].
  cbn [all_rows Nat.add]. unfold sbind, sqlite3_step, row_to_lua, sget. destruct (lib_step stmt (state w)) as [rc l] eqn:E.
  destruct (rc =? SQLITE_ROW) eqn:Er; [|done]. bools. subst rc. apply IH. cbn. pose proof (rows_left_step _ _ _ E). lia.
Qed.

End Discipline.

(** ** Theorems *)

(** C31: every call of a proxy leaves open what was open before it, and uses the
    library in order: no statement is used after it was finalized or connection
    after it was closed, every statement that was prepared is finalized, and its
    connection is closed after that.  This holds for a transaction with any
    callback, also one that uses the proxy of the instance or starts further
    transactions.  On the connection of a transaction nothing but BEGIN and then
    one COMMIT or ROLLBACK is executed besides the statements of the callback:
    COMMIT when the callback returned and its first value is not false; the answer
    is true with the values of the callback only when COMMIT succeeded. *)
Theorem sqlite_transaction_sound `{Sqlite3, SolNumbers} inst t w :
  tracked t w ->
  (forall m sql params, tracked t (proxy_statement inst m sql params w).2) /\
  (forall callback reply w', transaction inst callback w = (reply, w') ->
     tracked t w' /\
     exists cs, calls w' = calls w ++ cs /\
       tx_outcome (fun db => run_script inst callback [db]) reply cs).
Proof.
  intros Hw. split; [intros; by apply stays_proxy_statement|]. intros callback reply w' Ht. split.
  - change w' with (reply, w').2. rewrite <-Ht. apply (stays_transaction_with t inst); [|done].
    intros db Hf. apply stays_run_script. intros d [->|Hd]%elem_of_cons; [left|by apply not_elem_of_nil in Hd].
  - destruct (transaction_spec _ _ _ _ _ (fun db => quiet_run_script inst callback [db]) Ht) as (cs & ? & _ & _ & ?).
    by exists cs.
Qed.

(** A library that opens and prepares everything and has no rows. *)
#[local] Instance no_rows : Sqlite3 := {
  lib := unit;
  lib_open := fun _ l => ((SQLITE_OK, true), l);
  lib_busy_timeout := fun _ _ l => l;
  lib_prepare := fun _ _ l => ((SQLITE_OK, true), l);
  lib_bind := fun _ _ _ l => (SQLITE_OK, l);
  lib_step := fun _ l => (SQLITE_DONE, l);
  lib_row := fun _ _ => [];
  lib_column_count := fun _ _ => O;
  lib_column_text := fun _ _ _ => None;
  lib_exec := fun _ _ l => ((SQLITE_OK, None), l);
  lib_finalize := fun _ l => l;
  lib_close := fun _ l => l;
  lib_changes := fun _ _ => 1;
  lib_last_insert_rowid := fun _ _ => 7;
  lib_errmsg := fun _ _ => "not an error";
  lib_readonly := fun _ _ => 0;
  rows_left := fun _ _ => O
}.
#[local] Instance floats_are_floats : SolNumbers := {| float_as_integer _ := None |}.

Definition new_world : world := mkWorld tt 0 [].

Definition insert_row : script := OnTx 0 Execute "INSERT INTO t VALUES (?)" (Some [(VInt 1, VInt 5)]) Returns.

Lemma sqlite_transaction_sound_witness :
  tracked (mkTracker [] []) (transaction sqlite_defaults insert_row new_world).2.
Proof.
  refine (proj1 (proj2 (sqlite_transaction_sound sqlite_defaults (mkTracker [] []) new_world _) insert_row _ _ _)).
  - split; [reflexivity|constructor|constructor].
  - apply surjective_pairing.
Defined.

Example insert_is_committed :
  (transaction sqlite_defaults insert_row new_world).1
  = [VBool true; VBool true; VTable [(text "affected", VInt 1); (text "last_insert_id", VInt 7)]] /\
  executed 0 (calls (transaction sqlite_defaults insert_row new_world).2) = [("BEGIN", 0); ("COMMIT", 0)].
Proof. split; vm_compute; reflexivity. Qed.

(** *** Where it falls short *)

(** With the default path every statement has a database of its own, which is gone
    when it ends. *)
Example statements_share_nothing :
  let w := (proxy_statement sqlite_defaults Execute "CREATE TABLE t (x)" None new_world).2 in
  omap (fun c => match c with COpen path db _ => Some (Some path, db) | CClose db => Some (None, Some db) | _ => None end)
    (calls (proxy_statement sqlite_defaults Query "SELECT x FROM t" None w).2)
  = [(Some ":memory:", Some O); (None, Some O); (Some ":memory:", Some 2%nat); (None, Some 2%nat)].
Proof. vm_compute. reflexivity. Qed.

(** A script that keeps the proxy of a transaction uses a connection that is closed. *)
Example kept_proxy_uses_closed :
  let w := (transaction sqlite_defaults insert_row new_world).2 in
  tracks (mkTracker [] []) (calls (handle_statement 0 Query "SELECT 1" None w).2) = None.
Proof. vm_compute. reflexivity. Qed.

(** A nil among the parameters moves the ones behind it forward. *)
Example nil_parameter_shifts : positional (Some [(VInt 2, text "b")]) = [text "b"].
Proof. reflexivity. Qed.

(** An error in the text is not called a syntax error, a value of the wrong type is. *)
Example syntax_error_is_not_named :
  map_sqlite_error 1 = "db_query_failed" /\ map_sqlite_error SQLITE_MISMATCH = "syntax_error".
Proof. split; reflexivity. Qed.

(** Text ends at a null character, and an empty blob is nil. *)
Example values_lost :
  column_value (SqlText [Byte.x61; Byte.x00; Byte.x62]) = VStr [Byte.x61] /\ column_value (SqlBlob []) = VNil.
Proof. split; reflexivity. Qed.
