(* ===== verification/Mysql.v ===== *)
(** * Mysql: statements and transactions of the MySQL plugin (plugins/mysql)

    What the plugin does with a session it has: the pool is [MysqlPool].  The
    connector is a parameter, the class [MysqlX]: a session executes a text with
    parameters and gives a result or throws; the pool gives a session, or the
    error text, and takes it back.  Both work on a state of their own.  The model
    writes down what was executed on which session. *)

From S2P Require Import Prelude Text LuaPack Json Config DbMapper SqlPlugin.

(** ** The connector *)

(** [mysqlx::Error], another [std::exception], or anything else. *)
Inductive mx_error := MxError (what : string) | MxStd (what : string) | MxUnknown.

(** A parameter; [MxNull] is the null pointer that is bound for a value that has
    no text. *)
Inductive mx_param := MxNull | MxInt (z : Z) | MxDouble (bits : Z) | MxText (s : list byte).

(** A value is what its conversions give; the others throw. *)
Record mx_value := mkValue {
  is_null : bool;
  as_int64 : option Z;
  as_uint64 : option Z;
  as_double : option Z;
  as_float : option Z;
  as_bool : option bool;
  as_string : mx_error + list byte
}.

(** The columns throw for a statement without rows; a name may throw too. *)
Record mx_result := mkMxResult {
  columns : mx_error + list (option string);
  rows : list (list mx_value);
  affected_items : Z;
  auto_increment : Z
}.

Class MysqlX := {
  mx : Type;
  mx_execute : nat -> string -> list mx_param -> mx -> (mx_error + mx_result) * mx;
  mx_acquire : list nat -> mx -> (string + nat) * mx;
  mx_release : nat -> bool -> mx -> mx
}.

(** A session that is used is not given out, as [MysqlPool.mysql_pool_sound] has it. *)
Class exclusive_sessions `{MysqlX} : Prop :=
  acquire_exclusive : forall used l s l', mx_acquire used l = (inr s, l') -> s ∉ used.

(** What sol2 makes of a float key, and of a value without text. *)
Class SolValues := {
  key_as_integer : Z -> Z;
  float_is_integer : Z -> option Z;
  other_as_text : lval -> option (list byte)
}.

(** ** Configuration *)

Record mysql_instance := mkMysql {
  host : string;
  port : Z;
  database : string;
  username : string;
  password : string;
  connect_timeout_ms : Z;
  query_timeout_ms : Z;
  pool_size : Z;
  acquire_timeout_ms : Z
}.

Definition mysql_defaults : mysql_instance := mkMysql "127.0.0.1" 33060 "" "" "" 5000 5000 4 10000.

Definition parse_instance_config `{JsonLib} (config_json : option string) : mysql_instance :=
  match config_json with
  | None | Some "" => mysql_defaults
  | Some s =>
      match json_parse (bytes_of s) with
      | inr j =>
          mkMysql (string_field "host" j (host mysql_defaults)) (int_field "port" j (port mysql_defaults))
            (string_field "database" j "") (string_field "user" j (string_field "username" j ""))
            (string_field "password" j "")
            (int_field "connect_timeout_ms" j (connect_timeout_ms mysql_defaults))
            (int_field "query_timeout_ms" j (query_timeout_ms mysql_defaults))
            (int_field "pool_size" j (pool_size mysql_defaults))
            (int_field "acquire_timeout_ms" j (acquire_timeout_ms mysql_defaults))
      | inl _ => mysql_defaults
      end
  end.

Definition mysql_create `{JsonLib} (id config_json : option string) (m : gmap string mysql_instance)
  : gmap string mysql_instance := register_instance (default "" id) (parse_instance_config config_json) m.
Definition mysql_shutdown (id : string) (m : gmap string mysql_instance) : gmap string mysql_instance :=
  unregister_instance id m.
Definition mysql_namespace (host : option (string -> option string)) (binding : option string)
    (m : gmap string mysql_instance) : list lval + mysql_instance := namespace_call host binding m.

(** The arguments of a session: host, port, user, password and schema. *)
Record session_args := mkSessionArgs { sa_host : string; sa_port : Z; sa_user : string; sa_password : string; sa_schema : string }.

Definition open_session_args (i : mysql_instance) : session_args :=
  mkSessionArgs (host i) (if 0 <? port i then port i else 33060)
    (if str_empty (username i) then "root" else username i) (password i) (database i).

(** [connect] of the interface for other plugins. *)
Definition vt_connect_args (host user password database : option string) (port : Z) : session_args :=
  mkSessionArgs (default "localhost" host) (if port =? 0 then 3306 else port) (default "root" user)
    (default "" password) (default "shield" database).

(** How long a thread waits for a session. *)
Definition acquire_wait_ms (i : mysql_instance) : Z := if 0 <? acquire_timeout_ms i then acquire_timeout_ms i else 10000.

(** ** Errors *)

Definition map_mysqlx_error (m : string) : string :=
  if has_text "Lost connection" m || has_text "server has gone away" m then "connection_lost"
  else if has_text "timeout" m || has_text "timed out" m then "connection_timeout"
  else if has_text "syntax" m || has_text "SQL syntax" m then "syntax_error"
  else if has_text "Duplicate" m || has_text "foreign key" m || has_text "constraint" m then "constraint_violation"
  else if has_text "Deadlock" m then "transaction_aborted"
  else "db_query_failed".

(** The session is not used again after these. *)
Definition connection_code (code : string) : bool := str_in code ["connection_lost"; "connection_timeout"].

(** The code, the message, and [*broken]. *)
Definition statement_error (e : mx_error) : (string * string) * bool :=
  match e with
  | MxError what => ((map_mysqlx_error what, what), connection_code (map_mysqlx_error what))
  | MxStd what => (("db_query_failed", what), false)
  | MxUnknown => (("db_query_failed", "unknown mysql error"), false)
  end.

(** ** Values *)

Definition i64_limit : Z := 2 ^ 63 - 1.

Definition value_to_lua (v : mx_value) : lval :=
  if is_null v then VNil
  else match as_int64 v, as_uint64 v, as_double v, as_float v, as_bool v, as_string v with
       | Some z, _, _, _, _, _ => VInt z
       | None, Some u, _, _, _, _ => if u <=? i64_limit then VInt u else VNum (bits_of_double (Schema.double_of_Z u))
       | None, None, Some d, _, _, _ => VNum d
       | None, None, None, Some f, _, _ => VNum f
       | None, None, None, None, Some b, _ => VBool b
       | None, None, None, None, None, inr s => VStr s
       | None, None, None, None, None, inl _ => VNil
       end.

Fixpoint row_fields (c : nat) (cols : list (option string)) (row : list mx_value) (t : list (lval * lval)) : list (lval * lval) :=
  match row with
  | [] => t
  | v :: row =>
      let name := default (to_string_i64 (Z.of_nat c + 1)) (default None (cols !! c)) in
      row_fields (S c) cols row (set_field name (value_to_lua v) t)
  end.

Definition row_to_lua (cols : list (option string)) (row : list mx_value) : lval := VTable (row_fields 0 cols row []).

Section Mysql.
Context `{MysqlX, SolValues}.

Definition bind_lua_param (v : lval) : mx_param :=
  match v with
  | VNil => MxNull
  | VBool b => MxInt (Z.b2z b)
  | VInt z => MxInt z
  | VNum bits => match float_is_integer bits with Some z => MxInt z | None => MxDouble bits end
  | VStr s => MxText s
  | _ => match other_as_text v with Some s => MxText s | None => MxNull end
  end.

(** [std::map<lua_Integer, sol::object>]: kept in order of the keys. *)
Fixpoint bucket_put (k : Z) (v : lval) (l : list (Z * lval)) : list (Z * lval) :=
  match l with
  | [] => [(k, v)]
  | (k', v') :: l' =>
      if k <? k' then (k, v) :: l
      else if k =? k' then (k, v) :: l'
      else (k', v') :: bucket_put k v l'
  end.

Definition key_index (k : lval) : option Z :=
  match k with VInt z => Some z | VNum bits => Some (key_as_integer bits) | _ => None end.

Definition bucket_entry (b : list (Z * lval)) (e : lval * lval) : list (Z * lval) :=
  match key_index e.1 with
  | Some i => if 1 <=? i then bucket_put i e.2 b else b
  | None => b
  end.

Definition collect_positional (params : option (list (lval * lval))) : list lval :=
  (foldl bucket_entry [] (default [] params)).*2.

(** ** Statements *)

Record world := mkWorld { state : mx; used : list nat; log : list event }.

Definition is_ok {E A} (r : E + A) : bool := match r with inr _ => true | inl _ => false end.

Definition statement (s : nat) (sql : string) (params : list mx_param) : st world (mx_error + mx_result) := fun w =>
  let '(r, l) := mx_execute s sql params (state w) in
  (r, mkWorld l (used w) (log w ++ [Statement s sql])).

Definition command (s : nat) (sql : string) : st world (mx_error + mx_result) := fun w =>
  let '(r, l) := mx_execute s sql [] (state w) in
  (r, mkWorld l (used w) (log w ++ [Command s sql (is_ok r)])).

Definition shape (m : mode) (r : mx_result) : mx_error + lval :=
  match m with
  | Execute => inr (VTable [(text "affected", VInt (affected_items r)); (text "last_insert_id", VInt (auto_increment r))])
  | QueryOne =>
      let? cols := columns r in
      inr (match rows r with [] => VNil | row :: _ => row_to_lua cols row end)
  | Query => let? cols := columns r in inr (sequence (map (row_to_lua cols) (rows r)))
  end.

Definition run_statement (s : nat) (sql : string) (params : option (list (lval * lval))) (m : mode)
  : st world (((string * string) + lval) * bool) :=
  let* r := statement s sql (map bind_lua_param (collect_positional params)) in
  sret (match ebind r (shape m) with
        | inr v => (inr v, false)
        | inl e => (inl (statement_error e).1, (statement_error e).2)
        end).

(** ** Sessions of the pool *)

Definition acquire_session : st world (string + nat) := fun w =>
  let '(r, l) := mx_acquire (used w) (state w) in
  (r, match r with
      | inr s => mkWorld l (s :: used w) (log w ++ [Acquired s])
      | inl _ => mkWorld l (used w) (log w)
      end).

(** [~pool_guard] *)
Definition release_session (s : nat) (broken : bool) : st world unit := fun w =>
  (tt, mkWorld (mx_release s broken (state w)) (without s (used w)) (log w ++ [Released s broken])).

Definition acquire_failed (e : string) : list lval :=
  failed "connection_failed" (if str_empty e then "pool acquire failed" else e).

(** [query], [query_one] and [execute] of the instance's proxy. *)
Definition proxy_statement (m : mode) (sql : string) (params : option (list (lval * lval))) : st world (list lval) :=
  let* g := acquire_session in
  match g with
  | inl e => sret (acquire_failed e)
  | inr s =>
      let* r := run_statement s sql params m in
      let* _ := release_session s r.2 in
      sret (answer r.1)
  end.

(** And of the proxy of a transaction, which ignores [broken]. *)
Definition handle_statement (s : nat) (m : mode) (sql : string) (params : option (list (lval * lval))) : st world (list lval) :=
  let* r := run_statement s sql params m in sret (answer r.1).

(** START TRANSACTION, COMMIT and ROLLBACK: what is thrown is caught unless it is
    no [std::exception]; that leaves [transaction] by the destructor of the guard. *)
Definition command_error (prefix : string) (e : mx_error) : option (list lval) :=
  match e with
  | MxError what => Some (failed (map_mysqlx_error what) (prefix +:+ what))
  | MxStd what => Some (failed "db_query_failed" (prefix +:+ what))
  | MxUnknown => None
  end.

Definition caught (e : mx_error) : bool := match e with MxUnknown => false | _ => true end.

(** [transaction]; [None] when an exception leaves it. *)
Definition transaction_with (callback : nat -> st world result) : st world (option (list lval)) :=
  let* g := acquire_session in
  match g with
  | inl e => sret (Some (acquire_failed e))
  | inr s =>
      let* b := command s "START TRANSACTION" in
      match b with
      | inl e => let* _ := release_session s (caught e) in sret (command_error "" e)
      | inr _ =>
          let* cb_res := callback s in
          let tx_sql := if commits cb_res then "COMMIT" else "ROLLBACK" in
          let* t := command s tx_sql in
          match t with
          | inl e =>
              let* _ := release_session s (caught e) in
              sret (command_error (tx_sql +:+ ": ") e)
          | inr _ => let* _ := release_session s false in sret (Some (settled cb_res))
          end
      end
  end.

(** ** The interface for other plugins *)

(** The message and the code of [fill_exception]. *)
Definition fill_exception (e : mx_error) (out : shield_db_result) : shield_db_result :=
  match e with
  | MxError what => error_result (c_string what) (map_mysqlx_error (c_string what)) out
  | MxStd what => error_result (c_string what) "db_query_failed" out
  | MxUnknown => error_result "unknown plugin error" "db_query_failed" out
  end.

(** The texts of the cells; a value that is no text throws. *)
Definition cell_text (v : mx_value) : mx_error + option (list byte) :=
  if is_null v then inr None
  else let? s := as_string v in inr (Some (c_text s)).

Fixpoint cell_texts (l : list mx_value) : mx_error + list (option (list byte)) :=
  match l with
  | [] => inr []
  | v :: l => let? t := cell_text v in let? r := cell_texts l in inr (t :: r)
  end.

Definition text_param (p : option string) : mx_param :=
  match p with Some s => MxText (c_text (bytes_of s)) | None => MxNull end.

Definition run_stmt (s : nat) (sql : string) (params : list (option string)) (collect_rows : bool) (out : shield_db_result)
  : st world shield_db_result :=
  let* r := statement s sql (map text_param params) in
  sret (match r with
        | inl e => fill_exception e out
        | inr r =>
            if collect_rows then
              match cell_texts (concat (rows r)) with
              | inl e => fill_exception e out
              | inr texts =>
                  mkDbResult 1 (error_msg out) (error_code out) 0 0 (vsize (rows r))
                    (from_option vsize 0 (list.last (rows r))) texts
              end
            else mkDbResult 1 (error_msg out) (error_code out) (affected_items r) (auto_increment r) 0 0 []
        end).

Definition vt_query (collect_rows : bool) (c : option nat) (sql : option string) (params : list (option string))
    (out : shield_db_result) : st world (Z * shield_db_result) :=
  match c, sql with
  | Some s, Some sql => let* r := run_stmt s sql params collect_rows out in sret (0, r)
  | _, _ => sret (1, error_result "mysql: invalid arguments" "db_query_failed" out)
  end.

(** [begin], [commit] and [rollback] *)
Definition vt_simple (sql : string) (c : option nat) (out : shield_db_result) : st world (Z * shield_db_result) :=
  match c with Some s => let* r := run_stmt s sql [] false out in sret (0, r) | None => sret (1, out) end.

Definition vt_ping (c : option nat) : st world Z :=
  match c with Some s => let* r := statement s "SELECT 1" [] in sret (if is_ok r then 1 else 0) | None => sret 0 end.

(** ** Functions of scripts *)

(** A function of a script inside the transactions on the sessions [txs]; an
    exception that leaves a nested [transaction] is an error of the script. *)
Fixpoint run_script (f : script) (txs : list nat) : st world result :=
  match f with
  | Returns values => sret (Some values)
  | Raises => sret None
  | OnTx level m sql params k =>
      match txs !! level with
      | Some s => let* r := handle_statement s m sql params in run_script (k r) txs
      | None => sret None
      end
  | OnProxy m sql params k => let* r := proxy_statement m sql params in run_script (k r) txs
  | Transaction callback k =>
      let* r := transaction_with (fun s => run_script callback (s :: txs)) in
      match r with
      | Some r => run_script (k r) txs
      | None => sret None
      end
  end.

Definition transaction (callback : script) : st world (option (list lval)) :=
  transaction_with (fun s => run_script callback [s]).

End Mysql.

(** ** What happens to a session *)

Section Sessions.
Context `{MysqlX, SolValues}.

#[local] Abbreviation foreign := (foreign used log).

Lemma foreign_statement s sql params : foreign (statement s sql params).
Proof.
  intros w. unfold statement. destruct (mx_execute s sql params (state w)) as [r l]. cbn. by eexists.
Qed.

Lemma foreign_run_statement s sql params m : foreign (run_statement s sql params m).
Proof. apply foreign_bind; [apply foreign_statement|]. intros r. apply foreign_ret. Qed.

Lemma foreign_handle s m sql params : foreign (handle_statement s m sql params).
Proof. apply foreign_bind; [apply foreign_run_statement|]. intros r. apply foreign_ret. Qed.

Lemma release_eq {B} s broken (k : unit -> st world B) w :
  sbind (release_session s broken) k w
  = k tt (mkWorld (mx_release s broken (state w)) (without s (used w)) (log w ++ [Released s broken])).
Proof. done. Qed.

Lemma command_eq s sql w : exists r l, command s sql w = (r, mkWorld l (used w) (log w ++ [Command s sql (is_ok r)])).
Proof. unfold command. destruct (mx_execute s sql [] (state w)) as [r l]. by exists r, l. Qed.

Lemma acquire_eq `{!exclusive_sessions} w :
  (exists e l, acquire_session w = (inl e, mkWorld l (used w) (log w))) \/
  (exists s l, acquire_session w = (inr s, mkWorld l (s :: used w) (log w ++ [Acquired s])) /\ s ∉ used w).
Proof.
  unfold acquire_session. destruct (mx_acquire (used w) (state w)) as [[e|s] l] eqn:E; [left; by exists e, l|].
  right. exists s, l. split; [done|]. by eapply acquire_exclusive.
Qed.

Definition tx_sql (r : result) : string := if commits r then "COMMIT" else "ROLLBACK".

(** What a transaction answers, and what happened to its session. *)
Inductive tx_outcome (callback : nat -> st world result) (reply : option (list lval)) (es : list event) : Prop :=
| NotAcquired e : reply = Some (acquire_failed e) -> es = [] -> tx_outcome callback reply es
| NotStarted s e : reply = command_error "" e ->
    history s es = [Acquired s; Command s "START TRANSACTION" false; Released s (caught e)] ->
    tx_outcome callback reply es
| Ended s w1 r w2 : callback s w1 = (r, w2) -> reply = Some (settled r) ->
    history s es = [Acquired s; Command s "START TRANSACTION" true; Command s (tx_sql r) true; Released s false] ->
    tx_outcome callback reply es
| NotEnded s w1 r w2 e : callback s w1 = (r, w2) -> reply = command_error (tx_sql r +:+ ": ") e ->
    history s es = [Acquired s; Command s "START TRANSACTION" true; Command s (tx_sql r) false; Released s (caught e)] ->
    tx_outcome callback reply es.

Lemma transaction_outcome `{!exclusive_sessions} callback w reply w' :
  (forall s, foreign (callback s)) -> transaction_with callback w = (reply, w') ->
  exists es, log w' = log w ++ es /\ used w' = used w /\ (forall s, s ∈ used w -> history s es = []) /\
    tx_outcome callback reply es.
Proof.
  intros Hq Ht. unfold transaction_with in Ht. destruct (acquire_eq w) as [(e & l & Ea)|(s & l & Ea & Hs)].
  { rewrite (sbind_eq _ _ _ _ _ Ea) in Ht. injection Ht as <- <-. exists []. cbn. rewrite app_nil_r. split_and!; try done.
    by eapply NotAcquired. }
  rewrite (sbind_eq _ _ _ _ _ Ea) in Ht. set (w1 := mkWorld l _ _) in *.
  destruct (command_eq s "START TRANSACTION" w1) as (b & l1 & Eb). rewrite (sbind_eq _ _ _ _ _ Eb) in Ht.
  assert (Hd : forall d, d ∈ used w -> d <> s) by (by intros d Hd ->).
  destruct b as [e|res]; cbn [is_ok] in *.
  { rewrite release_eq in Ht. apply pair_eq in Ht as [<- <-]. exists ([Acquired s] ++ [Command s "START TRANSACTION" false; Released s (caught e)]).
    unfold w1. cbn [used log]. rewrite without_head by done. split; [by rewrite <-!app_assoc|]. split; [done|]. split.
    - intros d Hin. apply history_none. repeat constructor; cbn; apply Nat.eqb_neq; by apply not_eq_sym, Hd.
    - eapply (NotStarted _ _ _ s e); [done|]. apply history_self. repeat constructor; cbn; apply Nat.eqb_refl. }
  set (w2 := mkWorld l1 _ _) in *. destruct (Hq s w2) as (ecb & L & U & X).
  destruct (callback s w2) as [r w3] eqn:Ecb. rewrite (sbind_eq _ _ _ _ _ Ecb) in Ht. cbn [fst snd] in *. cbv zeta in Ht.
  fold (tx_sql r) in Ht. destruct (command_eq s (tx_sql r) w3) as (t & l3 & Et). rewrite (sbind_eq _ _ _ _ _ Et) in Ht.
  assert (Hx : forall d, d ∈ s :: used w -> history d ecb = []) by (intros d Hin; by apply X).
  set (broken := match t with inl e => caught e | inr _ => false end).
  set (es := [Acquired s] ++ [Command s "START TRANSACTION" true] ++ ecb ++ [Command s (tx_sql r) (is_ok t); Released s broken]).
  assert (Hw' : log w' = log w ++ es /\ used w' = used w).
  { destruct t as [e|res']; rewrite release_eq in Ht; apply pair_eq in Ht as [_ <-]; cbn [used log]; rewrite U;
      (split; [unfold es; rewrite L; unfold w2, w1; cbn [log]; by rewrite <-!app_assoc|by apply without_head]). }
  exists es. split; [apply Hw'|]. split; [apply Hw'|]. split.
  - intros d Hin. unfold es. rewrite !history_app, (Hx d) by (by right).
    rewrite !history_none; [done|..]; repeat constructor; cbn; apply Nat.eqb_neq; by apply not_eq_sym, Hd.
  - assert (Hes : history s es = [Acquired s; Command s "START TRANSACTION" true; Command s (tx_sql r) (is_ok t); Released s broken]).
    { unfold es. rewrite !history_app, (Hx s) by (by left).
      rewrite !history_self; [done|..]; repeat constructor; cbn; apply Nat.eqb_refl. }
    destruct t as [e|res']; rewrite release_eq in Ht; apply pair_eq in Ht as [<- _].
    + by eapply (NotEnded _ _ _ s w2 r w3 e).
    + by eapply (Ended _ _ _ s w2 r w3).
Qed.

Lemma run_statement_eq s sql params m w :
  exists out l, run_statement s sql params m w = (out, mkWorld l (used w) (log w ++ [Statement s sql])) /\
    (out.2 = true -> exists code msg, connection_code code = true /\ answer out.1 = failed code msg).
Proof.
  unfold run_statement, statement, sbind. destruct (mx_execute s sql _ (state w)) as [r l].
  eexists _, l. split; [reflexivity|].
  destruct (ebind r (shape m)) as [[what|what|]|v]; cbn; try done. intros Hb. by exists (map_mysqlx_error what), what.
Qed.

(** A statement of its own: the session is given back, and dropped when the error
    is one of the connection. *)
Lemma proxy_outcome `{!exclusive_sessions} m sql params w :
  exists es, log (proxy_statement m sql params w).2 = log w ++ es /\ used (proxy_statement m sql params w).2 = used w /\
    (forall s, s ∈ used w -> history s es = []) /\
    ((exists e, (proxy_statement m sql params w).1 = acquire_failed e /\ es = []) \/
     (exists s broken, history s es = [Acquired s; Released s broken] /\
        (broken = true -> exists code msg, connection_code code = true /\ (proxy_statement m sql params w).1 = failed code msg))).
Proof.
  unfold proxy_statement. destruct (acquire_eq w) as [(e & l & Ea)|(s & l & Ea & Hs)].
  { rewrite (sbind_eq _ _ _ _ _ Ea). exists []. cbn. rewrite app_nil_r. split_and!; try done. left. by exists e. }
  rewrite (sbind_eq _ _ _ _ _ Ea). set (w1 := mkWorld l _ _).
  destruct (run_statement_eq s sql params m w1) as (out & l1 & Er & Hout). rewrite (sbind_eq _ _ _ _ _ Er), release_eq.
  exists ([Acquired s] ++ [Statement s sql; Released s out.2]). unfold w1, sret. cbn [used log fst snd].
  rewrite without_head by done. split; [by rewrite <-!app_assoc|]. split; [done|]. split.
  - intros d Hin. rewrite history_app. cbn. destruct (Nat.eqb_spec s d); [congruence|done].
  - right. exists s, out.2. split; [cbn; by rewrite Nat.eqb_refl|]. done.
Qed.

Lemma foreign_script `{!exclusive_sessions} f : forall txs, foreign (run_script f txs).
Proof.
  induction f as [values| |level m sql params k IH|m sql params k IH|callback IHc k IH]; intros txs; cbn [run_script].
  - apply foreign_ret.
  - apply foreign_ret.
  - destruct (txs !! level) as [s|]; [|apply foreign_ret]. apply foreign_bind; [apply foreign_handle|]. intros r. apply IH.
  - apply foreign_bind; [|intros r; apply IH]. intros w.
    destruct (proxy_outcome m sql params w) as (es & ? & ? & ? & _). by exists es.
  - apply foreign_bind; [|intros [r|]; [apply IH|apply foreign_ret]]. intros w.
    destruct (transaction_with (fun s => run_script callback (s :: txs)) w) as [reply w'] eqn:E.
    destruct (transaction_outcome _ _ _ _ (fun s => IHc (s :: txs)) E) as (es & ? & ? & ? & _). by exists es.
Qed.

End Sessions.

(** ** Parameters *)

Lemma bucket_put_comm k v k' v' l : k <> k' -> bucket_put k v (bucket_put k' v' l) = bucket_put k' v' (bucket_put k v l).
Proof.
  intros Hne. induction l as [|[j u] l IH]; cbn [bucket_put];
    repeat (case_match; bools; subst; cbn [bucket_put]; try lia; try done); congruence.
Qed.

Section Parameters.
Context `{SolValues}.

Lemma bucket_entry_comm b e e' : key_index e.1 <> key_index e'.1 ->
  bucket_entry (bucket_entry b e) e' = bucket_entry (bucket_entry b e') e.
Proof.
  intros Hne. unfold bucket_entry. destruct (key_index e.1) as [i|], (key_index e'.1) as [j|]; try done.
  destruct (1 <=? i), (1 <=? j); try done. apply bucket_put_comm. congruence.
Qed.

(** The parameters do not depend on the order in which the table is walked. *)
Lemma positional_any_order l l' :
  l ≡ₚ l' -> NoDup (omap key_index l.*1) -> collect_positional (Some l) = collect_positional (Some l').
Proof.
  intros Hp Hn. unfold collect_positional. f_equal.
  change (default [] (Some l)) with l. change (default [] (Some l')) with l'. generalize (@nil (Z * lval)) as b.
  revert Hn. induction Hp as [|e l l' Hp IH|e e' l|l1 l2 l3 H1 IH1 H2 IH2]; intros Hn b; cbn [foldl].
  - done.
  - apply IH. cbn in Hn. destruct (key_index e.1); [by apply list.NoDup_cons in Hn as [_ Hn]|done].
  - f_equal. destruct (decide (key_index e'.1 = key_index e.1)) as [E|]; [|by apply bucket_entry_comm].
    unfold bucket_entry. cbn in Hn. destruct (key_index e.1) as [i|], (key_index e'.1) as [j|]; simplify_eq; [|done].
    apply list.NoDup_cons in Hn as [Hij _]. by apply not_elem_of_cons in Hij as [Hij _].
  - rewrite IH1 by done. apply IH2. by rewrite <-H1.
Qed.
End Parameters.

(** ** Theorems *)

(** Every session that the MySQL plugin takes from the pool is given back
    once, whatever the server answers and whatever the callback does.  A single
    statement drops its session only after an error of the connection.  On the
    session of a transaction the plugin executes START TRANSACTION and then one
    COMMIT or ROLLBACK around the statements of the callback, COMMIT only when the
    callback returned and its first value is not false; the session goes back to
    the pool for reuse only after that command succeeded, and the answer is true
    only after COMMIT succeeded. *)
Theorem mysql_sessions_returned `{MysqlX, SolValues} w :
  exclusive_sessions ->
  (forall m sql params, let '(reply, w') := proxy_statement m sql params w in
     exists es, log w' = log w ++ es /\ used w' = used w /\
       ((exists e, reply = acquire_failed e /\ es = []) \/
        (exists s broken, history s es = [Acquired s; Released s broken] /\
           (broken = true -> exists code msg, connection_code code = true /\ reply = failed code msg)))) /\
  (forall callback, let '(reply, w') := transaction callback w in
     exists es, log w' = log w ++ es /\ used w' = used w /\
       tx_outcome (fun s => run_script callback [s]) reply es).
Proof.
  intros Hx. split.
  - intros m sql params. destruct (proxy_outcome m sql params w) as (es & ? & ? & _ & ?).
    destruct (proxy_statement m sql params w). by exists es.
  - intros callback. destruct (transaction callback w) as [reply w'] eqn:E.
    destruct (transaction_outcome _ _ _ _ (fun s => foreign_script callback [s]) E) as (es & ? & ? & _ & ?). by exists es.
Qed.

(** A server that has no tables: it knows the commands and fails other texts. *)
Definition is_command (sql : string) : bool := str_in sql ["START TRANSACTION"; "COMMIT"; "ROLLBACK"].

#[local] Instance no_tables : MysqlX := {
  mx := nat;
  mx_execute := fun _ sql _ l =>
    (if is_command sql then inr (mkMxResult (inl MxUnknown) [] 0 0) else inl (MxError "Lost connection to server"), l);
  mx_acquire := fun used l => (inr (fresh (list_to_set used : gset nat)), S l);
  mx_release := fun _ _ l => l
}.
#[local] Instance plain_values : SolValues := {| key_as_integer := id; float_is_integer _ := None; other_as_text _ := None |}.

Lemma fresh_exclusive : exclusive_sessions.
Proof.
  intros used l s l' [= <- _]. intros Hin. apply (is_fresh (list_to_set used : gset nat)). by apply elem_of_list_to_set.
Qed.

Definition idle_world : world := @mkWorld no_tables 0%nat [] [].

Definition try_insert : script := OnTx 0 Execute "INSERT INTO t VALUES (1)" None Returns.

Lemma mysql_sessions_returned_witness :
  used (transaction try_insert idle_world).2 = [].
Proof.
  destruct (transaction try_insert idle_world) as [reply w'] eqn:E.
  pose proof (proj2 (mysql_sessions_returned idle_world fresh_exclusive) try_insert) as Ht.
  rewrite E in Ht. destruct Ht as (es & _ & Hu & _). exact Hu.
Defined.

(** The error of the statement is the first value, so the transaction is undone. *)
Example failed_insert_rolls_back :
  log (transaction try_insert idle_world).2
  = [Acquired 0; Command 0 "START TRANSACTION" true; Statement 0 "INSERT INTO t VALUES (1)";
     Command 0 "ROLLBACK" true; Released 0 false].
Proof. vm_compute. reflexivity. Qed.

(** *** Where it falls short *)

(** A script that keeps the proxy of a transaction shares a session with whoever
    gets it next. *)
Example kept_proxy_shares_session :
  let w := (transaction (Returns []) idle_world).2 in
  log (handle_statement 0 Query "SELECT 1" None w).2
  = [Acquired 0; Command 0 "START TRANSACTION" true; Command 0 "COMMIT" true; Released 0 false; Statement 0 "SELECT 1"].
Proof. vm_compute. reflexivity. Qed.

(** Other plugins that give no port are connected to the port of the classic
    protocol, which the connector does not speak. *)
Example default_ports_differ :
  sa_port (vt_connect_args None None None None 0) = 3306 /\ sa_port (open_session_args mysql_defaults) = 33060.
Proof. split; reflexivity. Qed.

(** The message decides what the error is called, also where it quotes data. *)
Example duplicate_timeout_key :
  map_mysqlx_error "Duplicate entry 'timeout' for key 'PRIMARY'" = "connection_timeout".
Proof. reflexivity. Qed.
