(* ===== verification/Pgsql.v ===== *)
(** * Pgsql: statements and transactions of the PostgreSQL plugin (plugins/postgresql)

    What the plugin does with a connection it has: the pool is [PgsqlPool].  libpq
    is a parameter, the class [Libpq]: a connection executes a text and gives a
    result, or none, and has a status; the pool gives a connection, or the error
    text, and takes it back.  The model writes down what was executed on which
    connection. *)

From Stdlib Require Import Floats.SpecFloat.
From S2P Require Import Prelude Text LuaPack Json Config Numbers SqlPlugin.

(** ** libpq *)

Inductive exec_status := CommandOk | TuplesOk | OtherStatus.

(** A result: [cmd_status] is the tag of the command that the server completed. *)
Record pq_result := mkPq {
  status : exec_status;
  cmd_status : string;
  cmd_tuples : string;
  fields : list (option string * Z);
  tuples : list (list (option (list byte)));
  sqlstate : option string;
  error_message : option string
}.

Class Libpq := {
  pq : Type;
  pq_exec : nat -> string -> pq -> option pq_result * pq;
  pq_exec_params : nat -> string -> list (option (list byte)) -> pq -> option pq_result * pq;
  pq_bad : nat -> pq -> bool;
  pq_acquire : list nat -> pq -> (string + nat) * pq;
  pq_release : nat -> bool -> pq -> pq
}.

(** A connection that is used is not given out, as [PgsqlPool.pgsql_pool_sound] has it. *)
Class exclusive_conns `{Libpq} : Prop :=
  pq_acquire_exclusive : forall used l s l', pq_acquire used l = (inr s, l') -> s ∉ used.

(** ** Configuration *)

Record pgsql_instance := mkPgsql {
  host : string;
  port : Z;
  database : string;
  username : string;
  password : string;
  connect_timeout_ms : Z;
  query_timeout_ms : Z;
  pool_size : Z
}.

Definition pgsql_defaults : pgsql_instance := mkPgsql "127.0.0.1" 5432 "" "" "" 5000 5000 4.

Definition parse_instance_config `{JsonLib} (config_json : option string) : pgsql_instance :=
  match config_json with
  | None | Some "" => pgsql_defaults
  | Some s =>
      match json_parse (bytes_of s) with
      | inr j =>
          mkPgsql (string_field "host" j (host pgsql_defaults)) (int_field "port" j (port pgsql_defaults))
            (string_field "database" j "") (string_field "username" j "") (string_field "password" j "")
            (int_field "connect_timeout_ms" j (connect_timeout_ms pgsql_defaults))
            (int_field "query_timeout_ms" j (query_timeout_ms pgsql_defaults))
            (int_field "pool_size" j (pool_size pgsql_defaults))
      | inl _ => pgsql_defaults
      end
  end.

(** A pool without a place gets four. *)
Definition pg_create `{JsonLib} (id config_json : option string) (m : gmap string pgsql_instance) : gmap string pgsql_instance :=
  let i := parse_instance_config config_json in
  let i := mkPgsql (host i) (port i) (database i) (username i) (password i) (connect_timeout_ms i) (query_timeout_ms i)
             (if pool_size i <? 1 then 4 else pool_size i) in
  register_instance (default "" id) i m.
Definition pg_shutdown (id : string) (m : gmap string pgsql_instance) : gmap string pgsql_instance :=
  unregister_instance id m.
Definition pg_namespace (host : option (string -> option string)) (binding : option string)
    (m : gmap string pgsql_instance) : list lval + pgsql_instance := namespace_call host binding m.

Definition append_key (s key val : string) : string :=
  if str_empty val then s else (if str_empty s then "" else s +:+ " ") +:+ key +:+ "=" +:+ val.

(** [%.3f] of the timeout in seconds. *)
Definition seconds (ms : Z) : string :=
  let frac := to_string_u64 (ms `mod` 1000) in
  to_string_i64 (ms / 1000) +:+ "." +:+ zeros (3 - String.length frac) +:+ frac.

Definition build_conninfo (i : pgsql_instance) : string :=
  let s := append_key "" "host" (host i) in
  let s := if 0 <? port i then append_key s "port" (to_string_i64 (port i)) else s in
  let s := append_key s "dbname" (database i) in
  let s := append_key s "user" (username i) in
  let s := append_key s "password" (password i) in
  if 0 <? connect_timeout_ms i then append_key s "connect_timeout" (seconds (connect_timeout_ms i)) else s.

(** [connect] of the interface for other plugins: there a port is set off even
    when nothing stands before it. *)
Definition vt_conninfo (host user password database : option string) (port timeout_ms : Z) : string :=
  let s := append_key "" "host" (default "" host) in
  let s := if 0 <? port then s +:+ " port=" +:+ to_string_i64 port else s in
  let s := append_key s "user" (default "" user) in
  let s := append_key s "password" (default "" password) in
  let s := append_key s "dbname" (default "" database) in
  if 0 <? timeout_ms then append_key s "connect_timeout" (seconds timeout_ms) else s.

(** ** Errors *)

(** The class of a state: its first two characters. *)
Definition of_class (s : string) (a b : Ascii.ascii) : bool :=
  match s with String x (String y _) => Ascii.eqb x a && Ascii.eqb y b | _ => false end.

Definition map_sqlstate (sqlstate : option string) : string :=
  match sqlstate with
  | None | Some "" => "db_query_failed"
  | Some s =>
      if of_class s "0" "8" then "connection_lost"
      else if of_class s "5" "3" then "pool_exhausted"
      else if of_class s "4" "0" then "transaction_aborted"
      else if of_class s "2" "3" then "constraint_violation"
      else if of_class s "4" "2" then "syntax_error"
      else if of_class s "2" "8" then "auth_failed"
      else if of_class s "5" "7" then "connection_lost"
      else "db_query_failed"
  end.

(** [msg && msg[0] ? msg : ...] *)
Definition text_or (m : option string) (dflt : string) : string :=
  match m with Some m => if str_empty m then dflt else m | None => dflt end.

Definition error_from_result (r : pq_result) : string * string :=
  (map_sqlstate (sqlstate r), text_or (error_message r) "postgresql: query failed").

(** ** Texts *)

(** [rewrite_placeholders]: a question mark becomes the number of the parameter,
    wherever it stands. *)
Fixpoint rewrite_from (index : Z) (sql : string) : string :=
  match sql with
  | EmptyString => ""
  | String c rest =>
      if Ascii.eqb c "?" then String "$" (to_string_i64 (index + 1) +:+ rewrite_from (index + 1) rest)
      else String c (rewrite_from index rest)
  end.
Definition rewrite_placeholders (sql : string) : string := rewrite_from 0 (c_string sql).

(** [strtoll(s, nullptr, 10)]: the number that the text starts with, or zero. *)
Definition strtoll (s : string) : Z :=
  let s1 := skip isspace s in
  let '(neg, s2) := match s1 with
                    | String "-"%char r => (true, r)
                    | String "+"%char r => (false, r)
                    | _ => (false, s1)
                    end in
  let v := (scan_digits 10 s2 0 0).1 in
  let z := if (neg : bool) then - v else v in
  Z.max (- 2 ^ 63) (Z.min (2 ^ 63 - 1) z).

(** The bits of what [std::stod] gives. *)
Definition stod_bits (s : string) : option Z := (fun r => bits_of_double r.1) <$> stod s.

(** ** Values *)

Definition is_integer_type (t : Z) : bool := (t =? 21) || (t =? 23) || (t =? 20) || (t =? 26).
Definition is_float_type (t : Z) : bool := (t =? 700) || (t =? 701) || (t =? 1700).

Definition pg_cell_to_lua (type : Z) (cell : option (list byte)) : lval :=
  match cell with
  | None => VNil
  | Some v =>
      let s := string_of (c_text v) in
      if is_integer_type type then VInt (strtoll s)
      else if type =? 16 then VBool (String.eqb s "t")
      else if is_float_type type then match stod_bits s with Some bits => VNum bits | None => text s end
      else text s
  end.

Fixpoint row_fields (cols : list (option string * Z)) (row : list (option (list byte))) (t : list (lval * lval))
  : list (lval * lval) :=
  match cols, row with
  | (name, type) :: cols, cell :: row =>
      row_fields cols row (set_field (default "_" name) (pg_cell_to_lua type cell) t)
  | _, _ => t
  end.
Definition pg_row_to_lua (r : pq_result) (row : list (option (list byte))) : lval := VTable (row_fields (fields r) row []).

(** What sol2 makes of a float when it is asked for an integer. *)
Class SolFloats := { float_to_integer : Z -> option Z }.

Section Params.
Context `{SolFloats}.

(** The text of a parameter; none for null and for what has no text. *)
Definition param_text (v : lval) : option (list byte) :=
  match v with
  | VBool b => Some (bytes_of (if b then "t" else "f"))
  | VInt z => Some (bytes_of (to_string_i64 z))
  | VNum bits =>
      Some (bytes_of (match float_to_integer bits with
                      | Some z => to_string_i64 z
                      | None => to_string_double (double_of_bits bits)
                      end))
  | VStr s => Some (c_text s)
  | _ => None
  end.

Definition has_number_key (e : lval * lval) : bool := match e.1 with VInt _ | VNum _ => true | _ => false end.
Definition collect_lua_params (params : option (list (lval * lval))) : list (option (list byte)) :=
  map (fun e => param_text e.2) (List.filter has_number_key (default [] params)).
End Params.

(** [affected && affected[0] ? strtoll(...) : 0] *)
Definition affected (r : pq_result) : Z := if str_empty (cmd_tuples r) then 0 else strtoll (cmd_tuples r).

Definition shape (m : mode) (r : pq_result) : lval :=
  match m with
  | Execute => VTable [(text "affected", VInt (affected r))]
  | QueryOne => match tuples r with [] => VNil | row :: _ => pg_row_to_lua r row end
  | Query => sequence (map (pg_row_to_lua r) (tuples r))
  end.

(** [fill_from_pgresult] *)
Definition fill_from_pgresult (r : pq_result) (is_select : bool) : shield_db_result :=
  match status r with
  | CommandOk => mkDbResult 1 None None (affected r) 0 0 0 []
  | TuplesOk =>
      if is_select
      then mkDbResult 1 None None 0 0 (vsize (tuples r)) (vsize (fields r)) (map (option_map c_text) (concat (tuples r)))
      else mkDbResult 1 None None 0 0 0 0 []
  | OtherStatus =>
      mkDbResult 0 (Some (text_or (error_message r) "postgresql: query failed")) (Some (map_sqlstate (sqlstate r))) 0 0 0 0 []
  end.

Section Pgsql.
Context `{Libpq, SolFloats}.

(** ** Statements *)

(** [poisoned] has the connections whose transaction saw [conn_bad]. *)
Record world := mkWorld { state : pq; used : list nat; poisoned : list nat; log : list event }.

Definition command_ok (r : option pq_result) : bool :=
  match r with Some r => match status r with CommandOk => true | _ => false end | None => false end.

Definition command (c : nat) (sql : string) : st world (option pq_result) := fun w =>
  let '(r, l) := pq_exec c sql (state w) in
  (r, mkWorld l (used w) (poisoned w) (log w ++ [Command c sql (command_ok r)])).

Definition statement (c : nat) (sql : string) (params : list (option (list byte))) : st world (option pq_result) := fun w =>
  let '(r, l) := pq_exec_params c sql params (state w) in
  (r, mkWorld l (used w) (poisoned w) (log w ++ [Statement c sql])).

Definition is_bad (c : nat) : st world bool := sget (fun w => pq_bad c (state w)).

(** The value or the error, and [*conn_bad]. *)
Definition run_statement (c : nat) (sql : string) (params : option (list (lval * lval))) (m : mode)
  : st world (((string * string) + lval) * bool) :=
  let* r := statement c (rewrite_placeholders sql) (collect_lua_params params) in
  match r with
  | None => sret (inl ("connection_lost", "postgresql: PQexecParams returned NULL"), true)
  | Some r =>
      match status r with
      | OtherStatus => let* bad := is_bad c in sret (inl (error_from_result r), bad)
      | _ => sret (inr (shape m r), false)
      end
  end.

(** ** Connections of the pool *)

Definition acquire_conn : st world (string + nat) := fun w =>
  let '(r, l) := pq_acquire (used w) (state w) in
  (r, match r with
      | inr c => mkWorld l (c :: used w) (poisoned w) (log w ++ [Acquired c])
      | inl _ => mkWorld l (used w) (poisoned w) (log w)
      end).

(** [release]: the connection is finished when it is [bad] or its status says so. *)
Definition release (c : nat) (bad : bool) : st world unit := fun w =>
  let bad := bad || pq_bad c (state w) in
  (tt, mkWorld (pq_release c bad (state w)) (without c (used w)) (poisoned w)
         (log w ++ [Released c bad])).

(** [query], [query_one] and [execute] of the instance's proxy. *)
Definition proxy_statement (m : mode) (sql : string) (params : option (list (lval * lval))) : st world (list lval) :=
  let* g := acquire_conn in
  match g with
  | inl e => sret (failed "connection_failed" e)
  | inr c =>
      let* r := run_statement c sql params m in
      let* _ := release c r.2 in
      sret (answer r.1)
  end.

Definition poison (c : nat) (bad : bool) : st world unit := fun w =>
  (tt, mkWorld (state w) (used w) (if bad then c :: poisoned w else poisoned w) (log w)).

(** And of the proxy of a transaction. *)
Definition handle_statement (c : nat) (m : mode) (sql : string) (params : option (list (lval * lval))) : st world (list lval) :=
  let* r := run_statement c sql params m in
  let* _ := poison c r.2 in
  sret (answer r.1).

(** [tx_conn_bad] of a new transaction. *)
Definition unpoison (c : nat) : st world unit := fun w =>
  (tt, mkWorld (state w) (used w) (without c (poisoned w)) (log w)).

Definition saw_bad (c : nat) : st world bool := sget (fun w => bool_decide (c ∈ poisoned w)).

(** What ends a transaction: without an answer to a statement it cannot be COMMIT. *)
Definition tx_command (r : result) (tx_conn_bad : bool) : string :=
  if commits r && negb tx_conn_bad then "COMMIT" else "ROLLBACK".

(** The end of a transaction: COMMIT or ROLLBACK, and the answer. *)
Definition end_transaction (c : nat) (conn_bad : bool) (cb_res : result) (tx_conn_bad : bool) : st world (list lval) :=
  let tx_sql := tx_command cb_res tx_conn_bad in
  let* t := command c tx_sql in
  match t with
  | None =>
      let* _ := release c true in sret (failed "db_query_failed" (tx_sql +:+ " returned NULL"))
  | Some r =>
      match status r with
      | CommandOk => let* _ := release c conn_bad in sret (settled cb_res)
      | _ =>
          let* bad := is_bad c in
          let* _ := release c (conn_bad || bad) in
          sret (failed (map_sqlstate (sqlstate r)) (text_or (error_message r) (tx_sql +:+ " failed")))
      end
  end.

(** [transaction]: a BEGIN without a result marks the connection and goes on. *)
Definition transaction_with (callback : nat -> st world result) : st world (list lval) :=
  let* g := acquire_conn in
  match g with
  | inl e => sret (failed "connection_failed" e)
  | inr c =>
      let* b := command c "BEGIN" in
      let run (conn_bad : bool) : st world (list lval) :=
        let* _ := unpoison c in
        let* cb_res := callback c in
        let* tx_conn_bad := saw_bad c in
        end_transaction c conn_bad cb_res tx_conn_bad in
      match b with
      | None => run true
      | Some r =>
          match status r with
          | CommandOk => run false
          | _ =>
              let* bad := is_bad c in
              let* _ := release c bad in
              sret (answer (inl (error_from_result r)))
          end
      end
  end.

(** A function of a script inside the transactions on the connections [txs]. *)
Fixpoint run_script (f : script) (txs : list nat) : st world result :=
  match f with
  | Returns values => sret (Some values)
  | Raises => sret None
  | OnTx level m sql params k =>
      match txs !! level with
      | Some c => let* r := handle_statement c m sql params in run_script (k r) txs
      | None => sret None
      end
  | OnProxy m sql params k => let* r := proxy_statement m sql params in run_script (k r) txs
  | Transaction callback k =>
      let* r := transaction_with (fun c => run_script callback (c :: txs)) in run_script (k r) txs
  end.

Definition transaction (callback : script) : st world (list lval) :=
  transaction_with (fun c => run_script callback [c]).

(** ** The interface for other plugins *)

(** A query that gives no result has neither a message nor a state. *)
Definition null_result : pq_result := mkPq OtherStatus "" "" [] [] None None.

Definition run_pg_query (c : option nat) (sql : option string) (params : list (option string)) (is_select : bool)
    (out : shield_db_result) : st world (Z * shield_db_result) :=
  match c, sql with
  | Some c, Some sql =>
      let text := rewrite_placeholders sql in
      let* r := (match params with
                 | [] => command c text
                 | _ => statement c text (map (option_map (fun s => c_text (bytes_of s))) params)
                 end) in
      let* bad := is_bad c in
      sret (if bad then 1 else 0, fill_from_pgresult (default null_result r) is_select)
  | _, _ => sret (1, error_result "postgresql: invalid arguments" "db_query_failed" out)
  end.

Definition vt_query (is_select : bool) (c : option nat) (sql : option string) (params : list (option string))
    (out : shield_db_result) : st world (Z * shield_db_result) :=
  match c with
  | None => sret (1, error_result "postgresql: connection is null" "connection_lost" out)
  | Some _ => run_pg_query c sql params is_select out
  end.

(** [begin], [commit] and [rollback] *)
Definition vt_simple (sql : string) (c : option nat) (out : shield_db_result) : st world (Z * shield_db_result) :=
  match c with None => sret (1, out) | Some _ => run_pg_query c (Some sql) [] false out end.

Definition vt_ping (c : option nat) : st world Z :=
  match c with
  | None => sret 0
  | Some c =>
      let* r := command c "SELECT 1" in
      sret (match r with Some r => match status r with TuplesOk => 1 | _ => 0 end | None => 0 end)
  end.

End Pgsql.

(** ** What happens to a connection *)

Section Connections.
Context `{Libpq, SolFloats}.

#[local] Abbreviation foreign := (foreign used log).

Lemma foreign_pg_statement c sql params : foreign (statement c sql params).
Proof. intros w. unfold statement. destruct (pq_exec_params c sql params (state w)) as [r l]. cbn. by eexists. Qed.

Lemma foreign_pg_run c sql params m : foreign (run_statement c sql params m).
Proof.
  apply foreign_bind; [apply foreign_pg_statement|]. intros [r|]; [|apply foreign_ret].
  destruct (status r); try apply foreign_ret. apply foreign_bind; [apply foreign_get|]. intros bad. apply foreign_ret.
Qed.

Lemma foreign_pg_handle c m sql params : foreign (handle_statement c m sql params).
Proof.
  apply foreign_bind; [apply foreign_pg_run|]. intros r. apply foreign_bind; [|intros []; apply foreign_ret].
  intros w. exists []. cbn. by rewrite app_nil_r.
Qed.

Lemma foreign_unpoison c : foreign (unpoison c).
Proof. intros w. exists []. cbn. by rewrite app_nil_r. Qed.

(** The end of a transaction, whatever its command gives. *)
Lemma end_transaction_eq c conn_bad r tx_bad w reply w' :
  end_transaction c conn_bad r tx_bad w = (reply, w') ->
  exists ok b, log w' = log w ++ [Command c (tx_command r tx_bad) ok; Released c b] /\ used w' = without c (used w) /\
   (conn_bad = true -> b = true) /\ (if ok then reply = settled r else exists code msg, reply = failed code msg).
Proof.
  unfold end_transaction, sbind, command, is_bad, sget, release, sret. cbv zeta.
  destruct (pq_exec c (tx_command r tx_bad) (state w)) as [t l]. destruct t as [res|]; [destruct (status res) eqn:Es|];
    cbn -[without tx_command failed settled]; rewrite ?Es; intros Ht; apply pair_eq in Ht as [<- <-];
    (eexists _, _; split; [cbn [log]; by rewrite <-app_assoc|]); (split; [done|]); (split; [by intros ->|]); eauto.
Qed.

(** What a transaction answers, and what happened to its connection. *)
Inductive tx_outcome (callback : nat -> st world result) (reply : list lval) (es : list event) : Prop :=
| NotAcquired e : reply = failed "connection_failed" e -> es = [] -> tx_outcome callback reply es
| NotBegun c code msg b : reply = failed code msg ->
    history c es = [Acquired c; Command c "BEGIN" false; Released c b] -> tx_outcome callback reply es
| Ended c begun w1 r w2 ok b : callback c w1 = (r, w2) ->
    history c es = [Acquired c; Command c "BEGIN" begun;
                    Command c (tx_command r (bool_decide (c ∈ poisoned w2))) ok; Released c b] ->
    (begun = false -> b = true) ->
    (if ok then reply = settled r else exists code msg, reply = failed code msg) ->
    tx_outcome callback reply es.

(** The callback and the end, on a connection that was acquired. *)
Lemma run_tx_eq callback c begun conn_bad u w reply w' :
  (forall c, foreign (callback c)) -> c ∉ u -> used w = c :: u -> (begun = false -> conn_bad = true) ->
  (let* _ := unpoison c in let* cb_res := callback c in let* tx_conn_bad := saw_bad c in
   end_transaction c conn_bad cb_res tx_conn_bad) w = (reply, w') ->
  exists es, log w' = log w ++ es /\ used w' = u /\ (forall s, s ∈ u -> history s es = []) /\
    tx_outcome callback reply (Acquired c :: Command c "BEGIN" begun :: es).
Proof.
  intros Hq Hc Hu Hb Ht. set (w1 := (unpoison c w).2).
  rewrite (sbind_eq (unpoison c) _ w tt w1 eq_refl) in Ht. destruct (Hq c w1) as (ecb & L & U & X).
  destruct (callback c w1) as [r w2] eqn:Ecb. rewrite (sbind_eq _ _ _ _ _ Ecb) in Ht.
  rewrite (sbind_eq (saw_bad c) _ w2 (bool_decide (c ∈ poisoned w2)) w2 eq_refl) in Ht. cbn [fst snd] in *.
  apply end_transaction_eq in Ht as (ok & b & L2 & U2 & Hbad & Hr).
  change (used w1) with (used w) in *. change (log w1) with (log w) in *. rewrite U, Hu, without_head in U2 by done.
  rewrite Hu in X. eexists. split; [rewrite L2, L; by rewrite <-app_assoc|]. split; [done|]. split.
  - intros s Hs. rewrite !history_app, X by (by right).
    rewrite !history_none; [done|..]; repeat constructor; cbn; apply Nat.eqb_neq; by intros ->.
  - eapply (Ended _ _ _ c begun w1 r w2 ok b); [done| |auto|done].
    change (history c ([Acquired c; Command c "BEGIN" begun] ++ ecb ++ [Command c (tx_command r (bool_decide (c ∈ poisoned w2))) ok; Released c b]) =
      [Acquired c; Command c "BEGIN" begun; Command c (tx_command r (bool_decide (c ∈ poisoned w2))) ok; Released c b]).
    rewrite !history_app, X by left. rewrite !history_self; [done|..]; repeat constructor; cbn; apply Nat.eqb_refl.
Qed.

Lemma acquire_cases `{!exclusive_conns} w :
  (exists e l, acquire_conn w = (inl e, mkWorld l (used w) (poisoned w) (log w))) \/
  (exists c l, acquire_conn w = (inr c, mkWorld l (c :: used w) (poisoned w) (log w ++ [Acquired c])) /\ c ∉ used w).
Proof.
  unfold acquire_conn. destruct (pq_acquire (used w) (state w)) as [[e|c] l] eqn:E; [left; by exists e, l|].
  right. exists c, l. split; [done|]. by eapply pq_acquire_exclusive.
Qed.

Lemma pg_command_eq c sql w :
  exists r l, command c sql w = (r, mkWorld l (used w) (poisoned w) (log w ++ [Command c sql (command_ok r)])).
Proof. unfold command. destruct (pq_exec c sql (state w)) as [r l]. by exists r, l. Qed.

Lemma pg_transaction_outcome `{!exclusive_conns} callback w reply w' :
  (forall c, foreign (callback c)) -> transaction_with callback w = (reply, w') ->
  exists es, log w' = log w ++ es /\ used w' = used w /\ (forall s, s ∈ used w -> history s es = []) /\
    tx_outcome callback reply es.
Proof.
  intros Hq Ht. unfold transaction_with in Ht. destruct (acquire_cases w) as [(e & l & Ea)|(c & l & Ea & Hc)];
    rewrite (sbind_eq _ _ _ _ _ Ea) in Ht.
  { apply pair_eq in Ht as [<- <-]. exists []. cbn. rewrite app_nil_r. split_and!; try done. by eapply NotAcquired. }
  destruct (pg_command_eq c "BEGIN" (mkWorld l (c :: used w) (poisoned w) (log w ++ [Acquired c]))) as (b & l1 & Eb).
  rewrite (sbind_eq _ _ _ _ _ Eb) in Ht. cbn [used poisoned log] in *. set (w1 := mkWorld l1 _ _ _) in *.
  assert (Hrun : forall begun conn_bad, command_ok b = begun -> (begun = false -> conn_bad = true) ->
    (let* _ := unpoison c in let* cb_res := callback c in let* tx_conn_bad := saw_bad c in
     end_transaction c conn_bad cb_res tx_conn_bad) w1 = (reply, w') ->
    exists es, log w' = log w ++ es /\ used w' = used w /\ (forall s, s ∈ used w -> history s es = []) /\
      tx_outcome callback reply es).
  { intros begun conn_bad Hbeg Hb Hrun. eapply run_tx_eq in Hrun as (es & L & U & X & O); [|done|exact Hc|done|exact Hb].
    exists (Acquired c :: Command c "BEGIN" begun :: es). rewrite L. unfold w1. cbn [log]. rewrite Hbeg, <-!app_assoc.
    split_and!; try done. intros s Hs. cbn. destruct (Nat.eqb_spec c s); [congruence|]. by apply X. }
  assert (Hstop : forall res, command_ok b = false ->
    (let* bad := is_bad c in let* _ := release c bad in sret (answer (inl (error_from_result res)))) w1 = (reply, w') ->
    exists es, log w' = log w ++ es /\ used w' = used w /\ (forall s, s ∈ used w -> history s es = []) /\
      tx_outcome callback reply es).
  { intros res Hb Hs. rewrite (sbind_eq (is_bad c) _ w1 (pq_bad c (state w1)) w1 eq_refl) in Hs.
    apply pair_eq in Hs as [<- <-]. set (bad := pq_bad c (state w1)).
    exists [Acquired c; Command c "BEGIN" false; Released c (bad || bad)]. unfold w1. cbn [log used snd release].
    rewrite Hb, without_head by done. split; [by rewrite <-!app_assoc|]. split; [done|]. split.
    - intros s Hs. apply history_none. repeat constructor; cbn; apply Nat.eqb_neq; by intros ->.
    - eapply NotBegun; [done|]. apply history_self. repeat constructor; cbn; apply Nat.eqb_refl. }
  destruct b as [res|]; [|by eapply (Hrun false true)]. destruct (status res) eqn:Es.
  - eapply (Hrun true false); [cbn; by rewrite Es|done|exact Ht].
  - eapply Hstop; [cbn; by rewrite Es|exact Ht].
  - eapply Hstop; [cbn; by rewrite Es|exact Ht].
Qed.

Lemma pg_run_eq c sql params m w :
  exists out l, run_statement c sql params m w
    = (out, mkWorld l (used w) (poisoned w) (log w ++ [Statement c (rewrite_placeholders sql)])).
Proof.
  unfold run_statement, statement, sbind, is_bad, sget, sret. destruct (pq_exec_params _ _ _ _) as [[r|] l]; [|by eexists _, l].
  destruct (status r); by eexists _, l.
Qed.

Lemma pg_proxy_outcome `{!exclusive_conns} m sql params w reply w' :
  proxy_statement m sql params w = (reply, w') ->
  exists es, log w' = log w ++ es /\ used w' = used w /\ (forall s, s ∈ used w -> history s es = []) /\
    ((exists e, reply = failed "connection_failed" e /\ es = []) \/
     (exists c b, history c es = [Acquired c; Released c b])).
Proof.
  intros Ht. unfold proxy_statement in Ht. destruct (acquire_cases w) as [(e & l & Ea)|(c & l & Ea & Hc)];
    rewrite (sbind_eq _ _ _ _ _ Ea) in Ht.
  { apply pair_eq in Ht as [<- <-]. exists []. cbn. rewrite app_nil_r. split_and!; try done. left. by exists e. }
  set (w1 := mkWorld l _ _ _) in *. destruct (pg_run_eq c sql params m w1) as (out & l1 & Er).
  rewrite (sbind_eq _ _ _ _ _ Er) in Ht. apply pair_eq in Ht as [_ <-]. set (b := _ || _).
  exists [Acquired c; Statement c (rewrite_placeholders sql); Released c b]. unfold w1. cbn [log used snd release].
  rewrite without_head by done. split; [by rewrite <-!app_assoc|]. split; [done|]. split.
  - intros s Hs. apply history_none. repeat constructor; cbn; apply Nat.eqb_neq; by intros ->.
  - right. exists c, b. cbn. by rewrite Nat.eqb_refl.
Qed.

Lemma foreign_pg_script `{!exclusive_conns} f : forall txs, foreign (run_script f txs).
Proof.
  induction f as [values| |level m sql params k IH|m sql params k IH|callback IHc k IH]; intros txs; cbn [run_script].
  - apply foreign_ret.
  - apply foreign_ret.
  - destruct (txs !! level) as [c|]; [|apply foreign_ret]. apply foreign_bind; [apply foreign_pg_handle|]. intros r. apply IH.
  - apply foreign_bind; [|intros r; apply IH]. intros w. destruct (proxy_statement m sql params w) as [reply w'] eqn:E.
    destruct (pg_proxy_outcome _ _ _ _ _ _ E) as (es & ? & ? & ? & _). by exists es.
  - apply foreign_bind; [|intros r; apply IH]. intros w.
    destruct (transaction_with (fun c => run_script callback (c :: txs)) w) as [reply w'] eqn:E.
    destruct (pg_transaction_outcome _ _ _ _ (fun c => IHc (c :: txs)) E) as (es & ? & ? & ? & _). by exists es.
Qed.

End Connections.

(** ** Placeholders *)

Lemma rewrite_plain n s t : str_all (fun c => negb (Ascii.eqb c "?")) s = true -> rewrite_from n (s +:+ t) = s +:+ rewrite_from n t.
Proof.
  induction s as [|c s IH]; [done|]. cbn [str_all]. intros Hs. apply andb_true_iff in Hs as [Hc Hs].
  rewrite !str_app_cons. cbn [rewrite_from]. apply negb_true_iff in Hc. rewrite Hc. f_equal. by apply IH.
Qed.

(** The text is cut at its question marks, and the parts are joined with the
    numbers of the parameters. *)
Fixpoint numbered (n : Z) (parts : list string) : string :=
  match parts with [] => "" | p :: parts => String "$" (to_string_i64 (n + 1)) +:+ p +:+ numbered (n + 1) parts end.
Fixpoint questions (parts : list string) : string :=
  match parts with [] => "" | p :: parts => String "?" p +:+ questions parts end.

Lemma placeholders_numbered parts : forall n,
  Forall (fun p => str_all (fun c => negb (Ascii.eqb c "?")) p = true) parts ->
  rewrite_from n (questions parts) = numbered n parts.
Proof.
  induction parts as [|p parts IH]; intros n Hp; [done|]. inversion Hp; subst. cbn [questions numbered].
  rewrite str_app_cons. cbn [rewrite_from]. change (Ascii.eqb "?" "?") with true. cbn iota.
  rewrite rewrite_plain, IH by done. by rewrite str_app_cons.
Qed.

(** ** Theorems *)

(** Every connection that the PostgreSQL plugin takes from the pool is given
    back once, whatever the server answers and whatever the callback does.  The
    plugin executes BEGIN and then one COMMIT or ROLLBACK around the statements of
    the callback, COMMIT only when the callback returned, its first value is not
    false and every statement had an answer; the answer of the transaction is that
    of the callback only when this command succeeded, and a connection on which
    BEGIN had no answer is dropped.  Parameters are numbered in the order of their
    question marks. *)
Theorem pgsql_connections_returned `{Libpq, SolFloats} w :
  exclusive_conns ->
  (forall m sql params, let '(reply, w') := proxy_statement m sql params w in
     exists es, log w' = log w ++ es /\ used w' = used w /\
       ((exists e, reply = failed "connection_failed" e /\ es = []) \/
        (exists c b, history c es = [Acquired c; Released c b]))) /\
  (forall callback, let '(reply, w') := transaction callback w in
     exists es, log w' = log w ++ es /\ used w' = used w /\
       tx_outcome (fun c => run_script callback [c]) reply es) /\
  (forall head parts, Forall (fun p => str_all (fun c => negb (Ascii.eqb c "?")) p = true) (head :: parts) ->
     rewrite_from 0 (head +:+ questions parts) = head +:+ numbered 0 parts).
Proof.
  intros Hx. split; [|split].
  - intros m sql params. destruct (proxy_statement m sql params w) as [reply w'] eqn:E.
    destruct (pg_proxy_outcome _ _ _ _ _ _ E) as (es & ? & ? & _ & ?). by exists es.
  - intros callback. destruct (transaction callback w) as [reply w'] eqn:E.
    destruct (pg_transaction_outcome _ _ _ _ (fun c => foreign_pg_script callback [c]) E) as (es & ? & ? & _ & ?). by exists es.
  - intros head parts Hp. inversion Hp; subst. by rewrite rewrite_plain, placeholders_numbered.
Qed.

(** A server whose statements fail and thereby abort the transaction they are in:
    COMMIT then completes as ROLLBACK, which is no error. *)
Definition completed (tag : string) : pq_result := mkPq CommandOk tag "" [] [] None None.
Definition refused : pq_result := mkPq OtherStatus "" "" [] [] (Some "23505") (Some "duplicate key").

#[local] Instance aborting : Libpq := {
  pq := bool;
  pq_exec := fun _ sql l =>
    if String.eqb sql "BEGIN" then (Some (completed "BEGIN"), false)
    else (Some (completed (if l then "ROLLBACK" else sql)), false);
  pq_exec_params := fun _ _ _ _ => (Some refused, true);
  pq_bad := fun _ _ => false;
  pq_acquire := fun used l => (inr (fresh (list_to_set used : gset nat)), l);
  pq_release := fun _ _ l => l
}.
#[local] Instance kept_floats : SolFloats := {| float_to_integer _ := None |}.

Lemma fresh_conns : exclusive_conns.
Proof.
  intros used l s l' [= <- _]. intros Hin. apply (is_fresh (list_to_set used : gset nat)). by apply elem_of_list_to_set.
Qed.

Definition idle_world : world := @mkWorld aborting false [] [] [].
Definition insert_and_go_on : script := OnTx 0 Execute "INSERT INTO t VALUES (?)" (Some [(VInt 1, VInt 5)]) (fun _ => Returns []).

Lemma pgsql_connections_returned_witness : used (transaction insert_and_go_on idle_world).2 = [].
Proof.
  destruct (transaction insert_and_go_on idle_world) as [reply w'] eqn:E.
  pose proof (proj1 (proj2 (pgsql_connections_returned idle_world fresh_conns)) insert_and_go_on) as Ht.
  rewrite E in Ht. destruct Ht as (es & _ & Hu & _). exact Hu.
Defined.

(** *** Where it fails *)

(** A callback that does not look at the answer of its statement: the server has
    undone the transaction, and the plugin says that it was committed. *)
Example aborted_transaction_reports_success :
  (transaction insert_and_go_on idle_world).1 = [VBool true] /\
  (pq_exec 0 "COMMIT" true).1 = Some (completed "ROLLBACK").
Proof. split; vm_compute; reflexivity. Qed.

(** A statement without an answer forces ROLLBACK; the answer is still true. *)
Example forced_rollback_reports_success :
  let w := (poison 0 true (@mkWorld aborting false [0%nat] [] [])).2 in
  (end_transaction 0 false (Some []) true w).1 = [VBool true] /\
  log (end_transaction 0 false (Some []) true w).2 = [Command 0 "ROLLBACK" true; Released 0 false].
Proof. split; vm_compute; reflexivity. Qed.

(** Question marks in a text literal are taken for parameters, and a value of the
    configuration with a space ends early or adds a setting. *)
Example literal_is_rewritten :
  rewrite_placeholders "SELECT 'why?' WHERE x = ?" = "SELECT 'why$1' WHERE x = $2".
Proof. reflexivity. Qed.

Example password_adds_setting :
  build_conninfo (mkPgsql "db" 5432 "game" "app" "pw sslmode=disable" 2500 5000 4)
  = "host=db port=5432 dbname=game user=app password=pw sslmode=disable connect_timeout=2.500".
Proof. reflexivity. Qed.

(** libpq documents the timeout as a decimal integer; the default is not one. *)
Example timeout_is_no_integer :
  build_conninfo pgsql_defaults = "host=127.0.0.1 port=5432 connect_timeout=5.000".
Proof. reflexivity. Qed.

(** Numbers as the server writes them; doubles are sent with six decimals. *)
Example numbers_read :
  stod_bits "0.1" = Some 4591870180066957722 /\ stod_bits "-2.5e3" = Some 13881088010067378176 /\ stod_bits "1e400" = None /\
  pg_cell_to_lua 20 (Some (bytes_of "-42")) = VInt (-42) /\
  pg_cell_to_lua 16 (Some (bytes_of "t")) = VBool true.
Proof. repeat split; vm_compute; reflexivity. Qed.

Example small_doubles_are_zero :
  param_text (VNum 4487126258331716666) = Some (bytes_of "0.000000").
Proof. vm_compute. reflexivity. Qed.
