(* ===== verification/RedisDriver.v ===== *)
(** * RedisDriver: the shared Redis driver (plugins/redis.driver)

    The plugin wraps a redis++ client, the class [RedisPP]: its functions work on
    a state of their own and give a result or the text of an exception.  Values
    are trees that the driver allocates; keys and texts that cross the C interface
    end at their first null character.  A failing call leaves in [err->message] a
    pointer to the text of an exception that is gone when the caller reads it:
    reading it is undefined. *)

From S2P Require Import Prelude Text LuaPack Json Config SqlPlugin.

(** ** The client *)

(** [redisReply] *)
Inductive reply :=
| ReplyNil
| ReplyString (s : list byte)
| ReplyStatus (s : list byte)
| ReplyInteger (z : Z)
| ReplyError (s : list byte)
| ReplyArray (l : list reply)
| ReplyOther.

Abbreviation key_t := (list byte).
Abbreviation throws := (fun A : Type => (string + A)%type).

Class RedisPP := {
  rd : Type;
  rd_get : key_t -> rd -> throws (option key_t) * rd;
  rd_set : key_t -> key_t -> option Z -> rd -> throws unit * rd;
  rd_del : key_t -> rd -> throws Z * rd;
  rd_exists : key_t -> rd -> throws Z * rd;
  rd_incr : key_t -> rd -> throws Z * rd;
  rd_incrby : key_t -> Z -> rd -> throws Z * rd;
  rd_hget : key_t -> key_t -> rd -> throws (option key_t) * rd;
  rd_hset : key_t -> key_t -> key_t -> rd -> throws unit * rd;
  rd_hdel : key_t -> key_t -> rd -> throws Z * rd;
  rd_hgetall : key_t -> rd -> throws (list (key_t * key_t)) * rd;
  rd_zadd : key_t -> key_t -> Z -> rd -> throws unit * rd;
  rd_zrange : key_t -> Z -> Z -> rd -> throws (list key_t) * rd;
  rd_command : list key_t -> rd -> throws reply * rd;
  rd_pipeline : list (list key_t) -> rd -> throws (list reply) * rd
}.

(** ** Values *)

(** [shield_redis_value_v1]; the text of an error is followed by its length. *)
Inductive rvalue :=
| RvNil
| RvString (s : list byte)
| RvInteger (z : Z)
| RvDouble (bits : Z)
| RvBool (b : bool)
| RvArray (items : list rvalue)
| RvError (s : list byte) (len : Z).

(** [make_error_value] copies a C string and keeps the length of the whole. *)
Definition make_error_value (s : list byte) : rvalue := RvError (c_text s) (vsize s).

Fixpoint reply_to_value (r : reply) : rvalue :=
  match r with
  | ReplyNil | ReplyOther => RvNil
  | ReplyString s | ReplyStatus s => RvString s
  | ReplyInteger z => RvInteger z
  | ReplyError s => make_error_value s
  | ReplyArray l => RvArray (map reply_to_value l)
  end.

(** Nothing is allocated for an empty text. *)
Definition has_text_pointer (v : rvalue) : bool :=
  match v with RvString [] => false | RvString _ | RvError _ _ => true | _ => false end.

(** The entries of an array, [tbl[i + 1] = ...]: nil leaves a hole. *)
Fixpoint holed (i : Z) (l : list lval) : list (lval * lval) :=
  match l with
  | [] => []
  | VNil :: l => holed (i + 1) l
  | v :: l => (VInt i, v) :: holed (i + 1) l
  end.

Fixpoint value_to_lua (v : rvalue) : outcome lval :=
  match v with
  | RvNil => Ret VNil
  | RvString s => Ret (VStr s)
  | RvInteger z => Ret (VInt z)
  | RvDouble bits => Ret (VNum bits)
  | RvBool b => Ret (VBool b)
  | RvArray items =>
      let! l := (fix all (l : list rvalue) : outcome (list lval) :=
                   match l with
                   | [] => Ret []
                   | v :: l => let! x := value_to_lua v in let! r := all l in Ret (x :: r)
                   end) items in
      Ret (VTable (holed 1 l))
  | RvError s len => if len =? vsize s then Ret (VStr s) else Undef
  end.

(** ** Memory *)

(** The blocks of a value that one [calloc] or [malloc] each gave: the value
    itself, its text and its array; the values of an array are in its block. *)
Fixpoint inner_blocks (v : rvalue) : nat :=
  (if has_text_pointer v then 1 else 0) +
  match v with
  | RvArray [] => 0
  | RvArray l => S (sum_list_with inner_blocks l)
  | _ => 0
  end.

(** What [free_value] frees: three levels written out. *)
Definition text_blocks (v : rvalue) : nat := if has_text_pointer v then 1 else 0.
Definition array_of (v : rvalue) : list rvalue := match v with RvArray l => l | _ => [] end.
Definition array_block (v : rvalue) : nat := match v with RvArray (_ :: _) => 1 | _ => 0 end%nat.

Definition freed (v : rvalue) : nat :=
  text_blocks v +
  sum_list_with (fun x => text_blocks x + sum_list_with (fun y => text_blocks y + array_block y)%nat (array_of x) + array_block x)%nat
    (array_of v) + array_block v.

(** What is left behind; a value that is not an element has a block of its own. *)
Definition leaked (v : rvalue) : Z := Z.of_nat (S (inner_blocks v)) - Z.of_nat (freed v).

(** ** Configuration *)

Record redis_instance := mkRedisInst {
  rmode : string;
  rhost : string;
  rport : Z;
  rpassword : string;
  rdb : Z;
  rpool_size : Z;
  rconnect_timeout_ms : Z;
  rcommand_timeout_ms : Z;
  rclient : bool
}.

Definition redis_defaults : redis_instance := mkRedisInst "single" "127.0.0.1" 6379 "" 0 8 5000 3000 false.

Definition parse_redis_config `{JsonLib} (config_json : option string) : redis_instance :=
  match config_json with
  | None | Some "" => redis_defaults
  | Some s =>
      match json_parse (bytes_of s) with
      | inr j =>
          mkRedisInst (string_field "mode" j "single") (string_field "host" j "127.0.0.1") (int_field "port" j 6379)
            (string_field "password" j "") (int_field "db" j 0) (int_field "pool_size" j 8)
            (int_field "connect_timeout_ms" j 5000) (int_field "command_timeout_ms" j 3000) false
      | inl _ => redis_defaults
      end
  end.

(** The options of the connection: host, port, database, timeouts and the size of
    the client's pool. *)
Record redis_options := mkOptions {
  o_host : string; o_port : Z; o_password : option string; o_db : Z; o_connect_ms : Z; o_socket_ms : Z; o_pool : Z }.

Definition positive_or (z dflt : Z) : Z := if 0 <? z then z else dflt.

Definition redis_options_of (i : redis_instance) : redis_options :=
  mkOptions (if str_empty (rhost i) then "localhost" else rhost i) (positive_or (rport i) 6379)
    (if str_empty (rpassword i) then None else Some (rpassword i)) (positive_or (rdb i) 0)
    (positive_or (rconnect_timeout_ms i) 5000) (positive_or (rcommand_timeout_ms i) 3000)
    (positive_or (rpool_size i) 8).

(** ** The instances *)

(** Keys in the order of [std::map]. *)
Definition instances := list (string * redis_instance).

(** [connect]: the first instance whose client was started; the configuration of
    the caller is not looked at. *)
Fixpoint drv_connect (l : instances) : string + string :=
  match l with
  | [] => inl "redis.driver: no started instance available"
  | (id, i) :: l => if rclient i then inr id else drv_connect l
  end.

(** [open_redis]: the client is kept before it is asked for an answer, so that it
    is there also when the server gave none. *)
Definition open_redis_client (made answered : bool) (i : redis_instance) : bool * redis_instance :=
  if made
  then (answered, mkRedisInst (rmode i) (rhost i) (rport i) (rpassword i) (rdb i) (rpool_size i) (rconnect_timeout_ms i)
                    (rcommand_timeout_ms i) true)
  else (false, i).

Definition drv_start (made answered : bool) (i : redis_instance) : Z * redis_instance :=
  let '(opened, i) := open_redis_client made answered i in (if opened then 0 else -1, i).

(** ** The functions of the table *)

(** The code that is returned, the value of [*out], and whether [*err] was set, to
    a message that no longer exists. *)
Record drv_out := mkOut { rc : Z; out : option rvalue; dangling : bool }.

Definition not_ready : drv_out := mkOut (-1) None false.
Definition thrown (with_out : bool) : drv_out := mkOut (-1) (if with_out then Some RvNil else None) true.

Definition cbytes (s : string) : list byte := c_text (bytes_of s).

Section Driver.
Context `{RedisPP}.

(** A function whose pointers are all there, on a client that is there. *)
Definition guarded {A} (ready : bool) (o : option A) (f : A -> st rd drv_out) : st rd drv_out :=
  if ready then match o with Some a => f a | None => sret not_ready end else sret not_ready.

Definition string_or_nil (o : option (list byte)) : rvalue := match o with Some s => RvString s | None => RvNil end.

Definition finish {A} (r : throws A) (v : A -> option rvalue) (with_out : bool) : drv_out :=
  match r with inr a => mkOut 0 (v a) false | inl _ => thrown with_out end.

Definition drv_get (ready : bool) (key : option string) : st rd drv_out :=
  guarded ready key (fun key =>
    let* r := rd_get (cbytes key) in sret (finish r (fun v => Some (string_or_nil v)) true)).

Definition ttl_of (ttl_sec : Z) : option Z := if 0 <? ttl_sec then Some ttl_sec else None.

Definition drv_set (ready : bool) (key val : option string) (ttl_sec : Z) : st rd drv_out :=
  guarded ready key (fun key => guarded ready val (fun val =>
    let* r := rd_set (cbytes key) (cbytes val) (ttl_of ttl_sec) in sret (finish r (fun _ => None) false))).

Definition drv_del (ready : bool) (key : option string) : st rd drv_out :=
  guarded ready key (fun key => let* r := rd_del (cbytes key) in sret (finish r (fun _ => None) false)).

Definition drv_hget (ready : bool) (key field : option string) : st rd drv_out :=
  guarded ready key (fun key => guarded ready field (fun field =>
    let* r := rd_hget (cbytes key) (cbytes field) in sret (finish r (fun v => Some (string_or_nil v)) true))).

Definition drv_hset (ready : bool) (key field val : option string) : st rd drv_out :=
  guarded ready key (fun key => guarded ready field (fun field => guarded ready val (fun val =>
    let* r := rd_hset (cbytes key) (cbytes field) (cbytes val) in sret (finish r (fun _ => None) false)))).

(** The fields and values one after the other. *)
Definition alternating (l : list (list byte * list byte)) : list rvalue :=
  flat_map (fun p => [RvString p.1; RvString p.2]) l.

Definition drv_hgetall (ready : bool) (key : option string) : st rd drv_out :=
  guarded ready key (fun key =>
    let* r := rd_hgetall (cbytes key) in sret (finish r (fun l => Some (RvArray (alternating l))) true)).

Definition drv_zadd (ready : bool) (key : option string) (score : Z) (member : option string) : st rd drv_out :=
  guarded ready key (fun key => guarded ready member (fun member =>
    let* r := rd_zadd (cbytes key) (cbytes member) score in sret (finish r (fun _ => None) false))).

Definition drv_zrange (ready : bool) (key : option string) (start stop : Z) : st rd drv_out :=
  guarded ready key (fun key =>
    let* r := rd_zrange (cbytes key) start stop in sret (finish r (fun l => Some (RvArray (map RvString l))) true)).

(** [pipeline]: commands without arguments are left out, so that there are fewer
    answers than commands. *)
Definition drv_pipeline (ready : bool) (cmds : list (list (list byte))) : st rd (Z * list rvalue * bool) :=
  if ready then
    let* r := rd_pipeline (List.filter (fun argv => negb (bool_decide (argv = []))) cmds) in
    sret (match r with inr l => (0, map reply_to_value l, false) | inl _ => (-1, [], true) end)
  else sret (-1, [], false).

Definition drv_command (ready : bool) (argv : list (list byte)) : st rd drv_out :=
  guarded ready (match argv with [] => None | _ => Some argv end) (fun argv =>
    let* r := rd_command argv in sret (finish r (fun x => Some (reply_to_value x)) true)).

(** ** The proxy for scripts *)

(** The error of a call that failed: its message cannot be read when the client
    threw. *)
Definition call_error (o : drv_out) (fallback : string) : outcome (list lval) :=
  if dangling o then Undef else Ret (failed "redis.error" fallback).

Definition value_reply (o : drv_out) (what : string) : outcome (list lval) :=
  if rc o =? 0 then
    let! v := value_to_lua (default RvNil (out o)) in Ret [VBool true; v]
  else call_error o (what +:+ " failed").

Definition plain_reply (o : drv_out) (what : string) : outcome (list lval) :=
  if rc o =? 0 then Ret [VBool true] else call_error o (what +:+ " failed").

Definition lua_get (ready : bool) (key : string) : st rd (outcome (list lval)) :=
  let* o := drv_get ready (Some key) in sret (value_reply o "get").

(** The seconds are cut to 32 bits. *)
Definition lua_set (ready : bool) (key value : string) (ttl : option Z) : st rd (outcome (list lval)) :=
  let* o := drv_set ready (Some key) (Some value) (from_option signed32 0 ttl) in sret (plain_reply o "set").

Definition lua_del (ready : bool) (key : string) : st rd (outcome (list lval)) :=
  let* o := drv_del ready (Some key) in sret (plain_reply o "del").

Definition lua_hget (ready : bool) (key field : string) : st rd (outcome (list lval)) :=
  let* o := drv_hget ready (Some key) (Some field) in sret (value_reply o "hget").

Definition lua_hset (ready : bool) (key field value : string) : st rd (outcome (list lval)) :=
  let* o := drv_hset ready (Some key) (Some field) (Some value) in sret (plain_reply o "hset").

(** Pairs whose texts are both there; an empty one has no pointer. *)
Fixpoint pairs_of (items : list rvalue) (t : list (lval * lval)) : list (lval * lval) :=
  match items with
  | RvString f :: RvString v :: items =>
      pairs_of items (if has_text_pointer (RvString f) && has_text_pointer (RvString v) then table_put (VStr f) (VStr v) t else t)
  | _ => t
  end.

Definition lua_hgetall (ready : bool) (key : string) : st rd (outcome (list lval)) :=
  let* o := drv_hgetall ready (Some key) in
  sret (if rc o =? 0 then
          Ret [VBool true; match out o with Some (RvArray items) => VTable (pairs_of items []) | _ => VTable [] end]
        else call_error o "hgetall failed").

Definition lua_zadd (ready : bool) (key : string) (score : Z) (member : string) : st rd (outcome (list lval)) :=
  let* o := drv_zadd ready (Some key) score (Some member) in sret (plain_reply o "zadd").

Definition member_value (v : rvalue) : lval :=
  match v with RvString s => if has_text_pointer v then VStr s else VNil | _ => VNil end.

Definition lua_zrange (ready : bool) (key : string) (start stop : Z) : st rd (outcome (list lval)) :=
  let* o := drv_zrange ready (Some key) start stop in
  sret (if rc o =? 0 then
          Ret [VBool true; match out o with Some (RvArray items) => VTable (holed 1 (map member_value items)) | _ => VTable [] end]
        else call_error o "zrange failed").

(** [lua_to_string]; whether a float counts as an integer is sol2's. *)
Definition lua_to_string (float_integer : Z -> option Z) (v : lval) : list byte :=
  match v with
  | VStr s => s
  | VInt z => bytes_of (to_string_i64 z)
  | VNum bits => bytes_of (match float_integer bits with Some z => to_string_i64 z | None => to_string_double (double_of_bits bits) end)
  | VBool b => bytes_of (if b then "1" else "0")
  | _ => []
  end.

Definition lua_command (float_integer : Z -> option Z) (ready : bool) (args : list lval) : st rd (outcome (list lval)) :=
  match args with
  | [] => sret (Ret (failed "invalid_args" "command requires at least 1 argument"))
  | _ =>
      let* o := drv_command ready (map (lua_to_string float_integer) args) in
      sret (match rc o =? 0, out o with
            | true, Some v => let! x := value_to_lua v in Ret [VBool true; x]
            | _, _ => call_error o "command failed"
            end)
  end.

(** The commands of a table of tables, as [pairs] meets them. *)
Definition command_list (float_integer : Z -> option Z) (cmds : list (lval * lval)) : list (list (list byte)) :=
  omap (fun e => match e.2 with
                 | VTable ((_ :: _) as args) => Some (map (fun a => lua_to_string float_integer a.2) args)
                 | _ => None
                 end) cmds.

Fixpoint values_to_lua (l : list rvalue) : outcome (list lval) :=
  match l with
  | [] => Ret []
  | v :: l => let! x := value_to_lua v in let! r := values_to_lua l in Ret (x :: r)
  end.

Definition lua_pipeline (float_integer : Z -> option Z) (ready : bool) (cmds : list (lval * lval)) : st rd (outcome (list lval)) :=
  match command_list float_integer cmds with
  | [] => sret (Ret [VBool true; VTable []])
  | argvs =>
      let* r := drv_pipeline ready argvs in
      let '(code, values, dangles) := r in
      sret (if code =? 0 then let! l := values_to_lua values in Ret [VBool true; VTable (holed 1 l)]
            else if dangles then Undef else Ret (failed "redis.error" "pipeline failed"))
  end.

End Driver.

(** ** What is freed *)

Definition no_array (v : rvalue) : bool := match v with RvArray (_ :: _) => false | _ => true end.

Lemma no_array_blocks v : no_array v = true -> inner_blocks v = (text_blocks v + array_block v)%nat.
Proof. destruct v as [|[|? ?]|?|?|?|[|? ?]|? ?]; done. Qed.

Lemma two_level_blocks v : forallb no_array (array_of v) = true ->
  inner_blocks v = (text_blocks v + sum_list_with (fun y => text_blocks y + array_block y)%nat (array_of v) + array_block v)%nat.
Proof.
  intros Hv. destruct v as [|[|? ?]|?|?|?|l|? ?]; try done. cbn [array_of] in *. destruct l as [|x l]; [done|].
  enough (Hs : forall k, forallb no_array k = true ->
    sum_list_with inner_blocks k = sum_list_with (fun y => text_blocks y + array_block y)%nat k).
  { specialize (Hs _ Hv). cbn -[sum_list_with] in *. lia. }
  induction k as [|y k IH]; [done|]. cbn [forallb sum_list_with]. intros Hk. apply andb_true_iff in Hk as [Hy Hk].
  rewrite no_array_blocks, IH by done. done.
Qed.

(** [free_value] frees what a value has in it as long as arrays are nested at most
    twice, and never the value itself. *)
Lemma free_value_leaks_itself v :
  forallb (fun x => forallb no_array (array_of x)) (array_of v) = true -> leaked v = 1.
Proof.
  intros Hv. enough (inner_blocks v = freed v) by (unfold leaked; lia). unfold freed.
  destruct v as [|[|? ?]|?|?|?|l|? ?]; try done. cbn [array_of] in *. destruct l as [|x l]; [done|].
  enough (Hs : forall k, forallb (fun x => forallb no_array (array_of x)) k = true ->
    sum_list_with inner_blocks k
    = sum_list_with (fun x => text_blocks x + sum_list_with (fun y => text_blocks y + array_block y)%nat (array_of x) + array_block x)%nat k).
  { specialize (Hs _ Hv). cbn -[sum_list_with text_blocks] in *. unfold text_blocks at 1. cbn [has_text_pointer]. lia. }
  induction k as [|y k IH]; [done|]. cbn [forallb sum_list_with]. intros Hk. apply andb_true_iff in Hk as [Hy Hk].
  rewrite two_level_blocks, IH by done. done.
Qed.

(** Deeper answers, as those of XREADGROUP, lose more. *)
Example nested_values_leak :
  leaked (RvArray [RvArray [RvArray [RvArray [RvString (bytes_of "id")]]]]) = 3.
Proof. reflexivity. Qed.

(** Every plugin that asks for the driver gets the first instance. *)
Example first_instance_serves_all (i : redis_instance) :
  rclient i = true -> forall l, drv_connect (("a", i) :: l) = inr "a".
Proof. intros Hi l. cbn. by rewrite Hi. Qed.

(** An error with a null character in it is read behind its end. *)
Example error_overread : value_to_lua (reply_to_value (ReplyArray [ReplyError [Byte.x45; Byte.x00; Byte.x21]])) = Undef.
Proof. reflexivity. Qed.

(** A driver whose server did not answer has not started, and still is what others
    are connected to. *)
Lemma failed_start_is_connected i l :
  (drv_start true false i).1 = -1 /\ drv_connect (("a", (drv_start true false i).2) :: l) = inr "a".
Proof. done. Qed.

(** ** The life of instances *)

(** [instances_map()[id] = inst] and [erase] of a [std::map]. *)
Fixpoint driver_register (id : string) (i : redis_instance) (l : instances) : instances :=
  match l with
  | [] => [(id, i)]
  | (k, j) :: l =>
      match String.compare id k with
      | Eq => (id, i) :: l
      | Lt => (id, i) :: (k, j) :: l
      | Gt => (k, j) :: driver_register id i l
      end
  end.
Definition driver_unregister (id : string) (l : instances) : instances := List.filter (fun p => negb (String.eqb p.1 id)) l.

Fixpoint driver_find (id : string) (l : instances) : option redis_instance :=
  match l with
  | [] => None
  | (k, i) :: l => if String.eqb id k then Some i else driver_find id l
  end.

Definition redis_driver_create `{JsonLib} (instance_id : option string) (config_json : option string) (l : instances) : instances :=
  driver_register (default "" instance_id) (parse_redis_config config_json) l.

(** [shutdown] takes out whatever has the instance's identifier. *)
Definition redis_driver_shutdown (id : string) (l : instances) : instances := driver_unregister id l.

(** [register_lua]: the code and the namespace, which is made once, with the
    resolver of the first instance. *)
Definition redis_register_lua (has_state : bool) (resolver : option (string -> option string))
  (ns : option (string -> option string)) : Z * option (string -> option string) :=
  match has_state, resolver with
  | true, Some f => (0, match ns with Some _ => ns | None => Some f end)
  | _, _ => (1, ns)
  end.

(** [__call] of the namespace: the instance of the proxy, or nil. *)
Definition redis_namespace (ns : option (string -> option string)) (binding : string) (l : instances) : option redis_instance :=
  f ← ns; id ← f binding; driver_find id l.

Lemma driver_find_register id i l k :
  driver_find k (driver_register id i l) = if String.eqb k id then Some i else driver_find k l.
Proof.
  induction l as [|[k' j] l IH]; [done|]. cbn [driver_register]. destruct (String.compare id k') eqn:E; cbn [driver_find].
  - apply String.compare_eq_iff in E as <-. by destruct (String.eqb k id).
  - done.
  - rewrite IH. destruct (String.eqb_spec k k') as [->|]; [|done]. destruct (String.eqb_spec k' id) as [->|]; [|done].
    pose proof (String.compare_antisym id id) as Hc. rewrite E in Hc. discriminate Hc.
Qed.

Lemma driver_find_unregister id l k :
  driver_find k (driver_unregister id l) = if String.eqb k id then None else driver_find k l.
Proof.
  unfold driver_unregister. induction l as [|[k' j] l IH]; cbn; [by destruct (String.eqb k id)|].
  destruct (String.eqb_spec k' id) as [->|Hn]; cbn [negb driver_find]; rewrite IH.
  - by destruct (String.eqb k id).
  - destruct (String.eqb_spec k k') as [->|]; [|done]. by destruct (String.eqb_spec k' id).
Qed.

(** What a script gets under a binding is the instance last created under the
    identifier the host names, until one of this identifier is shut down. *)
Lemma redis_namespace_follows `{JsonLib} f binding id config l :
  f binding = Some id ->
  redis_namespace (redis_register_lua true (Some f) None).2 binding (redis_driver_create (Some id) config l)
    = Some (parse_redis_config config) /\
  redis_namespace (Some f) binding (redis_driver_shutdown id (redis_driver_create (Some id) config l)) = None.
Proof.
  intros Hf. unfold redis_namespace, redis_driver_create, redis_driver_shutdown. cbn. rewrite Hf. cbn.
  rewrite driver_find_unregister, driver_find_register, String.eqb_refl. done.
Qed.
