(* ===== verification/CacheRedis.v ===== *)
(** * CacheRedis: the Redis cache plugin (plugins/cache.redis)

    The functions of the table for other plugins, and the proxy for scripts.  A
    call of the proxy goes through the driver when the instance found one at its
    start, and through a client of its own otherwise, which is opened for the
    call. *)

From S2P Require Import Prelude Text LuaPack Json SqlPlugin RedisDriver.

(** ** Configuration *)

Record cache_instance := mkCache {
  chost : string; cport : Z; cpassword : string; cdb : Z; cpool_size : Z; cconnect_timeout_ms : Z; ccommand_timeout_ms : Z }.

Definition cache_defaults : cache_instance := mkCache "127.0.0.1" 6379 "" 0 8 5000 5000.

Definition parse_cache_config `{JsonLib} (config_json : option string) : cache_instance :=
  match config_json with
  | None | Some "" => cache_defaults
  | Some s =>
      match json_parse (bytes_of s) with
      | inr j =>
          mkCache (string_field "host" j "127.0.0.1") (int_field "port" j 6379) (string_field "password" j "")
            (int_field "db" j 0) (int_field "pool_size" j 8) (int_field "connect_timeout_ms" j 5000)
            (int_field "command_timeout_ms" j 5000)
      | inl _ => cache_defaults
      end
  end.

Definition cache_options (host : string) (port : Z) (password : string) (db pool_size connect_ms command_ms : Z) : redis_options :=
  mkOptions (if str_empty host then "localhost" else host) (positive_or port 6379)
    (if str_empty password then None else Some password) (positive_or db 0) (positive_or connect_ms 5000)
    (positive_or command_ms 5000) (positive_or pool_size 8).

(** [start]: the driver that the host knows, when its [connect] gives a handle. *)
Definition cache_start (driver : option instances) : option string :=
  match driver with
  | Some l => match drv_connect l with inr id => Some id | inl _ => None end
  | None => None
  end.

Definition cache_namespace {I} (binding_instance_id : string -> option string) (binding : string) (m : gmap string I) : option I :=
  match binding_instance_id binding with Some id => find_by_id id m | None => None end.

(** ** The functions of the table *)

(** [shield_cache_value]: the bytes are those of a C string, the length is that of
    the value. *)
Record cache_value := mkCacheValue { found : Z; data : option (list byte); data_len : Z; ttl_remaining_ms : Z }.

Definition fill_value (v : option (list byte)) : cache_value :=
  match v with
  | Some s => mkCacheValue 1 (Some (c_text s)) (signed32 (vsize s)) (-1)
  | None => mkCacheValue 0 None 0 (-1)
  end.

Definition no_value (out : cache_value) : cache_value := mkCacheValue 0 None 0 (ttl_remaining_ms out).

(** [free_value] *)
Definition free_cache_value (v : cache_value) : cache_value :=
  match data v with Some _ => mkCacheValue (found v) None 0 (ttl_remaining_ms v) | None => v end.

Section Cache.
Context `{RedisPP}.

(** A connection that is there and has a client. *)
Definition on_conn {A} (c : bool) (dflt : A) (m : st rd A) : st rd A := if c then m else sret dflt.

Definition code_of {A} (r : throws A) : Z := match r with inl _ => -1 | inr _ => 0 end.

Definition vt_get (c : bool) (key : option string) (o : cache_value) : st rd (Z * cache_value) :=
  match key with
  | Some key => on_conn c (-1, no_value o) (
      let* r := rd_get (cbytes key) in sret (match r with inr v => (0, fill_value v) | inl _ => (-1, no_value o) end))
  | None => sret (-1, no_value o)
  end.

Definition vt_set (c : bool) (key value : option string) (ttl_seconds : Z) : st rd Z :=
  match key, value with
  | Some key, Some value => on_conn c (-1) (
      let* r := rd_set (cbytes key) (cbytes value) (ttl_of ttl_seconds) in sret (code_of r))
  | _, _ => sret (-1)
  end.

Definition vt_del (c : bool) (key : option string) : st rd Z :=
  match key with
  | Some key => on_conn c (-1) (let* r := rd_del (cbytes key) in sret (code_of r))
  | None => sret (-1)
  end.

Definition vt_exists (c : bool) (key : option string) : st rd Z :=
  match key with
  | Some key => on_conn c 0 (
      let* r := rd_exists (cbytes key) in sret (match r with inr n => if 0 <? n then 1 else 0 | inl _ => 0 end))
  | None => sret 0
  end.

Definition vt_incr_by (c : bool) (key : option string) (amount : option Z) (out : option Z) : st rd (Z * option Z) :=
  match key, out with
  | Some key, Some _ => on_conn c (-1, out) (
      let* r := (match amount with None => rd_incr (cbytes key) | Some n => rd_incrby (cbytes key) n end) in
      sret (match r with inr v => (0, Some v) | inl _ => (-1, out) end))
  | _, _ => sret (-1, out)
  end.

Definition vt_hget (c : bool) (key field : option string) (o : cache_value) : st rd (Z * cache_value) :=
  match key, field with
  | Some key, Some field => on_conn c (-1, no_value o) (
      let* r := rd_hget (cbytes key) (cbytes field) in
      sret (match r with inr v => (0, fill_value v) | inl _ => (-1, no_value o) end))
  | _, _ => sret (-1, no_value o)
  end.

Definition vt_hset (c : bool) (key field value : option string) : st rd Z :=
  match key, field, value with
  | Some key, Some field, Some value => on_conn c (-1) (
      let* r := rd_hset (cbytes key) (cbytes field) (cbytes value) in sret (code_of r))
  | _, _, _ => sret (-1)
  end.

Definition vt_hdel (c : bool) (key field : option string) : st rd Z :=
  match key, field with
  | Some key, Some field => on_conn c (-1) (let* r := rd_hdel (cbytes key) (cbytes field) in sret (code_of r))
  | _, _ => sret (-1)
  end.

(** ** The proxy for scripts *)

(** Through a driver whose client is there or not, or through an own client that
    [open_redis] opens or not. *)
Inductive path := ViaDriver (ready : bool) | Own (open : st rd (throws unit)).

Definition driver_error (o : drv_out) (message : string) : outcome (list lval) :=
  if dangling o then Undef else Ret (failed "cache_query_failed" message).

(** [redis_value_to_lua_string]: a text without a pointer is nil. *)
Definition redis_value_to_lua_string (v : option rvalue) : lval :=
  match v with Some (RvString s) => if has_text_pointer (RvString s) then VStr s else VNil | _ => VNil end.

Definition own_call {A} (open : st rd (throws unit)) (m : st rd (throws A)) (values : A -> list lval)
  : st rd (outcome (list lval)) :=
  let* o := open in
  match o with
  | inl e => sret (Ret (failed "connection_failed" e))
  | inr _ =>
      let* r := m in
      sret (Ret (match r with inr a => VBool true :: values a | inl what => failed "cache_query_failed" what end))
  end.

Definition text_or_nil (o : option (list byte)) : lval := match o with Some s => VStr s | None => VNil end.

Definition proxy_get (p : path) (key : string) : st rd (outcome (list lval)) :=
  match p with
  | ViaDriver ready =>
      let* o := drv_get ready (Some key) in
      sret (if rc o =? 0 then Ret [VBool true; redis_value_to_lua_string (out o)] else driver_error o "get failed")
  | Own open => own_call open (rd_get (bytes_of key)) (fun v => [text_or_nil v])
  end.

Definition proxy_set (p : path) (key value : string) (ttl : option Z) : st rd (outcome (list lval)) :=
  match p with
  | ViaDriver ready =>
      let* o := drv_set ready (Some key) (Some value) (from_option signed32 0 ttl) in
      sret (if rc o =? 0 then Ret [VBool true] else driver_error o "set failed")
  | Own open => own_call open (rd_set (bytes_of key) (bytes_of value) (ttl ≫= ttl_of)) (fun _ => [])
  end.

Definition proxy_del (p : path) (key : string) : st rd (outcome (list lval)) :=
  match p with
  | ViaDriver ready =>
      let* o := drv_del ready (Some key) in sret (if rc o =? 0 then Ret [VBool true] else driver_error o "del failed")
  | Own open => own_call open (rd_del (bytes_of key)) (fun n => [VInt n])
  end.

(** A raw command whose answer is needed. *)
Definition driver_command (ready : bool) (argv : list (list byte)) (value : rvalue -> lval) (what : string)
  : st rd (outcome (list lval)) :=
  let* o := drv_command ready argv in
  sret (match rc o =? 0, out o with
        | true, Some v => Ret [VBool true; value v]
        | _, _ => driver_error o (what +:+ " failed")
        end).

(** [out->integer], which is zero when the answer is no number. *)
Definition integer_of (v : rvalue) : Z := match v with RvInteger z => z | _ => 0 end.

Definition proxy_exists (p : path) (key : string) : st rd (outcome (list lval)) :=
  match p with
  | ViaDriver ready =>
      driver_command ready [bytes_of "EXISTS"; bytes_of key] (fun v => VBool (0 <? integer_of v)) "exists"
  | Own open => own_call open (rd_exists (bytes_of key)) (fun n => [VBool (0 <? n)])
  end.

Definition proxy_incr (p : path) (key : string) : st rd (outcome (list lval)) :=
  match p with
  | ViaDriver ready => driver_command ready [bytes_of "INCR"; bytes_of key] (fun v => VInt (integer_of v)) "incr"
  | Own open => own_call open (rd_incr (bytes_of key)) (fun n => [VInt n])
  end.

Definition proxy_incr_by (p : path) (key : string) (amount : Z) : st rd (outcome (list lval)) :=
  match p with
  | ViaDriver ready =>
      driver_command ready [bytes_of "INCRBY"; bytes_of key; bytes_of (to_string_i64 amount)] (fun v => VInt (integer_of v)) "incr_by"
  | Own open => own_call open (rd_incrby (bytes_of key) amount) (fun n => [VInt n])
  end.

Definition proxy_hget (p : path) (key field : string) : st rd (outcome (list lval)) :=
  match p with
  | ViaDriver ready =>
      let* o := drv_hget ready (Some key) (Some field) in
      sret (if rc o =? 0 then Ret [VBool true; redis_value_to_lua_string (out o)] else driver_error o "hget failed")
  | Own open => own_call open (rd_hget (bytes_of key) (bytes_of field)) (fun v => [text_or_nil v])
  end.

Definition proxy_hset (p : path) (key field value : string) : st rd (outcome (list lval)) :=
  match p with
  | ViaDriver ready =>
      let* o := drv_hset ready (Some key) (Some field) (Some value) in
      sret (if rc o =? 0 then Ret [VBool true] else driver_error o "hset failed")
  | Own open => own_call open (rd_hset (bytes_of key) (bytes_of field) (bytes_of value)) (fun _ => [])
  end.

Definition proxy_hdel (p : path) (key field : string) : st rd (outcome (list lval)) :=
  match p with
  | ViaDriver ready =>
      let* o := drv_command ready [bytes_of "HDEL"; bytes_of key; bytes_of field] in
      sret (if rc o =? 0
            then Ret (VBool true :: match out o with Some (RvInteger z) => [VInt z] | _ => [] end)
            else driver_error o "hdel failed")
  | Own open => own_call open (rd_hdel (bytes_of key) (bytes_of field)) (fun n => [VInt n])
  end.

(** ** The two ways agree *)

Inductive cache_op :=
| CGet (key : string)
| CSet (key value : string) (ttl : option Z)
| CDel (key : string)
| CExists (key : string)
| CIncr (key : string)
| CIncrBy (key : string) (amount : Z)
| CHget (key field : string)
| CHset (key field value : string)
| CHdel (key field : string).

Definition cache_call (p : path) (c : cache_op) : st rd (outcome (list lval)) :=
  match c with
  | CGet key => proxy_get p key
  | CSet key value ttl => proxy_set p key value ttl
  | CDel key => proxy_del p key
  | CExists key => proxy_exists p key
  | CIncr key => proxy_incr p key
  | CIncrBy key amount => proxy_incr_by p key amount
  | CHget key field => proxy_hget p key field
  | CHset key field value => proxy_hset p key field value
  | CHdel key field => proxy_hdel p key field
  end.

(** The texts a C string keeps, and seconds that fit. *)
Definition plain (s : string) : bool := forallb (fun b => negb (Byte.eqb b Byte.x00)) (bytes_of s).
Definition plain_op (c : cache_op) : bool :=
  match c with
  | CGet k | CDel k => plain k
  | CSet k v ttl => plain k && plain v && match ttl with Some t => (- 2 ^ 31 <=? t) && (t <? 2 ^ 31) | None => true end
  | CHget k f => plain k && plain f
  | CHset k f v => plain k && plain f && plain v
  | _ => true
  end.

(** The named functions of the client send the commands of their names. *)
Class redis_commands : Prop := {
  command_exists : forall k s, rd_command [bytes_of "EXISTS"; k] s = (sum_map id ReplyInteger (rd_exists k s).1, (rd_exists k s).2);
  command_incr : forall k s, rd_command [bytes_of "INCR"; k] s = (sum_map id ReplyInteger (rd_incr k s).1, (rd_incr k s).2);
  command_incrby : forall k n s, rd_command [bytes_of "INCRBY"; k; bytes_of (to_string_i64 n)] s
    = (sum_map id ReplyInteger (rd_incrby k n s).1, (rd_incrby k n s).2);
  command_hdel : forall k f s, rd_command [bytes_of "HDEL"; k; f] s = (sum_map id ReplyInteger (rd_hdel k f s).1, (rd_hdel k f s).2)
}.

(** What the driver answers where the own client answers [r]: an empty text is
    nil, [del] has no count, and an error cannot be read. *)
Definition driver_view (c : cache_op) (r : list lval) : outcome (list lval) :=
  match r, c with
  | [VBool true; VStr []], (CGet _ | CHget _ _) => Ret [VBool true; VNil]
  | VBool true :: _, CDel _ => Ret [VBool true]
  | VBool true :: _, _ => Ret r
  | _, _ => Undef
  end.

Lemma cbytes_plain s : plain s = true -> cbytes s = bytes_of s.
Proof.
  unfold plain, cbytes. induction (bytes_of s) as [|b l IH]; [done|]. cbn. intros Hb. apply andb_true_iff in Hb as [Hb Hl].
  apply negb_true_iff in Hb. rewrite Hb. f_equal. by apply IH.
Qed.

Lemma signed32_small t : (- 2 ^ 31 <=? t) && (t <? 2 ^ 31) = true -> signed32 t = t.
Proof.
  intros Ht. bools. unfold signed32, cast. change (2 ^ 31) with 2147483648 in *. change (2 ^ 32) with 4294967296.
  destruct (Z.ltb_spec (t mod 4294967296) 2147483648); Z.to_euclidean_division_equations; lia.
Qed.

(** An own client that opens. *)
Definition opens : st rd (throws unit) := sret (inr tt).

Ltac both_ways :=
  unfold own_call, opens, driver_command, drv_get, drv_set, drv_del, drv_hget, drv_hset, drv_command, guarded, sbind, sret.

(** C33: the proxy of the cache does to Redis the same through the driver and
    through a client of its own, for texts without null characters, and answers
    the same, except that through the driver an empty text is nil, [del] has no
    count, and the message of an error is read from freed memory. *)
Theorem cache_paths_agree c s :
  redis_commands -> plain_op c = true ->
  exists r, (cache_call (Own opens) c s).1 = Ret r /\
    (cache_call (ViaDriver true) c s).1 = driver_view c r /\
    (cache_call (ViaDriver true) c s).2 = (cache_call (Own opens) c s).2.
Proof.
  intros Hc Hp. destruct c as [k|k v t|k|k|k|k n|k f|k f v|k f]; cbn [cache_call plain_op] in *; bools.
  - unfold proxy_get. both_ways. rewrite cbytes_plain by done. destruct (rd_get (bytes_of k) s) as [[e|[[|b l]|]] s']; by eexists.
  - unfold proxy_set. both_ways. rewrite !cbytes_plain by done.
    assert (ttl_of (from_option signed32 0 t) = t ≫= ttl_of) as ->.
    { destruct t as [t|]; [|done]. cbn. by rewrite signed32_small. }
    destruct (rd_set _ _ _ s) as [[e|[]] s']; by eexists.
  - unfold proxy_del. both_ways. rewrite cbytes_plain by done. destruct (rd_del (bytes_of k) s) as [[e|z] s']; by eexists.
  - unfold proxy_exists. both_ways. rewrite command_exists. destruct (rd_exists (bytes_of k) s) as [[e|z] s']; by eexists.
  - unfold proxy_incr. both_ways. rewrite command_incr. destruct (rd_incr (bytes_of k) s) as [[e|z] s']; by eexists.
  - unfold proxy_incr_by. both_ways. rewrite command_incrby. destruct (rd_incrby (bytes_of k) n s) as [[e|z] s']; by eexists.
  - unfold proxy_hget. both_ways. rewrite !cbytes_plain by done.
    destruct (rd_hget _ _ s) as [[e|[[|b l]|]] s']; by eexists.
  - unfold proxy_hset. both_ways. rewrite !cbytes_plain by done. destruct (rd_hset _ _ _ s) as [[e|[]] s']; by eexists.
  - unfold proxy_hdel. both_ways. rewrite command_hdel. destruct (rd_hdel _ _ s) as [[e|z] s']; by eexists.
Qed.

End Cache.

(** A Redis that has plain keys only. *)
#[local] Instance plain_redis : RedisPP := {
  rd := gmap string (list byte);
  rd_get := fun k s => (inr (s !! string_of k), s);
  rd_set := fun k v _ s => (inr tt, <[string_of k := v]> s);
  rd_del := fun k s => (inr (if s !! string_of k then 1 else 0), delete (string_of k) s);
  rd_exists := fun k s => (inr (if s !! string_of k then 1 else 0), s);
  rd_incr := fun _ s => (inl "ERR", s);
  rd_incrby := fun _ _ s => (inl "ERR", s);
  rd_hget := fun _ _ s => (inl "ERR", s);
  rd_hset := fun _ _ _ s => (inl "ERR", s);
  rd_hdel := fun _ _ s => (inl "ERR", s);
  rd_hgetall := fun _ s => (inl "ERR", s);
  rd_zadd := fun _ _ _ s => (inl "ERR", s);
  rd_zrange := fun _ _ _ s => (inl "ERR", s);
  rd_command := fun argv s =>
    (match argv with
     | [c; k] => if String.eqb (string_of c) "EXISTS" then inr (ReplyInteger (if s !! string_of k then 1 else 0)) else inl "ERR"
     | _ => inl "ERR"
     end, s);
  rd_pipeline := fun _ s => (inl "ERR", s)
}.

Lemma plain_redis_commands : redis_commands.
Proof. split; reflexivity. Qed.

Lemma cache_paths_agree_witness :
  exists r, (cache_call (Own opens) (CGet "k") {[ "k" := bytes_of "v" ]}).1 = Ret r /\
    (cache_call (ViaDriver true) (CGet "k") {[ "k" := bytes_of "v" ]}).1 = driver_view (CGet "k") r.
Proof.
  destruct (cache_paths_agree (CGet "k") {[ "k" := bytes_of "v" ]} plain_redis_commands eq_refl) as (r & H1 & H2 & _).
  exists r. exact (conj H1 H2).
Defined.

(** *** Where it falls short *)

Example empty_value_is_lost :
  (cache_call (ViaDriver true) (CGet "k") {[ "k" := [] ]}).1 = Ret [VBool true; VNil] /\
  (cache_call (Own opens) (CGet "k") {[ "k" := [] ]}).1 = Ret [VBool true; VStr []].
Proof. split; reflexivity. Qed.

Example driver_error_undefined :
  (cache_call (ViaDriver true) (CIncr "k") ∅).1 = Undef /\
  (cache_call (Own opens) (CIncr "k") ∅).1 = Ret (failed "cache_query_failed" "ERR").
Proof. split; reflexivity. Qed.

(** A value with a null character: the length goes behind the bytes. *)
Example value_longer_than_bytes :
  fill_value (Some [Byte.x61; Byte.x00; Byte.x62]) = mkCacheValue 1 (Some [Byte.x61]) 3 (-1).
Proof. reflexivity. Qed.
