(* ===== verification/QueueRedis.v ===== *)
(** * QueueRedis: the Redis queue plugin (plugins/queue.redis)

    Messages are entries of Redis streams that a group of consumers reads.  Redis
    is the class [Streams]: the commands the plugin sends, on a state of their own.
    A round of a consumer reads entries and hands each to the callback; what the
    callback got is written down.  A call that waits for a thread that never ends
    does not return, and destroying a thread that runs ends the program. *)

From S2P Require Import Prelude Text LuaPack Json Config SqlPlugin RedisDriver.

(** ** Redis *)

Class Streams := {
  sr : Type;
  sr_add : string -> list (list byte * list byte) -> sr -> throws unit * sr;
  sr_group : string -> sr -> throws unit * sr;
  sr_read : string -> string -> sr -> throws (option reply) * sr;
  sr_ack : string -> list byte -> sr -> throws unit * sr
}.

Definition group_name : string := "shield".

(** ** Configuration *)

Record queue_instance := mkQueue {
  qhost : string; qport : Z; qdb : Z; qpassword : string; qconnect_timeout_ms : Z; qcommand_timeout_ms : Z }.

Definition queue_defaults : queue_instance := mkQueue "127.0.0.1" 6379 0 "" 5000 2000.

Definition parse_queue_config `{JsonLib} (config_json : option string) : queue_instance :=
  match config_json with
  | None | Some "" => queue_defaults
  | Some s =>
      match json_parse (bytes_of s) with
      | inr j =>
          mkQueue (string_field "host" j "127.0.0.1") (int_field "port" j 6379) (int_field "db" j 0)
            (string_field "password" j "") (int_field "connect_timeout_ms" j 5000) (int_field "command_timeout_ms" j 2000)
      | inl _ => queue_defaults
      end
  end.

(** [connect] of the table corrects the options, [make_redis] of the proxy takes
    them as they are; neither gives the size of a pool, which the client then
    chooses ([o_pool] is 1 here). *)
Definition queue_connect_options (host : option string) (port : Z) (password : option string) (db connect_ms command_ms : Z)
  : redis_options :=
  mkOptions (match host with Some h => if str_empty h then "localhost" else h | None => "localhost" end) (positive_or port 6379)
    (match password with Some p => if str_empty p then None else Some p | None => None end) (positive_or db 0)
    (positive_or connect_ms 5000) (positive_or command_ms 2000) 1.

Definition make_redis_options (i : queue_instance) : redis_options :=
  mkOptions (qhost i) (qport i) (if str_empty (qpassword i) then None else Some (qpassword i)) (qdb i)
    (qconnect_timeout_ms i) (qcommand_timeout_ms i) 1.

(** [start] finds the driver like that of the cache plugin; nothing uses it. *)
Definition queue_start (driver : option instances) : option string :=
  match driver with
  | Some l => match drv_connect l with inr id => Some id | inl _ => None end
  | None => None
  end.

Definition queue_namespace {I} (binding_instance_id : string -> option string) (binding : string) (m : gmap string I) : option I :=
  match binding_instance_id binding with Some id => find_by_id id m | None => None end.

(** ** Answers of XREADGROUP *)

Definition elements (r : reply) : list reply := match r with ReplyArray l => l | _ => [] end.
Definition reply_text (r : reply) : list byte := match r with ReplyString s | ReplyStatus s | ReplyError s => s | _ => [] end.
Definition is_text (r : reply) : bool := match r with ReplyString _ | ReplyStatus _ | ReplyError _ => true | _ => false end.

(** The value of the field [payload], among keys and values in turn. *)
Fixpoint payload_of (fields : list reply) : list byte :=
  match fields with
  | key :: val :: rest =>
      if is_text key && String.eqb (string_of (reply_text key)) "payload" then reply_text val else payload_of rest
  | _ => []
  end.

Definition entry_of (e : reply) : option (list byte * list byte) :=
  match elements e with
  | id :: fields :: _ => Some (reply_text id, payload_of (elements fields))
  | _ => None
  end.

Definition stream_entries (r : reply) : list (list byte * list byte) :=
  match elements r with
  | _ :: entries :: _ => omap entry_of (elements entries)
  | _ => []
  end.

Definition entries_of (r : option reply) : list (list byte * list byte) :=
  match r with Some r => flat_map stream_entries (elements r) | None => [] end.

(** ** Consumers *)

Section Queue.
Context `{Streams}.

Record world := mkWorld { redis : sr; delivered : list (string * list byte) }.

Definition on_redis {A} (f : sr -> throws A * sr) : st world (throws A) := fun w =>
  let '(r, s) := f (redis w) in (r, mkWorld s (delivered w)).

(** The callback; a C++ one may throw, which ends the round. *)
Definition call_back (throws_on : list byte -> bool) (channel : string) (payload : list byte) : st world bool := fun w =>
  (throws_on payload, mkWorld (redis w) (delivered w ++ [(channel, payload)])).

(** The entries of a round: [subscribed] is whether there is still a callback for
    the channel.  An entry without one is not acknowledged. *)
Fixpoint dispatch_all (subscribed : bool) (throws_on : list byte -> bool) (channel : string)
    (entries : list (list byte * list byte)) : st world unit :=
  match entries with
  | [] => sret tt
  | (id, payload) :: rest =>
      if subscribed then
        let* thrown := call_back throws_on channel payload in
        if thrown then sret tt
        else
          let* _ := on_redis (sr_ack channel id) in
          dispatch_all subscribed throws_on channel rest
      else dispatch_all subscribed throws_on channel rest
  end.

(** One round of [consumer_loop]. *)
Definition consume_round (subscribed : bool) (throws_on : list byte -> bool) (channel consumer : string) : st world unit :=
  let* r := on_redis (sr_read channel consumer) in
  match r with
  | inl _ => sret tt
  | inr result => dispatch_all subscribed throws_on channel (entries_of result)
  end.

(** The loop, as long as [running] is set. *)
Fixpoint consumer_loop (rounds : nat) (subscribed : bool) (throws_on : list byte -> bool) (channel consumer : string)
  : st world unit :=
  match rounds with
  | O => sret tt
  | S rounds =>
      let* _ := consume_round subscribed throws_on channel consumer in
      consumer_loop rounds subscribed throws_on channel consumer
  end.

(** The thread of a Lua subscription: an error of the callback is caught, and the
    entry is acknowledged like every other. *)
Definition lua_consumer_loop (rounds : nat) (channel : string) : st world unit :=
  consumer_loop rounds true (fun _ => false) channel ("shield-lua-" +:+ channel).

(** ** The functions of the table *)

(** [ensure_group]: the group may exist. *)
Fixpoint contains_text (needle s : string) : bool :=
  String.prefix needle s || match s with EmptyString => false | String _ s => contains_text needle s end.

Definition ensure_group (channel : string) : st world (throws unit) :=
  let* r := on_redis (sr_group channel) in
  sret (match r with
        | inl what => if contains_text "BUSYGROUP" what then inr tt else inl what
        | inr _ => inr tt
        end).

(** [data_len > 0 ? data_len : strlen(data)] of a buffer that ends with a null. *)
Definition message_bytes (data : list byte) (data_len : Z) : outcome (list byte) :=
  if 0 <? data_len then (if vsize data <? data_len then Undef else Ret (take (Z.to_nat data_len) data))
  else Ret (c_text data).

Definition vt_publish (c : bool) (channel : option string) (data : option (list byte)) (data_len : Z) : st world (outcome Z) :=
  match c, channel, data with
  | true, Some channel, Some data =>
      match message_bytes data data_len with
      | Ret msg => let* r := on_redis (sr_add (c_string channel) [(bytes_of "payload", msg)]) in sret (Ret (match r with inr _ => 0 | inl _ => -1 end))
      | Throw e => sret (Throw e)
      | Undef => sret Undef
      end
  | _, _, _ => sret (Ret (-1))
  end.

(** How a call ends. *)
Inductive ending (A : Type) := Returns (a : A) | Terminates | Hangs.
Arguments Returns {A} a.
Arguments Terminates {A}.
Arguments Hangs {A}.

(** [shield_queue_conn]: the callbacks and the threads by channel. *)
Record conn := mkConn { running : bool; subs : gset string; workers : gset string }.

Definition new_conn : conn := mkConn true ∅ ∅.

(** A thread ends only when [running] is cleared. *)
Definition joins {A} (c : conn) (a : A) : ending A := if running c then Hangs else Returns a.

Definition vt_subscribe (c : conn) (channel : option string) : st world (ending (Z * conn)) :=
  match channel with
  | None => sret (Returns (-1, c))
  | Some channel =>
      let ch := c_string channel in
      let* r := ensure_group ch in
      sret (match r with
            | inl _ => Returns (-1, c)
            | inr _ =>
                if bool_decide (ch ∈ workers c) then Terminates
                else Returns (0, mkConn (running c) ({[ ch ]} ∪ subs c) ({[ ch ]} ∪ workers c))
            end)
  end.

Definition vt_unsubscribe (c : conn) (channel : option string) : ending (Z * conn) :=
  match channel with
  | None => Returns (-1, c)
  | Some channel =>
      let ch := c_string channel in
      let c := mkConn (running c) (subs c ∖ {[ ch ]}) (workers c) in
      if bool_decide (ch ∈ workers c) then joins c (0, mkConn (running c) (subs c) (workers c ∖ {[ ch ]}))
      else Returns (0, c)
  end.

(** [disconnect] clears [running] first. *)
Definition vt_disconnect (c : conn) : ending unit := joins (mkConn false (subs c) (workers c)) tt.

(** ** Messages of scripts *)

Context `{JsonLib} (key_integer : Z -> Z).

Definition key_number (k : lval) : option Z :=
  match k with VInt z => Some z | VNum bits => Some (key_integer bits) | _ => None end.

(** Whether all keys are positive numbers, and the largest, as an [int]. *)
Fixpoint max_index (entries : list (lval * json)) (m : Z) : option Z :=
  match entries with
  | [] => Some m
  | (k, _) :: rest =>
      match key_number k with
      | Some i => if i <? 1 then None else max_index rest (if m <? i then signed32 i else m)
      | None => None
      end
  end.

Fixpoint place_all (entries : list (lval * json)) (tmp : list json) : outcome (list json) :=
  match entries with
  | [] => Ret tmp
  | (k, j) :: rest =>
      let i := signed32 (default 0 (key_number k)) - 1 in
      if (0 <=? i) && (i <? vsize tmp) then place_all rest (<[Z.to_nat i := j]> tmp) else Undef
  end.

Definition object_key (k : lval) : option string :=
  match k with
  | VStr s => Some (string_of s)
  | VInt z => Some (to_string_i64 z)
  | VNum bits => Some (to_string_i64 (key_integer bits))
  | _ => None
  end.

Definition object_of (entries : list (lval * json)) : json :=
  JObj (foldl (fun o e => match object_key e.1 with Some k => obj_set k e.2 o | None => o end) [] entries).

Definition table_json (entries : list (lval * json)) : outcome json :=
  match max_index entries 0 with
  | Some m =>
      if 0 <? m then let! l := place_all entries (replicate (Z.to_nat m) JNull) in Ret (JArr l)
      else Ret (object_of entries)
  | None => Ret (object_of entries)
  end.

(** [encode] of [lua_to_message]; whether a float counts as an integer is sol2's. *)
Context (float_integer : Z -> option Z).

Definition number_json (bits : Z) : json :=
  match float_integer bits with Some z => JInt z | None => JFloat (double_of_bits bits) end.

Fixpoint encode_message (v : lval) : outcome json :=
  match v with
  | VBool b => Ret (JBool b)
  | VInt z => Ret (JInt z)
  | VNum bits => Ret (number_json bits)
  | VStr s => Ret (JStr (string_of s))
  | VTable entries =>
      let! l := (fix all (l : list (lval * lval)) : outcome (list (lval * json)) :=
                   match l with
                   | [] => Ret []
                   | (k, x) :: l => let! j := encode_message x in let! r := all l in Ret ((k, j) :: r)
                   end) entries in
      table_json l
  | _ => Ret JNull
  end.

Definition lua_to_message (v : lval) : outcome (throws (list byte)) :=
  match v with
  | VNil => Ret (inl "message is nil")
  | VStr s => Ret (inr s)
  | VBool _ | VInt _ | VNum _ | VTable _ =>
      let! j := encode_message v in
      Ret (match json_dump j with inr t => inr (bytes_of t) | inl e => inl (exn_what e) end)
  | _ => Ret (inl "unsupported message type")
  end.

(** ** The proxy for scripts *)

Definition lua_publish (open : st world (throws unit)) (channel : string) (message : lval) : st world (outcome (list lval)) :=
  match lua_to_message message with
  | Ret (inr msg) =>
      let* o := open in
      match o with
      | inl e => sret (Ret (failed "connection_failed" e))
      | inr _ =>
          let* r := on_redis (sr_add channel [(bytes_of "payload", msg)]) in
          sret (Ret (match r with inr _ => [VBool true] | inl what => failed "redis_command_failed" what end))
      end
  | Ret (inl e) => sret (Ret (failed "invalid_message" e))
  | Throw e => sret (Throw e)
  | Undef => sret Undef
  end.

(** [subscribe]: the channels that have a subscription. *)
Definition lua_subscribe (open : st world (throws unit)) (channel : string) (channels : gset string)
  : st world (list lval * gset string) :=
  if bool_decide (channel ∈ channels)
  then sret (failed "already_subscribed" "channel already has a subscriber; unsubscribe first", channels)
  else
    let* o := open in
    match o with
    | inl e => sret (failed "connection_failed" e, channels)
    | inr _ =>
        let* g := ensure_group channel in
        sret (match g with
              | inl what => (failed "redis_command_failed" what, channels)
              | inr _ => ([VBool true], {[ channel ]} ∪ channels)
              end)
    end.

(** [stop_one]: [running] of the subscription is cleared before its thread is
    waited for. *)
Definition lua_unsubscribe (channel : string) (channels : gset string) : list lval * gset string :=
  ([VBool true], channels ∖ {[ channel ]}).

End Queue.

Arguments Returns {A} a.
Arguments Terminates {A}.
Arguments Hangs {A}.

(** ** Delivery *)

(** An entry of a stream as Redis keeps it: its id, and its fields with their
    values; and how the answer to XREADGROUP spells entries. *)
Abbreviation entry := (list byte * list (list byte * list byte))%type.

Definition entry_reply (e : entry) : reply :=
  ReplyArray [ReplyString e.1; ReplyArray (flat_map (fun f => [ReplyString f.1; ReplyString f.2]) e.2)].
Definition read_reply (channel : string) (l : list entry) : reply :=
  ReplyArray [ReplyArray [ReplyString (bytes_of channel); ReplyArray (map entry_reply l)]].

(** The message an entry carries: the first value of its field [payload]. *)
Definition is_payload (f : list byte * list byte) : Prop := f.1 = bytes_of "payload".
#[local] Instance is_payload_dec f : Decision (is_payload f).
Proof. unfold is_payload. apply list_eq_dec, Byte.byte_eq_dec. Defined.
Definition message (e : entry) : list byte := default [] ((fun p => p.2.2) <$> list_find is_payload e.2).

(** What Redis documents of a stream and of the cursor of a group: an XADD that is
    answered has added its one entry, and one that is not answered may have; an
    answered XREADGROUP with [>] has given out the entries it answers with, which
    are the next ones behind the cursor, or none; one that is not answered may have
    given out some too; acknowledging does not bring entries back. *)
Class StreamLaws `{Streams} := {
  stream : sr -> string -> list entry;
  cursor : sr -> string -> nat;
  add_law : forall ch fields s s', sr_add ch fields s = (inr tt, s') ->
    (exists id, stream s' ch = stream s ch ++ [(id, fields)]) /\ cursor s' ch = cursor s ch;
  add_error_law : forall ch fields s e s', sr_add ch fields s = (inl e, s') ->
    (stream s' ch = stream s ch \/ exists id, stream s' ch = stream s ch ++ [(id, fields)]) /\ cursor s' ch = cursor s ch;
  read_law : forall ch consumer s r s', sr_read ch consumer s = (inr r, s') -> exists n,
    let given := take n (drop (cursor s ch) (stream s ch)) in
    (given = [] /\ (r = None \/ r = Some ReplyNil) \/ r = Some (read_reply ch given)) /\
    stream s' ch = stream s ch /\ cursor s' ch = (cursor s ch + length given)%nat;
  read_error_law : forall ch consumer s e s', sr_read ch consumer s = (inl e, s') ->
    stream s' ch = stream s ch /\ (cursor s ch <= cursor s' ch)%nat;
  cursor_law : forall ch s, (cursor s ch <= length (stream s ch))%nat;
  ack_law : forall ch id s, stream (sr_ack ch id s).2 ch = stream s ch /\ cursor (sr_ack ch id s).2 ch = cursor s ch
}.

(** The parser of the loop reads back what the answer spells. *)
Definition parsed (e : entry) : list byte * list byte := (e.1, message e).

Lemma payload_of_fields fields :
  payload_of (flat_map (fun f => [ReplyString f.1; ReplyString f.2]) fields)
  = default [] ((fun p : nat * (list byte * list byte) => p.2.2) <$> list_find is_payload fields).
Proof.
  induction fields as [|[k v] fields IH]; [done|]. cbn [flat_map app payload_of list_find is_text reply_text andb fst snd].
  destruct (decide (is_payload (k, v))) as [Hp|Hp]; unfold is_payload in Hp; cbn [fst] in Hp.
  - by rewrite Hp.
  - destruct (String.eqb_spec (string_of k) "payload") as [E|_].
    + destruct Hp. by rewrite <-E, bytes_of_string_of.
    + rewrite IH. by destruct (list_find is_payload fields) as [[]|].
Qed.

Lemma entries_of_reply ch l : entries_of (Some (read_reply ch l)) = map parsed l.
Proof.
  unfold entries_of, read_reply. cbn [elements flat_map stream_entries]. rewrite app_nil_r.
  induction l as [|[id fields] l IH]; [done|]. cbn [map omap list_omap entry_of entry_reply elements reply_text fst snd].
  rewrite payload_of_fields. by rewrite IH.
Qed.

Section Delivery.
Context `{StreamLaws} (throws_on : list byte -> bool) (channel consumer : string).

(** What happens to a channel, in any order: a client of the table publishes, or a
    consumer has a round. *)
Inductive queue_step := Publish (payload : list byte) | Round.

(** A step, and whether Redis answered it. *)
Definition queue_do (q : queue_step) : st world bool := fun w =>
  match q with
  | Publish payload =>
      let '(r, w') := vt_publish true (Some channel) (Some payload) (vsize payload) w in
      (match r with Ret 0 => true | _ => false end, w')
  | Round =>
      (match (sr_read channel consumer (redis w)).1 with inr _ => true | inl _ => false end,
       (consume_round true throws_on channel consumer w).2)
  end.

Fixpoint queue_run (qs : list queue_step) : st world (list (queue_step * bool)) :=
  match qs with
  | [] => sret []
  | q :: qs => let* answered := queue_do q in let* log := queue_run qs in sret ((q, answered) :: log)
  end.

(** The messages that publishing brought into the stream. *)
Inductive came_in : list (queue_step * bool) -> list (list byte) -> Prop :=
| came_in_nil : came_in [] []
| came_in_round b log l : came_in log l -> came_in ((Round, b) :: log) l
| came_in_published m log l : came_in log l -> came_in ((Publish m, true) :: log) (m :: l)
| came_in_failed m log l : came_in log l -> came_in ((Publish m, false) :: log) l
| came_in_unanswered m log l : came_in log l -> came_in ((Publish m, false) :: log) (m :: l).

(** No answer to a read was lost. *)
Definition reads_answered (log : list (queue_step * bool)) : Prop := forall b, (Round, b) ∈ log -> b = true.

Definition messages (w : world) : list (list byte) := map message (stream (redis w) channel).
Definition read_to (w : world) : nat := cursor (redis w) channel.

(** What the group was given between two states. *)
Definition given_since (w w' : world) : list (list byte) := drop (read_to w) (take (read_to w') (messages w')).

Definition calls (l : list (list byte)) : list (string * list byte) := map (pair channel) l.

(** The messages up to the first one whose callback throws. *)
Fixpoint until_thrown (l : list (list byte)) : list (list byte) :=
  match l with [] => [] | m :: l => if throws_on m then [m] else m :: until_thrown l end.

Lemma until_thrown_sublist l : sublist (until_thrown l) l.
Proof.
  induction l as [|m l IH]; cbn; [constructor|]. destruct (throws_on m); [apply sublist_skip, sublist_nil_l|by apply sublist_skip].
Qed.

Lemma until_thrown_all l : (forall x, throws_on x = false) -> until_thrown l = l.
Proof. intros Hn. induction l as [|m l IH]; cbn; [done|]. by rewrite Hn, IH. Qed.

Lemma dispatch_spec entries w :
  let w' := (dispatch_all true throws_on channel entries w).2 in
  delivered w' = delivered w ++ calls (until_thrown (map snd entries)) /\
  stream (redis w') channel = stream (redis w) channel /\ cursor (redis w') channel = cursor (redis w) channel.
Proof.
  revert w. induction entries as [|[id payload] rest IH]; intros w; cbn [dispatch_all until_thrown map snd].
  { cbn. by rewrite app_nil_r. }
  unfold sbind, call_back, on_redis. cbn [snd]. destruct (throws_on payload); [by cbn|].
  cbn [redis delivered]. destruct (ack_law channel id (redis w)) as [Hs Hc].
  destruct (sr_ack channel id (redis w)) as [r s]. cbn [fst snd] in *.
  destruct (IH (mkWorld s (delivered w ++ [(channel, payload)]))) as (I1 & I2 & I3). cbn [redis delivered] in *.
  rewrite I1, I2, I3, Hs, Hc, <-app_assoc. by split_and!.
Qed.

(** What happened from [w] to [w']: [fresh] came in, the group was given [given],
    and of it the callback got [calls']; all of it when [full]. *)
Record step_done (w w' : world) (fresh calls' given : list (list byte)) (full : Prop) : Prop := {
  sd_messages : messages w' = messages w ++ fresh;
  sd_calls : delivered w' = delivered w ++ calls calls';
  sd_given : given_since w w' = given;
  sd_sub : sublist calls' given;
  sd_full : full -> (forall x, throws_on x = false) -> calls' = given;
  sd_forth : (read_to w <= read_to w')%nat
}.

Lemma read_to_le w : (read_to w <= length (messages w))%nat.
Proof. unfold read_to, messages. rewrite length_map. apply cursor_law. Qed.

(** Steps one after the other. *)
Lemma steps_app w1 w2 w3 f1 f2 c1 c2 g1 g2 (p1 p2 : Prop) :
  step_done w1 w2 f1 c1 g1 p1 -> step_done w2 w3 f2 c2 g2 p2 -> step_done w1 w3 (f1 ++ f2) (c1 ++ c2) (g1 ++ g2) (p1 /\ p2).
Proof.
  intros [M1 C1 G1 S1 F1 L1] [M2 C2 G2 S2 F2 L2]. split.
  - by rewrite M2, M1, app_assoc.
  - rewrite C2, C1, <-app_assoc. unfold calls. by rewrite map_app.
  - pose proof (read_to_le w2). rewrite <-G1, <-G2. unfold given_since. rewrite M2. revert L1 L2 H1.
    generalize (read_to w1) (read_to w2) (read_to w3) (messages w2). intros a b c m L1 L2 Hb.
    rewrite <-(take_drop b (take c (m ++ f2))) at 1. rewrite drop_app_le by (rewrite length_take, length_take, length_app; lia).
    rewrite take_take, Nat.min_l, take_app_le by lia. done.
  - by apply sublist_app.
  - intros [P1 P2] Hn. by rewrite (F1 P1 Hn), (F2 P2 Hn).
  - lia.
Qed.

Lemma step_none w : step_done w w [] [] [] True.
Proof.
  split; rewrite ?app_nil_r; [done|done| |done|done|done]. unfold given_since. by rewrite drop_ge by (rewrite length_take; lia).
Qed.

Hypothesis plain_channel : c_string channel = channel.

(** What a step, answered or not, brings in. *)
Definition brings (q : queue_step) (answered : bool) (fresh : list (list byte)) : Prop :=
  match q with
  | Publish m => fresh = [m] \/ answered = false /\ fresh = []
  | Round => fresh = []
  end.

Lemma published_message id m : message (id, [(bytes_of "payload", m)]) = m.
Proof. reflexivity. Qed.

Lemma message_bytes_all payload : message_bytes payload (vsize payload) = Ret payload.
Proof.
  unfold message_bytes. rewrite Z.ltb_irrefl. destruct payload as [|b l]; [done|].
  unfold vsize. destruct (Z.ltb_spec 0 (Z.of_nat (length (b :: l)))); [by rewrite Nat2Z.id, firstn_all|cbn in *; lia].
Qed.

(** A step that leaves the cursor and the callbacks alone. *)
Lemma step_adds w s fresh : map message (stream s channel) = messages w ++ fresh -> cursor s channel = read_to w ->
  step_done w (mkWorld s (delivered w)) fresh [] [] True.
Proof.
  intros Hs Hc. split; cbn [delivered]; rewrite ?app_nil_r; [done|done| |done|done|].
  - unfold given_since, read_to at 2. cbn [redis]. rewrite Hc. rewrite drop_ge by (rewrite length_take; lia). done.
  - unfold read_to at 2. cbn [redis]. by rewrite Hc.
Qed.

Lemma publish_done w m : exists fresh,
  let r := queue_do (Publish m) w in
  brings (Publish m) r.1 fresh /\ step_done w r.2 fresh [] [] True.
Proof.
  cbn [queue_do]. unfold vt_publish, on_redis, sbind, sret. rewrite message_bytes_all, plain_channel.
  assert (Hm : forall id, map message (stream (redis w) channel ++ [(id, [(bytes_of "payload", m)])]) = messages w ++ [m]).
  { intros id. by rewrite map_app. }
  destruct (sr_add channel [(bytes_of "payload", m)] (redis w)) as [[e|[]] s] eqn:E; cbn [fst snd brings].
  - destruct (add_error_law _ _ _ _ _ E) as [[Hs|[id Hs]] Hc].
    + exists []. split; [by right|]. apply step_adds; [by rewrite Hs, app_nil_r|done].
    + exists [m]. split; [by left|]. apply step_adds; [by rewrite Hs, Hm|done].
  - destruct (add_law _ _ _ _ E) as [[id Hs] Hc]. exists [m]. split; [by left|]. apply step_adds; [by rewrite Hs, Hm|done].
Qed.

Lemma given_take {A} n c (l : list A) : drop c (take (c + length (take n (drop c l))) l) = take n (drop c l).
Proof.
  rewrite <-take_drop_commute, length_take.
  destruct (Nat.min_spec n (length (drop c l))) as [[_ ->]|[Hl ->]]; [done|]. by rewrite !take_ge by lia.
Qed.

Lemma round_done w : exists got given,
  let r := queue_do Round w in step_done w r.2 [] got given (r.1 = true).
Proof.
  cbn [queue_do]. unfold consume_round, sbind, on_redis. pose proof (cursor_law channel (redis w)) as Hlen.
  destruct (sr_read channel consumer (redis w)) as [[e|r] s] eqn:Er; cbn [fst snd sret].
  - destruct (read_error_law _ _ _ _ _ Er) as [Es Ec]. eexists [], _.
    split; [by unfold messages; cbn [redis]; rewrite Es, app_nil_r|by cbn; rewrite app_nil_r|reflexivity|apply sublist_nil_l|done|exact Ec].
  - destruct (read_law _ _ _ _ _ Er) as (n & Ha & Es & Ec). cbv zeta in *.
    set (given := take n (drop (cursor (redis w) channel) (stream (redis w) channel))) in *.
    assert (He : entries_of r = map parsed given).
    { destruct Ha as [[-> [->| ->]]| ->]; [done..|apply entries_of_reply]. }
    destruct (dispatch_spec (entries_of r) (mkWorld s (delivered w))) as (D1 & D2 & D3). cbv zeta in *.
    set (w' := (dispatch_all true throws_on channel (entries_of r) (mkWorld s (delivered w))).2) in *.
    cbn [redis delivered] in *. rewrite He, map_map in D1. cbn [parsed snd] in D1.
    exists (until_thrown (map message given)), (map message given). split.
    + unfold messages. by rewrite D2, Es, app_nil_r.
    + exact D1.
    + unfold given_since, read_to, messages. rewrite D2, D3, Es, Ec, firstn_map, skipn_map. f_equal. apply given_take.
    + apply until_thrown_sublist.
    + intros _ Hno. by apply until_thrown_all.
    + unfold read_to. rewrite D3, Ec. lia.
Qed.

Lemma step_weaken w w' f c g (p p' : Prop) : (p' -> p) -> step_done w w' f c g p -> step_done w w' f c g p'.
Proof. intros Hp []. split; auto. Qed.

Lemma run_done qs w : exists fresh got given,
  let r := queue_run qs w in
  map fst r.1 = qs /\ came_in r.1 fresh /\ step_done w r.2 fresh got given (reads_answered r.1).
Proof.
  revert w. induction qs as [|q qs IH]; intros w.
  { exists [], [], []. split_and!; [done|constructor|by eapply step_weaken, step_none]. }
  cbn [queue_run]. unfold sbind, sret.
  assert (Hq : exists fresh got given, let r := queue_do q w in
    brings q r.1 fresh /\ step_done w r.2 fresh got given (q = Round -> r.1 = true)).
  { destruct q as [m|].
    - destruct (publish_done w m) as (f & Hb & Hs). exists f, [], []. split; [done|]. by eapply step_weaken, Hs.
    - destruct (round_done w) as (got & given & Hs). exists [], got, given. split; [done|]. eapply step_weaken, Hs. auto. }
  destruct Hq as (f & c & g & Hb & Hs). destruct (queue_do q w) as [b w1]. cbn [fst snd] in *.
  destruct (IH w1) as (f' & c' & g' & El & Hc & Hs'). destruct (queue_run qs w1) as [log w2]. cbn [fst snd map] in *.
  exists (f ++ f'), (c ++ c'), (g ++ g'). split_and!; [by rewrite El| |].
  - destruct q as [m|]; cbn in Hb; [|subst; by constructor].
    destruct Hb as [->|[-> ->]]; [destruct b|]; by constructor.
  - eapply step_weaken, steps_app; [|exact Hs|exact Hs']. intros Ha. split.
    + intros ->. apply (Ha b). left.
    + intros b' Hin. apply (Ha b'). by right.
Qed.

End Delivery.

(** C34: clients publish on a channel while a consumer of the group has its rounds,
    in any order, and Redis may leave any command unanswered.  The stream grows by
    the published messages, in their order, each once; of a publication that was
    not answered, by the message or not at all.  The callback gets messages of what
    the group was given meanwhile, a stretch of the stream, in its order and each at
    most once.  When no answer to a read is lost and no callback throws, it gets
    all of them, without a gap; a lost answer or an exception costs the callback
    the messages that came with it ([lost_answer_loses_messages],
    [thrown_message_is_lost]). *)
Theorem queue_delivers_in_order `{StreamLaws} throws_on channel consumer qs w :
  c_string channel = channel ->
  exists fresh got,
    let r := queue_run throws_on channel consumer qs w in
    map fst r.1 = qs /\ came_in r.1 fresh /\
    messages channel r.2 = messages channel w ++ fresh /\
    delivered r.2 = delivered w ++ calls channel got /\
    sublist got (given_since channel w r.2) /\
    (reads_answered r.1 -> (forall x, throws_on x = false) -> got = given_since channel w r.2).
Proof.
  intros Hp. destruct (run_done throws_on channel consumer Hp qs w) as (fresh & got & given & E & Hc & []).
  exists fresh, got. subst given. by split_and!.
Qed.

(** A Redis with one stream: what the group was given, what it was not, and how
    many of the next reads are not answered in time. *)
Record one := mkOne { given_out : list entry; waiting : list entry; slow : nat }.

Definition one_read (ch : string) (s : one) : throws (option reply) * one :=
  let next := take 10 (waiting s) in
  let after := mkOne (given_out s ++ next) (drop 10 (waiting s)) (pred (slow s)) in
  match slow s, next with
  | S _, _ => (inl "Failed to get reply: Resource temporarily unavailable", after)
  | O, [] => (inr (Some ReplyNil), after)
  | O, _ => (inr (Some (read_reply ch next)), after)
  end.

#[local] Instance one_stream : Streams := {
  sr := one;
  sr_add := fun _ fields s =>
    (inr tt, mkOne (given_out s)
       (waiting s ++ [(bytes_of (to_string_u64 (vsize (given_out s ++ waiting s))), fields)]) (slow s));
  sr_group := fun _ s => (inl "BUSYGROUP Consumer Group name already exists", s);
  sr_read := fun ch _ s => one_read ch s;
  sr_ack := fun _ _ s => (inr tt, s)
}.

#[local] Instance one_stream_laws : StreamLaws.
Proof.
  refine {| stream s _ := given_out s ++ waiting s; cursor s _ := length (given_out s) |}.
  - intros ch fields [a b k] s' [= <-]. cbn. split; [|done]. eexists. by rewrite app_assoc.
  - intros ch fields s e s' Hr. done.
  - intros ch consumer [a b k] r s' Hr. exists 10%nat. cbn -[take drop] in *. rewrite drop_app_length. cbv zeta.
    destruct k as [|k]; cbn -[take drop] in Hr; [|done].
    assert (Ha : (take 10 b = [] /\ r = Some ReplyNil \/ r = Some (read_reply ch (take 10 b))) /\ s' = mkOne (a ++ take 10 b) (drop 10 b) 0)
      by (destruct (take 10 b); simplify_eq; auto).
    destruct Ha as [Ha ->]. cbn -[take drop]. rewrite <-app_assoc, take_drop, length_app. split_and!; [|done|done].
    destruct Ha as [[E ->]|E]; auto.
  - intros ch consumer [a b k] e s' Hr. cbn -[take drop] in *.
    destruct k as [|k]; cbn -[take drop] in Hr; [destruct (take 10 b); done|]. simplify_eq. cbn -[take drop].
    rewrite <-app_assoc, take_drop, length_app. split; [done|lia].
  - intros ch [a b k]. cbn. rewrite length_app. lia.
  - done.
Defined.

Definition queue_world (slow : nat) : world := @mkWorld one_stream (mkOne [] [] slow) [].
Definition hello : list byte := bytes_of "hello".
Definition bye : list byte := bytes_of "bye".

Lemma queue_delivers_in_order_witness :
  exists fresh got,
    let r := queue_run (fun _ => false) "ch" "shield-ch" [Publish hello; Publish bye; Round] (queue_world 0) in
    came_in r.1 fresh /\ delivered r.2 = [] ++ calls "ch" got /\ got = given_since "ch" (queue_world 0) r.2.
Proof.
  destruct (queue_delivers_in_order (fun _ => false) "ch" "shield-ch" [Publish hello; Publish bye; Round] (queue_world 0) eq_refl)
    as (fresh & got & _ & Hc & _ & Hd & _ & Hg).
  exists fresh, got. split; [exact Hc|]. split; [exact Hd|]. apply Hg; [|done].
  intros b Hb. vm_compute in Hb. change ((Round, b) ∈ [(Publish hello, true); (Publish bye, true); (Round, true)]) in Hb.
  repeat (apply elem_of_cons in Hb as [Hb|Hb]; [by simplify_eq|]). by apply elem_of_nil in Hb.
Defined.

Definition delivered_of (throws_on : list byte -> bool) (slow : nat) (qs : list queue_step) : list (string * list byte) :=
  delivered (queue_run throws_on "ch" "shield-ch" qs (queue_world slow)).2.

Example both_delivered : delivered_of (fun _ => false) 0 [Publish hello; Publish bye; Round] = [("ch", hello); ("ch", bye)].
Proof. vm_compute. reflexivity. Qed.

(** *** Where it fails *)

(** The loop lets Redis wait for two seconds, which is also how long its client
    waits for an answer unless it is configured: an answer that comes too late takes
    its messages along, since no round reads them again. *)
Example lost_answer_loses_messages :
  delivered_of (fun _ => false) 1 [Publish hello; Round; Publish bye; Round; Round] = [("ch", bye)].
Proof. vm_compute. reflexivity. Qed.

(** A callback that throws loses its message and those that were read with it:
    no round reads them again. *)
Example thrown_message_is_lost :
  delivered_of (fun p => bool_decide (length p = 5%nat)) 0 [Publish hello; Publish bye; Round; Round; Round] = [("ch", hello)].
Proof. vm_compute. reflexivity. Qed.

(** The first call of [unsubscribe] waits for a thread that does not end, and a
    second [subscribe] of a channel destroys a thread that runs. *)
Lemma unsubscribe_hangs c channel :
  running c = true -> c_string channel ∈ workers c -> vt_unsubscribe c (Some channel) = Hangs.
Proof. intros Hr Hw. unfold vt_unsubscribe, joins. cbn. by rewrite bool_decide_true, Hr by done. Qed.

Lemma second_subscribe_terminates `{Streams} c channel w :
  c_string channel ∈ workers c -> (exists w', ensure_group (c_string channel) w = (inr tt, w')) ->
  (vt_subscribe c (Some channel) w).1 = Terminates.
Proof.
  intros Hc (w' & Hg). unfold vt_subscribe. rewrite (sbind_eq _ _ _ _ _ Hg). cbn. by rewrite bool_decide_true.
Qed.

Example subscribing_twice :
  match vt_subscribe new_conn (Some "ch") (queue_world 0) with
  | (Returns (0, c), w) => (vt_subscribe c (Some "ch") w).1 = Terminates /\ vt_unsubscribe c (Some "ch") = Hangs
  | _ => False
  end.
Proof. vm_compute. split; reflexivity. Qed.
