(* ===== verification/MongoJson.v ===== *)
(** * MongoJson: Lua values as documents and back (plugins/mongodb)

    The MongoDB plugin has conversions of its own, to the JSON text it gives to the
    driver and from the text it gets back.  A Lua number always becomes a JSON
    float; one conversion after the other gives the value with doubles in the place
    of its integers.  Between them is the driver, which reads extended JSON: what
    is spelled like [{"$numberLong": "7"}] is stored as an integer. *)

From Stdlib Require Import Floats.SpecFloat Sorting.Sorted.
From S2P Require Import Prelude Text Json Schema LuaPack LuaJson SqlPlugin RedisDriver.

(** ** From Lua *)

(** What sol2 makes of a float key as an [int], and of a key that is neither a
    number nor a text as a text. *)
Class DocKeys := { float_as_int : Z -> Z; odd_key_text : lval -> string }.

Section FromLua.
Context `{DocKeys}.

Definition doc_key_int (k : lval) : option Z :=
  match k with VInt z => Some (signed32 z) | VNum bits => Some (float_as_int bits) | _ => None end.

(** The loop that looks for an array: whether it is one so far, the greatest
    index and the entries counted; a key that is no number ends it. *)
Fixpoint scan_numbers (entries : list (lval * lval)) (max_index count : Z) : bool * Z * Z :=
  match entries with
  | [] => (true, max_index, count)
  | (k, _) :: rest =>
      match doc_key_int k with
      | Some idx => scan_numbers rest (Z.max max_index idx) (count + 1)
      | None => (false, max_index, count + 1)
      end
  end.

Definition doc_key_text (k : lval) : string :=
  match k with
  | VStr s => string_of s
  | VInt z => to_string_i64 (signed32 z)
  | VNum bits => to_string_i64 (float_as_int bits)
  | _ => odd_key_text k
  end.

(** [lua_to_json], with the depth of tables it goes into. *)
Fixpoint to_document (fuel : nat) (v : lval) : json :=
  match v with
  | VNil => JNull
  | VBool b => JBool b
  | VInt z => JFloat (double_of_Z z)
  | VNum bits => JFloat (double_of_bits bits)
  | VStr s => JStr (string_of s)
  | VHandle _ | VOther => JNull
  | VTable entries =>
      match fuel with
      | O => JNull
      | S fuel =>
          let '(is_array, max_index, count) := scan_numbers entries 0 0 in
          if is_array && (0 <? count) && (max_index =? count) then
            JArr (map (fun i => to_document fuel (table_get (VInt i) entries)) (seqZ 1 max_index))
          else if count =? 0 then JObj []
          else JObj (foldl (fun o e => obj_set (doc_key_text e.1) (to_document fuel e.2) o) [] entries)
      end
  end.

Definition mongo_lua_to_json (v : lval) : json := to_document (height v) v.
End FromLua.

(** ** To Lua *)

(** A member whose value is nil is not there, an element leaves a hole. *)
Fixpoint mongo_json_to_lua (j : json) : lval :=
  match j with
  | JNull => VNil
  | JBool b => VBool b
  | JInt z => VInt z
  | JUInt z => VInt (signed64 z)
  | JFloat f => VNum (bits_of_double f)
  | JStr s => VStr (bytes_of s)
  | JArr l => VTable (holed 1 (map mongo_json_to_lua l))
  | JObj l => VTable (foldl (fun t e => set_field e.1 e.2 t) [] (map (fun e => (e.1, mongo_json_to_lua e.2)) l))
  end.

(** ** Enough depth *)

Lemma height_get i entries : (height (table_get (VInt i) entries) < height (VTable entries))%nat.
Proof.
  assert (Hg : table_get (VInt i) entries = VNil \/ table_get (VInt i) entries ∈ entries.*2).
  { induction entries as [|[k v] entries IH]; cbn [table_get fmap list_fmap snd]; [by left|].
    destruct (key_eqb (VInt i) k); [right; by left|]. destruct IH as [IH|IH]; [by left|right; by right]. }
  destruct Hg as [->|Hg]; [cbn; lia|]. by apply height_value.
Qed.

Lemma to_document_enough `{DocKeys} n : forall m v,
  (height v <= n)%nat -> (height v <= m)%nat -> to_document n v = to_document m v.
Proof.
  induction n as [|n IH]; intros [|m] v Hn Hm; destruct v as [|b|z|bits|s|entries|id|]; try done; try (cbn in Hn, Hm; lia).
  cbn [to_document]. destruct (scan_numbers entries 0 0) as [[is_array max_index] count].
  destruct (is_array && _ && _); [|destruct (count =? 0); [done|]]; f_equal.
  - apply map_ext. intros i. pose proof (height_get i entries). apply IH; lia.
  - assert (Hs : forall e, e ∈ entries -> to_document n e.2 = to_document m e.2).
    { intros e He. pose proof (height_value entries e.2 (list_elem_of_fmap_2 snd _ _ He)). apply IH; lia. }
    clear Hn Hm. generalize (@nil (string * json)). induction entries as [|e entries IHe]; intros o; cbn [foldl]; [done|].
    rewrite Hs by (by left). apply IHe. intros e' He'. apply Hs. by right.
Qed.

(** ** What comes back *)

(** The value with doubles in the place of integers; keys stay. *)
Fixpoint floats (v : lval) : lval :=
  match v with
  | VInt z => VNum (bits_of_double (double_of_Z z))
  | VTable entries => VTable (map (fun e => (e.1, floats e.2)) entries)
  | _ => v
  end.

(** Arrays without holes and tables of texts, down to plain values. *)
Inductive document : lval -> Prop :=
| doc_nil : document VNil
| doc_bool b : document (VBool b)
| doc_int z : document (VInt z)
| doc_num bits : 0 <= bits < 2 ^ 64 -> double_of_bits bits <> S754_nan -> document (VNum bits)
| doc_str s : document (VStr s)
| doc_array vs :
    vs <> [] -> vsize vs < 2 ^ 31 - 1 -> Forall (fun v => document v /\ v <> VNil) vs -> document (VTable (array_entries 1 vs))
| doc_record members :
    StronglySorted before members -> Forall (fun e => document e.2 /\ e.2 <> VNil) members ->
    document (VTable (record members)).

Lemma floats_nil v : floats v = VNil -> v = VNil.
Proof. by destruct v. Qed.

Lemma floats_array start vs :
  map (fun e => (e.1, floats e.2)) (array_entries start vs) = array_entries start (map floats vs).
Proof.
  revert start. induction vs as [|v vs IH]; intros start; [done|]. by rewrite map_cons, !array_entries_cons, map_cons, IH.
Qed.

Lemma holed_array start vs : Forall (fun v => v <> VNil) vs -> holed start vs = array_entries start vs.
Proof.
  intros Hn. revert start. induction Hn as [|v vs Hv _ IH]; intros start; [done|]. rewrite array_entries_cons, <-IH.
  by destruct v.
Qed.

Lemma scan_numbers_array `{DocKeys} start vs m n :
  0 <= start -> start + vsize vs < 2 ^ 31 -> m = start - 1 -> 0 <= m ->
  scan_numbers (array_entries start vs) m n = (true, m + vsize vs, n + vsize vs).
Proof.
  revert start m n. induction vs as [|v vs IH]; intros start m n Hs Hb -> Hm.
  - cbn. by rewrite (@vsize_nil lval), !Z.add_0_r.
  - rewrite array_entries_cons, vsize_cons in *. pose proof (vsize_nonneg vs). cbn [scan_numbers doc_key_int].
    assert (E : signed32 start = start).
    { unfold signed32. rewrite cast_small by lia. by rewrite (proj2 (Z.ltb_lt _ _)) by lia. }
    rewrite E, (IH (start + 1)) by lia. f_equal; [f_equal|]; lia.
Qed.

Lemma record_document `{DocKeys} fuel members done_ :
  StronglySorted before members ->
  Forall (fun e => Forall (fun o : string * json => String.compare o.1 e.1 = Lt) done_) members ->
  foldl (fun o e => obj_set (doc_key_text e.1) (to_document fuel e.2) o) done_ (record members)
  = done_ ++ map (fun e => (e.1, to_document fuel e.2)) members.
Proof.
  revert done_. induction members as [|[k v] members IH]; intros done_ Hs Hd; cbn [record map foldl]; [by rewrite app_nil_r|].
  apply StronglySorted_inv in Hs as [Hs Hk]. apply Forall_cons_iff in Hd as [Hd0 Hd]. cbn [fst snd doc_key_text] in *.
  rewrite string_of_bytes_of, obj_set_last by done. unfold record in IH. rewrite IH; [by rewrite <-app_assoc|done|].
  apply List.Forall_forall. intros e He. apply Forall_app. rewrite List.Forall_forall in Hd, Hk.
  split; [by apply Hd|]. apply Forall_singleton. exact (Hk e He).
Qed.

Lemma set_fields_record members done_ :
  Forall (fun e : string * lval => e.2 <> VNil) members -> NoDup (done_ ++ members).*1 ->
  foldl (fun t e => set_field e.1 e.2 t) (record done_) members = record (done_ ++ members).
Proof.
  intros Hn. revert done_. induction Hn as [|[k v] members Hv _ IH]; intros done_ Hnd; cbn [foldl]; [by rewrite app_nil_r|].
  cbn [fst snd] in *. assert (E : set_field k v (record done_) = record (done_ ++ [(k, v)])).
  { transitivity (table_put (text k) v (record done_)); [by destruct v|]. unfold record at 2. rewrite map_app. cbn [map fst snd].
    apply table_put_fresh. intros e He. unfold record in He. apply list_elem_of_In, in_map_iff in He as ([k0 v0] & <- & Hin).
    cbn [fst snd text key_eqb]. rewrite !string_of_bytes_of. apply String.eqb_neq. intros ->.
    rewrite fmap_app in Hnd. apply list.NoDup_app in Hnd as (_ & Hnd & _).
    apply (Hnd k0); [apply list_elem_of_In in Hin; apply list_elem_of_fmap; by exists (k0, v0)|by left]. }
  rewrite E, IH; rewrite <-app_assoc; done.
Qed.

Lemma document_returns `{DocKeys} fuel : forall v,
  document v -> (height v <= fuel)%nat -> mongo_json_to_lua (to_document fuel v) = floats v.
Proof.
  induction fuel as [|fuel IH]; intros v Hd Hh;
    destruct Hd as [|b|z|bits Hb Hn|s|vs Hnil Hlen Hvs|members Hs Hall]; try done; try (cbn in Hh; lia).
  all: try (cbn; by rewrite double_bits).
  all: try (cbn; by rewrite bytes_of_string_of).
  - cbn [to_document floats]. pose proof (vsize_nonneg vs).
    assert (0 < vsize vs) by (destruct vs; [done|rewrite vsize_cons; pose proof (vsize_nonneg vs); lia]).
    rewrite (scan_numbers_array 1 vs 0 0), Z.add_0_l, Z.eqb_refl by lia. rewrite (proj2 (Z.ltb_lt 0 _)) by lia.
    cbn [andb mongo_json_to_lua]. rewrite <-(map_map (fun i => table_get (VInt i) (array_entries 1 vs)) (to_document fuel)), array_get.
    f_equal. rewrite floats_array, map_map.
    assert (Hm : map (fun x => mongo_json_to_lua (to_document fuel x)) vs = map floats vs).
    { apply map_ext_in. intros v Hv. rewrite List.Forall_forall in Hvs. apply IH; [by apply Hvs|].
      apply list_elem_of_In in Hv. pose proof (height_value (array_entries 1 vs) v) as Hhv.
      rewrite array_values in Hhv. specialize (Hhv Hv). lia. }
    rewrite Hm. apply holed_array. apply List.Forall_forall. intros x (v & <- & Hv)%in_map_iff Hx.
    rewrite List.Forall_forall in Hvs. by apply (Hvs v Hv), floats_nil.
  - cbn [to_document floats]. destruct members as [|e0 members]; [done|]. set (ms := e0 :: members) in *.
    assert (Hsc : scan_numbers (record ms) 0 0 = (false, 0, 1)) by done. rewrite Hsc. cbn [andb Z.eqb].
    rewrite record_document by (done || (apply List.Forall_forall; constructor)). cbn [app mongo_json_to_lua]. rewrite map_map. cbn [fst snd].
    assert (Hm : map (fun e => (e.1, mongo_json_to_lua (to_document fuel e.2))) ms = map (fun e => (e.1, floats e.2)) ms).
    { apply map_ext_in. intros e He. f_equal. rewrite List.Forall_forall in Hall. apply IH; [by apply Hall|].
      pose proof (height_value (record ms) e.2) as Hhv. unfold record in Hhv at 1. rewrite <- list_fmap_compose in Hhv.
      specialize (Hhv ltac:(apply list_elem_of_fmap; exists e; split; [done|by apply list_elem_of_In])). lia. }
    rewrite Hm. change (@nil (lval * lval)) with (record []). rewrite set_fields_record.
    + cbn [app]. unfold record. by rewrite !map_map.
    + apply List.Forall_forall. intros x (e & <- & He)%in_map_iff Hx. rewrite List.Forall_forall in Hall.
      cbn in Hx. by apply (Hall e He), floats_nil.
    + cbn [app]. rewrite <-list_fmap_compose. apply (sorted_nodup ms Hs).
Qed.

(** ** Properties *)

(** C40: the JSON that the plugin makes of a Lua value, an array without holes or a
    table with texts for keys, listed in their order, down to plain values other
    than NaN, becomes the same value when it is converted back: every key, every text and every position is there, and a
    double is in the place of every integer. *)
Theorem document_roundtrip `{DocKeys} v : document v -> mongo_json_to_lua (mongo_lua_to_json v) = floats v.
Proof. intros Hv. by apply document_returns. Qed.

#[local] Instance whole_keys : DocKeys := {| float_as_int _ := 0; odd_key_text _ := "" |}.

Definition sample_player : lval :=
  VTable (record [("level", VInt 7); ("tags", VTable (array_entries 1 [VStr (bytes_of "new"); VBool true]))]).

Lemma document_roundtrip_witness :
  mongo_json_to_lua (mongo_lua_to_json sample_player) = floats sample_player.
Proof.
  apply (document_roundtrip sample_player). unfold sample_player.
  apply doc_record; [repeat constructor|]. repeat constructor; cbn [snd]; discriminate.
Defined.

(** ** What does not survive *)

(** A large integer is another number when it comes back. *)
Example document_integer_rounded :
  mongo_json_to_lua (mongo_lua_to_json (VInt (2 ^ 53 + 1))) = VNum (bits_of_double (double_of_Z (2 ^ 53))).
Proof. vm_compute. reflexivity. Qed.

(** Keys need not be positive for a table to count as an array: what is not at the
    positions is lost, and null takes its place. *)
Example negative_key_lost :
  mongo_lua_to_json (VTable [(VInt (-1), VStr (bytes_of "a")); (VInt 2, VStr (bytes_of "b"))]) = JArr [JNull; JStr "b"].
Proof. vm_compute. reflexivity. Qed.

(** An empty table is an object, also where an array is meant. *)
Example empty_list_is_object :
  mongo_lua_to_json (VTable (record [("tags", VTable [])])) = JObj [("tags", JObj [])].
Proof. vm_compute. reflexivity. Qed.
