(* ===== verification/Mongodb.v ===== *)
(** * Mongodb: the MongoDB plugin (plugins/mongodb/shield_doc_mongodb.cpp)

    The proxy for scripts, the proxy of a transaction, and the functions of the
    table for other plugins.  The driver is a parameter: [Bson] its documents,
    [MongoCxx] its clients, sessions and collections, on a state of its own.
    Getting a collection asks the server nothing, so that a call is one [run].
    The model writes down what was done with which client of the pool. *)

From S2P Require Import Prelude Text LuaPack Json SqlPlugin MongoJson.

(** ** The driver *)

(** The classes that [map_exception] asks for; an exception may be in several. *)
Inductive exn_class := ConnectionTimeout | OperationException | LogicException | BulkWriteException | BsonException.

#[export] Instance exn_class_eq_dec : EqDecision exn_class.
Proof. solve_decision. Defined.

Record mongo_exn := mkExn { what : string; classes : list exn_class }.

Definition json_exn (e : exn) : mongo_exn := mkExn (exn_what e) [].

(** [stale_view]: what a view gives whose document has been destroyed. *)
Class Bson := {
  bson : Type;
  bson_value : Type;
  bson_parse : string -> mongo_exn + bson;
  bson_json : bson -> string;
  empty_document : bson;
  get_document : bson_value -> mongo_exn + bson;
  stale_view : bson -> outcome bson
}.

Section Commands.
Context `{Bson}.

Record insert_result := mkInserted { ins_count : Z; ins_id : option bson_value }.
Record update_result := mkUpdated { upd_matched : Z; upd_modified : Z; upd_upserted : Z; upd_id : option bson_value }.

Inductive command :=
| CPing
| CFind (filter : bson)
| CFindOne (filter : bson)
| CInsertOne (doc : bson)
| CInsertMany (docs : list bson)
| CUpdateOne (filter update : bson) (upsert : option bool)
| CUpdateMany (filter update : bson)
| CDeleteOne (filter : bson)
| CDeleteMany (filter : bson)
| CCount (filter : bson)
| CAggregate (stages : list bson)
| CCreateIndex (keys : bson) (name : option string) (unique : option bool)
| CDropIndex (name : string).

(** A write that is not acknowledged has no result. *)
Definition reply (c : command) : Type :=
  match c with
  | CFind _ | CAggregate _ => list bson
  | CFindOne _ => option bson
  | CInsertOne _ => option insert_result
  | CInsertMany _ | CDeleteOne _ | CDeleteMany _ => option Z
  | CUpdateOne _ _ _ | CUpdateMany _ _ => option update_result
  | CCount _ => Z
  | CCreateIndex _ _ _ => string
  | CPing | CDropIndex _ => unit
  end.

Definition command_name (c : command) : string :=
  match c with
  | CPing => "ping" | CFind _ => "find" | CFindOne _ => "find_one" | CInsertOne _ => "insert_one"
  | CInsertMany _ => "insert_many" | CUpdateOne _ _ _ => "update_one" | CUpdateMany _ _ => "update_many"
  | CDeleteOne _ => "delete_one" | CDeleteMany _ => "delete_many" | CCount _ => "count"
  | CAggregate _ => "aggregate" | CCreateIndex _ _ _ => "create_index" | CDropIndex _ => "drop_index"
  end.
End Commands.

(** Clients of the pool and clients of their own; sessions of a client; commands
    on a collection of a database, in a session or outside.  [uri_database] throws
    for a text that is no URI. *)
Class MongoCxx `{Bson} := {
  mc : Type;
  uri_database : string -> mongo_exn + string;
  mc_acquire : list nat -> mc -> (mongo_exn + nat) * mc;
  mc_give : nat -> mc -> mc;
  mc_client : string -> mc -> (mongo_exn + nat) * mc;
  mc_run : nat -> option nat -> string -> string -> forall c : command, mc -> (mongo_exn + reply c) * mc;
  mc_start_session : nat -> mc -> (mongo_exn + nat) * mc;
  mc_start_transaction : nat -> mc -> (mongo_exn + unit) * mc;
  mc_commit : nat -> mc -> (mongo_exn + unit) * mc;
  mc_abort : nat -> mc -> (mongo_exn + unit) * mc;
  mc_end_session : nat -> mc -> mc
}.


(** ** Configuration *)

Record mongo_instance := mkMongo {
  uri_string : string;
  database_name : string;
  connect_timeout_ms : Z;
  socket_timeout_ms : Z;
  pool_size : Z;
  config_database : string;
  has_pool : bool
}.

Definition mongo_defaults : mongo_instance := mkMongo "" "" 5000 30000 4 "" false.

Definition parse_mongo_config `{JsonLib} (config_json : option string) : mongo_instance :=
  match config_json with
  | None | Some "" => mongo_defaults
  | Some s =>
      match json_parse (bytes_of s) with
      | inr j =>
          mkMongo (string_field "uri" j "") (string_field "database" j "") (int_field "connect_timeout_ms" j 5000)
            (int_field "socket_timeout_ms" j 30000) (int_field "pool_size" j 4) "" false
      | inl _ => mongo_defaults
      end
  end.

Definition resolve_database (inst : mongo_instance) : string :=
  if negb (str_empty (database_name inst)) then database_name inst
  else if negb (str_empty (config_database inst)) then config_database inst
  else "test".

(** [mongo_create]; [pool_made] says what became of the pool.  The URI is all that
    is given to it. *)
Definition mongo_create `{JsonLib, MongoCxx} (pool_made : string -> mongo_exn + unit) (id config_json : option string)
    (m : gmap string mongo_instance) : Z * gmap string mongo_instance :=
  let i := parse_mongo_config config_json in
  let uri := if str_empty (uri_string i) then "mongodb://localhost:27017" else uri_string i in
  match (let? db := uri_database uri in let? _ := pool_made uri in inr db) with
  | inl _ => (1, m)
  | inr db =>
      (0, register_instance (default "" id)
            (mkMongo uri (database_name i) (connect_timeout_ms i) (socket_timeout_ms i) (pool_size i) db true) m)
  end.

Definition mongo_shutdown (id : string) (m : gmap string mongo_instance) : gmap string mongo_instance :=
  unregister_instance id m.

Definition mongo_namespace (binding_instance_id : string -> option string) (binding : string)
    (m : gmap string mongo_instance) : option mongo_instance :=
  match binding_instance_id binding with Some id => find_by_id id m | None => None end.

(** ** Errors *)

Definition is_a (c : exn_class) (e : mongo_exn) : bool := bool_decide (c ∈ classes e).

Definition map_exception (e : mongo_exn) : string :=
  if is_a ConnectionTimeout e then "connection_failed"
  else if is_a OperationException e then "db_query_failed"
  else if is_a LogicException e then "plugin_error"
  else if is_a BulkWriteException e then "db_query_failed"
  else if is_a BsonException e then "mapper_unsafe_sql"
  else "db_query_failed".

(** ** Texts and documents *)

Section Mongo.
Context `{JsonLib, DocKeys, MongoCxx}.

Definition of_json {A} (r : exn + A) : mongo_exn + A := match r with inr a => inr a | inl e => inl (json_exn e) end.

Definition lua_to_json_string (v : lval) : mongo_exn + string := of_json (json_dump (mongo_lua_to_json v)).

(** The filter of the instance's proxy: nil is everything. *)
Definition filter_or_all (v : lval) : mongo_exn + string :=
  match v with VNil => inr "{}" | _ => lua_to_json_string v end.

(** What a loop over a JSON value meets. *)
Definition looped_over (j : json) : list json :=
  match j with JArr l => l | JObj o => map snd o | JNull => [] | _ => [j] end.

Fixpoint each {A B} (f : A -> mongo_exn + B) (l : list A) : mongo_exn + list B :=
  match l with
  | [] => inr []
  | a :: l => let? b := f a in let? r := each f l in inr (b :: r)
  end.

Definition docs_of (j : json) : mongo_exn + list bson :=
  each (fun d => let? t := of_json (json_dump d) in bson_parse t) (looped_over j).

Definition doc_value (d : bson) : mongo_exn + json := of_json (json_parse (bytes_of (bson_json d))).

Definition docs_json (docs : list bson) : mongo_exn + list json := each doc_value docs.

(** ** Calls *)

Record world := mkWorld { state : mc; used : list nat; log : list event }.

Definition is_ok {E A} (r : E + A) : bool := match r with inr _ => true | inl _ => false end.

Definition attempt (A : Type) : Type := st world (mongo_exn + A).
Definition lift {A} (r : mongo_exn + A) : attempt A := sret r.
Definition abind {A B} (m : attempt A) (k : A -> attempt B) : attempt B :=
  let* r := m in match r with inl e => sret (inl e) | inr a => k a end.

#[local] Notation "'let^' x := m 'in' k" := (abind m (fun x => k)) (at level 10, x name, m at level 100, k at level 200).

Definition run (client : nat) (session : option nat) (db coll : string) (c : command) : attempt (reply c) := fun w =>
  let '(r, l) := mc_run client session db coll c (state w) in
  (r, mkWorld l (used w) (log w ++ [Statement client (command_name c)])).

(** What a function of a proxy answers. *)
Definition answered (m : attempt (list lval)) : st world (list lval) :=
  let* r := m in sret (match r with inr l => l | inl e => failed (map_exception e) (what e) end).

Definition id_value (id : bson_value) : mongo_exn + lval :=
  let? d := get_document id in let? j := doc_value d in inr (mongo_json_to_lua j).

Definition insert_table (res : option insert_result) : mongo_exn + lval :=
  match res with
  | None => inr (VTable [(text "inserted_count", VInt 0)])
  | Some r =>
      let t := [(text "inserted_count", VInt (ins_count r))] in
      match ins_id r with
      | Some id => let? v := id_value id in inr (VTable (set_field "inserted_id" v t))
      | None => inr (VTable t)
      end
  end.

Definition counts_table (r : update_result) : list (lval * lval) :=
  [(text "matched_count", VInt (upd_matched r)); (text "modified_count", VInt (upd_modified r))].

Definition update_table (res : option update_result) : mongo_exn + lval :=
  match res with
  | None => inr (VTable [])
  | Some r =>
      match 0 <? upd_upserted r, upd_id r with
      | true, Some id => let? v := id_value id in inr (VTable (set_field "upserted_id" v (counts_table r)))
      | _, _ => inr (VTable (counts_table r))
      end
  end.

Definition deleted_table (res : option Z) : lval :=
  VTable (match res with Some n => [(text "deleted_count", VInt n)] | None => [] end).

(** A flag or a name among the options, when these are a table. *)
Definition bool_option (name : string) (opts : lval) : option bool :=
  match opts with
  | VTable _ => match get name (mongo_lua_to_json opts) with Some (JBool b) => Some b | _ => None end
  | _ => None
  end.
Definition name_option (opts : lval) : option string :=
  match opts with
  | VTable _ => match get "name" (mongo_lua_to_json opts) with Some (JStr s) => Some s | _ => None end
  | _ => None
  end.

(** ** What both proxies do *)

Section On.
Context (client : nat) (session : option nat) (db coll : string).

Definition parsed (t : mongo_exn + string) : attempt bson := lift (let? t := t in bson_parse t).

Definition find_on (filter : mongo_exn + string) : attempt (list lval) :=
  let^ d := parsed filter in
  let^ docs := run client session db coll (CFind d) in
  let^ js := lift (docs_json docs) in
  lift (inr [VBool true; mongo_json_to_lua (JArr js)]).

(** [true] is pushed before the document is converted, and stays in front of the
    error if that throws. *)
Definition find_one_on (filter : mongo_exn + string) : attempt (list lval) :=
  let^ d := parsed filter in
  let^ maybe := run client session db coll (CFindOne d) in
  match maybe with
  | Some d =>
      lift (inr (VBool true :: match doc_value d with
                               | inr j => [mongo_json_to_lua j]
                               | inl e => failed (map_exception e) (what e)
                               end))
  | None => lift (inr [VBool true; VNil])
  end.

Definition insert_one_on (doc : lval) : attempt (list lval) :=
  let^ d := parsed (lua_to_json_string doc) in
  let^ res := run client session db coll (CInsertOne d) in
  let^ t := lift (insert_table res) in
  lift (inr [VBool true; t]).

Definition insert_many_on (docs : lval) : attempt (list lval) :=
  let^ ds := lift (docs_of (mongo_lua_to_json docs)) in
  let^ res := run client session db coll (CInsertMany ds) in
  lift (inr [VBool true; VTable [(text "inserted_count", VInt (default 0 res))]]).

(** The compiler may parse the update before the filter. *)
Definition update_one_on (filter update opts : lval) : attempt (list lval) :=
  let^ f := parsed (lua_to_json_string filter) in
  let^ u := parsed (lua_to_json_string update) in
  let^ res := run client session db coll (CUpdateOne f u (bool_option "upsert" opts)) in
  let^ t := lift (update_table res) in
  lift (inr [VBool true; t]).

Definition update_many_on (filter update : lval) : attempt (list lval) :=
  let^ f := parsed (lua_to_json_string filter) in
  let^ u := parsed (lua_to_json_string update) in
  let^ res := run client session db coll (CUpdateMany f u) in
  lift (inr [VBool true; VTable (from_option counts_table [] res)]).

Definition delete_one_on (filter : lval) : attempt (list lval) :=
  let^ f := parsed (lua_to_json_string filter) in
  let^ res := run client session db coll (CDeleteOne f) in
  lift (inr [VBool true; deleted_table res]).

Definition delete_many_on (filter : lval) : attempt (list lval) :=
  let^ f := parsed (lua_to_json_string filter) in
  let^ res := run client session db coll (CDeleteMany f) in
  lift (inr [VBool true; deleted_table res]).

Definition count_on (filter : mongo_exn + string) : attempt (list lval) :=
  let^ f := parsed filter in
  let^ n := run client session db coll (CCount f) in
  lift (inr [VBool true; VInt n]).

Definition aggregate_on (pipeline : lval) : attempt (list lval) :=
  let^ stages := lift (docs_of (mongo_lua_to_json pipeline)) in
  let^ docs := run client session db coll (CAggregate stages) in
  let^ js := lift (docs_json docs) in
  lift (inr [VBool true; mongo_json_to_lua (JArr js)]).
End On.

(** ** The proxy of a transaction *)

Section SessionProxy.
Context (inst : mongo_instance) (client session : nat).

#[local] Abbreviation in_session f := (f client (Some session) (resolve_database inst)).

Definition session_find (coll : string) (filter : lval) : st world (list lval) :=
  answered (in_session find_on coll (lua_to_json_string filter)).
Definition session_find_one (coll : string) (filter : lval) : st world (list lval) :=
  answered (in_session find_one_on coll (lua_to_json_string filter)).
Definition session_insert_one (coll : string) (doc : lval) : st world (list lval) :=
  answered (in_session insert_one_on coll doc).
Definition session_insert_many (coll : string) (docs : lval) : st world (list lval) :=
  answered (in_session insert_many_on coll docs).
Definition session_update_one (coll : string) (filter update opts : lval) : st world (list lval) :=
  answered (in_session update_one_on coll filter update opts).
Definition session_update_many (coll : string) (filter update : lval) : st world (list lval) :=
  answered (in_session update_many_on coll filter update).
Definition session_delete_one (coll : string) (filter : lval) : st world (list lval) :=
  answered (in_session delete_one_on coll filter).
Definition session_delete_many (coll : string) (filter : lval) : st world (list lval) :=
  answered (in_session delete_many_on coll filter).
Definition session_count_documents (coll : string) (filter : lval) : st world (list lval) :=
  answered (in_session count_on coll (lua_to_json_string filter)).
Definition session_aggregate (coll : string) (pipeline : lval) : st world (list lval) :=
  answered (in_session aggregate_on coll pipeline).
End SessionProxy.

(** ** The proxy of an instance *)

Definition acquire_client (inst : mongo_instance) : st world (string + nat) := fun w =>
  if negb (has_pool inst) then (inl "mongodb: pool not initialized", w)
  else
    let '(r, l) := mc_acquire (used w) (state w) in
    match r with
    | inr c => (inr c, mkWorld l (c :: used w) (log w ++ [Acquired c]))
    | inl e => (inl ("mongodb: pool acquire failed: " +:+ what e), mkWorld l (used w) (log w))
    end.

(** [~pool_guard] gives the entry back to its pool; [bad] is never set. *)
Definition give_client (c : nat) : st world unit := fun w =>
  (tt, mkWorld (mc_give c (state w)) (without c (used w)) (log w ++ [Released c false])).

Definition with_client (inst : mongo_instance) (body : nat -> st world (list lval)) : st world (list lval) :=
  let* g := acquire_client inst in
  match g with
  | inl e => sret (failed "connection_failed" e)
  | inr c => let* r := body c in let* _ := give_client c in sret r
  end.

Section InstanceProxy.
Context (inst : mongo_instance).

#[local] Abbreviation pooled body := (with_client inst (fun c => answered (body c None (resolve_database inst)))).

Definition proxy_find (coll : string) (filter : lval) : st world (list lval) :=
  pooled (fun c s db => find_on c s db coll (filter_or_all filter)).
Definition proxy_find_one (coll : string) (filter : lval) : st world (list lval) :=
  pooled (fun c s db => find_one_on c s db coll (filter_or_all filter)).
Definition proxy_insert_one (coll : string) (doc : lval) : st world (list lval) :=
  pooled (fun c s db => insert_one_on c s db coll doc).
Definition proxy_insert_many (coll : string) (docs : lval) : st world (list lval) :=
  pooled (fun c s db => insert_many_on c s db coll docs).
Definition proxy_update_one (coll : string) (filter update opts : lval) : st world (list lval) :=
  pooled (fun c s db => update_one_on c s db coll filter update opts).
Definition proxy_update_many (coll : string) (filter update : lval) : st world (list lval) :=
  pooled (fun c s db => update_many_on c s db coll filter update).
Definition proxy_delete_one (coll : string) (filter : lval) : st world (list lval) :=
  pooled (fun c s db => delete_one_on c s db coll filter).
Definition proxy_delete_many (coll : string) (filter : lval) : st world (list lval) :=
  pooled (fun c s db => delete_many_on c s db coll filter).
Definition proxy_count (coll : string) (filter : lval) : st world (list lval) :=
  pooled (fun c s db => count_on c s db coll (filter_or_all filter)).
Definition proxy_aggregate (coll : string) (pipeline : lval) : st world (list lval) :=
  pooled (fun c s db => aggregate_on c s db coll pipeline).

Definition proxy_create_index (coll : string) (keys opts : lval) : st world (list lval) :=
  pooled (fun c s db =>
    let^ k := parsed (lua_to_json_string keys) in
    let^ name := run c s db coll (CCreateIndex k (name_option opts) (bool_option "unique" opts)) in
    lift (inr [VBool true; text name])).

Definition proxy_drop_index (coll name : string) : st world (list lval) :=
  pooled (fun c s db => let^ _ := run c s db coll (CDropIndex name) in lift (inr [VBool true])).

(** ** Transactions *)

(** A session with a transaction; a session whose transaction does not start is
    ended. *)
Definition begin_on (c : nat) : attempt nat := fun w =>
  let logged ok l := mkWorld l (used w) (log w ++ [Command c "start_transaction" ok]) in
  match mc_start_session c (state w) with
  | (inl e, l) => (inl e, logged false l)
  | (inr s, l) =>
      match mc_start_transaction s l with
      | (inl e, l) => (inl e, logged false (mc_end_session s l))
      | (inr _, l) => (inr s, logged true l)
      end
  end.

Definition last_command (r : result) : string := if commits r then "commit_transaction" else "abort_transaction".

Definition end_on (c s : nat) (r : result) : attempt unit := fun w =>
  let '(t, l) := (if commits r then mc_commit s else mc_abort s) (state w) in
  (t, mkWorld (mc_end_session s l) (used w) (log w ++ [Command c (last_command r) (is_ok t)])).

(** The answer when the last command threw. *)
Definition ended_badly (r : result) (e : mongo_exn) : list lval :=
  if str_empty (what e)
  then rolled_back (match r with None => "callback raised an error" | Some _ => "callback returned false" end)
  else failed (map_exception e) (what e).

Definition mongo_transaction_with (callback : nat -> nat -> st world result) : st world (list lval) :=
  with_client inst (fun c =>
    let* b := begin_on c in
    match b with
    | inl e => sret (failed (map_exception e) (what e))
    | inr s =>
        let* cb_res := callback c s in
        let* t := end_on c s cb_res in
        sret (match t with inl e => ended_badly cb_res e | inr _ => settled cb_res end)
    end).
End InstanceProxy.

(** ** Functions of scripts *)

Inductive doc_op :=
| Find (coll : string) (filter : lval)
| FindOne (coll : string) (filter : lval)
| InsertOne (coll : string) (doc : lval)
| InsertMany (coll : string) (docs : lval)
| UpdateOne (coll : string) (filter update opts : lval)
| UpdateMany (coll : string) (filter update : lval)
| DeleteOne (coll : string) (filter : lval)
| DeleteMany (coll : string) (filter : lval)
| Count (coll : string) (filter : lval)
| Aggregate (coll : string) (pipeline : lval)
| CreateIndex (coll : string) (keys opts : lval)
| DropIndex (coll name : string).

(** The proxy of a transaction has no functions for indexes. *)
Definition session_op (inst : mongo_instance) (c s : nat) (o : doc_op) : option (st world (list lval)) :=
  match o with
  | Find coll f => Some (session_find inst c s coll f)
  | FindOne coll f => Some (session_find_one inst c s coll f)
  | InsertOne coll d => Some (session_insert_one inst c s coll d)
  | InsertMany coll d => Some (session_insert_many inst c s coll d)
  | UpdateOne coll f u o => Some (session_update_one inst c s coll f u o)
  | UpdateMany coll f u => Some (session_update_many inst c s coll f u)
  | DeleteOne coll f => Some (session_delete_one inst c s coll f)
  | DeleteMany coll f => Some (session_delete_many inst c s coll f)
  | Count coll f => Some (session_count_documents inst c s coll f)
  | Aggregate coll p => Some (session_aggregate inst c s coll p)
  | CreateIndex _ _ _ | DropIndex _ _ => None
  end.

Definition proxy_op (inst : mongo_instance) (o : doc_op) : st world (list lval) :=
  match o with
  | Find coll f => proxy_find inst coll f
  | FindOne coll f => proxy_find_one inst coll f
  | InsertOne coll d => proxy_insert_one inst coll d
  | InsertMany coll d => proxy_insert_many inst coll d
  | UpdateOne coll f u o => proxy_update_one inst coll f u o
  | UpdateMany coll f u => proxy_update_many inst coll f u
  | DeleteOne coll f => proxy_delete_one inst coll f
  | DeleteMany coll f => proxy_delete_many inst coll f
  | Count coll f => proxy_count inst coll f
  | Aggregate coll p => proxy_aggregate inst coll p
  | CreateIndex coll k o => proxy_create_index inst coll k o
  | DropIndex coll n => proxy_drop_index inst coll n
  end.

(** A function of a script: calls of the proxies of the transactions it is in and
    of the instance, and transactions of its own. *)
Inductive doc_script :=
| Returns (values : list lval)
| Raises
| OnTx (level : nat) (o : doc_op) (k : list lval -> doc_script)
| OnProxy (o : doc_op) (k : list lval -> doc_script)
| Transaction (callback : doc_script) (k : list lval -> doc_script).

Fixpoint run_doc_script (inst : mongo_instance) (f : doc_script) (txs : list (nat * nat)) : st world result :=
  match f with
  | Returns values => sret (Some values)
  | Raises => sret None
  | OnTx level o k =>
      match txs !! level with
      | Some (c, s) =>
          match session_op inst c s o with
          | Some m => let* r := m in run_doc_script inst (k r) txs
          | None => sret None
          end
      | None => sret None
      end
  | OnProxy o k => let* r := proxy_op inst o in run_doc_script inst (k r) txs
  | Transaction callback k =>
      let* r := mongo_transaction_with inst (fun c s => run_doc_script inst callback ((c, s) :: txs)) in
      run_doc_script inst (k r) txs
  end.

Definition mongo_transaction (inst : mongo_instance) (callback : doc_script) : st world (list lval) :=
  mongo_transaction_with inst (fun c s => run_doc_script inst callback [(c, s)]).

(** ** The table for other plugins *)

Record doc_conn := mkConn { conn_database : string; conn_client : nat; conn_session : option nat }.

Record doc_result := mkResult {
  r_success : Z;
  r_error_msg : option string;
  r_error_code : option string;
  r_matched : Z;
  r_modified : Z;
  r_inserted : Z;
  r_inserted_id : option string;
  r_upserted_id : option string
}.

Record doc_cursor := mkCursor {
  c_success : Z;
  c_error_msg : option string;
  c_error_code : option string;
  c_docs : option string;
  c_matched : Z
}.

(** [clear_result] and [clear_cursor] *)
Definition cleared : doc_result := mkResult 0 None None 0 0 0 None None.
Definition cleared_cursor : doc_cursor := mkCursor 0 None None None (-1).

Definition error_in (code message : string) (r : doc_result) : Z * doc_result :=
  (1, mkResult (r_success r) (Some message) (Some code) (r_matched r) (r_modified r) (r_inserted r) (r_inserted_id r)
        (r_upserted_id r)).
Definition error_in_cursor (code message : string) (c : doc_cursor) : Z * doc_cursor :=
  (1, mkCursor (c_success c) (Some message) (Some code) (c_docs c) (c_matched c)).

Definition exn_in (e : mongo_exn) : doc_result -> Z * doc_result := error_in (map_exception e) (what e).
Definition exn_in_cursor (e : mongo_exn) : doc_cursor -> Z * doc_cursor := error_in_cursor (map_exception e) (what e).

Definition not_acquired : Z * doc_result := error_in "connection_lost" "mongodb: connection not acquired" cleared.
Definition not_acquired_cursor : Z * doc_cursor :=
  error_in_cursor "connection_lost" "mongodb: connection not acquired" cleared_cursor.

Definition succeeded : doc_result := mkResult 1 None None 0 0 0 None None.

(** [json_to_doc] *)
Definition json_to_doc (text : option string) : mongo_exn + bson :=
  match text with None | Some "" => inr empty_document | Some t => bson_parse t end.

(** A call on the client of the handle, which looks at no session. *)
Definition on_handle (c : doc_conn) (coll : string) (cmd : command) : attempt (reply cmd) :=
  run (conn_client c) None (conn_database c) coll cmd.

(** The result of a call whose documents may not parse and that may throw. *)
Definition filled {A} (m : attempt A) (fill : A -> Z * doc_result) : st world (Z * doc_result) :=
  let* r := m in sret (match r with inl e => exn_in e cleared | inr a => fill a end).

Definition err_text (size : Z) (s : string) : option string :=
  if 0 <? size then Some (String.substring 0 (Z.to_nat (size - 1)) (c_string s)) else None.

(** [doc_connect]: the handle, or the text that is left for the caller. *)
Definition doc_connect (args : option (option string * option string)) (err_buf_size : Z)
  : st world (option string + doc_conn) := fun w =>
  match args with
  | Some (Some uri, database) =>
      match uri_database uri with
      | inl e => (inl (err_text err_buf_size (what e)), w)
      | inr db =>
          let '(r, l) := mc_client uri (state w) in
          (match r with
           | inl e => inl (err_text err_buf_size (what e))
           | inr c =>
               inr (mkConn (match database with
                            | Some d => if str_empty d then (if str_empty db then "test" else db) else d
                            | None => if str_empty db then "test" else db
                            end) c None)
           end, mkWorld l (used w) (log w))
      end
  | _ => (inl (err_text err_buf_size "mongodb: uri required"), w)
  end.

Definition doc_ping (c : option doc_conn) : st world Z :=
  match c with
  | None => sret 0
  | Some c => let* r := on_handle c "" CPing in sret (if is_ok r then 1 else 0)
  end.

(** The documents of a cursor as the text of an array. *)
Definition cursor_of (docs : list bson) : Z * doc_cursor :=
  match docs_json docs with
  | inl e => exn_in_cursor e cleared_cursor
  | inr js =>
      match json_dump (JArr js) with
      | inl e => exn_in_cursor (json_exn e) (mkCursor 1 None None None (vsize docs))
      | inr t => (0, mkCursor 1 None None (Some t) (vsize docs))
      end
  end.

(** The view of the filter outlives the document it is a view of; options are
    ignored. *)
Definition stale_filter (filter : option string) : outcome (mongo_exn + bson) :=
  match json_to_doc filter with
  | inl e => Ret (inl e)
  | inr d => let! v := stale_view d in Ret (inr v)
  end.

Definition doc_find (c : option doc_conn) (coll : string) (filter opts : option string) : st world (outcome (Z * doc_cursor)) :=
  match c with
  | None => sret (Ret not_acquired_cursor)
  | Some c =>
      match stale_filter filter with
      | Ret (inl e) => sret (Ret (exn_in_cursor e cleared_cursor))
      | Ret (inr d) =>
          let* r := on_handle c coll (CFind d) in
          sret (Ret (match r with inl e => exn_in_cursor e cleared_cursor | inr docs => cursor_of docs end))
      | Throw e => sret (Throw e)
      | Undef => sret Undef
      end
  end.

(** The document is left in [*out_doc_json] when the caller asks for it. *)
Definition doc_find_one (c : option doc_conn) (coll : string) (filter opts : option string) (wanted : bool)
  : st world (outcome ((Z * doc_result) * option string)) :=
  match c with
  | None => sret (Ret (not_acquired, None))
  | Some c =>
      match stale_filter filter with
      | Ret (inl e) => sret (Ret (exn_in e cleared, None))
      | Ret (inr d) =>
          let* r := on_handle c coll (CFindOne d) in
          sret (Ret (match r with
                     | inl e => (exn_in e cleared, None)
                     | inr maybe => ((0, succeeded), if wanted then bson_json <$> maybe else None)
                     end))
      | Throw e => sret (Throw e)
      | Undef => sret Undef
      end
  end.

Definition doc_insert_one (c : option doc_conn) (coll : string) (doc : option string) : st world (Z * doc_result) :=
  match c with
  | None => sret not_acquired
  | Some c =>
      filled (let^ d := lift (json_to_doc doc) in on_handle c coll (CInsertOne d)) (fun res =>
        match res with
        | None => (0, succeeded)
        | Some r =>
            let out := mkResult 1 None None 0 0 (ins_count r) None None in
            match ins_id r with
            | None => (0, out)
            | Some id =>
                match get_document id with
                | inl e => exn_in e out
                | inr d => (0, mkResult 1 None None 0 0 (ins_count r) (Some (bson_json d)) None)
                end
            end
        end)
  end.

(** The documents of a text that is an array; nothing is an empty one. *)
Definition docs_of_text (t : option string) : mongo_exn + list bson :=
  let? j := of_json (json_parse (bytes_of (default "[]" t))) in docs_of j.

Definition doc_insert_many (c : option doc_conn) (coll : string) (docs : option string) : st world (Z * doc_result) :=
  match c with
  | None => sret not_acquired
  | Some c =>
      filled (let^ ds := lift (docs_of_text docs) in on_handle c coll (CInsertMany ds)) (fun res =>
        (0, mkResult 1 None None 0 0 (default 0 res) None None))
  end.

Definition text_option {A} (read : json -> option A) (name : string) (opts : option string) : mongo_exn + option A :=
  match opts with
  | None => inr None
  | Some t => let? j := of_json (json_parse (bytes_of t)) in inr (get name j ≫= read)
  end.
Definition flag_value (j : json) : option bool := match j with JBool b => Some b | _ => None end.
Definition as_name (j : json) : option string := match j with JStr s => Some s | _ => None end.

Definition doc_update_one (c : option doc_conn) (coll : string) (filter update opts : option string) : st world (Z * doc_result) :=
  match c with
  | None => sret not_acquired
  | Some c =>
      filled (let^ upsert := lift (text_option flag_value "upsert" opts) in
              let^ f := lift (json_to_doc filter) in
              let^ u := lift (json_to_doc update) in
              on_handle c coll (CUpdateOne f u upsert)) (fun res =>
        match res with
        | None => (0, succeeded)
        | Some r =>
            let out := mkResult 1 None None (upd_matched r) (upd_modified r) 0 None None in
            match 0 <? upd_upserted r, upd_id r with
            | true, Some id =>
                match get_document id with
                | inl e => exn_in e out
                | inr d => (0, mkResult 1 None None (upd_matched r) (upd_modified r) 0 None (Some (bson_json d)))
                end
            | _, _ => (0, out)
            end
        end)
  end.

Definition doc_update_many (c : option doc_conn) (coll : string) (filter update : option string) : st world (Z * doc_result) :=
  match c with
  | None => sret not_acquired
  | Some c =>
      filled (let^ f := lift (json_to_doc filter) in
              let^ u := lift (json_to_doc update) in
              on_handle c coll (CUpdateMany f u)) (fun res =>
        (0, match res with
            | None => succeeded
            | Some r => mkResult 1 None None (upd_matched r) (upd_modified r) 0 None None
            end))
  end.

Definition deleted_result (res : option Z) : Z * doc_result :=
  (0, match res with None => succeeded | Some n => mkResult 1 None None n n 0 None None end).

Definition doc_delete_one (c : option doc_conn) (coll : string) (filter : option string) : st world (Z * doc_result) :=
  match c with
  | None => sret not_acquired
  | Some c => filled (let^ f := lift (json_to_doc filter) in on_handle c coll (CDeleteOne f)) deleted_result
  end.

Definition doc_delete_many (c : option doc_conn) (coll : string) (filter : option string) : st world (Z * doc_result) :=
  match c with
  | None => sret not_acquired
  | Some c => filled (let^ f := lift (json_to_doc filter) in on_handle c coll (CDeleteMany f)) deleted_result
  end.

(** The number, when there is one and the caller asks for it. *)
Definition doc_count (c : option doc_conn) (coll : string) (filter opts : option string) (out_count : option Z)
  : st world (Z * option Z) :=
  match c with
  | None => sret (1, out_count)
  | Some c =>
      let* r := (let^ f := lift (json_to_doc filter) in on_handle c coll (CCount f)) in
      sret (match r with inl _ => (1, out_count) | inr n => (0, match out_count with Some _ => Some n | None => None end) end)
  end.

Definition doc_aggregate (c : option doc_conn) (coll : string) (pipeline opts : option string) : st world (Z * doc_cursor) :=
  match c with
  | None => sret not_acquired_cursor
  | Some c =>
      let* r := (let^ stages := lift (docs_of_text pipeline) in on_handle c coll (CAggregate stages)) in
      sret (match r with inl e => exn_in_cursor e cleared_cursor | inr docs => cursor_of docs end)
  end.

Definition doc_create_index (c : option doc_conn) (coll : string) (keys opts : option string) : st world (Z * doc_result) :=
  match c with
  | None => sret not_acquired
  | Some c =>
      filled (let^ k := lift (json_to_doc keys) in
              let^ name := lift (text_option as_name "name" opts) in
              let^ unique := lift (text_option flag_value "unique" opts) in
              on_handle c coll (CCreateIndex k name unique)) (fun name =>
        (0, mkResult 1 None None 0 0 0 (Some name) None))
  end.

Definition doc_drop_index (c : option doc_conn) (coll name : string) : st world (Z * doc_result) :=
  match c with
  | None => sret not_acquired
  | Some c => filled (on_handle c coll (CDropIndex name)) (fun _ => (0, succeeded))
  end.

(** The session is kept when its transaction does not start. *)
Definition doc_begin (c : option doc_conn) : st world ((Z * doc_result) * option doc_conn) := fun w =>
  match c with
  | None => ((not_acquired, c), w)
  | Some conn =>
      let with_state l := mkWorld l (used w) (log w) in
      match mc_start_session (conn_client conn) (state w) with
      | (inl e, l) => ((exn_in e cleared, c), with_state l)
      | (inr s, l) =>
          let l := match conn_session conn with Some old => mc_end_session old l | None => l end in
          let conn := mkConn (conn_database conn) (conn_client conn) (Some s) in
          match mc_start_transaction s l with
          | (inl e, l) => ((exn_in e cleared, Some conn), with_state l)
          | (inr _, l) => (((0, succeeded), Some conn), with_state l)
          end
      end
  end.

(** The session stays when the command throws. *)
Definition doc_end (f : nat -> mc -> (mongo_exn + unit) * mc) (c : option doc_conn) : st world ((Z * doc_result) * option doc_conn) :=
  fun w =>
  match c with
  | Some (mkConn db client (Some s)) =>
      match f s (state w) with
      | (inl e, l) => ((exn_in e cleared, c), mkWorld l (used w) (log w))
      | (inr _, l) => (((0, succeeded), Some (mkConn db client None)), mkWorld (mc_end_session s l) (used w) (log w))
      end
  | _ => ((error_in "plugin_error" "mongodb: no active transaction" cleared, c), w)
  end.

Definition doc_commit : option doc_conn -> st world ((Z * doc_result) * option doc_conn) := doc_end mc_commit.
Definition doc_rollback : option doc_conn -> st world ((Z * doc_result) * option doc_conn) := doc_end mc_abort.

(** The text of a code is a literal, and freed like the others. *)
Definition doc_free_result (r : doc_result) : outcome doc_result :=
  match r_error_code r with
  | Some _ => Undef
  | None => Ret (mkResult (r_success r) None None (r_matched r) (r_modified r) (r_inserted r) None None)
  end.

Definition doc_free_cursor (c : doc_cursor) : outcome doc_cursor :=
  match c_error_code c with
  | Some _ => Undef
  | None => Ret (mkCursor (c_success c) None None None (c_matched c))
  end.

End Mongo.

Notation "'let^' x := m 'in' k" := (abind m (fun x => k)) (at level 10, x name, m at level 100, k at level 200) : cpp_scope.

(** ** What happens to a client *)

Section Clients.
Context `{JsonLib, DocKeys, MongoCxx}.

#[local] Abbreviation foreign := (foreign used log).

















End Clients.

(** ** Results of the table *)

Section Table.
Context `{JsonLib, DocKeys, MongoCxx}.

(** The functions of the table that fill a result. *)
Inductive table_call :=
| TInsertOne (coll : string) (doc : option string)
| TInsertMany (coll : string) (docs : option string)
| TUpdateOne (coll : string) (filter update opts : option string)
| TUpdateMany (coll : string) (filter update : option string)
| TDeleteOne (coll : string) (filter : option string)
| TDeleteMany (coll : string) (filter : option string)
| TCreateIndex (coll : string) (keys opts : option string)
| TDropIndex (coll name : string)
| TBegin
| TCommit
| TRollback.

Definition table_do (t : table_call) (c : option doc_conn) : st world (Z * doc_result) :=
  match t with
  | TInsertOne coll d => doc_insert_one c coll d
  | TInsertMany coll d => doc_insert_many c coll d
  | TUpdateOne coll f u o => doc_update_one c coll f u o
  | TUpdateMany coll f u => doc_update_many c coll f u
  | TDeleteOne coll f => doc_delete_one c coll f
  | TDeleteMany coll f => doc_delete_many c coll f
  | TCreateIndex coll k o => doc_create_index c coll k o
  | TDropIndex coll n => doc_drop_index c coll n
  | TBegin => let* r := doc_begin c in sret r.1
  | TCommit => let* r := doc_commit c in sret r.1
  | TRollback => let* r := doc_rollback c in sret r.1
  end.

(** Success without an error, or an error with its code and message. *)
Definition reported (r : Z * doc_result) : Prop :=
  (r.1 = 0 /\ r_success r.2 = 1 /\ r_error_code r.2 = None /\ r_error_msg r.2 = None) \/
  (r.1 = 1 /\ is_Some (r_error_code r.2) /\ is_Some (r_error_msg r.2)).

Lemma reported_error code msg r : reported (error_in code msg r).
Proof. right. split_and!; [done|by eexists|by eexists]. Qed.

Lemma reported_filled {A} (m : attempt A) fill w : (forall a, reported (fill a)) -> reported (filled m fill w).1.
Proof.
  intros Hf. unfold filled, sbind, sret. destruct (m w) as [[e|a] w']; [apply reported_error|apply Hf].
Qed.

Lemma table_reports t c w : reported (table_do t c w).1.
Proof.
  assert (Hok : forall r, r_success r = 1 -> r_error_code r = None -> r_error_msg r = None -> reported (0, r))
    by (intros; by left).
  destruct c as [[db client session]|]; [|destruct t; apply reported_error].
  destruct t; cbn [table_do];
    try (unfold doc_insert_one, doc_insert_many, doc_update_one, doc_update_many, doc_delete_one, doc_delete_many,
           doc_create_index, doc_drop_index, deleted_result; apply reported_filled; intros a;
         repeat case_match; first [apply reported_error|by apply Hok]).
  - unfold sbind, sret, doc_begin. cbn [state used log conn_client].
    destruct (mc_start_session client (state w)) as [[e|i] l]; [apply reported_error|]. cbv zeta.
    destruct (mc_start_transaction i _) as [[e|[]] l']; [apply reported_error|by apply Hok].
  - unfold sbind, sret, doc_commit, doc_end. destruct session as [i|]; [|apply reported_error].
    destruct (mc_commit i (state w)) as [[e|[]] l]; [apply reported_error|by apply Hok].
  - unfold sbind, sret, doc_rollback, doc_end. destruct session as [i|]; [|apply reported_error].
    destruct (mc_abort i (state w)) as [[e|[]] l]; [apply reported_error|by apply Hok].
Qed.

(** No call but those of the transaction itself looks at the session. *)
Definition ends_transaction (t : table_call) : bool := match t with TBegin | TCommit | TRollback => true | _ => false end.

Lemma session_ignored t db client s w :
  ends_transaction t = false ->
  table_do t (Some (mkConn db client (Some s))) w = table_do t (Some (mkConn db client None)) w.
Proof. by destruct t. Qed.
End Table.

(** ** Properties *)


(** How the table reports errors.  A call returns 0 with success and no
    error, or 1 with a code and a message; the result of every call that returned
    0 can be freed and keeps nothing, and freeing the result of one that returned
    1 frees a literal. *)
Theorem table_reports_errors `{JsonLib, DocKeys, MongoCxx} t c w :
  let '(rc, out) := (table_do t c w).1 in
  reported (rc, out) /\
  (rc = 0 -> exists r, doc_free_result out = Ret r /\ r_inserted_id r = None /\ r_upserted_id r = None) /\
  (rc = 1 -> doc_free_result out = Undef).
Proof.
  pose proof (table_reports t c w) as Hr. destruct ((table_do t c w).1) as [rc out]. split; [done|].
  unfold doc_free_result. destruct Hr as [(E & _ & Hc & _)|(E & [code Hc] & _)]; cbn [fst snd] in *; subst rc; rewrite Hc.
  - split; [|done]. intros _. by eexists.
  - by split.
Qed.

(** ** A server with one collection

    Its documents are texts; what a session inserts waits for the commit.  The
    identifiers it gives are no documents. *)

#[local] Instance text_documents : Bson := {
  bson := string;
  bson_value := unit;
  bson_parse := fun t => if String.eqb t "null" then inl (mkExn "expected a document" [BsonException]) else inr t;
  bson_json := id;
  empty_document := "{}";
  get_document := fun _ => inl (mkExn "not a document" [BsonException]);
  stale_view := fun _ => Undef
}.

Definition one_collection (s : option nat) (c : command) (l : list string * list string)
  : (mongo_exn + reply c) * (list string * list string) :=
  match c with
  | CInsertOne d =>
      (inr (Some (mkInserted 1 (Some tt))), match s with Some _ => (l.1, l.2 ++ [d]) | None => (l.1 ++ [d], l.2) end)
  | CFind _ => (inr (l.1 ++ match s with Some _ => l.2 | None => [] end), l)
  | _ => (inl (mkExn "not supported" []), l)
  end.

#[local] Instance small_server : MongoCxx := {
  mc := list string * list string;
  uri_database := fun _ => inr "";
  mc_acquire := fun used l => (inr (fresh (list_to_set used : gset nat)), l);
  mc_give := fun _ l => l;
  mc_client := fun _ l => (inr 0%nat, l);
  mc_run := fun _ s _ _ c l => one_collection s c l;
  mc_start_session := fun _ l => (inr 0%nat, l);
  mc_start_transaction := fun _ l => (inr tt, l);
  mc_commit := fun _ l => (inr tt, (l.1 ++ l.2, []));
  mc_abort := fun _ l => (inr tt, (l.1, []));
  mc_end_session := fun _ l => l
}.

#[local] Instance brief_json : JsonLib := {
  json_parse := fun _ => inr JNull;
  json_dump := fun j => inr (match j with JNull => "null" | _ => "{}" end);
  json_error := fun _ _ _ => ""
}.

#[local] Instance no_odd_keys : DocKeys := {| float_as_int _ := 0; odd_key_text _ := "" |}.


Definition idle_world : world := @mkWorld _ small_server ([], []) [] [].
Definition demo_instance : mongo_instance := mkMongo "mongodb://db/game" "" 5000 30000 4 "game" true.
Definition insert_then_return : doc_script := OnTx 0 (InsertOne "players" (VTable [])) (fun _ => Returns [VBool true]).


Example committed_insert :
  log (mongo_transaction demo_instance insert_then_return idle_world).2
  = [Acquired 0; Command 0 "start_transaction" true; Statement 0 "insert_one"; Command 0 "commit_transaction" true; Released 0 false] /\
  state (mongo_transaction demo_instance insert_then_return idle_world).2 = (["{}"], []).
Proof. vm_compute. split; reflexivity. Qed.

(** *** Where it falls short *)

(** A document whose identifier is no document, as those that MongoDB makes, is
    inserted and reported as an error. *)
Example inserted_and_reported_failed :
  let '(reply, w) := proxy_insert_one demo_instance "players" (VTable []) idle_world in
  reply = failed "mapper_unsafe_sql" "not a document" /\ state w = (["{}"], []).
Proof. vm_compute. split; reflexivity. Qed.

Example inserted_with_error_and_success :
  let '(rc, out) := (doc_insert_one (Some (mkConn "game" 0 None)) "players" (Some "{}") idle_world).1 in
  rc = 1 /\ r_success out = 1 /\ r_error_code out = Some "mapper_unsafe_sql".
Proof. vm_compute. split_and!; reflexivity. Qed.

(** The calls of the table do not take part in its transactions: what was inserted
    stays after the rollback. *)
Example rollback_keeps_insert :
  let '((_, c), w) := doc_begin (Some (mkConn "game" 0 None)) idle_world in
  let '(_, w) := doc_insert_one c "players" (Some "{}") w in
  let '((r, _), w) := doc_rollback c w in
  r = (0, succeeded) /\ state w = (["{}"], []).
Proof. vm_compute. split; reflexivity. Qed.

(** Without a filter the proxy of the instance finds everything, that of a
    transaction nothing. *)
Example nil_filter_fails_in_transaction :
  (proxy_find demo_instance "players" VNil idle_world).1 = [VBool true; VTable []] /\
  (session_find demo_instance 0 0 "players" VNil idle_world).1 = failed "mapper_unsafe_sql" "expected a document".
Proof. vm_compute. split; reflexivity. Qed.

(** [find] of the table reads its filter after the document was destroyed. *)
Example find_reads_destroyed_filter :
  (doc_find (Some (mkConn "game" 0 None)) "players" (Some "{}") None idle_world).1 = Undef.
Proof. vm_compute. reflexivity. Qed.

(** The options of [find] change nothing. *)
Lemma find_options_ignored c coll filter opts w : doc_find c coll filter opts w = doc_find c coll filter None w.
Proof. done. Qed.
