(* ===== verification/HttpClient.v ===== *)
(** * HttpClient: requests over libcurl (src/net/http_client.cpp, src/lua/lua_api.cpp)

    [HttpClient] and the functions of [shield.http].  libcurl is a parameter, the
    class [Curl]: a transfer is what the handle was told, and performing it gives
    a code, a status, and the texts that the callbacks received.  The transfers
    that were performed and the pauses between them are written down. *)

From S2P Require Import Prelude Text Json LuaPack LuaJson DbMapper SqlPlugin.

(** ** Data *)

Record HttpClientResponse := mkResponse {
  status_code : Z;
  body : string;
  headers : gmap string string;
  error : string
}.

Definition empty_response : HttpClientResponse := mkResponse 0 "" ∅ "".
Definition failed_response (e : string) : HttpClientResponse := mkResponse 0 "" ∅ e.

Definition response_ok (r : HttpClientResponse) : bool := (200 <=? status_code r) && (status_code r <? 400).

Record HttpFileField := mkFile { field_name : string; file_path : string; content_type : string }.

(** The members that [request] looks at; [form_fields] and [files] are not among
    them, and [auth_bearer] has become a header. *)
Record HttpClientOptions := mkOptions {
  o_method : string;
  o_url : string;
  o_body : string;
  o_headers : gmap string string;
  o_timeout_seconds : Z;
  o_follow_redirects : bool;
  o_max_redirects : Z;
  o_auth_basic_user : string;
  o_auth_basic_password : string;
  o_proxy : string;
  o_verify_ssl : bool;
  o_ca_cert_path : string;
  o_retry_count : Z;
  o_retry_delay_ms : Z
}.

Definition default_options : HttpClientOptions := mkOptions "GET" "" "" ∅ 10 true 5 "" "" "" true "" 0 1000.

(** A request of its own method, to a URL. *)
Definition options_for (method url body : string) (hs : gmap string string) (timeout : Z) : HttpClientOptions :=
  mkOptions method url body hs timeout true 5 "" "" "" true "" 0 1000.

(** ** libcurl *)

(** What the handle was told of the method: a POST without fields takes its body
    from the standard input. *)
Inductive verb := VGet | VPost (fields : option string) | VCustom (name : string) (fields : option string).

Inductive transfer :=
| Request (url : string) (timeout : Z) (max_redirects : option Z) (proxy : option string) (basic : option (string * string))
    (v : verb) (header_list : list string) (verify : bool) (cainfo : option string)
| Upload (url : string) (timeout : Z) (fields : list (string * string)) (files : list HttpFileField)
| Download (url : string) (timeout : Z) (output : string).

Record transfer_result := mkTransfer { code : Z; http_status : Z; received : string; header_lines : list string }.

Definition CURLE_OK : Z := 0.

Class Curl := {
  cu : Type;
  curl_easy_init : cu -> bool * cu;
  curl_easy_perform : transfer -> cu -> transfer_result * cu;
  curl_easy_strerror : Z -> string;
  curl_easy_escape : string -> option string;
  open_output : string -> cu -> bool * cu;
  remove_file : string -> cu -> cu
}.

(** ** Headers *)

Definition is_blank (c : Ascii.ascii) : bool := Ascii.eqb c " " || Ascii.eqb c "009".
Definition is_crlf (c : Ascii.ascii) : bool := Ascii.eqb c "013" || Ascii.eqb c "010".

Fixpoint rtrim_crlf (s : string) : string :=
  match s with
  | EmptyString => ""
  | String c s => let r := rtrim_crlf s in if is_crlf c && str_empty r then "" else String c r
  end.

(** [header_callback]: a line without a colon is no header. *)
Definition header_callback (hs : gmap string string) (line : string) : gmap string string :=
  match split_at ":" line with
  | Some (key, rest) => <[key := rtrim_crlf (skip is_blank rest)]> hs
  | None => hs
  end.

Definition headers_of (lines : list string) : gmap string string := foldl header_callback ∅ lines.

(** ** HttpClient *)

Section Client.
Context `{Curl}.

Record world := mkWorld { state : cu; performed : list transfer; pauses : list Z }.

Definition easy_init : st world bool := fun w =>
  let '(b, l) := curl_easy_init (state w) in (b, mkWorld l (performed w) (pauses w)).
Definition perform (t : transfer) : st world transfer_result := fun w =>
  let '(r, l) := curl_easy_perform t (state w) in (r, mkWorld l (performed w ++ [t]) (pauses w)).
Definition sleep_for (ms : Z) : st world unit := fun w => (tt, mkWorld (state w) (performed w) (pauses w ++ [ms])).

Definition nonempty (s : string) : option string := if str_empty s then None else Some s.

Definition verb_of (o : HttpClientOptions) : verb :=
  let m := o_method o in
  if String.eqb m "POST" then VPost (nonempty (o_body o))
  else if String.eqb m "PUT" then VCustom "PUT" (nonempty (o_body o))
  else if String.eqb m "DELETE" then VCustom "DELETE" None
  else if String.eqb m "PATCH" then VCustom "PATCH" (nonempty (o_body o))
  else VGet.

(** The headers in the order of the hash table. *)
Definition request_transfer (o : HttpClientOptions) : transfer :=
  Request (o_url o) (o_timeout_seconds o) (if o_follow_redirects o then Some (o_max_redirects o) else None)
    (nonempty (o_proxy o))
    (if str_empty (o_auth_basic_user o) then None else Some (o_auth_basic_user o, o_auth_basic_password o))
    (verb_of o) (map (fun e => e.1 +:+ ": " +:+ e.2) (map_to_list (o_headers o))) (o_verify_ssl o) (nonempty (o_ca_cert_path o)).

(** A transfer that is not tried again. *)
Definition settled_transfer (r : transfer_result) : bool := (code r =? CURLE_OK) && (http_status r <? 500).

(** The attempts, of which [remaining] are left after the next. *)
Fixpoint attempt_loop (remaining : nat) (delay : Z) (t : transfer) : st world transfer_result :=
  let* r := perform t in
  if settled_transfer r then sret r
  else match remaining with
       | O => sret r
       | S remaining => let* _ := sleep_for delay in attempt_loop remaining delay t
       end.

Definition response_of (r : transfer_result) : HttpClientResponse :=
  if code r =? CURLE_OK then mkResponse (http_status r) (received r) (headers_of (header_lines r)) ""
  else mkResponse 0 (received r) (headers_of (header_lines r)) (curl_easy_strerror (code r)).

(** [options.retry_count + 1] is an [int]. *)
Definition request (o : HttpClientOptions) : st world (outcome HttpClientResponse) :=
  let* b := easy_init in
  if negb b then sret (Ret (failed_response "Failed to initialize curl handle"))
  else if 2 ^ 31 - 1 <=? o_retry_count o then sret Undef
  else
    let* r := attempt_loop (Z.to_nat (o_retry_count o)) (o_retry_delay_ms o) (request_transfer o) in
    sret (Ret (response_of r)).

Definition json_header : gmap string string := {[ "Content-Type" := "application/json" ]}.

Definition client_get (url : string) (timeout : Z) : st world (outcome HttpClientResponse) :=
  request (options_for "GET" url "" ∅ timeout).
Definition client_post_json (url json_body : string) (timeout : Z) : st world (outcome HttpClientResponse) :=
  request (options_for "POST" url json_body json_header timeout).
Definition client_put_json (url json_body : string) (timeout : Z) : st world (outcome HttpClientResponse) :=
  request (options_for "PUT" url json_body json_header timeout).
Definition client_del (url : string) (timeout : Z) : st world (outcome HttpClientResponse) :=
  request (options_for "DELETE" url "" ∅ timeout).
Definition client_patch_json (url json_body : string) (timeout : Z) : st world (outcome HttpClientResponse) :=
  request (options_for "PATCH" url json_body json_header timeout).

Definition upload (url : string) (files : list HttpFileField) (fields : gmap string string) (timeout : Z)
  : st world HttpClientResponse :=
  let* b := easy_init in
  if negb b then sret (failed_response "Failed to initialize curl handle")
  else
    let* r := perform (Upload url timeout (map_to_list fields) files) in
    sret (response_of r).

(** What is received goes to the file, which is removed unless the response is
    good. *)
Definition download (url output_path : string) (timeout : Z) : st world HttpClientResponse :=
  let* b := easy_init in
  if negb b then sret (failed_response "Failed to initialize curl handle")
  else fun w =>
    let '(opened, l) := open_output output_path (state w) in
    let w := mkWorld l (performed w) (pauses w) in
    if negb opened then (failed_response ("Failed to open output file: " +:+ output_path), w)
    else
      let '(r, w) := perform (Download url timeout output_path) w in
      let full := response_of r in
      let res := mkResponse (status_code full) "" (headers full) (error full) in
      (res, if response_ok res then w else mkWorld (remove_file output_path (state w)) (performed w) (pauses w)).

(** The pairs of a form; a pair that cannot be encoded leaves its separator. *)
Definition add_pair (form_body : string) (e : string * string) : string :=
  let form_body := if str_empty form_body then form_body else form_body +:+ "&" in
  match curl_easy_escape e.1, curl_easy_escape e.2 with
  | Some k, Some v => form_body +:+ k +:+ "=" +:+ v
  | _, _ => form_body
  end.

Definition form_header : gmap string string := {[ "Content-Type" := "application/x-www-form-urlencoded" ]}.

Definition post_form (url : string) (fields : gmap string string) (timeout : Z) : st world (outcome HttpClientResponse) :=
  let* b := easy_init in
  request (options_for "POST" url (if b : bool then foldl add_pair "" (map_to_list fields) else "") form_header timeout).

(** ** shield.http *)

(** What sol2 makes of a value where a text, an integer, a flag or a table is
    asked for; it throws when it is something else. *)
Class SolGet := {
  get_text : lval -> exn + string;
  get_int : lval -> exn + Z;
  get_flag : lval -> exn + bool;
  get_table : lval -> exn + list (lval * lval)
}.
Context `{SolGet} `{JsonLib, SolKeys}.
Context (make_handle : option (string -> string -> option lval)).

(** The content type, under one of two spellings. *)
Definition content_type_of (hs : gmap string string) : option string :=
  match hs !! "Content-Type" with Some t => Some t | None => hs !! "content-type" end.

Definition looks_like_json (r : HttpClientResponse) : bool :=
  match content_type_of (headers r) with Some t => has_text "application/json" t | None => false end ||
  match body r with String "{" _ | String "[" _ => true | _ => false end.

(** The field [data]; every exception on the way leaves it out. *)
Definition response_data (r : HttpClientResponse) : outcome lval :=
  if negb (str_empty (body r)) && looks_like_json r then
    match json_parse (bytes_of (body r)) with
    | inl _ => Ret VNil
    | inr j => match json_to_lua make_handle j with Throw _ => Ret VNil | o => o end
    end
  else Ret VNil.

Definition to_table (r : HttpClientResponse) : outcome lval :=
  let! data := response_data r in
  Ret (VTable (set_field "data" data
         [(text "status", VInt (status_code r)); (text "body", text (body r)); (text "ok", VBool (response_ok r));
          (text "error", text (error r));
          (text "headers", VTable (map (fun e => (text e.1, text e.2)) (map_to_list (headers r))))])).

(** [opts[name]], or what there was when it is not valid. *)
Definition field_or {A} (opts : list (lval * lval)) (name : string) (read : lval -> exn + A) (d : A) : exn + A :=
  match table_get (text name) opts with VNil => inr d | v => read v end.

Definition header_entries (t : list (lval * lval)) (hs : gmap string string) : gmap string string :=
  foldl (fun hs e => match e with (VStr k, VStr v) => <[string_of k := string_of v]> hs | _ => hs end) hs t.

Definition parse_opts (opts : list (lval * lval)) (o : HttpClientOptions) : exn + HttpClientOptions :=
  let? method := field_or opts "method" get_text (o_method o) in
  let? body := field_or opts "body" get_text (o_body o) in
  let? timeout := field_or opts "timeout" get_int (o_timeout_seconds o) in
  let? hdrs := field_or opts "headers" get_table [] in
  let hs := header_entries hdrs (o_headers o) in
  let? bearer := field_or opts "auth_bearer" (fun v => let? t := get_text v in inr (Some t)) None in
  let hs := match bearer with Some t => <["Authorization" := "Bearer " +:+ t]> hs | None => hs end in
  let? basic := field_or opts "auth_basic" get_table [] in
  let? user := field_or basic "user" get_text (o_auth_basic_user o) in
  let? password := field_or basic "password" get_text (o_auth_basic_password o) in
  let? proxy := field_or opts "proxy" get_text (o_proxy o) in
  let? verify := field_or opts "verify_ssl" get_flag (o_verify_ssl o) in
  let? ca := field_or opts "ca_cert_path" get_text (o_ca_cert_path o) in
  let? retry := field_or opts "retry" get_int (o_retry_count o) in
  let? delay := field_or opts "retry_delay" get_int (o_retry_delay_ms o) in
  let? follow := field_or opts "follow_redirects" get_flag (o_follow_redirects o) in
  let? hops := field_or opts "max_redirects" get_int (o_max_redirects o) in
  inr (mkOptions method (o_url o) body hs timeout follow hops user password proxy verify ca retry delay).

(** A call of [shield.http]: options of its own, those of the caller, the
    request, and its table. *)
Definition http_call (base : HttpClientOptions) (opts : option (list (lval * lval))) : st world (outcome lval) :=
  match (match opts with Some t => parse_opts t base | None => inr base end) with
  | inl e => sret (Throw e)
  | inr o => let* r := request o in sret (let! r := r in to_table r)
  end.

Definition http_request (url : string) (opts : option (list (lval * lval))) : st world (outcome lval) :=
  http_call (options_for "GET" url "" ∅ 10) opts.
Definition http_get (url : string) (opts : option (list (lval * lval))) : st world (outcome lval) :=
  http_call (options_for "GET" url "" ∅ 10) opts.
Definition http_post (url : string) (b : option string) (opts : option (list (lval * lval))) : st world (outcome lval) :=
  http_call (options_for "POST" url (default "" b) json_header 10) opts.
Definition http_put (url : string) (b : option string) (opts : option (list (lval * lval))) : st world (outcome lval) :=
  http_call (options_for "PUT" url (default "" b) json_header 10) opts.
Definition http_delete (url : string) (opts : option (list (lval * lval))) : st world (outcome lval) :=
  http_call (options_for "DELETE" url "" ∅ 10) opts.
Definition http_patch (url : string) (b : option string) (opts : option (list (lval * lval))) : st world (outcome lval) :=
  http_call (options_for "PATCH" url (default "" b) json_header 10) opts.

(** The functions that print a table as JSON first. *)
Definition json_call (method url : string) (data : lval) (opts : option (list (lval * lval))) : st world (outcome lval) :=
  match get_table data with
  | inl e => sret (Throw e)
  | inr entries =>
      match lua_table_to_json entries with
      | Ret j =>
          match json_dump j with
          | inl e => sret (Throw e)
          | inr t => http_call (options_for method url t (<["Accept" := "application/json"]> json_header) 10) opts
          end
      | Throw e => sret (Throw e)
      | Undef => sret Undef
      end
  end.

Definition http_json (url : string) (data : lval) (opts : option (list (lval * lval))) : st world (outcome lval) :=
  json_call "POST" url data opts.
Definition http_json_post (url : string) (data : lval) (opts : option (list (lval * lval))) : st world (outcome lval) :=
  json_call "POST" url data opts.
Definition http_json_put (url : string) (data : lval) (opts : option (list (lval * lval))) : st world (outcome lval) :=
  json_call "PUT" url data opts.
Definition http_json_patch (url : string) (data : lval) (opts : option (list (lval * lval))) : st world (outcome lval) :=
  json_call "PATCH" url data opts.

(** [f.get_or(name, d)]: a value that is no text counts as absent. *)
Definition text_or (t : list (lval * lval)) (name d : string) : string :=
  match table_get (text name) t with VStr s => string_of s | _ => d end.

Definition file_fields (files : list (lval * lval)) : list HttpFileField :=
  omap (fun e => match e.2 with
                 | VTable f => Some (mkFile (text_or f "field_name" "file") (text_or f "file_path" "") (text_or f "content_type" ""))
                 | _ => None
                 end) files.

Definition http_upload (url : string) (files : list (lval * lval)) (fields : option (list (lval * lval))) (timeout : option Z)
  : st world (outcome lval) :=
  let* r := upload url (file_fields files) (header_entries (default [] fields) ∅) (default 60 timeout) in sret (to_table r).

Definition http_download (url output_path : string) (timeout : option Z) : st world (outcome lval) :=
  let* r := download url output_path (default 60 timeout) in sret (to_table r).

Definition http_post_form (url : string) (fields : list (lval * lval)) (timeout : option Z) : st world (outcome lval) :=
  let* r := post_form url (header_entries fields ∅) (default 10 timeout) in sret (let! r := r in to_table r).

End Client.

(** ** shield.httpd

    Registering a route keeps nothing. *)
Definition register_route (method path : string) : lval := VBool true.

(** ** Attempts *)

Section Attempts.
Context `{Curl}.

(** Performing a transfer several times. *)
Inductive performs (t : transfer) : cu -> list transfer_result -> cu -> Prop :=
| performs_none l : performs t l [] l
| performs_one l r l1 rs l2 : curl_easy_perform t l = (r, l1) -> performs t l1 rs l2 -> performs t l (r :: rs) l2.

Lemma attempt_loop_spec n d t : forall w, exists rs r w',
  attempt_loop n d t w = (r, w') /\ performs t (state w) (rs ++ [r]) (state w') /\
  Forall (fun x => settled_transfer x = false) rs /\ (length rs <= n)%nat /\
  (settled_transfer r = true \/ length rs = n) /\
  performed w' = performed w ++ replicate (S (length rs)) t /\ pauses w' = pauses w ++ replicate (length rs) d.
Proof.
  induction n as [|n IH]; intros w; cbn [attempt_loop]; unfold sbind at 1, perform;
    destruct (curl_easy_perform t (state w)) as [r l1] eqn:Ep.
  - exists [], r, (mkWorld l1 (performed w ++ [t]) (pauses w)). split; [by destruct (settled_transfer r)|]. cbn.
    rewrite app_nil_r. split_and!; [by econstructor; [done|constructor]|constructor|lia|by right|done|done].
  - destruct (settled_transfer r) eqn:Es.
    + exists [], r, (mkWorld l1 (performed w ++ [t]) (pauses w)). split; [done|]. cbn. rewrite app_nil_r.
      split_and!; [by econstructor; [done|constructor]|constructor|lia|by left|done|done].
    + unfold sbind, sleep_for. cbn [state performed pauses].
      destruct (IH (mkWorld l1 (performed w ++ [t]) (pauses w ++ [d]))) as (rs & r' & w' & E & Hp & Hf & Hl & Hs & Hpf & Hpa).
      exists (r :: rs), r', w'. cbn [state performed pauses app length] in *. split; [done|].
      split; [by econstructor|]. split; [by constructor|]. split; [lia|].
      split; [destruct Hs as [?|?]; [by left|right; lia]|]. rewrite Hpf, Hpa, <-!app_assoc. by split.
Qed.
End Attempts.

(** A header line gives its value back. *)
Definition header_line (key value : string) : string := key +:+ ": " +:+ value +:+ String "013" (String "010" "").

Lemma rtrim_crlf_all s : str_all is_crlf s = true -> rtrim_crlf s = "".
Proof. induction s as [|c s IH]; cbn; [done|]. intros [Hc Hs]%andb_true_iff. by rewrite IH, Hc. Qed.

Lemma rtrim_crlf_app s t : str_all is_crlf t = true -> rtrim_crlf (s +:+ t) = rtrim_crlf s.
Proof.
  intros Ht. induction s as [|c s IH]; [by apply rtrim_crlf_all|].
  change (String c s +:+ t) with (String c (s +:+ t)). cbn [rtrim_crlf]. by rewrite IH.
Qed.

Lemma rtrim_crlf_solid s : str_all (fun c => negb (is_crlf c)) s = true -> rtrim_crlf s = s.
Proof.
  induction s as [|c s IH]; cbn; [done|]. intros [Hc Hs]%andb_true_iff. apply negb_true_iff in Hc. by rewrite IH, Hc.
Qed.

Lemma header_parsed hs key value :
  str_all (fun d => negb (Ascii.eqb d ":")) key = true -> str_all (fun d => negb (is_crlf d)) value = true ->
  stops is_blank value = true -> header_callback hs (header_line key value) = <[key := value]> hs.
Proof.
  intros Hk Hv Hb. unfold header_callback, header_line.
  change (": " +:+ ?r) with (String ":" (String " " r)). rewrite split_at_app by done.
  f_equal. change (skip is_blank (String " " ?r)) with (skip is_blank r).
  rewrite skip_stops; [|by destruct value].
  rewrite rtrim_crlf_app by done. by apply rtrim_crlf_solid.
Qed.

(** ** Properties *)

(** C38: how often a request is tried.  A request ends: it is performed until an
    answer below 500 comes, at most once and as many times again as retries are
    asked for, with a pause of the given length between two attempts and none
    after the last; the response is that of the last attempt alone. *)
Theorem http_attempts `{Curl} o w :
  (curl_easy_init (state w)).1 = true -> o_retry_count o < 2 ^ 31 - 1 ->
  exists rs r w',
    request o w = (Ret (response_of r), w') /\
    performs (request_transfer o) (curl_easy_init (state w)).2 (rs ++ [r]) (state w') /\
    Forall (fun x => settled_transfer x = false) rs /\ vsize rs <= Z.max 0 (o_retry_count o) /\
    (settled_transfer r = true \/ vsize rs = Z.max 0 (o_retry_count o)) /\
    performed w' = performed w ++ replicate (S (length rs)) (request_transfer o) /\
    pauses w' = pauses w ++ replicate (length rs) (o_retry_delay_ms o).
Proof.
  intros Hi Hr. unfold request, easy_init, sbind. destruct (curl_easy_init (state w)) as [b l]. cbn [fst snd] in *. subst b. cbn [negb].
  rewrite (proj2 (Z.leb_gt _ _)) by done.
  destruct (attempt_loop_spec (Z.to_nat (o_retry_count o)) (o_retry_delay_ms o) (request_transfer o) (mkWorld l (performed w) (pauses w)))
    as (rs & r & w' & E & Hp & Hf & Hl & Hs & Hpf & Hpa).
  exists rs, r, w'. rewrite E. cbn [state performed pauses] in *. unfold vsize.
  split_and!; [done..|lia|destruct Hs as [?|?]; [by left|right; lia]|done|done].
Qed.

(** A server that answers 503 twice and then 200. *)
#[local] Instance slow_start : Curl := {
  cu := nat;
  curl_easy_init := fun l => (true, l);
  curl_easy_perform := fun _ l => (mkTransfer 0 (if (l <? 2)%nat then 503 else 200) "" [], S l);
  curl_easy_strerror := fun _ => "error";
  curl_easy_escape := fun s => Some s;
  open_output := fun _ l => (true, l);
  remove_file := fun _ l => l
}.

Definition patient : HttpClientOptions := mkOptions "GET" "http://db/" "" ∅ 10 true 5 "" "" "" true "" 5 100.
Definition first_world : world := @mkWorld slow_start 0%nat [] [].

Lemma http_attempts_witness :
  exists r w', request patient first_world = (Ret (response_of r), w') /\ (length (performed w') <= 6)%nat.
Proof.
  destruct (http_attempts patient first_world eq_refl eq_refl) as (rs & r & w' & E & _ & _ & Hl & _ & Hp & _).
  exists r, w'. split; [exact E|]. rewrite Hp. cbn [performed first_world app length]. rewrite length_replicate.
  unfold vsize in Hl. cbn in Hl. lia.
Defined.

Example third_attempt_answers :
  let '(reply, w) := request patient first_world in
  reply = Ret (mkResponse 200 "" ∅ "") /\ pauses w = [100; 100].
Proof. vm_compute. split; reflexivity. Qed.

(** *** Where it falls short *)

(** A POST without a body tells libcurl to take the body from the standard
    input. *)
Example empty_post_reads_stdin : verb_of (options_for "POST" "http://db/" "" json_header 10) = VPost None.
Proof. reflexivity. Qed.

(** A method that is not one of the five, also one in lower case, is a GET without
    the body. *)
Example unknown_methods_are_get :
  verb_of (options_for "HEAD" "http://db/" "" ∅ 10) = VGet /\ verb_of (options_for "post" "http://db/" "x" ∅ 10) = VGet.
Proof. split; reflexivity. Qed.

(** The headers of the answers that redirect are mixed with those of the last. *)
Example redirect_headers_stay :
  headers_of [header_line "Location" "/login"; ""; header_line "Content-Type" "text/html"] !! "Location" = Some "/login".
Proof. vm_compute. reflexivity. Qed.

(** The greatest number of retries overflows. *)
Example retry_overflow :
  (request (mkOptions "GET" "http://db/" "" ∅ 10 true 5 "" "" "" true "" (2 ^ 31 - 1) 100) first_world).1 = Undef.
Proof. reflexivity. Qed.
