(* ===== verification/HttpServer.v ===== *)
(** * HttpServer: the HTTP server (src/net/http_server.cpp)

    Routes are functions of the program.  Sockets and Boost.Beast are outside: a
    connection is what its reads and writes give, and [need_eof] is what Beast
    says of a response.  [prepare_payload], which sets the length, is part of the
    writing. *)

From S2P Require Import Prelude Text.

(** ** Data *)

Inductive HttpMethod := GET | POST | PUT | DELETE_ | PATCH | ANY.

#[export] Instance http_method_eq_dec : EqDecision HttpMethod.
Proof. solve_decision. Defined.
#[export] Instance http_method_countable : Countable HttpMethod.
Proof.
  refine (inj_countable' (fun m => match m with GET => 0 | POST => 1 | PUT => 2 | DELETE_ => 3 | PATCH => 4 | ANY => 5 end)
            (fun z => match z with 0 => GET | 1 => POST | 2 => PUT | 3 => DELETE_ | 4 => PATCH | _ => ANY end) _).
  by intros [].
Defined.

(** The verb by its name. *)
Record HttpRequest := mkRequest { rq_verb : string; rq_target : string; rq_version : Z; rq_body : string }.

Record HttpResponse := mkResponse { rs_result : Z; rs_version : Z; rs_fields : gmap string string; rs_body : string }.

Definition HttpHandler : Type := HttpRequest -> outcome HttpResponse.

Record HttpServerConfig := mkServerConfig { cfg_host : string; cfg_port : Z; max_connections : Z; request_timeout_seconds : Z }.
Definition default_server_config : HttpServerConfig := mkServerConfig "0.0.0.0" 8080 1000 30.

(** [accepting]: an accept is outstanding. *)
Record HttpServer := mkServer {
  config : HttpServerConfig;
  routes : gmap (HttpMethod * string) HttpHandler;
  default_handler : option HttpHandler;
  running : bool;
  accepting : bool
}.

Definition server_make (c : HttpServerConfig) : HttpServer := mkServer c ∅ None false false.

(** ** Routes *)

Definition route (method : HttpMethod) (path : string) (handler : HttpHandler) (s : HttpServer) : HttpServer :=
  mkServer (config s) (<[(method, path) := handler]> (routes s)) (default_handler s) (running s) (accepting s).
Definition server_get (path : string) (handler : HttpHandler) (s : HttpServer) : HttpServer := route GET path handler s.
Definition server_post (path : string) (handler : HttpHandler) (s : HttpServer) : HttpServer := route POST path handler s.
Definition set_default_handler (handler : HttpHandler) (s : HttpServer) : HttpServer :=
  mkServer (config s) (routes s) (Some handler) (running s) (accepting s).

Definition method_of (verb : string) : HttpMethod :=
  if String.eqb verb "GET" then GET
  else if String.eqb verb "POST" then POST
  else if String.eqb verb "PUT" then PUT
  else if String.eqb verb "DELETE" then DELETE_
  else if String.eqb verb "PATCH" then PATCH
  else ANY.

(** The target without its query. *)
Definition path_of (target : string) : string := match split_at "?" target with Some (path, _) => path | None => target end.

Definition not_found_body : string :=
  "{" +:+ String "034" ("error" +:+ String "034" (":" +:+ String "034" ("not_found" +:+ String "034" ("," +:+
  String "034" ("message" +:+ String "034" (":" +:+ String "034" ("route not found" +:+ String "034" "}"))))))).

(** The response that is there before a handler makes one. *)
Definition not_found (req : HttpRequest) : HttpResponse :=
  mkResponse 404 (rq_version req) {[ "Server" := "Shield/1.0"; "Content-Type" := "application/json" ]} not_found_body.

Definition with_content_type (r : HttpResponse) : HttpResponse :=
  match rs_fields r !! "Content-Type" with
  | Some _ => r
  | None => mkResponse (rs_result r) (rs_version r) (<["Content-Type" := "application/json"]> (rs_fields r)) (rs_body r)
  end.

Definition handler_of (s : HttpServer) (req : HttpRequest) : option HttpHandler :=
  let path := path_of (rq_target req) in
  match routes s !! (method_of (rq_verb req), path) with
  | Some h => Some h
  | None => match routes s !! (ANY, path) with Some h => Some h | None => default_handler s end
  end.

Definition respond (s : HttpServer) (req : HttpRequest) : outcome HttpResponse :=
  let! r := match handler_of s req with Some h => h req | None => Ret (not_found req) end in
  Ret (with_content_type r).

(** ** Connections *)

Inductive action := Write (r : HttpResponse) | ShutdownSend.

(** [handle_session]: the first read is [None] for an error.  Nothing is read
    after it; the socket is closed when the last handler is gone.  An exception of
    a handler leaves [io_context::run]. *)
Definition handle_session (need_eof : HttpResponse -> bool) (s : HttpServer) (first_read : option HttpRequest) (written : bool)
  : outcome (list action) :=
  match first_read with
  | None => Ret []
  | Some req =>
      let! r := respond s req in
      Ret (Write r :: (if written && need_eof r then [ShutdownSend] else []))
  end.

(** ** Start, stop and accepting *)

Definition set_running (r a : bool) (s : HttpServer) : HttpServer := mkServer (config s) (routes s) (default_handler s) r a.

(** [bound]: the address is one and the port is free. *)
Definition start (bound : bool) (s : HttpServer) : HttpServer :=
  if running s then s else if bound then set_running true true s else set_running false false s.

Definition stop (s : HttpServer) : HttpServer := if running s then set_running false false s else s.

(** What an accept ended with: an error, or a connection that is served. *)
Definition accepted (error : bool) (s : HttpServer) : HttpServer * bool :=
  if error then (set_running (running s) false s, false) else (set_running (running s) (running s) s, true).

(** ** Properties *)

(** Routes as they were registered, in order. *)
Definition register_all (l : list (HttpMethod * string * HttpHandler)) (s : HttpServer) : HttpServer :=
  foldl (fun s e => route e.1.1 e.1.2 e.2 s) s l.

Definition last_for (m : HttpMethod) (path : string) (l : list (HttpMethod * string * HttpHandler)) : option HttpHandler :=
  foldl (fun o e => if bool_decide (e.1 = (m, path)) then Some e.2 else o) None l.

Lemma register_lookup l m path : forall s o, routes s !! (m, path) = o ->
  routes (register_all l s) !! (m, path) = foldl (fun o e => if bool_decide (e.1 = (m, path)) then Some e.2 else o) o l.
Proof.
  induction l as [|[[m' p'] h] l IH]; intros s o Ho; cbn [register_all foldl]; [done|]. apply IH. cbn [route routes fst snd].
  destruct (decide ((m', p') = (m, path))) as [E|E].
  - rewrite bool_decide_true by done. rewrite E. apply lookup_insert_eq.
  - rewrite bool_decide_false by done. by rewrite lookup_insert_ne.
Qed.

Lemma register_default l : forall s, default_handler (register_all l s) = default_handler s.
Proof. induction l as [|e l IH]; intros s; cbn [register_all foldl]; [done|]. unfold register_all in IH. by rewrite IH. Qed.

(** Which handler answers.  After any registrations a request is answered by
    the handler registered last for its method and its path, whatever its query;
    without one by the last for any method on this path, then by the default
    handler, and otherwise with 404 and no handler is called.  The answer has a
    content type, that of the handler when it gave one, and a connection gets one
    answer. *)
Theorem routes_decide l d c need_eof req written :
  let s := register_all l (match d with Some h => set_default_handler h (server_make c) | None => server_make c end) in
  let path := path_of (rq_target req) in
  handler_of s req = match last_for (method_of (rq_verb req)) path l with
                     | Some h => Some h
                     | None => match last_for ANY path l with Some h => Some h | None => d end
                     end /\
  (handler_of s req = None -> respond s req = Ret (not_found req)) /\
  (forall h r, handler_of s req = Some h -> h req = Ret r ->
     exists r', handle_session need_eof s (Some req) written = Ret (Write r' :: (if written && need_eof r' then [ShutdownSend] else [])) /\
       rs_result r' = rs_result r /\ rs_body r' = rs_body r /\
       rs_fields r' !! "Content-Type" = Some (default "application/json" (rs_fields r !! "Content-Type"))).
Proof.
  intros s path. split; [|split].
  - unfold handler_of, last_for. fold path. unfold s.
    rewrite !(register_lookup l _ _ _ None) by (by destruct d). rewrite register_default. by destruct d.
  - intros Hn. unfold respond. by rewrite Hn.
  - intros h r Hh Hr. exists (with_content_type r). unfold handle_session, respond. rewrite Hh, Hr. split; [done|].
    unfold with_content_type. destruct (rs_fields r !! "Content-Type") as [t|] eqn:E; [by rewrite E|]. cbn [rs_result rs_body rs_fields].
    split; [done|]. split; [done|]. by rewrite lookup_insert_eq.
Qed.

(** *** Where it falls short *)

(** After any error of an accept the server still runs and accepts nothing. *)
Lemma accept_error_ends_accepting s : running s = true ->
  running (accepted true s).1 = true /\ accepting (accepted true s).1 = false /\ start true (accepted true s).1 = (accepted true s).1.
Proof. intros Hr. cbn. unfold start. cbn. by rewrite Hr. Qed.

(** The second request of a connection is never answered, whatever it is. *)
Lemma one_answer need_eof s first_read written l :
  handle_session need_eof s first_read written = Ret l ->
  (length (List.filter (fun a => match a with Write _ => true | ShutdownSend => false end) l) <= 1)%nat.
Proof.
  unfold handle_session. destruct first_read as [req|]; [|intros [= <-]; cbn; lia].
  intros (r & _ & [= <-])%obind_ret_inv. cbn. destruct (written && need_eof r); cbn; lia.
Qed.

(** An exception of a handler is caught nowhere. *)
Example handler_exception_escapes :
  handle_session (fun _ => false) (server_get "/" (fun _ => Throw (StdExn "bad")) (server_make default_server_config))
    (Some (mkRequest "GET" "/" 11 "")) true = Throw (StdExn "bad").
Proof. reflexivity. Qed.
