(* ===== verification/LuaApi.v ===== *)
(** * LuaApi: what Lua code asks of the process (src/lua/lua_api.cpp)

    [shield.config], the messages of [shield.log], the session handles and
    their [send] and [close], [shield.cluster], [shield.plugin] and the hooks of
    [os.time] and [os.date].  Each works on the model of the part it asks:
    [Config], [Session], [Gateway], [Cluster], [PluginHost], [ServiceState]. *)

From Stdlib Require Import Floats.SpecFloat.
From S2P Require Import Prelude Text Json Codec Pipeline Schema Session PluginHost.
From S2P Require Import Config Cluster LuaPack LuaJson DbMapper SqlPlugin ServiceState Gateway Numbers.

(** ** shield.config *)

Fixpoint has_char (c : Ascii.ascii) (s : string) : bool :=
  match s with EmptyString => false | String d s => Ascii.eqb c d || has_char c s end.

Definition looks_like_float (v : string) : bool := has_char "." v || has_char "e" v || has_char "E" v.

(** What was read, when it was read to the end of the text. *)
Definition whole {A} (o : option (A * Z)) (v : string) : option A :=
  match o with Some (x, pos) => if pos =? slen v then Some x else None | None => None end.

Definition number (d : spec_float) : lval := VNum (bits_of_double d).

(** The value of a setting by its text. *)
Definition config_value (v : string) : lval :=
  if String.eqb v "true" then VBool true
  else if String.eqb v "false" then VBool false
  else if looks_like_float v then from_option number (text v) (whole (stod v) v)
  else match whole (stoll_pos v) v with
       | Some z => VInt z
       | None => from_option number (text v) (whole (stod v) v)
       end.

Definition api_config (c : Config) (key : string) (default_value : option lval) : lval :=
  if has c key then config_value (Config.get_string c key "") else default VNil default_value.

(** ** shield.log *)

Definition build_msg `{JsonLib, SolKeys} (manager : option State) (v : lval) : outcome string :=
  let! j := lua_to_json_value v in
  match json_dump j with
  | inl e => Throw e
  | inr msg =>
      Ret (match manager with
           | None => msg
           | Some m => let sid := current_service_id m in
                       if str_empty sid then msg else "[" +:+ sid +:+ "] " +:+ msg
           end)
  end.

(** ** Session handles *)

(** The weak pointer stands for the session it was made from. *)
Record SessionHandle := mkSessionHandle { h_session : option Z; h_id : string; h_remote_address : string }.

Definition make_session_handle (id remote_addr : string) (g : GatewayState) : SessionHandle * GatewayState :=
  let '(live, g) := resolve_session_handle id g in (mkSessionHandle live id remote_addr, g).

(** [SessionHandle::resolve]: the session that is still there, or the one that the
    registry has under this name. *)
Definition resolve (h : SessionHandle) (g : GatewayState) : option Z * SessionHandle * GatewayState :=
  match h_session h ≫= (fun sid => if bool_decide (is_Some (sessions g !! sid)) then Some sid else None) with
  | Some sid => (Some sid, h, g)
  | None =>
      let '(live, g) := resolve_session_handle (h_id h) g in
      (live, match live with Some _ => mkSessionHandle live (h_id h) (h_remote_address h) | None => h end, g)
  end.

(** [payload.is<sol::table>()] comes before the raw text.  [None]: this payload is
    not for a structured protocol. *)
Section Payload.
Context `{JsonLib} `{SolKeys}.

Definition dumped (j : json) : outcome (list byte) :=
  match json_dump j with inl e => Throw e | inr t => Ret (bytes_of t) end.

Definition message_of (j : json) : DecodedBody := mkBody 0 0 0 "" [] (Some j).
Definition bytes_body (b : list byte) : DecodedBody := mkBody 0 0 0 "" b None.

Definition converted_message (raw_protocol : bool) (payload : lval) : outcome (option DecodedBody) :=
  let! j := lua_to_json_value payload in
  if is_object j || is_array j then Ret (Some (message_of j))
  else if raw_protocol then
    match j with
    | JStr s => Ret (Some (bytes_body (bytes_of s)))
    | _ => let! b := dumped j in Ret (Some (bytes_body b))
    end
  else Ret None.

Definition protocol_message (raw_protocol : bool) (payload : lval) : outcome (option DecodedBody) :=
  match payload with
  | VTable entries => let! j := lua_table_to_json entries in Ret (Some (message_of j))
  | VStr s => if raw_protocol then Ret (Some (bytes_body s)) else converted_message raw_protocol payload
  | _ => converted_message raw_protocol payload
  end.

Definition raw_payload (payload : lval) : outcome (list byte) :=
  match payload with
  | VStr s => Ret s
  | VTable entries => let! j := lua_table_to_json entries in dumped j
  | _ => let! j := lua_to_json_value payload in match j with JStr s => Ret (bytes_of s) | _ => dumped j end
  end.
End Payload.

(** *** The errors *)

Definition closed_error : lval := error_table "session_closed" "session is closed".
Definition message_required : lval :=
  error_table "protocol_message_required" "structured protocol session expects table/object payload".
Definition queue_full : lval :=
  VTable [(text "code", text "session_send_queue_full"); (text "message", text "session send queue is full");
          (text "retryable", VBool true)].

Definition message_send_error (e : string) : lval :=
  if mentions "session_send_queue_full" e then queue_full
  else if mentions "session is closed" e then closed_error
  else error_table "protocol_not_configured" (if str_empty e then "protocol pipeline is not configured" else e).

Definition raw_send_error (e : string) : lval :=
  if mentions "session_send_queue_full" e then queue_full
  else if mentions "session is closed" e then closed_error
  else error_table "session_send_failed" (if str_empty e then "session send failed" else "session send failed: " +:+ e).

(** *** send and close *)

(** A call of [send] or [send_message] by a thread that is not interrupted. *)
Definition session_send (c : Session.Config) (w : Work) (s : Session.State) : Session.State :=
  let s1 := send_enter w s in
  let i := length (callers s) in
  match callers s1 !! i with
  | Some _ => send_commit c i w (queued_count_ s1) (send_reserve i w s1)
  | None => s1
  end.

(** What the call gave back. *)
Definition last_answer (s : Session.State) : bool * string := default (true, "") (list.last (returns s)).

Definition sent (error : string -> lval) (c : Session.Config) (w : Work) (s : Session.State) : list lval * Session.State :=
  let s' := session_send c w s in
  let '(ok, e) := last_answer s' in
  (if (ok : bool) then [VBool true; VNil] else [VBool false; error e], s').

(** [protocol_codec_name] *)
Definition protocol_codec_name (s : Session.State) : string :=
  from_option default_codec_name "" (protocol_pipeline_ s).

(** [None]: the handle has no session. *)
Definition handle_send `{JsonLib, SolKeys} (c : Session.Config) (payload : lval) (session : option Session.State)
  : outcome (list lval * option Session.State) :=
  match session with
  | None => Ret ([VBool false; closed_error], None)
  | Some s =>
      if negb (alive_ s) then Ret ([VBool false; closed_error], Some s)
      else match protocol_pipeline_ s with
           | Some _ =>
               let! m := protocol_message (String.eqb (protocol_codec_name s) "raw") payload in
               Ret (match m with
                    | None => ([VBool false; message_required], Some s)
                    | Some m => let '(r, s) := sent message_send_error c (WMessage m) s in (r, Some s)
                    end)
           | None =>
               let! b := raw_payload payload in
               let '(r, s) := sent raw_send_error c (WRaw b) s in Ret (r, Some s)
           end
  end.

(** [close] by a thread that is not interrupted. *)
Definition session_close (reason : string) (s : Session.State) : Session.State :=
  if alive_ s then leave (length (callers s)) (finish_close reason (close_enter reason s)) else s.

Definition handle_close (reason : option string) (session : option Session.State) : option Session.State :=
  session_close (default "normal" reason) <$> session.

(** ** shield.cluster *)

(** An unsigned number: one that is no [lua_Integer] becomes a double. *)
Definition push_u64 (z : Z) : lval := if z <? 2 ^ 63 then VInt z else number (double_of_Z z).

(** [make_error] with its flag. *)
Definition lua_error (code message : string) : lval :=
  VTable [(text "code", text code); (text "message", text message); (text "retryable", VBool false)].

Definition cluster_query (m : option ClusterManager) (node_id service_name : string) : list lval :=
  match m with
  | None => [VNil; lua_error "module_unavailable" "shield_cluster is not enabled"]
  | Some m =>
      let reachable := check_node_reachable node_id m in
      if negb (str_empty reachable) then [VNil; lua_error reachable ("cluster node is not reachable: " +:+ node_id)]
      else
        let service_id := query_remote node_id service_name m in
        if str_empty service_id then [VNil; lua_error "service_not_found" ("remote service not found: " +:+ service_name)]
        else [text service_id; VNil]
  end.

Definition node_entry (n : NodeInfo) : lval :=
  VTable (record [("node_id", text (nd_node_id n)); ("address", text (nd_address n));
                  ("state", text (node_state_name (nd_state n))); ("last_heartbeat_ms", VInt (last_heartbeat_ms n));
                  ("connected_at_ms", VInt (connected_at_ms n)); ("epoch", push_u64 (nd_epoch n))]).

(** The nodes in the order of the hash table. *)
Definition cluster_nodes (m : option ClusterManager) : lval :=
  match m with Some m => sequence (map (fun e => node_entry e.2) (map_to_list (cl_nodes m))) | None => VTable [] end.

Definition cluster_node_id (m : option ClusterManager) : lval :=
  match m with
  | Some m => let id := cl_node_id (cl_config m) in if str_empty id then VNil else text id
  | None => VNil
  end.

Definition cluster_node_epoch (m : option ClusterManager) : lval :=
  push_u64 (match m with Some m => node_epoch m | None => 0 end).

(** ** shield.plugin *)

Definition package_row (p : PackageInfo) : lval :=
  VTable (record [("id", text (pinfo_id p)); ("version", text (pinfo_version p)); ("kind", text (pinfo_kind p));
                  ("docs_url", text (pinfo_docs_url p)); ("docs_description", text (pinfo_docs_description p));
                  ("provides", sequence (map text (pinfo_provides p)))]).

Definition plugin_packages (h : Host) : lval := sequence (map package_row (list_packages h)).

Definition instance_row (i : InstanceInfo) : lval :=
  VTable (record [("id", text (info_id i)); ("package", text (info_package i)); ("state", text (info_state i));
                  ("required", VBool (info_required i))]).

Definition plugin_instances (h : Host) : lval := sequence (map instance_row (list_instances h)).

Definition plugin_instance (h : Host) (id : string) : lval :=
  from_option instance_row VNil (List.find (fun i => String.eqb (info_id i) id) (list_instances h)).

Definition plugin_binding (h : Host) (name : string) : lval :=
  match get_binding name h with
  | None => VNil
  | Some b => VTable (record [("instance_id", text (binfo_instance_id b)); ("interface", text (binfo_interface b))])
  end.

(** ** os.time and os.date *)

(** The functions of Lua itself. *)
Class LuaOs := {
  orig_time : list (lval * lval) -> outcome lval;
  orig_date : option string -> lval -> outcome lval
}.

Definition os_time `{LuaOs, LuaWorld} (t : option (list (lval * lval))) (m : State) : outcome lval :=
  match t with Some t => orig_time t | None => Ret (VInt (clock_now_seconds m)) end.

(** The time as a double. *)
Definition os_date `{LuaOs, LuaWorld} (fmt : option string) (t : option spec_float) (m : State) : outcome lval :=
  orig_date fmt (number (default (double_of_Z (clock_now_seconds m)) t)).

(** ** Properties of shield.config *)

Definition float_mark (c : Ascii.ascii) : bool := Ascii.eqb "." c || Ascii.eqb "e" c || Ascii.eqb "E" c.

Lemma has_char_all (p : Ascii.ascii -> bool) c s : p c = false -> str_all p s = true -> has_char c s = false.
Proof.
  intros Hc. induction s as [|d s IH]; [done|]. cbn. intros [Hd Hs]%andb_prop. rewrite (IH Hs), orb_false_r.
  apply Ascii.eqb_neq. by intros <-; rewrite Hc in Hd.
Qed.

Lemma no_float_mark s : str_all (fun c => negb (float_mark c)) s = true -> looks_like_float s = false.
Proof. intros H. unfold looks_like_float. by rewrite !(has_char_all (fun c => negb (float_mark c))). Qed.

Lemma digit_no_mark d : 0 <= d < 10 -> negb (float_mark (digit d)) = true.
Proof.
  intros Hd. assert (d = 0 \/ d = 1 \/ d = 2 \/ d = 3 \/ d = 4 \/ d = 5 \/ d = 6 \/ d = 7 \/ d = 8 \/ d = 9) as H by lia.
  by repeat destruct H as [-> | H]; [..|subst d].
Qed.

Lemma printed_no_mark z : looks_like_float (to_string_i64 z) = false.
Proof.
  apply no_float_mark. unfold to_string_i64, to_string_u64. destruct (Z.ltb_spec z 0).
  - change (str_all (fun c => negb (float_mark c)) (dec_digits 20 (- z) "") = true).
    apply dec_digits_solid; [exact digit_no_mark|lia|done].
  - apply dec_digits_solid; [exact digit_no_mark|lia|done].
Qed.

(** What prints an integer is neither of the words. *)
Lemma config_value_printed z : - 2 ^ 63 <= z < 2 ^ 63 -> config_value (to_string_i64 z) = VInt z.
Proof.
  intros Hz. pose proof (stoll_printed z Hz) as Hs. unfold config_value.
  destruct (String.eqb_spec (to_string_i64 z) "true") as [E|_]; [by rewrite E in Hs|].
  destruct (String.eqb_spec (to_string_i64 z) "false") as [E|_]; [by rewrite E in Hs|].
  rewrite printed_no_mark, Hs. unfold whole. by rewrite Z.eqb_refl.
Qed.

(** What [shield.config] gives.  A setting that is there comes back by its
    kind: an integer of the configuration is this integer and a flag is this flag;
    a text is itself unless it is one of the two words or a number from its first
    character to its last, and a printed integer is the integer.  A double comes
    back from its six decimals, a list or a node is the empty text, and a setting
    that is not there is the default, or nil. *)
Theorem config_reads c key d :
  match storage c !! key with
  | None => api_config c key d = default VNil d
  | Some (SBool b) => api_config c key d = VBool b
  | Some (SInt z) => - 2 ^ 63 <= z < 2 ^ 63 -> api_config c key d = VInt z
  | Some (SDouble f) => api_config c key d = config_value (to_string_double f)
  | Some (SString s) =>
      (s <> "true" -> s <> "false" -> whole (stoll_pos s) s = None -> whole (stod s) s = None -> api_config c key d = text s) /\
      (forall z, - 2 ^ 63 <= z < 2 ^ 63 -> s = to_string_i64 z -> api_config c key d = VInt z)
  | Some (SArray _) | Some (SNode _) => api_config c key d = text ""
  end.
Proof.
  unfold api_config, has, Config.get_string. destruct (storage c !! key) as [v|] eqn:E; [|done].
  rewrite bool_decide_true by done. destruct v as [s|z|f|[]|l|n]; try done.
  - split; [|intros z Hz ->; by apply config_value_printed]. intros Ht Hf Hi Hd. unfold config_value.
    rewrite (proj2 (String.eqb_neq _ _) Ht), (proj2 (String.eqb_neq _ _) Hf), Hi, Hd. by destruct (looks_like_float s).
  - apply config_value_printed.
Qed.

(** ** Properties of [send] *)

(** What [send] and [send_message] look at before they take a place. *)
Definition takes_place (w : Work) (s : Session.State) : Prop :=
  alive_ s = true /\ match w with WRaw b => b <> [] | WMessage _ => is_Some (protocol_pipeline_ s) end.

(** Nothing of the session has changed but the answers given. *)
Definition only_answered (s s' : Session.State) : Prop :=
  posts s' = posts s /\ callers s' = callers s /\ queued_count_ s' = queued_count_ s /\ alive_ s' = alive_ s.

Lemma send_enter_place w s : takes_place w s -> send_enter w s = Session.set_callers (callers s ++ [Checked w]) s.
Proof.
  intros [Ha Hw]. unfold send_enter. rewrite Ha. cbn [negb]. destruct w as [[|b bs]|m]; [done|done|].
  destruct Hw as [p Hp]. by rewrite Hp.
Qed.

Lemma delete_last {A} (l : list A) x y : delete (length l) (<[length l := y]> (l ++ [x])) = l.
Proof. induction l as [|z l IH]; [done|]. cbn. by f_equal. Qed.

Lemma session_send_taken c w s : takes_place w s -> 0 <= queued_count_ s < 2 ^ 64 ->
  let s' := session_send c w s in
  callers s' = callers s /\ alive_ s' = alive_ s /\
  if over_limit c (queued_count_ s)
  then last_answer s' = (false, "session_send_queue_full") /\ posts s' = posts s /\ queued_count_ s' = queued_count_ s
  else last_answer s' = (true, "") /\ posts s' = posts s ++ [PSend w] /\ queued_count_ s' = u64 (queued_count_ s + 1).
Proof.
  intros Ht Hq. unfold session_send. rewrite (send_enter_place w s Ht). cbn [Session.set_callers callers queued_count_].
  rewrite lookup_app_r, Nat.sub_diag by lia. cbn [lookup list_lookup].
  unfold send_commit, send_reserve. destruct (over_limit c (queued_count_ s)) eqn:Ho; cbn; rewrite delete_last;
    unfold last_answer; cbn; rewrite last_snoc; split_and!; try done.
  rewrite u64_sub. replace (queued_count_ s + 1 - 1) with (queued_count_ s) by lia. by apply Z.mod_small.
Qed.

Lemma sent_taken error c w s : takes_place w s -> 0 <= queued_count_ s < 2 ^ 64 ->
  let '(r, s') := sent error c w s in
  callers s' = callers s /\ alive_ s' = alive_ s /\
  if over_limit c (queued_count_ s)
  then r = [VBool false; error "session_send_queue_full"] /\ posts s' = posts s /\ queued_count_ s' = queued_count_ s
  else r = [VBool true; VNil] /\ posts s' = posts s ++ [PSend w].
Proof.
  intros Ht Hq. pose proof (session_send_taken c w s Ht Hq) as (Hc & Ha & H). unfold sent.
  destruct (over_limit c (queued_count_ s)); destruct H as (-> & Hp & Hn); by split_and!.
Qed.

(** An empty text takes no place. *)
Lemma sent_nothing error c s : alive_ s = true ->
  exists s', sent error c (WRaw []) s = ([VBool true; VNil], s') /\ only_answered s s'.
Proof.
  intros Ha. unfold sent, session_send, send_enter. rewrite Ha. cbn [negb Session.answer Session.set_returns callers].
  rewrite lookup_ge_None_2 by lia. unfold last_answer. cbn. rewrite last_snoc. by eexists.
Qed.

(** The raw codec takes every payload. *)
Lemma raw_takes_all `{JsonLib, SolKeys} payload : protocol_message true payload <> Ret None.
Proof.
  assert (Hc : converted_message true payload <> Ret None).
  { intros (j & _ & Hj)%obind_ret_inv. destruct (is_object j || is_array j); [done|].
    destruct j; try done; by apply obind_ret_inv in Hj as (? & _ & Hj). }
  destruct payload; try done. by intros (j & _ & Hj)%obind_ret_inv.
Qed.

(** C35: what a session handle answers.  On a live session with room the payload
    is posted once, as a message when the session speaks a protocol and as bytes
    otherwise, and the answer is true; the one exception is an empty text on a
    session without a protocol, for which nothing is posted.  Every refusal leaves
    the queue as it was and says why: the session is closed, the protocol wants a
    table, or the queue is full, and only the last can be tried again. *)
Theorem handle_send_decides `{JsonLib, SolKeys} c payload s r o :
  0 <= queued_count_ s < 2 ^ 64 ->
  handle_send c payload (Some s) = Ret (r, o) ->
  exists s', o = Some s' /\ callers s' = callers s /\ alive_ s' = alive_ s /\
    ((r = [VBool true; VNil] /\ alive_ s = true /\
      ((over_limit c (queued_count_ s) = false /\
        ((exists p m, protocol_pipeline_ s = Some p /\ posts s' = posts s ++ [PSend (WMessage m)] /\
                      protocol_message (String.eqb (protocol_codec_name s) "raw") payload = Ret (Some m)) \/
         (exists b, protocol_pipeline_ s = None /\ posts s' = posts s ++ [PSend (WRaw b)] /\ raw_payload payload = Ret b))) \/
       (posts s' = posts s /\ protocol_pipeline_ s = None /\ raw_payload payload = Ret []))) \/
     (exists e, r = [VBool false; e] /\ posts s' = posts s /\ queued_count_ s' = queued_count_ s /\
       ((e = closed_error /\ alive_ s = false) \/
        (e = message_required /\ protocol_codec_name s <> "raw" /\ is_Some (protocol_pipeline_ s)) \/
        (e = queue_full /\ over_limit c (queued_count_ s) = true)))).
Proof.
  intros Hq. unfold handle_send. destruct (alive_ s) eqn:Ha; cbn [negb];
    [|intros [= <- <-]; eexists; split_and!; [done..|]; right; eexists; split_and!; try done; by left].
  destruct (protocol_pipeline_ s) as [p|] eqn:Hp.
  - intros (m & Hm & H1)%obind_ret_inv. destruct m as [m|].
    + pose proof (sent_taken message_send_error c (WMessage m) s (conj Ha (ex_intro _ p Hp)) Hq) as Hs.
      destruct (sent message_send_error c (WMessage m) s) as [r' s']. injection H1 as <- <-. rewrite Ha in Hs.
      destruct Hs as (Hc & Ha' & Hs). exists s'. split_and!; [done..|].
      destruct (over_limit c (queued_count_ s)).
      * destruct Hs as (-> & Hps & Hn). right. eexists. split_and!; try done. right. by right.
      * destruct Hs as (-> & Hps). left. split_and!; [done..|]. left. split; [done|]. left. by exists p, m.
    + injection H1 as <- <-. exists s. split_and!; [done..|]. right. eexists. split_and!; try done. right. left.
      split_and!; [done| |by eexists]. intros Hraw. rewrite Hraw in Hm. by eapply raw_takes_all.
  - intros (b & Hb & H1)%obind_ret_inv. destruct (decide (b = [])) as [->|Hne].
    + destruct (sent_nothing raw_send_error c s Ha) as (s' & Es & Hs). rewrite Es in H1. injection H1 as <- <-.
      destruct Hs as (H1 & H2 & H3 & H4). exists s'. rewrite H4. split_and!; [done..|]. left. split_and!; [done..|]. by right.
    + pose proof (sent_taken raw_send_error c (WRaw b) s (conj Ha Hne) Hq) as Hs.
      destruct (sent raw_send_error c (WRaw b) s) as [r' s']. injection H1 as <- <-. rewrite Ha in Hs.
      destruct Hs as (Hc & Ha' & Hs). exists s'. split_and!; [done..|].
      destruct (over_limit c (queued_count_ s)).
      * destruct Hs as (-> & Hps & Hn). right. eexists. split_and!; try done. right. by right.
      * destruct Hs as (-> & Hps). left. split_and!; [done..|]. left. split; [done|]. right. by exists b.
Qed.

#[local] Existing Instance demo_lib.
#[local] Instance no_float_keys : SolKeys := {| float_key := fun _ => None |}.

Definition idle_session : Session.State := fresh_session one_slot None 0.

Lemma handle_send_decides_witness :
  (exists s', handle_send one_slot (VStr (bytes_of "hi")) (Some idle_session) = Ret ([VBool true; VNil], Some s')) /\
  exists r o, handle_send one_slot (VStr (bytes_of "hi")) (Some idle_session) = Ret (r, o) /\
  exists s', o = Some s' /\ posts s' = posts idle_session ++ [PSend (WRaw (bytes_of "hi"))].
Proof.
  split; [by eexists|]. do 2 eexists. split; [reflexivity|].
  pose proof (handle_send_decides one_slot (VStr (bytes_of "hi")) idle_session [VBool true; VNil] _ ltac:(done) eq_refl)
    as (s' & Ho & _ & _ & [(_ & _ & [(_ & [(p & _ & Hp & _)|(b & _ & Hps & Hb)])|(_ & _ & Hb)])|(e & He & _)]).
  - done.
  - exists s'. split; [exact Ho|]. by injection Hb as <-.
  - done.
  - done.
Defined.

(** Sending and closing are steps of the session. *)
Lemma session_send_steps c w s : takes_place w s ->
  exists s1 s2, step c (LSend w) s = Some s1 /\ step c (LReserve (length (callers s))) s1 = Some s2 /\
    step c (LCommit (length (callers s))) s2 = Some (session_send c w s).
Proof.
  intros Ht. unfold session_send. cbn [step]. rewrite (send_enter_place w s Ht).
  eexists _, _. split; [done|]. cbn [Session.set_callers callers queued_count_].
  rewrite lookup_app_r, Nat.sub_diag by lia. cbn [lookup list_lookup]. split; [reflexivity|].
  cbn [send_reserve Session.fetch_add Session.set_queued_count Session.set_callers callers queued_count_].
  by rewrite list_lookup_insert_eq by (rewrite length_app; cbn; lia).
Qed.

Lemma session_close_steps c reason s : alive_ s = true ->
  exists s1, step c (LClose reason) s = Some s1 /\ step c (LFinishClose (length (callers s))) s1 = Some (session_close reason s).
Proof.
  intros Ha. unfold session_close. rewrite Ha. eexists. split; [done|]. cbn [step]. unfold close_enter. rewrite Ha.
  cbn [Session.set_callers Session.set_alive callers]. rewrite lookup_app_r, Nat.sub_diag by lia. done.
Qed.

(** A service of another node is named only when that node can be reached and the
    route is known. *)
Lemma cluster_query_answers m node service id : cluster_query m node service = [text id; VNil] ->
  exists s n, m = Some s /\ cl_nodes s !! node = Some n /\ (nd_state n = Online \/ nd_state n = Connecting) /\
    query_remote node service s <> "".
Proof.
  unfold cluster_query. destruct m as [s|]; [|done]. unfold check_node_reachable.
  destruct (cl_nodes s !! node) as [n|] eqn:E; [|done]. destruct (nd_state n) eqn:En; try done; cbn [str_empty negb];
    destruct (str_empty (query_remote node service s)) eqn:Eq; try done; intros _; exists s, n; split_and!; auto;
    by intros E'; rewrite E' in Eq.
Qed.

(** *** Where it falls short *)

Definition with_setting (v : StorageValue) : Config := Config.set "k" v config_make.

(** Texts that look like numbers become numbers, and small doubles are lost on the
    way through the text with six decimals. *)
Example config_texts_change :
  api_config (with_setting (SString "007")) "k" None = VInt 7 /\
  api_config (with_setting (SString "1e3")) "k" None = number (double_of_Z 1000) /\
  api_config (with_setting (SString "nan")) "k" None = number S754_nan /\
  api_config (with_setting (SDouble (nearest_double false 1 (-9)))) "k" None = number (S754_zero false) /\
  api_config (with_setting (SArray ["a"; "b"])) "k" None = text "".
Proof. vm_compute. done. Qed.

(** An epoch is a random number of 64 bits: half of them reach Lua rounded. *)
Example epochs_are_rounded :
  cluster_node_epoch (Some (cluster_make demo_cluster (2 ^ 63 + 1) (fun _ => 0))) =
  cluster_node_epoch (Some (cluster_make demo_cluster (2 ^ 63) (fun _ => 0))).
Proof. vm_compute. done. Qed.

(** The answer to an empty text is true although nothing is sent. *)
Example empty_text_not_sent :
  exists s', handle_send one_slot (VStr []) (Some idle_session) = Ret ([VBool true; VNil], Some s') /\ posts s' = [].
Proof. by eexists. Qed.
