(* ===== verification/ByteBuffer.v ===== *)
(** * ByteBuffer: bytes with a reading position (include/shield/base/byte_buffer.hpp)

    [data_], [read_pos_] and [write_pos_] are the members of the class; what
    is written goes to the end of [data_], integers in the order of the host,
    which is little-endian.  Reading behind the end gives 0 and moves nothing. *)

From S2P Require Import Prelude Text Wire.

(** ** Data *)

Record ByteBuffer := mkBuffer { data_ : list byte; read_pos_ : Z; write_pos_ : Z }.

Definition buffer_make : ByteBuffer := mkBuffer [] 0 0.

(** The constructor with a capacity resizes. *)
Definition buffer_capacity (capacity : Z) : ByteBuffer := mkBuffer (replicate (Z.to_nat capacity) (byte.of_Z 0)) 0 0.
Definition buffer_of (bytes : list byte) : ByteBuffer := mkBuffer bytes 0 0.
Definition from_string (s : string) : ByteBuffer := buffer_of (bytes_of s).
Definition to_string (b : ByteBuffer) : string := string_of (data_ b).
Definition buffer_size (b : ByteBuffer) : Z := vsize (data_ b).

(** ** Operations *)

(** [clear] leaves the reading position. *)
Definition buffer_clear (b : ByteBuffer) : ByteBuffer := mkBuffer [] (read_pos_ b) 0.

Definition buffer_resize (n : Z) (b : ByteBuffer) : ByteBuffer :=
  mkBuffer (take (Z.to_nat n) (data_ b) ++ replicate (Z.to_nat n - length (data_ b)) (byte.of_Z 0)) (read_pos_ b) (write_pos_ b).

Definition buffer_write (bytes : list byte) (b : ByteBuffer) : ByteBuffer :=
  mkBuffer (data_ b ++ bytes) (read_pos_ b) (write_pos_ b).

(** [write_uint8] to [write_uint64], by the width in bytes. *)
Definition write_int (width value : Z) (b : ByteBuffer) : ByteBuffer := buffer_write (write_uint value width Little []) b.

(** [read_uint8] to [read_uint64].  The check adds to the position modulo [2^64];
    what it lets through that is not there is read all the same. *)
Definition read_int (width : Z) (b : ByteBuffer) : outcome (Z * ByteBuffer) :=
  if vsize (data_ b) <? u64 (read_pos_ b + width) then Ret (0, b)
  else if vsize (data_ b) <? read_pos_ b + width then Undef
  else Ret (read_uint (take (Z.to_nat width) (drop (Z.to_nat (read_pos_ b)) (data_ b))) Little,
            mkBuffer (data_ b) (u64 (read_pos_ b + width)) (write_pos_ b)).

Definition set_read_position (pos : Z) (b : ByteBuffer) : ByteBuffer := mkBuffer (data_ b) pos (write_pos_ b).

(** ** Hexadecimal output *)

Definition hex_char (n : Z) : Ascii.ascii :=
  if n <? 10 then Ascii.ascii_of_N (Z.to_N (48 + n)) else Ascii.ascii_of_N (Z.to_N (87 + n)).

Fixpoint hex_bytes (i : Z) (l : list byte) : string :=
  match l with
  | [] => ""
  | b :: l =>
      let v := byte.unsigned b in
      String (hex_char (Z.land (Z.shiftr v 4) 0x0f)) (String (hex_char (Z.land v 0x0f))
        (String (if (i + 1) mod 16 =? 0 then "010"%char else " "%char) (hex_bytes (i + 1) l)))
  end.

Definition hex_dump (max_bytes : Z) (b : ByteBuffer) : string :=
  hex_bytes 0 (take (Z.to_nat (Z.min (buffer_size b) max_bytes)) (data_ b)) +:+
  (if max_bytes <? buffer_size b then "..." else "").

(** ** What is written is read *)

(** Integers with their widths, one after the other. *)
Definition write_all (l : list (Z * Z)) (b : ByteBuffer) : ByteBuffer := foldl (fun b e => write_int e.1 e.2 b) b l.

Fixpoint read_all (widths : list Z) (b : ByteBuffer) : outcome (list Z * ByteBuffer) :=
  match widths with
  | [] => Ret ([], b)
  | w :: widths =>
      let! r := read_int w b in
      let! rest := read_all widths r.2 in
      Ret (r.1 :: rest.1, rest.2)
  end.

(** The bytes of the integers. *)
Definition encoded (l : list (Z * Z)) : list byte := concat (map (fun e => write_uint e.2 e.1 Little []) l).

Definition widths_ok (l : list (Z * Z)) : Prop := Forall (fun e => valid_integer_width e.1 = true) l.

Lemma write_all_data l b : write_all l b = mkBuffer (data_ b ++ encoded l) (read_pos_ b) (write_pos_ b).
Proof.
  revert b. induction l as [|[w v] l IH]; intros b; cbn [write_all foldl].
  - destruct b. unfold encoded. cbn. by rewrite app_nil_r.
  - unfold write_all in IH. rewrite IH. unfold write_int, buffer_write, encoded. cbn. by rewrite app_assoc.
Qed.

(** An integer at the reading position. *)
Lemma read_int_here w v pre post n : valid_integer_width w = true -> vsize (pre ++ write_uint v w Little [] ++ post) < 2 ^ 64 ->
  let d := pre ++ write_uint v w Little [] ++ post in
  read_int w (mkBuffer d (vsize pre) n) = Ret (v `mod` 2 ^ (w * 8), mkBuffer d (vsize pre + w) n).
Proof.
  intros Hw Hsz d. pose proof (valid_integer_width_range w Hw) as Hr. pose proof (write_uint_length v w Little ltac:(lia)) as Hl.
  assert (Hd : vsize d = vsize pre + w + vsize post) by (unfold d, vsize in *; rewrite !length_app; lia).
  pose proof (vsize_nonneg pre). pose proof (vsize_nonneg post). unfold read_int. cbn [data_ read_pos_ write_pos_].
  fold d in Hsz. rewrite cast_small by lia.
  rewrite (proj2 (Z.ltb_ge _ _)) by lia. f_equal. f_equal.
  rewrite <- (read_write_uint_mod v w Little Hw). f_equal. unfold d.
  replace (Z.to_nat (vsize pre)) with (length pre) by (unfold vsize; lia). rewrite drop_app_length.
  replace (Z.to_nat w) with (length (write_uint v w Little [])) by (unfold vsize in Hl; lia). by rewrite take_app_length.
Qed.

Lemma read_all_here l : forall pre post n, widths_ok l -> vsize (pre ++ encoded l ++ post) < 2 ^ 64 ->
  let d := pre ++ encoded l ++ post in
  read_all (map fst l) (mkBuffer d (vsize pre) n) =
    Ret (map (fun e => e.2 `mod` 2 ^ (e.1 * 8)) l, mkBuffer d (vsize (pre ++ encoded l)) n).
Proof.
  induction l as [|[w v] l IH]; intros pre post n Hw Hsz d; cbn [map read_all].
  - unfold encoded. cbn. by rewrite app_nil_r.
  - unfold widths_ok in Hw. apply Forall_cons_1 in Hw as [Hw Hl]. cbn [fst snd] in *.
    assert (Ed : d = pre ++ write_uint v w Little [] ++ encoded l ++ post) by (unfold d, encoded; cbn; by rewrite !app_assoc).
    assert (Ed2 : d = (pre ++ write_uint v w Little []) ++ encoded l ++ post) by (by rewrite Ed, !app_assoc).
    fold d in Hsz. pose proof (read_int_here w v pre (encoded l ++ post) n Hw) as Hh. cbv zeta in Hh. rewrite <- Ed in Hh.
    rewrite Hh by done. cbn [obind snd fst].
    pose proof (IH (pre ++ write_uint v w Little []) post n Hl) as Hi. cbv zeta in Hi. rewrite <- Ed2 in Hi.
    pose proof (write_uint_length v w Little ltac:(apply valid_integer_width_range in Hw; lia)) as Hwl.
    replace (vsize (pre ++ write_uint v w Little [])) with (vsize pre + w) in Hi by (unfold vsize in *; rewrite length_app; lia).
    rewrite Hi by done. cbn [obind fst snd]. do 2 f_equal. unfold encoded. cbn. f_equal. by rewrite !app_assoc.
Qed.

(** What is written into a buffer is read from it.  Integers of any widths
    that are written after each other are read back in this order, modulo their
    width, whatever the buffer holds before; then the position is the end, and
    reading further gives 0 and moves nothing. *)
Theorem buffer_roundtrip l pre n w :
  widths_ok l -> vsize pre + vsize (encoded l) < 2 ^ 63 -> valid_integer_width w = true ->
  let b := write_all l (mkBuffer pre (vsize pre) n) in
  let b' := mkBuffer (data_ b) (buffer_size b) n in
  read_all (map fst l) b = Ret (map (fun e => e.2 `mod` 2 ^ (e.1 * 8)) l, b') /\
  read_int w b' = Ret (0, b').
Proof.
  intros Hw Hsz Hv b b'. unfold b', b. rewrite write_all_data. unfold buffer_size. cbn [data_ read_pos_ write_pos_].
  assert (Hs : vsize (pre ++ encoded l) < 2 ^ 63) by (unfold vsize in *; rewrite length_app; lia). split.
  - pose proof (read_all_here l pre [] n Hw) as Hr. cbv zeta in Hr. rewrite app_nil_r in Hr. apply Hr. lia.
  - apply valid_integer_width_range in Hv. unfold read_int. cbn [data_ read_pos_]. pose proof (vsize_nonneg (pre ++ encoded l)).
    rewrite cast_small by lia. by rewrite (proj2 (Z.ltb_lt _ _)) by lia.
Qed.

Lemma buffer_roundtrip_witness :
  read_all [2; 1; 8] (write_all [(2, 513); (1, 300); (8, 2 ^ 64 - 1)] buffer_make)
  = Ret ([513; 44; 2 ^ 64 - 1], mkBuffer (encoded [(2, 513); (1, 300); (8, 2 ^ 64 - 1)]) 11 0).
Proof.
  exact (proj1 (buffer_roundtrip [(2, 513); (1, 300); (8, 2 ^ 64 - 1)] [] 0 4
    ltac:(repeat constructor) eq_refl eq_refl)).
Defined.

(** ** Reading stays inside *)

Inductive buffer_op := OpWrite (bytes : list byte) | OpInt (width value : Z) | OpRead (width : Z) | OpClear | OpResize (n : Z).

(** A vector has less than [2^63] bytes. *)
Definition fits (b : ByteBuffer) : bool := vsize (data_ b) <? 2 ^ 63.

Definition buffer_step (o : buffer_op) (b : ByteBuffer) : outcome ByteBuffer :=
  match o with
  | OpWrite bytes => Ret (buffer_write bytes b)
  | OpInt w v => Ret (write_int w v b)
  | OpRead w => let! r := read_int w b in Ret r.2
  | OpClear => Ret (buffer_clear b)
  | OpResize n => Ret (buffer_resize n b)
  end.

Fixpoint buffer_run (ops : list buffer_op) (b : ByteBuffer) : outcome ByteBuffer :=
  match ops with
  | [] => Ret b
  | o :: ops => let! b := buffer_step o b in
                if fits b then buffer_run ops b else Throw (StdExn "vector")
  end.

Definition op_ok (o : buffer_op) : Prop := match o with OpRead w => valid_integer_width w = true | _ => True end.

(** The position is one that reading reached. *)
Definition position_ok (b : ByteBuffer) : Prop := 0 <= read_pos_ b < 2 ^ 63.

Lemma step_inside o b : op_ok o -> fits b = true -> position_ok b ->
  exists b', buffer_step o b = Ret b' /\ position_ok b'.
Proof.
  unfold fits, position_ok. intros Ho Hf%Z.ltb_lt Hp. destruct o as [bytes|w v|w| |n]; cbn [buffer_step op_ok] in *;
    try by eexists.
  apply valid_integer_width_range in Ho. unfold read_int. rewrite cast_small by lia.
  destruct (Z.ltb_spec (vsize (data_ b)) (read_pos_ b + w)); [by exists b|].
  eexists. split; [reflexivity|]. cbn. lia.
Qed.

(** No use of a buffer reads outside its bytes, as long as the position is
    not set from outside: after any writes, reads, clears and resizes every read
    is defined. *)
Theorem buffer_reads_inside ops : Forall op_ok ops -> buffer_run ops buffer_make <> Undef.
Proof.
  assert (Hg : forall b, fits b = true -> position_ok b -> Forall op_ok ops -> buffer_run ops b <> Undef).
  { induction ops as [|o ops IH]; intros b Hf Hp Ho; [done|]. apply Forall_cons_1 in Ho as [Ho Hos].
    destruct (step_inside o b Ho Hf Hp) as (b' & E & Hp'). cbn [buffer_run]. rewrite E. cbn [obind].
    destruct (fits b') eqn:Ef; [by apply IH|done]. }
  by apply Hg.
Qed.

(** *** Where it falls short *)

(** A position that was set can wrap the check around. *)
Example set_position_escapes : read_int 8 (set_read_position (2 ^ 64 - 4) (from_string "0123456789")) = Undef.
Proof. reflexivity. Qed.

(** A buffer that was cleared goes on reading where it stood. *)
Example clear_keeps_position :
  (let! r := read_all [4] (write_all [(4, 7)] buffer_make) in read_int 4 (write_int 4 9 (buffer_clear r.2)))
  = Ret (0, mkBuffer (write_uint 9 4 Little []) 4 0).
Proof. reflexivity. Qed.

(** A buffer with a capacity has this many zeros before what is written. *)
Example capacity_is_size : read_int 1 (write_int 1 5 (buffer_capacity 2)) = Ret (0, mkBuffer [byte.of_Z 0; byte.of_Z 0; byte.of_Z 5] 1 0).
Proof. reflexivity. Qed.

Example dump : hex_dump 2 (from_string "Az!") = "41 7a ..." /\ to_string (from_string "Az!") = "Az!".
Proof. split; reflexivity. Qed.
