(* ===== verification/Encryption.v ===== *)
(** * Encryption: encrypted packets and the message codec (src/transport/encryption.cpp, src/transport/codec.cpp)

    [AesGcmEncryption] puts the initialisation vector before the ciphertext and
    the tag behind it.  OpenSSL is a parameter, the class [Gcm]: sealing a text
    under a key and a vector, and opening it.  The vector that [RAND_bytes] gives
    is an argument.  [JsonCodec] carries a method and a payload in one document,
    [MessagePackCodec] in an array of two. *)

From S2P Require Import Prelude Text Json.

(** ** OpenSSL *)

Class Gcm := {
  gcm_seal : list byte -> list byte -> list byte -> list byte * list byte;
  gcm_open : list byte -> list byte -> list byte -> list byte -> option (list byte)
}.

(** What AES-GCM promises: the sizes, and that a text is opened from its
    ciphertext and tag, and from nothing else. *)
Class GcmLaws `(Gcm) : Prop := {
  seal_sizes key iv d : length (gcm_seal key iv d).1 = length d /\ length (gcm_seal key iv d).2 = 16%nat;
  open_seals key iv c t d : gcm_open key iv c t = Some d <-> gcm_seal key iv d = (c, t)
}.

(** ** Ciphers *)

Inductive Cipher := NONE | AES_128_GCM | AES_256_GCM | CHACHA20_POLY1305.

Inductive Encryption := NoEncryption | AesGcmEncryption (key_ : list byte) (cipher_ : Cipher).

(** The constructor. *)
Definition aes_gcm (key : list byte) : outcome Encryption :=
  if vsize key =? 16 then Ret (AesGcmEncryption key AES_128_GCM)
  else if vsize key =? 32 then Ret (AesGcmEncryption key AES_256_GCM)
  else Throw (StdExn "Key must be 16 or 32 bytes").

(** [None]: a null pointer. *)
Definition create_encryption (c : Cipher) (key : list byte) : outcome (option Encryption) :=
  match c with
  | NONE => Ret (Some NoEncryption)
  | AES_128_GCM | AES_256_GCM => let! e := aes_gcm key in Ret (Some e)
  | CHACHA20_POLY1305 => Ret None
  end.

Definition cipher_name (e : Encryption) : string :=
  match e with
  | NoEncryption => "none"
  | AesGcmEncryption _ AES_128_GCM => "aes-128-gcm"
  | AesGcmEncryption _ _ => "aes-256-gcm"
  end.

Definition iv_size : nat := 12.
Definition tag_size : nat := 16.

Section Ciphers.
Context `{Gcm}.

(** A size is handed over as an [int]: a negative one fails and leaves the length
    of the output unset. *)
Definition as_int (n : Z) : Z := signed32 n.

Definition encrypt (e : Encryption) (iv data : list byte) : outcome (list byte) :=
  match e with
  | NoEncryption => Ret data
  | AesGcmEncryption key _ =>
      let n := as_int (vsize data) in
      if n <? 0 then Undef
      else let '(c, t) := gcm_seal key iv (take (Z.to_nat n) data) in Ret (iv ++ c ++ t)
  end.

Definition decrypt (e : Encryption) (data : list byte) : outcome (list byte) :=
  match e with
  | NoEncryption => Ret data
  | AesGcmEncryption key _ =>
      if (length data <? iv_size + tag_size)%nat then Throw (StdExn "Invalid encrypted data")
      else
        let iv := take iv_size data in
        let ciphertext := take (length data - iv_size - tag_size) (drop iv_size data) in
        let tag := drop (length data - tag_size) data in
        let n := as_int (vsize ciphertext) in
        if n <? 0 then Undef
        else match gcm_open key iv (take (Z.to_nat n) ciphertext) tag with
             | Some d => Ret d
             | None => Throw (StdExn "Decryption failed (tag mismatch)")
             end
  end.
End Ciphers.

(** ** JsonCodec *)

Section MessageCodec.
Context `{JsonLib}.

Definition codec_document (method payload : string) : json := JObj [("method", JStr method); ("payload", JStr payload)].

Definition json_encode (method payload : string) : outcome (list byte) :=
  match json_dump (codec_document method payload) with inl e => Throw e | inr t => Ret (bytes_of t) end.

(** A member when it is there; [None] for one that is no text. *)
Definition text_member (k : string) (j : json) (old : string) : option string :=
  match get k j with Some (JStr s) => Some s | Some _ => None | None => Some old end.

(** The answer, and what the two references hold afterwards. *)
Definition json_decode (data : list byte) (method payload : string) : bool * string * string :=
  match json_parse data with
  | inl _ => (false, method, payload)
  | inr j =>
      match text_member "method" j method with
      | None => (false, method, payload)
      | Some m => match text_member "payload" j payload with
                  | None => (false, m, payload)
                  | Some p => (true, m, p)
                  end
      end
  end.
End MessageCodec.

(** ** MessagePackCodec *)

(** Objects of the library, when they are arrays and texts. *)
Class MsgObjects := {
  mp_object : Type;
  mp_pack : list string -> list byte;
  mp_unpack : list byte -> option mp_object;
  mp_array : mp_object -> option (list mp_object);
  mp_text : mp_object -> option string
}.

Section MessagePack.
Context `{MsgObjects}.

Definition messagepack_encode (method payload : string) : list byte := mp_pack [method; payload].

(** As [json_decode]: a payload that is no text leaves the method changed. *)
Definition messagepack_decode (data : list byte) (method payload : string) : bool * string * string :=
  match mp_unpack data ≫= mp_array with
  | Some [a; b] =>
      match mp_text a with
      | None => (false, method, payload)
      | Some m => match mp_text b with
                  | None => (false, m, payload)
                  | Some p => (true, m, p)
                  end
      end
  | _ => (false, method, payload)
  end.

(** What was packed is unpacked. *)
Class MsgObjectsLaws : Prop := {
  unpack_pack : forall l, exists o os, mp_unpack (mp_pack l) = Some o /\ mp_array o = Some os /\ map mp_text os = map Some l
}.

Lemma messagepack_roundtrip `{MsgObjectsLaws} method payload m0 p0 :
  messagepack_decode (messagepack_encode method payload) m0 p0 = (true, method, payload).
Proof.
  destruct (unpack_pack [method; payload]) as (o & os & E & Eo & Et). unfold messagepack_decode, messagepack_encode.
  rewrite E. cbn [mbind option_bind]. rewrite Eo. destruct os as [|a [|b [|]]]; try done. injection Et as -> ->. done.
Qed.
End MessagePack.

Inductive MessageCodec := JsonCodec | MessagePackCodec.

(** [msgpack]: the program is built with MessagePack. *)
Definition create_codec (msgpack : bool) (name : string) : option MessageCodec :=
  if String.eqb name "json" then Some JsonCodec
  else if msgpack && String.eqb name "msgpack" then Some MessagePackCodec else None.

(** ** Properties *)

Lemma as_int_small n : 0 <= n < 2 ^ 31 -> as_int n = n.
Proof. intros Hn. unfold as_int, signed32. rewrite cast_small by lia. by rewrite (proj2 (Z.ltb_lt _ _)) by lia. Qed.

(** A packet is its vector, its ciphertext and its tag. *)
Lemma packet_parts (iv c t : list byte) : length iv = iv_size -> length t = tag_size ->
  let data := iv ++ c ++ t in
  (length data <? iv_size + tag_size)%nat = false /\ take iv_size data = iv /\
  take (length data - iv_size - tag_size) (drop iv_size data) = c /\ drop (length data - tag_size) data = t.
Proof.
  intros Hi Ht data. assert (Hl : length data = (iv_size + length c + tag_size)%nat) by (unfold data; rewrite !length_app; lia).
  split_and!.
  - apply Nat.ltb_ge. lia.
  - unfold data. by apply take_app_length'.
  - unfold data. rewrite drop_app_length' by done. apply take_app_length'. fold data. lia.
  - unfold data. rewrite app_assoc. apply drop_app_length'. fold data. rewrite length_app. lia.
Qed.

Lemma parts_packet (data : list byte) : (length data <? iv_size + tag_size)%nat = false ->
  data = take iv_size data ++ take (length data - iv_size - tag_size) (drop iv_size data) ++ drop (length data - tag_size) data /\
  length (take iv_size data) = iv_size.
Proof.
  intros Hl%Nat.ltb_ge. split; [|rewrite length_take; lia].
  transitivity (take iv_size data ++ drop iv_size data); [by rewrite take_drop|]. f_equal.
  rewrite <- (take_drop (length data - iv_size - tag_size) (drop iv_size data)) at 1. f_equal. rewrite drop_drop. f_equal. unfold iv_size, tag_size in *. lia.
Qed.

(** What encryption makes of a text is a packet with these parts. *)
Lemma encrypted_parts `{GcmLaws} k ci iv d data : length iv = iv_size -> vsize d < 2 ^ 31 ->
  encrypt (AesGcmEncryption k ci) iv d = Ret data <->
  exists c t, gcm_seal k iv d = (c, t) /\ data = iv ++ c ++ t /\ length t = tag_size.
Proof.
  intros Hi Hd. cbn [encrypt]. pose proof (vsize_nonneg d). rewrite as_int_small, (proj2 (Z.ltb_ge _ _)) by lia.
  replace (Z.to_nat (vsize d)) with (length d) by (unfold vsize; lia). rewrite take_ge by lia.
  pose proof (seal_sizes k iv d) as [_ Ht]. destruct (gcm_seal k iv d) as [c t] eqn:Es. cbn in Ht. split.
  - intros [= <-]. by exists c, t.
  - intros (c' & t' & [= <- <-] & -> & _). done.
Qed.

(** C36: decryption accepts exactly what encryption makes.  Below two gigabytes a
    packet is decrypted to a text if and only if encrypting this text with some
    vector gives the packet; every other packet is an error. *)
Theorem decrypt_accepts_encrypted `{GcmLaws} e data d :
  e <> NoEncryption -> vsize data < 2 ^ 31 -> vsize d < 2 ^ 31 ->
  (decrypt e data = Ret d <-> exists iv, length iv = iv_size /\ encrypt e iv d = Ret data) /\
  ((exists d', decrypt e data = Ret d') \/ exists x, decrypt e data = Throw x).
Proof.
  intros He Hd1 Hd2. destruct e as [|k ci]; [done|]. clear He. cbn [decrypt].
  assert (Hmade : (exists iv, length iv = iv_size /\ encrypt (AesGcmEncryption k ci) iv d = Ret data) <->
    exists iv c t, length iv = iv_size /\ length t = tag_size /\ data = iv ++ c ++ t /\ gcm_open k iv c t = Some d).
  { setoid_rewrite open_seals. split.
    - intros (iv & Hi & (ct & t & Es & -> & Ht)%encrypted_parts); [by exists iv, ct, t|done|done].
    - intros (iv & ct & t & Hi & Ht & -> & Es). exists iv. split; [done|]. apply encrypted_parts; [done..|]. by exists ct, t. }
  rewrite Hmade. clear Hmade. destruct (length data <? iv_size + tag_size)%nat eqn:El.
  - split; [split; [done|]|right; by eexists]. intros (iv & ct & t & Hi & Ht & -> & _).
    by rewrite (proj1 (packet_parts iv ct t Hi Ht)) in El.
  - destruct (parts_packet data El) as [Ep Hi].
    set (iv := take iv_size data) in *. set (ct := take (length data - iv_size - tag_size) (drop iv_size data)) in *.
    set (t := drop (length data - tag_size) data) in *.
    assert (Hct : vsize ct <= vsize data) by (unfold ct, vsize; rewrite length_take, length_drop; lia).
    assert (Ht : length t = tag_size) by (unfold t; rewrite length_drop; apply Nat.ltb_ge in El; lia).
    pose proof (vsize_nonneg ct). rewrite as_int_small, (proj2 (Z.ltb_ge _ _)) by lia.
    replace (Z.to_nat (vsize ct)) with (length ct) by (unfold vsize; lia). rewrite take_ge by lia.
    split; [|destruct (gcm_open k iv ct t) as [d'|]; [left|right]; by eexists]. split.
    + destruct (gcm_open k iv ct t) as [d'|] eqn:Eo; [|done]. intros [= <-]. by exists iv, ct, t.
    + intros (iv2 & ct2 & t2 & Hi2 & Ht2 & E & Eo). pose proof (packet_parts iv2 ct2 t2 Hi2 Ht2) as (_ & E1 & E2 & E3).
      cbv zeta in E1, E2, E3. rewrite <- E in E1, E2, E3. fold iv in E1. fold ct in E2. fold t in E3. subst iv2 ct2 t2. by rewrite Eo.
Qed.

(** *** A cipher that hides nothing *)

#[local] Instance byte_decision : EqDecision byte := Byte.byte_eq_dec.

Definition no_tag : list byte := replicate tag_size (byte.of_Z 0).

#[local] Instance clear_gcm : Gcm := {|
  gcm_seal _ _ d := (d, no_tag);
  gcm_open _ _ c t := if bool_decide (t = no_tag) then Some c else None
|}.

#[local] Instance clear_laws : GcmLaws clear_gcm.
Proof.
  split; [done|]. intros key iv c t d. cbn. case_bool_decide as E; [|split; [done|by intros [= _ <-]]].
  subst t. split; [by intros [= ->]|by intros [= ->]].
Qed.

Definition short_key : list byte := bytes_of "0123456789abcdef".
Definition sample_packet : list byte := bytes_of "initvector12" ++ bytes_of "hello" ++ no_tag.

Lemma decrypt_accepts_encrypted_witness :
  exists iv, length iv = iv_size /\ encrypt (AesGcmEncryption short_key AES_128_GCM) iv (bytes_of "hello") = Ret sample_packet.
Proof.
  exact (proj1 (proj1 (decrypt_accepts_encrypted (AesGcmEncryption short_key AES_128_GCM) sample_packet (bytes_of "hello")
    ltac:(discriminate) eq_refl eq_refl)) eq_refl).
Defined.

(** What the codec makes of two texts it reads back, whatever the references held. *)
Lemma message_codec_roundtrip `{JsonLib} method payload bytes m0 p0 :
  json_encode method payload = Ret bytes -> json_parse bytes = inr (codec_document method payload) ->
  json_decode bytes m0 p0 = (true, method, payload).
Proof. intros _ Hp. unfold json_decode. by rewrite Hp. Qed.

(** *** Where it falls short *)

(** The cipher follows the length of the key, not what was asked for, and one of
    the ciphers is a null pointer. *)
Example cipher_by_key_length :
  (let! e := create_encryption AES_256_GCM short_key in Ret (cipher_name <$> e)) = Ret (Some "aes-128-gcm") /\
  create_encryption CHACHA20_POLY1305 short_key = Ret None.
Proof. split; reflexivity. Qed.

(** A message without its members is accepted, with what the references held; one
    with a payload that is no text is not, but has changed the method. *)
Lemma missing_members_kept `{JsonLib} bytes m0 p0 : json_parse bytes = inr (JObj []) -> json_decode bytes m0 p0 = (true, m0, p0).
Proof. intros Hp. unfold json_decode. by rewrite Hp. Qed.

Lemma refused_message_changes_method `{JsonLib} bytes m0 p0 :
  json_parse bytes = inr (JObj [("method", JStr "move"); ("payload", JUInt 1)]) -> json_decode bytes m0 p0 = (false, "move", p0).
Proof. intros Hp. unfold json_decode. by rewrite Hp. Qed.
