(* ===== verification/CodecPlugins.v ===== *)
(** * CodecPlugins: the codecs of two plugins

    The providers of [shield.protocol.codec.v1] in
    src/plugins/protocol.msgpack/shield_protocol_msgpack.cpp and
    src/plugins/protocol.protobuf/shield_protocol_protobuf.cpp.  Pointers that
    the host never passes as null are not options; a function gives its return
    code, the bytes of the result and the error.  The library's MessagePack and
    Protobuf are parameters.  A message of an exception is a pointer into it: it
    is freed when the host reads it. *)

From S2P Require Import Prelude Text Json Envelope Routes Codec.

(** ** Errors *)

(** [fill_error]: a literal, or a pointer to what an exception held. *)
Inductive c_message := Literal (s : string) | Freed.

Record codec_error := mkCodecError { ce_code : string; ce_message : c_message }.

Definition codec_answer : Type := Z * option (list byte) * option codec_error.

Definition answered (bytes : option (list byte)) : codec_answer := (0, bytes, None).
Definition refused (code : string) (m : c_message) : codec_answer := (-1, None, Some (mkCodecError code m)).

(** ** protocol.msgpack *)

Class MsgPack := {
  from_msgpack : list byte -> exn + json;
  to_msgpack : json -> exn + list byte
}.

(** [dup_bytes] gives a null pointer for no bytes. *)
Definition dup_bytes (b : list byte) : option (list byte) := match b with [] => None | _ => Some b end.

Section MsgPackCodec.
Context `{JsonLib} `{MsgPack}.

Definition msgpack_decode (payload : list byte) : codec_answer :=
  match (let? message := from_msgpack payload in json_dump message) with
  | inr text => answered (Some (bytes_of text))
  | inl _ => refused "protocol.decode_failed" Freed
  end.

Definition msgpack_encode (message_json : string) : codec_answer :=
  match (let? message := match message_json with EmptyString => inr (JObj []) | _ => json_parse (bytes_of message_json) end in
         to_msgpack message) with
  | inr payload => answered (dup_bytes payload)
  | inl _ => refused "protocol.encode_failed" Freed
  end.
End MsgPackCodec.

(** ** protocol.protobuf *)

(** A pool of descriptors, the messages it can make, and their two forms. *)
Class Protobuf := {
  pb_pool : Type;
  pb_descriptor : Type;
  pb_message : Type;
  load_descriptor_set : string -> option pb_pool;
  find_message_type : pb_pool -> string -> option pb_descriptor;
  has_prototype : pb_descriptor -> bool;
  parse_message : pb_descriptor -> list byte -> option pb_message;
  message_to_json : pb_message -> option string;
  json_to_message : pb_descriptor -> string -> option pb_message;
  serialize_message : pb_message -> option (list byte)
}.

Record protobuf_config := mkProtobufConfig {
  descriptor_set_path : string;
  schema_names : gmap Z string;
  route_names : gmap Z string
}.

(** A member that is an unsigned number, as [uint32_t]. *)
Definition unsigned32_member (k : string) (item : json) : option Z :=
  match get k item with Some (JUInt z) => Some (u32 z) | _ => None end.

(** One entry of [messages]. *)
Definition add_message (c : protobuf_config) (item : json) : protobuf_config :=
  match is_object item, get "name" item with
  | true, Some (JStr name) =>
      let schemas := match unsigned32_member "schema_id" item with
                     | Some id => if id <=? 65535 then <[id := name]> (schema_names c) else schema_names c
                     | None => schema_names c
                     end in
      let routes := match unsigned32_member "route_id" item with
                    | Some id => <[id := name]> (route_names c)
                    | None => route_names c
                    end in
      mkProtobufConfig (descriptor_set_path c) schemas routes
  | _, _ => c
  end.

(** [load_config]; a text that is no JSON is no object. *)
Definition load_config `{JsonLib} (config_json : option string) : string + protobuf_config :=
  let config := match config_json with
                | None | Some EmptyString => Some (JObj [])
                | Some text => match json_parse (bytes_of text) with
                               | inr (JObj l) => Some (JObj l)
                               | _ => None
                               end
                end in
  match config with
  | None => inl "protobuf plugin config must be an object"
  | Some config =>
      match get "descriptor_set" config with
      | Some (JStr path) =>
          let empty := mkProtobufConfig path ∅ ∅ in
          inr (match get "messages" config with Some (JArr l) => foldl add_message empty l | _ => empty end)
      | _ => inl "descriptor_set is required"
      end
  end.

Section ProtobufCodec.
Context `{JsonLib} `{Protobuf}.

Record protobuf_instance := mkProtobuf { pb_config : protobuf_config; pool : pb_pool }.

(** [protobuf_create]: both failures are errors of the configuration.  [read_file]
    gives the bytes of a file that opens. *)
Definition protobuf_create (read_file : string -> option string) (config_json : option string) : string + protobuf_instance :=
  match load_config config_json with
  | inl _ => inl "invalid protobuf plugin config"
  | inr c =>
      match read_file (descriptor_set_path c) ≫= load_descriptor_set with
      | None => inl "failed to load protobuf descriptors"
      | Some p => inr (mkProtobuf c p)
      end
  end.

(** The name of the type: by schema, by route, by the name of the route. *)
Definition message_name (c : protobuf_config) (schema_id route_id : Z) (route_name : option string) : option string :=
  match (if schema_id =? 0 then None else schema_names c !! schema_id) with
  | Some name => Some name
  | None =>
      match (if route_id =? 0 then None else route_names c !! route_id) with
      | Some name => Some name
      | None => match route_name with Some EmptyString | None => None | Some name => Some name end
      end
  end.

Definition resolve_descriptor (inst : protobuf_instance) (schema_id route_id : Z) (route_name : option string)
  : option pb_descriptor :=
  message_name (pb_config inst) schema_id route_id route_name ≫= find_message_type (pool inst).

Definition protobuf_decode (inst : protobuf_instance) (a : DecodeArgs) : codec_answer :=
  match resolve_descriptor inst (da_schema_id a) (da_route_id a) (da_route_name a) with
  | None => refused "protocol.schema_not_found" (Literal "protobuf message descriptor was not found")
  | Some d =>
      if negb (has_prototype d) then refused "protocol.schema_not_found" (Literal "protobuf message prototype was not found")
      else if 2 ^ 31 - 1 <? vsize (da_payload a) then refused "protocol.decode_failed" (Literal "protobuf payload is too large")
      else match parse_message d (da_payload a) with
           | None => refused "protocol.decode_failed" (Literal "failed to parse protobuf payload")
           | Some m =>
               match message_to_json m with
               | None => refused "protocol.decode_failed" (Literal "failed to convert protobuf message to JSON")
               | Some text => answered (Some (bytes_of text))
               end
           end
  end.

Definition protobuf_encode (inst : protobuf_instance) (a : EncodeArgs) : codec_answer :=
  match resolve_descriptor inst (ea_schema_id a) (ea_route_id a) (ea_route_name a) with
  | None => refused "protocol.schema_not_found" (Literal "protobuf message descriptor was not found")
  | Some d =>
      if negb (has_prototype d) then refused "protocol.schema_not_found" (Literal "protobuf message prototype was not found")
      else match json_to_message d (ea_message_json a) with
           | None => refused "protocol.encode_failed" (Literal "failed to convert JSON to protobuf message")
           | Some m =>
               match serialize_message m with
               | None => refused "protocol.encode_failed" (Literal "failed to serialize protobuf message")
               | Some payload => answered (dup_bytes payload)
               end
           end
  end.
End ProtobufCodec.

(** ** What the host sees

    [freed] is what the memory of an exception holds when the host reads it. *)
Definition host_error (freed : string) (e : option codec_error) : PluginError :=
  match e with
  | None => mkPluginError None None
  | Some e => mkPluginError (Some (ce_code e)) (Some (match ce_message e with Literal s => s | Freed => freed end))
  end.

Definition host_view (freed : string) (a : codec_answer) : Z * option (list byte) * PluginError :=
  (a.1.1, a.1.2, host_error freed a.2).

Definition msgpack_vtable `{JsonLib, MsgPack} (freed : string) : CodecVtable :=
  mkVtable (Some "msgpack") (Some (fun a => host_view freed (msgpack_decode (da_payload a))))
    (Some (fun a => host_view freed (msgpack_encode (ea_message_json a)))) true true.

Definition protobuf_vtable `{JsonLib, Protobuf} (freed : string) (inst : protobuf_instance) : CodecVtable :=
  mkVtable (Some "protobuf") (Some (fun a => host_view freed (protobuf_decode inst a)))
    (Some (fun a => host_view freed (protobuf_encode inst a))) true true.

(** ** Properties *)

(** Success has no error and failure no result. *)
Definition well_answered (a : codec_answer) : Prop :=
  match a with
  | (rc, bytes, None) => rc = 0
  | (rc, bytes, Some e) => rc = -1 /\ bytes = None /\
      ce_code e ∈ ["protocol.decode_failed"; "protocol.encode_failed"; "protocol.schema_not_found"]
  end.

Lemma refused_ok code m :
  code ∈ ["protocol.decode_failed"; "protocol.encode_failed"; "protocol.schema_not_found"] -> well_answered (refused code m).
Proof. done. Qed.

Lemma msgpack_answers `{JsonLib, MsgPack} payload text : well_answered (msgpack_decode payload) /\ well_answered (msgpack_encode text).
Proof.
  unfold msgpack_decode, msgpack_encode. split.
  - destruct (ebind _ _) as [e|t]; [|done]. apply refused_ok. set_solver.
  - destruct (ebind _ _) as [e|t]; [|done]. apply refused_ok. set_solver.
Qed.

Lemma protobuf_answers `{JsonLib, Protobuf} inst a b : well_answered (protobuf_decode inst a) /\ well_answered (protobuf_encode inst b).
Proof.
  unfold protobuf_decode, protobuf_encode. split; destruct (resolve_descriptor _ _ _ _) as [d|];
    repeat match goal with |- context [if ?x then _ else _] => destruct x
                      | |- context [match ?x with Some _ => _ | None => _ end] => destruct x end;
    done || (apply refused_ok; set_solver).
Qed.

(** The host frees a result when there is one, and a refusal is an exception with a
    text: that of the plugin, or that of freed memory. *)
Lemma host_decode_calls `{JsonLib} v f freed provider packet route :
  cv_decode v = Some (fun a => host_view freed (f a)) -> cv_free_decode_result v = true ->
  (forall a, well_answered (f a)) ->
  let args := mkDecodeArgs (re_route_id route) (re_codec_id route) (re_schema_id route) (route_name_arg route) (pk_body packet) in
  let '(calls, r) := external_decode provider (Some v) packet route in
  match f args with
  | (_, _, None) => calls = [CallDecode; CallFreeDecode]
  | (_, _, Some e) => calls = [CallDecode] /\
      r = inl (StdExn (plugin_error_message (host_error freed (Some e)) "protocol decode failed"))
  end.
Proof.
  intros Hd Hf Hw args. unfold external_decode. rewrite Hd, Hf. fold args. pose proof (Hw args) as Ha. unfold host_view.
  destruct (f args) as [[rc out] [e|]]; cbn in Ha |- *; [by destruct Ha as (-> & -> & _)|by subst rc].
Qed.

Lemma host_encode_calls `{JsonLib} v f freed provider body route m text :
  cv_encode v = Some (fun a => host_view freed (f a)) -> cv_free_encode_result v = true ->
  (forall a, well_answered (f a)) ->
  plugin_business_message body = inr m -> json_dump m = inr text ->
  let args := mkEncodeArgs (re_route_id route) (re_codec_id route) (re_schema_id route) (route_name_arg route) text in
  external_encode provider (Some v) body route =
    match f args with
    | (_, out, None) => ([CallEncode; CallFreeEncode], inr (default [] out))
    | (_, _, Some e) =>
        ([CallEncode], inl (StdExn (plugin_error_message (host_error freed (Some e)) "protocol encode failed")))
    end.
Proof.
  intros Hd Hf Hw Hm Ht args. unfold external_encode. rewrite Hd, Hf, Hm. cbn [ebind]. rewrite Ht. fold args.
  pose proof (Hw args) as Ha. unfold host_view. destruct (f args) as [[rc out] [e|]]; cbn in Ha |- *; [by destruct Ha as (-> & -> & _)|by subst rc].
Qed.

Lemma dup_bytes_default b : default [] (dup_bytes b) = b.
Proof. by destruct b. Qed.

Lemma decoded_message `{JsonLib} v f freed provider packet route text m :
  cv_decode v = Some (fun a => host_view freed (f a)) -> cv_free_decode_result v = true -> text <> "" ->
  f (mkDecodeArgs (re_route_id route) (re_codec_id route) (re_schema_id route) (route_name_arg route) (pk_body packet))
    = answered (Some (bytes_of text)) ->
  json_parse (bytes_of text) = inr m ->
  external_decode provider (Some v) packet route =
    ([CallDecode; CallFreeDecode],
     inr (mkBody (re_route_id route) (re_codec_id route) (re_schema_id route) (re_debug_name route) (pk_body packet) (Some m))).
Proof.
  intros Hd Hf Ht Ha Hp. unfold external_decode. rewrite Hd, Hf. unfold host_view. rewrite Ha. cbn.
  destruct text as [|c text]; [done|]. cbn in Hp |- *. by rewrite Hp.
Qed.

(** A message goes through the MessagePack plugin unchanged.  What the host
    encodes with it and sends is decoded by the host of the receiver to the same
    message, on the numbers and the name of the route, and each side frees the
    result of its call once.  The libraries are assumed to read back the text and
    the packed form of this one message. *)
Theorem msgpack_plugin_roundtrip `{JsonLib, MsgPack} freed freed' provider body packet route m text packed :
  plugin_business_message body = inr m ->
  json_dump m = inr text -> json_parse (bytes_of text) = inr m -> text <> "" ->
  to_msgpack m = inr packed -> from_msgpack packed = inr m ->
  external_encode provider (Some (msgpack_vtable freed)) body route = ([CallEncode; CallFreeEncode], inr packed) /\
  (pk_body packet = packed ->
   external_decode provider (Some (msgpack_vtable freed')) packet route =
     ([CallDecode; CallFreeDecode],
      inr (mkBody (re_route_id route) (re_codec_id route) (re_schema_id route) (re_debug_name route) packed (Some m)))).
Proof.
  intros Hm Ht Hp Hne Hto Hfrom. split.
  - rewrite (host_encode_calls (msgpack_vtable freed) (fun a => msgpack_encode (ea_message_json a)) freed provider body route m text)
      by (done || (intros a; apply (msgpack_answers []))).
    cbn [ea_message_json]. unfold msgpack_encode. destruct text as [|c text]; [done|]. rewrite Hp. cbn [ebind]. rewrite Hto. cbn.
    by rewrite dup_bytes_default.
  - intros Hb. rewrite <- Hb.
    apply (decoded_message (msgpack_vtable freed') (fun a => msgpack_decode (da_payload a)) freed') with (text := text); try done.
    cbn [da_payload]. unfold msgpack_decode. rewrite Hb, Hfrom. cbn [ebind]. by rewrite Ht.
Qed.

(** A message goes through the Protobuf plugin.  Two instances that file the
    route under the same type exchange messages of this type: the receiver gets
    the JSON of the message the sender's JSON stands for, and each side frees the
    result of its call once. *)
Theorem protobuf_plugin_roundtrip `{JsonLib, Protobuf} freed freed' provider sender receiver body packet route d m text pm packed text' m' :
  resolve_descriptor sender (re_schema_id route) (re_route_id route) (route_name_arg route) = Some d ->
  resolve_descriptor receiver (re_schema_id route) (re_route_id route) (route_name_arg route) = Some d ->
  has_prototype d = true -> plugin_business_message body = inr m -> json_dump m = inr text ->
  json_to_message d text = Some pm -> serialize_message pm = Some packed -> vsize packed < 2 ^ 31 ->
  parse_message d packed = Some pm -> message_to_json pm = Some text' -> text' <> "" -> json_parse (bytes_of text') = inr m' ->
  external_encode provider (Some (protobuf_vtable freed sender)) body route = ([CallEncode; CallFreeEncode], inr packed) /\
  (pk_body packet = packed ->
   external_decode provider (Some (protobuf_vtable freed' receiver)) packet route =
     ([CallDecode; CallFreeDecode],
      inr (mkBody (re_route_id route) (re_codec_id route) (re_schema_id route) (re_debug_name route) packed (Some m')))).
Proof.
  intros Hs Hr Hd Hm Ht Hj Hser Hsz Hpar Htj Hne Hp. split.
  - rewrite (host_encode_calls (protobuf_vtable freed sender) (protobuf_encode sender) freed provider body route m text)
      by (done || (intros a; apply (protobuf_answers sender (mkDecodeArgs 0 0 0 None [])))).
    unfold protobuf_encode. cbn [ea_schema_id ea_route_id ea_route_name ea_message_json]. rewrite Hs, Hd, Hj. cbn [negb]. rewrite Hser. cbn.
    by rewrite dup_bytes_default.
  - intros Hb. rewrite <- Hb.
    apply (decoded_message (protobuf_vtable freed' receiver) (protobuf_decode receiver) freed') with (text := text'); try done.
    unfold protobuf_decode. cbn [da_schema_id da_route_id da_route_name da_payload]. rewrite Hr, Hd. cbn [negb].
    rewrite Hb, (proj2 (Z.ltb_ge _ _)) by lia. by rewrite Hpar, Htj.
Qed.

(** A route that no type is filed under is refused with an error that names the
    schema, in both directions. *)
Lemma unknown_schema_refused `{JsonLib, Protobuf} freed inst provider body packet route m text :
  resolve_descriptor inst (re_schema_id route) (re_route_id route) (route_name_arg route) = None ->
  plugin_business_message body = inr m -> json_dump m = inr text ->
  let e := StdExn "protobuf message descriptor was not found" in
  external_decode provider (Some (protobuf_vtable freed inst)) packet route = ([CallDecode], inl e) /\
  external_encode provider (Some (protobuf_vtable freed inst)) body route = ([CallEncode], inl e).
Proof.
  intros Hr Hm Ht e. split.
  - unfold external_decode, protobuf_vtable. cbn [cv_decode]. unfold host_view, protobuf_decode.
    cbn [da_schema_id da_route_id da_route_name]. by rewrite Hr.
  - unfold external_encode, protobuf_vtable. cbn [cv_encode]. rewrite Hm. cbn [ebind]. rewrite Ht. unfold host_view, protobuf_encode.
    cbn [ea_schema_id ea_route_id ea_route_name]. by rewrite Hr.
Qed.

(** *** A concrete library *)

Definition hit_points : json := JObj [("hp", JUInt 7)].

(** Two messages of the configuration share a number, one wraps around. *)
Definition plugin_document : json :=
  JObj [("descriptor_set", JStr "game.pb");
        ("messages", JArr [JObj [("name", JStr "game.Move"); ("route_id", JUInt 2)];
                           JObj [("name", JStr "game.Player"); ("schema_id", JUInt 3); ("route_id", JUInt (2 ^ 32 + 9))];
                           JObj [("name", JStr "game.Big"); ("schema_id", JUInt 65536)]])].

#[local] Instance two_documents : JsonLib := {|
  json_parse b := if String.eqb (string_of b) "<hp>" then inr hit_points
                  else if String.eqb (string_of b) "<config>" then inr plugin_document
                  else inl (JsonExn "parse error");
  json_dump _ := inr "<hp>";
  json_error _ _ _ := "type error"
|}.

#[local] Instance one_message_pack : MsgPack := {|
  from_msgpack b := if String.eqb (string_of b) "hp7" then inr hit_points else inl (JsonExn "msgpack error");
  to_msgpack _ := inr (bytes_of "hp7")
|}.

(** A descriptor is its name. *)
#[local] Instance one_message_buf : Protobuf := {|
  pb_pool := unit;
  pb_descriptor := string;
  pb_message := unit;
  load_descriptor_set _ := Some tt;
  find_message_type _ name := if String.eqb name "game.Big" then None else Some name;
  has_prototype _ := true;
  parse_message _ b := if String.eqb (string_of b) "h7" then Some tt else None;
  message_to_json _ := Some "<hp>";
  json_to_message _ t := if String.eqb t "<hp>" then Some tt else None;
  serialize_message _ := Some (bytes_of "h7")
|}.

Definition hit_body : DecodedBody := mkBody 0 0 0 "" [] (Some hit_points).

Lemma msgpack_plugin_roundtrip_witness :
  external_encode "msgpack" (Some (msgpack_vtable "")) hit_body (named 2 "move") = ([CallEncode; CallFreeEncode], inr (bytes_of "hp7")) /\
  (external_decode "msgpack" (Some (msgpack_vtable "")) (mkPacket 2 0 0 0 (bytes_of "hp7") []) (named 2 "move")).1
  = [CallDecode; CallFreeDecode].
Proof.
  destruct (msgpack_plugin_roundtrip (H := two_documents) (H0 := one_message_pack) "" "" "msgpack" hit_body (mkPacket 2 0 0 0 (bytes_of "hp7") []) (named 2 "move")
    hit_points "<hp>" (bytes_of "hp7") eq_refl eq_refl eq_refl ltac:(discriminate) eq_refl eq_refl) as [He Hd].
  split; [exact He|]. by rewrite (Hd eq_refl).
Defined.

Definition game_instance : option protobuf_instance :=
  match protobuf_create (fun _ => Some "descriptors") (Some "<config>") with inr i => Some i | inl _ => None end.

(** Schemas come first, then routes, and numbers are taken modulo [2^32]; a schema
    of more than 16 bits is ignored. *)
Example message_names :
  match game_instance with
  | None => False
  | Some i => resolve_descriptor i 3 2 None = Some "game.Player" /\ resolve_descriptor i 0 2 None = Some "game.Move" /\
      resolve_descriptor i 0 9 None = Some "game.Player" /\ resolve_descriptor i 5 5 (Some "game.Other") = Some "game.Other" /\
      resolve_descriptor i 65536 0 None = None
  end.
Proof. vm_compute. done. Qed.

Definition player_instance : protobuf_instance := mkProtobuf (mkProtobufConfig "" ∅ {[ 2 := "game.Move" ]}) tt.

Lemma protobuf_plugin_roundtrip_witness :
  external_encode "protobuf" (Some (protobuf_vtable "" player_instance)) hit_body (named 2 "move")
  = ([CallEncode; CallFreeEncode], inr (bytes_of "h7")).
Proof.
  exact (proj1 (protobuf_plugin_roundtrip (H := two_documents) (H0 := one_message_buf) "" "" "protobuf" player_instance player_instance hit_body (mkPacket 2 0 0 0 (bytes_of "h7") [])
    (named 2 "move") "game.Move" hit_points "<hp>" tt (bytes_of "h7") "<hp>" hit_points
    eq_refl eq_refl eq_refl eq_refl eq_refl eq_refl eq_refl eq_refl eq_refl eq_refl ltac:(discriminate) eq_refl)).
Defined.

(** *** Where it falls short *)

(** The text of a MessagePack error is read from freed memory. *)
Example msgpack_error_is_freed freed :
  (external_decode "msgpack" (Some (msgpack_vtable freed)) (mkPacket 2 0 0 0 (bytes_of "?") []) (named 2 "move")).2
  = inl (StdExn (plugin_error_message (mkPluginError (Some "protocol.decode_failed") (Some freed)) "protocol decode failed")).
Proof. reflexivity. Qed.

(** A schema that is filed under a type which the descriptors lack hides the route
    and its name. *)
Example missing_type_hides_route :
  resolve_descriptor (mkProtobuf (mkProtobufConfig "" {[ 4 := "game.Big" ]} {[ 2 := "game.Move" ]}) tt) 4 2 (Some "game.Move") = None.
Proof. reflexivity. Qed.
