(* ===== verification/Logger.v ===== *)
(** * Logger: levels, sinks and rotating files (src/log/logger.cpp)

    The global loggers and sinks, the text of a record, and the file sinks over a
    map of file contents.  Whether a file can be opened or renamed is what the
    class [Disk] says; an error of [rename] is an exception that leaves [log].
    The context of a service is that of the calling thread. *)

From S2P Require Import Prelude Text Numbers.

(** ** Records *)

Inductive Level := Debug | Info | Warning | Error | Fatal.

Definition level_value (l : Level) : Z := match l with Debug => 0 | Info => 1 | Warning => 2 | Error => 3 | Fatal => 4 end.
Definition level_name (l : Level) : string :=
  match l with Debug => "DEBUG" | Info => "INFO" | Warning => "WARN" | Error => "ERROR" | Fatal => "FATAL" end.

Record ServiceContext := mkContext { ctx_service_id : string; ctx_service_name : string; ctx_trace_id : string }.
Definition no_context : ServiceContext := mkContext "" "" "".

Record LogRecord := mkRecord {
  r_level : Level;
  r_message : string;
  r_logger_name : string;
  r_file : string;
  r_line : Z;
  r_timestamp_ms : Z;
  r_context : ServiceContext
}.

Definition format_record (r : LogRecord) : string :=
  to_string_i64 (r_timestamp_ms r) +:+ " [" +:+ level_name (r_level r) +:+ "] " +:+ r_logger_name r +:+ ": " +:+ r_message r +:+
  (if negb (str_empty (r_file r)) && (0 <? r_line r) then " (" +:+ r_file r +:+ ":" +:+ to_string_i64 (r_line r) +:+ ")" else "") +:+
  (if str_empty (ctx_trace_id (r_context r)) then "" else " trace=" +:+ ctx_trace_id (r_context r)).

(** ** Files *)

Class Disk := {
  can_open : string -> bool;
  can_rename : string -> string -> bool
}.

Notation files := (gmap string string).

Definition content (path : string) (fs : files) : string := default "" (fs !! path).
Definition append (path text : string) (fs : files) : files := <[path := content path fs +:+ text]> fs.

Definition newline : string := String "010" "".

(** ** Sinks *)

Record Rotating := mkRotating {
  base_path : string;
  max_size : Z;
  max_files : Z;
  file_open : bool;
  current_size : Z;
  current_file : Z
}.

Inductive LogSink :=
| ConsoleSink (use_stderr : bool)
| FileSink (path : string) (is_open : bool)
| RotatingFileSink (r : Rotating).

(** The two streams of the program and its files. *)
Record Output := mkOutput { out : string; err : string; disk : files }.

Definition set_disk (fs : files) (o : Output) : Output := mkOutput (out o) (err o) fs.

Section Sinks.
Context `{Disk}.

(** Opening to append makes the file. *)
Definition open_append (path : string) (fs : files) : bool * files :=
  if can_open path then (true, append path "" fs) else (false, fs).

Definition make_file_sink (path : string) (o : Output) : LogSink * Output :=
  let '(b, fs) := open_append path (disk o) in (FileSink path b, set_disk fs o).


Definition rotated_path (base : string) (n : Z) : string := base +:+ "." +:+ to_string_i64 n.

(** [rename] replaces its target. *)
Definition rename (from to : string) (fs : files) : files := <[to := content from fs]> (delete from fs).

(** [rotate_if_needed]: the sink, the files and whether [rename] threw. *)
Definition rotate_if_needed (r : Rotating) (fs : files) : Rotating * files * bool :=
  if current_size r <=? max_size r then (r, fs, false)
  else
    let n := (current_file r + 1) mod max_files r in
    let to := rotated_path (base_path r) n in
    if can_rename (base_path r) to && bool_decide (is_Some (fs !! base_path r)) then
      let fs := rename (base_path r) to fs in
      let '(b, fs) := if can_open (base_path r) then (true, <[base_path r := ""]> fs) else (false, fs) in
      (mkRotating (base_path r) (max_size r) (max_files r) b 0 n, fs, false)
    else (mkRotating (base_path r) (max_size r) (max_files r) false (current_size r) n, fs, true).

(** The sink, the files and whether an exception left [write]. *)
Definition rotating_write (line : string) (r : Rotating) (fs : files) : Rotating * files * bool :=
  if negb (file_open r) then (r, fs, false)
  else
    let r := mkRotating (base_path r) (max_size r) (max_files r) (file_open r) (current_size r + (slen line + 1)) (current_file r) in
    let '(r, fs, threw) := rotate_if_needed r fs in
    if (threw : bool) then (r, fs, true)
    else (r, if file_open r then append (base_path r) (line +:+ newline) fs else fs, false).

(** [LogSink::write] *)
Definition sink_write (s : LogSink) (rec : LogRecord) (o : Output) : LogSink * Output * bool :=
  let line := format_record rec in
  match s with
  | ConsoleSink use_stderr =>
      if use_stderr || (level_value Error <=? level_value (r_level rec))
      then (s, mkOutput (out o) (err o +:+ line +:+ newline) (disk o), false)
      else (s, mkOutput (out o +:+ line +:+ newline) (err o) (disk o), false)
  | FileSink path is_open =>
      (s, if is_open then set_disk (append path (line +:+ newline) (disk o)) o else o, false)
  | RotatingFileSink r =>
      let '(r, fs, threw) := rotating_write line r (disk o) in (RotatingFileSink r, set_disk fs o, threw)
  end.

(** ** Loggers *)

Record LogState := mkLog {
  sinks : list LogSink;
  global_level : Level;
  loggers : gset string;
  contexts : gmap Z ServiceContext;
  output : Output
}.


(** The sinks one after the other, up to the one that throws. *)
Fixpoint write_sinks (rec : LogRecord) (l : list LogSink) (o : Output) : list LogSink * Output * bool :=
  match l with
  | [] => ([], o, false)
  | s :: l =>
      let '(s, o, threw) := sink_write s rec o in
      if (threw : bool) then (s :: l, o, true)
      else let '(l, o, threw) := write_sinks rec l o in (s :: l, o, threw)
  end.

(** [Logger::log] on a thread, at a time: the state and whether it threw. *)
Definition log (thread now : Z) (name : string) (level : Level) (msg file : string) (line : Z) (s : LogState) : LogState * bool :=
  if level_value level <? level_value (global_level s) then (s, false)
  else
    let rec := mkRecord level msg name file line now (default no_context (contexts s !! thread)) in
    let '(l, o, threw) := write_sinks rec (sinks s) (output s) in
    (mkLog l (global_level s) (loggers s) (contexts s) o, threw).

Definition set_global_level (l : Level) (s : LogState) : LogState := mkLog (sinks s) l (loggers s) (contexts s) (output s).

Definition log_initialize (s : LogState) : LogState :=
  match sinks s with
  | [] => mkLog [ConsoleSink false] (global_level s) (loggers s) (contexts s) (output s)
  | _ => s
  end.

(** A null pointer is ignored. *)
Definition add_sink (k : option LogSink) (s : LogState) : LogState :=
  match k with Some k => mkLog (sinks s ++ [k]) (global_level s) (loggers s) (contexts s) (output s) | None => s end.

(** References to loggers are not valid afterwards. *)
Definition log_shutdown (s : LogState) : LogState := mkLog [] (global_level s) ∅ (contexts s) (output s).

Definition get_logger (name : string) (s : LogState) : LogState :=
  mkLog (sinks s) (global_level s) ({[ name ]} ∪ loggers s) (contexts s) (output s).

Definition set_service_context (thread : Z) (c : ServiceContext) (s : LogState) : LogState :=
  mkLog (sinks s) (global_level s) (loggers s) (<[thread := c]> (contexts s)) (output s).
Definition clear_service_context (thread : Z) (s : LogState) : LogState :=
  mkLog (sinks s) (global_level s) (loggers s) (delete thread (contexts s)) (output s).

(** ** Writing lines to a rotating file *)

Fixpoint rotating_lines (lines : list string) (r : Rotating) (fs : files) : Rotating * files * bool :=
  match lines with
  | [] => (r, fs, false)
  | l :: lines =>
      let '(r, fs, threw) := rotating_write l r fs in
      if (threw : bool) then (r, fs, true) else rotating_lines lines r fs
  end.
End Sinks.

Definition with_newline (l : string) : string := l +:+ newline.


(** *** Paths *)





(** ** Rotation *)

Section Rotation.
Context `{Disk}.
Context (opens : forall p, can_open p = true) (renames : forall p q, can_rename p q = true).
Context (base : string) (limit longest files_kept : Z).
Context (kept : 1 <= files_kept < 2 ^ 31) (limit_ok : 0 <= limit) (longest_ok : 0 <= longest).






End Rotation.


#[local] Instance good_disk : Disk := {| can_open _ := true; can_rename _ _ := true |}.



(** *** Where it falls short *)

(** The line that causes a rotation is not counted: a file grows beyond the limit. *)
Example limit_exceeded :
  let '(r, fs, _) := rotating_lines ["seven77"; "12345678901"; "seven77"] (mkRotating "log" 8 3 true 0 0) {[ "log" := "" ]} in
  slen (content "log" fs) = 20 /\ max_size r = 8.
Proof. vm_compute. done. Qed.

(** After a restart the numbers begin again: the first rotation replaces the newest
    of the numbered files and leaves the oldest. *)
Example restart_replaces_newest :
  let '(_, fs, _) := rotating_lines ["a"; "b"; "c"] (mkRotating "log" 1 2 true 0 0) {[ "log" := "" ]} in
  let '(_, fs', _) := rotating_lines ["d"] (mkRotating "log" 1 2 true 2 0) fs in
  fs !! rotated_path "log" 0 = Some (with_newline "a") /\ fs !! rotated_path "log" 1 = Some (with_newline "b") /\
  fs' !! rotated_path "log" 0 = Some (with_newline "a") /\ fs' !! rotated_path "log" 1 = Some (with_newline "c").
Proof. vm_compute. done. Qed.

(** An error of [rename] leaves [log] as an exception, skips the sinks behind and
    leaves the file closed: nothing is written to it any more. *)
Example failed_rename_stops_log :
  let d := {| can_open _ := true; can_rename _ _ := false |} in
  let r := mkRotating "log" 0 2 true 0 0 in
  let '(r1, fs1, threw) := @rotating_write d "a" r {[ "log" := "" ]} in
  threw = true /\ @rotating_write d "b" r1 fs1 = (r1, fs1, false).
Proof. vm_compute. done. Qed.
