(* ===== verification/ConsoleServer.v ===== *)
(** * ConsoleServer: the sockets of the console (src/net/console_session.cpp, src/net/console_server.cpp)

    What a console session writes, as a transition system: lines are posted to
    the strand from any handler, the strand runs one post at a time, and the socket
    completes one operation after the other.  Then the server with its sessions.
    What is read, and what the commands answer, is in [Console]. *)

From S2P Require Import Prelude Text.

(** ** The writing side of a session *)

Inductive Post := PLine (msg : string) | PClose.

(** [in_flight]: an [async_write] of the front of the queue is outstanding.
    [written], [handed] and [on_closes] are the trace: what the socket took, the
    lines given to [send_line], and the calls of [on_close]. *)
Record Session := mkSession {
  alive_ : bool;
  send_queue_ : list string;
  write_in_progress_ : bool;
  in_flight : bool;
  reading : bool;
  posts : list Post;
  written : list string;
  handed : list string;
  failed : bool;
  on_closes : Z
}.

Definition session_make : Session := mkSession true [] false false true [] [] [] false 0.

Definition framed (line : string) : string := line +:+ String "010" "".

(** [send_line] *)
Definition send_line (line : string) (s : Session) : Session :=
  mkSession (alive_ s) (send_queue_ s) (write_in_progress_ s) (in_flight s) (reading s) (posts s ++ [PLine (framed line)])
    (written s) (handed s ++ [line]) (failed s) (on_closes s).

(** [close] *)
Definition close (s : Session) : Session :=
  mkSession (alive_ s) (send_queue_ s) (write_in_progress_ s) (in_flight s) (reading s) (posts s ++ [PClose])
    (written s) (handed s) (failed s) (on_closes s).

Definition do_write (s : Session) : Session :=
  let more := match send_queue_ s with [] => false | _ => true end in
  mkSession (alive_ s) (send_queue_ s) more more (reading s) (posts s) (written s) (handed s) (failed s) (on_closes s).

Definition set_posts (l : list Post) (s : Session) : Session :=
  mkSession (alive_ s) (send_queue_ s) (write_in_progress_ s) (in_flight s) (reading s) l (written s) (handed s) (failed s) (on_closes s).

Definition push (msg : string) (s : Session) : Session :=
  mkSession (alive_ s) (send_queue_ s ++ [msg]) (write_in_progress_ s) (in_flight s) (reading s) (posts s) (written s) (handed s)
    (failed s) (on_closes s).

Definition run_post (p : Post) (s : Session) : Session :=
  match p with
  | PLine msg =>
      let idle := match send_queue_ s with [] => negb (write_in_progress_ s) | _ => false end in
      if idle then do_write (push msg s) else push msg s
  | PClose =>
      mkSession false (send_queue_ s) (write_in_progress_ s) (in_flight s) (reading s) (posts s) (written s) (handed s)
        (failed s) (on_closes s)
  end.

Definition handle_close (s : Session) : Session :=
  if alive_ s
  then mkSession false (send_queue_ s) (write_in_progress_ s) (in_flight s) (reading s) (posts s) (written s) (handed s)
         (failed s) (on_closes s + 1)
  else s.

(** The end of a write. *)
Definition write_done (ok : bool) (s : Session) : Session :=
  if ok
  then do_write (mkSession (alive_ s) (tail (send_queue_ s)) (write_in_progress_ s) false (reading s) (posts s)
                   (written s ++ take 1 (send_queue_ s)) (handed s) (failed s) (on_closes s))
  else handle_close (mkSession (alive_ s) (send_queue_ s) (write_in_progress_ s) false (reading s) (posts s) (written s) (handed s)
                       true (on_closes s)).

(** A read that failed: nothing is read after it. *)
Definition read_failed (s : Session) : Session :=
  handle_close (mkSession (alive_ s) (send_queue_ s) (write_in_progress_ s) (in_flight s) false (posts s) (written s) (handed s)
                  (failed s) (on_closes s)).

Inductive Label := LSend (line : string) | LClose | LRunPost | LWriteDone (ok : bool) | LReadFails.

Definition step (l : Label) (s : Session) : option Session :=
  match l with
  | LSend line => Some (send_line line s)
  | LClose => Some (close s)
  | LRunPost => match posts s with p :: ps => Some (run_post p (set_posts ps s)) | [] => None end
  | LWriteDone ok => if in_flight s then Some (write_done ok s) else None
  | LReadFails => if reading s then Some (read_failed s) else None
  end.

Inductive reachable : Session -> Prop :=
| reach_start : reachable session_make
| reach_step s l s' : reachable s -> step l s = Some s' -> reachable s'.

(** *** Invariant *)

Definition posted (l : list Post) : list string := omap (fun p => match p with PLine m => Some m | PClose => None end) l.

Record session_ok (s : Session) : Prop := {
  so_order : map framed (handed s) = written s ++ send_queue_ s ++ posted (posts s);
  so_flight : in_flight s = true -> send_queue_ s <> [] /\ write_in_progress_ s = true;
  so_idle : write_in_progress_ s = false -> send_queue_ s = [];
  so_busy : write_in_progress_ s = true -> failed s = false -> in_flight s = true;
  so_dead : failed s = true -> alive_ s = false;
  so_once : 0 <= on_closes s <= 1;
  so_closed : on_closes s = 1 -> alive_ s = false
}.

Lemma posted_app a b : posted (a ++ b) = posted a ++ posted b.
Proof. apply omap_app. Qed.

Lemma run_post_ok p s ps : posts s = p :: ps -> session_ok s -> session_ok (run_post p (set_posts ps s)).
Proof.
  intros Hp []. rewrite Hp in so_order0. destruct p as [msg|].
  - assert (Ho : map framed (handed s) = written s ++ (send_queue_ s ++ [msg]) ++ posted ps) by (rewrite so_order0, <- !app_assoc; done).
    unfold run_post, do_write, push, set_posts. cbn. destruct (send_queue_ s) as [|q qs] eqn:Eq.
    + destruct (write_in_progress_ s) eqn:Ew; cbn; split; cbn; try done.
    + split; cbn; try done; intros Hx; [by destruct (so_flight0 Hx)|by apply so_idle0 in Hx].
  - unfold run_post, set_posts. split; cbn; done.
Qed.

Lemma handle_close_ok s : session_ok s -> session_ok (handle_close s).
Proof.
  intros []. unfold handle_close. destruct (alive_ s) eqn:Ha; [|by split]. split; cbn; try done.
  destruct (Z.eq_dec (on_closes s) 1) as [E|E]; [by apply so_closed0 in E|lia].
Qed.

Lemma write_done_ok s : in_flight s = true -> session_ok s -> session_ok (write_done true s).
Proof.
  intros Hf []. destruct (so_flight0 Hf) as [Hq Hw]. unfold write_done, do_write. cbn.
  destruct (send_queue_ s) as [|q qs]; [done|]. cbn in *. split; cbn; try done.
  - by rewrite so_order0, <- app_assoc.
  - by destruct qs.
  - by destruct qs.
Qed.

Lemma console_step_ok l s s' : session_ok s -> step l s = Some s' -> session_ok s'.
Proof.
  intros Hs. destruct l as [line| | |ok|]; cbn [step].
  - intros [= <-]. destruct Hs. split; cbn; try done. rewrite map_app, so_order0, posted_app. cbn. by rewrite !app_assoc.
  - intros [= <-]. destruct Hs. split; cbn; try done. by rewrite posted_app, app_nil_r.
  - destruct (posts s) as [|p ps] eqn:Hp; [done|]. intros [= <-]. by apply run_post_ok.
  - destruct (in_flight s) eqn:Hf; [|done]. intros [= <-]. destruct ok; [by apply write_done_ok|].
    pose proof Hs as []. unfold write_done, handle_close. cbn. destruct (so_flight0 Hf) as [Hq Hw].
    destruct (alive_ s) eqn:Ha; split; cbn; try done.
    destruct (Z.eq_dec (on_closes s) 1) as [E|E]; [by apply so_closed0 in E|lia].
  - destruct (reading s); [|done]. intros [= <-]. apply handle_close_ok. destruct Hs. by split.
Qed.

Lemma console_reachable_ok s : reachable s -> session_ok s.
Proof.
  induction 1 as [|s l s' _ IH Hs]; [|by eapply console_step_ok].
  split; cbn; try done; lia.
Qed.

(** The answers of a console.  However handlers, the socket and [close]
    interleave, the socket takes the lines in the order they were handed over, each
    at most once and never two at a time; the owner hears of the end at most once,
    and only of a session that is not alive; and when nothing is left to run on a
    session whose writes did not fail, every line was written. *)
Theorem console_replies_in_order s : reachable s ->
  (exists rest, map framed (handed s) = written s ++ rest) /\
  (on_closes s <= 1 /\ (on_closes s = 1 -> alive_ s = false)) /\
  (posts s = [] -> in_flight s = false -> failed s = false -> written s = map framed (handed s)).
Proof.
  intros []%console_reachable_ok. split_and!; [by eexists|lia|done|]. intros Hp Hf Hx. rewrite Hp in so_order0. cbn in so_order0.
  destruct (write_in_progress_ s) eqn:Ew; [by rewrite so_busy0 in Hf|]. rewrite so_idle0 in so_order0 by done.
  by rewrite app_nil_r in so_order0.
Qed.

Fixpoint run (ls : list Label) (s : Session) : option Session :=
  match ls with [] => Some s | l :: ls => match step l s with Some s => run ls s | None => None end end.

Lemma console_run_reachable ls : forall s s', reachable s -> run ls s = Some s' -> reachable s'.
Proof.
  induction ls as [|l ls IH]; intros s s' Hr; cbn [run]; [by intros [= <-]|].
  destruct (step l s) as [s1|] eqn:E; [|done]. apply IH. by eapply reach_step.
Qed.

(** Two answers of one line and a third while the first is being written. *)
Definition conversation : list Label :=
  [LSend "a"; LSend "b"; LRunPost; LRunPost; LSend "c"; LWriteDone true; LRunPost; LWriteDone true; LWriteDone true].

Lemma console_replies_in_order_witness :
  match run conversation session_make with
  | Some s => written s = map framed ["a"; "b"; "c"]
  | None => False
  end.
Proof.
  pose proof (console_run_reachable conversation session_make) as Hr. destruct (run conversation session_make) as [s|] eqn:E; [|by vm_compute in E].
  pose proof (proj2 (proj2 (console_replies_in_order s (Hr s reach_start eq_refl)))) as Hw.
  vm_compute in E. injection E as <-. exact (Hw eq_refl eq_refl eq_refl).
Defined.

(** After a failed write the lines that follow are kept and never written. *)
Example failed_write_blocks_queue :
  match run [LSend "a"; LRunPost; LWriteDone false; LSend "b"; LRunPost] session_make with
  | Some s => written s = [] /\ send_queue_ s = map framed ["a"; "b"] /\ in_flight s = false
  | None => False
  end.
Proof. vm_compute. done. Qed.

(** ** The server

    [accepting]: an accept is outstanding; [socket_file]: the path exists. *)
Record ConsoleServer := mkServer {
  listening_ : bool;
  accepting : bool;
  sessions_ : list Z;
  next_session_id_ : Z;
  socket_file : bool
}.

Definition server_make : ConsoleServer := mkServer false false [] 1 false.

Definition do_accept (s : ConsoleServer) : ConsoleServer :=
  mkServer (listening_ s) (listening_ s) (sessions_ s) (next_session_id_ s) (socket_file s).

(** [bound]: the path can be bound; otherwise an exception leaves [start], after
    the file was removed. *)
Definition server_start (bound : bool) (s : ConsoleServer) : outcome ConsoleServer :=
  if bound then Ret (do_accept (mkServer true (accepting s) (sessions_ s) (next_session_id_ s) true))
  else Throw (StdExn "bind").

Definition close_all_sessions (s : ConsoleServer) : ConsoleServer :=
  mkServer (listening_ s) (accepting s) [] (next_session_id_ s) (socket_file s).

(** An accept that has completed is not taken back by closing the acceptor. *)
Definition server_stop (s : ConsoleServer) : ConsoleServer :=
  if listening_ s
  then let s := close_all_sessions s in mkServer false (accepting s) (sessions_ s) (next_session_id_ s) false
  else s.

Definition session_count (s : ConsoleServer) : Z := vsize (sessions_ s).

(** The handler of an accept. *)
Definition accept_done (ok : bool) (s : ConsoleServer) : ConsoleServer :=
  if ok
  then do_accept (mkServer (listening_ s) false (sessions_ s ++ [next_session_id_ s]) (u64 (next_session_id_ s + 1)) (socket_file s))
  else mkServer (listening_ s) false (sessions_ s) (next_session_id_ s) (socket_file s).

(** [on_close] of a session. *)
Definition session_closed (id : Z) (s : ConsoleServer) : ConsoleServer :=
  mkServer (listening_ s) (accepting s) (List.filter (fun x => negb (x =? id)) (sessions_ s)) (next_session_id_ s) (socket_file s).

Inductive server_event := SAccept (ok : bool) | SClosed (id : Z) | SStop.

Definition server_step (e : server_event) (s : ConsoleServer) : option ConsoleServer :=
  match e with
  | SAccept ok => if accepting s then Some (accept_done ok s) else None
  | SClosed id => Some (session_closed id s)
  | SStop => Some (server_stop s)
  end.

(** From a server that was started, as long as the numbers of sessions do not wrap. *)
Inductive server_reachable : ConsoleServer -> Prop :=
| server_started s : server_start true server_make = Ret s -> server_reachable s
| server_moved s e s' : server_reachable s -> server_step e s = Some s' -> next_session_id_ s < 2 ^ 64 - 1 -> server_reachable s'.

Record server_ok (s : ConsoleServer) : Prop := {
  sv_distinct : NoDup (sessions_ s);
  sv_below : Forall (fun id => id < next_session_id_ s) (sessions_ s);
  sv_next : 0 <= next_session_id_ s;
  sv_stopped : listening_ s = false -> vsize (sessions_ s) <= if accepting s then 0 else 1
}.

Lemma vsize_filter {A} (f : A -> bool) l : vsize (List.filter f l) <= vsize l.
Proof. unfold vsize. pose proof (List.filter_length_le f l). lia. Qed.

Lemma accept_ok ok s : accepting s = true -> next_session_id_ s < 2 ^ 64 - 1 -> server_ok s -> server_ok (accept_done ok s).
Proof.
  intros Ha Hn []. rewrite Ha in sv_stopped0. destruct ok; split; cbn; try done.
  - apply list.NoDup_app. split_and!; [done| |apply NoDup_singleton]. intros x Hx ->%list_elem_of_singleton.
    rewrite Forall_forall in sv_below0. apply list_elem_of_In in Hx. specialize (sv_below0 _ Hx). lia.
  - rewrite cast_small by lia. apply Forall_app; split; [|repeat constructor; lia].
    eapply Forall_impl; [|exact sv_below0]. cbn. lia.
  - rewrite cast_small by lia. lia.
  - intros Hl. rewrite Hl. specialize (sv_stopped0 Hl). unfold vsize in *. rewrite length_app. cbn. lia.
  - intros Hl. specialize (sv_stopped0 Hl). lia.
Qed.

Lemma closed_ok id s : server_ok s -> server_ok (session_closed id s).
Proof.
  intros []. split; cbn; try done.
  - apply NoDup_ListNoDup, List.NoDup_filter, NoDup_ListNoDup. done.
  - rewrite Forall_forall in *. intros x Hx%List.filter_In. apply sv_below0. tauto.
  - intros Hl. specialize (sv_stopped0 Hl). pose proof (vsize_filter (fun x => negb (x =? id)) (sessions_ s)). lia.
Qed.

Lemma stop_ok s : server_ok s -> server_ok (server_stop s).
Proof.
  intros Hs. unfold server_stop. destruct (listening_ s) eqn:Hl; [|done]. destruct Hs.
  split; cbn; try done; [apply NoDup_nil_2|by destruct (accepting s)].
Qed.

(** The sessions of the console server.  They have different numbers, and
    after the server was stopped at most one is left: one whose accept had already
    completed, and then no accept is outstanding. *)
Theorem console_sessions_tracked s : server_reachable s ->
  NoDup (sessions_ s) /\ Forall (fun id => id < next_session_id_ s) (sessions_ s) /\
  (listening_ s = false -> session_count s <= if accepting s then 0 else 1).
Proof.
  intros Hr. assert (server_ok s) as []; [|done]. induction Hr as [s Hs|s e s' _ IH Hs Hn].
  - injection Hs as <-. split; cbn; try done; constructor.
  - destruct e as [ok|id|]; cbn [server_step] in Hs.
    + destruct (accepting s) eqn:Ha; [|done]. injection Hs as <-. by apply accept_ok.
    + injection Hs as <-. by apply closed_ok.
    + injection Hs as <-. by apply stop_ok.
Qed.

Definition listening_server : ConsoleServer := mkServer true true [] 1 true.

Lemma console_sessions_tracked_witness : session_count (accept_done true (server_stop (accept_done true listening_server))) <= 1.
Proof.
  refine (proj2 (proj2 (console_sessions_tracked (accept_done true (server_stop (accept_done true listening_server))) _)) eq_refl).
  apply (server_moved (server_stop (accept_done true listening_server)) (SAccept true)); [|done|done].
  apply (server_moved (accept_done true listening_server) SStop); [|done|done].
  apply (server_moved listening_server (SAccept true)); [|done|done]. by apply server_started.
Defined.

(** *** Where it falls short *)

(** A session that was accepted while the server stops stays open, and any error of
    an accept ends accepting although the server listens. *)
Example accepted_while_stopping :
  sessions_ (accept_done true (server_stop listening_server)) = [1] /\
  accepting (accept_done false listening_server) = false /\ listening_ (accept_done false listening_server) = true.
Proof. done. Qed.
