(* ===== verification/Core.v ===== *)
(** * Core: identifiers, the service registry and the adapter (src/shield_base/id.cpp, src/core/)

    Identifiers and their texts, [ServiceRegistry], the handles of services,
    timers and tasks, and [CafAdapter].  The actor system is outside: the model
    keeps which actors it was given and what was sent to them.  The bootstrap makes
    one adapter; the services of Lua do not use it. *)

From S2P Require Import Prelude Text Json Numbers ByteBuffer.

(** ** Identifiers *)

Definition service_id_text (value : Z) : string := "svc:" +:+ to_string_u64 value.

(** [ServiceId::generate] on its counter, which starts at one. *)
Definition generate_service_id (counter : Z) : Z * Z := (counter, u64 (counter + 1)).

(** [TraceId::generate]: the low 16 bits of the time and 48 random bits. *)
Definition generate_trace_id (now_ms random_part : Z) : Z :=
  Z.lor (u64 (Z.shiftl (u64 now_ms) 48)) (Z.land random_part 0xffffffffffff).

(** [%016llx] *)
Fixpoint hex_digits (n : nat) (value : Z) (acc : string) : string :=
  match n with O => acc | S n => hex_digits n (value / 16) (String (hex_char (value mod 16)) acc) end.

Definition trace_id_text (value : Z) : string := if value =? 0 then "trace:none" else "trace:" +:+ hex_digits 16 value "".

Fixpoint after (p s : string) : option string :=
  match p, s with
  | EmptyString, _ => Some s
  | String a p, String b s => if Ascii.eqb a b then after p s else None
  | _, _ => None
  end.

(** [std::stoull(s, nullptr, 16)]: what follows the digits is ignored, a minus
    negates. *)
Definition hex_prefix (s : string) : string :=
  match s with
  | String "0"%char (String x (String d r)) =>
      if (Ascii.eqb x "x" || Ascii.eqb x "X") && bool_decide (is_Some (digit_val 16 d)) then String d r else s
  | _ => s
  end.

Definition stoull16 (s : string) : option Z :=
  let '(neg, s) := split_sign s in
  let '(v, digits) := scan_digits 16 (hex_prefix s) 0 0 in
  if (digits =? 0) || (size_max <? v) then None else Some (if (neg : bool) then u64 (- v) else v).

Definition trace_id_from_string (s : string) : Z := default 0 (stoull16 (default s (after "trace:" s))).

Definition node_id_local : string := "node-local".

(** *** Trace identifiers are read back *)

Definition hex_ok (d : Z) : bool :=
  bool_decide (digit_val 16 (hex_char d) = Some d) && negb (isspace (hex_char d)) &&
  negb (Ascii.eqb (hex_char d) "-") && negb (Ascii.eqb (hex_char d) "+") &&
  negb (Ascii.eqb (hex_char d) "x") && negb (Ascii.eqb (hex_char d) "X").

Lemma hex_digit_ok d : 0 <= d < 16 -> hex_ok d = true.
Proof.
  intros Hd. assert (H : forallb hex_ok (seqZ 0 16) = true) by (vm_compute; reflexivity).
  rewrite forallb_forall in H. apply H. apply list_elem_of_In, elem_of_seqZ. lia.
Qed.

Lemma hex_digits_scan n : forall value acc a k, 0 <= value ->
  scan_digits 16 (hex_digits n value acc) a k =
  scan_digits 16 acc (a * 16 ^ Z.of_nat n + value mod 16 ^ Z.of_nat n) (k + Z.of_nat n).
Proof.
  induction n as [|n IH]; intros value acc a k Hv; cbn [hex_digits].
  - change (Z.of_nat 0) with 0. rewrite Z.pow_0_r, Z.mod_1_r. f_equal; lia.
  - pose proof (Z.mod_pos_bound value 16 ltac:(lia)) as Hm. rewrite IH by (apply Z.div_pos; lia). cbn [scan_digits].
    pose proof (hex_digit_ok _ Hm) as Hok. unfold hex_ok in Hok. bools.
    match goal with H : bool_decide (digit_val 16 _ = _) = true |- _ => apply bool_decide_eq_true in H; rewrite H end.
    rewrite Nat2Z.inj_succ, Z.pow_succ_r by lia. f_equal; [|lia].
    pose proof (Z.pow_pos_nonneg 16 (Z.of_nat n) ltac:(lia) ltac:(lia)) as Hp.
    rewrite (Z.rem_mul_r value 16 (16 ^ Z.of_nat n)) by lia. lia.
Qed.

Lemma hex_digits_head value : 0 <= value -> exists d1 d2 r,
  hex_digits 16 value "" = String (hex_char d1) (String (hex_char d2) r) /\ 0 <= d1 < 16 /\ 0 <= d2 < 16.
Proof.
  intros Hv. cbn [hex_digits]. do 3 eexists. split; [reflexivity|]. split; apply Z.mod_pos_bound; lia.
Qed.

Lemma ascii_eqb_ne a b : Ascii.eqb a b = false -> a <> b.
Proof. by intros H%Ascii.eqb_neq. Qed.

(** Neither blanks, a sign nor a prefix stand before hexadecimal digits. *)
Lemma hex_plain d1 d2 r : 0 <= d1 < 16 -> 0 <= d2 < 16 ->
  let s := String (hex_char d1) (String (hex_char d2) r) in split_sign s = (false, s) /\ hex_prefix s = s.
Proof.
  intros H1%hex_digit_ok H2%hex_digit_ok s. unfold hex_ok in *. bools. unfold s. clear s. split.
  - unfold split_sign. cbn [skip]. repeat match goal with H : isspace _ = _ |- _ => rewrite H end.
    generalize dependent (hex_char d1). intros c. intros. destruct c as [[] [] [] [] [] [] [] []]; done.
  - unfold hex_prefix. generalize dependent (hex_char d2). intros c2. intros.
    assert (Ha : (Ascii.eqb c2 "x" || Ascii.eqb c2 "X") = false) by (apply orb_false_iff; by split).
    destruct r as [|c3 r]; [by destruct (hex_char d1) as [[] [] [] [] [] [] [] []]|]. rewrite Ha. cbn [andb].
    by destruct (hex_char d1) as [[] [] [] [] [] [] [] []].
Qed.

Lemma stoull16_printed value : 0 <= value < 2 ^ 64 -> stoull16 (hex_digits 16 value "") = Some value.
Proof.
  intros Hv. destruct (hex_digits_head value ltac:(lia)) as (d1 & d2 & r & Eh & H1 & H2).
  destruct (hex_plain d1 d2 r H1 H2) as [Hs Hp]. unfold stoull16. rewrite Eh, Hs, Hp, <- Eh, hex_digits_scan by lia.
  cbn [scan_digits]. change (16 ^ Z.of_nat 16) with (2 ^ 64). rewrite Z.mul_0_l, Z.mod_small by lia. cbn [Z.add].
  change (0 + Z.of_nat 16 =? 0) with false. cbn [orb]. unfold size_max. by rewrite (proj2 (Z.ltb_ge _ _)) by lia.
Qed.

Lemma after_app p s : after p (p +:+ s) = Some s.
Proof. induction p as [|c p IH]; [done|]. rewrite str_app_cons. cbn. by rewrite Ascii.eqb_refl. Qed.

(** A trace identifier is read back from its text.  The text of every 64-bit
    identifier, zero included, is read as this identifier, and so are its digits
    without the prefix. *)
Theorem trace_id_roundtrip value : 0 <= value < 2 ^ 64 ->
  trace_id_from_string (trace_id_text value) = value /\ trace_id_from_string (hex_digits 16 value "") = value.
Proof.
  intros Hv. unfold trace_id_from_string, trace_id_text. split.
  - destruct (Z.eqb_spec value 0) as [->|_]; [reflexivity|].
    rewrite after_app. unfold from_option, id. by rewrite stoull16_printed.
  - destruct (hex_digits_head value ltac:(lia)) as (d1 & d2 & r & Eh & H1 & H2).
    assert (Ha : after "trace:" (hex_digits 16 value "") = None).
    { rewrite Eh. apply hex_digit_ok in H1. unfold hex_ok in H1. bools. cbn [after].
      destruct (Ascii.eqb_spec "t" (hex_char d1)) as [E|_]; [|done].
      rewrite <- E in *. done. }
    rewrite Ha. unfold from_option, id. by rewrite stoull16_printed.
Qed.

Lemma trace_id_roundtrip_witness : trace_id_from_string (trace_id_text 0xbeef) = 0xbeef.
Proof. exact (proj1 (trace_id_roundtrip 0xbeef ltac:(lia))). Defined.

(** Text that is no number is the invalid identifier, and what follows digits is
    ignored. *)
Example trace_id_texts :
  trace_id_text 0xbeef = "trace:000000000000beef" /\ trace_id_from_string "trace:none" = 0 /\
  trace_id_from_string "12 monkeys" = 0x12 /\ trace_id_from_string "-1" = 2 ^ 64 - 1 /\
  trace_id_from_string "0xfffffffffffffffff" = 0.
Proof. vm_compute. repeat split. Qed.

(** ** Handles *)

(** The holder is a pointer: to an actor, which a holder of its own may lack, or
    made of the number of an actor. *)
Inductive holder := ActorHolder (actor : option Z) | NumberAsPointer (actor_id : Z).

Record ServiceHandle := mkHandle { holder_ : option holder; name_ : string; is_local_ : bool }.

Definition handle_empty : ServiceHandle := mkHandle None "" true.

(** The copy, and what is left of the original after a move; [std::move] leaves
    the name of the original empty. *)
Definition handle_copy (other : ServiceHandle) : ServiceHandle := other.
Definition handle_move (other : ServiceHandle) : ServiceHandle * ServiceHandle :=
  (other, mkHandle None "" (is_local_ other)).

Definition handle_is_valid (h : ServiceHandle) : outcome bool :=
  match holder_ h with
  | None => Ret false
  | Some (ActorHolder a) => Ret (bool_decide (is_Some a))
  | Some (NumberAsPointer _) => Undef
  end.

Definition handle_text (h : ServiceHandle) : outcome string :=
  let! b := handle_is_valid h in Ret (if negb b then "shield://invalid" else "shield://local/" +:+ name_ h).

Definition internal_set (p : option holder) (h : ServiceHandle) : ServiceHandle := mkHandle p (name_ h) (is_local_ h).

(** [TimerHandle] and [TaskHandle]: a number, zero when invalid. *)
Definition id_is_valid (id : Z) : bool := negb (id =? 0).
Definition id_move (id : Z) : Z * Z := (id, 0).

(** [cancel] of a handle forgets the number. *)
Definition id_cancel (id : Z) : Z := 0.

(** ** ServiceRegistry *)

Definition ServiceRegistry : Type := gmap string ServiceHandle.

(** [emplace] keeps what is there. *)
Definition register_service (name : string) (h : ServiceHandle) (r : gmap string ServiceHandle) : bool * gmap string ServiceHandle :=
  match r !! name with Some _ => (false, r) | None => (true, <[name := h]> r) end.

Definition unregister_service (name : string) (r : gmap string ServiceHandle) : bool * gmap string ServiceHandle :=
  match r !! name with Some _ => (true, delete name r) | None => (false, r) end.

Definition find_service (name : string) (r : gmap string ServiceHandle) : ServiceHandle := default handle_empty (r !! name).

(** The names in the order of the hash table. *)
Definition registry_list (r : gmap string ServiceHandle) : list string := map fst (map_to_list r).
Definition has_service (name : string) (r : gmap string ServiceHandle) : bool := bool_decide (is_Some (r !! name)).
Definition registry_size (r : gmap string ServiceHandle) : Z := Z.of_nat (size r).

(** ** CafAdapter *)

Record MessageEnvelope := mkEnvelope {
  env_sender : ServiceHandle;
  env_method : string;
  env_payload : list byte;
  env_trace : Z;
  env_timeout_ms : Z;
  expects_response : bool
}.

Inductive MessageResponse := ResponseOk (data : list byte) | ResponseError (code message : string).

Record sent_message := mkSent { to_actor : Z; m_sender : string; m_method : string; m_args : json; m_trace_id : string }.

(** [timer_actors] and [task_actors] are the maps of the adapter; [ticking] are
    the actors with a tick to come and whether they repeat, and [fired] the
    callbacks that were called, by the number of their timer. *)
Record CafAdapter := mkAdapter {
  registry : gmap string ServiceHandle;
  timer_actors : gset Z;
  task_actors : gset Z;
  next_id : Z;
  next_actor : Z;
  ticking : gmap Z bool;
  fired : list Z;
  mail : list sent_message
}.

Definition adapter_make : CafAdapter := mkAdapter ∅ ∅ ∅ 1 1 ∅ [] [].

(** [spawn_service]; the holder is never freed. *)
Definition spawn_service (name : string) (a : CafAdapter) : ServiceHandle * CafAdapter :=
  let h := mkHandle (Some (ActorHolder (Some (next_actor a)))) name true in
  (h, mkAdapter (register_service name h (registry a)).2 (timer_actors a) (task_actors a) (next_id a) (next_actor a + 1)
        (ticking a) (fired a) (mail a)).

(** A payload that is no JSON is an empty list of arguments. *)
Definition adapter_send `{JsonLib} (target : ServiceHandle) (e : MessageEnvelope) (a : CafAdapter) : outcome CafAdapter :=
  match holder_ target with
  | Some (ActorHolder (Some actor)) =>
      let args := match json_parse (env_payload e) with inr j => j | inl _ => JArr [] end in
      let m := mkSent actor (name_ (env_sender e)) (env_method e) args (trace_id_text (env_trace e)) in
      Ret (mkAdapter (registry a) (timer_actors a) (task_actors a) (next_id a) (next_actor a) (ticking a) (fired a) (mail a ++ [m]))
  | Some (NumberAsPointer _) => Undef
  | _ => Ret a
  end.

(** [call] asks nobody. *)
Definition adapter_call (target : ServiceHandle) (e : MessageEnvelope) : outcome MessageResponse :=
  let! b := handle_is_valid target in
  Ret (if b then ResponseOk [] else ResponseError "invalid_argument" "Invalid service handle").

Definition start_timer (repeat : bool) (a : CafAdapter) : Z * CafAdapter :=
  let id := next_id a in
  (id, mkAdapter (registry a) ({[ id ]} ∪ timer_actors a) (task_actors a) (u64 (id + 1)) (next_actor a)
         (<[id := repeat]> (ticking a)) (fired a) (mail a)).

Definition timeout_once : CafAdapter -> Z * CafAdapter := start_timer false.
Definition timer_repeat : CafAdapter -> Z * CafAdapter := start_timer true.

(** [timer_actor_impl] at a tick: the callback, and the next tick or the end. *)
Definition timer_tick (id : Z) (a : CafAdapter) : option CafAdapter :=
  match ticking a !! id with
  | Some repeat =>
      Some (mkAdapter (registry a) (timer_actors a) (task_actors a) (next_id a) (next_actor a)
              (if repeat : bool then ticking a else delete id (ticking a)) (fired a ++ [id]) (mail a))
  | None => None
  end.

(** [cancel_timer]; the actor ends when it handles the exit message, before or
    after a tick that is under way. *)
Definition cancel_timer (id : Z) (a : CafAdapter) : CafAdapter :=
  if negb (id_is_valid id) || bool_decide (id ∉ timer_actors a) then a
  else mkAdapter (registry a) (timer_actors a ∖ {[ id ]}) (task_actors a) (next_id a) (next_actor a) (ticking a) (fired a) (mail a).

(** The exit message of a timer that was cancelled. *)
Definition timer_exit (id : Z) (a : CafAdapter) : option CafAdapter :=
  if bool_decide (id ∈ timer_actors a) then None
  else Some (mkAdapter (registry a) (timer_actors a) (task_actors a) (next_id a) (next_actor a) (delete id (ticking a)) (fired a) (mail a)).

(** The task runs when its actor is launched. *)
Definition adapter_fork (a : CafAdapter) : Z * CafAdapter :=
  let id := next_id a in
  (id, mkAdapter (registry a) (timer_actors a) ({[ id ]} ∪ task_actors a) (u64 (id + 1)) (next_actor a) (ticking a) (fired a ++ [id]) (mail a)).

Inductive adapter_event := EvOnce | EvRepeat | EvFork | EvTick (id : Z) | EvCancel (id : Z) | EvExit (id : Z) | EvSpawn (name : string).

Definition adapter_step (e : adapter_event) (a : CafAdapter) : option CafAdapter :=
  match e with
  | EvOnce => Some (timeout_once a).2
  | EvRepeat => Some (timer_repeat a).2
  | EvFork => Some (adapter_fork a).2
  | EvTick id => timer_tick id a
  | EvCancel id => Some (cancel_timer id a)
  | EvExit id => timer_exit id a
  | EvSpawn name => Some (spawn_service name a).2
  end.

(** Steps from one state to another, as long as the numbers do not wrap. *)
Inductive moves : CafAdapter -> CafAdapter -> Prop :=
| moves_none a : moves a a
| moves_more a b e c : moves a b -> next_id b < 2 ^ 64 - 1 -> adapter_step e b = Some c -> moves a c.

(** How often the callback with this number was called. *)
Definition times (id : Z) (l : list Z) : nat := count_occ Z.eq_dec l id.
#[local] Arguments times : simpl never.

(** Only numbers that were given out tick, are kept or were called. *)
Record adapter_ok (a : CafAdapter) : Prop := {
  ao_next : 1 <= next_id a;
  ao_ticking : forall id r, ticking a !! id = Some r -> id < next_id a;
  ao_kept : forall id, id ∈ timer_actors a -> id < next_id a;
  ao_fired : forall id, times id (fired a) <> 0%nat -> id < next_id a
}.

Lemma times_snoc id l x : times id (l ++ [x]) = (times id l + (if decide (x = id) then 1 else 0))%nat.
Proof. unfold times. rewrite count_occ_app. cbn. destruct (Z.eq_dec x id), (decide (x = id)); lia || done. Qed.

Lemma start_timer_ok r a : next_id a < 2 ^ 64 - 1 -> adapter_ok a -> adapter_ok (start_timer r a).2.
Proof.
  intros Hn []. unfold start_timer. cbn [snd]. rewrite cast_small by lia. split; cbn; [lia| | |].
  - intros id q. destruct (decide (id = next_id a)) as [->|Hne]; [lia|]. rewrite lookup_insert_ne by done. intros H%ao_ticking0. lia.
  - intros id [->%elem_of_singleton|H%ao_kept0]%elem_of_union; lia.
  - intros id H%ao_fired0. lia.
Qed.

Lemma adapter_step_ok e a b : next_id a < 2 ^ 64 - 1 -> adapter_ok a -> adapter_step e a = Some b -> adapter_ok b.
Proof.
  intros Hn Ha. pose proof Ha as []. destruct e as [| | |id|id|id|name]; cbn [adapter_step].
  - intros [= <-]. by apply start_timer_ok.
  - intros [= <-]. by apply start_timer_ok.
  - intros [= <-]. unfold adapter_fork. cbn [snd]. rewrite cast_small by lia. split; cbn; [lia| | |].
    + intros id q H%ao_ticking0. lia.
    + intros id H%ao_kept0. lia.
    + intros id. rewrite times_snoc. destruct (decide (next_id a = id)) as [->|]; [lia|]. rewrite Nat.add_0_r. intros H%ao_fired0. lia.
  - unfold timer_tick. destruct (ticking a !! id) as [r|] eqn:E; [|done]. intros [= <-]. split; cbn; try done.
    + intros j q. destruct r; [apply ao_ticking0|]. intros [_ H]%lookup_delete_Some. by eapply ao_ticking0.
    + intros j. rewrite times_snoc. destruct (decide (id = j)) as [->|]; [by eapply ao_ticking0 in E|]. rewrite Nat.add_0_r. apply ao_fired0.
  - intros [= <-]. unfold cancel_timer. destruct (_ || _); [done|]. split; cbn; try done. intros j [H _]%elem_of_difference. by apply ao_kept0.
  - unfold timer_exit. case_bool_decide; [done|]. intros [= <-]. split; cbn; try done.
    intros j q [_ H']%lookup_delete_Some. by eapply ao_ticking0.
  - intros [= <-]. by split.
Qed.

Lemma moves_ok a b : moves a b -> adapter_ok a -> adapter_ok b.
Proof. induction 1 as [|a b e c _ IH Hn Hs]; [done|]. intros Ha. eapply adapter_step_ok; eauto. Qed.

(** What may still happen to a number: a one-shot timer has one call to come. *)
Definition spent (id : Z) (n : nat) (a : CafAdapter) : Prop :=
  id < next_id a /\
  match ticking a !! id with
  | Some repeat => repeat = false /\ (times id (fired a) < n)%nat
  | None => (times id (fired a) <= n)%nat
  end.

Lemma spent_other id n a b : spent id n a -> next_id a <= next_id b -> ticking b !! id = ticking a !! id ->
  times id (fired b) = times id (fired a) -> spent id n b.
Proof. unfold spent. intros [Hi Hs] Hn -> ->. split; [lia|done]. Qed.

Lemma spent_step id n e a b : next_id a < 2 ^ 64 - 1 -> adapter_ok a -> spent id n a -> adapter_step e a = Some b -> spent id n b.
Proof.
  intros Hn [Hnx _ _ _] Hs. pose proof Hs as [Hi Hm]. destruct e as [| | |j|j|j|name]; cbn [adapter_step].
  1,2: intros [= <-]; apply (spent_other id n a); [done|cbn; rewrite cast_small; lia|cbn; by rewrite lookup_insert_ne by lia|done].
  - intros [= <-]. apply (spent_other id n a); [done|cbn; rewrite cast_small; lia|done|].
    cbn. rewrite times_snoc, decide_False by lia. lia.
  - unfold timer_tick. destruct (ticking a !! j) as [r|] eqn:E; [|done]. intros [= <-]. destruct (decide (j = id)) as [->|Hne].
    + rewrite E in Hm. destruct Hm as [-> Hm]. split; [done|]. cbn. rewrite lookup_delete_eq, times_snoc, decide_True by done. lia.
    + apply (spent_other id n a); [done|cbn; lia| |cbn; rewrite times_snoc, decide_False by done; lia].
      cbn. destruct r; [done|]. by rewrite lookup_delete_ne.
  - intros [= <-]. unfold cancel_timer. destruct (_ || _); [done|]. by apply (spent_other id n a).
  - unfold timer_exit. case_bool_decide; [done|]. intros [= <-]. destruct (decide (j = id)) as [->|Hne].
    + split; [done|]. cbn. rewrite lookup_delete_eq. destruct (ticking a !! id) as [r|]; [lia|done].
    + apply (spent_other id n a); [done|cbn; lia| |done]. cbn. by rewrite lookup_delete_ne.
  - intros [= <-]. by apply (spent_other id n a).
Qed.

Lemma spent_moves id n a b : moves a b -> adapter_ok a -> spent id n a -> spent id n b.
Proof.
  induction 1 as [|a b e c Hm IH Hn Hs]; [done|]. intros Ha Hsp. eapply spent_step; eauto. by eapply moves_ok.
Qed.

Lemma spent_times id n a : spent id n a -> (times id (fired a) <= n)%nat.
Proof. intros [_ Hm]. destruct (ticking a !! id); lia. Qed.

Lemma fresh_number a : adapter_ok a -> times (next_id a) (fired a) = 0%nat /\ ticking a !! next_id a = None.
Proof.
  intros []. split.
  - destruct (times (next_id a) (fired a)) eqn:E; [done|]. pose proof (ao_fired0 (next_id a) ltac:(by rewrite E)). lia.
  - destruct (ticking a !! next_id a) as [r|] eqn:E; [|done]. apply ao_ticking0 in E. lia.
Qed.

(** What callbacks of the adapter are called.  Each timer and task gets a
    number of its own that is valid; whatever happens afterwards the callback of a
    one-shot timer and that of a task are called at most once, and a timer whose
    actor has ended after a cancellation is not called again. *)
Theorem callbacks_bounded a b : moves adapter_make a -> next_id a < 2 ^ 64 - 1 ->
  (forall id a1, timeout_once a = (id, a1) -> moves a1 b ->
     id_is_valid id = true /\ times id (fired a) = 0%nat /\ (times id (fired b) <= 1)%nat) /\
  (forall id a1, adapter_fork a = (id, a1) -> moves a1 b -> times id (fired a) = 0%nat /\ (times id (fired b) <= 1)%nat) /\
  (forall id a1, id < next_id a -> timer_exit id a = Some a1 -> moves a1 b -> (times id (fired b) <= times id (fired a))%nat).
Proof.
  intros Hm Hn. assert (Ha : adapter_ok a).
  { eapply moves_ok; [exact Hm|]. split; cbn; [lia|..]; try done. all: intros id; set_solver. }
  destruct (fresh_number a Ha) as [Hf Ht]. pose proof Ha as [Hnx _ _ _]. split_and!.
  - intros id a1 [= <- <-] Hb. split_and!; [unfold id_is_valid; by rewrite (proj2 (Z.eqb_neq _ _)) by lia|done|].
    apply spent_times, (spent_moves _ _ _ _ Hb); [by apply start_timer_ok|]. split; cbn; [rewrite cast_small; lia|].
    rewrite lookup_insert_eq, Hf. split; [done|lia].
  - intros id a1 [= <- <-] Hb. split; [done|]. apply spent_times, (spent_moves _ _ _ _ Hb).
    + by apply (adapter_step_ok EvFork a).
    + split; cbn; [rewrite cast_small; lia|]. rewrite Ht, times_snoc, Hf, decide_True by done. done.
  - intros id a1 Hid He Hb. apply spent_times, (spent_moves _ _ _ _ Hb).
    + by apply (adapter_step_ok (EvExit id) a).
    + unfold timer_exit in He. case_bool_decide; [done|]. injection He as <-. split; cbn; [done|]. by rewrite lookup_delete_eq.
Qed.

Lemma callbacks_bounded_witness :
  let a1 := (timeout_once adapter_make).2 in
  match timer_tick 1 a1 with Some b => (times 1 (fired b) <= 1)%nat | None => False end.
Proof.
  cbv zeta. destruct (timer_tick 1 (timeout_once adapter_make).2) as [b|] eqn:E; [|by vm_compute in E].
  assert (Hb : moves (timeout_once adapter_make).2 b).
  { apply (moves_more _ _ (EvTick 1) _ (moves_none _)); [done|exact E]. }
  exact (proj2 (proj2 (proj1 (callbacks_bounded adapter_make b (moves_none _) ltac:(done)) 1 _ eq_refl Hb))).
Defined.

(** *** The registry *)

(** A name keeps its first service until it is withdrawn. *)
Lemma registry_lookup name name' h r :
  find_service name (register_service name' h r).2 =
    (if decide (name = name') then (if has_service name r then find_service name r else h) else find_service name r) /\
  find_service name (unregister_service name' r).2 = (if decide (name = name') then handle_empty else find_service name r) /\
  (register_service name' h r).1 = negb (has_service name' r) /\ (unregister_service name' r).1 = has_service name' r.
Proof.
  unfold find_service, register_service, unregister_service, has_service. destruct (r !! name') as [h'|] eqn:E; cbn;
    destruct (decide (name = name')) as [->|Hne]; rewrite ?E, ?lookup_insert_eq, ?lookup_delete_eq, ?lookup_insert_ne, ?lookup_delete_ne by done;
    split_and!; done.
Qed.

(** *** Where it falls short *)

(** The thread's current service has the number of its actor for a pointer: to ask
    whether it is valid reads through it. *)
Example current_service_undefined : handle_is_valid (internal_set (Some (NumberAsPointer 7)) handle_empty) = Undef.
Proof. reflexivity. Qed.

(** [cancel] of a handle leaves its timer running, a timer that has ended stays in
    the map, and [call] answers without asking. *)
Example handle_cancel_keeps_timer :
  id_cancel 1 = 0 /\ cancel_timer (id_cancel 1) (timer_repeat adapter_make).2 = (timer_repeat adapter_make).2.
Proof. split; reflexivity. Qed.

Example ended_timer_is_kept :
  match timer_tick 1 (timeout_once adapter_make).2 with
  | Some a => ticking a !! 1 = None /\ timer_actors a = {[ 1 ]}
  | None => False
  end.
Proof. vm_compute. done. Qed.

Example call_asks_nobody e : adapter_call (mkHandle (Some (ActorHolder (Some 1))) "echo" true) e = Ret (ResponseOk []).
Proof. reflexivity. Qed.

(** A second service of a name is spawned and not found under it. *)
Example second_service_not_found :
  let a := (spawn_service "echo" (spawn_service "echo" adapter_make).2).2 in
  find_service "echo" (registry a) = mkHandle (Some (ActorHolder (Some 1))) "echo" true.
Proof. vm_compute. done. Qed.
