(* ===== verification/Heap.v ===== *)
(** * Heap: blocks that C code allocates and frees

    A block is a number.  [malloc] gives a new one and freeing what is not
    allocated is undefined; arrays are written and freed element by element.  What
    is written by [malloc]s and freed by as many [free]s leaves the heap as it
    was. *)

From Stdlib Require Import Sorting.Permutation.
From S2P Require Import Prelude.

(** The blocks that are allocated, all below [fresh]. *)
Record heap := mkHeap { fresh : Z; live : gset Z }.

Definition malloc (h : heap) : Z * heap := (fresh h, mkHeap (fresh h + 1) ({[ fresh h ]} ∪ live h)).

(** Freeing what is not allocated is undefined. *)
Definition free (p : Z) (h : heap) : outcome heap :=
  if bool_decide (p ∈ live h) then Ret (mkHeap (fresh h) (live h ∖ {[ p ]})) else Undef.

(** [if (p) std::free(p)] *)
Definition free_some (p : option Z) (h : heap) : outcome heap :=
  match p with Some p => free p h | None => Ret h end.

Section Arrays.
Context {A B : Type} (write : A -> heap -> B * heap) (release : B -> heap -> outcome heap).

Fixpoint write_each (l : list A) (h : heap) : list B * heap :=
  match l with
  | [] => ([], h)
  | a :: l => let '(b, h) := write a h in let '(bs, h) := write_each l h in (b :: bs, h)
  end.

Fixpoint free_each (l : list B) (h : heap) : outcome heap :=
  match l with [] => Ret h | b :: l => let! h := release b h in free_each l h end.
End Arrays.

(** ** What was allocated *)

(** [l] was allocated between [h] and [h']. *)
Record allocated (l : list Z) (h h' : heap) : Prop := {
  al_below : fresh h <= fresh h';
  al_range : forall p, p ∈ l -> fresh h <= p < fresh h';
  al_once : NoDup l;
  al_live : live h' = list_to_set l ∪ live h
}.

Lemma allocated_nil h : allocated [] h h.
Proof. split; [lia|set_solver|constructor|set_solver]. Qed.

Lemma allocated_malloc h : allocated [fresh h] h (malloc h).2.
Proof.
  split; cbn; [lia| |apply list.NoDup_singleton|set_solver]. intros p ->%list_elem_of_singleton. lia.
Qed.

(** What is allocated one after the other, in whatever order it is listed. *)
Lemma allocated_app l k m h h1 h2 : allocated l h h1 -> allocated k h1 h2 -> m ≡ₚ l ++ k -> allocated m h h2.
Proof.
  intros [L1 L2 L3 L4] [K1 K2 K3 K4] P. split; [lia| | |].
  - intros p. rewrite P. intros [Hp%L2|Hp%K2]%elem_of_app; lia.
  - rewrite P. apply list.NoDup_app. split_and!; [done| |done]. intros p Hl%L2 Hk%K2. lia.
  - rewrite K4, L4. set_unfold. intros p. rewrite P, elem_of_app. tauto.
Qed.

(** Freeing a list of blocks. *)
Definition free_all (l : list Z) (h : heap) : outcome heap := free_each free l h.

Lemma free_each_app {B} (release : B -> heap -> outcome heap) l k h :
  free_each release (l ++ k) h = obind (free_each release l h) (free_each release k).
Proof. revert h. induction l as [|b l IH]; intros h; [done|]. cbn. destruct (release b h); [apply IH|done..]. Qed.

Lemma free_each_blocks {B} (release : B -> heap -> outcome heap) (blocks : B -> list Z) l h :
  (forall b h, release b h = free_all (blocks b) h) ->
  free_each release l h = free_all (concat (map blocks l)) h.
Proof.
  intros Hr. revert h. induction l as [|b l IH]; intros h; [done|]. cbn [free_each map concat].
  unfold free_all. rewrite free_each_app, Hr. unfold free_all. destruct (free_each free (blocks b) h); [apply IH|done..].
Qed.

Lemma free_all_live l h : NoDup l -> (forall p, p ∈ l -> p ∈ live h) ->
  free_all l h = Ret (mkHeap (fresh h) (live h ∖ list_to_set l)).
Proof.
  revert h. induction l as [|p l IH]; intros h Hd Hl.
  - cbn. destruct h as [f lv]. cbn. do 2 f_equal. set_solver.
  - apply list.NoDup_cons in Hd as [Hp Hd]. cbn. unfold free. rewrite bool_decide_true by (apply Hl; left). cbn.
    change (free_each free l) with (free_all l). rewrite IH; [cbn; do 2 f_equal; set_solver|done|].
    intros q Hq. cbn. assert (q <> p) by congruence. assert (q ∈ live h) by (apply Hl; by right). set_solver.
Qed.

Lemma free_some_blocks p h : free_some p h = free_all (omap id [p]) h.
Proof. destruct p as [p|]; [|done]. cbn. by destruct (free p h). Qed.

Lemma free_all_app l k h : free_all (l ++ k) h = obind (free_all l h) (free_all k).
Proof. apply free_each_app. Qed.

Lemma free_array {B} (release : B -> heap -> outcome heap) (blocks : B -> list Z) l array h :
  (forall b h, release b h = free_all (blocks b) h) ->
  (let! h := free_each release l h in free array h) = free_all (concat (map blocks l) ++ [array]) h.
Proof.
  intros Hr. rewrite (free_each_blocks _ blocks) by done. rewrite free_all_app.
  destruct (free_all _ h) as [h1| |]; cbn [obind]; [|done..]. cbn. by destruct (free array h1).
Qed.

(** Writing an array of things that are allocated each. *)
Lemma write_each_allocated {A B} (write : A -> heap -> B * heap) (blocks : B -> list Z) l :
  (forall a h, allocated (blocks (write a h).1) h (write a h).2) ->
  forall h, allocated (concat (map blocks (write_each write l h).1)) h (write_each write l h).2.
Proof.
  intros Hw. induction l as [|a l IH]; intros h; cbn [write_each]; [apply allocated_nil|].
  specialize (Hw a h). destruct (write a h) as [b h1]. specialize (IH h1).
  destruct (write_each write l h1) as [bs h2]. cbn. by eapply allocated_app.
Qed.

(** ** Owners

    A list of owners, each of which holds something or nothing: when one of them
    changes, only what it holds changes. *)
Lemma delete_insert_same {A} (l : list A) i y : delete i (<[i := y]> l) = delete i l.
Proof. revert i. induction l as [|x l IH]; intros [|i]; cbn; [done..|]. f_equal. apply IH. Qed.

Lemma omap_change {A B} (f : A -> option B) (l : list A) i x y :
  l !! i = Some x -> omap f [x] ++ omap f (<[i := y]> l) ≡ₚ omap f [y] ++ omap f l.
Proof.
  assert (Hd : forall (l : list A) i x, l !! i = Some x -> omap f l ≡ₚ omap f [x] ++ omap f (delete i l)).
  { intros k j z Hj. rewrite <- omap_app. apply omap_Permutation. by apply delete_Permutation. }
  intros Hi. assert (Hl : (i < length l)%nat) by by eapply lookup_lt_Some.
  rewrite (Hd (<[i := y]> l) i y), (Hd l i x) by (done || by apply list_lookup_insert_eq).
  rewrite delete_insert_same. apply Permutation_app_swap_app.
Qed.
