(* ===== verification/MatchPlugin.v ===== *)
(** * MatchPlugin: configuration and memory of the matchmaking plugin (plugins/matchmaking_elo)

    How an instance reads its configuration from the text of the host, and the
    result of [try_match] as it lies in memory: what is allocated for it, and what
    [free_result] gives back ([Heap]); matching is in [Matchmaking]. *)

From Stdlib Require Import Floats.SpecFloat Sorting.Permutation.
From S2P Require Import Prelude Text Schema Config Numbers RuntimeConfig MiniJson Matchmaking Heap.

(** ** Configuration *)

Definition default_config : MatchConfig := mkMatchConfig 2 30 (double_of_Z 200).

(** The lambdas [find_int] and [find_double]. *)
Definition find_int (s key : string) (def : Z) : Z :=
  match member s key with None => def | Some r => default def (stoi r) end.
Definition find_double (s key : string) (def : spec_float) : spec_float :=
  match member s key with None => def | Some r => match stod r with Some (f, _) => f | None => def end end.

Definition parse_config (config_json : option string) : MatchConfig :=
  match config_json with
  | None | Some EmptyString => default_config
  | Some s =>
      mkMatchConfig (find_int s "max_players_per_match" (max_players_per_match default_config))
        (find_int s "match_timeout_seconds" (match_timeout_seconds default_config))
        (find_double s "rating_tolerance" (rating_tolerance default_config))
  end.

(** A new instance. *)
Definition mm_create (config_json : option string) : Matchmaking := mkMatchmaking (parse_config config_json) ∅ 1.

(** ** Results in memory *)

(** The pointers of [shield_matchmaking_player], of [shield_matchmaking_match] and
    of [shield_matchmaking_result]; an array is its block and its elements. *)
Record c_player := mkCPlayer { c_player_id : option Z; c_party_id : option Z; c_region : option Z; c_metadata : option Z }.
Record c_match := mkCMatch { c_match_id : option Z; c_players : option (Z * list c_player); c_server : option Z }.
Record c_result := mkCResult { c_matches : option (Z * list c_match); c_match_count : Z }.

Definition write_player (p : PlayerEntry) (h : heap) : c_player * heap :=
  let '(id, h) := malloc h in
  let '(party, h) := malloc h in
  let '(reg, h) := malloc h in
  (mkCPlayer (Some id) (Some party) (Some reg) None, h).

Definition write_match (m : Match) (h : heap) : c_match * heap :=
  let '(id, h) := malloc h in
  let '(array, h) := malloc h in
  let '(ps, h) := write_each write_player (players m) h in
  (mkCMatch (Some id) (Some (array, ps)) None, h).

(** What [try_match] leaves in its result. *)
Definition write_result (l : list Match) (h : heap) : c_result * heap :=
  match l with
  | [] => (mkCResult None 0, h)
  | _ => let '(array, h) := malloc h in
         let '(ms, h) := write_each write_match l h in
         (mkCResult (Some (array, ms)) (vsize l), h)
  end.

Definition free_player (p : c_player) (h : heap) : outcome heap :=
  let! h := free_some (c_player_id p) h in
  let! h := free_some (c_party_id p) h in
  let! h := free_some (c_region p) h in
  free_some (c_metadata p) h.

Definition free_match (m : c_match) (h : heap) : outcome heap :=
  let! h := free_some (c_match_id m) h in
  let! h := free_some (c_server m) h in
  match c_players m with
  | None => Ret h
  | Some (array, ps) => let! h := free_each free_player ps h in free array h
  end.

Definition free_result (r : c_result) (h : heap) : outcome (c_result * heap) :=
  match c_matches r with
  | None => Ret (r, h)
  | Some (array, ms) =>
      let! h := free_each free_match ms h in
      let! h := free array h in
      Ret (mkCResult None 0, h)
  end.

(** ** Properties *)

Definition player_blocks (p : c_player) : list Z :=
  omap id [c_player_id p; c_party_id p; c_region p; c_metadata p].
Definition match_blocks (m : c_match) : list Z :=
  omap id [c_match_id m; c_server m] ++
  match c_players m with None => [] | Some (array, ps) => concat (map player_blocks ps) ++ [array] end.
Definition result_blocks (r : c_result) : list Z :=
  match c_matches r with None => [] | Some (array, ms) => concat (map match_blocks ms) ++ [array] end.

Lemma free_player_blocks p h : free_player p h = free_all (player_blocks p) h.
Proof.
  destruct p as [a b c d]. unfold free_player, player_blocks. cbn [c_player_id c_party_id c_region c_metadata].
  change [a; b; c; d] with ([a] ++ [b] ++ [c] ++ [d]). rewrite !omap_app, !free_all_app, free_some_blocks.
  destruct (free_all (omap id [a]) h) as [h1| |]; cbn [obind]; [|done..]. rewrite free_all_app, free_some_blocks.
  destruct (free_all (omap id [b]) h1) as [h2| |]; cbn [obind]; [|done..]. rewrite free_all_app, free_some_blocks.
  destruct (free_all (omap id [c]) h2) as [h3| |]; cbn [obind]; [|done..]. apply free_some_blocks.
Qed.

Lemma free_match_blocks m h : free_match m h = free_all (match_blocks m) h.
Proof.
  destruct m as [i ps s]. unfold free_match, match_blocks. cbn [c_match_id c_players c_server].
  change [i; s] with ([i] ++ [s]). rewrite omap_app, !free_all_app, free_some_blocks.
  destruct (free_all (omap id [i]) h) as [h1| |]; cbn [obind]; [|done..]. rewrite free_some_blocks.
  destruct (free_all (omap id [s]) h1) as [h2| |]; cbn [obind]; [|done..].
  destruct ps as [[array ps]|]; [|done]. by rewrite (free_array _ player_blocks) by apply free_player_blocks.
Qed.

Lemma free_result_blocks r h :
  free_result r h = (let! h := free_all (result_blocks r) h in Ret (match c_matches r with Some _ => mkCResult None 0 | None => r end, h)).
Proof.
  destruct r as [[[array ms]|] n]; [|done]. unfold free_result, result_blocks. cbn [c_matches].
  rewrite <- (free_array free_match match_blocks ms array h) by apply free_match_blocks.
  by destruct (free_each free_match ms h).
Qed.

Lemma write_player_allocated p h : allocated (player_blocks (write_player p h).1) h (write_player p h).2.
Proof.
  pose proof (allocated_malloc h) as H1. pose proof (allocated_malloc (malloc h).2) as H2.
  pose proof (allocated_malloc (malloc (malloc h).2).2) as H3.
  exact (allocated_app _ _ _ _ _ _ H1 (allocated_app _ _ _ _ _ _ H2 H3 (reflexivity _)) (reflexivity _)).
Qed.

Lemma write_match_allocated m h : allocated (match_blocks (write_match m h).1) h (write_match m h).2.
Proof.
  pose proof (allocated_malloc h) as H1. pose proof (allocated_malloc (malloc h).2) as H2.
  pose proof (write_each_allocated write_player player_blocks (players m) write_player_allocated (malloc (malloc h).2).2) as H3.
  unfold write_match. cbn [malloc fst snd] in *. destruct (write_each write_player (players m) _) as [ps h3]. cbn [fst snd] in *.
  refine (allocated_app _ _ _ _ _ _ H1 (allocated_app _ _ _ _ _ _ H2 H3 (reflexivity _)) _).
  cbn. by rewrite Permutation_app_comm.
Qed.

(** [free_result] gives back what [try_match] allocated: for any matches the
    blocks of their result are new, [free_result] frees each of them exactly once
    and nothing else, so that the heap is as before, and a second call of it does
    nothing. *)
Theorem result_memory_returned l h r h1 :
  (forall p, p ∈ live h -> p < fresh h) -> write_result l h = (r, h1) ->
  c_match_count r = vsize l /\ NoDup (result_blocks r) /\ (forall p, p ∈ result_blocks r -> p ∉ live h /\ p ∈ live h1) /\
  free_result r h1 = Ret (mkCResult None 0, mkHeap (fresh h1) (live h)) /\
  free_result (mkCResult None 0) h = Ret (mkCResult None 0, h).
Proof.
  intros Hf Ew. assert (Ha : allocated (result_blocks (write_result l h).1) h (write_result l h).2).
  { destruct l as [|m l]; [apply allocated_nil|]. pose proof (allocated_malloc h) as H1.
    pose proof (write_each_allocated write_match match_blocks (m :: l) write_match_allocated (malloc h).2) as H2.
    cbn [write_result malloc fst snd] in *. destruct (write_each write_match (m :: l) _) as [ms h2]. cbn [fst snd] in *.
    refine (allocated_app _ _ _ _ _ _ H1 H2 _). cbn. by rewrite Permutation_app_comm. }
  assert (Hc : c_match_count (write_result l h).1 = vsize l).
  { destruct l; [done|]. cbn [write_result malloc]. by destruct (write_each _ _ _). }
  assert (Hn : match c_matches (write_result l h).1 with Some _ => mkCResult None 0 | None => (write_result l h).1 end = mkCResult None 0).
  { destruct l; [done|]. cbn [write_result malloc]. by destruct (write_each _ _ _). }
  rewrite Ew in *. cbn [fst snd] in *. destruct Ha as [H1 H2 H3 H4].
  split_and!; [done|done| | |done].
  - intros p Hp. split; [intros Hl%Hf; apply H2 in Hp; lia|]. rewrite H4. set_solver.
  - rewrite free_result_blocks, free_all_live by (try done; rewrite H4; set_solver). cbn [obind]. rewrite Hn, H4.
    do 3 f_equal. apply set_eq. intros p. set_unfold. split; [|intros Hl; split; [by right|]].
    + intros [[?|?] ?]; done.
    + intros Hp. apply H2 in Hp. apply Hf in Hl. lia.
Qed.

Definition two_matches : list Match :=
  let p := mkPlayer "a" (double_of_Z 1500) "" "eu" in [mkMatch "match_1" [p; p]; mkMatch "match_2" [p; p]].

Lemma result_memory_returned_witness :
  free_result (write_result two_matches (mkHeap 8 {[ 3 ]})).1 (write_result two_matches (mkHeap 8 {[ 3 ]})).2
  = Ret (mkCResult None 0, mkHeap (fresh (write_result two_matches (mkHeap 8 {[ 3 ]})).2) {[ 3 ]}).
Proof.
  destruct (write_result two_matches (mkHeap 8 {[ 3 ]})) as [r h1] eqn:E. cbn [fst snd].
  refine (proj1 (proj2 (proj2 (proj2 (result_memory_returned two_matches (mkHeap 8 {[ 3 ]}) r h1 _ E))))).
  cbn. intros p ->%elem_of_singleton. lia.
Defined.

(** *** Configuration texts *)

Definition quoted_member (key value : string) : string := in_quotes key +:+ ":" +:+ value.

Example config_read :
  parse_config (Some ("{" +:+ quoted_member "match_timeout_seconds" "45" +:+ "," +:+ quoted_member "max_players_per_match" " 4" +:+
                      "," +:+ quoted_member "rating_tolerance" "12.5}"))
  = mkMatchConfig 4 45 (SFdiv 53 1024 (double_of_Z 25) (double_of_Z 2)) /\
  parse_config None = default_config /\ parse_config (Some "{}") = default_config.
Proof. vm_compute. repeat split. Qed.

(** The key is found inside another value as well. *)
Example key_in_a_value :
  max_players_per_match (parse_config (Some ("{" +:+ quoted_member "extra" (in_quotes "max_players_per_match") +:+ "," +:+
    quoted_member "zone" "7" +:+ "," +:+ quoted_member "max_players_per_match" "4" +:+ "}"))) = 7.
Proof. reflexivity. Qed.

(** The smallest size is left to the schema of the manifest: without it a player
    alone is a match, and with zero nobody is ever matched. *)
Definition with_size (n : string) : Matchmaking :=
  (enqueue (Some (demo_player "a" 1500)) (mm_create (Some ("{" +:+ quoted_member "max_players_per_match" n +:+ "}")))).1.

Example sizes_left_to_schema :
  map (fun m => map player_id (players m)) (try_match insertion_sort (with_size "1")).1 = [["a"]] /\
  (try_match insertion_sort (with_size "0")).1 = [] /\ (try_match insertion_sort (with_size "-3")).1 = [].
Proof. vm_compute. repeat split. Qed.
