(* ===== verification/ConsoleClient.v ===== *)
(** * ConsoleClient: the client of the console (src/tools/shield-console)

    The command line, the responses it understands and the loop of the program,
    joined with the session of the server that it talks to. *)

From S2P Require Import Prelude Text Json Config PluginHost Cluster ServiceState Services ServiceDemo Bootstrap.
From S2P Require Import ConsoleServer Console.

(** ** The command line *)

Inductive command_line := ConnectTo (sock_path : string) | Usage (unknown : option string).

Definition default_sock : string := "/tmp/shield-console.sock".

(** The arguments behind the program's name. *)
Fixpoint parse_args (args : list string) (sock_path : string) : command_line :=
  match args with
  | [] => ConnectTo sock_path
  | arg :: rest =>
      let other := if str_in arg ["--help"; "-h"] then Usage None else Usage (Some arg) in
      if String.eqb arg "--sock" then
        match rest with path :: rest => parse_args rest path | [] => other end
      else other
  end.

Definition exit_code (c : command_line) (connected : bool) : Z :=
  match c with
  | ConnectTo _ => if connected then 0 else 1
  | Usage None => 0
  | Usage (Some _) => 1
  end.

(** ** Responses *)

(** [incoming]: the lines that have arrived, without their ends; [is_open]: more
    may come. *)
Record ConsoleClient := mkClient {
  attached : bool;
  cl_service : string;
  incoming : list string;
  is_open : bool;
  out : list string;
  err : list string
}.

Definition set_attached (a : bool) (service : string) (c : ConsoleClient) : ConsoleClient :=
  mkClient a service (incoming c) (is_open c) (out c) (err c).
Definition set_incoming (l : list string) (c : ConsoleClient) : ConsoleClient :=
  mkClient (attached c) (cl_service c) l (is_open c) (out c) (err c).
Definition print (line : string) (c : ConsoleClient) : ConsoleClient :=
  mkClient (attached c) (cl_service c) (incoming c) (is_open c) (out c ++ [line]) (err c).
Definition print_error (line : string) (c : ConsoleClient) : ConsoleClient :=
  mkClient (attached c) (cl_service c) (incoming c) (is_open c) (out c) (err c ++ [line]).

Definition get_prompt (c : ConsoleClient) : string :=
  if attached c then "lua:" +:+ cl_service c +:+ "> " else "shield> ".

(** The library: [dump(2)], and what is relied on of [dump]: control characters
    are escaped, and parsing gives the texts and lists of texts back. *)
Definition visible (c : Ascii.ascii) : bool := 32 <=? Z.of_N (Ascii.N_of_ascii c).

Definition texts (j : json) : bool :=
  match j with JStr _ => true | JArr l => forallb is_string l | _ => false end.

Definition same_texts (a b : option json) : Prop :=
  match a, b with
  | None, None => True
  | Some v, Some v' => texts v = true -> v' = v
  | _, _ => False
  end.

Class ConsoleJson `{JsonLib} := {
  dump2 : json -> exn + string;
  dump_line : forall j t, json_dump j = inr t -> t <> "" /\ str_all visible t = true;
  dump_parse : forall l t, json_dump (JObj l) = inr t ->
    exists l', json_parse (bytes_of t) = inr (JObj l') /\ forall k, same_texts (obj_find k l) (obj_find k l');
  dump2_parsed : forall t j k v, json_parse t = inr j -> get k j = Some v -> exists u, dump2 v = inr u
}.

Section Client.
Context `{ConsoleJson}.

(** The elements of [resp["lines"]]; elements that are no texts throw. *)
Fixpoint print_lines (l : list json) (c : ConsoleClient) : outcome ConsoleClient :=
  match l with
  | [] => Ret c
  | j :: l => let! t := Json.get_string j in print_lines l (print t c)
  end.

(** Iterating over a JSON value visits its elements, or the value itself. *)
Definition elements (j : json) : list json :=
  match j with JNull => [] | JArr l => l | JObj l => map snd l | _ => [j] end.

Definition print_member_lines (resp : json) (c : ConsoleClient) : outcome ConsoleClient :=
  match get "lines" resp with Some l => print_lines (elements l) c | None => Ret c end.

Definition print_data (resp : json) (c : ConsoleClient) : outcome ConsoleClient :=
  match get "data" resp with
  | None | Some JNull => Ret c
  | Some (JStr t) => Ret (print t c)
  | Some d => if is_array d && contains "lines" resp then print_member_lines resp c
              else let! t := of_sum (dump2 d) in Ret (print t c)
  end.

(** One response: [None] when more may follow, whether the answer is complete. *)
Definition handle_response (text : string) (c : ConsoleClient) : outcome (bool * ConsoleClient) :=
  match json_parse (bytes_of text) with
  | inl _ => Ret (false, print text c)
  | inr resp =>
      let! type := value Json.get_string "type" "" resp in
      if String.eqb type "attached" then
        let! service := value Json.get_string "service" "" resp in Ret (true, set_attached true service c)
      else if String.eqb type "detached" then Ret (true, set_attached false "" c)
      else if String.eqb type "continue" then Ret (true, c)
      else if String.eqb type "result" then
        let! c := print_data resp c in
        let! c := print_member_lines resp c in Ret (true, c)
      else if String.eqb type "output" then
        match get "text" resp with
        | Some t => let! t := Json.get_string t in Ret (false, print t c)
        | None => Ret (false, c)
        end
      else if String.eqb type "error" then
        let! m := value Json.get_string "message" "unknown" resp in Ret (true, print_error ("Error: " +:+ m) c)
      else Ret (true, print text c)
  end.

(** The loop of [send_and_receive]; an empty line counts as the end of the
    connection, and without one more line the client waits. *)
Inductive progress := Answered | ConnectionLost | Waiting.

Fixpoint receive (lines : list string) (c : ConsoleClient) : outcome (progress * ConsoleClient) :=
  match lines with
  | [] => let c := set_incoming [] c in
          Ret (if is_open c then (Waiting, c) else (ConnectionLost, print_error "Connection lost." c))
  | text :: rest =>
      let c := set_incoming rest c in
      if str_empty text then Ret (ConnectionLost, print_error "Connection lost." c)
      else let! r := handle_response text c in
           if (r.1 : bool) then Ret (Answered, r.2) else receive rest r.2
  end.
End Client.

(** ** The loop of the program, with the server at the other end *)

Record dialogue := mkDialogue {
  client : ConsoleClient;
  session : ConsoleSession;
  backend : Backend;
  turns : list (string * list string)
}.

(** What the server writes between two states of its session. *)
Fixpoint wire (lines : list string) : string :=
  match lines with [] => "" | l :: lines => framed l +:+ wire lines end.

Definition local_exit (line : string) (c : ConsoleClient) : bool :=
  negb (attached c) && str_in line ["exit"; "quit"; "q"].

Section Dialogue.
Context `{ConsoleJson} `{LuaWorld} `{Machine} (syntax_error : string -> option string) (eval_vm : LuaVM).

(** The server reads a line and answers on the same connection. *)
Definition send_and_receive (line : string) (d : dialogue) : outcome (progress * dialogue) :=
  let! r := converse syntax_error eval_vm (read_lines (framed line) "").1 (session d) (backend d) in
  let answer := (read_lines (wire (drop (length (sent (session d))) (sent r.1))) "").1 in
  let arrived := incoming (client d) ++ answer in
  let! p := receive arrived (client d) in
  let taken := take (length arrived - length (incoming p.2)) arrived in
  Ret (p.1, mkDialogue p.2 r.1 r.2 (turns d ++ [(line, taken)])).

(** The lines typed, up to the end of the input. *)
Fixpoint repl (inputs : list string) (d : dialogue) : outcome (progress * dialogue) :=
  match inputs with
  | [] => Ret (Answered, d)
  | line :: inputs =>
      if str_empty line then repl inputs d
      else if local_exit line (client d) then Ret (Answered, d)
      else let! r := send_and_receive line d in
           match r.1 with Answered => repl inputs r.2 | p => Ret (p, r.2) end
  end.

Definition dialogue_start (b : Backend) : dialogue :=
  mkDialogue (mkClient false "" [] true [] []) console_make b [].

(** ** Lines on the wire *)

(** Without the characters that end a line. *)
Definition plain_char (c : Ascii.ascii) : bool := negb (Ascii.eqb c "010") && negb (Ascii.eqb c "013").
Definition plain_line (s : string) : bool := str_all plain_char s.

Lemma visible_plain s : str_all visible s = true -> plain_line s = true.
Proof.
  unfold plain_line. induction s as [|c s IH]; [done|]. cbn [str_all]. intros [Hc Hs]%andb_true_iff. rewrite IH, andb_true_r by done.
  clear -Hc. by destruct c as [[] [] [] [] [] [] [] []].
Qed.

Lemma substring_all f n m s : str_all f s = true -> str_all f (String.substring n m s) = true.
Proof.
  revert n m. induction s as [|c s IH]; intros [|n] [|m]; try done; cbn [str_all String.substring].
  - intros [-> Hs]%andb_true_iff. by apply IH.
  - intros [_ Hs]%andb_true_iff. by apply IH.
  - intros [_ Hs]%andb_true_iff. by apply IH.
Qed.

Lemma strip_plain s : plain_line s = true -> strip_cr s = s.
Proof.
  intros Hs. unfold strip_cr. destruct (String.eqb_spec (String.substring (String.length s - 1) 1 s) (String "013" "")) as [E|_];
    [|by rewrite andb_false_r].
  apply (substring_all _ (String.length s - 1) 1) in Hs. by rewrite E in Hs.
Qed.

Lemma read_lines_plain s acc rest : plain_line s = true ->
  read_lines (s +:+ String "010" rest) acc =
  (let '(l, r) := read_lines rest "" in (strip_cr (acc +:+ s) :: l, r)).
Proof.
  revert acc. induction s as [|c s IH]; intros acc Hs.
  - rewrite app_empty_r. cbn. done.
  - change (String c s +:+ String "010" rest) with (String c (s +:+ String "010" rest)). cbn [read_lines].
    unfold plain_line in Hs. cbn [str_all] in Hs. apply andb_true_iff in Hs as [Hc Hs]. apply andb_true_iff in Hc as [Hc _].
    apply negb_true_iff in Hc. rewrite Hc, IH by done. destruct (read_lines rest "") as [l r].
    by rewrite <- app_assoc_str.
Qed.

Lemma read_wire l : Forall (fun s => plain_line s = true) l -> read_lines (wire l) "" = (l, "").
Proof.
  induction 1 as [|s l Hs _ IH]; [done|]. cbn [wire]. unfold framed. rewrite <- app_assoc_str.
  change (String "010" "" +:+ wire l) with (String "010" (wire l)).
  rewrite read_lines_plain, IH by done. change ("" +:+ s) with s. by rewrite strip_plain.
Qed.

Lemma read_framed s : plain_line s = true -> read_lines (framed s) "" = ([s], "").
Proof. intros Hs. rewrite <- (read_wire [s]) by by constructor. cbn [wire]. by rewrite app_empty_r. Qed.

(** ** What the server says *)

(** The responses of a session that is attached to no service. *)
Definition simple_reply (members : list (string * json)) : Prop :=
  (exists d, members = result d) \/ (exists m, members = error_ m) \/
  exists l, members = [("lines", strings l); ("type", JStr "result")].

Definition replies (s : ConsoleSession) (h : handled) : Prop :=
  forall s' b', h = Ret (s', b') ->
  exists members text, simple_reply members /\ json_dump (JObj members) = inr text /\
    sent s' = sent s ++ [text] /\ attached_service s' = attached_service s.

Lemma respond_replies members s b : simple_reply members -> replies s (respond members s b).
Proof. intros Hm s' b' (text & Ht & E)%obind_ret_inv. injection E as <- <-. exists members, text.
  by destruct (json_dump _); [|injection Ht as <-]. Qed.

Lemma guarded_replies {A} (m : outcome A) k s : (forall a, replies s (k a)) -> replies s (obind m k).
Proof. intros Hk s' b' (a & _ & E)%obind_ret_inv. by eapply Hk. Qed.

Lemma result_simple d : simple_reply (result d).
Proof. left. by exists d. Qed.
Lemma error_simple m : simple_reply (error_ m).
Proof. right. left. by exists m. Qed.
Lemma lines_simple l : simple_reply [("lines", strings l); ("type", JStr "result")].
Proof. right. right. by exists l. Qed.

Ltac one_reply :=
  repeat match goal with
  | |- replies _ (match ask _ _ with _ => _ end) => rewrite ask_none
  | |- replies _ (respond _ _ _) => apply respond_replies; first [apply result_simple | apply error_simple | apply lines_simple]
  | |- replies _ (obind _ _) => apply guarded_replies; intros ?
  | |- replies _ (match ?x with _ => _ end) => destruct x
  end; try done.

Lemma run_command_replies cmd args s b : replies s (run_command eval_vm cmd args s b).
Proof.
  unfold run_command.
  repeat match goal with |- replies _ (if String.eqb cmd ?c then _ else _) => destruct (String.eqb cmd c) end;
    unfold cmd_help, cmd_status, cmd_services, cmd_service, cmd_plugins, cmd_plugin, cmd_config, cmd_cluster,
      cmd_log_level, cmd_attach, cmd_eval, ask_services; one_reply.
Qed.

Lemma dispatch_replies line s b :
  attached_service s = "" -> spoken line = true -> replies s (dispatch syntax_error eval_vm line s b).
Proof.
  intros Ha Hs. unfold dispatch. unfold spoken in Hs. apply negb_true_iff in Hs. rewrite Hs. unfold is_attached. rewrite Ha.
  cbn [str_empty negb]. destruct (words _ _); apply run_command_replies.
Qed.

Lemma dispatch_blank line s b : spoken line = false -> dispatch syntax_error eval_vm line s b = Ret (s, b).
Proof. unfold spoken, dispatch. by intros ->%negb_false_iff. Qed.

(** ** What the client makes of it *)

Lemma same_text_find l l' k s :
  (forall k, same_texts (obj_find k l) (obj_find k l')) -> obj_find k l = Some (JStr s) -> obj_find k l' = Some (JStr s).
Proof. intros Hs E. specialize (Hs k). rewrite E in Hs. cbn in Hs. destruct (obj_find k l') as [v|]; [|done]. by rewrite Hs. Qed.

Lemma same_none_find l l' k :
  (forall k, same_texts (obj_find k l) (obj_find k l')) -> obj_find k l = None -> obj_find k l' = None.
Proof. intros Hs E. specialize (Hs k). rewrite E in Hs. by destruct (obj_find k l'). Qed.

(** Printing leaves the connection as it is. *)
Definition only_prints (c : ConsoleClient) (h : outcome (bool * ConsoleClient)) : Prop :=
  exists c', h = Ret (true, c') /\ attached c' = attached c /\ cl_service c' = cl_service c /\
    incoming c' = incoming c /\ is_open c' = is_open c.

Lemma print_lines_strings l c : exists c', print_lines (map JStr l) c = Ret c' /\ attached c' = attached c /\
  cl_service c' = cl_service c /\ incoming c' = incoming c /\ is_open c' = is_open c.
Proof.
  revert c. induction l as [|s l IH]; intros c; [by exists c|]. cbn [map print_lines Json.get_string obind].
  destruct (IH (print s c)) as (c' & -> & A & B & C & D). by exists c'.
Qed.

Lemma handles_simple members text c :
  simple_reply members -> json_dump (JObj members) = inr text -> only_prints c (handle_response text c).
Proof.
  intros Hm Hd. apply dump_parse in Hd as (l' & Hp & Hs). unfold handle_response. rewrite Hp.
  assert (Ht : forall t, obj_find "type" members = Some (JStr t) -> value Json.get_string "type" "" (JObj l') = Ret t).
  { intros t E. cbn. by rewrite (same_text_find _ _ _ _ Hs E). }
  destruct Hm as [[d ->]|[[m ->]|[l ->]]]; erewrite Ht by reflexivity; cbn [obind String.eqb Ascii.eqb Bool.eqb].
  - unfold print_data, print_member_lines. cbn [get].
    assert (El : obj_find "lines" l' = None) by by apply (same_none_find _ _ _ Hs).
    pose proof (Hs "data") as Hdata. cbn in Hdata. destruct (obj_find "data" l') as [v|] eqn:Ev; [|done].
    assert (Hpp : exists u, dump2 v = inr u) by by apply (dump2_parsed (bytes_of text) (JObj l') "data").
    destruct Hpp as [u Hu].
    assert (Hc : contains "lines" (JObj l') = false) by (unfold contains; cbn [get]; by rewrite El).
    rewrite Hc, El. destruct v; cbn [obind of_sum is_array andb]; rewrite ?Hu; cbn [obind of_sum]; by eexists.
  - cbn [value]. rewrite (same_text_find _ _ "message" m Hs) by done. cbn [Json.get_string obind]. by eexists.
  - unfold print_data, print_member_lines. cbn [get].
    rewrite (same_none_find _ _ "data" Hs) by done. cbn [obind]. pose proof (Hs "lines") as Hl. cbn in Hl.
    destruct (obj_find "lines" l') as [v|]; [|done].
    rewrite Hl by (unfold strings; cbn; apply forallb_forall; by intros j (x & <- & _)%in_map_iff).
    destruct (print_lines_strings l c) as (c' & E & Hc). cbn [strings elements]. rewrite E. cbn [obind]. by exists c'.
Qed.

Lemma receive_simple members text c :
  simple_reply members -> json_dump (JObj members) = inr text ->
  exists c', receive [text] c = Ret (Answered, c') /\ attached c' = attached c /\ incoming c' = [] /\ is_open c' = is_open c.
Proof.
  intros Hm Hd. destruct (dump_line _ _ Hd) as [Hne _]. cbn [receive]. destruct text as [|a text]; [done|]. cbn [str_empty].
  destruct (handles_simple _ _ (set_incoming [] c) Hm Hd) as (c' & -> & A & B & C & D). cbn [obind fst snd]. by exists c'.
Qed.

(** A line that the server answers, and one that it does not. *)
Lemma drop_sent (l : list string) x : drop (length l) (l ++ [x]) = [x].
Proof. by rewrite drop_app_length. Qed.

Definition in_step (d : dialogue) : Prop :=
  attached (client d) = false /\ incoming (client d) = [] /\ is_open (client d) = true /\ attached_service (session d) = "".

Lemma spoken_line line d s' b' :
  in_step d -> plain_line line = true -> spoken line = true ->
  dispatch syntax_error eval_vm line (session d) (backend d) = Ret (s', b') ->
  exists text d', send_and_receive line d = Ret (Answered, d') /\ in_step d' /\ session d' = s' /\ backend d' = b' /\
    sent s' = sent (session d) ++ [text] /\ turns d' = turns d ++ [(line, [text])].
Proof.
  intros (Ha & Hi & Ho & Hs) Hp Hl E. unfold send_and_receive. rewrite read_framed by done. cbn [fst converse]. rewrite E.
  destruct (dispatch_replies line _ _ Hs Hl _ _ E) as (members & text & Hm & Ht & Hsent & Hatt). cbn [obind fst snd].
  rewrite Hsent, drop_sent, read_wire by (constructor; [|constructor]; by apply visible_plain, (dump_line _ _ Ht)).
  rewrite Hi. cbn [app fst]. destruct (receive_simple _ _ (client d) Hm Ht) as (c' & -> & A & B & C). cbn [obind fst snd].
  exists text. eexists. split; [done|]. cbn [client session backend turns]. rewrite B. cbn.
  split; [|by split_and!].
  unfold in_step. cbn [client session]. split_and!; congruence.
Qed.

Lemma blank_line line d :
  in_step d -> plain_line line = true -> spoken line = false ->
  exists d', send_and_receive line d = Ret (Waiting, d') /\ session d' = session d /\ backend d' = backend d /\
    turns d' = turns d ++ [(line, [])].
Proof.
  intros (Ha & Hi & Ho & Hs) Hp Hl. unfold send_and_receive. rewrite read_framed by done. cbn [fst converse].
  rewrite dispatch_blank by done. cbn [obind fst snd]. rewrite drop_all. cbn [wire read_lines fst]. rewrite Hi. cbn [app receive].
  cbn [is_open set_incoming]. rewrite Ho. cbn [obind]. eexists. by split.
Qed.

(** ** Properties *)

(** The lines that are sent: the empty ones are not, and a word of leaving ends
    the input. *)
Fixpoint typed (inputs : list string) : list string :=
  match inputs with
  | [] => []
  | line :: inputs =>
      if str_empty line then typed inputs
      else if str_in line ["exit"; "quit"; "q"] then [] else line :: typed inputs
  end.

Lemma repl_in_step inputs : forall d s' b',
  in_step d -> Forall (fun l => plain_line l = true) inputs -> Forall (fun l => spoken l = true) (typed inputs) ->
  converse syntax_error eval_vm (typed inputs) (session d) (backend d) = Ret (s', b') ->
  exists answers d', repl inputs d = Ret (Answered, d') /\ in_step d' /\ session d' = s' /\ backend d' = b' /\
    length answers = length (typed inputs) /\ sent s' = sent (session d) ++ answers /\
    turns d' = turns d ++ zip (typed inputs) (map (fun t => [t]) answers).
Proof.
  induction inputs as [|line inputs IH]; intros d s' b' Hd Hp Hsp.
  - intros [= <- <-]. exists [], d. cbn. by rewrite !app_nil_r.
  - apply Forall_cons_1 in Hp as [Hl Hp]. cbn [typed repl] in *. destruct (str_empty line) eqn:Ee; [by apply IH|].
    unfold local_exit. rewrite (proj1 Hd). cbn [negb andb]. destruct (str_in line _).
    + intros [= <- <-]. exists [], d. cbn. by rewrite !app_nil_r.
    + apply Forall_cons_1 in Hsp as [Hs Hsp]. intros ([s1 b1] & E1 & E)%obind_ret_inv. cbn [fst snd] in E.
      destruct (spoken_line line d s1 b1 Hd Hl Hs E1) as (text & d1 & -> & Hd1 & <- & <- & Hs1 & Ht1). cbn [obind fst snd].
      destruct (IH d1 s' b' Hd1 Hp Hsp E) as (answers & d' & -> & Hd' & Es & Eb & En & Esent & Et).
      exists (text :: answers), d'. split_and!; [done..| | |].
      * cbn [length]. by rewrite En.
      * by rewrite Esent, Hs1, <- app_assoc.
      * by rewrite Et, Ht1, <- app_assoc.
Qed.

(** The client and the server stay in step.  Whatever is typed, as long as no
    line consists of blanks, each line gets the one answer that the server gives
    to it, nothing is left over, and the client ends with its input or when the
    user leaves, with the server as its commands left it.  A line of blanks is sent
    and never answered: the client waits for ever. *)
Theorem console_client_in_step inputs b s' b' :
  Forall (fun l => plain_line l = true) inputs ->
  (Forall (fun l => spoken l = true) (typed inputs) ->
   converse syntax_error eval_vm (typed inputs) console_make b = Ret (s', b') ->
   exists d, repl inputs (dialogue_start b) = Ret (Answered, d) /\ session d = s' /\ backend d = b' /\
     length (sent s') = length (typed inputs) /\ turns d = zip (typed inputs) (map (fun t => [t]) (sent s')) /\
     incoming (client d) = [] /\ attached (client d) = false) /\
  (forall blank rest, inputs = blank :: rest -> blank <> "" -> spoken blank = false ->
   str_in blank ["exit"; "quit"; "q"] = false ->
   exists d, repl inputs (dialogue_start b) = Ret (Waiting, d) /\ turns d = [(blank, [])]).
Proof.
  intros Hp. assert (Hin : in_step (dialogue_start b)) by done. split.
  - intros Hs E. destruct (repl_in_step inputs _ _ _ Hin Hp Hs E) as (l & d & Ed & (Ha & Hi & _) & Es & Eb & En & Esent & Et).
    exists d. cbn in Esent. rewrite Esent. by split_and!.
  - intros blank rest -> Hne Hbl Hx. apply Forall_cons_1 in Hp as [Hp _]. cbn [repl].
    rewrite (proj2 (str_empty_false blank)) by done. unfold local_exit. cbn [client dialogue_start attached negb andb].
    rewrite Hx. destruct (blank_line blank _ Hin Hp Hbl) as (d & -> & _ & _ & Et). cbn. by exists d.
Qed.
End Dialogue.

(** ** A conversation *)

(** Errors are written behind a mark, and so are texts. *)
#[local] Instance marked_json : JsonLib := {
  json_parse := fun t => inr match string_of t with
                             | String "!" m => JObj (error_ m)
                             | String "=" d => JObj (result (JStr d))
                             | _ => JNull
                             end;
  json_dump := fun j =>
    match j with
    | JObj [(k, JStr m); (ty, JStr t)] =>
        if String.eqb ty "type" && str_all visible m then
          if String.eqb k "message" && String.eqb t "error" then inr ("!" +:+ m)
          else if String.eqb k "data" && String.eqb t "result" then inr ("=" +:+ m) else inl (StdExn "other")
        else inl (StdExn "other")
    | _ => inl (StdExn "other")
    end;
  json_error := fun _ _ _ => "type error"
}.

Lemma marked_dump j t : json_dump j = inr t ->
  exists m, str_all visible m = true /\ ((j = JObj (error_ m) /\ t = "!" +:+ m) \/ (j = JObj (result (JStr m)) /\ t = "=" +:+ m)).
Proof.
  cbn [json_dump marked_json].
  destruct j as [| | | | | | |[|[k [| | | | |m| |]] [|[ty [| | | | |u| |]] [|]]]]; try done.
  destruct (String.eqb_spec ty "type") as [->|]; [|done]. destruct (str_all visible m) eqn:Em; [|done]. cbn [andb].
  destruct (String.eqb_spec k "message") as [->|].
  - destruct (String.eqb_spec u "error") as [->|]; [|done]. cbn [andb]. intros [= <-]. exists m. split; [done|]. by left.
  - destruct (String.eqb_spec k "data") as [->|]; [|done]. destruct (String.eqb_spec u "result") as [->|]; [|done].
    cbn [andb]. intros [= <-]. exists m. split; [done|]. by right.
Qed.

#[local] Instance marked_laws : @ConsoleJson marked_json.
Proof.
  refine {| dump2 := fun _ => inr "" |}.
  - intros j t (m & Hm & [[_ ->]|[_ ->]])%marked_dump; done.
  - intros l t (m & Hm & E)%marked_dump. exists l.
    destruct E as [[[= ->] ->]|[[= ->] ->]]; (split; [cbn [json_parse marked_json]; by rewrite string_of_bytes_of|]);
      intros k; by destruct (obj_find k _).
  - intros t j k v _ _. by exists "".
Qed.

#[local] Instance client_machine : Machine := {|
  platform := Manifest.OtherPlatform; starters := []; cluster_enabled := false; read_file := fun _ => None;
  exists_ := fun _ => false; port_free := fun _ _ => true;
  codec_table := fun _ => Codec.mkVtable None None None false false; new_epoch := 0; clock_ := fun _ => 0; depth := 3
|}.

Definition served : Backend := mkBackend (after start) host_make config_make None Info.

Definition typing (inputs : list string) : outcome (progress * dialogue) :=
  @repl marked_json marked_laws demo_world client_machine (fun _ => None) echo_vm inputs (dialogue_start served).

Definition session_inputs : list string := ["root.log.level"; ""; "root.log.level debug"; "attach"; "quit"; "help"].

Lemma console_client_in_step_witness :
  exists d, typing session_inputs = Ret (Answered, d) /\ incoming (client d) = [] /\ length (turns d) = 3%nat /\
    out (client d) = ["Use: root.log.level [debug|info|warn|error]"; "Log level set to debug"] /\
    err (client d) = ["Error: Usage: attach <service>"].
Proof.
  assert (E : exists s b, @converse marked_json demo_world client_machine (fun _ => None) echo_vm (typed session_inputs)
    console_make served = Ret (s, b)) by (vm_compute; eauto).
  destruct E as (s & b & E).
  assert (Hp : Forall (fun l => plain_line l = true) session_inputs) by (repeat constructor).
  assert (Hs : Forall (fun l => spoken l = true) (typed session_inputs)) by (repeat constructor).
  destruct (proj1 (@console_client_in_step marked_json marked_laws demo_world client_machine (fun _ => None) echo_vm
    session_inputs served s b Hp) Hs E) as (d & Ed & _ & _ & Hn & Ht & Hi & _).
  exists d. split; [exact Ed|]. split; [exact Hi|]. revert Ed. clear. intros Ed.
  assert (Ev : exists d, typing session_inputs = Ret (Answered, d) /\ length (turns d) = 3%nat /\
    out (client d) = ["Use: root.log.level [debug|info|warn|error]"; "Log level set to debug"] /\
    err (client d) = ["Error: Usage: attach <service>"]) by (vm_compute; eauto).
  destruct Ev as (d' & Ev & Hr). unfold typing in Ev. rewrite Ed in Ev. injection Ev as <-. exact Hr.
Defined.

(** Blanks are sent and the client waits for the answer that the server does not
    give. *)
Example blanks_wait_for_ever :
  (let! r := typing ["root.log.level"; "  "; "quit"] in Ret (r.1, map fst (turns r.2))) = Ret (Waiting, ["root.log.level"; "  "]).
Proof. vm_compute. reflexivity. Qed.

(** A line of output that happens to be JSON, but no object, ends the program. *)
Lemma number_ends_client `{JsonLib, !ConsoleJson} text z c :
  json_parse (bytes_of text) = inr (JUInt z) -> exists x, handle_response text c = Throw x.
Proof. intros E. unfold handle_response. rewrite E. cbn. by eexists. Qed.

Example arguments :
  parse_args ["--sock"; "/run/a"; "--sock"; "/run/b"] default_sock = ConnectTo "/run/b" /\
  parse_args ["--sock"] default_sock = Usage (Some "--sock") /\
  map (fun a => exit_code (parse_args a default_sock) true) [[]; ["-h"]; ["x"]] = [0; 0; 1].
Proof. repeat split. Qed.
