(* ===== verification/PluginHttp.v ===== *)
(** * PluginHttp: the listeners of the health and metrics plugins

    Both plugins (plugins/health_http, plugins/metric_prometheus) start a thread
    that accepts one connection at a time and answers it, and stop it in their
    shutdown.  A label is one step of this thread, of a client or of the thread
    that shuts the plugin down; what is answered is an argument. *)

From S2P Require Import Prelude Text MiniJson Health Metrics.

(** ** The state of an instance *)

Inductive acceptor := NoAcceptor | Listening (port : Z) | ClosedAcceptor.

(** Where [io_thread] is: at the test of [running], in [accept], reading the
    request of a connection, or at its end. *)
Inductive io_thread := NotStarted | AtTest | BeforeAccept | InAccept | InRead | Ended.

(** The thread that runs [shutdown]. *)
Inductive shell := Alive | Joining | Deleted.

Section Listener.
Context {A Q R : Type} (serve : Q -> A -> R * A).

Record HttpInstance := mkHttp {
  hosted : A;
  running : bool;
  acceptor_ : acceptor;
  io : io_thread;
  shell_ : shell;
  requests : list Q;
  written : list R
}.

Definition http_make (a : A) : HttpInstance := mkHttp a false NoAcceptor NotStarted Alive [] [].

Definition set_io (t : io_thread) (s : HttpInstance) : HttpInstance :=
  mkHttp (hosted s) (running s) (acceptor_ s) t (shell_ s) (requests s) (written s).

(** What comes of the address and the port: the address is none, which throws
    before an acceptor is made; opening, binding or listening fails; or not. *)
Inductive binding := BadAddress | Refused | Bound.

(** [start]: the code, or [Undef] when a thread runs already, whose object must
    not be assigned and whose acceptor must not be replaced. *)
Definition http_start (port : Z) (b : binding) (s : HttpInstance) : outcome (Z * HttpInstance) :=
  match b, io s with
  | BadAddress, _ => Ret (1, s)
  | Refused, (NotStarted | Ended) =>
      Ret (1, mkHttp (hosted s) (running s) ClosedAcceptor (io s) (shell_ s) (requests s) (written s))
  | Bound, NotStarted => Ret (0, mkHttp (hosted s) true (Listening (cast 16 port)) AtTest (shell_ s) (requests s) (written s))
  | _, _ => Undef
  end.

(** [handle_session] behind the read. *)
Definition answer (q : Q) (s : HttpInstance) : HttpInstance :=
  let '(r, a) := serve q (hosted s) in
  mkHttp a (running s) (acceptor_ s) AtTest (shell_ s) (requests s ++ [q]) (written s ++ [r]).

(** [shutdown] up to the join. *)
Definition http_stop (s : HttpInstance) : HttpInstance :=
  mkHttp (hosted s) false (match acceptor_ s with Listening _ => ClosedAcceptor | a => a end) (io s) Joining (requests s) (written s).

Definition http_delete (s : HttpInstance) : HttpInstance :=
  mkHttp (hosted s) (running s) (acceptor_ s) (io s) Deleted (requests s) (written s).

(** [wakes]: closing an acceptor ends an [accept] that another thread is in. *)
Inductive http_label :=
| LTest                       (* the thread looks at [running] *)
| LEnter                      (* it calls [accept], which fails at once on a closed acceptor *)
| LAccepted                   (* a client connects *)
| LAcceptFails                (* accept fails for another reason *)
| LAcceptClosed               (* accept ends since the acceptor was closed *)
| LRequest (q : option Q)     (* the request of the client, if it sends one *)
| LShutdown
| LJoined.

Definition http_step (wakes : bool) (l : http_label) (s : HttpInstance) : option HttpInstance :=
  match l, io s, shell_ s with
  | LTest, AtTest, _ => Some (set_io (if running s then BeforeAccept else Ended) s)
  | LEnter, BeforeAccept, _ =>
      match acceptor_ s with NoAcceptor => None | Listening _ => Some (set_io InAccept s) | ClosedAcceptor => Some (set_io AtTest s) end
  | LAccepted, InAccept, _ =>
      match acceptor_ s with NoAcceptor => None | _ => Some (set_io InRead s) end
  | LAcceptFails, InAccept, _ => Some (set_io AtTest s)
  | LAcceptClosed, InAccept, _ =>
      match acceptor_ s with ClosedAcceptor => if wakes then Some (set_io AtTest s) else None | _ => None end
  | LRequest (Some q), InRead, _ => Some (answer q s)
  | LRequest None, InRead, _ => Some (set_io AtTest s)
  | LShutdown, _, Alive => Some (http_stop s)
  | LJoined, (NotStarted | Ended), Joining => Some (http_delete s)
  | _, _, _ => None
  end.

(** The states of an instance that the host starts at most once. *)
Inductive http_reachable (wakes : bool) (a : A) : HttpInstance -> Prop :=
| hr_made : http_reachable wakes a (http_make a)
| hr_started port b c s : http_start port b (http_make a) = Ret (c, s) -> http_reachable wakes a s
| hr_step s l s' : http_reachable wakes a s -> http_step wakes l s = Some s' -> http_reachable wakes a s'.

(** ** What holds in all of them *)

Fixpoint serve_all (l : list Q) (a : A) : list R * A :=
  match l with
  | [] => ([], a)
  | q :: l => let '(r, a) := serve q a in let '(rs, a) := serve_all l a in (r :: rs, a)
  end.

Lemma serve_all_snoc l q a :
  serve_all (l ++ [q]) a = (let '(rs, b) := serve_all l a in let '(r, c) := serve q b in (rs ++ [r], c)).
Proof.
  revert a. induction l as [|p l IH]; intros a; cbn [app serve_all].
  - by destruct (serve q a).
  - destruct (serve p a) as [r b]. rewrite IH. destruct (serve_all l b) as [rs c]. by destruct (serve q c).
Qed.

Definition thread_active (t : io_thread) : bool := match t with NotStarted | Ended => false | _ => true end.

Record http_ok (a : A) (s : HttpInstance) : Prop := {
  hk_served : serve_all (requests s) a = (written s, hosted s);
  hk_deleted : shell_ s = Deleted -> thread_active (io s) = false;
  hk_running : running s = true <-> shell_ s = Alive /\ io s <> NotStarted;
  hk_ended : io s = Ended -> running s = false;
  hk_acceptor : thread_active (io s) = true -> acceptor_ s <> NoAcceptor;
  hk_closed : shell_ s <> Alive -> forall p, acceptor_ s <> Listening p
}.

Lemma http_step_ok wakes a l s s' : http_ok a s -> http_step wakes l s = Some s' -> http_ok a s'.
Proof.
  intros [H1 H2 H3 H4 H5 H6]. destruct s as [x run acc t sh qs rs]. cbn in *.
  destruct l as [| | | | |[q|]| |], t, sh; cbn; try discriminate; try (by specialize (H2 eq_refl)); intros E;
    repeat (case_match; cbn in *; try discriminate); simplify_eq/=.
  all: unfold answer; cbn; try (destruct (serve q x) as [r y] eqn:Eq); split; cbn; try done; try (intuition congruence); try (by destruct acc; intuition congruence).
  all: by rewrite serve_all_snoc, H1, Eq.
Qed.

Lemma http_reachable_ok wakes a s : http_reachable wakes a s -> http_ok a s.
Proof.
  induction 1 as [|port b c s E|s l s' _ IH E].
  - by split; cbn; try (intuition congruence).
  - destruct b; injection E as <- <-; by split; cbn; try (intuition congruence).
  - by eapply http_step_ok.
Qed.

Fixpoint http_run (wakes : bool) (ls : list http_label) (s : HttpInstance) : option HttpInstance :=
  match ls with [] => Some s | l :: ls => http_step wakes l s ≫= http_run wakes ls end.

Lemma http_run_reachable wakes a ls : forall s s', http_reachable wakes a s -> http_run wakes ls s = Some s' -> http_reachable wakes a s'.
Proof.
  induction ls as [|l ls IH]; intros s s' Hs; cbn [http_run]; [by intros [= <-]|].
  intros (s1 & E1 & E)%bind_Some. eapply IH; [|exact E]. by eapply hr_step.
Qed.

(** The labels that need no client. *)
Definition own_label (l : http_label) : bool :=
  match l with LAccepted | LAcceptFails | LRequest _ => false | _ => true end.

(** ** Properties *)

Ltac ends_here := eexists; split; [done|]; split; [cbn; lia|]; split; reflexivity.

(** C32: the listener of a plugin.  In every reachable state the answers are those
    of the requests one at a time, in the order they were read; the instance is
    not deleted while its thread runs; and the thread never uses an acceptor that
    does not exist.  A shutdown that waits for the thread ends by itself in at
    most three steps if closing the acceptor ends an accept and no client is being
    read; otherwise it waits for a client. *)
Theorem plugin_listener_sound wakes a s :
  http_reachable wakes a s ->
  (written s, hosted s) = serve_all (requests s) a /\
  (shell_ s = Deleted -> thread_active (io s) = false) /\
  (thread_active (io s) = true -> acceptor_ s <> NoAcceptor) /\
  (shell_ s = Joining ->
   (exists ls s', forallb own_label ls = true /\ (length ls <= 3)%nat /\ http_run wakes ls s = Some s' /\ shell_ s' = Deleted) \/
   io s = InRead \/
   (io s = InAccept /\ wakes = false /\ forall l, own_label l = true -> http_step wakes l s = None)).
Proof.
  intros [H1 H2 H3 H4 H5 H6]%http_reachable_ok. split_and!; [done..|]. intros Hj.
  assert (Hr : running s = false) by (destruct (running s) eqn:Er; [|done]; destruct (proj1 H3 eq_refl); congruence).
  destruct s as [x run acc t sh qs rs]. cbn in *. subst sh run. destruct t.
  - left. exists [LJoined]. ends_here.
  - left. exists [LTest; LJoined]. ends_here.
  - destruct acc as [|port|]; [by destruct H5|by destruct (H6 ltac:(done) port)|].
    left. exists [LEnter; LTest; LJoined]. ends_here.
  - destruct acc as [|port|]; [by destruct H5|by destruct (H6 ltac:(done) port)|]. destruct wakes.
    + left. exists [LAcceptClosed; LTest; LJoined]. ends_here.
    + right. right. split_and!; [done..|]. by intros [| | | | |[]| |] Hl.
  - by right; left.
  - left. exists [LJoined]. ends_here.
Qed.
End Listener.

(** ** The two plugins *)

Definition health_serve (clock : nat -> Z) : http_request -> HealthInstance -> http_response * HealthInstance :=
  fun req inst => Health.handle_session clock req inst.
Definition metrics_serve : http_request -> MetricInstance -> http_response * MetricInstance :=
  fun req inst => (metrics_session req inst, inst).

Definition plugin_start (cfg : health_config) (b : binding) := http_start (A := HealthInstance) (Q := http_request) (R := http_response)
  (hc_port cfg) b.

Definition idle_health : HealthInstance := mkHealth health_defaults [] SHIELD_HEALTH_OK.

Definition probe_run (wakes : bool) (ls : list http_label) : option (HttpInstance (A := HealthInstance) (Q := http_request) (R := http_response)) :=
  match plugin_start health_defaults Bound (http_make idle_health) with
  | Ret (_, s) => http_run (health_serve (fun _ => 0)) wakes ls s
  | _ => None
  end.

Definition two_probes : list http_label :=
  [LTest; LEnter; LAccepted; LRequest (Some (mkRequest true "/health")); LTest; LEnter; LAccepted; LRequest (Some (mkRequest true "/none")); LTest; LEnter; LShutdown].

Lemma plugin_listener_sound_witness :
  exists s ls s', probe_run true two_probes = Some s /\ map code (written s) = [200; 404] /\
    http_run (health_serve (fun _ => 0)) true ls s = Some s' /\ shell_ s' = Deleted.
Proof.
  assert (E : exists s, probe_run true two_probes = Some s /\ map code (written s) = [200; 404] /\ shell_ s = Joining /\
    io s = InAccept) by (vm_compute; eauto 10).
  destruct E as (s & E & Hw & Hj & Hi).
  assert (Hr : http_reachable (health_serve (fun _ => 0)) true idle_health s).
  { unfold probe_run in E. destruct (plugin_start _ _ _) as [[c s0]| |] eqn:Es; [|done..].
    eapply http_run_reachable; [|exact E]. eapply hr_started. exact Es. }
  destruct (proj2 (proj2 (proj2 (plugin_listener_sound (health_serve (fun _ => 0)) true idle_health s Hr))) Hj)
    as [(ls & s' & _ & _ & Hl & Hd)|[Hx|(_ & Hx & _)]].
  - exists s, ls, s'. exact (conj E (conj Hw (conj Hl Hd))).
  - exfalso. congruence.
  - exfalso. discriminate Hx.
Defined.

(** ** What goes wrong *)

(** Where closing does not end an accept of another thread, shutdown waits until
    one more client connects. *)
Example shutdown_waits_for_client :
  match probe_run false [LTest; LEnter; LShutdown] with
  | Some s => forallb (fun l => match http_step (health_serve (fun _ => 0)) false l s with None => true | Some _ => false end)
                [LTest; LEnter; LAcceptClosed; LShutdown; LJoined] && 
              match http_run (health_serve (fun _ => 0)) false [LAccepted; LRequest None; LTest; LJoined] s with
              | Some s => bool_decide (thread_active (io s) = false) | None => false end
  | None => false
  end = true.
Proof. vm_compute. reflexivity. Qed.

(** A client that connects and sends nothing keeps all others from being
    answered, and the plugin from being shut down. *)
Lemma silent_client_blocks {A Q R} (serve : Q -> A -> R * A) wakes s l s' :
  io s = InRead -> shell_ s <> Alive -> http_step serve wakes l s = Some s' -> exists q, l = LRequest q.
Proof. intros Hi Hs. destruct l as [| | | | |q| |]; cbn; rewrite ?Hi; try done; [by exists q|by destruct (shell_ s)]. Qed.

(** A port that is too large is another one. *)
Example port_wraps :
  (let! r := plugin_start (mkHealthConfig "0.0.0.0" 73622 "/health" "/ready") Bound (http_make idle_health) in Ret (acceptor_ r.2))
  = Ret (Listening 8086).
Proof. reflexivity. Qed.

(** A plugin that is started twice ends the program. *)
Example second_start_undefined :
  (let! r := plugin_start health_defaults Bound (http_make idle_health) in plugin_start health_defaults Bound r.2) = Undef.
Proof. reflexivity. Qed.
