(* ===== verification/LeaderboardPlugin.v ===== *)
(** * LeaderboardPlugin: the memory of the leaderboard plugin (plugins/leaderboard.redis)

    What the plugin allocates: the names of the fields of cached boards, and the
    results handed to callers with the functions that release them ([Heap]).
    Scores and boards are in [Leaderboard], the life of instances in
    [RedisPlugins]. *)

From Stdlib Require Import Sorting.Permutation.
From S2P Require Import Prelude SqlPlugin Heap Leaderboard.

(** ** The names of cached boards *)

(** The blocks of the names of each board. *)
Record names_memory := mkNames { heap_ : heap; names : gmap string (list Z) }.

(** [free_board_config_names] *)
Definition free_names (l : list Z) (h : heap) : outcome heap := free_each free l h.

Definition dup_names (n : nat) (h : heap) : list Z * heap := write_each (fun (_ : unit) => malloc) (replicate n tt) h.

(** [create_board] of the proxy with [n] fields. *)
Definition create_names (board : string) (n : nat) (m : names_memory) : outcome names_memory :=
  let! h := match names m !! board with Some l => free_names l (heap_ m) | None => Ret (heap_ m) end in
  let '(l, h) := dup_names n h in
  Ret (mkNames h (<[board := l]> (names m))).

(** [delete_board], once Redis has deleted it. *)
Definition delete_names (board : string) (m : names_memory) : outcome names_memory :=
  match names m !! board with
  | None => Ret m
  | Some l => let! h := free_names l (heap_ m) in Ret (mkNames h (delete board (names m)))
  end.

(** The boards at [shutdown]. *)
Definition shutdown_names (m : names_memory) : outcome names_memory :=
  let! h := free_each free_names (map_to_list (names m)).*2 (heap_ m) in Ret (mkNames h ∅).

Inductive names_op := CreateNames (board : string) (n : nat) | DeleteNames (board : string).

Fixpoint names_run (ops : list names_op) (m : names_memory) : outcome names_memory :=
  match ops with
  | [] => Ret m
  | CreateNames board n :: ops => let! m := create_names board n m in names_run ops m
  | DeleteNames board :: ops => let! m := delete_names board m in names_run ops m
  end.

(** ** Results *)

Record c_entry := mkCEntry { ce_player : option Z; ce_names : option (Z * list (option Z)); ce_values : option Z }.
Record c_top := mkCTop { ct_entries : option (Z * list c_entry); ct_error : option Z }.

(** [get_entry] with [n] fields. *)
Definition write_entry (n : nat) (h : heap) : c_entry * heap :=
  let '(player, h) := malloc h in
  let '(array, h) := malloc h in
  let '(values, h) := malloc h in
  let '(l, h) := write_each (fun (_ : unit) h => let '(p, h) := malloc h in (Some p, h)) (replicate n tt) h in
  (mkCEntry (Some player) (Some (array, l)) (Some values), h).

(** A row of [top_n]. *)
Definition write_row (player : string) (h : heap) : c_entry * heap :=
  let '(p, h) := malloc h in (mkCEntry (Some p) None None, h).

Definition write_top (rows : list string) (h : heap) : c_top * heap :=
  match rows with
  | [] => (mkCTop None None, h)
  | _ => let '(array, h) := malloc h in
         let '(l, h) := write_each write_row rows h in (mkCTop (Some (array, l)) None, h)
  end.

(** The error of [top_n]: a copy of its text. *)
Definition write_top_error (h : heap) : c_top * heap :=
  let '(p, h) := malloc h in (mkCTop None (Some p), h).

Definition free_names_array (a : option (Z * list (option Z))) (h : heap) : outcome heap :=
  match a with
  | None => Ret h
  | Some (array, l) => let! h := free_each free_some l h in free array h
  end.

Definition free_entry (e : c_entry) (h : heap) : outcome (c_entry * heap) :=
  let! h := free_some (ce_player e) h in
  let! h := free_names_array (ce_names e) h in
  let! h := free_some (ce_values e) h in
  Ret (mkCEntry None None None, h).

Definition free_top (r : c_top) (h : heap) : outcome (c_top * heap) :=
  match ct_entries r with
  | None => Ret (r, h)
  | Some (array, l) =>
      let! h := free_each (fun e h => let! p := free_entry e h in Ret p.2) l h in
      let! h := free array h in
      Ret (mkCTop None (ct_error r), h)
  end.

(** ** Lemmas *)

Definition blocks (m : gmap string (list Z)) : list Z := concat (map_to_list m).*2.

Lemma blocks_insert k l m : m !! k = None -> blocks (<[k := l]> m) ≡ₚ l ++ blocks m.
Proof. intros Hk. unfold blocks. by rewrite (map_to_list_insert m k l Hk). Qed.

Lemma blocks_delete k l m : m !! k = Some l -> blocks m ≡ₚ l ++ blocks (delete k m).
Proof. intros Hk. rewrite <- blocks_insert by apply lookup_delete_eq. by rewrite insert_delete_id. Qed.

(** [base] is what others have allocated. *)
Record names_ok (base : gset Z) (m : names_memory) : Prop := {
  no_once : NoDup (blocks (names m));
  no_apart : forall p, p ∈ blocks (names m) -> p ∉ base;
  no_live : live (heap_ m) = list_to_set (blocks (names m)) ∪ base;
  no_fresh : forall p, p ∈ live (heap_ m) -> p < fresh (heap_ m)
}.

Lemma free_part l k h base : NoDup (l ++ k) -> (forall p, p ∈ l ++ k -> p ∉ base) ->
  live h = list_to_set (l ++ k) ∪ base ->
  exists h', free_names l h = Ret h' /\ fresh h' = fresh h /\ live h' = list_to_set k ∪ base.
Proof.
  intros Hd Hb Hl. apply list.NoDup_app in Hd as (H1 & H2 & H3). eexists. split.
  - apply free_all_live; [done|]. intros p Hp. rewrite Hl. set_solver.
  - cbn. split; [done|]. rewrite Hl. apply set_eq. intros p. specialize (H2 p). specialize (Hb p). set_solver.
Qed.

Lemma delete_names_ok base board m : names_ok base m ->
  exists m', delete_names board m = Ret m' /\ names_ok base m' /\ names m' = delete board (names m) /\
    fresh (heap_ m') = fresh (heap_ m).
Proof.
  intros Hm. unfold delete_names. destruct (names m !! board) as [l|] eqn:El.
  - pose proof (blocks_delete _ _ _ El) as Hp. destruct Hm as [H1 H2 H3 H4]. rewrite Hp in H1.
    destruct (free_part l (blocks (delete board (names m))) (heap_ m) base) as (h & -> & Hf & Hl); [done| | |].
    + intros p. rewrite <- Hp. apply H2.
    + by rewrite H3, (list_to_set_perm_L _ _ Hp).
    + cbn. eexists. split; [done|]. cbn. split; [|done]. apply list.NoDup_app in H1 as (_ & _ & H1). split; cbn; [done| |done|].
      * intros p Hin. apply H2. rewrite Hp. set_solver.
      * intros p. rewrite Hl, Hf. intros Hin. apply H4. rewrite H3, (list_to_set_perm_L _ _ Hp), list_to_set_app_L. set_solver.
  - exists m. split; [done|]. split; [done|]. split; [|done]. by rewrite delete_id.
Qed.

Lemma dup_names_allocated n h : allocated (dup_names n h).1 h (dup_names n h).2.
Proof.
  pose proof (write_each_allocated (fun (_ : unit) => malloc) (fun p => [p]) (replicate n tt) (fun _ => allocated_malloc) h) as Ha.
  unfold dup_names. destruct (write_each _ _ h) as [l h']. cbn [fst snd] in *.
  assert (E : concat (map (fun p => [p]) l) = l) by (clear; induction l as [|p l IH]; cbn; by rewrite ?IH).
  by rewrite E in Ha.
Qed.

(** Creating a board is deleting the old one and allocating the names. *)
Lemma create_names_eq board n m :
  create_names board n m =
  (let! m := delete_names board m in
   let '(l, h) := dup_names n (heap_ m) in Ret (mkNames h (<[board := l]> (names m)))).
Proof.
  unfold create_names, delete_names. destruct (names m !! board) as [l|]; [|done].
  destruct (free_names l (heap_ m)) as [h| |]; [|done..]. cbn [obind heap_ names].
  destruct (dup_names n h). by rewrite insert_delete_eq.
Qed.

Lemma create_names_ok base board n m : (forall p, p ∈ base -> p < fresh (heap_ m)) -> names_ok base m ->
  exists m', create_names board n m = Ret m' /\ names_ok base m' /\ fresh (heap_ m) <= fresh (heap_ m').
Proof.
  intros Hbase Hm. rewrite create_names_eq. destruct (delete_names_ok base board m Hm) as (m1 & -> & [H1 H2 H3 H4] & En & Ef).
  cbn [obind]. pose proof (dup_names_allocated n (heap_ m1)) as [L1 L2 L3 L4].
  destruct (dup_names n (heap_ m1)) as [l h]. cbn [fst snd] in *. eexists. split; [done|]. split; [|cbn; lia].
  assert (Hp : blocks (<[board := l]> (names m1)) ≡ₚ l ++ blocks (names m1)).
  { apply blocks_insert. rewrite En. apply lookup_delete_eq. }
  split; cbn.
  - rewrite Hp. apply list.NoDup_app. split_and!; [done| |done]. intros p Hl%L2 Hin.
    assert (p < fresh (heap_ m1)); [|lia]. apply H4. rewrite H3. set_solver.
  - intros p. rewrite Hp. intros [Hl|Hin]%elem_of_app; [|by apply H2]. apply L2 in Hl. intros Hb%Hbase. lia.
  - rewrite L4, H3, (list_to_set_perm_L _ _ Hp), list_to_set_app_L. set_solver.
  - intros p. rewrite L4. intros [Hl%elem_of_list_to_set%L2|Hin%H4]%elem_of_union; lia.
Qed.

Lemma names_run_ok base ops : forall m, (forall p, p ∈ base -> p < fresh (heap_ m)) -> names_ok base m ->
  exists m', names_run ops m = Ret m' /\ names_ok base m'.
Proof.
  induction ops as [|[board n|board] ops IH]; intros m Hb Hm; cbn [names_run]; [by exists m|..].
  - destruct (create_names_ok base board n m Hb Hm) as (m' & -> & Hm' & Hf). apply IH; [|done]. intros p Hp%Hb. lia.
  - destruct (delete_names_ok base board m Hm) as (m' & -> & Hm' & _ & Hf). apply IH; [|done]. by rewrite Hf.
Qed.

Lemma names_start h : (forall p, p ∈ live h -> p < fresh h) -> names_ok (live h) (mkNames h ∅).
Proof.
  intros Hh. assert (E : blocks ∅ = []) by (unfold blocks; by rewrite map_to_list_empty).
  split; cbn; rewrite ?E; [constructor|set_solver|set_solver|done].
Qed.

(** ** Properties *)

(** The names of boards are given back.  Whatever boards scripts create again and
    delete, every name is freed once and none while its board is there; after
    [shutdown] the plugin holds no block of them. *)
Theorem board_names_returned ops h :
  (forall p, p ∈ live h -> p < fresh h) ->
  exists m m', names_run ops (mkNames h ∅) = Ret m /\ NoDup (blocks (names m)) /\
    (forall p, p ∈ blocks (names m) -> p ∈ live (heap_ m)) /\
    shutdown_names m = Ret m' /\ live (heap_ m') = live h.
Proof.
  intros Hh. destruct (names_run_ok (live h) ops (mkNames h ∅)) as (m & E & [H1 H2 H3 H4]); [done|by apply names_start|].
  exists m. unfold shutdown_names. rewrite (free_each_blocks free_names (fun l => l)) by done.
  destruct (free_part (blocks (names m)) [] (heap_ m) (live h)) as (h' & Ef & _ & Hl); [by rewrite app_nil_r..|].
  exists (mkNames h' ∅). split_and!; [done|done|intros p Hp; rewrite H3; set_solver| |cbn; set_solver].
  rewrite map_id. change (concat _) with (blocks (names m)). change (free_all (blocks (names m)) (heap_ m)) with (free_names (blocks (names m)) (heap_ m)).
  by rewrite Ef.
Qed.

Definition entry_blocks (e : c_entry) : list Z :=
  omap id [ce_player e] ++
  match ce_names e with None => [] | Some (array, l) => omap id l ++ [array] end ++ omap id [ce_values e].

Definition top_blocks (r : c_top) : list Z :=
  match ct_entries r with None => [] | Some (array, l) => concat (map entry_blocks l) ++ [array] end.

Definition some_block (p : option Z) : list Z := omap id [p].

Lemma omap_concat (l : list (option Z)) : concat (map some_block l) = omap id l.
Proof. induction l as [|[p|] l IH]; [done|..]; cbn; cbn in IH; by rewrite IH. Qed.

Lemma free_names_array_blocks a h :
  free_names_array a h = free_all (match a with None => [] | Some (array, l) => omap id l ++ [array] end) h.
Proof.
  destruct a as [[array l]|]; [|done]. cbn [free_names_array]. rewrite <- omap_concat. apply free_array, free_some_blocks.
Qed.

Lemma free_entry_blocks e h :
  free_entry e h = (let! h := free_all (entry_blocks e) h in Ret (mkCEntry None None None, h)).
Proof.
  unfold free_entry, entry_blocks. rewrite free_all_app, free_some_blocks.
  destruct (free_all (omap id [ce_player e]) h) as [h1| |]; cbn [obind]; [|done..].
  rewrite free_all_app, free_names_array_blocks. destruct (free_all _ h1) as [h2| |]; cbn [obind]; [|done..].
  by rewrite free_some_blocks.
Qed.

Lemma free_top_blocks r h :
  free_top r h = (let! h := free_all (top_blocks r) h in
                  Ret (match ct_entries r with Some _ => mkCTop None (ct_error r) | None => r end, h)).
Proof.
  destruct r as [[[array l]|] e]; [|done]. unfold free_top, top_blocks. cbn [ct_entries ct_error].
  rewrite <- (free_array (fun e h => let! p := free_entry e h in Ret p.2) entry_blocks l array h).
  - by destruct (free_each _ l h).
  - intros x k. rewrite free_entry_blocks. by destruct (free_all (entry_blocks x) k).
Qed.

Lemma write_entry_allocated n h : allocated (entry_blocks (write_entry n h).1) h (write_entry n h).2.
Proof.
  pose proof (allocated_malloc h) as H1. pose proof (allocated_malloc (malloc h).2) as H2.
  pose proof (allocated_malloc (malloc (malloc h).2).2) as H3.
  pose proof (write_each_allocated (fun (_ : unit) h => let '(p, h) := malloc h in (Some p, h)) some_block
    (replicate n tt) (fun _ => allocated_malloc) (malloc (malloc (malloc h).2).2).2) as H4.
  unfold write_entry. cbn [malloc fst snd] in *. destruct (write_each _ (replicate n tt) _) as [l h4]. cbn [fst snd] in *.
  rewrite omap_concat in H4.
  refine (allocated_app _ _ _ _ _ _ H1 (allocated_app _ _ _ _ _ _ H2 (allocated_app _ _ _ _ _ _ H3 H4 (reflexivity _)) (reflexivity _)) _).
  unfold entry_blocks. cbn. apply perm_skip. rewrite <- app_assoc. cbn.
  by rewrite Permutation_app_comm.
Qed.

Lemma write_row_allocated p h : allocated (entry_blocks (write_row p h).1) h (write_row p h).2.
Proof. exact (allocated_malloc h). Qed.

Lemma write_top_allocated rows h : allocated (top_blocks (write_top rows h).1) h (write_top rows h).2.
Proof.
  destruct rows as [|p rows]; [apply allocated_nil|]. pose proof (allocated_malloc h) as H1.
  pose proof (write_each_allocated write_row entry_blocks (p :: rows) write_row_allocated (malloc h).2) as H2.
  cbn [write_top malloc fst snd] in *. destruct (write_each write_row (p :: rows) _) as [l h2]. cbn [fst snd] in *.
  refine (allocated_app _ _ _ _ _ _ H1 H2 _). cbn. by rewrite Permutation_app_comm.
Qed.

(** What was allocated and is freed. *)
Lemma freed_after l h h' : (forall p, p ∈ live h -> p < fresh h) -> allocated l h h' ->
  free_all l h' = Ret (mkHeap (fresh h') (live h)).
Proof.
  intros Hf [H1 H2 H3 H4]. rewrite free_all_live by (try done; rewrite H4; set_solver). rewrite H4. do 2 f_equal.
  apply set_eq. intros p. split; [set_solver|]. intros Hp. set_unfold. split; [by right|]. intros Hl%H2. apply Hf in Hp. lia.
Qed.

(** The results of [get_entry] and [top_n] are given back by [free_entry] and
    [free_result]: each block once, and nothing else. *)
Theorem leaderboard_results_returned n rows h :
  (forall p, p ∈ live h -> p < fresh h) ->
  (let '(e, h1) := write_entry n h in free_entry e h1 = Ret (mkCEntry None None None, mkHeap (fresh h1) (live h))) /\
  (let '(r, h1) := write_top rows h in free_top r h1 = Ret (mkCTop None None, mkHeap (fresh h1) (live h))).
Proof.
  intros Hf. pose proof (write_entry_allocated n h) as He. pose proof (write_top_allocated rows h) as Ht. split.
  - destruct (write_entry n h) as [e h1]. cbn [fst snd] in He. by rewrite free_entry_blocks, (freed_after _ h h1).
  - assert (Er : ct_error (write_top rows h).1 = None) by (destruct rows; [done|]; cbn [write_top malloc]; by destruct (write_each _ _ _)).
    destruct (write_top rows h) as [[en er] h1]. cbn [fst snd ct_error] in *. subst er.
    rewrite free_top_blocks, (freed_after _ h h1) by done. cbn [obind]. by destruct en.
Qed.

(** The text of an error is never freed. *)
Example error_text_leaks : (let '(r, h) := write_top_error (mkHeap 0 ∅) in free_top r h) = Ret (mkCTop None (Some 0), mkHeap 1 {[ 0 ]}).
Proof. vm_compute. reflexivity. Qed.
