(* ===== verification/PluginLibrary.v ===== *)
(** * PluginLibrary: the loader of plugin libraries (src/plugin/plugin_library.cpp)

    Objects that own a handle of the dynamic loader, by their places: made by
    [load], moved from and assigned, and destroyed.  What [dlopen] gives is an
    argument; it gives the same handle again for a library that is open. *)

From Stdlib Require Import Sorting.Permutation.
From S2P Require Import Prelude Heap.

(** [handle_] of an object that lives; [None] for one that was destroyed. *)
Record Loader := mkLoader {
  objects : list (option (option Z));
  opened : list Z;
  closed : list Z
}.

Definition loader_start : Loader := mkLoader [] [] [].

Definition handle_at (i : nat) (s : Loader) : option (option Z) := mjoin (objects s !! i).

Definition set_handle (i : nat) (h : option (option Z)) (s : Loader) : Loader :=
  mkLoader (<[i := h]> (objects s)) (opened s) (closed s).

(** [dlopen]: a handle, or what [dlerror] says, which may be nothing. *)
Definition load (answer : option string + Z) (s : Loader) : string * Loader :=
  match answer with
  | inr h => ("", mkLoader (objects s ++ [Some (Some h)]) (opened s ++ [h]) (closed s))
  | inl msg => (default "dlopen failed" msg, mkLoader (objects s ++ [Some None]) (opened s) (closed s))
  end.

Definition is_loaded (h : option Z) : bool := match h with Some _ => true | None => false end.

(** [dlsym] is not asked without a handle or a name. *)
Definition resolve (dlsym : Z -> string -> option Z) (symbol : option string) (h : option Z) : option Z :=
  match h, symbol with Some h, Some symbol => dlsym h symbol | _, _ => None end.

(** [close] of the object at [i]. *)
Definition close_at (i : nat) (s : Loader) : Loader :=
  match handle_at i s with
  | Some (Some h) => mkLoader (<[i := Some None]> (objects s)) (opened s) (closed s ++ [h])
  | _ => s
  end.

Inductive loader_op :=
| OpLoad (answer : option string + Z)
| OpMove (from : nat)
| OpAssign (to from : nat)
| OpDestroy (i : nat).

(** [None]: an object that is not there. *)
Definition loader_step (o : loader_op) (s : Loader) : option Loader :=
  match o with
  | OpLoad answer => Some (load answer s).2
  | OpMove from =>
      h ← handle_at from s;
      Some (mkLoader (<[from := Some None]> (objects s) ++ [Some h]) (opened s) (closed s))
  | OpAssign to from =>
      h ← handle_at from s; _ ← handle_at to s;
      Some (if decide (to = from) then s else set_handle from (Some None) (set_handle to (Some h) (close_at to s)))
  | OpDestroy i => _ ← handle_at i s; Some (set_handle i None (close_at i s))
  end.

Inductive loader_reachable : Loader -> Prop :=
| lr_start : loader_reachable loader_start
| lr_step o s s' : loader_reachable s -> loader_step o s = Some s' -> loader_reachable s'.

(** The handles that living objects own. *)
Definition held (l : list (option (option Z))) : list Z := omap mjoin l.

(** ** Lemmas *)

Lemma held_change l i x y : l !! i = Some x -> omap mjoin [x] ++ held (<[i := y]> l) ≡ₚ omap mjoin [y] ++ held l.
Proof. apply omap_change. Qed.

Lemma handle_at_object i s h : handle_at i s = Some h -> objects s !! i = Some (Some h).
Proof. unfold handle_at. destruct (objects s !! i) as [[]|]; cbn; congruence. Qed.

(** Every handle is owned or closed, as often as it was opened. *)
Definition accounted (s : Loader) : Prop := closed s ++ held (objects s) ≡ₚ opened s.

Lemma close_at_accounted i s : accounted s -> accounted (close_at i s).
Proof.
  unfold accounted, close_at. intros Hs. destruct (handle_at i s) as [[h|]|] eqn:E; [|done..]. cbn.
  rewrite <- Hs, <- app_assoc. apply Permutation_app_head. by rewrite <- (held_change _ _ _ (Some None) (handle_at_object _ _ _ E)).
Qed.

Lemma close_at_here i s h : handle_at i s = Some h -> objects (close_at i s) !! i = Some (Some None).
Proof.
  intros E. pose proof (handle_at_object _ _ _ E) as Ho. unfold close_at. rewrite E. destruct h; [|done]. cbn.
  apply list_lookup_insert_eq. by eapply lookup_lt_Some.
Qed.

Lemma close_at_other i j s : i <> j -> objects (close_at i s) !! j = objects s !! j.
Proof. intros Hn. unfold close_at. destruct (handle_at i s) as [[h|]|]; [|done..]. by apply list_lookup_insert_ne. Qed.

Lemma accounted_change s objects' opened' :
  accounted s -> held objects' ≡ₚ held (objects s) -> opened' = opened s -> accounted (mkLoader objects' opened' (closed s)).
Proof. unfold accounted. cbn. by intros Hs -> ->. Qed.

Lemma loader_step_accounted o s s' : accounted s -> loader_step o s = Some s' -> accounted s'.
Proof.
  intros Hs. destruct o as [[msg|h]|from|to from|i]; cbn [loader_step load snd].
  - intros [= <-]. apply accounted_change; [done| |done]. unfold held. by rewrite omap_app, app_nil_r.
  - intros [= <-]. unfold accounted, held in *. cbn. by rewrite omap_app, app_assoc, Hs.
  - intros (h & E & [= <-])%bind_Some. apply accounted_change; [done| |done]. unfold held. rewrite omap_app.
    rewrite Permutation_app_comm. by apply (held_change _ _ (Some h) (Some None)), handle_at_object.
  - intros (h & E & (x & Ex & [= <-])%bind_Some)%bind_Some. destruct (decide (to = from)) as [|Hn]; [done|].
    apply (accounted_change (close_at to s)); [by apply close_at_accounted| |done]. cbn.
    pose proof (held_change _ _ _ (Some h) (close_at_here _ _ _ Ex)) as H1.
    assert (Hf : <[to := Some h]> (objects (close_at to s)) !! from = Some (Some h)).
    { rewrite list_lookup_insert_ne, close_at_other by done. by apply handle_at_object. }
    pose proof (held_change _ _ _ (Some None) Hf) as H2. cbn [omap list_omap mjoin option_join app] in H1, H2.
    apply (Permutation_app_inv_l (omap mjoin [Some h])). etransitivity; [exact H2|exact H1].
  - intros (h & E & [= <-])%bind_Some. apply accounted_change; [by apply close_at_accounted| |done].
    exact (held_change _ _ _ None (close_at_here _ _ _ E)).
Qed.

(** ** Properties *)

(** Handles are closed as often as they were opened: in every reachable state each
    opening is owned by exactly one living object or was closed, and once every
    object is destroyed exactly what was opened has been closed. *)
Theorem handles_closed_once s : loader_reachable s ->
  closed s ++ held (objects s) ≡ₚ opened s /\
  (Forall (fun o => o = None) (objects s) -> closed s ≡ₚ opened s).
Proof.
  intros Hs. assert (Ha : accounted s).
  { induction Hs as [|o s s' _ IH E]; [exact (Permutation_refl [])|by eapply loader_step_accounted]. }
  split; [done|]. intros Hn. assert (E : held (objects s) = []).
  { clear -Hn. unfold held. induction Hn as [|x l -> _ IH]; [done|]. exact IH. }
  unfold accounted in Ha. by rewrite E, app_nil_r in Ha.
Qed.

(** A library is loaded, moved into the host's list and destroyed with it. *)
Example loaded_and_closed :
  (s ← loader_step (OpLoad (inr 7)) loader_start; s ← loader_step (OpMove 0) s; s ← loader_step (OpDestroy 0) s;
   s ← loader_step (OpDestroy 1) s; Some (opened s, closed s)) = Some ([7], [7]).
Proof. reflexivity. Qed.
