(* ===== verification/Results.v ===== *)
(** * Results: errors, results and times (src/include/shield/base)

    [Error] with its builders, [Result<T>] with its monadic operations, and the
    functions of time.hpp, in milliseconds. *)

From S2P Require Import Prelude.

(** ** Error *)

Record Error := mkError {
  code_ : string;
  message_ : string;
  retryable_ : bool;
  detail_ : string;
  context_ : gmap string string
}.

Definition error_make (code message : string) (retryable : bool) (detail : option string) : Error :=
  mkError code message retryable (default "" detail) ∅.
Definition no_error : Error := mkError "" "" false "" ∅.

Definition with_code (c : string) (e : Error) : Error := mkError c (message_ e) (retryable_ e) (detail_ e) (context_ e).
Definition with_message (m : string) (e : Error) : Error := mkError (code_ e) m (retryable_ e) (detail_ e) (context_ e).
Definition with_retryable (r : bool) (e : Error) : Error := mkError (code_ e) (message_ e) r (detail_ e) (context_ e).
Definition with_detail (d : string) (e : Error) : Error := mkError (code_ e) (message_ e) (retryable_ e) d (context_ e).
Definition with_context (k v : string) (e : Error) : Error :=
  mkError (code_ e) (message_ e) (retryable_ e) (detail_ e) (<[k := v]> (context_ e)).

(** [operator bool] *)
Definition error_set (e : Error) : bool := negb (bool_decide (code_ e = "")).

(** ** Result *)

Inductive Result (T : Type) := Ok (value : T) | Err (error : Error).
Arguments Ok {T} value.
Arguments Err {T} error.

Section Results.
Context {T U : Type}.

Definition is_ok (r : Result T) : bool := match r with Ok _ => true | Err _ => false end.
Definition is_error (r : Result T) : bool := match r with Ok _ => false | Err _ => true end.

(** [value()] and [error()] throw when the other one is there. *)
Definition result_value (r : Result T) : outcome T :=
  match r with Ok v => Ret v | Err _ => Throw (StdExn "bad_variant_access") end.
Definition result_error (r : Result T) : outcome Error :=
  match r with Err e => Ret e | Ok _ => Throw (StdExn "bad_variant_access") end.

Definition result_map (f : T -> U) (r : Result T) : Result U :=
  match r with Ok v => Ok (f v) | Err e => Err e end.
Definition and_then (f : T -> Result U) (r : Result T) : Result U :=
  match r with Ok v => f v | Err e => Err e end.
Definition or_else (f : Error -> Result T) (r : Result T) : Result T :=
  match r with Ok v => Ok v | Err e => f e end.
End Results.

(** ** Times

    Durations are counts of a signed 64-bit type, in the unit of the clock for
    points in time; [per_ms] of them are a millisecond. *)

Definition is_expired (now deadline : Z) : bool := deadline <=? now.

Definition remaining (per_ms now deadline : Z) : outcome Z :=
  let r := deadline - now in
  if (r <? - 2 ^ 63) || (2 ^ 63 <=? r) then Undef
  else if r <? 0 then Ret 0 else Ret (Z.quot r per_ms).

(** ** Properties *)

(** A chain of steps that may fail is the same however it is grouped, steps behind
    the first failure do not run, and a handler of errors sees exactly this one. *)
Theorem result_chains {A B C} (r : Result A) (f : A -> Result B) (g : B -> Result C) (h : Error -> Result C) :
  and_then g (and_then f r) = and_then (fun a => and_then g (f a)) r /\
  or_else h (and_then g (and_then f r)) =
    match r with
    | Err e => h e
    | Ok a => match f a with Err e => h e | Ok b => or_else h (g b) end
    end /\
  (is_ok (and_then g (and_then f r)) = true <-> exists a b, r = Ok a /\ f a = Ok b /\ is_ok (g b) = true).
Proof.
  split_and!; [by destruct r|by destruct r as [a|]; [cbn; destruct (f a)|]|].
  destruct r as [a|e]; [|split; [done|by intros (a & b & E & _)]]. split.
  - cbn. destruct (f a) as [b|e] eqn:E; [|done]. intros H. by exists a, b.
  - intros (a' & b & [= <-] & E & H). cbn. by rewrite E.
Qed.

(** While something remains the deadline has not passed; the part of a
    millisecond that is cut off makes the reverse false. *)
Theorem remaining_expired per_ms now deadline r :
  0 < per_ms -> remaining per_ms now deadline = Ret r ->
  0 <= r /\ (0 < r -> is_expired now deadline = false) /\ (is_expired now deadline = true -> r = 0) /\
  r * per_ms <= Z.max 0 (deadline - now) < (r + 1) * per_ms.
Proof.
  unfold remaining, is_expired. intros Hp. destruct (_ || _); [done|].
  destruct (Z.ltb_spec (deadline - now) 0) as [Hn|Hn]; intros [= <-].
  - split_and!; [lia|lia|done|lia|nia].
  - assert (Hq := Z.quot_pos (deadline - now) per_ms Hn Hp).
    assert (Hm := Z.quot_rem' (deadline - now) per_ms). assert (Hr := Z.rem_bound_pos (deadline - now) per_ms Hn Hp).
    split_and!; [done|intros H0; apply Z.leb_gt; nia|intros H0%Z.leb_le; nia|nia|nia].
Qed.

Example almost_expired : remaining 1000000 0 999999 = Ret 0 /\ is_expired 0 999999 = false.
Proof. split; reflexivity. Qed.
