(* ===== verification/LuaScripts.v ===== *)
(** * LuaScripts: VMs and the scripts they run (src/lua/lua_runtime.cpp)

    What [LuaRuntime] does to a VM before a service uses it: creation, the API
    and the plugins' bindings, loading of scripts through the cache of sources,
    and globals.  The Lua compiler and interpreter are a class. *)

From Stdlib Require Import Floats.SpecFloat.
From S2P Require Import Prelude Numbers Text Doubles Json Config Schema LuaPack LuaJson PluginHost ServiceState ScriptCache.

(** ** VMs *)

(** What a script sees and may change. *)
Record LuaSide := mkSide {
  package_ : LuaState;
  has_api : bool;
  globals : gmap string lval
}.

(** [state_] and [service_table_]; no script reaches the latter. *)
Record Vm := mkVm { side : LuaSide; service_table : option LuaVM }.

(** The compiler and interpreter: [run_chunk] gives the error or what the chunk
    returns, [None] when this is no table; [call_global] the error of a call
    without arguments. *)
Class LuaInterpreter := {
  chunk : Type;
  lua_load : string -> string -> string + chunk;
  run_chunk : chunk -> LuaSide -> (string + option LuaVM) * LuaSide;
  call_global : lval -> LuaSide -> option string * LuaSide
}.

Definition create_vm (c : Config) : Vm :=
  let path := get_string c "lua.module_path" "scripts/?.lua;scripts/?/init.lua" in
  mkVm (mkSide (mkLuaState true (Some path) None) false ∅) None.

(** ** Loading *)

Section Loading.
Context `{LuaInterpreter, Plugins}.

(** [register_api]: the paths of the plugins are added and their bindings made,
    in the order in which they were started; the error of the first that fails. *)
Definition register_vm_api (h : Host) (vm : Vm) : option string * Host * Vm :=
  let '(h', e) := register_lua_all h in
  (e, h', mkVm (mkSide (inject_lua_paths h (package_ (side vm))) true (globals (side vm))) (service_table vm)).

(** [load_service_module] behind the cache. *)
Definition run_source (path source : string) (vm : Vm) : option string * Vm :=
  match lua_load source path with
  | inl e => (Some e, vm)
  | inr c =>
      match run_chunk c (side vm) with
      | (inl e, l) => (Some e, mkVm l (service_table vm))
      | (inr None, l) => (Some "service module must return a table", mkVm l (service_table vm))
      | (inr (Some t), l) => (None, mkVm l (Some t))
      end
  end.

Definition load_module (c : LuaCacheConfig) (now : Z) (s1 s2 s3 : snapshot) (path : string) (m : script_cache) (vm : Vm)
  : option string * script_cache * Vm :=
  match load_source c now s1 s2 s3 path m with
  | (inl e, m) => (Some e, m, vm)
  | (inr source, m) => let '(e, vm) := run_source path source vm in (e, m, vm)
  end.

(** [load_script], which reads the file itself and tells no reason. *)
Definition load_script (s : snapshot) (path : string) (vm : Vm) : bool * Vm :=
  match content s path with
  | None => (false, vm)
  | Some source =>
      match lua_load source path with
      | inl _ => (false, vm)
      | inr c => let '(r, l) := run_chunk c (side vm) in
                 (match r with inl _ => false | inr _ => true end, mkVm l (service_table vm))
      end
  end.

(** What [LuaServiceManager::spawn] makes of a script before it creates the
    actor: the error, or the table of the service. *)
Definition prepare (c : LuaCacheConfig) (cfg : Config) (now : Z) (s : snapshot) (path : string) (h : Host) (m : script_cache)
  : (string + LuaVM) * Host * script_cache :=
  let '(e, h, vm) := register_vm_api h (create_vm cfg) in
  match e with
  | Some e => (inl ("Failed to register Lua API: " +:+ e), h, m)
  | None =>
      let '(e, m, vm) := load_module c now s s s path m vm in
      match e, service_table vm with
      | None, Some t => (inr t, h, m)
      | _, _ => (inl ("Failed to load module: " +:+ path +:+ ": " +:+ default "" e), h, m)
      end
  end.

(** ** Globals *)

(** The texts are put together, not written as JSON. *)
Definition answer_text (member value : string) : string := "{" +:+ quoted member +:+ ": " +:+ value +:+ "}".

Definition call_function (name : string) (vm : Vm) : string * Vm :=
  match globals (side vm) !! name with
  | None | Some VNil => (answer_text "error" (quoted "function not found"), vm)
  | Some f =>
      match call_global f (side vm) with
      | (None, l) => (answer_text "ok" "true", mkVm l (service_table vm))
      | (Some e, l) => (answer_text "error" (quoted e), mkVm l (service_table vm))
      end
  end.
End Loading.

Definition global_number (d : spec_float) : outcome string :=
  let! as_int := float_cast (- 2 ^ 63) (2 ^ 63 - 1) d in
  Ret (if SFeqb (double_of_Z as_int) d then to_string_i64 as_int else to_string_double d).

Definition get_global (name : string) (vm : Vm) : outcome string :=
  match globals (side vm) !! name with
  | Some (VStr s) => Ret (string_of s)
  | Some (VInt z) => global_number (double_of_Z z)
  | Some (VNum bits) => global_number (double_of_bits bits)
  | _ => Ret ""
  end.

Definition set_global (name value : string) (vm : Vm) : Vm :=
  mkVm (mkSide (package_ (side vm)) (has_api (side vm)) (<[name := VStr (bytes_of value)]> (globals (side vm)))) (service_table vm).

(** ** Properties *)

Section Laws.
Context `{LuaInterpreter, Plugins}.

(** The VM in which the script of a service runs. *)
Definition script_side (cfg : Config) (h : Host) : LuaSide :=
  mkSide (inject_lua_paths h (package_ (side (create_vm cfg)))) true ∅.

(** The script of a service without a cache. *)
Definition module_of (s : snapshot) (cfg : Config) (h : Host) (path : string) : string + LuaVM :=
  match content s path with
  | None => inl ("Failed to open file: " +:+ path)
  | Some source =>
      match lua_load source path with
      | inl e => inl e
      | inr c =>
          match (run_chunk c (script_side cfg h)).1 with
          | inl e => inl e
          | inr None => inl "service module must return a table"
          | inr (Some t) => inr t
          end
      end
  end.

Lemma run_source_side path source vm :
  service_table vm = None ->
  (run_source path source vm).1 = None <-> is_Some (service_table (run_source path source vm).2).
Proof.
  intros Hn. unfold run_source. destruct (lua_load source path) as [e|c]; cbn; [rewrite Hn; by split; [|intros []]|].
  destruct (run_chunk c (side vm)) as [[e|[t|]] l]; cbn; rewrite ?Hn; (split; [done|intros []; done]) || (split; [by eexists|done]).
Qed.

(** C21: preparing a service is the same function of the files, the configuration and
    the plugins, whatever the cache holds: as long as the time of a file tells
    its content, the cache cannot be told from reading.  The script runs once,
    in a VM that has the API and the paths of all plugins already; when a
    plugin's bindings fail nothing is loaded.  The cache holds at most one script
    more than its limit. *)
Theorem prepare_is_module_of c history m cfg now s path h :
  0 <= max_size c ->
  (forall s1 s2 p, history s1 -> history s2 -> file_mtime s1 p = file_mtime s2 p -> content s1 p = content s2 p) ->
  cache_reachable c history m -> history s ->
  let '(r, h', m') := prepare c cfg now s path h m in
  h' = (register_lua_all h).1 /\
  match (register_lua_all h).2 with
  | Some e => r = inl ("Failed to register Lua API: " +:+ e) /\ m' = m
  | None =>
      r = match module_of s cfg h path with
          | inr t => inr t
          | inl e => inl ("Failed to load module: " +:+ path +:+ ": " +:+ e)
          end /\
      cache_reachable c history m'
  end /\
  cache_size m' <= max_size c + 1.
Proof.
  intros Hc Hid Hm Hs. unfold prepare, register_vm_api. pose proof (cache_reachable_size c history m Hc Hm) as Hz.
  destruct (register_lua_all h) as [h' [e|]]; cbn [fst snd]; [done|].
  unfold load_module. pose proof (cache_load c history now s path m Hs Hm) as Hm'.
  pose proof (load_source_reads c history m now s path Hid Hm Hs) as Hr.
  destruct (load_source c now s s s path m) as [r m']. cbn [fst snd] in Hm', Hr. subst r.
  pose proof (cache_reachable_size c history m' Hc Hm') as Hz'.
  unfold module_of. destruct (content s path) as [source|]; [|done].
  unfold run_source. change (side (mkVm _ _)) with (script_side cfg h).
  destruct (lua_load source path) as [e|ch]; [done|].
  by destruct (run_chunk ch (script_side cfg h)) as [[e|[t|]] l].
Qed.
End Laws.

(** ** Two versions of a script *)

(** Sources: [bad] does not compile, [number] returns no table, anything else
    returns a table with a function of its name, if it sees the API. *)
#[local] Instance demo_interpreter : LuaInterpreter := {|
  chunk := string;
  lua_load := fun source name => if String.eqb source "bad" then inl (name +:+ ": syntax error") else inr source;
  run_chunk := fun c l =>
    (if negb (has_api l) then inl "attempt to index a nil value (global 'shield')"
     else if String.eqb c "number" then inr None
     else inr (Some (mkVM (fun n => if String.eqb n c then Some NotFunction else None) true)), l);
  call_global := fun f l => (match f with VOther => None | _ => Some ("[string " +:+ quoted "f()" +:+ "]:1: failed") end, l)
|}.

#[local] Instance idle_plugins : Plugins := {|
  dlopen := fun _ _ => inl "no file"; entry_point := fun _ _ _ => None; create := fun _ _ _ => (1, None, mkErr None None);
  get_interface := fun _ _ _ => None; start := fun _ _ => (0, mkErr None None); register_lua := fun _ _ => (0, mkErr None None)
|}.

Lemma prepare_is_module_of_witness :
  let m := (load_source small_cache 5 (version 1 "old") (version 1 "old") (version 1 "old") "a.lua" ∅).2 in
  let '(r, _, m') := prepare small_cache config_make 9 (version 2 "new") "a.lua" host_make m in
  (match r with inr vm => vm_table vm "new" | inl _ => None end) = Some NotFunction /\ cache_reachable small_cache versions m'.
Proof.
  intros m.
  assert (Hid : forall s1 s2 p, versions s1 -> versions s2 -> file_mtime s1 p = file_mtime s2 p -> content s1 p = content s2 p)
    by (intros s1 s2 p [-> | ->] [-> | ->]; cbn; destruct (String.eqb p "a.lua"); try done; discriminate).
  assert (Hm : cache_reachable small_cache versions m) by (apply cache_load; [by left|apply cache_empty]).
  pose proof (prepare_is_module_of small_cache versions m config_make 9 (version 2 "new") "a.lua" host_make ltac:(done) Hid Hm (or_intror eq_refl)) as H.
  destruct (prepare small_cache config_make 9 (version 2 "new") "a.lua" host_make m) as [[r h'] m'].
  destruct H as [_ [[-> H] _]]. split; [reflexivity|exact H].
Defined.

(** What goes in as a global comes out. *)
Lemma global_text name value vm : get_global name (set_global name value vm) = Ret value.
Proof. unfold get_global, set_global. cbn. by rewrite lookup_insert_eq, string_of_bytes_of. Qed.

Definition with_global (v : lval) : Vm := mkVm (mkSide (mkLuaState true None None) true {[ "x" := v ]}) None.

(** Integers are read through doubles, and what is neither text nor number is
    an empty text. *)
Example globals_change :
  map (fun v => get_global "x" (with_global v)) [VInt (2 ^ 53 + 1); VInt (2 ^ 63 - 1); VBool true]
  = [Ret "9007199254740992"; Undef; Ret ""].
Proof. vm_compute. reflexivity. Qed.

(** A source that does not compile is kept in the cache and fails again. *)
Example bad_source_is_cached :
  let s := version 1 "bad" in
  let '(r, _, m) := prepare small_cache config_make 5 s "a.lua" host_make ∅ in
  (r, cache_size m) = (inl "Failed to load module: a.lua: a.lua: syntax error", 1).
Proof. vm_compute. reflexivity. Qed.

(** Lua quotes the source in its errors; the answer is then no JSON. *)
Example error_breaks_answer :
  (call_function "x" (with_global (VStr []))).1
  = "{" +:+ quoted "error" +:+ ": " +:+ quoted ("[string " +:+ quoted "f()" +:+ "]:1: failed") +:+ "}".
Proof. vm_compute. reflexivity. Qed.
