(* ===== verification/RedisPlugins.v ===== *)
(** * RedisPlugins: the life of the plugins over Redis (plugins/cache.redis, queue.redis, leaderboard.redis)

    The three plugins have the same registry of instances, the same use of the
    optional driver and the same namespace for scripts: instances are pointers,
    which the registry, the host and the proxies of scripts share. *)

From Stdlib Require Import Sorting.Permutation.
From S2P Require Import Prelude Json Heap RedisDriver CacheRedis QueueRedis Leaderboard.

(** ** Instances *)

Section Plugin.
Context {I H : Type}.

(** An instance with the handle that the driver's [connect] gave it. *)
Record Shell := mkShell { shell_id : string; instance : I; redis_handle : option H }.

(** The instances by pointer, [None] once deleted, the process-wide registry, the
    calls of the driver's [connect] and [disconnect], and the resolver of bindings
    that the namespace was made with. *)
Record PluginProcess := mkProcess {
  shells : list (option Shell);
  instances_map : gmap string nat;
  connected : list H;
  disconnected : list H;
  namespace : option (string -> option string)
}.

Definition process_start : PluginProcess := mkProcess [] ∅ [] [] None.

Definition shell_at (p : nat) (w : PluginProcess) : option Shell := mjoin (shells w !! p).

Definition set_shell (p : nat) (s : option Shell) (w : PluginProcess) : PluginProcess :=
  mkProcess (<[p := s]> (shells w)) (instances_map w) (connected w) (disconnected w) (namespace w).

(** [create]: the pointer, registered under the identifier. *)
Definition plugin_create (id : option string) (i : I) (w : PluginProcess) : nat * PluginProcess :=
  let p := length (shells w) in
  let id := default "" id in
  (p, mkProcess (shells w ++ [Some (mkShell id i None)]) (<[id := p]> (instances_map w)) (connected w) (disconnected w) (namespace w)).

(** [start]: what the driver's [connect] gives, if there is a driver; the code is
    always 0. *)
Definition plugin_begin (handle : option H) (p : nat) (s : Shell) (w : PluginProcess) : PluginProcess :=
  match handle with
  | None => w
  | Some h =>
      mkProcess (<[p := Some (mkShell (shell_id s) (instance s) (Some h))]> (shells w)) (instances_map w)
        (connected w ++ [h]) (disconnected w) (namespace w)
  end.

(** [shutdown] *)
Definition plugin_shutdown (p : nat) (s : Shell) (w : PluginProcess) : PluginProcess :=
  mkProcess (<[p := None]> (shells w)) (delete (shell_id s) (instances_map w)) (connected w)
    (disconnected w ++ match redis_handle s with Some h => [h] | None => [] end) (namespace w).

(** [register_lua]: the code; the namespace is made once. *)
Definition plugin_register_lua (has_state : bool) (resolver : option (string -> option string)) (w : PluginProcess) : Z * PluginProcess :=
  match has_state, resolver with
  | true, Some f =>
      (0, match namespace w with
          | Some _ => w
          | None => mkProcess (shells w) (instances_map w) (connected w) (disconnected w) (Some f)
          end)
  | _, _ => (1, w)
  end.

(** [__call] of the namespace: the instance of the proxy, or nil. *)
Definition plugin_call (binding : string) (w : PluginProcess) : option nat :=
  f ← namespace w; id ← f binding; instances_map w !! id.

Inductive plugin_op :=
| OpCreate (id : option string) (i : I)
| OpStart (p : nat) (handle : option H)
| OpShutdown (p : nat)
| OpRegisterLua (has_state : bool) (resolver : option (string -> option string))
| OpChange (p : nat) (i : I).   (* what the functions of the table and the proxy do *)

(** [None]: an instance that is not there, or a second start, which the host does
    not do. *)
Definition plugin_step (o : plugin_op) (w : PluginProcess) : option PluginProcess :=
  match o with
  | OpCreate id i => Some (plugin_create id i w).2
  | OpStart p handle =>
      s ← shell_at p w;
      match redis_handle s with None => Some (plugin_begin handle p s w) | Some _ => None end
  | OpShutdown p => s ← shell_at p w; Some (plugin_shutdown p s w)
  | OpRegisterLua b r => Some (plugin_register_lua b r w).2
  | OpChange p i => s ← shell_at p w; Some (set_shell p (Some (mkShell (shell_id s) i (redis_handle s))) w)
  end.

Inductive plugin_reachable : PluginProcess -> Prop :=
| pr_start : plugin_reachable process_start
| pr_step o w w' : plugin_reachable w -> plugin_step o w = Some w' -> plugin_reachable w'.

(** The handles of the living instances. *)
Definition held_handle (s : option Shell) : option H := s ≫= redis_handle.
Definition held_handles (w : PluginProcess) : list H := omap held_handle (shells w).

(** ** What holds in every state *)

Record plugin_ok (w : PluginProcess) : Prop := {
  po_registry : forall id p, instances_map w !! id = Some p -> exists s, shell_at p w = Some s /\ shell_id s = id;
  po_handles : disconnected w ++ held_handles w ≡ₚ connected w
}.

Lemma shell_at_pointer p w s : shell_at p w = Some s -> shells w !! p = Some (Some s).
Proof. unfold shell_at. destruct (shells w !! p) as [[]|]; cbn; congruence. Qed.

Lemma shell_at_insert p q s s' w m o d n :
  shell_at p w = Some s ->
  shell_at q (mkProcess (<[p := s']> (shells w)) m o d n) = if decide (q = p) then s' else shell_at q w.
Proof.
  intros Hs%shell_at_pointer. unfold shell_at. cbn. case_decide as Hq.
  - subst. by rewrite list_lookup_insert_eq by by eapply lookup_lt_Some.
  - by rewrite list_lookup_insert_ne.
Qed.

Lemma held_handle_change p w s s' : shell_at p w = Some s ->
  omap held_handle [Some s] ++ omap held_handle (<[p := s']> (shells w)) ≡ₚ omap held_handle [s'] ++ held_handles w.
Proof. intros Hs. by apply omap_change, shell_at_pointer. Qed.

(** A change of one instance that keeps its identifier keeps the registry right. *)
Lemma registry_kept p w s s' o d n :
  (forall id p, instances_map w !! id = Some p -> exists s, shell_at p w = Some s /\ shell_id s = id) ->
  shell_at p w = Some s -> shell_id s' = shell_id s ->
  forall id q, instances_map w !! id = Some q ->
  exists s0, shell_at q (mkProcess (<[p := Some s']> (shells w)) (instances_map w) o d n) = Some s0 /\ shell_id s0 = id.
Proof.
  intros Hw Hs Hi id q Hq. rewrite (shell_at_insert p q s) by done. destruct (Hw _ _ Hq) as (s0 & H0 & E0).
  case_decide as Hd; [|by exists s0]. subst q. exists s'. split; [done|]. rewrite Hs in H0. injection H0 as ->. congruence.
Qed.

Lemma plugin_step_ok o w w' : plugin_ok w -> plugin_step o w = Some w' -> plugin_ok w'.
Proof.
  intros [Hr Hh]. destruct o as [id i|p handle|p|b r|p i]; cbn [plugin_step].
  - intros [= <-]. split; cbn.
    + intros k q [[<- <-]|[_ Hq]]%lookup_insert_Some.
      * exists (mkShell (default "" id) i None). split; [|done]. unfold shell_at. cbn. by rewrite lookup_app_r, Nat.sub_diag.
      * destruct (Hr _ _ Hq) as (s & Hs & E). exists s. split; [|done]. apply shell_at_pointer in Hs. unfold shell_at. cbn.
        by rewrite (lookup_app_l_Some _ _ _ _ Hs).
    + unfold held_handles. cbn. by rewrite omap_app, app_nil_r.
  - intros (s & Hs & E)%bind_Some. destruct (redis_handle s) eqn:En; [done|]. injection E as <-.
    destruct handle as [h|]; [|done]. split; cbn.
    + by apply registry_kept with s.
    + pose proof (held_handle_change p w s (Some (mkShell (shell_id s) (instance s) (Some h))) Hs) as Hc.
      cbn in Hc. rewrite En in Hc. cbn in Hc. unfold held_handles. cbn.
      rewrite Hc, <- Permutation_middle, Hh. apply Permutation_cons_append.
  - intros (s & Hs & [= <-])%bind_Some. split; cbn.
    + intros id q [Hn Hq]%lookup_delete_Some. destruct (Hr _ _ Hq) as (s0 & H0 & E0).
      exists s0. split; [|done]. unfold plugin_shutdown. rewrite (shell_at_insert p q s) by done. case_decide; [|done]. congruence.
    + pose proof (held_handle_change p w s None Hs) as Hc. cbn in Hc. unfold held_handles. cbn.
      rewrite <- Hh, <- app_assoc. apply Permutation_app_head. rewrite <- Hc. by destruct (redis_handle s).
  - intros [= <-]. unfold plugin_register_lua. destruct b, r; cbn; try by split. by destruct (namespace w).
  - intros (s & Hs & [= <-])%bind_Some. split; cbn.
    + by apply registry_kept with s.
    + pose proof (held_handle_change p w s (Some (mkShell (shell_id s) i (redis_handle s))) Hs) as Hc. cbn in Hc.
      unfold held_handles. cbn. rewrite <- Hh. apply Permutation_app_head. by destruct (redis_handle s); [apply Permutation_cons_inv in Hc|].
Qed.

Lemma plugin_reachable_ok w : plugin_reachable w -> plugin_ok w.
Proof.
  induction 1 as [|o w w' _ IH E]; [|by eapply plugin_step_ok]. split; [intros id p Hp; cbn in Hp; by apply lookup_empty_Some in Hp|done].
Qed.

(** Whatever is created, started, shut down and registered in any order: scripts
    get only instances that live and have the identifier that the host names;
    every handle of the driver is owned by one living instance or was given
    back, and once all are deleted exactly the handles that were got have been
    given back. *)
Theorem plugin_instances_sound w : plugin_reachable w ->
  (forall binding p, plugin_call binding w = Some p ->
     exists f s, namespace w = Some f /\ shell_at p w = Some s /\ f binding = Some (shell_id s)) /\
  disconnected w ++ held_handles w ≡ₚ connected w /\
  (Forall (fun s => s = None) (shells w) -> disconnected w ≡ₚ connected w).
Proof.
  intros [Hr Hh]%plugin_reachable_ok. split_and!; [|done|].
  - intros binding p Hp. apply bind_Some in Hp as (f & Hf & Hp). apply bind_Some in Hp as (id & Hi & Hp).
    destruct (Hr _ _ Hp) as (s & Hs & <-). by exists f, s.
  - intros Hn. assert (E : held_handles w = []).
    { clear -Hn. unfold held_handles. induction Hn as [|s l -> _ IH]; [done|]. exact IH. }
    by rewrite E, app_nil_r in Hh.
Qed.
End Plugin.

Arguments Shell I H : clear implicits.
Arguments PluginProcess I H : clear implicits.

(** ** The three plugins *)

Section Plugins.
Context `{JsonLib}.

Definition cache_create (id config_json : option string) (w : PluginProcess cache_instance string) : nat * PluginProcess cache_instance string :=
  plugin_create id (parse_cache_config config_json) w.
Definition cache_begin (driver : option instances) (p : nat) (s : Shell cache_instance string) (w : PluginProcess cache_instance string)
  : PluginProcess cache_instance string := plugin_begin (cache_start driver) p s w.
Definition cache_shutdown : nat -> Shell cache_instance string -> PluginProcess cache_instance string -> PluginProcess cache_instance string :=
  plugin_shutdown.

(** An instance of the queue plugin with the channels that its scripts have
    subscribed to; each has a thread, which ends after its round once [running]
    is cleared. *)
Definition queue_create (id config_json : option string) (w : PluginProcess (queue_instance * gset string) string)
  : nat * PluginProcess (queue_instance * gset string) string :=
  plugin_create id (parse_queue_config config_json, ∅) w.
Definition queue_begin (driver : option instances) (p : nat) (s : Shell (queue_instance * gset string) string)
  (w : PluginProcess (queue_instance * gset string) string) : PluginProcess (queue_instance * gset string) string :=
  plugin_begin (queue_start driver) p s w.

Definition stop_all (s : Shell (queue_instance * gset string) string) : Shell (queue_instance * gset string) string :=
  mkShell (shell_id s) ((instance s).1, ∅) (redis_handle s).
Definition queue_shutdown (p : nat) (s : Shell (queue_instance * gset string) string) (w : PluginProcess (queue_instance * gset string) string)
  : PluginProcess (queue_instance * gset string) string := plugin_shutdown p (stop_all s) (set_shell p (Some (stop_all s)) w).

Definition lb_register (id config_json : option string) (w : PluginProcess LbInstance string) : nat * PluginProcess LbInstance string :=
  plugin_create id (lb_create id config_json) w.
Definition lb_start (driver : option instances) (p : nat) (s : Shell LbInstance string) (w : PluginProcess LbInstance string)
  : PluginProcess LbInstance string :=
  plugin_begin (match driver with Some l => match drv_connect l with inr id => Some id | inl _ => None end | None => None end) p s w.

(** The end of a queue's instance is that of the others. *)
Lemma queue_shutdown_step p s w : shell_at p w = Some s -> plugin_step (OpShutdown p) w = Some (queue_shutdown p s w).
Proof.
  intros Hs. cbn. rewrite Hs. unfold queue_shutdown, plugin_shutdown, set_shell, stop_all. cbn. by rewrite list_insert_insert_eq.
Qed.
End Plugins.

Definition plugin_run {I H} (ops : list (plugin_op (I := I) (H := H))) : option (PluginProcess I H) :=
  foldl (fun w o => w ≫= plugin_step o) (Some process_start) ops.

Lemma plugin_run_reachable {I H} (ops : list (plugin_op (I := I) (H := H))) w :
  plugin_run ops = Some w -> plugin_reachable w.
Proof.
  revert w. induction ops as [|o ops IH] using rev_ind; [intros w [= <-]; apply pr_start|].
  intros w. unfold plugin_run. rewrite foldl_app. cbn. intros (w1 & E1 & E)%bind_Some. eapply pr_step; [|exact E]. by apply IH.
Qed.

(** Two instances, of which one has a driver; the other is found by scripts. *)
Definition two_caches : list (plugin_op (I := cache_instance) (H := string)) :=
  [OpCreate (Some "a") cache_defaults; OpCreate (Some "b") cache_defaults; OpStart 0 (Some "driver"); OpStart 1 None;
   OpRegisterLua true (Some (fun b => if String.eqb b "main" then Some "b" else None)); OpShutdown 0].

Lemma plugin_instances_sound_witness :
  exists w, plugin_run two_caches = Some w /\
    plugin_call "main" w = Some 1%nat /\ disconnected w = ["driver"] /\
    (exists f s, namespace w = Some f /\ shell_at 1 w = Some s /\ f "main" = Some (shell_id s)).
Proof.
  assert (E : exists w, plugin_run two_caches = Some w /\
    plugin_call "main" w = Some 1%nat /\ disconnected w = ["driver"]) by (vm_compute; eauto).
  destruct E as (w & E & Hc & Hd). exists w. split; [exact E|]. split; [exact Hc|]. split; [exact Hd|].
  exact (proj1 (plugin_instances_sound w (plugin_run_reachable _ _ E)) "main" 1%nat Hc).
Defined.

(** ** What goes wrong *)

(** Of two instances with one identifier the first to end takes the other out of
    the registry. *)
Example second_instance_is_lost :
  (fun w => (plugin_call "a" w, shells w)) <$>
  (plugin_run [OpCreate (Some "a") cache_defaults; OpCreate (Some "a") cache_defaults; OpRegisterLua true (Some Some); OpShutdown 0])
  = Some (@None nat, [None; Some (@mkShell _ string "a" cache_defaults None)]).
Proof. vm_compute. reflexivity. Qed.

(** A proxy is a pointer: one that a script keeps uses a deleted instance. *)
Example kept_proxy_dangles :
  (fun w => shell_at 0 w) <$> (plugin_run [OpCreate (Some "a") cache_defaults; OpRegisterLua true (Some Some); OpShutdown 0])
  = Some (@None (Shell cache_instance string)).
Proof. vm_compute. reflexivity. Qed.
